(* ===== verification/_CoqProject ===== *)
-Q . S2P
Prelude.v
Order.v
Bytes.v
Encoding.v
Netip.v
Endpoint.v
Configuration.v
Identity.v
Provenance.v
Inventory.v
Text.v
Json.v
Url.v
SourceUri.v
SourceJson.v
Parse.v
Artifact.v
NativeCheck.v
Observation.v
Float64.v
Selection.v
SelectionFacts.v
Replay.v
Publish.v
Engine.v
Render.v
Authorize.v
HttpSource.v
HttpProfile.v
NetipPrint.v
Archive.v
Manifest.v
BuildInfo.v
Target.v
Executor.v
Scheduling.v
ProbeScheduler.v
Store.v
Rounds.v
SourceCache.v
SnapshotGuard.v
Pool.v
Refresh.v
Refresher.v
Profiles.v
Conditions.v
PoolController.v
Contracts.v
Checkpoint.v
Persistence.v
SecretPublisher.v
Managed.v
ManagedFacts.v
GatewayController.v
Reconcile.v
Composition.v
Pipeline.v
