(* ===== verification/Prelude.v ===== *)
(** * EgressFox, verified

    EgressFox (Go, under src/) collects proxy endpoints from subscription
    sources, probes them through a real engine, selects a stable subset and
    publishes an engine configuration for it.  This library is a shallow
    embedding of that program's own logic and the theorems that make it
    correct.  This file is the root: after this overview it holds the result
    monad, machine integers, instants and the tactics all files share.

    ** The program and how its parts interact

    A source (internal/source) is a Secret or an HTTP subscription; parsing
    its payload yields records, a connection configuration with its provenance
    (internal/endpoint).  A refresher (internal/controller,
    internal/operator) keeps HTTP payloads in a cache, and the snapshots of
    all sources of a pool make one deduplicated inventory.  The pipeline
    (internal/operator) chooses which endpoints to probe, the scheduler and
    the executor (internal/probe) run the probes, and the observations
    (internal/observation) are appended to a SQLite history (internal/state).
    Reconciliation (internal/reconcile) summarizes the history, selects
    (internal/selection), renders the selection for an engine
    (internal/engine, internal/policy), validates the artifact
    (internal/artifact), stages the decision in the store, publishes the
    artifact as a file (internal/publish), a Kubernetes Secret or a generation
    Secret (internal/operator), and commits the decision once the publication
    is read back.  A guard refuses the publication when its inputs have
    changed.  The controllers (internal/controller) run the pipeline and the
    managed runtime, which activates published generations, and report both in
    the status of the resources.  The release packages
    (internal/releasemanifest, internal/buildinfo) pin and fetch the engines.

    ** Files

    Foundations.  [Order]: three-way comparisons and Go's sorts.  [Bytes],
    [Encoding], [Netip], [NetipPrint], [Text]: byte strings, base 32 and 64,
    hexadecimal, net/netip, strings, and Go maps with string keys ([gomap]);
    SHA-256 is the class [Digest].  [Json], [Url]: what the program uses of
    encoding/json and net/url.  [Float64]: the binary64 operations of the
    confidence bound.

    Endpoints (internal/endpoint, internal/source/snapshot.go).  [Endpoint]:
    address.go, errors.go.  [Configuration]: configuration.go, advanced.go;
    [made] are the values the exported constructors return and [wf] is the
    invariant they establish.  [Identity]: identity.go.  [Provenance]:
    provenance.go.  [Inventory]: inventory.go and the set of snapshots.

    Sources (internal/source).  [SourceUri] and [SourceJson]: the URI and JSON
    formats.  [Parse]: parse.go, payload.go, errors.go.  [HttpSource]: http.go
    and retry.go over a network that answers anything.

    Pools (internal/operator, internal/controller).  [HttpProfile]:
    http_profile.go.  [Pool]: pool.go, where every read may see another state
    of the API server.  [Refresh]: http_refresh.go.  [Refresher]:
    http_refresher.go as a step relation over its critical sections.
    [Profiles]: profiles.go and the target of pipeline.go.  [Conditions],
    [PoolController]: conditions.go, proxypool_controller.go.

    Evidence.  [Observation], [Target]: internal/observation.  [Store]: the
    observations table of internal/state/sqlite.go with retention, over [DB],
    a monad in which every statement may fail.  [SourceCache]:
    internal/state/source_cache.go.

    Probing.  [Authorize]: internal/probe/authorize.go.  [Executor]:
    executor.go, over recorded answers of the resolver, the operating system,
    the engine and the HTTP client.  [ProbeScheduler]: scheduler.go as a state
    machine with one event per atomic action.  [Scheduling]: the cohorts,
    demands, reservations and rounds of internal/operator/pipeline.go.
    [Rounds]: the execution of a round in [Pipeline.Run].

    Decisions.  [Selection] is internal/selection/selection.go,
    [SelectionFacts] its theorems and [Replay] replay.go.  [Checkpoint]: the
    decision checkpoints of internal/state/sqlite.go.  [Persistence]: what
    [Select] returns can be stored and read back.

    Publication.  [Artifact]: artifact.go.  [NativeCheck]: native.go.
    [Engine]: engine/renderer.go and policy/gateway.go.  [Render]: the Mihomo
    and sing-box renderers.  [Publish]: publish/file.go over a file system
    whose calls fail or crash.  [SecretPublisher]: operator/secret_publisher.go
    over an API server that may fail a request with or without applying it.
    [SnapshotGuard]: operator/snapshot_guard.go.  [Contracts]: what
    reconciliation relies on, as the classes [Decisions] and [Publisher].
    [Reconcile]: reconcile/reconcile.go, proved from the classes.
    [Composition]: the store and the Secret publisher discharge the classes.
    [Pipeline]: the publication phase of [Pipeline.Run], the reservation and
    its settlement around the reconciliation.

    Runtime and gateways.  [Managed] is operator/managed_runtime.go and
    [ManagedFacts] its theorems; its generation publisher is a [Publisher].
    [GatewayController]: controller/egressgateway_controller.go.

    Releases.  [Archive] and [Manifest]: internal/releasemanifest.
    [BuildInfo]: internal/buildinfo/identity.go.

    ** What the theorems show

    Selection is sound, stable and order-independent, and its state is
    invariant and storable ([SelectionFacts], [Persistence]); a replay reports
    exactly its decisions ([Replay]).  Publication is atomic and recoverable
    under any single failed call or crash, artifact and decision stay together,
    and reports are true ([Publish], [SecretPublisher], [Checkpoint],
    [Reconcile]); a run of the pipeline maintains the endpoints of
    what it writes ([Pipeline]).  The store and the source cache
    implement an abstract history, two-slot checkpoints and a map of entries
    ([Store], [Checkpoint], [SourceCache]); the stored summary is the summary
    of what was recorded.  Identities hash exactly what they should, and
    deduplication merges exactly equal connections, as long as the inputs at
    hand do not collide under SHA-256 ([Identity], [Inventory], [Artifact]).  Parsing admits
    only well-formed records within its limits and its report is the tally of
    the verdicts ([Parse]).  Downloads go to permitted destinations, are
    bounded, are spaced by the refresh interval, are committed only while the
    source is still wanted as it was, and are then served by the pool
    ([HttpSource], [Refresh], [Refresher]); a pool's inventory is that of its
    sources and no input of it goes unwatched ([Pool], [GatewayController]).
    Probes stay within their limits in every interleaving, end, reach only
    permitted addresses and report what happened ([ProbeScheduler],
    [Authorize], [Executor]); probing budgets and cohorts are bounded, rounds
    complete or are repeated, and a committed selection stays maintained
    ([Scheduling], [Rounds]).  Rendered documents are complete and tell
    connections apart ([Render]).  The guard passes exactly when its inputs
    are as they were read ([SnapshotGuard]).  The managed runtime changes only
    objects of its gateway, keeps what is in use, and its credentials are
    stable; conditions and statuses are true ([ManagedFacts],
    [PoolController], [GatewayController]).  What a release installs is
    determined by its manifest, and archives are unpacked below their
    directory ([Manifest], [Archive], [BuildInfo]).  Where the code does not
    do what it means to, a theorem or an example shows it on a concrete input.

    ** Conventions, bounds and fuel

    An [error] result is a [result] value, a nil pointer [None], a byte a
    bounded [Z].  Integers are unbounded where a guard of the code bounds
    them, and wrap at 64 bits ([wrap64]) where the code does arithmetic on
    caller-supplied values.  An instant is the number of nanoseconds since
    year 1; [unix_nano] wraps outside 1678-2262.  Where a function reads the
    clock several times, [now i] is the i-th reading.  Mutex-protected methods
    are atomic functions of their state.  Map iteration is [map_to_list],
    whose order no theorem uses, or [range] of the class [MapOrder], over which
    the theorems quantify.  Of Kubernetes objects the fields the code sets or
    reads are modelled; what the server fills in is not.

    Fuel: [itoa] prints up to 20 digits, enough for any 64-bit number;
    [parse_fields] makes at most eight turns, one per field of an IPv6
    address; [hex_acc] prints four digits, a field, and [decimal_digits] five,
    a port; [groups] cuts a bit list of its fuel's length; [scan_batch] looks
    at each record once, and its fuel is their number; [trim_with],
    [fields_from], [split_at] and the JSON grammar consume a byte in each turn,
    and their fuel is the length of the text; [follow] has one turn more
    than the redirect limit ([follow_fuel] shows that it is enough).  Every scheduler run has at most 17
    events per job plus one per worker and two ([schedule_terminates] proves
    it).  All other recursion is structural.

    ** Parameters

    SHA-256 ([Digest]: only the length of a digest; a theorem that needs
    different inputs to have different digests says of which finite list of
    inputs, with [coll_free]), encoding/json of
    receipts and checkpoints ([ReceiptCodec], [CheckpointCodec]: decoding
    what was encoded, for text that is valid UTF-8), [url.Parse]
    ([UrlParser], with an instance that has its documented behaviour), the
    YAML and JSON serializers of the renderers, gzip and tar, the resolver,
    connections and servers, the Kubernetes API server (what each read
    returns, which requests fail), SQLite (which statements fail), the
    operating system, Git and the engine processes.
    [apimeta.SetStatusCondition] is the class [StatusConditions].  Theorems
    about parameters have witnesses at concrete instances.

    ** Not modelled

    Opening, migrating and verifying the database file; the constructor of the
    probe executor and the stopping of its process; the constructors of the
    pipeline and the order in which [Pipeline.Run] reads its inputs before the
    probe round (the reads themselves are in [Profiles] and [Pool]); the
    registration of controllers and watches with the manager; the JSON decoding
    of the release manifest: they are I/O or wiring without state of their own.
    The interleaving of two pipeline runs is modelled in [Scheduling] for the
    methods that share state, not for whole runs.  Generated deep copies,
    redacting formatters, command entry points, the health check of a socket,
    the documentation checker and the release tools under tools/ are not
    modelled either: they are generated code, printing, or scripts around
    external programs. *)
From stdpp Require Export base tactics option list strings gmap numbers sorting.
From Stdlib Require Export ZArith Lia.
From Stdlib Require Import Ascii.

(** ** Scopes and automation *)

Declare Scope egress_scope.
Delimit Scope egress_scope with E.

Create HintDb egress.

(** Split every boolean conjunction, disjunction, negation and decided
    comparison in the context into the proposition it decides. *)
Ltac bool_to_prop :=
  repeat match goal with
  | H : (_ && _) = true |- _ => apply andb_true_iff in H; destruct H
  | H : (_ || _) = false |- _ => apply orb_false_iff in H; destruct H
  | H : negb _ = true |- _ => apply negb_true_iff in H
  | H : negb _ = false |- _ => apply negb_false_iff in H
  | H : bool_decide _ = true |- _ => apply bool_decide_eq_true_1 in H
  | H : bool_decide _ = false |- _ => apply bool_decide_eq_false_1 in H
  | H : (_ <? _)%Z = true |- _ => apply Z.ltb_lt in H
  | H : (_ <? _)%Z = false |- _ => apply Z.ltb_ge in H
  | H : (_ <=? _)%Z = true |- _ => apply Z.leb_le in H
  | H : (_ <=? _)%Z = false |- _ => apply Z.leb_gt in H
  | H : (_ =? _)%Z = true |- _ => apply Z.eqb_eq in H
  | H : (_ =? _)%Z = false |- _ => apply Z.eqb_neq in H
  | H : Nat.ltb _ _ = true |- _ => apply Nat.ltb_lt in H
  | H : Nat.ltb _ _ = false |- _ => apply Nat.ltb_ge in H
  | H : Nat.leb _ _ = true |- _ => apply Nat.leb_le in H
  | H : Nat.leb _ _ = false |- _ => apply Nat.leb_gt in H
  | H : Nat.eqb _ _ = true |- _ => apply Nat.eqb_eq in H
  | H : Nat.eqb _ _ = false |- _ => apply Nat.eqb_neq in H
  end.

(** Case analysis on the scrutinee of the first [match]/[if] of a hypothesis. *)
Ltac split_match_in H :=
  match type of H with
  | context [match ?x with _ => _ end] =>
      lazymatch x with
      | context [match _ with _ => _ end] => fail
      | _ => destruct x eqn:?
      end
  end.
Ltac split_all_in H := repeat (split_match_in H; try discriminate H; simplify_eq/=).

(** ** Results

    A Go function that returns [(T, error)] is a function into [result E T]:
    the value, or the error with the value discarded. *)

Inductive result (E A : Type) : Type :=
| Ok (a : A)
| Err (e : E).
Arguments Ok {E A} _.
Arguments Err {E A} _.

#[export] Instance result_ret {E} : MRet (result E) := λ A a, Ok a.
#[export] Instance result_bind {E} : MBind (result E) :=
  λ A B k m, match m with Ok a => k a | Err e => Err e end.

(** [if cond { return err }] guards. *)
Definition guard_err {E} (bad : bool) (e : E) : result E unit := if bad then Err e else Ok ().

Definition is_ok {E A} (r : result E A) : bool := match r with Ok _ => true | Err _ => false end.

Lemma result_bind_Ok {E A B} (m : result E A) (k : A → result E B) b :
  (m ≫= k) = Ok b ↔ ∃ a, m = Ok a ∧ k a = Ok b.
Proof. destruct m; naive_solver. Qed.

Lemma guard_err_Ok {E} bad (e : E) u : guard_err bad e = Ok u ↔ bad = false.
Proof. destruct bad, u; naive_solver. Qed.

(** Invert a chain of binds that returned [Ok]. *)
Ltac ok_inv :=
  repeat match goal with
  | H : (_ ≫= _) = Ok _ |- _ => apply result_bind_Ok in H; destruct H as (?&?&?)
  | H : guard_err _ _ = Ok _ |- _ => apply guard_err_Ok in H
  | H : Ok _ = Ok _ |- _ => injection H as H; subst
  | H : mret _ = Ok _ |- _ => injection H as H; subst
  | H : Err _ = Ok _ |- _ => discriminate H
  | H : match ?x with _ => _ end = Ok _ |- _ =>
      lazymatch type of x with (_ * _)%type => destruct x end
  end.

(** ** Go machine integers *)

Definition int64_min : Z := -(2 ^ 63).
Definition int64_max : Z := 2 ^ 63 - 1.
Definition wrap64 (z : Z) : Z := (z + 2 ^ 63) `mod` 2 ^ 64 - 2 ^ 63.
Definition in_int64 (z : Z) : Prop := (int64_min ≤ z ≤ int64_max)%Z.

Lemma wrap64_id z : in_int64 z → wrap64 z = z.
Proof. unfold in_int64, wrap64, int64_min, int64_max. intros. rewrite Z.mod_small; lia. Qed.

Lemma wrap64_range z : in_int64 (wrap64 z).
Proof.
  unfold in_int64, wrap64, int64_min, int64_max.
  pose proof (Z.mod_pos_bound (z + 2 ^ 63) (2 ^ 64)). lia.
Qed.

(** ** Go time

    A [time.Time] is its distance in nanoseconds from Go's zero instant
    (January 1, year 1, UTC), so [IsZero] is a comparison with [0]; a
    [time.Duration] is an int64 number of nanoseconds. *)

Definition second : Z := 1000000000.
Definition minute : Z := 60 * second.
Definition hour : Z := 60 * minute.
Definition millisecond : Z := 1000000.

Definition is_zero (t : Z) : bool := (t =? 0)%Z.
(** [Time.Sub] saturates at the limits of [Duration]. *)
Definition time_sub (t u : Z) : Z := Z.max int64_min (Z.min int64_max (t - u)).
(** The Unix epoch, in nanoseconds after the zero instant. *)
Definition unix_epoch : Z := 62135596800 * second.
Definition unix_nano (t : Z) : Z := wrap64 (t - unix_epoch).
Definition from_unix_nano (n : Z) : Z := n + unix_epoch.

Lemma unix_nano_round_trip t : in_int64 (t - unix_epoch) → from_unix_nano (unix_nano t) = t.
Proof. intros. unfold from_unix_nano, unix_nano. rewrite wrap64_id by done. lia. Qed.

Lemma unix_nano_from n : in_int64 n → unix_nano (from_unix_nano n) = n.
Proof.
  intros. unfold unix_nano, from_unix_nano.
  replace (n + unix_epoch - unix_epoch)%Z with n by lia. by apply wrap64_id.
Qed.

#[export] Hint Resolve wrap64_range : egress.


(** ** Lists *)

Lemma filter_fmap_on {A B} (f : A → B) (P : B → Prop) (Q : A → Prop) `{!∀ x, Decision (P x), !∀ x, Decision (Q x)} (l : list A) :
  (∀ x, x ∈ l → P (f x) ↔ Q x) → filter P (f <$> l) = f <$> filter Q l.
Proof.
  induction l as [|x l IH]; intros HPQ; [done|]. rewrite fmap_cons.
  assert (P (f x) ↔ Q x) as Hx by (apply HPQ; left). assert (filter P (f <$> l) = f <$> filter Q l) as E.
  { apply IH. intros y Hy. apply HPQ. by right. }
  destruct (decide (Q x)).
  - rewrite !filter_cons_True by tauto. by rewrite fmap_cons, E.
  - rewrite !filter_cons_False by tauto. done.
Qed.
Lemma filter_ext_on {A} (P Q : A → Prop) `{!∀ x, Decision (P x), !∀ x, Decision (Q x)} (l : list A) :
  (∀ x, x ∈ l → P x ↔ Q x) → filter P l = filter Q l.
Proof. intros HPQ. rewrite <-(list_fmap_id l) at 1. rewrite (filter_fmap_on _ P Q) by done. apply list_fmap_id. Qed.

Lemma mapM_round_trip {A B} (enc : A → option B) (dec : B → option A) (P : B → Prop) (l : list A) :
  Forall (λ x, ∃ y, enc x = Some y ∧ dec y = Some x ∧ P y) l →
  ∃ k, mapM enc l = Some k ∧ mapM dec k = Some l ∧ length k = length l ∧ Forall P k.
Proof.
  induction 1 as [|x l (y&Ey&Dy&Py) _ (k&E&D&L&Hk)]; [by exists []|]. exists (y :: k).
  split_and!; [cbn; by rewrite Ey; cbn; rewrite E|cbn; by rewrite Dy; cbn; rewrite D|by rewrite !length_cons, L|by constructor].
Qed.
