(* ===== verification/Order.v ===== *)
(** * Three-way comparison and Go's sorting functions

    Go code orders values with three-way comparisons ([strings.Compare],
    [bytes.Compare], [Identity.Compare]) and sorts slices with
    [sort.Slice], [sort.SliceStable], [sort.Strings] and SQL [ORDER BY].
    This file gives the laws of a comparison as a class, instances for the
    orders the program uses and an executable stable sort with the facts the
    components share: it permutes, it sorts, and when no two elements tie
    the result does not depend on the order of the input. *)
From S2P Require Import Prelude.
From Stdlib Require Import Ascii.
From Stdlib Require String.

(** ** Laws of a comparison *)

Class CmpOrder {A} (cmp : A → A → comparison) : Prop := {
  cmp_antisym x y : cmp y x = CompOpp (cmp x y);
  cmp_lt_trans x y z : cmp x y = Lt → cmp y z = Lt → cmp x z = Lt;
  cmp_eq_l x y z : cmp x y = Eq → cmp x z = cmp y z;
}.
Class CmpExact {A} (cmp : A → A → comparison) : Prop :=
  cmp_exact x y : cmp x y = Eq → x = y.
Arguments cmp_antisym {A} cmp {_} x y.
Arguments cmp_lt_trans {A} cmp {_} x y z.
Arguments cmp_eq_l {A} cmp {_} x y z.
Arguments cmp_exact {A} cmp {_} x y.

Section laws.
Context {A} (cmp : A → A → comparison) `{!CmpOrder cmp}.

Lemma cmp_refl x : cmp x x = Eq.
Proof. pose proof (cmp_antisym cmp x x) as H. destruct (cmp x x); naive_solver. Qed.

Lemma cmp_gt_lt x y : cmp x y = Gt ↔ cmp y x = Lt.
Proof. rewrite (cmp_antisym cmp x y). destruct (cmp x y); naive_solver. Qed.

Lemma cmp_eq_sym x y : cmp x y = Eq ↔ cmp y x = Eq.
Proof. rewrite (cmp_antisym cmp x y). destruct (cmp x y); naive_solver. Qed.

Lemma cmp_eq_r x y z : cmp x y = Eq → cmp z x = cmp z y.
Proof. intros H. rewrite (cmp_antisym cmp x z), (cmp_antisym cmp y z). by rewrite (cmp_eq_l cmp _ _ _ H). Qed.
End laws.

(** ** Combinators *)

Definition lex (c d : comparison) : comparison := match c with Eq => d | _ => c end.
Definition cmp_on {A B} (f : A → B) (cmp : B → B → comparison) (x y : A) : comparison :=
  cmp (f x) (f y).
Definition cmp_lex {A} (c d : A → A → comparison) (x y : A) : comparison := lex (c x y) (d x y).
(** A nil pointer sorts before every value. *)
Definition cmp_option {A} (cmp : A → A → comparison) (x y : option A) : comparison :=
  match x, y with
  | None, None => Eq
  | None, Some _ => Lt
  | Some _, None => Gt
  | Some a, Some b => cmp a b
  end.

#[export] Instance cmp_on_order {A B} (f : A → B) cmp : CmpOrder cmp → CmpOrder (cmp_on f cmp).
Proof. intros [H1 H2 H3]; split; unfold cmp_on; eauto. Qed.

#[export] Instance cmp_lex_order {A} (c d : A → A → comparison) :
  CmpOrder c → CmpOrder d → CmpOrder (cmp_lex c d).
Proof.
  intros Hc Hd; split; unfold cmp_lex, lex.
  - intros x y. rewrite (cmp_antisym c x y). destruct (c x y); simpl; auto using cmp_antisym.
  - intros x y z. destruct (c x y) eqn:E1; try discriminate.
    + rewrite (cmp_eq_l c _ _ z E1). destruct (c y z); try discriminate; eauto using cmp_lt_trans.
    + intros _. destruct (c y z) eqn:E2; try discriminate; intros H2.
      * by rewrite <-(cmp_eq_r c _ _ x E2), E1.
      * by rewrite (cmp_lt_trans c _ _ _ E1 E2).
  - intros x y z. destruct (c x y) eqn:E1; try discriminate. intros E2.
    by rewrite (cmp_eq_l c _ _ z E1), (cmp_eq_l d _ _ z E2).
Qed.

#[export] Instance cmp_option_order {A} (cmp : A → A → comparison) :
  CmpOrder cmp → CmpOrder (cmp_option cmp).
Proof.
  intros Hc; split; intros [] []; try intros []; simpl; try done;
    eauto using cmp_antisym, cmp_lt_trans, cmp_eq_l.
Qed.

#[export] Instance cmp_option_exact {A} (cmp : A → A → comparison) :
  CmpExact cmp → CmpExact (cmp_option cmp).
Proof. intros H [] []; simpl; try done. by intros ->%H. Qed.

#[export] Instance Z_compare_order : CmpOrder Z.compare.
Proof.
  split; intros x y.
  - apply Z.compare_antisym.
  - intros z. rewrite !Z.compare_lt_iff. lia.
  - intros z ->%Z.compare_eq_iff. done.
Qed.
#[export] Instance Z_compare_exact : CmpExact Z.compare.
Proof. intros x y. apply Z.compare_eq_iff. Qed.

(** Byte-wise lexicographic order: [strings.Compare] and [bytes.Compare]. *)
Definition bytes_compare : string → string → comparison := String.compare.

#[export] Instance bytes_compare_exact : CmpExact bytes_compare.
Proof. intros x y. apply String.compare_eq_iff. Qed.

Lemma bytes_compare_refl s : bytes_compare s s = Eq.
Proof.
  pose proof (String.compare_antisym s s) as H. unfold bytes_compare.
  destruct (String.compare s s); naive_solver.
Qed.

Lemma ascii_compare_lt_trans a b c :
  Ascii.compare a b = Lt → Ascii.compare b c = Lt → Ascii.compare a c = Lt.
Proof. unfold Ascii.compare. rewrite !N.compare_lt_iff. lia. Qed.

#[export] Instance bytes_compare_order : CmpOrder bytes_compare.
Proof.
  split.
  - intros x y. apply String.compare_antisym.
  - intros x. induction x as [|a x IH]; intros [|b y] [|c z]; simpl; try done.
    destruct (Ascii.compare a b) eqn:E1; try done.
    + apply Ascii.compare_eq_iff in E1 as <-.
      destruct (Ascii.compare a c); try done. apply IH.
    + intros _. destruct (Ascii.compare b c) eqn:E2; try done.
      * apply Ascii.compare_eq_iff in E2 as <-. by rewrite E1.
      * by rewrite (ascii_compare_lt_trans _ _ _ E1 E2).
  - by intros x y z ->%bytes_compare_exact.
Qed.

Definition is_lt (c : comparison) : bool := match c with Lt => true | _ => false end.

(** ** A stable sort

    [go_sort cmp l] is what [sort.SliceStable] returns for the less function
    [cmp x y < 0]; [sort.Slice] returns some permutation sorted by it, which
    is the same list whenever no two elements tie ([sorted_perm_unique]). *)

Section sorting.
Context {A} (cmp : A → A → comparison).

Fixpoint sort_insert (x : A) (l : list A) : list A :=
  match l with
  | [] => [x]
  | y :: l' => if is_lt (cmp y x) then y :: sort_insert x l' else x :: l
  end.
Definition go_sort (l : list A) : list A := foldr sort_insert [] l.

Definition cmp_le (x y : A) : Prop := cmp x y ≠ Gt.
Definition cmp_lt (x y : A) : Prop := cmp x y = Lt.

Lemma sort_insert_perm x l : sort_insert x l ≡ₚ x :: l.
Proof.
  induction l as [|y l IH]; simpl; [done|]. destruct (is_lt _); [|done].
  rewrite IH. apply Permutation_swap.
Qed.

Lemma go_sort_perm l : go_sort l ≡ₚ l.
Proof. induction l as [|x l IH]; simpl; [done|]. by rewrite sort_insert_perm, IH. Qed.

Lemma go_sort_elem_of l x : x ∈ go_sort l ↔ x ∈ l.
Proof. by rewrite go_sort_perm. Qed.

Lemma go_sort_length l : length (go_sort l) = length l.
Proof. by rewrite go_sort_perm. Qed.

Context `{!CmpOrder cmp}.

Lemma cmp_le_trans x y z : cmp_le x y → cmp_le y z → cmp_le x z.
Proof.
  unfold cmp_le. destruct (cmp x y) eqn:E1; try done; intros _.
  - by rewrite (cmp_eq_l cmp _ _ z E1).
  - destruct (cmp y z) eqn:E2; try done; intros _.
    + by rewrite <-(cmp_eq_r cmp _ _ x E2), E1.
    + by rewrite (cmp_lt_trans cmp _ _ _ E1 E2).
Qed.

Lemma not_lt_le x y : is_lt (cmp y x) = false → cmp_le x y.
Proof. unfold cmp_le. rewrite (cmp_antisym cmp y x). by destruct (cmp y x). Qed.

Lemma sort_insert_sorted x l : StronglySorted cmp_le l → StronglySorted cmp_le (sort_insert x l).
Proof.
  induction 1 as [|y l Hl IH Hy]; simpl.
  { by repeat constructor. }
  destruct (is_lt (cmp y x)) eqn:E.
  - constructor; [done|]. rewrite sort_insert_perm. constructor; [|done].
    unfold cmp_le. by destruct (cmp y x).
  - assert (cmp_le x y) by auto using not_lt_le.
    repeat constructor; try done.
    eapply Forall_impl; [done|]. eauto using cmp_le_trans.
Qed.

Lemma go_sort_sorted l : StronglySorted cmp_le (go_sort l).
Proof. induction l; simpl; [constructor|]. by apply sort_insert_sorted. Qed.

(** Two elements of [l] that compare equal are the same element. *)
Definition no_ties (l : list A) : Prop := ∀ x y, x ∈ l → y ∈ l → cmp x y = Eq → x = y.

Lemma sorted_perm_unique l1 l2 :
  no_ties l1 → StronglySorted cmp_le l1 → StronglySorted cmp_le l2 → l1 ≡ₚ l2 → l1 = l2.
Proof.
  intros Hn H1 H2 Hp. apply (StronglySorted_unique_strong cmp_le); try done.
  intros x y Hx Hy. rewrite <-Hp in Hy. unfold cmp_le. intros Hxy Hyx.
  apply Hn; try done. rewrite (cmp_antisym cmp x y) in Hyx. by destruct (cmp x y).
Qed.

(** The result does not depend on the order of the input, so an unstable
    [sort.Slice] and a map iteration that feeds it are deterministic. *)
Lemma go_sort_perm_eq l1 l2 : no_ties l1 → l1 ≡ₚ l2 → go_sort l1 = go_sort l2.
Proof.
  intros Hn Hp. apply sorted_perm_unique.
  - intros x y. rewrite !go_sort_elem_of. apply Hn.
  - apply go_sort_sorted.
  - apply go_sort_sorted.
  - by rewrite !go_sort_perm.
Qed.

Lemma go_sort_sorted_id l : StronglySorted cmp_lt l → go_sort l = l.
Proof.
  induction 1 as [|x l Hl IH Hx]; simpl; [done|]. rewrite IH.
  destruct l as [|y l]; simpl; [done|]. inversion Hx as [|?? Hxy _]; subst.
  unfold cmp_lt in Hxy. by rewrite (cmp_antisym cmp x y), Hxy.
Qed.

Lemma StronglySorted_lt_le l : StronglySorted cmp_lt l → StronglySorted cmp_le l.
Proof.
  induction 1; constructor; [done|]. eapply Forall_impl; [done|].
  intros ?. unfold cmp_lt, cmp_le. by intros ->.
Qed.

(** Sorted with no two neighbours equal is strictly sorted. *)
Lemma sorted_le_adjacent l :
  StronglySorted cmp_le l →
  (∀ i x y, l !! i = Some x → l !! S i = Some y → cmp x y ≠ Eq) →
  StronglySorted cmp_lt l.
Proof.
  induction 1 as [|x l Hl IH Hx]; intros Hadj; [constructor|].
  assert (StronglySorted cmp_lt l) as Hl'.
  { apply IH. intros i. apply (Hadj (S i)). }
  constructor; [done|]. destruct l as [|y l]; [constructor|].
  assert (cmp x y = Lt) as Hxy.
  { inversion Hx; subst. specialize (Hadj 0 x y eq_refl eq_refl). unfold cmp_le in *.
    by destruct (cmp x y). }
  constructor; [done|]. inversion Hl' as [|?? _ Hy]; subst.
  eapply Forall_impl; [done|]. intros z. by apply cmp_lt_trans.
Qed.
End sorting.

Lemma no_ties_exact {A} (cmp : A → A → comparison) `{!CmpExact cmp} l : no_ties cmp l.
Proof. intros x y _ _. by apply (cmp_exact cmp). Qed.
Arguments go_sort_perm {A} cmp l.
Arguments go_sort_elem_of {A} cmp l x.

#[export] Hint Resolve go_sort_sorted no_ties_exact cmp_refl bytes_compare_refl : egress.

(** Sorting commutes with taking keys. *)
Lemma go_sort_fmap {A B} (f : A → B) cmp l :
  f <$> go_sort (cmp_on f cmp) l = go_sort cmp (f <$> l).
Proof.
  induction l as [|x l IH]; [done|].
  change (go_sort cmp (f <$> x :: l)) with (sort_insert cmp (f x) (go_sort cmp (f <$> l))).
  rewrite <-IH. change (go_sort _ (x :: l)) with (sort_insert (cmp_on f cmp) x (go_sort (cmp_on f cmp) l)).
  generalize (go_sort (cmp_on f cmp) l) as k. induction k as [|y k IHk]; simpl; [done|].
  unfold cmp_on at 1. destruct (is_lt _); csimpl; [|done]. by rewrite IHk.
Qed.

#[export] Instance go_sort_proper {A} (cmp : A → A → comparison) `{!CmpOrder cmp, !CmpExact cmp} :
  Proper ((≡ₚ) ==> (=)) (go_sort cmp).
Proof. intros l1 l2. apply go_sort_perm_eq; auto with egress. Qed.

(** ** Newest first *)

Definition cmp_rev {A} (cmp : A → A → comparison) (x y : A) : comparison := cmp y x.
#[global] Typeclasses Opaque cmp_rev.
Lemma cmp_rev_order {A} (cmp : A → A → comparison) `{!CmpOrder cmp} : CmpOrder (cmp_rev cmp).
Proof.
  split; unfold cmp_rev.
  - intros x y. apply (cmp_antisym cmp).
  - intros x y z Hxy Hyz. by apply (cmp_lt_trans cmp z y x).
  - intros x y z E. symmetry. by apply (cmp_eq_r cmp).
Qed.

Section rank.
Context {A} (cmp : A → A → comparison) `{!CmpOrder cmp}.

(** How many elements of [l] sort before [x]. *)
Definition rank (l : list A) (x : A) : nat := length (filter (λ y, cmp y x = Lt) l).

#[export] Instance rank_proper : Proper ((≡ₚ) ==> (=) ==> (=)) rank.
Proof. intros l k Hp x _ <-. unfold rank. by rewrite Hp. Qed.

Lemma rank_zero l x : Forall (cmp_lt cmp x) l → rank l x = 0.
Proof.
  unfold rank. induction 1 as [|y l Hy _ IH]; [done|]. rewrite filter_cons_False; [done|].
  unfold cmp_lt in Hy. rewrite (cmp_antisym cmp x y), Hy. done.
Qed.

Lemma drop_sorted_elem n l x : StronglySorted (cmp_lt cmp) l → x ∈ drop n l ↔ x ∈ l ∧ n ≤ rank l x.
Proof.
  intros Hs. revert n. induction Hs as [|y l Hl IH Hy]; intros n.
  { rewrite drop_nil. split; [intros Hin; inversion Hin|naive_solver]. }
  assert (rank (y :: l) y = 0) as Hyy.
  { unfold rank. rewrite filter_cons_False; [by apply rank_zero|]. by rewrite (cmp_refl cmp). }
  assert (∀ z, z ∈ l → rank (y :: l) z = S (rank l z)) as Hz.
  { intros z Hin. unfold rank. rewrite filter_cons_True; [done|]. rewrite Forall_forall in Hy. by apply Hy. }
  destruct n as [|n]; simpl; [split; [intros; split; [done|lia]|naive_solver]|].
  rewrite IH, elem_of_cons. split.
  - intros [Hin Hr]. split; [by right|]. rewrite Hz by done. lia.
  - intros [[->|Hin] Hr]; [rewrite Hyy in Hr; lia|]. rewrite Hz in Hr by done. split; [done|lia].
Qed.

Lemma go_sort_strict l : no_ties cmp l → NoDup l → StronglySorted (cmp_lt cmp) (go_sort cmp l).
Proof.
  intros Hn Hd. apply sorted_le_adjacent; [done|apply go_sort_sorted; apply _|].
  intros i x y Hx Hy E. assert (x = y) as ->.
  { apply Hn; [| |done]; rewrite <-(go_sort_elem_of cmp); by eapply list_elem_of_lookup_2. }
  rewrite <-(go_sort_perm cmp l) in Hd. specialize (NoDup_lookup _ _ _ _ Hd Hx Hy). lia.
Qed.

(** What a sorted list has from position [n] on: the elements with at least
    [n] others before them. *)
Lemma drop_go_sort_elem n l x : no_ties cmp l → NoDup l → x ∈ drop n (go_sort cmp l) ↔ x ∈ l ∧ n ≤ rank l x.
Proof.
  intros Hn Hd. rewrite drop_sorted_elem by by apply go_sort_strict. by rewrite go_sort_perm.
Qed.

Lemma keep_ranked_length n l : no_ties cmp l → NoDup l → length (filter (λ x, rank l x < n) l) ≤ n.
Proof.
  intros Hn Hd. transitivity (length (take n (go_sort cmp l))); [|rewrite length_take; lia].
  assert (NoDup (go_sort cmp l)) as Hs by by rewrite go_sort_perm.
  apply submseteq_length, NoDup_submseteq; [by apply NoDup_filter|].
  intros x [Hr Hx]%list_elem_of_filter. rewrite <-(go_sort_elem_of cmp), <-(take_drop n (go_sort cmp l)) in Hx.
  apply elem_of_app in Hx as [|Hx]; [done|]. apply drop_go_sort_elem in Hx as [_ Hx]; [lia|done..].
Qed.
End rank.
