(* ===== verification/Bytes.v ===== *)
(** * Byte strings, fixed-width encodings and text predicates

    Go's [string] and [[]byte] are both byte sequences and are both the type
    [string] here (a list of 8-bit [ascii]).  This file models what the
    program uses of encoding/binary, unicode/utf8, unicode, strings and
    strconv. *)
From S2P Require Import Prelude Order.
From Stdlib Require Import Ascii.
From Stdlib Require String.

(** ** Bytes and characters *)

Abbreviation slen s := (Z.of_nat (String.length s)).

Definition byte_of (z : Z) : ascii := ascii_of_N (Z.to_N (z `mod` 256)).
Definition code (c : ascii) : Z := Z.of_N (N_of_ascii c).
Definition char_in (lo hi : Z) (c : ascii) : bool := (lo <=? code c)%Z && (code c <=? hi)%Z.
Definition is_lower : ascii → bool := char_in 97 122.
Definition is_upper : ascii → bool := char_in 65 90.
Definition is_digit : ascii → bool := char_in 48 57.
Definition is_alnum (c : ascii) : bool := is_lower c || is_upper c || is_digit c.

Fixpoint chars (s : string) : list ascii :=
  match s with EmptyString => [] | String c s' => c :: chars s' end.
Fixpoint of_chars (l : list ascii) : string :=
  match l with [] => EmptyString | c :: l' => String c (of_chars l') end.
Definition all_chars (p : ascii → bool) (s : string) : bool := forallb p (chars s).

Lemma of_chars_chars s : of_chars (chars s) = s.
Proof. induction s; simpl; congruence. Qed.
Lemma chars_of_chars l : chars (of_chars l) = l.
Proof. induction l; simpl; congruence. Qed.
Lemma sapp_cons c (s t : string) : String c s +:+ t = String c (s +:+ t).
Proof. done. Qed.
Lemma chars_app s t : chars (s +:+ t) = chars s ++ chars t.
Proof. induction s as [|? s IH]; simpl; [done|]. by rewrite IH. Qed.
Lemma of_chars_app k l : of_chars (k ++ l) = of_chars k +:+ of_chars l.
Proof. induction k as [|? k IH]; simpl; [done|]. by rewrite ?sapp_cons, IH. Qed.
Lemma length_chars s : length (chars s) = String.length s.
Proof. induction s; simpl; congruence. Qed.
Lemma length_of_chars l : String.length (of_chars l) = length l.
Proof. induction l; simpl; congruence. Qed.
Lemma slen_app s t : String.length (s +:+ t) = (String.length s + String.length t)%nat.
Proof. induction s as [|? s IH]; simpl; [done|]. by rewrite IH. Qed.
Lemma sapp_assoc (s t u : string) : (s +:+ t) +:+ u = s +:+ t +:+ u.
Proof. induction s as [|? s IH]; simpl; [done|]. by rewrite ?sapp_cons, IH. Qed.
Lemma sapp_nil_r (s : string) : s +:+ "" = s.
Proof. induction s as [|? s IH]; simpl; [done|]. by rewrite ?sapp_cons, IH. Qed.
Lemma sapp_inj_len (s s' t t' : string) :
  String.length s = String.length s' → s +:+ t = s' +:+ t' → s = s' ∧ t = t'.
Proof.
  revert s'. induction s as [|c s IH]; intros [|c' s']; simpl; try done.
  intros [= Hl] [= -> H]. apply IH in H as [-> ->]; done.
Qed.
Lemma code_range c : (0 ≤ code c < 256)%Z.
Proof. unfold code. pose proof (N_ascii_bounded c). lia. Qed.
Lemma code_byte_of z : code (byte_of z) = (z `mod` 256)%Z.
Proof.
  unfold code, byte_of. pose proof (Z.mod_pos_bound z 256).
  rewrite N_ascii_embedding; lia.
Qed.
Lemma slen_0 s : String.length s = 0 → s = "".
Proof. by destruct s. Qed.

(** ** Big-endian integers (encoding/binary) *)

(** The [n] low bytes of [z], most significant first. *)
Fixpoint be (n : nat) (z : Z) : string :=
  match n with
  | O => ""
  | S n' => String (byte_of (z / 256 ^ Z.of_nat n')) (be n' z)
  end.

Fixpoint be_decode (n : nat) (acc : Z) (s : string) : option (Z * string) :=
  match n, s with
  | O, _ => Some (acc, s)
  | S n', String c s' => be_decode n' (acc * 256 + code c) s'
  | S _, EmptyString => None
  end.

Lemma be_length n z : String.length (be n z) = n.
Proof. induction n; simpl; congruence. Qed.

Lemma be_decode_be n acc z r :
  be_decode n acc (be n z +:+ r) = Some (acc * 256 ^ Z.of_nat n + z `mod` 256 ^ Z.of_nat n, r)%Z.
Proof.
  revert acc. induction n as [|n IH]; intros acc.
  { simpl. rewrite Z.mod_1_r. do 2 f_equal. lia. }
  change (be (S n) z) with (String (byte_of (z / 256 ^ Z.of_nat n)) (be n z)). simpl be_decode.
  rewrite IH, code_byte_of. do 2 f_equal.
  rewrite Nat2Z.inj_succ, Z.pow_succ_r by lia.
  set (p := (256 ^ Z.of_nat n)%Z). assert (0 < p)%Z by (apply Z.pow_pos_nonneg; lia).
  rewrite (Z.mul_comm 256 p), Z.rem_mul_r by lia. lia.
Qed.

Lemma be_inj n z z' r r' :
  (0 ≤ z < 256 ^ Z.of_nat n)%Z → (0 ≤ z' < 256 ^ Z.of_nat n)%Z →
  be n z +:+ r = be n z' +:+ r' → z = z' ∧ r = r'.
Proof.
  intros Hz Hz' H. pose proof (be_decode_be n 0 z r) as E. rewrite H, be_decode_be in E.
  rewrite !Z.mod_small in E by done. simplify_eq/=. split; [lia|done].
Qed.

Definition u8 (z : Z) : string := be 1 z.
Definition u16 (z : Z) : string := be 2 z.
Definition u32 (z : Z) : string := be 4 z.
Definition u64 (z : Z) : string := be 8 z.
Definition enc_bool (b : bool) : string := u8 (if b then 1 else 0).
(** A string preceded by its 32-bit length. *)
Definition enc_string (s : string) : string := u32 (slen s) +:+ s.

Definition fits32 (s : string) : Prop := (slen s < 2 ^ 32)%Z.

(** Every field encoder is injective and self-delimiting: equal
    concatenations have equal first fields and equal rests. *)
Lemma u8_inj z z' r r' : (0 ≤ z < 256)%Z → (0 ≤ z' < 256)%Z →
  u8 z +:+ r = u8 z' +:+ r' → z = z' ∧ r = r'.
Proof. apply (be_inj 1). Qed.
Lemma u16_inj z z' r r' : (0 ≤ z < 65536)%Z → (0 ≤ z' < 65536)%Z →
  u16 z +:+ r = u16 z' +:+ r' → z = z' ∧ r = r'.
Proof. apply (be_inj 2). Qed.
Lemma u32_inj z z' r r' : (0 ≤ z < 2 ^ 32)%Z → (0 ≤ z' < 2 ^ 32)%Z →
  u32 z +:+ r = u32 z' +:+ r' → z = z' ∧ r = r'.
Proof. apply (be_inj 4). Qed.
Lemma enc_bool_inj b b' r r' : enc_bool b +:+ r = enc_bool b' +:+ r' → b = b' ∧ r = r'.
Proof.
  intros H. apply u8_inj in H as [H ->]; [|destruct b; lia|destruct b'; lia].
  by destruct b, b'.
Qed.
Lemma enc_string_inj s s' r r' : fits32 s → fits32 s' →
  enc_string s +:+ r = enc_string s' +:+ r' → s = s' ∧ r = r'.
Proof.
  unfold enc_string, fits32. intros Hs Hs'. rewrite !sapp_assoc.
  intros [Hl H]%u32_inj; [|lia|lia]. apply sapp_inj_len in H; [done|lia].
Qed.

(** A signed 64-bit value keeps its identity through [uint64(v)]. *)
Lemma u64_inj z z' r r' : in_int64 z → in_int64 z' → u64 z +:+ r = u64 z' +:+ r' → z = z' ∧ r = r'.
Proof.
  unfold in_int64, int64_min, int64_max, u64. intros Hz Hz' H.
  pose proof (be_decode_be 8 0 z r) as E. rewrite H, be_decode_be in E.
  change (256 ^ Z.of_nat 8)%Z with (2 ^ 64)%Z in E. injection E as E ->. split; [|done].
  rewrite !Z.mul_0_l, !Z.add_0_l in E || idtac.
  assert (z' `mod` 2 ^ 64 = z `mod` 2 ^ 64)%Z as Em by lia.
  pose proof (Z.div_mod z (2 ^ 64) ltac:(lia)). pose proof (Z.div_mod z' (2 ^ 64) ltac:(lia)).
  assert (z / 2 ^ 64 = 0 ∨ z / 2 ^ 64 = -1)%Z by (pose proof (Z.mod_pos_bound z (2 ^ 64)); lia).
  assert (z' / 2 ^ 64 = 0 ∨ z' / 2 ^ 64 = -1)%Z by (pose proof (Z.mod_pos_bound z' (2 ^ 64)); lia).
  lia.
Qed.

(** ** ASCII case and the strings package *)

Definition lower_char (c : ascii) : ascii := if is_upper c then byte_of (code c + 32) else c.
Definition upper_char (c : ascii) : ascii := if is_lower c then byte_of (code c - 32) else c.
(** [strings.ToUpper].  Among non-ASCII characters exactly U+0131 and U+017F
    have an ASCII upper case form ([I] and [S]); every other byte at or above
    0x80 stays non-ASCII and is kept as it is. *)
Fixpoint to_upper (s : string) : string :=
  match s with
  | String c1 s1 =>
      match s1 with
      | String c2 s2 =>
          if (code c1 =? 196)%Z && (code c2 =? 177)%Z then String "I" (to_upper s2)
          else if (code c1 =? 197)%Z && (code c2 =? 191)%Z then String "S" (to_upper s2)
          else String (upper_char c1) (to_upper s1)
      | EmptyString => String (upper_char c1) ""
      end
  | EmptyString => ""
  end.
(** [strings.ToLower].  Among non-ASCII characters exactly U+0130 and U+212A
    have an ASCII lower case form ([i] and [k]); every other byte at or above
    0x80 stays non-ASCII and is kept as it is. *)
Fixpoint to_lower (s : string) : string :=
  match s with
  | String c1 s1 =>
      match s1 with
      | String c2 s2 =>
          if (code c1 =? 196)%Z && (code c2 =? 176)%Z then String "i" (to_lower s2)
          else match s2 with
               | String c3 s3 =>
                   if (code c1 =? 226)%Z && (code c2 =? 132)%Z && (code c3 =? 170)%Z
                   then String "k" (to_lower s3)
                   else String (lower_char c1) (to_lower s1)
               | EmptyString => String (lower_char c1) (to_lower s1)
               end
      | EmptyString => String (lower_char c1) ""
      end
  | EmptyString => ""
  end.

Definition is_ascii (c : ascii) : bool := (code c <? 128)%Z.

Lemma to_upper_cons c s : is_ascii c = true → to_upper (String c s) = String (upper_char c) (to_upper s).
Proof.
  unfold is_ascii. intros Hc. bool_to_prop. destruct s as [|d s]; [done|]. simpl.
  by replace (code c =? 196)%Z with false by lia; replace (code c =? 197)%Z with false by lia.
Qed.
Lemma to_lower_cons c s : is_ascii c = true → to_lower (String c s) = String (lower_char c) (to_lower s).
Proof.
  unfold is_ascii. intros Hc. bool_to_prop. destruct s as [|d [|e s]]; [done|..]; simpl;
    replace (code c =? 196)%Z with false by lia; [done|].
  by replace (code c =? 226)%Z with false by lia.
Qed.

Fixpoint has_prefix (p s : string) : bool :=
  match p, s with
  | EmptyString, _ => true
  | String a p', String b s' => Ascii.eqb a b && has_prefix p' s'
  | String _ _, EmptyString => false
  end.
Definition char_elem (c : ascii) (s : string) : bool := existsb (Ascii.eqb c) (chars s).
(** [strings.ContainsAny(s, set)] for an ASCII set. *)
Definition contains_any (s set : string) : bool := existsb (λ c, char_elem c set) (chars s).

Fixpoint split_chars (sep : ascii) (cur : list ascii) (l : list ascii) : list (list ascii) :=
  match l with
  | [] => [reverse cur]
  | c :: l' => if Ascii.eqb c sep then reverse cur :: split_chars sep [] l'
               else split_chars sep (c :: cur) l'
  end.
(** [strings.Split(s, sep)] for a one-byte separator. *)
Definition split_on (sep : ascii) (s : string) : list string :=
  of_chars <$> split_chars sep [] (chars s).

Definition last_char (s : string) : option ascii := last (chars s).
Definition first_char (s : string) : option ascii := head (chars s).

(** ** UTF-8 (unicode/utf8) *)

Definition cont (c : ascii) : bool := char_in 128 191 c.

(** The code points of a valid UTF-8 string; [None] when
    [utf8.ValidString] is false. *)
Fixpoint utf8_runes (s : string) : option (list Z) :=
  match s with
  | EmptyString => Some []
  | String a s1 =>
    let x := code a in
    if (x <? 128)%Z then cons x <$> utf8_runes s1 else
    match s1 with
    | EmptyString => None
    | String b s2 =>
      if char_in 194 223 a then
        if cont b then cons ((x - 192) * 64 + (code b - 128))%Z <$> utf8_runes s2 else None
      else match s2 with
      | EmptyString => None
      | String c s3 =>
        if char_in 224 239 a then
          let lo := if (x =? 224)%Z then 160%Z else 128%Z in
          let hi := if (x =? 237)%Z then 159%Z else 191%Z in
          if char_in lo hi b && cont c
          then cons ((x - 224) * 4096 + (code b - 128) * 64 + (code c - 128))%Z <$> utf8_runes s3
          else None
        else match s3 with
        | EmptyString => None
        | String d s4 =>
          let lo := if (x =? 240)%Z then 144%Z else 128%Z in
          let hi := if (x =? 244)%Z then 143%Z else 191%Z in
          if char_in 240 244 a && char_in lo hi b && cont c && cont d
          then cons ((x - 240) * 262144 + (code b - 128) * 4096 + (code c - 128) * 64 + (code d - 128))%Z
                 <$> utf8_runes s4
          else None
        end
      end
    end
  end.
Definition valid_utf8 (s : string) : bool := match utf8_runes s with Some _ => true | None => false end.
(** [for _, r := range s] over a string already known to be valid. *)
Definition all_runes (p : Z → bool) (s : string) : bool :=
  match utf8_runes s with Some l => forallb p l | None => false end.

Definition in_ranges (l : list (Z * Z)) (r : Z) : bool :=
  existsb (λ '(lo, hi), (lo <=? r)%Z && (r <=? hi)%Z) l.
(** [unicode.IsControl]. *)
Definition is_control (r : Z) : bool := in_ranges [(0, 31); (127, 159)]%Z r.
(** [unicode.Cf], the format characters of Unicode 15. *)
Definition unicode_Cf : list (Z * Z) :=
  [(173, 173); (1536, 1541); (1564, 1564); (1757, 1757); (1807, 1807); (2192, 2193); (2274, 2274);
   (6158, 6158); (8203, 8207); (8234, 8238); (8288, 8292); (8294, 8303); (65279, 65279);
   (65529, 65531); (69821, 69821); (69837, 69837); (78896, 78911); (113824, 113827);
   (119155, 119162); (917505, 917505); (917536, 917631)]%Z.

(** ** Decimal numbers (strconv) *)

Fixpoint digits_acc (fuel : nat) (z : Z) (acc : string) : string :=
  match fuel with
  | O => acc
  | S f => let acc' := String (byte_of (48 + z `mod` 10)) acc in
           if (z <? 10)%Z then acc' else digits_acc f (z / 10) acc'
  end.
(** [strconv.Itoa] of a non-negative number below [10 ^ 20]. *)
Definition itoa (z : Z) : string := digits_acc 20 z "".
Fixpoint parse_digits (acc : Z) (l : list ascii) : option Z :=
  match l with
  | [] => Some acc
  | c :: l' => if is_digit c then parse_digits (acc * 10 + (code c - 48)) l' else None
  end.
(** [strconv.Atoi]: an optional sign, digits, and a value that fits int64. *)
Definition atoi (s : string) : option Z :=
  let signed l sg :=
    match l with
    | [] => None
    | _ => z ← parse_digits 0 l; if bool_decide (in_int64 (sg * z)) then Some (sg * z)%Z else None
    end in
  match chars s with
  | "-"%char :: l => signed l (-1)%Z
  | "+"%char :: l => signed l 1%Z
  | l => signed l 1%Z
  end.

Lemma code_digit z : (0 ≤ z < 10)%Z → code (byte_of (48 + z)) = (48 + z)%Z ∧ is_digit (byte_of (48 + z)) = true.
Proof.
  intros Hz. assert (z ∈ [0; 1; 2; 3; 4; 5; 6; 7; 8; 9]%Z) as Hin.
  { rewrite !elem_of_cons. lia. }
  revert z Hin Hz. apply (Forall_forall (λ z, (0 ≤ z < 10)%Z → _)). by repeat constructor.
Qed.
Lemma parse_digits_acc f z s : (0 ≤ z < 10 ^ Z.of_nat f)%Z →
  parse_digits 0 (chars (digits_acc f z s)) = parse_digits z (chars s).
Proof.
  revert z s. induction f as [|f IH]; intros z s Hz; [simpl in *; by replace z with 0%Z by lia|].
  rewrite Nat2Z.inj_succ, Z.pow_succ_r in Hz by lia. cbn [digits_acc]. cbv zeta.
  pose proof (Z.mod_pos_bound z 10). pose proof (Z.div_mod z 10).
  assert (∀ a, parse_digits a (chars (String (byte_of (48 + z `mod` 10)) s)) = parse_digits (a * 10 + z `mod` 10) (chars s)) as Hstep.
  { intros a. simpl. destruct (code_digit (z `mod` 10)) as [-> ->]; [lia|]. f_equal. lia. }
  destruct (z <? 10)%Z eqn:E; bool_to_prop; [rewrite Hstep, Z.mod_small by lia; done|].
  rewrite IH, Hstep by (split; [apply Z.div_pos; lia|apply Z.div_lt_upper_bound; lia]). f_equal. lia.
Qed.
Lemma itoa_parse z : (0 ≤ z < 10 ^ 20)%Z → parse_digits 0 (chars (itoa z)) = Some z.
Proof. intros Hz. unfold itoa. by rewrite parse_digits_acc. Qed.
Lemma parse_digits_digits a l z : parse_digits a l = Some z → Forall (λ c, is_digit c = true) l.
Proof.
  revert a. induction l as [|c l IH]; intros a; simpl; [constructor|]. destruct (is_digit c) eqn:E; [|done]. eauto.
Qed.

Example itoa_65535 : itoa 65535 = "65535".
Proof. reflexivity. Qed.
Example atoi_65535 : atoi "65535" = Some 65535%Z.
Proof. reflexivity. Qed.
Example utf8_euro : utf8_runes (of_chars [byte_of 226; byte_of 130; byte_of 172]) = Some [8364]%Z.
Proof. reflexivity. Qed.
