(* ===== verification/Encoding.v ===== *)
(** * Base 32, base 64 and hexadecimal text, and SHA-256

    encoding/base32 (StdEncoding, no padding), encoding/base64
    (RawURLEncoding) and encoding/hex as conversions between byte strings and
    bit lists, with their round trips, and crypto/sha256 as the class
    [Digest], which promises only the length of a digest.  What a theorem
    needs beyond that it says of the inputs it is about: that no two of them
    collide, [coll_free]. *)
From S2P Require Import Prelude Order Bytes.
From Stdlib Require Import Ascii.
From Stdlib Require String.

(** ** Bits *)

(** The [n] low bits of [z], most significant first. *)
Fixpoint bits (n : nat) (z : Z) : list bool :=
  match n with O => [] | S n' => Z.testbit z (Z.of_nat n') :: bits n' z end.
Definition of_bits (l : list bool) : Z := foldl (λ a b, 2 * a + Z.b2z b)%Z 0%Z l.

(** Groups of [k] bits, the last one padded with zeros. *)
Fixpoint groups (fuel k : nat) (l : list bool) : list (list bool) :=
  match fuel, l with
  | O, _ | _, [] => []
  | S f, _ => take k (take k l ++ replicate k false) :: groups f k (drop k l)
  end.

Definition byte_bits (s : string) : list bool := c ← chars s; bits 8 (code c).
(** The first [n] bytes of a bit list. *)
Fixpoint bytes_of_bits (n : nat) (l : list bool) : string :=
  match n with
  | O => ""
  | S n' => String (byte_of (of_bits (take 8 l))) (bytes_of_bits n' (drop 8 l))
  end.

Lemma bits_length n z : length (bits n z) = n.
Proof. induction n; simpl; congruence. Qed.

Lemma of_bits_snoc l b : of_bits (l ++ [b]) = (2 * of_bits l + Z.b2z b)%Z.
Proof. unfold of_bits. by rewrite foldl_app. Qed.

Lemma bits_snoc n z : bits (S n) z = bits n (z / 2) ++ [Z.odd z].
Proof.
  revert z. induction n as [|n IH]; intros z.
  { done. }
  change (bits (S (S n)) z) with (Z.testbit z (Z.of_nat (S n)) :: bits (S n) z).
  rewrite IH. cbn [bits app]. f_equal.
  rewrite Nat2Z.inj_succ. symmetry. apply Z.div2_bits. lia.
Qed.

Lemma bits_of_bits l : bits (length l) (of_bits l) = l.
Proof.
  induction l as [|b l IH] using rev_ind; [done|].
  rewrite length_app, Nat.add_comm. change (1 + length l) with (S (length l)).
  rewrite bits_snoc, of_bits_snoc. f_equal.
  - rewrite Z.mul_comm, Z.div_add_l by lia. rewrite (Z.div_small (Z.b2z b)) by (destruct b; simpl; lia).
    by rewrite Z.add_0_r.
  - rewrite Z.add_comm, Z.odd_add_mul_2. by destruct b.
Qed.

Lemma of_bits_bits n z : (0 ≤ z < 2 ^ Z.of_nat n)%Z → of_bits (bits n z) = z.
Proof.
  revert z. induction n as [|n IH]; intros z Hz.
  { simpl in *. change (of_bits []) with 0%Z. lia. }
  rewrite bits_snoc, of_bits_snoc, Nat2Z.inj_succ, Z.pow_succ_r in * by lia.
  rewrite IH by (split; [apply Z.div_pos; lia|apply Z.div_lt_upper_bound; lia]).
  rewrite <-Z.bit0_odd, Z.bit0_mod. pose proof (Z.div_mod z 2). lia.
Qed.

Lemma of_bits_range l : (0 ≤ of_bits l < 2 ^ Z.of_nat (length l))%Z.
Proof.
  induction l as [|b l IH] using rev_ind; [done|].
  rewrite of_bits_snoc, length_app, Nat.add_comm, Nat2Z.inj_add, Z.pow_add_r by lia. simpl Z.of_nat.
  destruct b; simpl; lia.
Qed.

Lemma bytes_of_bits_byte_bits s r : bytes_of_bits (String.length s) (byte_bits s ++ r) = s.
Proof.
  induction s as [|c s IH]; [done|]. unfold byte_bits in *. cbn [chars].
  change ((c :: chars s) ≫= (λ c0, bits 8 (code c0)))
    with (bits 8 (code c) ++ (chars s ≫= (λ c0, bits 8 (code c0)))).
  cbn [String.length bytes_of_bits]. rewrite <-(app_assoc (bits 8 (code c))).
  rewrite take_app_length', drop_app_length' by (by rewrite bits_length).
  rewrite IH. f_equal. rewrite of_bits_bits.
  - unfold byte_of, code. rewrite Z.mod_small by apply code_range.
    by rewrite N2Z.id, ascii_N_embedding.
  - apply code_range.
Qed.

Lemma byte_bits_length s : length (byte_bits s) = 8 * String.length s.
Proof.
  induction s as [|c s IH]; [done|]. unfold byte_bits in *. cbn [chars].
  change ((c :: chars s) ≫= (λ c0, bits 8 (code c0)))
    with (bits 8 (code c) ++ (chars s ≫= (λ c0, bits 8 (code c0)))).
  rewrite length_app, IH, bits_length. simpl String.length. lia.
Qed.

(** ** Alphabets *)

Definition base32_alphabet : string := "ABCDEFGHIJKLMNOPQRSTUVWXYZ234567".
Definition base64url_alphabet : string := "ABCDEFGHIJKLMNOPQRSTUVWXYZabcdefghijklmnopqrstuvwxyz0123456789-_".

Definition symbol (alphabet : string) (z : Z) : ascii :=
  default "?"%char (chars alphabet !! Z.to_nat z).
Fixpoint index_of (c : ascii) (l : list ascii) : option Z :=
  match l with
  | [] => None
  | d :: l' => if Ascii.eqb c d then Some 0%Z else Z.succ <$> index_of c l'
  end.
Definition symbol_value (alphabet : string) (c : ascii) : option Z := index_of c (chars alphabet).

(** The number of symbols of [k] bits that hold [n] bytes. *)
Definition encode_symbols (k : nat) (alphabet s : string) : string :=
  of_chars ((λ g, symbol alphabet (of_bits g)) <$> groups (8 * String.length s) k (byte_bits s)).
Definition decode_symbols (k : nat) (alphabet : string) (l : list ascii) : option (list bool) :=
  mjoin <$> mapM (λ c, bits k <$> symbol_value alphabet c) l.

(** The decoders skip carriage returns and line feeds. *)
Definition strip_newlines (s : string) : list ascii :=
  filter (λ c, code c ≠ 13%Z ∧ code c ≠ 10%Z) (chars s).

(** [base32.StdEncoding.WithPadding(base32.NoPadding)]: the bytes of a final
    group of 0-7 symbols; the left-over bits are not checked. *)
Definition base32_encode (s : string) : string := encode_symbols 5 base32_alphabet s.
Definition base32_bytes (symbols : nat) : nat :=
  5 * (symbols / 8) + match symbols mod 8 with 2 => 1 | 4 => 2 | 5 => 3 | 7 => 4 | _ => 0 end.
Definition base32_decode (s : string) : option string :=
  let l := strip_newlines s in
  b ← decode_symbols 5 base32_alphabet l; Some (bytes_of_bits (base32_bytes (length l)) b).

(** [base64.RawURLEncoding]: a final group of one symbol is an error. *)
Definition base64url_encode (s : string) : string := encode_symbols 6 base64url_alphabet s.
Definition base64url_decode (s : string) : option string :=
  let l := strip_newlines s in
  b ← decode_symbols 6 base64url_alphabet l;
  if bool_decide (length l mod 4 = 1) then None
  else Some (bytes_of_bits (length l * 6 / 8) b).

(** encoding/hex.  [hex_pairs] is [hex.Decode] on an even number of digits. *)
Definition hex_digit (c : ascii) : option Z :=
  if is_digit c then Some (code c - 48)%Z
  else if char_in 97 102 c then Some (code c - 87)%Z
  else if char_in 65 70 c then Some (code c - 55)%Z else None.
Fixpoint hex_pairs (l : list ascii) : option (list Z) :=
  match l with
  | [] => Some []
  | [_] => None
  | a :: b :: l' =>
      x ← hex_digit a; y ← hex_digit b; r ← hex_pairs l'; Some ((16 * x + y)%Z :: r)
  end.
Definition hex_symbol (z : Z) : ascii := symbol "0123456789abcdef" z.
Definition hex_encode (l : list Z) : string :=
  of_chars (z ← l; [hex_symbol (z / 16); hex_symbol (z `mod` 16)]).

(** ** SHA-256 *)

Class Digest := {
  sha256 : string → string;
  sha256_length s : String.length (sha256 s) = 32;
}.

(** No two of the inputs [l] have the same digest under [h]: a condition on
    finitely many byte strings, decidable for each of them. *)
Definition coll_free (h : string → string) (l : list string) : Prop :=
  ∀ x y, x ∈ l → y ∈ l → h x = h y → x = y.
Lemma coll_free_forall h l : coll_free h l ↔ Forall (λ x, Forall (λ y, h x = h y → x = y) l) l.
Proof. rewrite Forall_forall. setoid_rewrite Forall_forall. unfold coll_free. naive_solver. Qed.
#[global] Instance coll_free_dec h l : Decision (coll_free h l).
Proof. refine (cast_if (decide (Forall (λ x, Forall (λ y, h x = h y → x = y) l) l))); by rewrite coll_free_forall. Defined.
Lemma coll_free_pair h x y : coll_free h [x; y] ↔ (h x = h y → x = y).
Proof.
  split; [intros Hc; apply Hc; rewrite !elem_of_cons; auto|].
  intros Hxy a b [-> | [-> | []%elem_of_nil]%elem_of_cons]%elem_of_cons [-> | [-> | []%elem_of_nil]%elem_of_cons]%elem_of_cons Hab; auto.
  symmetry. auto.
Qed.
Lemma coll_free_incl h l k : (∀ x, x ∈ l → x ∈ k) → coll_free h k → coll_free h l.
Proof. intros Hs Hc x y Hx Hy. apply Hc; auto. Qed.

(** A stand-in with the documented length, for evaluating the model. *)
Fixpoint fold_digest (acc : Z) (s : string) : Z :=
  match s with
  | EmptyString => acc
  | String c s' => fold_digest ((acc * 257 + code c + 1) `mod` 2 ^ 64) s'
  end.
Definition toy_digest : Digest.
Proof. refine {| sha256 s := be 32 (fold_digest 7 s) |}. intros. apply be_length. Defined.

(** ** Round trips *)

Lemma groups_length_each f k l : Forall (λ g, length g = k) (groups f k l).
Proof.
  revert l. induction f as [|f IH]; intros [|b l]; cbn [groups]; constructor; auto.
  rewrite length_take, length_app, length_replicate. lia.
Qed.

Lemma groups_join f k l : 0 < k → length l ≤ f → ∃ r, mjoin (groups f k l) = l ++ r.
Proof.
  intros Hk. revert l. induction f as [|f IH]; intros [|b l] Hl; simpl in Hl; try lia.
  { by exists []. }
  { by exists []. }
  cbn [groups]. destruct (IH (drop k (b :: l))) as [r Hr].
  { rewrite length_drop. simpl. lia. }
  change (mjoin (?g :: ?gs)) with (g ++ mjoin gs). rewrite Hr.
  destruct (decide (k ≤ length (b :: l))) as [Hge|Hlt].
  - exists r. rewrite take_app_le by (rewrite length_take; lia).
    rewrite take_take, Nat.min_id, app_assoc. by rewrite take_drop.
  - rewrite (take_ge (b :: l)) by lia. rewrite drop_ge by lia. rewrite app_nil_l.
    rewrite take_app_ge by lia. rewrite <-app_assoc. by eexists.
Qed.

Lemma groups_count f k l : 0 < k → length l ≤ f →
  length (groups f k l) = (length l + (k - 1)) / k.
Proof.
  intros Hk. revert l. induction f as [|f IH]; intros [|b l] Hl; simpl in Hl; try lia.
  { simpl. by rewrite Nat.div_small by lia. }
  { simpl. by rewrite Nat.div_small by lia. }
  change (groups (S f) k (b :: l)) with
    (take k (take k (b :: l) ++ replicate k false) :: groups f k (drop k (b :: l))).
  simpl length at 1. rewrite IH by (rewrite length_drop; simpl; lia). rewrite length_drop.
  assert (0 < length (b :: l)) as Hn by (simpl; lia). revert Hn.
  generalize (length (b :: l)) as n. intros n Hn. destruct (decide (k ≤ n)) as [?|?].
  - replace (n + (k - 1)) with (n - k + (k - 1) + 1 * k) by lia. rewrite Nat.div_add by lia. lia.
  - rewrite (Nat.div_small (n - k + (k - 1))) by lia.
    replace (n + (k - 1)) with (n - 1 + 1 * k) by lia. rewrite Nat.div_add by lia.
    by rewrite Nat.div_small by lia.
Qed.

Lemma symbol_value_symbol alphabet z :
  NoDup (chars alphabet) → (0 ≤ z < slen alphabet)%Z → symbol_value alphabet (symbol alphabet z) = Some z.
Proof.
  unfold symbol_value, symbol. intros Hnd [H0 Hz]. rewrite <-length_chars in Hz.
  destruct (lookup_lt_is_Some_2 (chars alphabet) (Z.to_nat z)) as [c Hc]; [lia|].
  rewrite Hc. simpl. revert z H0 Hz Hc.
  induction Hnd as [|d l Hd _ IH]; intros z H0 Hz Hc; [done|]. simpl.
  destruct (Ascii.eqb_spec c d) as [->|Hne].
  - destruct (decide (z = 0%Z)) as [->|?]; [done|].
    destruct Hd. apply list_elem_of_lookup. exists (Z.to_nat (z - 1)).
    by replace (Z.to_nat z) with (S (Z.to_nat (z - 1))) in Hc by lia.
  - destruct (decide (z = 0%Z)) as [->|?]; [naive_solver|].
    replace (Z.to_nat z) with (S (Z.to_nat (z - 1))) in Hc by lia.
    rewrite (IH (z - 1)%Z); simpl in *; try lia; [simpl; f_equal; lia|done].
Qed.

Lemma decode_encode_symbols k alphabet s :
  0 < k → NoDup (chars alphabet) → slen alphabet = (2 ^ Z.of_nat k)%Z →
  ∃ r, decode_symbols k alphabet (chars (encode_symbols k alphabet s)) = Some (byte_bits s ++ r).
Proof.
  intros Hk Hnd Ha. unfold decode_symbols, encode_symbols. rewrite chars_of_chars.
  destruct (groups_join (8 * String.length s) k (byte_bits s)) as [r Hr]; [done|by rewrite byte_bits_length|].
  exists r. rewrite <-Hr. pose proof (groups_length_each (8 * String.length s) k (byte_bits s)) as Hall.
  assert (∀ gs, Forall (λ g, length g = k) gs →
    mapM (λ c, bits k <$> symbol_value alphabet c) ((λ g, symbol alphabet (of_bits g)) <$> gs) = Some gs) as Hm.
  { intros gs Hgs. apply mapM_Some_2, Forall2_fmap_l. apply Forall_Forall2_diag.
    eapply Forall_impl; [done|]. intros g Hg. simpl in *. rewrite symbol_value_symbol by (try done; rewrite Ha, <-Hg; apply of_bits_range).
    csimpl. by rewrite <-Hg, bits_of_bits. }
  by rewrite Hm.
Qed.

Lemma encode_symbols_length k alphabet s : 0 < k →
  String.length (encode_symbols k alphabet s) = (8 * String.length s + (k - 1)) / k.
Proof.
  intros Hk. unfold encode_symbols. rewrite length_of_chars, length_fmap.
  by rewrite groups_count, byte_bits_length by (rewrite ?byte_bits_length; lia).
Qed.

Lemma encode_symbols_chars k alphabet s c :
  slen alphabet = (2 ^ Z.of_nat k)%Z →
  c ∈ chars (encode_symbols k alphabet s) → c ∈ chars alphabet.
Proof.
  unfold encode_symbols. rewrite chars_of_chars. intros Ha (g&->&Hg)%list_elem_of_fmap.
  pose proof (groups_length_each (8 * String.length s) k (byte_bits s)) as Hall.
  rewrite Forall_forall in Hall. specialize (Hall _ Hg). simpl in Hall.
  pose proof (of_bits_range g) as Hr. rewrite Hall, <-Ha in Hr. rewrite <-length_chars in Hr.
  unfold symbol. destruct (lookup_lt_is_Some_2 (chars alphabet) (Z.to_nat (of_bits g))) as [d Hd]; [lia|].
  rewrite Hd. simpl. by apply list_elem_of_lookup_2 in Hd.
Qed.

Lemma alphabet_check (p : ascii → bool) alphabet c :
  all_chars p alphabet = true → c ∈ chars alphabet → p c = true.
Proof. unfold all_chars. rewrite forallb_forall. intros H Hc. apply H. by apply list_elem_of_In. Qed.

Lemma base32_text s :
  (∀ c, c ∈ chars s → c ∈ chars base32_alphabet) →
  to_upper (to_lower s) = s ∧ to_lower (to_lower s) = to_lower s ∧
  String.length (to_lower s) = String.length s ∧ strip_newlines s = chars s.
Proof.
  intros Hall. unfold strip_newlines. induction s as [|c s IH]; [done|].
  destruct IH as (IH1&IH2&IH3&IH4). { intros d Hd. apply Hall. simpl. by right. }
  assert (c ∈ chars base32_alphabet) as Hc by (apply Hall; simpl; by left).
  pose proof (alphabet_check (λ c, is_ascii c && is_ascii (lower_char c) &&
    Ascii.eqb (upper_char (lower_char c)) c && Ascii.eqb (lower_char (lower_char c)) (lower_char c) &&
    negb (code c =? 13)%Z && negb (code c =? 10)%Z) base32_alphabet c eq_refl Hc) as H.
  simpl in H. bool_to_prop. repeat match goal with H : Ascii.eqb _ _ = true |- _ => apply Ascii.eqb_eq in H end.
  rewrite !to_lower_cons, to_upper_cons by done. simpl String.length. simpl chars.
  rewrite filter_cons_True by done. by repeat split; f_equal.
Qed.

Lemma base32_bytes_count n : base32_bytes ((8 * n + (5 - 1)) / 5) = n.
Proof.
  unfold base32_bytes.
  pose proof (Nat.div_mod n 5 ltac:(lia)) as Hn. pose proof (Nat.mod_upper_bound n 5 ltac:(lia)) as Hr.
  set (q := n / 5) in *. set (r := n mod 5) in *.
  assert ((8 * n + (5 - 1)) / 5 = q * 8 + (8 * r + 4) / 5) as ->.
  { replace (8 * n + (5 - 1)) with (8 * r + 4 + (q * 8) * 5) by lia. rewrite Nat.div_add by lia. lia. }
  rewrite Nat.div_add_l, (Nat.add_comm (q * 8)), Nat.Div0.mod_add by lia.
  assert (∀ r, r < 5 → 5 * ((8 * r + 4) / 5 / 8) +
    match ((8 * r + 4) / 5) mod 8 with 2 => 1 | 4 => 2 | 5 => 3 | 7 => 4 | _ => 0 end = r) as Ht.
  { intros [|[|[|[|[|]]]]] ?; try lia; reflexivity. }
  specialize (Ht r Hr). lia.
Qed.

(** An identifier spelled in lower case decodes to the digest it was made from. *)
Lemma base32_round_trip s : base32_decode (to_upper (to_lower (base32_encode s))) = Some s.
Proof.
  destruct (base32_text (base32_encode s)) as (H1&_&_&H4).
  { intros c. by apply (encode_symbols_chars 5). }
  unfold base32_decode. rewrite H1, H4.
  destruct (decode_encode_symbols 5 base32_alphabet s) as [r Hr]; [lia|by apply (bool_decide_unpack _)|done|].
  unfold base32_encode. rewrite Hr. csimpl.
  rewrite length_chars, encode_symbols_length, base32_bytes_count by lia.
  by rewrite bytes_of_bits_byte_bits.
Qed.

Lemma base32_lower_inj s t : to_lower (base32_encode s) = to_lower (base32_encode t) → s = t.
Proof.
  intros H. pose proof (base32_round_trip s) as Hs. rewrite H, base32_round_trip in Hs. by simplify_eq.
Qed.

Lemma base32_lower_stable s : to_lower (to_lower (base32_encode s)) = to_lower (base32_encode s).
Proof. apply base32_text. intros c. by apply (encode_symbols_chars 5). Qed.
