(* ===== verification/Netip.v ===== *)
(** * net/netip addresses

    The textual forms of IP addresses as [netip.ParseAddr] reads them and
    [Addr.String] prints them: dotted IPv4, IPv6 with one [::], an embedded
    IPv4 tail and a zone.  An address is its family with its 32- or 128-bit
    value. *)
From S2P Require Import Prelude Order Bytes Encoding.
From Stdlib Require Import Ascii.
From Stdlib Require String.

Inductive ipaddr : Type :=
| IPv4 (value : Z)
| IPv6 (value : Z) (zone : string).
#[export] Instance ipaddr_eq_dec : EqDecision ipaddr.
Proof. solve_decision. Defined.

Definition addr_zone (a : ipaddr) : string := match a with IPv4 _ => "" | IPv6 _ z => z end.
Definition is4 (a : ipaddr) : bool := match a with IPv4 _ => true | IPv6 _ _ => false end.

(** ** Parsing *)

(** One decimal octet: digits, no leading zero, at most 255. *)
Definition parse_octet (s : string) : option Z :=
  match chars s with
  | [] => None
  | c :: l =>
      if bool_decide (c = "0"%char ∧ l ≠ []) then None
      else z ← parse_digits 0 (c :: l); if (z <=? 255)%Z then Some z else None
  end.
Definition parse_ipv4 (s : string) : option Z :=
  match split_on "."%char s with
  | [a; b; c; d] =>
      a ← parse_octet a; b ← parse_octet b; c ← parse_octet c; d ← parse_octet d;
      Some (((a * 256 + b) * 256 + c) * 256 + d)%Z
  | _ => None
  end.

(** The longest prefix of hexadecimal digits, its value, and the rest. *)
Fixpoint scan_hex (acc : Z) (off : nat) (l : list ascii) : Z * nat * list ascii :=
  match l with
  | [] => (acc, off, [])
  | c :: l' => match hex_digit c with
               | Some d => scan_hex (acc * 16 + d)%Z (S off) l'
               | None => (acc, off, l)
               end
  end.

(** The loop of [parseIPv6]: [got] are the 16-bit fields read so far, last
    first, [ellipsis] the number of fields before [::]. Each turn reads at
    least one field, so eight turns are all the loop can make. *)
Fixpoint parse_fields (fuel : nat) (got : list Z) (ellipsis : option nat) (l : list ascii)
    : option (list Z * option nat) :=
  match fuel with
  | O => match l with [] => Some (got, ellipsis) | _ => None end
  | S f =>
      let '(acc, off, rest) := scan_hex 0 0 l in
      if (Nat.eqb off 0 || Nat.ltb 4 off)%bool then None else
      match rest with
      | "."%char :: _ =>
          if bool_decide (ellipsis = None ∧ length got ≠ 6) || Nat.ltb 6 (length got) then None else
          v ← parse_ipv4 (of_chars l);
          Some ((v `mod` 65536)%Z :: (v / 65536)%Z :: got, ellipsis)
      | [] => Some (acc :: got, ellipsis)
      | ":"%char :: ":"%char :: rest' =>
          if bool_decide (is_Some ellipsis) then None else
          match rest' with
          | [] => Some (acc :: got, Some (S (length got)))
          | _ => parse_fields f (acc :: got) (Some (S (length got))) rest'
          end
      | ":"%char :: c :: rest' => parse_fields f (acc :: got) ellipsis (c :: rest')
      | _ => None
      end
  end.

Definition of_fields (l : list Z) : Z := foldl (λ a x, a * 65536 + x)%Z 0%Z l.

(** Expand the ellipsis to fill eight fields; it must stand for at least one. *)
Definition expand (fields : list Z) (ellipsis : option nat) : option Z :=
  match ellipsis with
  | None => if Nat.eqb (length fields) 8 then Some (of_fields fields) else None
  | Some e =>
      if Nat.ltb (length fields) 8 then
        Some (of_fields (take e fields ++ replicate (8 - length fields) 0%Z ++ drop e fields))
      else None
  end.

Fixpoint cut_at (sep : ascii) (l : list ascii) : list ascii * option (list ascii) :=
  match l with
  | [] => ([], None)
  | c :: l' => if Ascii.eqb c sep then ([], Some l')
               else let '(a, b) := cut_at sep l' in (c :: a, b)
  end.

Definition parse_ipv6 (s : string) : option ipaddr :=
  let '(l, zone) := cut_at "%"%char (chars s) in
  if bool_decide (zone = Some []) then None else
  let zone := of_chars (default [] zone) in
  r ← match l with
      | ":"%char :: ":"%char :: [] => Some ([], Some 0)
      | ":"%char :: ":"%char :: l' => parse_fields 8 [] (Some 0) l'
      | _ => parse_fields 8 [] None l
      end;
  v ← expand (reverse r.1) r.2;
  Some (IPv6 v zone).

(** [netip.ParseAddr]: the first of [.], [:] and [%] decides the family. *)
Definition parse_addr (s : string) : option ipaddr :=
  match List.find (λ c, char_elem c ".:%") (chars s) with
  | Some "."%char => IPv4 <$> parse_ipv4 s
  | Some ":"%char => parse_ipv6 s
  | _ => None
  end.

(** ** Printing *)

Definition print_ipv4 (v : Z) : string :=
  itoa (v / 16777216) +:+ "." +:+ itoa ((v / 65536) `mod` 256) +:+ "." +:+
  itoa ((v / 256) `mod` 256) +:+ "." +:+ itoa (v `mod` 256).

Definition fields_of (v : Z) : list Z :=
  (λ i, (v / 65536 ^ (7 - Z.of_nat i)) `mod` 65536)%Z <$> seq 0 8.
Fixpoint zero_run (l : list Z) : nat :=
  match l with 0%Z :: l' => S (zero_run l') | _ => 0 end.
(** Start and length of the first longest run of at least two zero fields. *)
Definition longest_run (l : list Z) : option (nat * nat) :=
  foldl (λ best i,
    let n := zero_run (drop i l) in
    if (2 <=? n)%nat && (match best with Some (_, m) => m <? n | None => true end)%nat
    then Some (i, n) else best) None (seq 0 8).
Fixpoint hex_acc (fuel : nat) (z : Z) (acc : string) : string :=
  match fuel with
  | O => acc
  | S f => let acc' := String (hex_symbol (z `mod` 16)) acc in
           if (z <? 16)%Z then acc' else hex_acc f (z / 16) acc'
  end.
Definition print_hex (z : Z) : string := hex_acc 4 z "".
Fixpoint join (sep : string) (l : list string) : string :=
  match l with
  | [] => ""
  | [x] => x
  | x :: l' => x +:+ sep +:+ join sep l'
  end.
Definition print_ipv6 (v : Z) : string :=
  let l := fields_of v in
  match longest_run l with
  | None => join ":" (print_hex <$> l)
  | Some (i, n) => join ":" (print_hex <$> take i l) +:+ "::" +:+ join ":" (print_hex <$> drop (i + n) l)
  end.

Definition is4_in6 (v : Z) : bool := (v / 4294967296 =? 65535)%Z.
Definition print_addr (a : ipaddr) : string :=
  match a with
  | IPv4 v => print_ipv4 v
  | IPv6 v zone =>
      (if is4_in6 v then "::ffff:" +:+ print_ipv4 (v `mod` 4294967296) else print_ipv6 v) +:+
      (if bool_decide (zone = "") then "" else "%" +:+ zone)
  end.

Example parse_v4 : parse_addr "192.0.2.7" = Some (IPv4 3221225991).
Proof. reflexivity. Qed.
Example parse_v4_leading_zero : parse_addr "192.0.02.7" = None.
Proof. reflexivity. Qed.
Example print_v6 : print_addr <$> parse_addr "2001:DB8:0:0:1::7" = Some "2001:db8::1:0:0:7".
Proof. vm_compute. reflexivity. Qed.
Example print_v6_mapped : print_addr <$> parse_addr "::ffff:192.0.2.1%eth0" = Some "::ffff:192.0.2.1%eth0".
Proof. vm_compute. reflexivity. Qed.
Example parse_v6_bad : parse_addr <$> ["1::2::3"; "::1.2.3"; "1:2:3:4:5:6:7"; "fe80::1%"; "1:2:3:4:5:6:7:8::"; "12345::"] = replicate 6 None.
Proof. vm_compute. reflexivity. Qed.

(** ** Sizes of printed addresses *)

Lemma digits_acc_length f z acc :
  (String.length acc ≤ String.length (digits_acc f z acc) ≤ f + String.length acc)%nat.
Proof.
  revert z acc. induction f as [|f IH]; intros z acc; simpl; [lia|].
  set (acc' := String _ acc). destruct (z <? 10)%Z; [simpl; lia|].
  specialize (IH (z / 10)%Z acc'). simpl in IH. lia.
Qed.
Lemma itoa_length z : (1 ≤ String.length (itoa z) ≤ 20)%nat.
Proof.
  unfold itoa. set (acc := String (byte_of (48 + z `mod` 10)) "").
  change (digits_acc 20 z "") with (if (z <? 10)%Z then acc else digits_acc 19 (z / 10) acc).
  destruct (z <? 10)%Z; [simpl; lia|].
  pose proof (digits_acc_length 19 (z / 10) acc) as H. subst acc. cbn [String.length] in H. lia.
Qed.
Lemma hex_acc_length f z acc :
  (String.length acc ≤ String.length (hex_acc f z acc) ≤ f + String.length acc)%nat.
Proof.
  revert z acc. induction f as [|f IH]; intros z acc; simpl; [lia|].
  set (acc' := String _ acc). destruct (z <? 16)%Z; [simpl; lia|].
  specialize (IH (z / 16)%Z acc'). simpl in IH. lia.
Qed.
Lemma print_hex_length z : (1 ≤ String.length (print_hex z) ≤ 4)%nat.
Proof.
  unfold print_hex. set (acc := String (hex_symbol (z `mod` 16)) "").
  change (hex_acc 4 z "") with (if (z <? 16)%Z then acc else hex_acc 3 (z / 16) acc).
  destruct (z <? 16)%Z; [simpl; lia|].
  pose proof (hex_acc_length 3 (z / 16) acc) as H. subst acc. cbn [String.length] in H. lia.
Qed.
Lemma join_cons_length sep x l : (String.length x ≤ String.length (join sep (x :: l)))%nat.
Proof. destruct l; simpl; [lia|]. rewrite slen_app. lia. Qed.
Lemma join_hex_length l : (String.length (join ":" (print_hex <$> l)) ≤ 5 * length l)%nat.
Proof.
  induction l as [|x [|y l] IH]; [done|..]; pose proof (print_hex_length x).
  - change (join ":" (print_hex <$> [x])) with (print_hex x). cbn [length]. lia.
  - change (join ":" (print_hex <$> x :: y :: l)) with
      (print_hex x +:+ ":" +:+ join ":" (print_hex <$> y :: l)).
    rewrite !slen_app. change (String.length ":") with 1. cbn [length] in *. lia.
Qed.
Lemma print_ipv4_length v : (7 ≤ String.length (print_ipv4 v) ≤ 83)%nat.
Proof.
  unfold print_ipv4. rewrite !slen_app. simpl String.length.
  pose proof (itoa_length (v / 16777216)). pose proof (itoa_length ((v / 65536) `mod` 256)).
  pose proof (itoa_length ((v / 256) `mod` 256)). pose proof (itoa_length (v `mod` 256)). lia.
Qed.
Lemma print_ipv6_length v : (String.length (print_ipv6 v) ≤ 90)%nat.
Proof.
  unfold print_ipv6. assert (length (fields_of v) = 8) as Hl by done.
  destruct (longest_run _) as [[i n]|].
  - rewrite !slen_app. pose proof (join_hex_length (take i (fields_of v))) as H1.
    pose proof (join_hex_length (drop (i + n) (fields_of v))) as H2.
    rewrite length_take in H1. rewrite length_drop in H2. simpl String.length. lia.
  - pose proof (join_hex_length (fields_of v)). lia.
Qed.
Lemma print_ipv6_nonempty v : print_ipv6 v ≠ "".
Proof.
  unfold print_ipv6. destruct (longest_run _) as [[i n]|].
  - intros H%(f_equal String.length). rewrite !slen_app in H. simpl in H. lia.
  - intros H%(f_equal String.length). change (fields_of v) with
      (((v / 65536 ^ 7) `mod` 65536)%Z :: tail (fields_of v)) in H.
    rewrite fmap_cons in H. pose proof (join_cons_length ":" (print_hex ((v / 65536 ^ 7) `mod` 65536)%Z)
      (print_hex <$> tail (fields_of v))). pose proof (print_hex_length ((v / 65536 ^ 7) `mod` 65536)%Z).
    change (String.length "") with 0 in H. lia.
Qed.
Lemma print_addr_length a : addr_zone a = "" → (1 ≤ String.length (print_addr a) ≤ 253)%nat.
Proof.
  destruct a as [v|v zone]; simpl; [pose proof (print_ipv4_length v); lia|]. intros ->.
  rewrite bool_decide_true, sapp_nil_r by done. destruct (is4_in6 v).
  - rewrite slen_app. pose proof (print_ipv4_length (v `mod` 4294967296)). simpl. lia.
  - pose proof (print_ipv6_length v). pose proof (print_ipv6_nonempty v).
    destruct (print_ipv6 v); [done|]. simpl in *. lia.
Qed.

Lemma parse_addr_no_colon s a : char_elem ":" s = false → parse_addr s = Some a → addr_zone a = "".
Proof.
  unfold parse_addr, char_elem. intros Hc.
  destruct (List.find _ (chars s)) as [c|] eqn:Hf; [|done].
  apply find_some in Hf as [Hin _].
  destruct (decide (c = ":"%char)) as [->|Hne].
  { assert (existsb (Ascii.eqb ":") (chars s) = true) as H; [|congruence].
    apply existsb_exists. exists ":"%char. by rewrite Ascii.eqb_refl. }
  destruct c as [[] [] [] [] [] [] [] []]; try done.
  intros (v&_&->)%fmap_Some. done.
Qed.
