(* ===== verification/Endpoint.v ===== *)
(** * Endpoint errors and addresses (internal/endpoint)

    The validation error of errors.go and the canonical network addresses of
    address.go.  A Go pointer is an [option]; a returned [error] is a
    [ValidationError]. *)
From S2P Require Import Prelude Order Bytes Encoding Netip.
From Stdlib Require Import Ascii.
From Stdlib Require String.

Record ValidationError := invalid { err_field : string; err_problem : string }.
Abbreviation checked A := (result ValidationError A).

(** ** Addresses *)

Module Address.

Inductive hostKind := hostInvalid | hostDNS | hostIPv4 | hostIPv6.
#[global] Instance hostKind_eq_dec : EqDecision hostKind.
Proof. solve_decision. Defined.

Record Address := { host : string; port : Z; kind : hostKind }.
#[global] Instance Address_eq_dec : EqDecision Address.
Proof. solve_decision. Defined.

Definition has_suffix (p s : string) : bool :=
  has_prefix (of_chars (reverse (chars p))) (of_chars (reverse (chars s))).
(** The UTF-8 spellings of the characters [unicode.IsSpace] accepts. *)
Definition space_spellings : list string :=
  let u l := of_chars (byte_of <$> l) in
  [u [9]; u [10]; u [11]; u [12]; u [13]; u [32]; u [194; 133]; u [194; 160]; u [225; 154; 128]]%Z ++
  ((λ i, u [226; 128; 128 + Z.of_nat i]%Z) <$> seq 0 11) ++
  [u [226; 128; 168]; u [226; 128; 169]; u [226; 128; 175]; u [226; 129; 159]; u [227; 128; 128]]%Z.
(** [strings.TrimSpace(raw) != raw]. *)
Definition outer_space (raw : string) : bool :=
  existsb (λ sp, has_prefix sp raw || has_suffix sp raw) space_spellings.

(** One byte of a DNS label at [index] of [len]. *)
Definition label_byte (field : string) (len index : nat) (character : ascii) : checked unit :=
  let alphanumeric := is_lower character || is_digit character in
  let hyphen := Ascii.eqb character "-" in
  if negb alphanumeric && negb hyphen then Err (invalid field "must contain ASCII DNS labels")
  else if hyphen && (Nat.eqb index 0 || Nat.eqb index (len - 1))
  then Err (invalid field "DNS labels must not start or end with a hyphen")
  else Ok ().
Fixpoint label_bytes (field : string) (len index : nat) (l : list ascii) : checked unit :=
  match l with
  | [] => Ok ()
  | c :: l' => _ ← label_byte field len index c; label_bytes field len (S index) l'
  end.
Fixpoint dns_labels (field : string) (labels : list string) : checked unit :=
  match labels with
  | [] => Ok ()
  | label :: rest =>
      _ ← guard_err (bool_decide (label = "") || (63 <? slen label)%Z)
            (invalid field "must contain valid DNS labels");
      _ ← label_bytes field (String.length label) 0 (chars label);
      dns_labels field rest
  end.

Definition addr_kind (a : ipaddr) : hostKind := if is4 a then hostIPv4 else hostIPv6.
Definition trim_dot (s : string) : string :=
  if has_suffix "." s then of_chars (removelast (chars s)) else s.

(** The part of [normalizeHost] after the brackets are handled. *)
Definition normalize_unbracketed (field : string) (bracketed : bool) (host : string)
    : checked (string * hostKind) :=
  match parse_addr host with
  | Some address =>
      if bool_decide (addr_zone address ≠ "") then Err (invalid field "IPv6 zones are not supported")
      else if bracketed && is4 address
      then Err (invalid field "brackets are only valid for IPv6 addresses")
      else Ok (print_addr address, addr_kind address)
  | None =>
      if contains_any host ":[]" then Err (invalid field "must be a valid DNS name or IP address") else
      let host := trim_dot host in
      match parse_addr host with
      | Some address => Ok (print_addr address, addr_kind address)
      | None =>
          let host := to_lower host in
          _ ← guard_err (bool_decide (host = "") || (253 <? slen host)%Z)
                (invalid field "must satisfy DNS length limits");
          _ ← dns_labels field (split_on "." host);
          Ok (host, hostDNS)
      end
  end.

Definition normalizeHost (raw field : string) : checked (string * hostKind) :=
  if bool_decide (raw = "") then Err (invalid field "must not be empty")
  else if outer_space raw then Err (invalid field "must not contain surrounding whitespace")
  else if has_prefix "[" raw || has_suffix "]" raw then
    if (slen raw <? 3)%Z || negb (has_prefix "[" raw) || negb (has_suffix "]" raw)
    then Err (invalid field "has invalid IP address brackets")
    else normalize_unbracketed field true (of_chars (removelast (tail (chars raw))))
  else normalize_unbracketed field false raw.

Definition NewAddress (raw : string) (p : Z) : checked Address :=
  '(h, k) ← normalizeHost raw "address.host";
  if (p <? 1)%Z || (65535 <? p)%Z then Err (invalid "address.port" "must be between 1 and 65535")
  else Ok {| host := h; port := p; kind := k |}.

Definition valid (a : Address) : bool :=
  bool_decide (host a ≠ "") && bool_decide (port a ≠ 0%Z) && bool_decide (kind a ≠ hostInvalid).

(** [decimalPort]: the digits are written from the end of a five-byte buffer. *)
Fixpoint decimal_digits (fuel : nat) (p : Z) (buffer : string) : string :=
  match fuel with
  | O => buffer
  | S f => if (0 <? p)%Z then decimal_digits f (p / 10) (String (byte_of (48 + p `mod` 10)) buffer)
           else buffer
  end.
Definition decimalPort (p : Z) : string := decimal_digits 5 p "".
(** [Address.String] with [net.JoinHostPort]. *)
Definition String_ (a : Address) : string :=
  if valid a then
    (if char_elem ":" (host a) then "[" +:+ host a +:+ "]" else host a) +:+ ":" +:+ decimalPort (port a)
  else "<invalid-address>".

(** ** What an admitted address satisfies *)

Record wf (a : Address) : Prop := {
  wf_host_length : (slen (host a) ≤ 253)%Z;
  wf_host : host a ≠ "";
  wf_port : (1 ≤ port a ≤ 65535)%Z;
  wf_kind : kind a ≠ hostInvalid;
}.

Lemma normalizeHost_range raw field h k :
  normalizeHost raw field = Ok (h, k) → h ≠ "" ∧ (slen h ≤ 253)%Z ∧ k ≠ hostInvalid.
Proof.
  assert (∀ bracketed host', normalize_unbracketed field bracketed host' = Ok (h, k) →
    h ≠ "" ∧ (slen h ≤ 253)%Z ∧ k ≠ hostInvalid) as Hmain.
  { intros br host'. unfold normalize_unbracketed.
    assert (∀ a, addr_zone a = "" → print_addr a ≠ "" ∧ (slen (print_addr a) ≤ 253)%Z ∧ addr_kind a ≠ hostInvalid)
      as Haddr.
    { intros a Ha%print_addr_length. split; [|split; [lia|by destruct a]].
      intros E. rewrite E in Ha. simpl in Ha. lia. }
    destruct (parse_addr host') as [a|].
    { case_bool_decide as Hz; [done|]. destruct (br && is4 a); [done|]. intros [= <- <-].
      apply Haddr. destruct (decide (addr_zone a = "")); naive_solver. }
    destruct (contains_any host' ":[]") eqn:Hc; [done|].
    destruct (parse_addr (trim_dot host')) as [a|] eqn:Ha.
    { intros [= <- <-]. apply Haddr. eapply parse_addr_no_colon; [|done].
      destruct (char_elem ":" (trim_dot host')) eqn:E; [|done]. exfalso.
      unfold char_elem in E. apply existsb_exists in E as (c&Hin&Hcc). apply Ascii.eqb_eq in Hcc; subst c.
      assert (":"%char ∈ chars host') as Hin'.
      { apply list_elem_of_In in Hin. unfold trim_dot in Hin. destruct (has_suffix _ _); [|done].
        rewrite chars_of_chars in Hin. revert Hin. generalize (chars host') as l. clear.
        induction l as [|x [|y l] IH]; [done|simpl; by intros ?%not_elem_of_nil|].
        change (removelast (x :: y :: l)) with (x :: removelast (y :: l)).
        rewrite !elem_of_cons in *. naive_solver. }
      assert (contains_any host' ":[]" = true); [|congruence].
      unfold contains_any. apply existsb_exists. exists ":"%char. split; [by apply list_elem_of_In|done]. }
    intros Hok. ok_inv. simplify_eq. bool_to_prop. split; [done|split; [lia|done]]. }
  unfold normalizeHost. case_bool_decide; [done|]. destruct (outer_space raw); [done|].
  destruct (_ || _); [destruct (_ || _); [done|]|]; apply Hmain.
Qed.

Lemma NewAddress_wf raw p a : NewAddress raw p = Ok a → wf a.
Proof.
  unfold NewAddress. intros H. apply result_bind_Ok in H as ([h k]&H1&H2).
  apply normalizeHost_range in H1 as (?&?&?).
  destruct (_ || _) eqn:E; [done|]. simplify_eq. bool_to_prop. split; simpl; auto; lia.
Qed.

Lemma wf_valid a : wf a → valid a = true.
Proof.
  intros [? ? ? ?]. unfold valid. rewrite !andb_true_iff, !bool_decide_eq_true. naive_solver lia.
Qed.
End Address.

(** Read off what a normalized host satisfies. *)
Ltac host_range :=
  repeat match goal with
  | H : Address.normalizeHost _ _ = Ok _ |- _ => apply Address.normalizeHost_range in H; destruct H as (?&?&?)
  end.

Example address_dns : Address.NewAddress "Example.COM." 443 =
  Ok {| Address.host := "example.com"; Address.port := 443; Address.kind := Address.hostDNS |}.
Proof. vm_compute. reflexivity. Qed.
Example address_v6 : Address.String_ <$> match Address.NewAddress "[2001:DB8::1]" 8443 with Ok a => Some a | Err _ => None end
  = Some "[2001:db8::1]:8443".
Proof. vm_compute. reflexivity. Qed.
