(* ===== verification/Configuration.v ===== *)
(** * Endpoint configurations (internal/endpoint/configuration.go, advanced.go)

    Credentials, transports, TLS, Reality, Hysteria2 and the constructors
    that admit a connection configuration.  The constructors are the only way
    the program makes these values, so [wf], the predicate they establish, is
    the type invariant the rest of the development relies on. *)
From S2P Require Import Prelude Order Bytes Encoding Netip Endpoint.
From Stdlib Require Import Ascii.
From Stdlib Require String.
Import Address (Address, hostKind).

Inductive Protocol :=
| ProtocolUnknown | ProtocolVLESS | ProtocolTrojan | ProtocolVMess | ProtocolShadowsocks
| ProtocolSOCKS5 | ProtocolHTTPProxy | ProtocolHysteria2.
#[global] Instance Protocol_eq_dec : EqDecision Protocol.
Proof. solve_decision. Defined.
Definition Protocol_code (p : Protocol) : Z :=
  match p with
  | ProtocolUnknown => 0 | ProtocolVLESS => 1 | ProtocolTrojan => 2 | ProtocolVMess => 3
  | ProtocolShadowsocks => 4 | ProtocolSOCKS5 => 5 | ProtocolHTTPProxy => 6 | ProtocolHysteria2 => 7
  end.
Definition Protocol_String (p : Protocol) : string :=
  match p with
  | ProtocolVLESS => "vless" | ProtocolTrojan => "trojan" | ProtocolVMess => "vmess"
  | ProtocolShadowsocks => "shadowsocks" | ProtocolSOCKS5 => "socks5"
  | ProtocolHTTPProxy => "http-proxy" | ProtocolHysteria2 => "hysteria2"
  | ProtocolUnknown => "unknown"
  end.

(** ** Credentials *)

Module Credential.

Record Credential := { protocol : Protocol; secret : option string; username : string }.
#[global] Instance Credential_eq_dec : EqDecision Credential.
Proof. solve_decision. Defined.

Definition nth_is (l : list ascii) (n : nat) (c : ascii) : bool := bool_decide (l !! n = Some c).
Definition take_str (from to : nat) (s : string) : string := of_chars (take (to - from) (drop from (chars s))).

(** [canonicalUUID].  [hex.Decode] writes the decoded pairs to the front of a
    zeroed 16-byte buffer. *)
Definition canonicalUUID (raw : string) : checked string :=
  let l := chars raw in
  let bad := invalid "vless.user_id" "must be a hyphenated UUID" in
  if negb (slen raw =? 36)%Z || negb (nth_is l 8 "-") || negb (nth_is l 13 "-") ||
     negb (nth_is l 18 "-") || negb (nth_is l 23 "-") then Err bad else
  let compact := filter (λ c, c ≠ "-"%char) l in
  match hex_pairs compact with
  | None => Err bad
  | Some bytes =>
      let decoded := bytes ++ replicate (16 - length bytes) 0%Z in
      if forallb (λ v, (v =? 0)%Z) decoded
      then Err (invalid "vless.user_id" "must not be the nil UUID") else
      let encoded := hex_encode decoded in
      Ok (take_str 0 8 encoded +:+ "-" +:+ take_str 8 12 encoded +:+ "-" +:+ take_str 12 16 encoded +:+
          "-" +:+ take_str 16 20 encoded +:+ "-" +:+ take_str 20 32 encoded)
  end.

Definition NewVLESSCredential (userID : string) : checked Credential :=
  canonical ← canonicalUUID userID;
  Ok {| protocol := ProtocolVLESS; secret := Some canonical; username := "" |}.

Definition NewTrojanCredential (password : string) : checked Credential :=
  if bool_decide (password = "") then Err (invalid "trojan.password" "must not be empty")
  else if (4096 <? slen password)%Z then Err (invalid "trojan.password" "must not exceed 4096 bytes")
  else if negb (valid_utf8 password) then Err (invalid "trojan.password" "must be valid UTF-8")
  else Ok {| protocol := ProtocolTrojan; secret := Some password; username := "" |}.

Definition NewVMessCredential (userID : string) : checked Credential :=
  canonical ← canonicalUUID userID;
  Ok {| protocol := ProtocolVMess; secret := Some canonical; username := "" |}.

Definition bounded_password (field : string) (protocol : Protocol) (password : string) : checked Credential :=
  if bool_decide (password = "") || (4096 <? slen password)%Z || negb (valid_utf8 password)
  then Err (invalid field "must be valid UTF-8 and 1–4096 bytes")
  else Ok {| protocol := protocol; secret := Some password; username := "" |}.
Definition NewShadowsocksCredential : string → checked Credential :=
  bounded_password "shadowsocks.password" ProtocolShadowsocks.
Definition NewHysteria2Credential : string → checked Credential :=
  bounded_password "hysteria2.password" ProtocolHysteria2.

(** The bytes 0x00, CR and LF. *)
Definition separators : string := of_chars (byte_of <$> [0; 13; 10]%Z).

Definition NewProxyCredential (protocol : Protocol) (username password : string) : checked Credential :=
  if negb (bool_decide (protocol = ProtocolSOCKS5)) && negb (bool_decide (protocol = ProtocolHTTPProxy))
  then Err (invalid "proxy.protocol" "must be SOCKS5 or HTTP proxy") else
  let maxPassword := (if bool_decide (protocol = ProtocolSOCKS5) then 255 else 4096)%Z in
  if (255 <? slen username)%Z || (maxPassword <? slen password)%Z || negb (valid_utf8 username) ||
     negb (valid_utf8 password) ||
     negb (Bool.eqb (bool_decide (username = "")) (bool_decide (password = ""))) ||
     bool_decide (protocol = ProtocolHTTPProxy) && char_elem ":" username
  then Err (invalid "proxy.authentication" "must be an empty pair or valid username and password")
  else if contains_any username separators || contains_any password separators
  then Err (invalid "proxy.authentication" "must not contain control separators")
  else Ok {| protocol := protocol; secret := Some password; username := username |}.

Definition Reveal (c : Credential) : string := default "" (secret c).

Definition valid (c : Credential) : bool :=
  match secret c with
  | None => false
  | Some value =>
      if bool_decide (protocol c = ProtocolSOCKS5) || bool_decide (protocol c = ProtocolHTTPProxy)
      then Bool.eqb (bool_decide (username c = "")) (bool_decide (value = ""))
      else bool_decide (value ≠ "") &&
           bool_decide (protocol c ∈ [ProtocolVLESS; ProtocolTrojan; ProtocolVMess; ProtocolShadowsocks; ProtocolHysteria2])
  end.

(** The constant-time comparisons compare bytes of equal-length strings. *)
Definition equal (c other : Credential) : bool :=
  match secret c, secret other with
  | Some value, Some value' =>
      if negb (valid c) || negb (valid other) || bool_decide (protocol c ≠ protocol other) ||
         negb (slen value =? slen value')%Z || negb (slen (username c) =? slen (username other))%Z
      then false else bool_decide (value = value') && bool_decide (username c = username other)
  | _, _ => false
  end.

(** What the constructors establish. *)
Record wf (c : Credential) : Prop := {
  wf_valid : valid c = true;
  wf_secret : (slen (Reveal c) ≤ 4096)%Z;
  wf_username : (slen (username c) ≤ 255)%Z;
  wf_no_username : protocol c ≠ ProtocolSOCKS5 → protocol c ≠ ProtocolHTTPProxy → username c = "";
}.

Lemma take_str_length from to s : (slen (take_str from to s) ≤ Z.of_nat (to - from))%Z.
Proof. unfold take_str. rewrite length_of_chars, length_take. lia. Qed.

Lemma canonicalUUID_length raw u : canonicalUUID raw = Ok u → u ≠ "" ∧ (slen u ≤ 36)%Z.
Proof.
  unfold canonicalUUID. destruct (_ || _); [done|]. destruct (hex_pairs _) as [bytes|]; [|done].
  cbv zeta. set (decoded := bytes ++ _). generalize (hex_encode decoded) as e. intros e.
  destruct (forallb _ decoded); [done|]. intros [= <-].
  pose proof (take_str_length 0 8 e). pose proof (take_str_length 8 12 e).
  pose proof (take_str_length 12 16 e). pose proof (take_str_length 16 20 e).
  pose proof (take_str_length 20 32 e). split.
  - intros E%(f_equal String.length). rewrite !slen_app in E. simpl in E. lia.
  - rewrite !slen_app. simpl String.length. lia.
Qed.

Lemma wf_intro p value u :
  (p ≠ ProtocolUnknown) → (p = ProtocolSOCKS5 ∨ p = ProtocolHTTPProxy → (u = "" ↔ value = "")) →
  (p ≠ ProtocolSOCKS5 → p ≠ ProtocolHTTPProxy → value ≠ "" ∧ u = "") →
  (slen value ≤ 4096)%Z → (slen u ≤ 255)%Z →
  wf {| protocol := p; secret := Some value; username := u |}.
Proof.
  intros Hp H1 H2 Hv Hu. split; [|done|done|by intros; apply H2].
  unfold valid. simpl. destruct p; simpl; try done;
    try (rewrite bool_decide_true by (by apply H2); done);
    (destruct H1 as [H1 H1']; [auto|]; repeat case_bool_decide; auto; exfalso; auto).
Qed.

Lemma NewVLESSCredential_wf u c : NewVLESSCredential u = Ok c → wf c.
Proof. intros H. unfold NewVLESSCredential in H. ok_inv. apply canonicalUUID_length in H as [??]. apply wf_intro; naive_solver lia. Qed.
Lemma NewVMessCredential_wf u c : NewVMessCredential u = Ok c → wf c.
Proof. intros H. unfold NewVMessCredential in H. ok_inv. apply canonicalUUID_length in H as [??]. apply wf_intro; naive_solver lia. Qed.
Lemma NewTrojanCredential_wf p c : NewTrojanCredential p = Ok c → wf c.
Proof.
  unfold NewTrojanCredential. intros H. split_all_in H. bool_to_prop. apply wf_intro; simpl; naive_solver lia.
Qed.
Lemma bounded_password_wf f p pw c :
  p = ProtocolShadowsocks ∨ p = ProtocolHysteria2 → bounded_password f p pw = Ok c → wf c.
Proof.
  unfold bounded_password. intros Hp H. split_all_in H. bool_to_prop.
  apply wf_intro; simpl; naive_solver lia.
Qed.
Lemma NewProxyCredential_wf p u pw c : NewProxyCredential p u pw = Ok c → wf c.
Proof.
  unfold NewProxyCredential. intros H.
  assert (p = ProtocolSOCKS5 ∨ p = ProtocolHTTPProxy) as Hp by (destruct p; simpl in H; auto; done).
  destruct Hp as [-> | ->]; cbn in H; split_all_in H; bool_to_prop; apply wf_intro; try done; try lia;
    try (intros; repeat case_bool_decide; naive_solver).
Qed.
End Credential.

(** ** Transports *)

Module Transport.

Inductive TransportKind :=
| TransportUnknown | TransportTCP | TransportWebSocket | TransportHTTP2 | TransportHTTPUpgrade
| TransportGRPC | TransportQUIC | TransportXHTTP.
#[global] Instance TransportKind_eq_dec : EqDecision TransportKind.
Proof. solve_decision. Defined.
Definition kind_code (k : TransportKind) : Z :=
  match k with
  | TransportUnknown => 0 | TransportTCP => 1 | TransportWebSocket => 2 | TransportHTTP2 => 3
  | TransportHTTPUpgrade => 4 | TransportGRPC => 5 | TransportQUIC => 6 | TransportXHTTP => 7
  end.
Definition kind_String (k : TransportKind) : string :=
  match k with
  | TransportTCP => "tcp" | TransportWebSocket => "websocket" | TransportHTTP2 => "http2"
  | TransportHTTPUpgrade => "httpupgrade" | TransportGRPC => "grpc" | TransportQUIC => "quic"
  | TransportXHTTP => "xhttp" | TransportUnknown => "unknown"
  end.

Record advancedTransport := { path : string; thost : string; service : string; mode : string }.
#[global] Instance advancedTransport_eq_dec : EqDecision advancedTransport.
Proof. solve_decision. Defined.
Definition xhttp_modes : list string := ["stream-one"; "stream-up"; "packet-up"].

Definition advanced_valid (t : advancedTransport) (kind : TransportKind) : bool :=
  match kind with
  | TransportHTTP2 | TransportHTTPUpgrade =>
      bool_decide (path t ≠ "") && bool_decide (service t = "") && bool_decide (mode t = "")
  | TransportGRPC =>
      bool_decide (service t ≠ "") && bool_decide (path t = "") && bool_decide (thost t = "") &&
      bool_decide (mode t = "")
  | TransportXHTTP =>
      bool_decide (path t ≠ "") && bool_decide (service t = "") && bool_decide (mode t ∈ xhttp_modes)
  | TransportQUIC => bool_decide (path t = "") && bool_decide (thost t = "") && bool_decide (service t = "")
  | _ => false
  end.

Record Transport := {
  kind : TransportKind;
  webSocketPath : option string;
  webSocketHost : string;
  advanced : option advancedTransport;
}.
#[global] Instance Transport_eq_dec : EqDecision Transport.
Proof. solve_decision. Defined.

Definition NewTCPTransport : Transport :=
  {| kind := TransportTCP; webSocketPath := None; webSocketHost := ""; advanced := None |}.

(** A byte below 0x20 or 0x7f, as [range] over the path sees it. *)
Definition path_control (r : Z) : bool := (r <? 32)%Z || (r =? 127)%Z.

Definition NewWebSocketTransport (p : string) : checked Transport :=
  let field := "transport.websocket.path" in
  if bool_decide (p = "") || bool_decide (first_char p ≠ Some "/"%char)
  then Err (invalid field "must be explicit and start with a slash")
  else if (2048 <? slen p)%Z then Err (invalid field "must not exceed 2048 bytes")
  else if negb (valid_utf8 p) then Err (invalid field "must be valid UTF-8")
  else if negb (all_runes (λ r, negb (path_control r)) p)
  then Err (invalid field "must not contain control characters")
  else Ok {| kind := TransportWebSocket; webSocketPath := Some p; webSocketHost := ""; advanced := None |}.

Definition NewWebSocketTransportWithHost (p h : string) : checked Transport :=
  transport ← NewWebSocketTransport p;
  if bool_decide (h ≠ "") then
    '(normalized, _) ← Address.normalizeHost h "transport.websocket.host";
    Ok {| kind := kind transport; webSocketPath := webSocketPath transport;
          webSocketHost := normalized; advanced := advanced transport |}
  else Ok transport.

Definition newHTTPTransport (k : TransportKind) (p h : string) : checked Transport :=
  if bool_decide (p = "") || bool_decide (first_char p ≠ Some "/"%char) || (2048 <? slen p)%Z ||
     negb (valid_utf8 p)
  then Err (invalid "transport.path" "must be an explicit UTF-8 absolute path")
  else if negb (all_runes (λ r, negb (path_control r)) p)
  then Err (invalid "transport.path" "must not contain control characters")
  else
    h ← (if bool_decide (h ≠ "") then '(h', _) ← Address.normalizeHost h "transport.host"; Ok h' else Ok h);
    Ok {| kind := k; webSocketPath := None; webSocketHost := "";
          advanced := Some {| path := p; thost := h; service := ""; mode := "" |} |}.
Definition NewHTTP2Transport : string → string → checked Transport := newHTTPTransport TransportHTTP2.
Definition NewHTTPUpgradeTransport : string → string → checked Transport :=
  newHTTPTransport TransportHTTPUpgrade.
Definition NewXHTTPTransport (p h m : string) : checked Transport :=
  if bool_decide (m ∉ xhttp_modes) then Err (invalid "transport.xhttp.mode" "is unsupported") else
  transport ← newHTTPTransport TransportXHTTP p h;
  Ok {| kind := kind transport; webSocketPath := webSocketPath transport;
        webSocketHost := webSocketHost transport;
        advanced := (λ a, {| path := path a; thost := thost a; service := service a; mode := m |})
                      <$> advanced transport |}.
Definition NewGRPCTransport (s : string) : checked Transport :=
  if bool_decide (s = "") || (1024 <? slen s)%Z || negb (valid_utf8 s) ||
     contains_any s Credential.separators
  then Err (invalid "transport.grpc.service" "must be a nonempty bounded service name")
  else Ok {| kind := TransportGRPC; webSocketPath := None; webSocketHost := "";
             advanced := Some {| path := ""; thost := ""; service := s; mode := "" |} |}.
Definition NewQUICTransport : Transport :=
  {| kind := TransportQUIC; webSocketPath := None; webSocketHost := "";
     advanced := Some {| path := ""; thost := ""; service := ""; mode := "" |} |}.

Definition WebSocketPath (t : Transport) : string := default "" (webSocketPath t).
Definition Path (t : Transport) : string := default "" (path <$> advanced t).
Definition Host (t : Transport) : string := default "" (thost <$> advanced t).
Definition Service (t : Transport) : string := default "" (service <$> advanced t).
Definition Mode (t : Transport) : string := default "" (mode <$> advanced t).
Definition identityService (t : Transport) : string :=
  if bool_decide (kind t = TransportXHTTP) then Mode t else Service t.

Definition valid (t : Transport) : bool :=
  bool_decide (kind t = TransportTCP) && bool_decide (webSocketPath t = None) &&
    bool_decide (webSocketHost t = "") && bool_decide (advanced t = None) ||
  bool_decide (kind t = TransportWebSocket) &&
    match webSocketPath t with Some p => bool_decide (p ≠ "") | None => false end &&
    bool_decide (advanced t = None) ||
  match advanced t with
  | Some a => bool_decide (webSocketPath t = None) && bool_decide (webSocketHost t = "") &&
              advanced_valid a (kind t)
  | None => false
  end.

Definition equal (t other : Transport) : bool :=
  bool_decide (kind t = kind other) && bool_decide (WebSocketPath t = WebSocketPath other) &&
  bool_decide (webSocketHost t = webSocketHost other) && bool_decide (advanced t = advanced other).

Record wf (t : Transport) : Prop := {
  wf_valid : valid t = true;
  wf_wsPath : (slen (WebSocketPath t) ≤ 2048)%Z;
  wf_wsHost : (slen (webSocketHost t) ≤ 253)%Z;
  wf_path : (slen (Path t) ≤ 2048)%Z;
  wf_host : (slen (Host t) ≤ 253)%Z;
  wf_service : (slen (Service t) ≤ 1024)%Z;
  wf_mode : kind t ≠ TransportXHTTP → Mode t = "";
}.

Lemma NewTCPTransport_wf : wf NewTCPTransport.
Proof. by split. Qed.
Lemma NewQUICTransport_wf : wf NewQUICTransport.
Proof. by split. Qed.

Lemma NewWebSocketTransport_ok p t : NewWebSocketTransport p = Ok t →
  p ≠ "" ∧ (slen p ≤ 2048)%Z ∧
  t = {| kind := TransportWebSocket; webSocketPath := Some p; webSocketHost := ""; advanced := None |}.
Proof. unfold NewWebSocketTransport. intros H. split_all_in H. bool_to_prop. done. Qed.

Lemma websocket_wf p h : p ≠ "" → (slen p ≤ 2048)%Z → (slen h ≤ 253)%Z →
  wf {| kind := TransportWebSocket; webSocketPath := Some p; webSocketHost := h; advanced := None |}.
Proof. intros. split; try done. unfold valid. simpl. by rewrite bool_decide_true. Qed.

Lemma NewWebSocketTransportWithHost_wf p h t : NewWebSocketTransportWithHost p h = Ok t → wf t.
Proof.
  unfold NewWebSocketTransportWithHost. intros (t0&(Hp&Hl&->)%NewWebSocketTransport_ok&H)%result_bind_Ok.
  case_bool_decide; ok_inv; [|by apply websocket_wf].
  host_range. apply websocket_wf; auto; lia.
Qed.

Lemma newHTTPTransport_ok k p h t : newHTTPTransport k p h = Ok t → ∃ h',
  p ≠ "" ∧ (slen p ≤ 2048)%Z ∧ (slen h' ≤ 253)%Z ∧
  t = {| kind := k; webSocketPath := None; webSocketHost := "";
         advanced := Some {| path := p; thost := h'; service := ""; mode := "" |} |}.
Proof.
  unfold newHTTPTransport. intros H. destruct (_ || _) eqn:E; [done|].
  destruct (negb (all_runes _ _)); [done|]. apply result_bind_Ok in H as (h'&Hh&[= <-]).
  bool_to_prop. exists h'. repeat split; try done. case_bool_decide as Hne; ok_inv.
  - host_range. lia.
  - done.
Qed.

Lemma newHTTPTransport_wf k p h t : k = TransportHTTP2 ∨ k = TransportHTTPUpgrade →
  newHTTPTransport k p h = Ok t → wf t.
Proof.
  intros Hk (h'&?&?&?&->)%newHTTPTransport_ok. destruct Hk; subst k; split; try done; unfold valid; simpl;
    by rewrite bool_decide_true.
Qed.
Lemma NewXHTTPTransport_wf p h m t : NewXHTTPTransport p h m = Ok t → wf t.
Proof.
  unfold NewXHTTPTransport. case_bool_decide as Hm; [done|].
  intros H. ok_inv. apply newHTTPTransport_ok in H as (h'&?&?&?&->). split; try done; unfold valid; simpl.
  rewrite !bool_decide_true; done.
Qed.
Lemma NewGRPCTransport_wf s t : NewGRPCTransport s = Ok t → wf t.
Proof.
  unfold NewGRPCTransport. intros H. split_all_in H. bool_to_prop. split; try done. unfold valid. simpl.
  by rewrite bool_decide_true.
Qed.
End Transport.
Import Transport (TransportKind(..), Transport).

(** ** TLS, Reality and security options *)

Module Security.

Record TLSConfig := { enabled : bool; serverName : string; insecureSkipVerify : bool }.
#[global] Instance TLSConfig_eq_dec : EqDecision TLSConfig.
Proof. solve_decision. Defined.
Definition DisabledTLS : TLSConfig := {| enabled := false; serverName := ""; insecureSkipVerify := false |}.
Definition NewTLS (name : string) (insecure : bool) : checked TLSConfig :=
  name ← (if bool_decide (name ≠ "") then '(n, _) ← Address.normalizeHost name "tls.server_name"; Ok n else Ok name);
  Ok {| enabled := true; serverName := name; insecureSkipVerify := insecure |}.

Record Reality := { publicKey : string; shortID : string }.
#[global] Instance Reality_eq_dec : EqDecision Reality.
Proof. solve_decision. Defined.
Definition NewReality (key short : string) : checked Reality :=
  let canonical :=
    match base64url_decode key with
    | Some decoded => (slen decoded =? 32)%Z && bool_decide (base64url_encode decoded = key)
    | None => false
    end in
  if negb canonical then Err (invalid "reality.public_key" "must be a canonical 32-byte base64url key")
  else if (16 <? slen short)%Z || negb (slen short `mod` 2 =? 0)%Z
  then Err (invalid "reality.short_id" "must contain 0–8 hexadecimal bytes")
  else match hex_pairs (chars short) with
       | None => Err (invalid "reality.short_id" "must be hexadecimal")
       | Some _ => Ok {| publicKey := key; shortID := to_lower short |}
       end.

Record SecurityOptions := { alpn : list string; fingerprint : string; reality : option Reality }.
#[global] Instance SecurityOptions_eq_dec : EqDecision SecurityOptions.
Proof. solve_decision. Defined.
Definition no_options : SecurityOptions := {| alpn := []; fingerprint := ""; reality := None |}.
Definition fingerprints : list string :=
  ["chrome"; "firefox"; "safari"; "ios"; "android"; "edge"; "360"; "qq"].

Fixpoint check_alpn (seen : list string) (values : list string) : checked unit :=
  match values with
  | [] => Ok ()
  | value :: rest =>
      _ ← guard_err (bool_decide (value = "") || (255 <? slen value)%Z || negb (valid_utf8 value) ||
                     bool_decide (value ∈ seen))
            (invalid "security.alpn" "must contain distinct bounded protocol names");
      _ ← guard_err (negb (all_runes (λ r, negb ((r <? 33)%Z || (126 <? r)%Z)) value))
            (invalid "security.alpn" "must contain printable ASCII without spaces");
      check_alpn (value :: seen) rest
  end.

Definition NewSecurityOptions (names : list string) (fp : string) (r : option Reality) : checked SecurityOptions :=
  _ ← guard_err (Nat.ltb 8 (length names)) (invalid "security.alpn" "too many protocol names");
  _ ← check_alpn [] names;
  _ ← guard_err (bool_decide (fp ≠ "") && bool_decide (fp ∉ fingerprints))
        (invalid "security.fingerprint" "is not in the admitted common set");
  _ ← guard_err (match r with
                 | Some r => bool_decide (publicKey r = "") || bool_decide (fp = "")
                 | None => false
                 end) (invalid "security.reality" "requires a public key and client fingerprint");
  Ok {| alpn := names; fingerprint := fp; reality := r |}.

(** [SecurityOptions.equal]: lengths, then element by element. *)
Definition equal (s other : SecurityOptions) : bool :=
  if bool_decide (fingerprint s ≠ fingerprint other) || negb (Nat.eqb (length (alpn s)) (length (alpn other))) ||
     negb (Bool.eqb (bool_decide (reality s = None)) (bool_decide (reality other = None)))
  then false
  else forallb (λ '(x, y), bool_decide (x = y)) (zip (alpn s) (alpn other)) &&
       (bool_decide (reality s = None) || bool_decide (reality s = reality other)).

Inductive VLESSFlow := FlowNone | FlowVision.
#[global] Instance VLESSFlow_eq_dec : EqDecision VLESSFlow.
Proof. solve_decision. Defined.
Definition flow_code (f : VLESSFlow) : Z := match f with FlowNone => 0 | FlowVision => 1 end.
Definition flow_String (f : VLESSFlow) : string :=
  match f with FlowVision => "xtls-rprx-vision" | FlowNone => "" end.

Record Hysteria2Options := {
  upMbps : Z; downMbps : Z; obfsPassword : option string; portRanges : list string;
}.
#[global] Instance Hysteria2Options_eq_dec : EqDecision Hysteria2Options.
Proof. solve_decision. Defined.

Definition NewHysteria2Options (up down : Z) (salamander : string) : checked Hysteria2Options :=
  _ ← guard_err ((up <? 0)%Z || (down <? 0)%Z || (100000 <? up)%Z || (100000 <? down)%Z ||
                 negb (Bool.eqb (up =? 0)%Z (down =? 0)%Z))
        (invalid "hysteria2.bandwidth" "must be both zero or both positive and bounded");
  _ ← guard_err ((4096 <? slen salamander)%Z || negb (valid_utf8 salamander))
        (invalid "hysteria2.obfs" "must be bounded UTF-8");
  Ok {| upMbps := up; downMbps := down;
        obfsPassword := if bool_decide (salamander ≠ "") then Some salamander else None;
        portRanges := [] |}.

(** One entry of the port list: its first and last port. *)
Definition port_entry (entry : string) : checked (Z * Z) :=
  let bad_port := invalid "hysteria2.ports" "invalid port" in
  let bad_range := invalid "hysteria2.ports" "invalid range" in
  match split_on ":" entry with
  | first :: rest =>
      _ ← guard_err (Nat.ltb 1 (length rest)) bad_range;
      match atoi first with
      | Some f =>
          _ ← guard_err ((f <? 1)%Z || (65535 <? f)%Z || bool_decide (itoa f ≠ first)) bad_port;
          match rest with
          | [] => Ok (f, f)
          | last :: _ =>
              match atoi last with
              | Some l =>
                  _ ← guard_err ((l <? f)%Z || (65535 <? l)%Z || bool_decide (itoa l ≠ last)) bad_range;
                  Ok (f, l)
              | None => Err bad_range
              end
          end
      | None => Err bad_port
      end
  | [] => Err bad_range
  end.
Definition print_range (f l : Z) : string := if (l =? f)%Z then itoa f else itoa f +:+ ":" +:+ itoa l.

Fixpoint port_entries (count : Z) (acc : list string) (entries : list string) : checked (list string) :=
  match entries with
  | [] => Ok acc
  | entry :: rest =>
      '(f, l) ← port_entry entry;
      let count := (count + (l - f + 1))%Z in
      _ ← guard_err (256 <? count)%Z (invalid "hysteria2.ports" "too many destination ports");
      port_entries count (acc ++ [print_range f l]) rest
  end.

Definition NewHysteria2OptionsWithPorts (up down : Z) (salamander : string) (ranges : list string)
    : checked Hysteria2Options :=
  options ← NewHysteria2Options up down salamander;
  _ ← guard_err (Nat.eqb (length ranges) 0 || Nat.ltb 16 (length ranges))
        (invalid "hysteria2.ports" "requires 1–16 port entries");
  ports ← port_entries 0 (portRanges options) ranges;
  Ok {| upMbps := upMbps options; downMbps := downMbps options; obfsPassword := obfsPassword options;
        portRanges := ports |}.

(** [IncludesPort] ignores the errors of [strconv.Atoi]; the entries it reads
    were printed by the constructor, so there are none. *)
Definition entry_includes (entry : string) (port : Z) : bool :=
  let parts := split_on ":" entry in
  let first := default 0%Z (parts !! 0 ≫= atoi) in
  let last := match parts with [_; l] => default 0%Z (atoi l) | _ => first end in
  (first <=? port)%Z && (port <=? last)%Z.
Definition IncludesPort (h : Hysteria2Options) (port : Z) : bool :=
  bool_decide (portRanges h = []) || existsb (λ e, entry_includes e port) (portRanges h).
Definition RevealSalamanderPassword (h : Hysteria2Options) : string := default "" (obfsPassword h).

Record wf_tls (t : TLSConfig) : Prop := {
  wf_serverName : (slen (serverName t) ≤ 253)%Z;
}.
Record wf_security (s : SecurityOptions) : Prop := {
  wf_alpn_count : length (alpn s) ≤ 8;
  wf_alpn : Forall (λ v, slen v ≤ 255)%Z (alpn s);
  wf_fingerprint : (slen (fingerprint s) ≤ 7)%Z;
  wf_reality : ∀ r, reality s = Some r → (slen (publicKey r) ≤ 43)%Z ∧ (slen (shortID r) ≤ 16)%Z;
}.
Record wf_hysteria (h : Hysteria2Options) : Prop := {
  wf_up : (0 ≤ upMbps h ≤ 100000)%Z;
  wf_down : (0 ≤ downMbps h ≤ 100000)%Z;
  wf_bandwidth : upMbps h = 0%Z ↔ downMbps h = 0%Z;
  wf_obfs : ∀ p, obfsPassword h = Some p → p ≠ "" ∧ (slen p ≤ 4096)%Z;
  wf_ports_count : length (portRanges h) ≤ 16;
  wf_ports : Forall (λ v, slen v ≤ 41)%Z (portRanges h);
}.

Lemma NewTLS_wf n i t : NewTLS n i = Ok t → wf_tls t.
Proof.
  unfold NewTLS. intros H. apply result_bind_Ok in H as (n'&Hn&[= <-]). split. simpl.
  case_bool_decide as Hne; ok_inv.
  - host_range. lia.
  - done.
Qed.

Lemma to_lower_length s : String.length (to_lower s) ≤ String.length s.
Proof.
  enough (∀ n s, String.length s ≤ n → String.length (to_lower s) ≤ String.length s) by eauto.
  clear. induction n as [|n IH]; intros [|c1 s1] Hl; simpl in Hl; try lia; [done|done|].
  pose proof (IH s1 ltac:(lia)) as H1. destruct s1 as [|c2 s2]; [simpl; lia|].
  simpl in Hl. pose proof (IH s2 ltac:(lia)) as H2.
  change (to_lower (String c1 (String c2 s2))) with
    (if (code c1 =? 196)%Z && (code c2 =? 176)%Z then String "i" (to_lower s2)
     else match s2 with
          | String c3 s3 =>
              if (code c1 =? 226)%Z && (code c2 =? 132)%Z && (code c3 =? 170)%Z
              then String "k" (to_lower s3)
              else String (lower_char c1) (to_lower (String c2 s2))
          | EmptyString => String (lower_char c1) (to_lower (String c2 s2))
          end).
  destruct (_ && _); [simpl in *; lia|]. destruct s2 as [|c3 s3]; [simpl in *; lia|].
  pose proof (IH s3 ltac:(simpl in *; lia)) as H3.
  destruct (_ && _ && _); simpl String.length in *; lia.
Qed.

Lemma NewReality_wf k sh r : NewReality k sh = Ok r → (slen (publicKey r) ≤ 43)%Z ∧ (slen (shortID r) ≤ 16)%Z.
Proof.
  unfold NewReality. destruct (base64url_decode k) as [d|]; [|done].
  destruct (_ && _) eqn:E; [|done]. simpl. destruct (_ || _) eqn:E2; [done|].
  destruct (hex_pairs _); [|done]. intros [= <-]. simpl. bool_to_prop. split.
  - rewrite <-H0. unfold base64url_encode. rewrite encode_symbols_length by lia.
    replace (String.length d) with 32 by lia. vm_compute. done.
  - pose proof (to_lower_length sh). lia.
Qed.

Lemma check_alpn_ok seen l u : check_alpn seen l = Ok u → Forall (λ v, slen v ≤ 255)%Z l.
Proof.
  revert seen. induction l as [|v l IH]; intros seen H; [constructor|]. simpl in H. ok_inv. bool_to_prop.
  constructor; eauto.
Qed.

Lemma NewSecurityOptions_wf names fp r s :
  (∀ r', r = Some r' → (slen (publicKey r') ≤ 43)%Z ∧ (slen (shortID r') ≤ 16)%Z) →
  NewSecurityOptions names fp r = Ok s → wf_security s.
Proof.
  intros Hr H. unfold NewSecurityOptions in H. ok_inv. split; simpl; auto.
  - by bool_to_prop.
  - by eapply check_alpn_ok.
  - apply andb_false_iff in H1. destruct H1 as [H1|H1]; bool_to_prop; apply dec_stable in H1.
    { by subst. }
    clear -H1. revert fp H1. apply Forall_forall. by repeat constructor.
Qed.

Lemma NewHysteria2Options_wf u d p h : NewHysteria2Options u d p = Ok h →
  wf_hysteria h ∧ portRanges h = [].
Proof.
  unfold NewHysteria2Options. intros H. ok_inv. bool_to_prop. split; [|done].
  split; simpl; try lia; [|constructor]. intros q. case_bool_decide; naive_solver.
Qed.

Lemma port_entries_ok count acc entries ports :
  port_entries count acc entries = Ok ports →
  length ports = (length acc + length entries)%nat ∧
  (Forall (λ v, slen v ≤ 41)%Z acc → Forall (λ v, slen v ≤ 41)%Z ports).
Proof.
  revert count acc. induction entries as [|e es IH]; intros count acc H; simpl in H.
  { ok_inv. simpl. split; [lia|done]. }
  apply result_bind_Ok in H as ([f l]&He&H). cbv zeta in H. ok_inv.
  edestruct IH as [Hl Hf]; [done|]. rewrite length_app in Hl. simpl in *. split; [lia|].
  intros Hacc. apply Hf, Forall_app. split; [done|]. constructor; [|constructor].
  unfold print_range. destruct (_ =? _)%Z; rewrite ?slen_app; pose proof (itoa_length f);
    pose proof (itoa_length l); simpl; lia.
Qed.

Lemma NewHysteria2OptionsWithPorts_wf u d p rs h :
  NewHysteria2OptionsWithPorts u d p rs = Ok h → wf_hysteria h.
Proof.
  unfold NewHysteria2OptionsWithPorts. intros H. ok_inv.
  apply NewHysteria2Options_wf in H as [[] Hp]. rewrite Hp in H1.
  apply port_entries_ok in H1 as [Hl Hf]. simpl in Hl. bool_to_prop.
  split; simpl; auto. lia.
Qed.
End Security.
Import Security.

(** ** Configurations *)

Module Configuration.

Record advancedConnection := {
  flow : VLESSFlow; security : SecurityOptions; hysteria : option Hysteria2Options;
}.
#[global] Instance advancedConnection_eq_dec : EqDecision advancedConnection.
Proof. solve_decision. Defined.

Record Configuration := {
  protocol : Protocol;
  address : Address;
  credential : Credential.Credential;
  transport : Transport;
  tls : TLSConfig;
  method : string;
  advanced : option advancedConnection;
}.
#[global] Instance Configuration_eq_dec : EqDecision Configuration.
Proof. solve_decision. Defined.

Abbreviation same p q := (bool_decide (p = q)).

Definition advanced_valid (a : option advancedConnection) (c : Configuration) : bool :=
  let tkind := Transport.kind (transport c) in
  match a with
  | None =>
      negb (same (protocol c) ProtocolSOCKS5) && negb (same (protocol c) ProtocolHTTPProxy) &&
      negb (same (protocol c) ProtocolHysteria2) && same (Transport.advanced (transport c)) None
  | Some a =>
      let s := security a in
      if negb (same (flow a) FlowNone) &&
         (negb (same (flow a) FlowVision) || negb (same (protocol c) ProtocolVLESS) ||
          negb (same tkind TransportTCP) || negb (enabled (tls c))) then false
      else if (negb (same (alpn s) []) || negb (same (fingerprint s) "") || negb (same (reality s) None)) &&
              negb (enabled (tls c)) then false
      else if negb (same (reality s) None) &&
              (negb (same (protocol c) ProtocolVLESS) || insecureSkipVerify (tls c) ||
               same (serverName (tls c)) "") then false
      else if negb (same (reality s) None) && negb (same tkind TransportTCP) then false
      else if same tkind TransportHTTP2 && negb (enabled (tls c)) then false
      else if same (protocol c) ProtocolTrojan && same tkind TransportHTTP2 then false
      else if same tkind TransportXHTTP && negb (same (protocol c) ProtocolVLESS) then false
      else if same (protocol c) ProtocolSOCKS5 || same (protocol c) ProtocolHTTPProxy then
        same tkind TransportTCP && (same (protocol c) ProtocolHTTPProxy || negb (enabled (tls c))) &&
        same (flow a) FlowNone && same (hysteria a) None && same (reality s) None &&
        same (fingerprint s) "" && same (alpn s) []
      else if same (protocol c) ProtocolHysteria2 then
        same tkind TransportQUIC && negb (same (hysteria a) None) && same (flow a) FlowNone &&
        same (reality s) None
      else same (hysteria a) None && negb (same tkind TransportQUIC)
  end.

Definition valid (c : Configuration) : bool :=
  if same (protocol c) ProtocolUnknown then false
  else if negb (Address.valid (address c)) || negb (Credential.valid (credential c)) ||
          negb (same (Credential.protocol (credential c)) (protocol c)) ||
          negb (Transport.valid (transport c)) then false
  else if (same (protocol c) ProtocolTrojan || same (protocol c) ProtocolHysteria2) && negb (enabled (tls c))
  then false
  else if same (protocol c) ProtocolShadowsocks &&
          (negb (same (Transport.kind (transport c)) TransportTCP) || enabled (tls c)) then false
  else if (same (protocol c) ProtocolVMess || same (protocol c) ProtocolShadowsocks) && same (method c) "" then false
  else if negb (advanced_valid (advanced c) c) then false
  else negb (enabled (tls c)) || negb (same (serverName (tls c)) "").

(** An enabled TLS configuration without a server name takes the host. *)
Definition default_server_name (a : Address) (t : TLSConfig) : TLSConfig :=
  if enabled t && same (serverName t) ""
  then {| enabled := enabled t; serverName := Address.host a; insecureSkipVerify := insecureSkipVerify t |}
  else t.

Definition NewConfiguration (p : Protocol) (a : Address) (cr : Credential.Credential) (tr : Transport)
    (t : TLSConfig) : checked Configuration :=
  _ ← guard_err (negb (same p ProtocolVLESS) && negb (same p ProtocolTrojan)) (invalid "protocol" "is not supported");
  _ ← guard_err (negb (Address.valid a)) (invalid "address" "must be constructed with NewAddress");
  _ ← guard_err (negb (Credential.valid cr) || negb (same (Credential.protocol cr) p))
        (invalid "credential" "does not match the endpoint protocol");
  _ ← guard_err (negb (Transport.valid tr)) (invalid "transport" "is not supported");
  _ ← guard_err (same p ProtocolTrojan && negb (enabled t)) (invalid "tls" "is required for Trojan");
  let c := {| protocol := p; address := a; credential := cr; transport := tr;
              tls := default_server_name a t; method := ""; advanced := None |} in
  _ ← guard_err (negb (valid c)) (invalid "configuration" "has contradictory connection options");
  Ok c.

Definition newAdditionalConfiguration (p : Protocol) (a : Address) (cr : Credential.Credential)
    (tr : Transport) (t : TLSConfig) (m : string) : checked Configuration :=
  _ ← guard_err (negb (Address.valid a) || negb (Credential.valid cr) ||
                 negb (same (Credential.protocol cr) p) || negb (Transport.valid tr))
        (invalid "configuration" "contains invalid connection fields");
  let c := {| protocol := p; address := a; credential := cr; transport := tr;
              tls := default_server_name a t; method := m; advanced := None |} in
  _ ← guard_err (negb (valid c)) (invalid "configuration" "has contradictory connection options");
  Ok c.

Definition vmess_methods : list string := ["auto"; "aes-128-gcm"; "chacha20-poly1305"; "none"].
Definition shadowsocks_methods : list string := ["aes-128-gcm"; "aes-256-gcm"; "chacha20-ietf-poly1305"].

Definition NewVMessConfiguration (a : Address) (cr : Credential.Credential) (tr : Transport)
    (t : TLSConfig) (m : string) : checked Configuration :=
  _ ← guard_err (bool_decide (m ∉ vmess_methods)) (invalid "vmess.security" "is unsupported");
  newAdditionalConfiguration ProtocolVMess a cr tr t m.
Definition NewShadowsocksConfiguration (a : Address) (cr : Credential.Credential) (m : string)
    : checked Configuration :=
  _ ← guard_err (bool_decide (m ∉ shadowsocks_methods)) (invalid "shadowsocks.method" "is unsupported");
  newAdditionalConfiguration ProtocolShadowsocks a cr Transport.NewTCPTransport DisabledTLS m.

Definition newExtendedConfiguration (p : Protocol) (a : Address) (cr : Credential.Credential)
    (tr : Transport) (t : TLSConfig) (s : SecurityOptions) (f : VLESSFlow)
    (h : option Hysteria2Options) (m : string) : checked Configuration :=
  _ ← guard_err (negb (Address.valid a) || negb (Credential.valid cr) ||
                 negb (same (Credential.protocol cr) p) || negb (Transport.valid tr))
        (invalid "configuration" "contains invalid connection fields");
  let extended :=
    let c := {| protocol := p; address := a; credential := cr; transport := tr;
                tls := default_server_name a t; method := m;
                advanced := Some {| flow := f; security := s; hysteria := h |} |} in
    _ ← guard_err (negb (valid c))
          (invalid "configuration" "has contradictory protocol, transport or security options");
    Ok c in
  if same (Transport.advanced tr) None && same f FlowNone && same h None && same (alpn s) [] &&
     same (fingerprint s) "" && same (reality s) None
  then match p with
       | ProtocolVLESS | ProtocolTrojan => NewConfiguration p a cr tr t
       | ProtocolVMess => NewVMessConfiguration a cr tr t m
       | _ => extended
       end
  else extended.
Definition NewExtendedConfiguration p a cr tr t s f h : checked Configuration :=
  newExtendedConfiguration p a cr tr t s f h "".
Definition NewExtendedVMessConfiguration a cr tr t s (m : string) : checked Configuration :=
  _ ← guard_err (bool_decide (m ∉ vmess_methods)) (invalid "vmess.security" "is unsupported");
  newExtendedConfiguration ProtocolVMess a cr tr t s FlowNone None m.

Definition Flow (c : Configuration) : VLESSFlow := default FlowNone (flow <$> advanced c).
Definition SecurityOptions_ (c : Configuration) : SecurityOptions := default no_options (security <$> advanced c).
Definition Hysteria2 (c : Configuration) : option Hysteria2Options := advanced c ≫= hysteria.

Definition WithAddress (c : Configuration) (a : Address) : checked Configuration :=
  if negb (valid c) || negb (Address.valid a) then Err (invalid "configuration.address" "is invalid")
  else Ok {| protocol := protocol c; address := a; credential := credential c; transport := transport c;
             tls := tls c; method := method c; advanced := advanced c |}.

(** [advancedConnection.equal]; a nil obfuscation password reads as empty. *)
Definition advanced_equal (x y : option advancedConnection) : bool :=
  match x, y with
  | None, None => true
  | Some a, Some b =>
      if negb (same (flow a) (flow b)) || negb (Security.equal (security a) (security b)) ||
         negb (Bool.eqb (same (hysteria a) None) (same (hysteria b) None)) then false
      else match hysteria a, hysteria b with
           | Some h, Some k =>
               if negb (upMbps h =? upMbps k)%Z || negb (downMbps h =? downMbps k)%Z ||
                  negb (same (RevealSalamanderPassword h) (RevealSalamanderPassword k)) ||
                  negb (Nat.eqb (length (portRanges h)) (length (portRanges k))) then false
               else forallb (λ '(x, y), same x y) (zip (portRanges h) (portRanges k))
           | _, _ => true
           end
  | _, _ => false
  end.

Definition Equivalent (c other : Configuration) : bool :=
  same (protocol c) (protocol other) && same (address c) (address other) &&
  Credential.equal (credential c) (credential other) && Transport.equal (transport c) (transport other) &&
  same (tls c) (tls other) && same (method c) (method other) && advanced_equal (advanced c) (advanced other).

Lemma valid_spec c : valid c = true →
  protocol c ≠ ProtocolUnknown ∧ Address.valid (address c) = true ∧
  Credential.valid (credential c) = true ∧ Credential.protocol (credential c) = protocol c ∧
  Transport.valid (transport c) = true ∧ advanced_valid (advanced c) c = true ∧
  (enabled (tls c) = true → serverName (tls c) ≠ "").
Proof.
  unfold valid. intros Hv.
  destruct (same (protocol c) ProtocolUnknown) eqn:E0; [done|].
  destruct (_ || _ || _ || _) eqn:E1; [done|]. destruct (_ && negb (enabled _)); [done|].
  destruct (same (protocol c) ProtocolShadowsocks && _); [done|]. destruct (_ && same (method c) ""); [done|].
  destruct (advanced_valid _ _); [|done]. bool_to_prop. repeat split; auto.
  intros He. rewrite He in Hv. simpl in Hv. by bool_to_prop.
Qed.

Lemma no_advanced_spec c : valid c = true → advanced c = None →
  protocol c ≠ ProtocolSOCKS5 ∧ protocol c ≠ ProtocolHTTPProxy ∧ protocol c ≠ ProtocolHysteria2 ∧
  Transport.advanced (transport c) = None.
Proof.
  intros (_&_&_&_&_&Ha&_)%valid_spec Hn. rewrite Hn in Ha. unfold advanced_valid in Ha. by bool_to_prop.
Qed.

(** ** The type invariant of configurations *)

Record wf (c : Configuration) : Prop := {
  wf_valid : valid c = true;
  wf_address : Address.wf (address c);
  wf_credential : Credential.wf (credential c);
  wf_transport : Transport.wf (transport c);
  wf_tlsConfig : wf_tls (tls c);
  wf_method_length : (slen (method c) ≤ 22)%Z;
  wf_method : protocol c ≠ ProtocolVMess → protocol c ≠ ProtocolShadowsocks → method c = "";
  wf_advanced : ∀ a, advanced c = Some a →
    wf_security (security a) ∧ ∀ h, hysteria a = Some h → wf_hysteria h;
}.

Lemma default_server_name_wf a t : Address.wf a → wf_tls t → wf_tls (default_server_name a t).
Proof. intros [] [?]. unfold default_server_name. by destruct (_ && _). Qed.

Section constructors.
Context (a : Address) (cr : Credential.Credential) (tr : Transport) (t : TLSConfig).
Context (Ha : Address.wf a) (Hcr : Credential.wf cr) (Htr : Transport.wf tr) (Ht : wf_tls t).

Lemma NewConfiguration_wf p c : NewConfiguration p a cr tr t = Ok c → wf c.
Proof.
  unfold NewConfiguration. intros H. ok_inv. bool_to_prop.
  split; simpl; auto using default_server_name_wf; done.
Qed.

Lemma newAdditionalConfiguration_wf p m c :
  (slen m ≤ 22)%Z → p = ProtocolVMess ∨ p = ProtocolShadowsocks →
  newAdditionalConfiguration p a cr tr t m = Ok c → wf c.
Proof.
  unfold newAdditionalConfiguration. intros Hm Hp H. ok_inv. bool_to_prop.
  split; simpl; auto using default_server_name_wf; naive_solver.
Qed.

Lemma method_length m : m ∈ vmess_methods ++ shadowsocks_methods → (slen m ≤ 22)%Z.
Proof. revert m. apply Forall_forall. by repeat constructor. Qed.

Lemma NewVMessConfiguration_wf m c : NewVMessConfiguration a cr tr t m = Ok c → wf c.
Proof.
  unfold NewVMessConfiguration. intros H. ok_inv. bool_to_prop.
  eapply newAdditionalConfiguration_wf; [|by left|done].
  apply method_length, elem_of_app. left. by apply dec_stable.
Qed.

Lemma newExtendedConfiguration_wf p s f h m c :
  wf_security s → (∀ h', h = Some h' → wf_hysteria h') →
  (slen m ≤ 22)%Z → (p = ProtocolVMess ∨ m = "") →
  newExtendedConfiguration p a cr tr t s f h m = Ok c → wf c.
Proof.
  intros Hs Hh Hm Hp. unfold newExtendedConfiguration. intros H. ok_inv. cbv zeta in *.
  match goal with H : context [guard_err (negb (valid ?c')) ?e] |- _ =>
    assert (∀ c0, (guard_err (negb (valid c')) e ≫= λ _, Ok c') = Ok c0 → wf c0) as Hext end.
  { intros c0 Hc. ok_inv. bool_to_prop.
    split; simpl; auto using default_server_name_wf; naive_solver. }
  destruct (_ && _); [|by apply Hext].
  destruct p; eauto using NewConfiguration_wf, NewVMessConfiguration_wf.
Qed.
End constructors.

Lemma NewShadowsocksConfiguration_wf a cr m c : Address.wf a → Credential.wf cr →
  NewShadowsocksConfiguration a cr m = Ok c → wf c.
Proof.
  unfold NewShadowsocksConfiguration. intros Ha Hcr H. ok_inv. bool_to_prop.
  eapply newAdditionalConfiguration_wf; [..|by right|done];
    eauto using Transport.NewTCPTransport_wf; [by split|].
  apply method_length, elem_of_app. right. by apply dec_stable.
Qed.

Lemma NewExtendedVMessConfiguration_wf a cr tr t s m c :
  Address.wf a → Credential.wf cr → Transport.wf tr → wf_tls t → wf_security s →
  NewExtendedVMessConfiguration a cr tr t s m = Ok c → wf c.
Proof.
  unfold NewExtendedVMessConfiguration. intros ????? H. ok_inv. bool_to_prop.
  eapply newExtendedConfiguration_wf; [..|done]; eauto; [done|].
  apply method_length, elem_of_app. left. by apply dec_stable.
Qed.

Lemma WithAddress_wf c a c' : wf c → Address.wf a → WithAddress c a = Ok c' → wf c' ∧ address c' = a.
Proof.
  unfold WithAddress. intros [] Ha H. split_all_in H. bool_to_prop. split; [|done]. split; simpl; auto.
  rewrite <-wf_valid0 at 1. unfold valid. simpl.
  rewrite !Address.wf_valid by done. reflexivity.
Qed.

(** ** Values the exported constructors can make *)

Inductive made_credential : Credential.Credential → Prop :=
| made_vless u c : Credential.NewVLESSCredential u = Ok c → made_credential c
| made_trojan p c : Credential.NewTrojanCredential p = Ok c → made_credential c
| made_vmess u c : Credential.NewVMessCredential u = Ok c → made_credential c
| made_shadowsocks p c : Credential.NewShadowsocksCredential p = Ok c → made_credential c
| made_hysteria2 p c : Credential.NewHysteria2Credential p = Ok c → made_credential c
| made_proxy k u p c : Credential.NewProxyCredential k u p = Ok c → made_credential c.

Inductive made_transport : Transport → Prop :=
| made_tcp : made_transport Transport.NewTCPTransport
| made_quic : made_transport Transport.NewQUICTransport
| made_websocket p h t : Transport.NewWebSocketTransportWithHost p h = Ok t → made_transport t
| made_http2 p h t : Transport.NewHTTP2Transport p h = Ok t → made_transport t
| made_httpupgrade p h t : Transport.NewHTTPUpgradeTransport p h = Ok t → made_transport t
| made_xhttp p h m t : Transport.NewXHTTPTransport p h m = Ok t → made_transport t
| made_grpc s t : Transport.NewGRPCTransport s = Ok t → made_transport t.

Inductive made_tls : TLSConfig → Prop :=
| made_disabled : made_tls DisabledTLS
| made_enabled n i t : NewTLS n i = Ok t → made_tls t.

Inductive made_security : SecurityOptions → Prop :=
| made_no_options : made_security no_options
| made_plain l f s : NewSecurityOptions l f None = Ok s → made_security s
| made_reality k sh r l f s :
    NewReality k sh = Ok r → NewSecurityOptions l f (Some r) = Ok s → made_security s.

Inductive made_hysteria : Hysteria2Options → Prop :=
| made_single u d p h : NewHysteria2Options u d p = Ok h → made_hysteria h
| made_ports u d p l h : NewHysteria2OptionsWithPorts u d p l = Ok h → made_hysteria h.

Inductive made : Configuration → Prop :=
| made_basic p h n a cr tr t c :
    Address.NewAddress h n = Ok a → made_credential cr → made_transport tr → made_tls t →
    NewConfiguration p a cr tr t = Ok c → made c
| made_vmess_configuration h n a cr tr t m c :
    Address.NewAddress h n = Ok a → made_credential cr → made_transport tr → made_tls t →
    NewVMessConfiguration a cr tr t m = Ok c → made c
| made_shadowsocks_configuration h n a cr m c :
    Address.NewAddress h n = Ok a → made_credential cr →
    NewShadowsocksConfiguration a cr m = Ok c → made c
| made_extended p h n a cr tr t s f hy c :
    Address.NewAddress h n = Ok a → made_credential cr → made_transport tr → made_tls t → made_security s →
    (∀ x, hy = Some x → made_hysteria x) →
    NewExtendedConfiguration p a cr tr t s f hy = Ok c → made c
| made_extended_vmess h n a cr tr t s m c :
    Address.NewAddress h n = Ok a → made_credential cr → made_transport tr → made_tls t → made_security s →
    NewExtendedVMessConfiguration a cr tr t s m = Ok c → made c
| made_with_address c0 h n a c :
    made c0 → Address.NewAddress h n = Ok a → WithAddress c0 a = Ok c → made c.

Lemma made_credential_wf c : made_credential c → Credential.wf c.
Proof.
  destruct 1; eauto using Credential.NewVLESSCredential_wf, Credential.NewTrojanCredential_wf,
    Credential.NewVMessCredential_wf, Credential.bounded_password_wf, Credential.NewProxyCredential_wf.
Qed.
Lemma made_transport_wf t : made_transport t → Transport.wf t.
Proof.
  destruct 1; eauto using Transport.NewTCPTransport_wf, Transport.NewQUICTransport_wf,
    Transport.NewWebSocketTransportWithHost_wf, Transport.newHTTPTransport_wf, Transport.NewXHTTPTransport_wf,
    Transport.NewGRPCTransport_wf.
Qed.
Lemma made_tls_wf t : made_tls t → wf_tls t.
Proof. destruct 1; [by split|by eapply NewTLS_wf]. Qed.
Lemma made_security_wf s : made_security s → wf_security s.
Proof.
  destruct 1; [by split; simpl; auto with lia|eapply NewSecurityOptions_wf; [|done]; done|].
  eapply NewSecurityOptions_wf; [|done]. intros r' [= <-]. by eapply NewReality_wf.
Qed.
Lemma made_hysteria_wf h : made_hysteria h → wf_hysteria h.
Proof. destruct 1; [by eapply NewHysteria2Options_wf|by eapply NewHysteria2OptionsWithPorts_wf]. Qed.

#[local] Hint Resolve Address.NewAddress_wf made_credential_wf made_transport_wf made_tls_wf
  made_security_wf made_hysteria_wf : egress.

Lemma made_wf c : made c → wf c.
Proof.
  induction 1; try unfold NewExtendedConfiguration in *.
  - eapply NewConfiguration_wf; eauto with egress.
  - eapply NewVMessConfiguration_wf; eauto with egress.
  - eapply NewShadowsocksConfiguration_wf; eauto with egress.
  - eapply newExtendedConfiguration_wf; [..|eassumption]; eauto with egress; done.
  - eapply NewExtendedVMessConfiguration_wf; [..|eassumption]; eauto with egress.
  - eapply WithAddress_wf; eauto with egress.
Qed.
End Configuration.
