(* ===== verification/Identity.v ===== *)
(** * Connection identities (internal/endpoint/identity.go)

    The canonical byte encodings of a configuration, the logical endpoint ID
    (a hash of the encoding without secrets) and the private revision (a hash
    of the encoding with secrets), and the order on identities.  The encoding
    dereferences the pointers the Go code dereferences: [None] is a nil
    dereference. *)
From S2P Require Import Prelude Order Bytes Encoding Netip Endpoint Configuration.
From Stdlib Require Import Ascii.
From Stdlib Require String.
Import Security Configuration.

(** ** The canonical encoding *)

Definition kind_uint8 (k : Address.hostKind) : Z :=
  match k with
  | Address.hostInvalid => 0 | Address.hostDNS => 1 | Address.hostIPv4 => 2 | Address.hostIPv6 => 3
  end.

Definition version3 (c : Configuration) : bool :=
  bool_decide (advanced c ≠ None) || bool_decide (Transport.advanced (transport c) ≠ None).
Definition version2 (c : Configuration) : bool :=
  version3 c || same (protocol c) ProtocolVMess || same (protocol c) ProtocolShadowsocks ||
  bool_decide (Transport.webSocketHost (transport c) ≠ "").
Definition domain (c : Configuration) (includeCredential : bool) : string :=
  if version3 c then if includeCredential then "egressfox.connection/v3" else "egressfox.endpoint/v3"
  else if version2 c then if includeCredential then "egressfox.connection/v2" else "egressfox.endpoint/v2"
  else if includeCredential then "egressfox.connection/v1" else "egressfox.endpoint/v1".

Definition encode_base (c : Configuration) (r : string) : string :=
  u8 (Protocol_code (protocol c)) +:+ u8 (kind_uint8 (Address.kind (address c))) +:+
  enc_string (Address.host (address c)) +:+ u16 (Address.port (address c)) +:+
  u8 (Transport.kind_code (Transport.kind (transport c))) +:+
  enc_string (Transport.WebSocketPath (transport c)) +:+
  enc_bool (enabled (tls c)) +:+ enc_string (serverName (tls c)) +:+
  enc_bool (insecureSkipVerify (tls c)) +:+ r.

Definition encode_v2 (c : Configuration) (r : string) : string :=
  if version2 c then enc_string (Transport.webSocketHost (transport c)) +:+ enc_string (method c) +:+ r else r.

Fixpoint encode_strings (l : list string) (r : string) : string :=
  match l with [] => r | v :: l' => enc_string v +:+ encode_strings l' r end.

Definition encode_reality (x : option Reality) (includeCredential : bool) (r : string) : string :=
  match x with
  | None => enc_bool false +:+ r
  | Some x => enc_bool true +:+ enc_string (publicKey x) +:+
              if includeCredential then enc_string (shortID x) +:+ r else r
  end.
Definition encode_hysteria (x : option Hysteria2Options) (includeCredential : bool) (r : string) : string :=
  match x with
  | None => enc_bool false +:+ r
  | Some x =>
      enc_bool true +:+ u32 (upMbps x) +:+ u32 (downMbps x) +:+
      enc_bool (bool_decide (obfsPassword x ≠ None)) +:+
      match obfsPassword x with
      | Some p => if includeCredential then enc_string p +:+ r else r
      | None => r
      end
  end.
Definition encode_v3 (c : Configuration) (a : advancedConnection) (includeCredential : bool) (r : string) : string :=
  enc_string (Transport.Path (transport c)) +:+ enc_string (Transport.Host (transport c)) +:+
  enc_string (Transport.identityService (transport c)) +:+ u8 (flow_code (flow a)) +:+
  u8 (Z.of_nat (length (alpn (security a)))) +:+
  encode_strings (alpn (security a))
    (enc_string (fingerprint (security a)) +:+
     encode_reality (reality (security a)) includeCredential
       (encode_hysteria (hysteria a) includeCredential r)).

Definition encode_tail (a : advancedConnection) : string :=
  match hysteria a with
  | Some h =>
      if bool_decide (portRanges h ≠ []) then
        enc_string "hysteria2-ports/v1" +:+ u8 (Z.of_nat (length (portRanges h))) +:+
        encode_strings (portRanges h) ""
      else ""
  | None => ""
  end.

Definition canonicalConfiguration (c : Configuration) (includeCredential : bool) : option string :=
  let credential_part r :=
    if includeCredential then
      secret ← Credential.secret (credential c);
      Some (u8 (Protocol_code (Credential.protocol (credential c))) +:+ enc_string secret +:+
            if version3 c then enc_string (Credential.username (credential c)) +:+ r else r)
    else Some r in
  rest ← (if version3 c then
            a ← advanced c;
            tail ← credential_part (encode_tail a);
            Some (encode_v3 c a includeCredential tail)
          else credential_part "");
  Some (enc_string (domain c includeCredential) +:+ encode_base c (encode_v2 c rest)).

(** ** Identifiers and identities *)

Record Identity := { id : string; revision : option string }.
#[global] Instance Identity_eq_dec : EqDecision Identity.
Proof. solve_decision. Defined.

Definition ParseID (value : string) : checked string :=
  if negb (has_prefix "ef1_" value) && negb (has_prefix "ef2_" value) && negb (has_prefix "ef3_" value)
  then Err (invalid "endpoint.id" "has an unsupported identity version") else
  let encoded := of_chars (drop 4 (chars value)) in
  match base32_decode (to_upper encoded) with
  | Some decoded =>
      if (slen decoded =? 32)%Z && bool_decide (to_lower encoded = encoded) then Ok value
      else Err (invalid "endpoint.id" "is not a canonical endpoint identifier")
  | None => Err (invalid "endpoint.id" "is not a canonical endpoint identifier")
  end.

Definition version (c : Configuration) : string :=
  if version3 c then "ef3_"
  else if same (protocol c) ProtocolVMess || same (protocol c) ProtocolShadowsocks ||
          bool_decide (Transport.webSocketHost (transport c) ≠ "") then "ef2_" else "ef1_".

(** [None] is a nil dereference inside the encoder. *)
Definition Identity_of `{Digest} (c : Configuration) : option Identity :=
  if negb (valid c) then Some {| id := ""; revision := None |} else
  logical ← canonicalConfiguration c false;
  private ← canonicalConfiguration c true;
  Some {| id := version c +:+ to_lower (base32_encode (sha256 logical)); revision := Some (sha256 private) |}.

Definition Identity_Equal (x y : Identity) : bool :=
  match revision x, revision y with
  | Some r, Some r' => if bool_decide (id x ≠ id y) then false else bool_decide (r = r')
  | rx, ry => bool_decide (id x = id y) && bool_decide (rx = None) && bool_decide (ry = None)
  end.

Definition Identity_Compare (x y : Identity) : comparison :=
  match bytes_compare (id x) (id y) with
  | Eq => match revision x, revision y with
          | None, None => Eq
          | None, Some _ => Lt
          | Some _, None => Gt
          | Some r, Some r' => bytes_compare r r'
          end
  | c => c
  end.
Definition SameEndpoint (x y : Identity) : bool := bool_decide (id x = id y).

Definition RestoreRevision (encoded : string) : option string :=
  if (slen encoded =? 32)%Z then Some encoded else None.

Lemma Identity_Compare_lex x y :
  Identity_Compare x y =
  cmp_lex (cmp_on id bytes_compare) (cmp_on revision (cmp_option bytes_compare)) x y.
Proof. unfold Identity_Compare, cmp_lex, lex, cmp_on. by destruct (bytes_compare _ _). Qed.
#[global] Instance Identity_Compare_order : CmpOrder Identity_Compare.
Proof.
  destruct (_ : CmpOrder (cmp_lex (cmp_on id bytes_compare) (cmp_on revision (cmp_option bytes_compare))))
    as [H1 H2 H3].
  split; intros x y; try intros z; rewrite !Identity_Compare_lex; auto. eauto.
Qed.
#[global] Instance Identity_Compare_exact : CmpExact Identity_Compare.
Proof.
  intros [i r] [i' r']. unfold Identity_Compare. simpl.
  destruct (bytes_compare i i') eqn:E; try done. apply bytes_compare_exact in E as ->.
  destruct r, r'; try done. intros ->%bytes_compare_exact. done.
Qed.

(** ** The encoding determines the configuration *)

Lemma Protocol_code_inj p q : Protocol_code p = Protocol_code q → p = q.
Proof. by destruct p, q. Qed.
Lemma kind_code_inj p q : Transport.kind_code p = Transport.kind_code q → p = q.
Proof. by destruct p, q. Qed.
Lemma kind_uint8_inj p q : kind_uint8 p = kind_uint8 q → p = q.
Proof. by destruct p, q. Qed.
Lemma flow_code_inj p q : flow_code p = flow_code q → p = q.
Proof. by destruct p, q. Qed.
Lemma Protocol_code_range p : (0 ≤ Protocol_code p < 256)%Z.
Proof. by destruct p. Qed.
Lemma kind_code_range p : (0 ≤ Transport.kind_code p < 256)%Z.
Proof. by destruct p. Qed.
Lemma kind_uint8_range p : (0 ≤ kind_uint8 p < 256)%Z.
Proof. by destruct p. Qed.
Lemma flow_code_range p : (0 ≤ flow_code p < 256)%Z.
Proof. by destruct p. Qed.

(** Read one field of two equal encodings; [tac] proves the bounds. *)
Ltac peel_with tac H :=
  let E := fresh "E" in
  first [ apply enc_bool_inj in H as [E H]
        | apply enc_string_inj in H as [E H]; [|solve [tac]..]
        | apply u8_inj in H as [E H]; [|solve [tac]..]
        | apply u16_inj in H as [E H]; [|solve [tac]..]
        | apply u32_inj in H as [E H]; [|solve [tac]..] ].
Ltac bounds :=
  unfold fits32 in *;
  first [ apply Protocol_code_range | apply kind_code_range | apply kind_uint8_range
        | apply flow_code_range | simpl in *; lia ].

Lemma encode_strings_inj l l' r r' :
  length l = length l' → Forall (λ v, slen v ≤ 255)%Z l → Forall (λ v, slen v ≤ 255)%Z l' →
  encode_strings l r = encode_strings l' r' → l = l' ∧ r = r'.
Proof.
  revert l'. induction l as [|v l IH]; intros [|v' l']; try done. intros [= Hl] Hv Hv' H.
  inversion Hv; inversion Hv'; subst. simpl in H. peel_with bounds H.
  apply IH in H as [-> ->]; auto. by subst.
Qed.

Lemma encode_base_inj c c' r r' : wf c → wf c' → encode_base c r = encode_base c' r' →
  (protocol c = protocol c' ∧ address c = address c' ∧ tls c = tls c' ∧
   Transport.kind (transport c) = Transport.kind (transport c') ∧
   Transport.WebSocketPath (transport c) = Transport.WebSocketPath (transport c')) ∧ r = r'.
Proof.
  intros [_ [] _ [] [] _ _ _] [_ [] _ [] [] _ _ _] H. unfold encode_base in H.
  do 9 peel_with bounds H. split; [|done].
  apply Protocol_code_inj in E. apply kind_uint8_inj in E0. apply kind_code_inj in E3.
  destruct (address c), (address c'), (tls c), (tls c'); simpl in *; naive_solver.
Qed.

Definition secret_view (includeCredential : bool) (s : string) : string := if includeCredential then s else "".
Definition view_reality (i : bool) (x : Reality) : Reality :=
  {| publicKey := publicKey x; shortID := secret_view i (shortID x) |}.
Definition view_hysteria (i : bool) (x : Hysteria2Options) : Hysteria2Options :=
  {| upMbps := upMbps x; downMbps := downMbps x; obfsPassword := secret_view i <$> obfsPassword x;
     portRanges := portRanges x |}.
Definition view_security (i : bool) (s : SecurityOptions) : SecurityOptions :=
  {| alpn := alpn s; fingerprint := fingerprint s; reality := view_reality i <$> reality s |}.
Definition view_advanced (i : bool) (a : advancedConnection) : advancedConnection :=
  {| flow := flow a; security := view_security i (security a); hysteria := view_hysteria i <$> hysteria a |}.
(** What an encoding is meant to identify: everything, or everything but the
    secrets (credential, Reality short ID and obfuscation password). *)
Definition view (i : bool) (c : Configuration) : Configuration :=
  {| protocol := protocol c; address := address c;
     credential := {| Credential.protocol := Credential.protocol (credential c);
                      Credential.secret := secret_view i <$> Credential.secret (credential c);
                      Credential.username := secret_view i (Credential.username (credential c)) |};
     transport := transport c; tls := tls c; method := method c;
     advanced := view_advanced i <$> advanced c |}.

Lemma view_true c : view true c = c.
Proof.
  destruct c as [? ? [? [] ?] ? ? ? [[? [? ? [[]|]] [[? ? [] ?]|]]|]]; reflexivity.
Qed.

Lemma encode_reality_inj i x y r r' :
  (∀ z, x = Some z → (slen (publicKey z) ≤ 43)%Z ∧ (slen (shortID z) ≤ 16)%Z) →
  (∀ z, y = Some z → (slen (publicKey z) ≤ 43)%Z ∧ (slen (shortID z) ≤ 16)%Z) →
  encode_reality x i r = encode_reality y i r' → view_reality i <$> x = view_reality i <$> y ∧ r = r'.
Proof.
  intros Hx Hy H. destruct x as [[k s]|], y as [[k' s']|]; simpl in H; try (peel_with bounds H; done).
  destruct (Hx _ eq_refl), (Hy _ eq_refl). do 2 peel_with bounds H. destruct i.
    + peel_with bounds H. simpl in *. by subst.
    + simpl in *. by subst.
Qed.

(** The port list of a hysteria configuration follows the credential. *)
Definition without_ports (h : Hysteria2Options) : Hysteria2Options :=
  {| upMbps := upMbps h; downMbps := downMbps h; obfsPassword := obfsPassword h; portRanges := [] |}.

Lemma encode_hysteria_inj i x y r r' :
  (∀ z, x = Some z → wf_hysteria z) → (∀ z, y = Some z → wf_hysteria z) →
  encode_hysteria x i r = encode_hysteria y i r' →
  without_ports ∘ view_hysteria i <$> x = without_ports ∘ view_hysteria i <$> y ∧ r = r'.
Proof.
  intros Hx Hy H. destruct x as [[u d p l]|], y as [[u' d' p' l']|]; simpl in H; try (peel_with bounds H; done).
  destruct (Hx _ eq_refl) as [?? _ Hp _ _], (Hy _ eq_refl) as [?? _ Hp' _ _]. simpl in *.
    do 4 peel_with bounds H. destruct p as [p|], p' as [p'|]; try done.
    + destruct (Hp _ eq_refl), (Hp' _ eq_refl). destruct i.
      * peel_with bounds H. simpl in *. by subst.
      * simpl in *. by subst.
    + simpl in *. by subst.
Qed.

Lemma identityService_length t : Transport.wf t → (slen (Transport.identityService t) ≤ 1024)%Z.
Proof.
  intros [Hv _ _ _ _ Hs _]. unfold Transport.identityService. case_bool_decide as Hk; [|done].
  unfold Transport.valid in Hv. rewrite Hk in Hv. simpl in Hv. unfold Transport.Mode.
  destruct (Transport.advanced t) as [a|]; [|done]. simpl in *. bool_to_prop.
  match goal with H : Transport.mode a ∈ _ |- _ => revert H; generalize (Transport.mode a) end.
  apply Forall_forall. by repeat constructor.
Qed.

Lemma encode_v3_inj i c c' a a' r r' : wf c → wf c' → advanced c = Some a → advanced c' = Some a' →
  encode_v3 c a i r = encode_v3 c' a' i r' →
  (Transport.Path (transport c) = Transport.Path (transport c') ∧
   Transport.Host (transport c) = Transport.Host (transport c') ∧
   Transport.identityService (transport c) = Transport.identityService (transport c') ∧
   flow a = flow a' ∧ view_security i (security a) = view_security i (security a') ∧
   without_ports ∘ view_hysteria i <$> hysteria a = without_ports ∘ view_hysteria i <$> hysteria a') ∧ r = r'.
Proof.
  intros [_ _ _ Ht _ _ _ Ha] [_ _ _ Ht' _ _ _ Ha'] Hca Hca' H. unfold encode_v3 in H.
  pose proof (identityService_length _ Ht). pose proof (identityService_length _ Ht').
  destruct Ht, Ht', (Ha _ Hca) as [[] Hh], (Ha' _ Hca') as [[] Hh'].
  do 5 peel_with bounds H. apply encode_strings_inj in H as [Hal H]; [|lia|done|done].
  peel_with bounds H. apply encode_reality_inj in H as [Hre H]; [|done|done].
  apply encode_hysteria_inj in H as [Hhy H]; [|done|done]. apply flow_code_inj in E2.
  split; [|done]. repeat split; auto. unfold view_security. by rewrite Hal, E4, Hre.
Qed.

Lemma encode_tail_inj i a a' :
  (∀ h, hysteria a = Some h → wf_hysteria h) → (∀ h, hysteria a' = Some h → wf_hysteria h) →
  without_ports ∘ view_hysteria i <$> hysteria a = without_ports ∘ view_hysteria i <$> hysteria a' →
  encode_tail a = encode_tail a' → view_hysteria i <$> hysteria a = view_hysteria i <$> hysteria a'.
Proof.
  unfold encode_tail. intros Hw Hw' Hwp Ht.
  destruct (hysteria a) as [h|], (hysteria a') as [h'|]; try done.
  destruct (Hw _ eq_refl) as [_ _ _ Hn Hf], (Hw' _ eq_refl) as [_ _ _ Hn' Hf'].
  assert (portRanges h = portRanges h') as Hp.
  { repeat case_bool_decide; [|done|done|congruence].
    do 2 peel_with bounds Ht.
    apply encode_strings_inj in Ht as [? _]; [done|lia|..]; (eapply Forall_impl; [done|]); simpl; lia. }
  simpl in *. unfold view_hysteria. injection Hwp as -> -> ->. by rewrite Hp.
Qed.

Lemma transport_determined t t' : Transport.wf t → Transport.wf t' →
  Transport.kind t = Transport.kind t' → Transport.WebSocketPath t = Transport.WebSocketPath t' →
  Transport.webSocketHost t = Transport.webSocketHost t' →
  Transport.Path t = Transport.Path t' → Transport.Host t = Transport.Host t' →
  Transport.identityService t = Transport.identityService t' → t = t'.
Proof.
  intros [Hv _ _ _ _ _ Hm] [Hv' _ _ _ _ _ Hm'].
  destruct t as [k p h a], t' as [k' p' h' a']. unfold Transport.valid, Transport.WebSocketPath,
    Transport.Path, Transport.Host, Transport.identityService, Transport.Service, Transport.Mode in *. simpl in *.
  intros <-. destruct k, p, p', a as [[]|], a' as [[]|]; simpl in *; bool_to_prop; try done;
    repeat (rewrite ?andb_false_r, ?orb_false_r in *; simpl in * ); try done; bool_to_prop; intros; subst; try done.
  by rewrite Hm, Hm'.
Qed.

Lemma domain_versions i c c' : domain c i = domain c' i → version3 c = version3 c' ∧ version2 c = version2 c'.
Proof.
  unfold domain. assert (∀ d, version3 d = true → version2 d = true) as H3 by (unfold version2; by intros d ->).
  specialize (H3 c) as Hc. specialize (H3 c') as Hc'.
  destruct i, (version3 c), (version3 c'), (version2 c), (version2 c'); naive_solver.
Qed.

Lemma domain_length c i : fits32 (domain c i).
Proof. unfold domain, fits32. destruct i, (version3 c), (version2 c); done. Qed.

(** A valid configuration has the parts its encoding dereferences. *)
Lemma valid_advanced c : valid c = true → version3 c = true → ∃ a, advanced c = Some a.
Proof.
  unfold version3. intros Hv H3. destruct (advanced c) as [a|] eqn:Ha; [by eexists|].
  destruct (no_advanced_spec c) as (_&_&_&Ht); [done..|]. by rewrite Ht in H3.
Qed.

Lemma not_version3 c : version3 c = false → advanced c = None ∧ Transport.advanced (transport c) = None.
Proof. unfold version3. intros [H1 H2]%orb_false_iff. bool_to_prop. by apply dec_stable in H1, H2. Qed.

(** The encoding of a valid configuration never dereferences nil. *)
Lemma canonicalConfiguration_total c i : valid c = true → is_Some (canonicalConfiguration c i).
Proof.
  intros Hv. unfold canonicalConfiguration.
  destruct (valid_spec c Hv) as (_&_&Hcr&_). unfold Credential.valid in Hcr.
  destruct (Credential.secret (credential c)) as [s|]; [|done].
  destruct (version3 c) eqn:H3; [|destruct i; by eexists].
  destruct (valid_advanced c) as [a ->]; [done..|]. destruct i; by eexists.
Qed.

(** The rest of an encoding after the versioned fields: the credential, and
    for version 3 the user name and the port list. *)
Definition encode_rest (c : Configuration) (i : bool) : option string :=
  let credential_part r :=
    if i then
      secret ← Credential.secret (credential c);
      Some (u8 (Protocol_code (Credential.protocol (credential c))) +:+ enc_string secret +:+
            if version3 c then enc_string (Credential.username (credential c)) +:+ r else r)
    else Some r in
  if version3 c then
    a ← advanced c;
    tail ← credential_part (encode_tail a);
    Some (encode_v3 c a i tail)
  else credential_part "".

Lemma canonical_split c i e : canonicalConfiguration c i = Some e →
  ∃ r, encode_rest c i = Some r ∧ e = enc_string (domain c i) +:+ encode_base c (encode_v2 c r).
Proof. intros (r&Hr&[= <-])%bind_Some. by exists r. Qed.

Lemma encode_v2_inj c c' r r' : wf c → wf c' → version2 c = version2 c' → protocol c = protocol c' →
  encode_v2 c r = encode_v2 c' r' →
  (Transport.webSocketHost (transport c) = Transport.webSocketHost (transport c') ∧ method c = method c') ∧ r = r'.
Proof.
  intros [_ _ _ [] _ ? Hm _] [_ _ _ [] _ ? Hm' _] Hv Hp. unfold encode_v2. rewrite <-Hv.
  destruct (version2 c) eqn:H2.
  - intros H. do 2 peel_with bounds H. done.
  - intros ->. split; [|done]. unfold version2 in *. symmetry in Hv.
    apply orb_false_iff in H2 as [[[_ ?]%orb_false_iff ?]%orb_false_iff ?].
    apply orb_false_iff in Hv as [[[_ ?]%orb_false_iff ?]%orb_false_iff ?]. bool_to_prop.
    rewrite Hm, Hm' by done. split; [|done].
    transitivity ""; [|symmetry]; by apply dec_stable.
Qed.

(** The credential as an encoding with [i] sees it. *)
Lemma credential_view c c' i s s' : wf c → wf c' → protocol c = protocol c' →
  Credential.secret (credential c) = Some s → Credential.secret (credential c') = Some s' →
  secret_view i s = secret_view i s' →
  secret_view i (Credential.username (credential c)) = secret_view i (Credential.username (credential c')) →
  credential (view i c) = credential (view i c').
Proof.
  intros Hw Hw' Hp Hs Hs' Hss Hu. simpl. rewrite Hs, Hs', Hu. simpl. rewrite Hss.
  destruct (valid_spec c (wf_valid c Hw)) as (_&_&_&->&_).
  destruct (valid_spec c' (wf_valid c' Hw')) as (_&_&_&->&_). by rewrite Hp.
Qed.

Lemma no_advanced_service t : Transport.advanced t = None → Transport.identityService t = "".
Proof.
  unfold Transport.identityService, Transport.Mode, Transport.Service. intros ->. by case_bool_decide.
Qed.

Lemma encode_rest_inj i c c' r : wf c → wf c' → version3 c = version3 c' → protocol c = protocol c' →
  encode_rest c i = Some r → encode_rest c' i = Some r →
  credential (view i c) = credential (view i c') ∧
  Transport.Path (transport c) = Transport.Path (transport c') ∧
  Transport.Host (transport c) = Transport.Host (transport c') ∧
  Transport.identityService (transport c) = Transport.identityService (transport c') ∧
  view_advanced i <$> advanced c = view_advanced i <$> advanced c'.
Proof.
  intros Hw Hw' H3 Hp. unfold encode_rest. rewrite <-H3.
  destruct (valid_spec c (wf_valid c Hw)) as (_&_&Hc&_). destruct (valid_spec c' (wf_valid c' Hw')) as (_&_&Hc'&_).
  pose proof (wf_credential c Hw) as [_ Hls Hlu Hnu]. pose proof (wf_credential c' Hw') as [_ Hls' Hlu' Hnu'].
  unfold Credential.valid, Credential.Reveal in *.
  destruct (Credential.secret (credential c)) as [s|] eqn:Hs; [|done].
  destruct (Credential.secret (credential c')) as [s'|] eqn:Hs'; [|done]. simpl in Hls, Hls'.
  pose proof (credential_view c c' i s s' Hw Hw' Hp Hs Hs') as Hview.
  destruct (version3 c) eqn:H3c.
  - destruct (valid_advanced c (wf_valid c Hw) H3c) as [a Ha].
    destruct (valid_advanced c' (wf_valid c' Hw') (eq_sym H3)) as [a' Ha']. rewrite Ha, Ha'. simpl.
    destruct (wf_advanced c Hw a Ha) as [_ Hh]. destruct (wf_advanced c' Hw' a' Ha') as [_ Hh'].
    assert (∀ t t', encode_v3 c a i t = encode_v3 c' a' i t' →
      (t = t' → credential (view i c) = credential (view i c') ∧ encode_tail a = encode_tail a') →
      credential (view i c) = credential (view i c') ∧
      Transport.Path (transport c) = Transport.Path (transport c') ∧
      Transport.Host (transport c) = Transport.Host (transport c') ∧
      Transport.identityService (transport c) = Transport.identityService (transport c') ∧
      Some (view_advanced i a) = Some (view_advanced i a')) as Hgo.
    { intros t t' H Hcred. eapply (encode_v3_inj i c c' a a') in H as [(?&?&?&Hf&Hsec&Hhy) Ht]; [|done..].
      destruct (Hcred Ht) as [? Htail]. repeat split; auto. f_equal. unfold view_advanced. rewrite Hf, Hsec.
      by rewrite (encode_tail_inj i a a'). }
    destruct i; simpl; intros H1 H2; rewrite <-H2 in H1; apply (inj Some) in H1; apply Hgo in H1; auto.
    + intros Ht. do 3 peel_with bounds Ht. subst. split; [|done]. apply Hview; congruence.
  - destruct (not_version3 c H3c) as [Ha Hta]. destruct (not_version3 c' (eq_sym H3)) as [Ha' Hta'].
    destruct (no_advanced_spec c) as (?&?&?&_); [apply Hw|done|].
    destruct (no_advanced_spec c') as (?&?&?&_); [apply Hw'|done|].
    assert (Credential.username (credential c) = "") as Hu.
    { apply Hnu; destruct (valid_spec c (wf_valid c Hw)) as (_&_&_&->&_); done. }
    assert (Credential.username (credential c') = "") as Hu'.
    { apply Hnu'; destruct (valid_spec c' (wf_valid c' Hw')) as (_&_&_&->&_); done. }
    rewrite Ha, Ha', !no_advanced_service by done. unfold Transport.Path, Transport.Host.
    rewrite Hta, Hta', Hu, Hu' in *.
    intros Hr Hr'. split; [|repeat split; reflexivity]. apply Hview; [|reflexivity].
    destruct i; [|done]. simpl in *. rewrite <-Hr' in Hr. apply (inj Some) in Hr.
    do 2 peel_with bounds Hr. done.
Qed.

Lemma canonical_inj i c c' e : wf c → wf c' →
  canonicalConfiguration c i = Some e → canonicalConfiguration c' i = Some e → view i c = view i c'.
Proof.
  intros Hw Hw' (r&Hr&->)%canonical_split (r'&Hr'&H)%canonical_split.
  apply enc_string_inj in H as [Hd H]; [|apply domain_length..].
  apply domain_versions in Hd as [H3 H2].
  apply encode_base_inj in H as [(Hp&Ha&Htls&Hk&Hws) H]; [|done..].
  apply encode_v2_inj in H as [[Hwh Hm] <-]; [|done..].
  destruct (encode_rest_inj i c c' r) as (Hc&HP&HH&HS&Hadv); [done..|].
  assert (transport c = transport c') as Ht.
  { apply transport_determined; auto using wf_transport. }
  unfold view in *. simpl in Hc. by rewrite Hc, Hadv, Hp, Ha, Ht, Htls, Hm.
Qed.

(** The encoding depends on nothing but the view. *)
Lemma canonical_view i c : canonicalConfiguration (view i c) i = canonicalConfiguration c i.
Proof.
  destruct i; [by rewrite view_true|].
  assert (version3 (view false c) = version3 c) as H3 by (unfold version3; simpl; by destruct (advanced c)).
  assert (version2 (view false c) = version2 c) as H2 by (unfold version2; by rewrite H3).
  unfold canonicalConfiguration. unfold encode_v2, domain. rewrite H3, H2.
  destruct (version3 c); [|done]. simpl.
  destruct (advanced c) as [[f [al fp rl] hy]|]; [|done]. simpl.
  unfold encode_tail, encode_v3. simpl. by destruct rl, hy as [[u d [] l]|].
Qed.

(** [Equivalent] decides equality of admitted configurations. *)
Lemma forallb_zip_eq (l k : list string) : length l = length k →
  forallb (λ '(x, y), bool_decide (x = y)) (zip l k) = true ↔ l = k.
Proof.
  revert k. induction l as [|x l IH]; intros [|y k] Hl; try done. simpl. injection Hl as Hl.
  rewrite andb_true_iff, IH, bool_decide_eq_true by done. naive_solver.
Qed.

Lemma Security_equal_eq s t : Security.equal s t = true ↔ s = t.
Proof.
  destruct s as [al fp rl], t as [al' fp' rl']. unfold Security.equal. simpl. split.
  - destruct (_ || _ || _) eqn:E; [done|]. intros Hb. apply andb_true_iff in Hb as [Hz Hr].
    bool_to_prop. apply forallb_zip_eq in Hz; [|done].
    assert (fp = fp') as <- by (by apply dec_stable). subst.
    destruct rl, rl'; simpl in *; try done. bool_to_prop. congruence.
  - intros [= <- <- <-]. rewrite bool_decide_false, Nat.eqb_refl by naive_solver.
    rewrite eqb_reflx. simpl. rewrite (proj2 (forallb_zip_eq al al eq_refl) eq_refl). simpl.
    rewrite (bool_decide_true (rl = rl)) by done. apply orb_true_r.
Qed.

Lemma Credential_equal_eq c c' : Credential.valid c = true → Credential.valid c' = true →
  Credential.equal c c' = true ↔ c = c'.
Proof.
  intros Hv Hv'. unfold Credential.equal. rewrite Hv, Hv'.
  destruct c as [p [s|] u], c' as [p' [s'|] u']; try done. simpl. split.
  - destruct (_ || _ || _) eqn:E; [done|]. intros H. bool_to_prop.
    assert (p = p') by (by apply dec_stable). by subst.
  - intros [= <- <- <-]. rewrite !Z.eqb_refl, (bool_decide_false (p ≠ p)) by (intros []; done).
    simpl. by rewrite !bool_decide_true.
Qed.

Lemma Transport_equal_eq t t' : Transport.valid t = true → Transport.valid t' = true →
  Transport.equal t t' = true ↔ t = t'.
Proof.
  intros Hv Hv'. unfold Transport.equal. rewrite !andb_true_iff, !bool_decide_eq_true.
  split; [|by intros ->]. intros [[[Hk Hp] Hh] Ha].
  destruct t as [k p h a], t' as [k' p' h' a']. unfold Transport.WebSocketPath, Transport.valid in *.
  simpl in *. subst. f_equal. destruct p as [p|], p' as [p'|], k', a'; simpl in *; try done; try congruence;
    rewrite ?andb_false_r in *; bool_to_prop; simpl in *; subst; done.
Qed.

Lemma advanced_equal_eq x y :
  (∀ a h, x = Some a → hysteria a = Some h → wf_hysteria h) →
  (∀ a h, y = Some a → hysteria a = Some h → wf_hysteria h) →
  advanced_equal x y = true ↔ x = y.
Proof.
  intros Hx Hy. destruct x as [[f s h]|], y as [[f' s' h']|]; try done. unfold advanced_equal. simpl. split.
  - destruct (_ || _ || _) eqn:E; [done|]. bool_to_prop.
    match goal with H : Security.equal _ _ = true |- _ => apply Security_equal_eq in H as <- end. subst f'.
    destruct h as [h|], h' as [h'|]; try done. destruct (_ || _ || _ || _) eqn:E; [done|].
    intros Hz. bool_to_prop. apply forallb_zip_eq in Hz; [|done].
    destruct (Hx _ h eq_refl eq_refl) as [_ _ _ Ho _ _], (Hy _ h' eq_refl eq_refl) as [_ _ _ Ho' _ _].
    destruct h as [? ? o ?], h' as [? ? o' ?]. unfold RevealSalamanderPassword in *. simpl in *. subst.
    repeat f_equal. destruct o as [o|], o' as [o'|]; simpl in *; subst; try done.
    + by destruct (Ho _ eq_refl).
    + by destruct (Ho' _ eq_refl).
  - intros [= <- <- <-]. rewrite (proj2 (Security_equal_eq s s)), eqb_reflx, bool_decide_true by done. simpl.
    destruct h as [h|]; [|done].
    rewrite !Z.eqb_refl, Nat.eqb_refl, bool_decide_true by done. simpl. by apply forallb_zip_eq.
Qed.

Lemma Equivalent_eq c c' : wf c → wf c' → Equivalent c c' = true ↔ c = c'.
Proof.
  intros Hw Hw'. unfold Equivalent. rewrite !andb_true_iff, !bool_decide_eq_true.
  rewrite Credential_equal_eq, Transport_equal_eq, advanced_equal_eq
    by (first [apply Hw | apply Hw' | apply (wf_credential _ Hw) | apply (wf_credential _ Hw')
              | apply (wf_transport _ Hw) | apply (wf_transport _ Hw')
              | intros a h Ha; by apply (wf_advanced _ Hw) in Ha as [_ ?]; eauto
              | intros a h Ha; by apply (wf_advanced _ Hw') in Ha as [_ ?]; eauto]).
  destruct c, c'; simpl; split; [intros; destruct_and?; by subst|intros [=]; by subst].
Qed.

Section identity.
Context `{Digest}.

Lemma Identity_of_wf c : wf c → ∃ l p,
  canonicalConfiguration c false = Some l ∧ canonicalConfiguration c true = Some p ∧
  Identity_of c = Some {| id := version c +:+ to_lower (base32_encode (sha256 l)); revision := Some (sha256 p) |}.
Proof.
  intros Hw. pose proof (wf_valid c Hw) as Hv. unfold Identity_of. rewrite Hv.
  destruct (canonicalConfiguration_total c false Hv) as [l ->].
  destruct (canonicalConfiguration_total c true Hv) as [p ->]. by exists l, p.
Qed.

Lemma version_length c : String.length (version c) = 4.
Proof. unfold version. destruct (version3 c); [done|]. by destruct (_ || _). Qed.
Lemma ParseID_generated c l : ParseID (version c +:+ to_lower (base32_encode (sha256 l))) =
  Ok (version c +:+ to_lower (base32_encode (sha256 l))).
Proof.
  set (t := to_lower (base32_encode (sha256 l))).
  assert (∀ v, v = "ef1_" ∨ v = "ef2_" ∨ v = "ef3_" → ParseID (v +:+ t) = Ok (v +:+ t)) as Hp.
  { intros v Hv. unfold ParseID.
    assert (of_chars (drop 4 (chars (v +:+ t))) = t) as -> by (destruct_or! Hv; subst v; apply of_chars_chars).
    unfold t. rewrite base32_round_trip, sha256_length, base32_lower_stable, bool_decide_true by done.
    destruct_or! Hv; subst v; reflexivity. }
  apply Hp. unfold version. destruct (version3 c); [auto|]. destruct (_ || _); auto.
Qed.
End identity.

(** ** Identity theorems *)

(** C32: Two configurations made by the exported constructors have the same private encoding, the bytes the
    connection revision hashes, exactly when [Equivalent] says they are the same connection; the encoder never
    dereferences nil on them.  So a revision distinguishes every field, credentials included. *)
Theorem private_encoding_identifies c c' : made c → made c' →
  is_Some (canonicalConfiguration c true) ∧
  (canonicalConfiguration c true = canonicalConfiguration c' true ↔ Equivalent c c' = true).
Proof.
  intros Hw%made_wf Hw'%made_wf. rewrite Equivalent_eq by done.
  destruct (canonicalConfiguration_total c true (wf_valid c Hw)) as [e He].
  destruct (canonicalConfiguration_total c' true (wf_valid c' Hw')) as [e' He'].
  split; [by eexists|]. split; [|by intros ->]. rewrite He, He'. intros [= <-].
  by rewrite <-(view_true c), <-(view_true c'), (canonical_inj true c c' e).
Qed.

(** The encoding the public endpoint ID hashes is a function of the connection without its secrets
    (credential, Reality short ID, obfuscation password), and determines all the rest of it: rotating a
    credential keeps the ID, changing anything else changes the hashed bytes. *)
Theorem logical_encoding_identifies c c' : made c → made c' →
  canonicalConfiguration c false = canonicalConfiguration c' false ↔ view false c = view false c'.
Proof.
  intros Hw%made_wf Hw'%made_wf. split.
  - destruct (canonicalConfiguration_total c false (wf_valid c Hw)) as [e He].
    rewrite He. intros He'. by apply (canonical_inj false c c' e).
  - intros Hv. by rewrite <-(canonical_view false c), <-(canonical_view false c'), Hv.
Qed.

(** Every constructed configuration has an identity; its ID is one that [ParseID] accepts unchanged, and
    its revision has 32 bytes, so it survives the protected persistence boundary. *)
Theorem identity_total_and_parses `{Digest} c : made c →
  ∃ i r, Identity_of c = Some i ∧ ParseID (id i) = Ok (id i) ∧ revision i = Some r ∧ RestoreRevision r = Some r.
Proof.
  intros Hw%made_wf. destruct (Identity_of_wf c Hw) as (l&p&_&_&->).
  eexists _, _. split; [done|]. split; [apply ParseID_generated|]. split; [done|].
  unfold RestoreRevision. by rewrite sha256_length.
Qed.

(** Equal complete identities mean the same connection, when the two private encodings do not collide. *)
Theorem identity_equal_sound `{Digest} c c' p p' i i' : made c → made c' →
  canonicalConfiguration c true = Some p → canonicalConfiguration c' true = Some p' → coll_free sha256 [p; p'] →
  Identity_of c = Some i → Identity_of c' = Some i' → Identity_Equal i i' = true → Equivalent c c' = true.
Proof.
  intros Hw%made_wf Hw'%made_wf Hp Hp' Hfree.
  destruct (Identity_of_wf c Hw) as (l&q&_&Hq&->). destruct (Identity_of_wf c' Hw') as (l'&q'&_&Hq'&->). simplify_eq.
  intros [= <-] [= <-]. unfold Identity_Equal. simpl. case_bool_decide; [done|]. intros Hr. bool_to_prop.
  apply Hfree in Hr as <-; [|by rewrite !elem_of_cons; auto..].
  rewrite Equivalent_eq by done. by rewrite <-(view_true c), <-(view_true c'), (canonical_inj true c c' p).
Qed.

(** ** Concrete connections *)

Module Sample.
Definition address : Address.Address :=
  {| Address.host := "example.com"; Address.port := 443; Address.kind := Address.hostDNS |}.
Definition credential (uuid : string) : Credential.Credential :=
  {| Credential.protocol := ProtocolVLESS; Credential.secret := Some uuid; Credential.username := "" |}.
Definition uuid1 : string := "12345678-1234-1234-1234-123456789abc".
Definition uuid2 : string := "12345678-1234-1234-1234-123456789abd".
Definition tls : TLSConfig := {| enabled := true; serverName := "example.com"; insecureSkipVerify := false |}.
Definition vless (uuid : string) : Configuration :=
  {| Configuration.protocol := ProtocolVLESS; Configuration.address := address;
     Configuration.credential := credential uuid; Configuration.transport := Transport.NewTCPTransport;
     Configuration.tls := tls; method := ""; advanced := None |}.

Lemma vless_made uuid : uuid = uuid1 ∨ uuid = uuid2 → made (vless uuid).
Proof.
  intros Hu. apply (made_basic ProtocolVLESS "Example.com" 443 address (credential uuid) Transport.NewTCPTransport
    {| enabled := true; serverName := ""; insecureSkipVerify := false |}).
  - reflexivity.
  - apply (made_vless uuid). destruct Hu as [-> | ->]; reflexivity.
  - constructor.
  - apply (made_enabled "" false). reflexivity.
  - destruct Hu as [-> | ->]; reflexivity.
Qed.
End Sample.

Lemma private_encoding_identifies_witness :
  canonicalConfiguration (Sample.vless Sample.uuid1) true ≠ canonicalConfiguration (Sample.vless Sample.uuid2) true.
Proof.
  intros H.
  apply (private_encoding_identifies (Sample.vless Sample.uuid1) (Sample.vless Sample.uuid2)) in H;
    [|apply Sample.vless_made; auto..].
  discriminate H.
Defined.

Lemma logical_encoding_identifies_witness :
  canonicalConfiguration (Sample.vless Sample.uuid1) false = canonicalConfiguration (Sample.vless Sample.uuid2) false.
Proof.
  apply (logical_encoding_identifies (Sample.vless Sample.uuid1) (Sample.vless Sample.uuid2));
    [apply Sample.vless_made; auto..|reflexivity].
Defined.

Lemma identity_total_and_parses_witness : ∃ i r,
  @Identity_of toy_digest (Sample.vless Sample.uuid1) = Some i ∧ ParseID (id i) = Ok (id i) ∧
  revision i = Some r ∧ RestoreRevision r = Some r.
Proof. apply (@identity_total_and_parses toy_digest). apply Sample.vless_made; auto. Defined.

Lemma identity_equal_sound_witness :
  Equivalent (Sample.vless Sample.uuid1) (Sample.vless Sample.uuid1) = true.
Proof.
  destruct (@Identity_of_wf toy_digest (Sample.vless Sample.uuid1)) as (l&p&_&Hp&Hi).
  { apply made_wf, Sample.vless_made; auto. }
  eapply (@identity_equal_sound toy_digest (Sample.vless Sample.uuid1) (Sample.vless Sample.uuid1) p p);
    [apply Sample.vless_made; auto..|exact Hp|exact Hp| |exact Hi|exact Hi|].
  - by apply coll_free_pair.
  - unfold Identity_Equal. cbn [revision id]. rewrite bool_decide_false by (intros []; done).
    by apply bool_decide_true.
Defined.

(** [canonicalUUID] accepts text that is not a hyphenated UUID: hyphens in place of hexadecimal digits are
    dropped and the missing bytes become zeros, so a malformed user ID is silently replaced by another one. *)
Theorem canonicalUUID_accepts_malformed :
  Credential.canonicalUUID "12345678----------------------------" = Ok "12345678-0000-0000-0000-000000000000".
Proof. reflexivity. Qed.

(** [ParseID] accepts several spellings of one digest: the unused low bits of the last symbol and embedded line
    breaks are ignored, so an accepted identifier need not be the canonical one. *)
Theorem ParseID_not_canonical :
  let s t := "ef1_aaaaaaaaaaaaaaaaaaaaaaaaaaaaaaaaaaaaaaaaaaaaaaaaaaa" +:+ t in
  ParseID (s "a") = Ok (s "a") ∧ ParseID (s "b") = Ok (s "b") ∧
  base32_decode (to_upper (of_chars (drop 4 (chars (s "a"))))) = base32_decode (to_upper (of_chars (drop 4 (chars (s "b"))))) ∧
  ∃ t, contains_any t (String (byte_of 10) "") = true ∧ ParseID (s t) = Ok (s t).
Proof.
  split_and!; [vm_compute; reflexivity..|].
  exists ("a" +:+ String (byte_of 10) ""). split; vm_compute; reflexivity.
Qed.
