(* ===== verification/Provenance.v ===== *)
(** * Provenance (internal/endpoint/provenance.go)

    Source relationships of a connection: safe identifiers, alias sets and
    the merge that unions the aliases of equal relationships.  [merge_ext]
    says the merge is a function of the sets of relationships and aliases
    only, which is why neither map iteration nor input order can show. *)
From S2P Require Import Prelude Order Bytes Endpoint.
From Stdlib Require Import Ascii.
From Stdlib Require String.

Definition maxProvenanceIDBytes : Z := 128.
Definition maxAliasBytes : Z := 256.

Definition id_char (c : ascii) : bool := is_alnum c || char_elem c "._-".
Definition validateProvenanceID (field value : string) : checked unit :=
  if (slen value =? 0)%Z || (maxProvenanceIDBytes <? slen value)%Z
  then Err (invalid field "must contain between 1 and 128 characters")
  else if negb (all_chars id_char value)
  then Err (invalid field "must use only ASCII letters, digits, dots, underscores, and hyphens")
  else Ok ().
Definition NewSourceID (value : string) : checked string :=
  _ ← validateProvenanceID "provenance.source_id" value; Ok value.
Definition NewRecordID (value : string) : checked string :=
  _ ← validateProvenanceID "provenance.record_id" value; Ok value.

(** A nil alias set reads as an empty one. *)
Record Provenance := { source : string; record : string; aliases : list string }.
#[global] Instance Provenance_eq_dec : EqDecision Provenance.
Proof. solve_decision. Defined.

Definition check_alias (alias : string) : checked unit :=
  let bad := invalid "provenance.alias" in
  if bool_decide (alias = "") then Err (bad "must not be empty")
  else if (maxAliasBytes <? slen alias)%Z then Err (bad "must not exceed 256 bytes")
  else if negb (valid_utf8 alias) then Err (bad "must be valid UTF-8")
  else if negb (all_runes (λ r, negb (is_control r || in_ranges unicode_Cf r)) alias)
  then Err (bad "must not contain control characters")
  else Ok ().
Fixpoint check_aliases (l : list string) : checked unit :=
  match l with [] => Ok () | a :: l' => _ ← check_alias a; check_aliases l' end.
(** The keys of the map [unique], sorted. *)
Definition alias_set (l : list string) : list string := go_sort bytes_compare (remove_dups l).
Definition normalizeAliases (l : list string) : checked (list string) :=
  _ ← check_aliases l; Ok (alias_set l).

Definition NewProvenance (s r : string) (l : list string) : checked Provenance :=
  if bool_decide (s = "") then Err (invalid "provenance.source_id" "must be constructed with NewSourceID")
  else if bool_decide (r = "") then Err (invalid "provenance.record_id" "must be constructed with NewRecordID")
  else normalized ← normalizeAliases l; Ok {| source := s; record := r; aliases := normalized |}.

Definition provenance_valid (p : Provenance) : bool := bool_decide (source p ≠ "") && bool_decide (record p ≠ "").
Definition provenance_key (p : Provenance) : string := source p +:+ String (byte_of 0) (record p).

(** One step of the loop that fills [byKey]; the error of
    [normalizeAliases] is dropped with its (nil) result. *)
Definition merge_step (byKey : gmap string Provenance) (p : Provenance) : gmap string Provenance :=
  match byKey !! provenance_key p with
  | Some existing =>
      let l := match normalizeAliases (aliases existing ++ aliases p) with Ok l => l | Err _ => [] end in
      <[provenance_key p := {| source := source existing; record := record existing; aliases := l |}]> byKey
  | None => <[provenance_key p := p]> byKey
  end.
Definition merge_map (l : list Provenance) : gmap string Provenance := foldl merge_step ∅ l.
Definition provenance_cmp : Provenance → Provenance → comparison :=
  cmp_lex (cmp_on source bytes_compare) (cmp_on record bytes_compare).
(** The variadic groups are concatenated. *)
Definition mergeProvenance (l : list Provenance) : list Provenance :=
  go_sort provenance_cmp (snd <$> map_to_list (merge_map l)).

(** ** The invariant of provenance values *)

Definition safe_id (s : string) : Prop := s ≠ "" ∧ all_chars id_char s = true.
Record wf_provenance (p : Provenance) : Prop := {
  wf_source : safe_id (source p);
  wf_record : safe_id (record p);
  wf_aliases : check_aliases (aliases p) = Ok ();
  wf_alias_set : alias_set (aliases p) = aliases p;
}.

Lemma alias_set_elem l a : a ∈ alias_set l ↔ a ∈ l.
Proof. unfold alias_set. by rewrite go_sort_elem_of, elem_of_remove_dups. Qed.

Lemma alias_set_ext l k : (∀ a, a ∈ l ↔ a ∈ k) → alias_set l = alias_set k.
Proof.
  intros H. unfold alias_set. apply (go_sort_perm_eq bytes_compare); [apply no_ties_exact, _|].
  apply NoDup_Permutation; [apply NoDup_remove_dups..|]. intros a. by rewrite !elem_of_remove_dups.
Qed.

Lemma check_aliases_ok l : check_aliases l = Ok () ↔ ∀ a, a ∈ l → check_alias a = Ok ().
Proof.
  induction l as [|a l IH]; simpl. { split; [by intros _ a ?%not_elem_of_nil|done]. }
  rewrite result_bind_Ok. setoid_rewrite elem_of_cons. split.
  - intros ([]&Ha&Hl) b [-> | Hb]; [done|]. by apply IH.
  - intros H. exists (). split; [apply H; by left|]. apply IH. auto.
Qed.

Lemma safe_id_no_nul s t c r r' : safe_id s → safe_id t → id_char c = false →
  s +:+ String c r = t +:+ String c r' → s = t ∧ r = r'.
Proof.
  intros [_ Hs] [_ Ht] Hc. revert t Ht. unfold all_chars in *. induction s as [|x s IH]; intros [|y t] Ht; simpl in *.
  - by intros [= ->].
  - intros [= <- _]. by rewrite Hc in Ht.
  - intros [= -> _]. by rewrite Hc in Hs.
  - bool_to_prop. intros [= -> Heq]. by destruct (IH ltac:(done) t ltac:(done) Heq) as [-> ->].
Qed.

Lemma provenance_key_inj p q : wf_provenance p → wf_provenance q → provenance_key p = provenance_key q →
  source p = source q ∧ record p = record q.
Proof. intros [] [] H. eapply safe_id_no_nul in H; eauto. Qed.

Lemma provenance_ext p q : wf_provenance p → wf_provenance q → provenance_key p = provenance_key q →
  (∀ a, a ∈ aliases p ↔ a ∈ aliases q) → p = q.
Proof.
  intros Hp Hq Hk Ha. destruct (provenance_key_inj p q) as [Hs Hr]; auto.
  apply alias_set_ext in Ha. rewrite !wf_alias_set in Ha by done.
  destruct p, q; simpl in *; by subst.
Qed.

(** ** The merge, as sets *)

Lemma merge_map_spec l k : Forall wf_provenance l →
  match merge_map l !! k with
  | None => ∀ q, q ∈ l → provenance_key q ≠ k
  | Some p => provenance_key p = k ∧ wf_provenance p ∧ (∃ q, q ∈ l ∧ provenance_key q = k) ∧
              ∀ a, a ∈ aliases p ↔ ∃ q, q ∈ l ∧ provenance_key q = k ∧ a ∈ aliases q
  end.
Proof.
  intros Hl. induction l as [|x l IH] using rev_ind.
  { unfold merge_map. simpl. rewrite lookup_empty. by intros q ?%not_elem_of_nil. }
  apply Forall_app in Hl as [Hl Hx]. inversion Hx as [|?? Hwx _]; subst. specialize (IH Hl).
  unfold merge_map in *. rewrite foldl_app. simpl. set (m := foldl merge_step ∅ l) in *.
  unfold merge_step.
  destruct (decide (provenance_key x = k)) as [<-|Hne].
  - destruct (m !! provenance_key x) as [p|] eqn:Hm; rewrite lookup_insert_eq.
    + destruct IH as (Hk&[Hs Hr Hca Has]&(q0&Hq0&Hkq0)&Ha). 
      assert (check_aliases (aliases p ++ aliases x) = Ok ()) as Hok.
      { apply check_aliases_ok. intros a [Hin|Hin]%elem_of_app; revert a Hin; apply check_aliases_ok; [done|apply Hwx]. }
      unfold normalizeAliases. rewrite Hok. simpl. split_and!.
      * done.
      * split; simpl; auto.
        { apply check_aliases_ok. intros a. rewrite alias_set_elem. by apply check_aliases_ok. }
        apply alias_set_ext. intros a. by rewrite alias_set_elem.
      * exists x. split; [apply elem_of_app; right; by left|done].
      * intros a. rewrite alias_set_elem, elem_of_app, Ha. setoid_rewrite elem_of_app.
        setoid_rewrite list_elem_of_singleton. naive_solver.
    + split_and!; [done|done|exists x; split; [apply elem_of_app; right; by left|done]|].
      intros a. setoid_rewrite elem_of_app. setoid_rewrite list_elem_of_singleton. split.
      * intros. exists x. auto.
      * intros (q&[Hq| ->]&Hkq&?); [|done]. by destruct (IH q Hq).
  - assert (merge_step m x !! k = m !! k) as Hms.
    { unfold merge_step. destruct (m !! provenance_key x); by apply lookup_insert_ne. }
    unfold merge_step in Hms. rewrite Hms. destruct (m !! k) as [p|].
    + destruct IH as (?&?&(q0&?&?)&Ha). split_and!; auto.
      * exists q0. split; [apply elem_of_app; by left|done].
      * intros a. rewrite Ha. setoid_rewrite elem_of_app. setoid_rewrite list_elem_of_singleton. naive_solver.
    + intros q [?| ->%list_elem_of_singleton]%elem_of_app; auto.
Qed.

Lemma mergeProvenance_elem l p : Forall wf_provenance l →
  p ∈ mergeProvenance l ↔ merge_map l !! provenance_key p = Some p.
Proof.
  intros Hl. unfold mergeProvenance. rewrite go_sort_elem_of, list_elem_of_fmap. split.
  - intros ([k q]&->&Hin). simpl. apply elem_of_map_to_list in Hin.
    pose proof (merge_map_spec l k Hl) as H. rewrite Hin in H. destruct H as [-> _]. done.
  - intros H. exists (provenance_key p, p). split; [done|]. by apply elem_of_map_to_list.
Qed.

Lemma mergeProvenance_wf l : Forall wf_provenance l → Forall wf_provenance (mergeProvenance l).
Proof.
  intros Hl. apply Forall_forall. intros p Hp%mergeProvenance_elem; [|done].
  pose proof (merge_map_spec l (provenance_key p) Hl) as H. rewrite Hp in H. apply H.
Qed.

(** The merge sees only which relationships and which aliases there are. *)
Lemma merge_ext l k : Forall wf_provenance l → Forall wf_provenance k →
  (∀ x, (∃ q, q ∈ l ∧ provenance_key q = x) ↔ (∃ q, q ∈ k ∧ provenance_key q = x)) →
  (∀ x a, (∃ q, q ∈ l ∧ provenance_key q = x ∧ a ∈ aliases q) ↔
          (∃ q, q ∈ k ∧ provenance_key q = x ∧ a ∈ aliases q)) →
  mergeProvenance l = mergeProvenance k.
Proof.
  intros Hl Hk Hkeys Hal. unfold mergeProvenance. do 3 f_equal. apply map_eq. intros x.
  pose proof (merge_map_spec l x Hl) as H1. pose proof (merge_map_spec k x Hk) as H2.
  destruct (merge_map l !! x) as [p|], (merge_map k !! x) as [q|]; [|exfalso..|done].
  - destruct H1 as (?&?&_&Ha), H2 as (?&?&_&Hb). f_equal. apply provenance_ext; try congruence.
    intros a. by rewrite Ha, Hb, Hal.
  - destruct H1 as (_&_&He&_). apply Hkeys in He as (q&?&?). by eapply H2.
  - destruct H2 as (_&_&He&_). apply Hkeys in He as (q'&?&?). by eapply H1.
Qed.

Lemma merge_perm l k : Forall wf_provenance l → l ≡ₚ k → mergeProvenance l = mergeProvenance k.
Proof.
  intros Hl Hp. apply merge_ext; [done|by rewrite <-Hp|..]; intros; by setoid_rewrite Hp.
Qed.

Lemma merge_keys l x : Forall wf_provenance l →
  (∃ q, q ∈ mergeProvenance l ∧ provenance_key q = x) ↔ (∃ q, q ∈ l ∧ provenance_key q = x).
Proof.
  intros Hl. pose proof (merge_map_spec l x Hl) as H. split.
  - intros (q&Hq%mergeProvenance_elem&<-); [|done]. rewrite Hq in H. apply H.
  - intros (q&Hq&Hx). destruct (merge_map l !! x) as [p|] eqn:Hm; [|by destruct (H q)].
    exists p. destruct H as [Hkp _]. split; [|done]. apply mergeProvenance_elem; [done|]. by rewrite Hkp.
Qed.

Lemma merge_aliases l x a : Forall wf_provenance l →
  (∃ q, q ∈ mergeProvenance l ∧ provenance_key q = x ∧ a ∈ aliases q) ↔
  (∃ q, q ∈ l ∧ provenance_key q = x ∧ a ∈ aliases q).
Proof.
  intros Hl. pose proof (merge_map_spec l x Hl) as H. split.
  - intros (q&Hq%mergeProvenance_elem&<-&Ha); [|done]. rewrite Hq in H.
    destruct H as (_&_&_&Hal). by apply Hal.
  - intros (q&Hq&Hx&Ha). destruct (merge_map l !! x) as [p|] eqn:Hm; [|by destruct (H q)].
    exists p. destruct H as (Hkp&_&_&Hal). split_and!; [|done|apply Hal; eauto].
    apply mergeProvenance_elem; [done|]. by rewrite Hkp.
Qed.

Lemma ex_app {A} (l k : list A) (P : A → Prop) :
  (∃ q, q ∈ l ++ k ∧ P q) ↔ (∃ q, q ∈ l ∧ P q) ∨ (∃ q, q ∈ k ∧ P q).
Proof.
  split.
  - intros (q&[Hq|Hq]%elem_of_app&?); [left|right]; by exists q.
  - intros [(q&Hq&?)|(q&Hq&?)]; exists q; rewrite elem_of_app; auto.
Qed.

(** Merging an already merged group again changes nothing. *)
Lemma merge_absorb l k : Forall wf_provenance l → Forall wf_provenance k →
  mergeProvenance (mergeProvenance l ++ k) = mergeProvenance (l ++ k).
Proof.
  intros Hl Hk. pose proof (mergeProvenance_wf l Hl).
  apply merge_ext; [by apply Forall_app..| |]; intros; rewrite !ex_app.
  - by rewrite merge_keys.
  - by rewrite merge_aliases.
Qed.

#[global] Instance provenance_cmp_order : CmpOrder provenance_cmp.
Proof. apply _. Qed.
Lemma provenance_cmp_eq p q : provenance_cmp p q = Eq → source p = source q ∧ record p = record q.
Proof.
  unfold provenance_cmp, cmp_lex, lex, cmp_on. destruct (bytes_compare (source p) _) eqn:E; try done.
  intros H. by split; apply bytes_compare_exact.
Qed.

Lemma merge_sorted l : Forall wf_provenance l → StronglySorted (cmp_lt provenance_cmp) (mergeProvenance l).
Proof.
  intros Hl. apply sorted_le_adjacent; [apply _|apply go_sort_sorted; apply _|].
  intros i p q Hp Hq Heq. assert (NoDup (mergeProvenance l)) as Hnd.
  { unfold mergeProvenance. rewrite go_sort_perm. apply NoDup_fmap_2_strong, NoDup_map_to_list.
    intros [k p'] [k' q'] H1 H2. simpl. intros <-. apply elem_of_map_to_list in H1, H2.
    pose proof (merge_map_spec l k Hl) as S1. pose proof (merge_map_spec l k' Hl) as S2.
    rewrite H1 in S1. rewrite H2 in S2. destruct S1 as [<- _], S2 as [<- _]. done. }
  assert (p = q) as <-.
  { apply provenance_cmp_eq in Heq as [Hs Hr].
    assert (provenance_key p = provenance_key q) as Hk by (unfold provenance_key; congruence).
    apply list_elem_of_lookup_2 in Hp, Hq. apply mergeProvenance_elem in Hp, Hq; [|done..]. congruence. }
  pose proof (NoDup_lookup _ _ _ _ Hnd Hp Hq). lia.
Qed.

Lemma merge_idem l : Forall wf_provenance l → mergeProvenance (mergeProvenance l) = mergeProvenance l.
Proof.
  intros Hl. pose proof (merge_absorb l [] Hl ltac:(constructor)) as H. by rewrite !app_nil_r in H.
Qed.

(** ** Constructors *)

(** The merge by source and source record: the union, each pair once. *)
Lemma merge_pair l k (R : Provenance → Prop) p s i : Forall wf_provenance l → Forall wf_provenance k → p ∈ l → source p = s → record p = i →
  (∃ q, q ∈ k ∧ provenance_key q = provenance_key p ∧ R q) → ∃ q, q ∈ k ∧ source q = s ∧ record q = i ∧ R q.
Proof.
  rewrite !Forall_forall. intros Hl Hk Hp <- <- (q & Hq & E & HR). apply provenance_key_inj in E as [E1 E2]; [|auto..]. eauto.
Qed.
Lemma merge_related l s i : Forall wf_provenance l →
  (∃ p, p ∈ mergeProvenance l ∧ source p = s ∧ record p = i) ↔ (∃ p, p ∈ l ∧ source p = s ∧ record p = i).
Proof.
  intros Hl. pose proof (mergeProvenance_wf l Hl) as Hm. split; intros (p & Hp & Hs & Hi).
  - destruct (merge_pair _ l (λ _, True) p s i Hm Hl Hp Hs Hi) as (q & ? & ? & ? & _); [|eauto].
    destruct (proj1 (merge_keys l (provenance_key p) Hl)) as (q & ? & ?); eauto.
  - destruct (merge_pair _ (mergeProvenance l) (λ _, True) p s i Hl Hm Hp Hs Hi) as (q & ? & ? & ? & _); [|eauto].
    destruct (proj2 (merge_keys l (provenance_key p) Hl)) as (q & ? & ?); eauto.
Qed.
Lemma merge_related_aliases l s i a : Forall wf_provenance l →
  (∃ p, p ∈ mergeProvenance l ∧ source p = s ∧ record p = i ∧ a ∈ aliases p) ↔ (∃ p, p ∈ l ∧ source p = s ∧ record p = i ∧ a ∈ aliases p).
Proof.
  intros Hl. pose proof (mergeProvenance_wf l Hl) as Hm. split; intros (p & Hp & Hs & Hi & Ha).
  - eapply merge_pair; [exact Hm|exact Hl|exact Hp|done|done|]. apply merge_aliases; eauto.
  - eapply merge_pair; [exact Hl|exact Hm|exact Hp|done|done|]. apply merge_aliases; eauto.
Qed.
Lemma merge_once l : Forall wf_provenance l → NoDup ((λ p, (source p, record p)) <$> mergeProvenance l).
Proof.
  intros Hl%merge_sorted. induction Hl as [|p k Hk IH Hp]; [constructor|]. simpl. constructor; [|done].
  intros (q & E & Hq)%list_elem_of_fmap. rewrite Forall_forall in Hp. specialize (Hp q Hq). injection E as Es Er.
  unfold cmp_lt, provenance_cmp, cmp_lex, lex, cmp_on in Hp. rewrite Es, Er in Hp. by rewrite !(cmp_refl bytes_compare) in Hp.
Qed.

Lemma validateProvenanceID_safe f v u : validateProvenanceID f v = Ok u → safe_id v.
Proof.
  unfold validateProvenanceID. intros H. split_all_in H. bool_to_prop. split; [|done]. by intros ->.
Qed.
Lemma NewProvenance_wf s r l p : safe_id s → safe_id r → NewProvenance s r l = Ok p → wf_provenance p.
Proof.
  intros Hs Hr. unfold NewProvenance, normalizeAliases. do 2 (case_bool_decide; [done|]). intros H'. ok_inv.
  destruct x0. split; simpl; auto.
  - apply check_aliases_ok. intros a. rewrite alias_set_elem. by apply check_aliases_ok.
  - apply alias_set_ext. intros a. by rewrite alias_set_elem.
Qed.
