(* ===== verification/Inventory.v ===== *)
(** * The endpoint inventory (internal/endpoint/inventory.go, internal/source/snapshot.go)

    Records pair a configuration with its provenance.  [Deduplicate] sorts
    records by complete identity and folds equal neighbours together;
    [Set_] keeps the last accepted snapshot of every source. *)
From S2P Require Import Prelude Order Bytes Encoding Endpoint Configuration Identity Provenance.
From Stdlib Require Import Ascii.
From Stdlib Require String.
Import Configuration.

Inductive inventory_error := InvalidData (e : ValidationError) | ConflictError (id : string).

Record Record_ := { configuration : Configuration; provenance : list Provenance }.
#[global] Instance Record_eq_dec : EqDecision Record_.
Proof. solve_decision. Defined.

Section inventory.
Context `{Digest}.

(** [Configuration.Identity]; the encoder is total on valid configurations
    ([canonicalConfiguration_total]), so the default is never used there. *)
Definition identity (c : Configuration) : Identity := default {| id := ""; revision := None |} (Identity_of c).
Definition record_identity (r : Record_) : Identity := identity (configuration r).

Definition NewRecord (c : Configuration) (ps : list Provenance) : checked Record_ :=
  if negb (valid c) then Err (invalid "record.configuration" "must be constructed with NewConfiguration")
  else if bool_decide (ps = []) then Err (invalid "record.provenance" "must contain at least one source relationship")
  else if negb (forallb provenance_valid ps)
  then Err (invalid "record.provenance" "contains an invalid source relationship")
  else Ok {| configuration := c; provenance := mergeProvenance ps |}.

Definition record_valid (r : Record_) : bool :=
  valid (configuration r) && bool_decide (provenance r ≠ []) && forallb provenance_valid (provenance r).

Definition mergeMatchingRecords (left right : Record_) : result inventory_error Record_ :=
  if negb (Equivalent (configuration left) (configuration right))
  then Err (ConflictError (id (record_identity left)))
  else Ok {| configuration := configuration left;
             provenance := mergeProvenance (provenance left ++ provenance right) |}.

(** The less function of [sortRecords]: identifiers, then revisions. *)
Definition record_cmp : Record_ → Record_ → comparison := cmp_on record_identity Identity_Compare.
Definition sortRecords (l : list Record_) : list Record_ := go_sort record_cmp l.

(** One turn of the loop of [Deduplicate]. *)
Definition dedup_step (acc : result inventory_error (list Record_)) (r : Record_)
    : result inventory_error (list Record_) :=
  res ← acc;
  match last res with
  | None => Ok (res ++ [r])
  | Some prev =>
      if negb (Identity_Equal (record_identity prev) (record_identity r)) then Ok (res ++ [r])
      else merged ← mergeMatchingRecords prev r; Ok (removelast res ++ [merged])
  end.
Definition Deduplicate (records : list Record_) : result inventory_error (list Record_) :=
  if negb (forallb record_valid records)
  then Err (InvalidData (invalid "inventory.record" "must be constructed with NewRecord"))
  else foldl dedup_step (Ok []) (sortRecords records).

(** ** The invariant of records *)

Record wf_record (r : Record_) : Prop := {
  wf_configuration : Configuration.wf (configuration r);
  wf_nonempty : provenance r ≠ [];
  wf_provenances : Forall wf_provenance (provenance r);
  wf_merged : mergeProvenance (provenance r) = provenance r;
}.

Lemma NewRecord_wf c ps r : Configuration.wf c → Forall wf_provenance ps → NewRecord c ps = Ok r → wf_record r.
Proof.
  intros Hc Hp Hr. unfold NewRecord in Hr. split_all_in Hr. bool_to_prop. split; simpl; auto.
  - intros E. destruct ps as [|p ps]; [done|].
    assert (∃ q, q ∈ mergeProvenance (p :: ps) ∧ provenance_key q = provenance_key p) as (q&Hq&_).
    { apply merge_keys; [done|]. exists p. split; [by left|done]. }
    rewrite E in Hq. by apply not_elem_of_nil in Hq.
  - by apply mergeProvenance_wf.
  - by apply merge_idem.
Qed.

Lemma wf_record_valid r : wf_record r → record_valid r = true.
Proof.
  intros [Hc Hn Hp _]. unfold record_valid. rewrite (wf_valid _ Hc), bool_decide_true by done. simpl.
  apply forallb_forall. intros p Hin%list_elem_of_In. rewrite Forall_forall in Hp. destruct (Hp p Hin) as [[? _] [? _] _ _].
  unfold provenance_valid. by rewrite !bool_decide_true.
Qed.

Lemma identity_revision c : Configuration.wf c → ∃ i r, identity c = {| id := i; revision := Some r |}.
Proof. intros Hw. unfold identity. destruct (Identity_of_wf c Hw) as (l&p&_&_&->). simpl. eauto. Qed.

Lemma Identity_Equal_eq c c' : Configuration.wf c → Configuration.wf c' →
  Identity_Equal (identity c) (identity c') = true ↔ identity c = identity c'.
Proof.
  intros Hc Hc'. destruct (identity_revision c Hc) as (i&r&->), (identity_revision c' Hc') as (i'&r'&->).
  unfold Identity_Equal. simpl. case_bool_decide as Hi.
  - split; [done|]. intros [= -> ->]. done.
  - subst. rewrite bool_decide_eq_true. split; [by intros -> | by intros [=]].
Qed.

(** ** What the loop maintains *)

Definition class (i : Identity) (l : list Record_) : list Record_ := filter (λ r, record_identity r = i) l.

(** [out] is the inventory of [l]: one record per identity, in strictly
    increasing order, each with the union of the provenance of its class and
    the configuration every member of the class has. *)
Record inventory_of (l out : list Record_) : Prop := {
  inv_sorted : StronglySorted (cmp_lt record_cmp) out;
  inv_sound : ∀ r, r ∈ out → wf_record r ∧ class (record_identity r) l ≠ [] ∧
    (∀ y, y ∈ l → record_identity y = record_identity r → configuration y = configuration r) ∧
    provenance r = mergeProvenance (class (record_identity r) l ≫= provenance);
  inv_complete : ∀ y, y ∈ l → ∃ r, r ∈ out ∧ record_identity r = record_identity y;
}.

Lemma class_app i l k : class i (l ++ k) = class i l ++ class i k.
Proof. apply filter_app. Qed.
Lemma class_elem i l r : r ∈ class i l ↔ r ∈ l ∧ record_identity r = i.
Proof. unfold class. rewrite list_elem_of_filter. naive_solver. Qed.
Lemma class_provenance_wf i l : Forall wf_record l → Forall wf_provenance (class i l ≫= provenance).
Proof.
  intros Hl. apply Forall_bind. rewrite Forall_forall in *. intros r [Hr _]%class_elem. by apply Hl.
Qed.

#[local] Instance record_cmp_order : CmpOrder record_cmp.
Proof. apply _. Qed.

Lemma class_self x l : class (record_identity x) (l ++ [x]) = class (record_identity x) l ++ [x].
Proof. rewrite class_app. f_equal. unfold class. by rewrite filter_cons_True. Qed.
Lemma class_other i x l : record_identity x ≠ i → class i (l ++ [x]) = class i l.
Proof. intros Hx. rewrite class_app. unfold class at 2. by rewrite filter_cons_False, filter_nil, app_nil_r. Qed.

Lemma sorted_snoc (l : list Record_) x : StronglySorted (cmp_lt record_cmp) l →
  (∀ y, y ∈ l → cmp_lt record_cmp y x) → StronglySorted (cmp_lt record_cmp) (l ++ [x]).
Proof.
  induction 1 as [|y l Hl IH Hy]; intros Hx; simpl; [by repeat constructor|].
  constructor; [apply IH; intros; apply Hx; by right|].
  apply Forall_app. split; [done|]. constructor; [|constructor]. apply Hx. by left.
Qed.

(** A new greatest identity is appended. *)
Lemma inventory_append l out x : inventory_of l out → wf_record x →
  (∀ r, r ∈ out → cmp_lt record_cmp r x) → inventory_of (l ++ [x]) (out ++ [x]).
Proof.
  intros [Hs Hsound Hcomp] Hx Hlt.
  assert (∀ r, r ∈ out → record_identity x ≠ record_identity r) as Hne.
  { intros r Hr E. specialize (Hlt r Hr). unfold cmp_lt, record_cmp, cmp_on in Hlt. rewrite E in Hlt.
    by rewrite (cmp_refl Identity_Compare) in Hlt. }
  assert (class (record_identity x) l = []) as Hnil.
  { destruct (class (record_identity x) l) as [|y k] eqn:E; [done|].
    assert (y ∈ class (record_identity x) l) as [Hy Hyx]%class_elem by (rewrite E; by left).
    destruct (Hcomp y Hy) as (r&Hr&Hry). destruct (Hne r Hr). congruence. }
  split.
  - by apply sorted_snoc.
  - intros r [Hr| ->%list_elem_of_singleton]%elem_of_app.
    + destruct (Hsound r Hr) as (?&?&Hc&?). rewrite class_other by auto. split_and!; auto.
      intros y [Hy| ->%list_elem_of_singleton]%elem_of_app; [by apply Hc|]. intros E. by destruct (Hne r Hr).
    + rewrite class_self, Hnil. simpl. rewrite app_nil_r. split_and!; [done|done| |by rewrite wf_merged].
      intros y [Hy| ->%list_elem_of_singleton]%elem_of_app; [|done]. intros E.
      assert (y ∈ class (record_identity x) l) as Hin by (apply class_elem; auto).
      rewrite Hnil in Hin. by apply not_elem_of_nil in Hin.
  - intros y [Hy| ->%list_elem_of_singleton]%elem_of_app.
    + destruct (Hcomp y Hy) as (r&Hr&?). exists r. split; [apply elem_of_app; by left|done].
    + exists x. split; [apply elem_of_app; right; by left|done].
Qed.

(** An equal identity is merged into the last record. *)
Lemma inventory_merge l out prev x m : inventory_of l (out ++ [prev]) → Forall wf_record l → wf_record x →
  record_identity prev = record_identity x → mergeMatchingRecords prev x = Ok m →
  inventory_of (l ++ [x]) (out ++ [m]).
Proof.
  intros [Hs Hsound Hcomp] Hl Hx Hid Hm.
  destruct (Hsound prev) as (Hwp&Hpne&Hpc&Hpp); [apply elem_of_app; right; by left|].
  unfold mergeMatchingRecords in Hm. destruct (Equivalent _ _) eqn:He; [|done]. simpl in Hm. injection Hm as <-.
  apply Equivalent_eq in He; [|apply Hwp|apply Hx].
  set (m := {| configuration := _ |}). assert (record_identity m = record_identity prev) as Hmi by done.
  assert (∀ r, r ∈ out → record_identity x ≠ record_identity r) as Hne.
  { intros r Hr E. apply StronglySorted_app in Hs as (Hs&_&_).
    specialize (Hs r prev Hr ltac:(by left)). unfold cmp_lt, record_cmp, cmp_on in Hs.
    rewrite Hid, E in Hs. by rewrite (cmp_refl Identity_Compare) in Hs. }
  split.
  - apply StronglySorted_app in Hs as (H1&H2&_). apply sorted_snoc; [done|].
    intros y Hy. unfold cmp_lt, record_cmp, cmp_on in *. rewrite Hmi. apply H1; [done|by left].
  - intros r [Hr| ->%list_elem_of_singleton]%elem_of_app.
    + destruct (Hsound r) as (?&?&Hc&?); [apply elem_of_app; by left|].
      rewrite class_other by auto. split_and!; auto.
      intros y [Hy| ->%list_elem_of_singleton]%elem_of_app; [by apply Hc|]. intros E. by destruct (Hne r Hr).
    + rewrite Hmi, Hid, class_self, bind_app. simpl. rewrite app_nil_r.
      assert (mergeProvenance (provenance prev ++ provenance x) =
              mergeProvenance ((class (record_identity x) l ≫= provenance) ++ provenance x)) as Hmerge.
      { rewrite Hpp, Hid. apply merge_absorb; [by apply class_provenance_wf|apply Hx]. }
      split_and!; [|by destruct (class (record_identity x) l)| |done].
      * split; simpl; [apply Hwp| | |].
        -- intros E. destruct (provenance x) as [|p ps] eqn:Hpx; [by apply Hx in Hpx|].
           assert (Forall wf_provenance (provenance prev ++ p :: ps)) as Hall.
           { apply Forall_app. split; [apply Hwp|rewrite <-Hpx; apply Hx]. }
           destruct (proj2 (merge_keys _ (provenance_key p) Hall)) as (q&Hq&_).
           { exists p. split; [apply elem_of_app; right; by left|done]. }
           rewrite E in Hq. by apply not_elem_of_nil in Hq.
        -- apply mergeProvenance_wf, Forall_app. split; [apply Hwp|apply Hx].
        -- apply merge_idem, Forall_app. split; [apply Hwp|apply Hx].
      * intros y [Hy| ->%list_elem_of_singleton]%elem_of_app; [|done]. intros E. apply Hpc; [done|congruence].
  - intros y [Hy| ->%list_elem_of_singleton]%elem_of_app.
    + destruct (Hcomp y Hy) as (r&[Hr| ->%list_elem_of_singleton]%elem_of_app&?).
      * exists r. split; [apply elem_of_app; by left|done].
      * exists m. split; [apply elem_of_app; right; by left|congruence].
    + exists m. split; [apply elem_of_app; right; by left|congruence].
Qed.

(** Some two records share an identity but not a configuration. *)
Definition conflicting (l : list Record_) : Prop :=
  ∃ x y, x ∈ l ∧ y ∈ l ∧ record_identity x = record_identity y ∧ configuration x ≠ configuration y.

Lemma dedup_loop l : Forall wf_record l → StronglySorted (cmp_le record_cmp) l →
  match foldl dedup_step (Ok []) l with
  | Ok out => inventory_of l out
  | Err _ => conflicting l
  end.
Proof.
  induction l as [|x l IH] using rev_ind; intros Hl Hs.
  { split; [constructor|by intros r ?%not_elem_of_nil|by intros y ?%not_elem_of_nil]. }
  apply Forall_app in Hl as [Hl Hx]. inversion Hx as [|?? Hwx _]; subst.
  apply StronglySorted_app in Hs as (Hle&Hs&_). rewrite foldl_app. simpl.
  specialize (IH Hl Hs). destruct (foldl dedup_step (Ok []) l) as [out|e]; simpl.
  2:{ destruct IH as (a&b&Ha&Hb&?&?). exists a, b. rewrite !elem_of_app. auto. }
  assert (∀ r, r ∈ out → cmp_le record_cmp r x) as Hout.
  { intros r Hr. destruct (inv_sound _ _ IH r Hr) as (_&Hc&_).
    destruct (class (record_identity r) l) as [|y k] eqn:E; [done|].
    assert (y ∈ class (record_identity r) l) as [Hy Hyr]%class_elem by (rewrite E; by left).
    specialize (Hle y x Hy ltac:(by left)). unfold cmp_le, record_cmp, cmp_on in *. by rewrite <-Hyr. }
  destruct (last out) as [prev|] eqn:Hlast.
  - apply last_Some in Hlast as [out' ->].
    assert (prev ∈ out' ++ [prev]) as Hin by (apply elem_of_app; right; by left).
    assert (wf_record prev) as Hwp by (by apply (inv_sound _ _ IH)).
    pose proof (Identity_Equal_eq (configuration prev) (configuration x)
      (wf_configuration _ Hwp) (wf_configuration _ Hwx)) as Heq.
    change (identity (configuration prev)) with (record_identity prev) in Heq.
    change (identity (configuration x)) with (record_identity x) in Heq.
    destruct (Identity_Equal _ _); simpl.
    + assert (record_identity prev = record_identity x) as Hid by (by apply Heq).
      destruct (mergeMatchingRecords prev x) as [m|e] eqn:Hm; simpl.
      * rewrite removelast_last. by eapply inventory_merge.
      * destruct (inv_sound _ _ IH prev Hin) as (_&Hc&Hcfg&_).
        destruct (class (record_identity prev) l) as [|y k] eqn:E; [done|].
        assert (y ∈ class (record_identity prev) l) as [Hy Hyr]%class_elem by (rewrite E; by left).
        exists y, x. rewrite !elem_of_app, !list_elem_of_singleton. split_and!; auto; [congruence|].
        rewrite (Hcfg y Hy Hyr). unfold mergeMatchingRecords in Hm.
        destruct (Equivalent _ _) eqn:He; [done|]. intros Ee.
        apply Equivalent_eq in Ee; [congruence|apply Hwp|apply Hwx].
    + apply inventory_append; [done..|]. intros r Hr. 
      assert (record_identity prev ≠ record_identity x) as Hne by (intros E; by apply Heq in E).
      assert (cmp_lt record_cmp prev x) as Hpx.
      { specialize (Hout prev Hin). unfold cmp_lt, cmp_le, record_cmp, cmp_on in *.
        destruct (Identity_Compare _ _) eqn:E; [|done|done]. by apply (cmp_exact Identity_Compare) in E. }
      apply elem_of_app in Hr as [Hr| ->%list_elem_of_singleton]; [|done].
      pose proof (inv_sorted _ _ IH) as (Hss&_&_)%StronglySorted_app.
      specialize (Hss r prev Hr ltac:(by left)). unfold cmp_lt in *. eapply cmp_lt_trans; eauto using record_cmp_order.
  - apply last_None in Hlast as ->. apply (inventory_append l []); [done..|]. by intros r ?%not_elem_of_nil.
Qed.

Lemma sortRecords_wf l : Forall wf_record l → Forall wf_record (sortRecords l).
Proof. intros Hl. unfold sortRecords. by rewrite go_sort_perm. Qed.

Lemma inventory_of_perm l k out : l ≡ₚ k → Forall wf_record l → inventory_of l out → inventory_of k out.
Proof.
  intros Hp Hl [Hs Hsound Hcomp]. split; [done| |intros y Hy; apply Hcomp; by rewrite Hp].
  intros r Hr. destruct (Hsound r Hr) as (?&Hne&Hc&Hpr).
  assert (class (record_identity r) l ≡ₚ class (record_identity r) k) as Hcl by (unfold class; by rewrite Hp).
  split_and!; [done| |intros y Hy; apply Hc; by rewrite Hp|].
  - intros E. rewrite E in Hcl. by apply Permutation_nil_r in Hcl.
  - rewrite Hpr. apply merge_perm; [by apply class_provenance_wf|]. by rewrite Hcl.
Qed.

(** The inventory of a list is unique. *)
Lemma inventory_of_unique l o1 o2 : inventory_of l o1 → inventory_of l o2 → o1 = o2.
Proof.
  assert (∀ o o', inventory_of l o → inventory_of l o' → ∀ r, r ∈ o → r ∈ o') as Hsub.
  { intros o o' Hi Hi' r Hr. destruct (inv_sound _ _ Hi r Hr) as (_&Hne&Hc&Hp).
    destruct (class (record_identity r) l) as [|y k] eqn:E; [done|]. rewrite <-E in Hp.
    assert (y ∈ class (record_identity r) l) as [Hy Hyr]%class_elem by (rewrite E; by left).
    destruct (inv_complete _ _ Hi' y Hy) as (r'&Hr'&Hid).
    destruct (inv_sound _ _ Hi' r' Hr') as (_&_&Hc'&Hp'). rewrite Hid, Hyr, <-Hp in Hp'.
    assert (r' = r) as <-; [|done]. destruct r, r'. simpl in *.
    rewrite Hp', <-(Hc y Hy Hyr), <-(Hc' y Hy (eq_sym Hid)). done. }
  intros H1 H2.
  assert (∀ o, StronglySorted (cmp_lt record_cmp) o → NoDup o) as Hnd.
  { intros o. induction 1 as [|r o Ho IH Hr]; constructor; [|done]. intros Hin. rewrite Forall_forall in Hr.
    specialize (Hr r Hin). unfold cmp_lt in Hr. by rewrite (cmp_refl record_cmp) in Hr. }
  apply (sorted_perm_unique record_cmp).
  - intros x y Hx Hy Hxy. apply (cmp_exact Identity_Compare) in Hxy.
    destruct (inv_sound _ _ H1 x Hx) as (_&Hne&Hc&Hp), (inv_sound _ _ H1 y Hy) as (_&_&Hc'&Hp').
    destruct (class (record_identity x) l) as [|z k] eqn:E; [done|]. rewrite <-E in Hp.
    assert (z ∈ class (record_identity x) l) as [Hz Hzx]%class_elem by (rewrite E; by left).
    rewrite <-Hxy in Hp', Hc'. rewrite <-Hp in Hp'. destruct x, y; simpl in *.
    by rewrite Hp', <-(Hc z Hz Hzx), <-(Hc' z Hz Hzx).
  - apply StronglySorted_lt_le, H1.
  - apply StronglySorted_lt_le, H2.
  - apply NoDup_Permutation; [apply Hnd, H1|apply Hnd, H2|]. intros r. split; eauto.
Qed.

Lemma Deduplicate_spec l : Forall wf_record l →
  match Deduplicate l with Ok out => inventory_of l out | Err _ => conflicting l end.
Proof.
  intros Hl. unfold Deduplicate.
  assert (forallb record_valid l = true) as ->.
  { apply forallb_forall. intros r Hr%list_elem_of_In. apply wf_record_valid. by eapply Forall_forall in Hl. }
  simpl. pose proof (dedup_loop (sortRecords l) (sortRecords_wf l Hl)
    (go_sort_sorted record_cmp l)) as Hd.
  destruct (foldl _ _ _).
  - eapply inventory_of_perm, Hd; [apply go_sort_perm|by apply sortRecords_wf].
  - destruct Hd as (x&y&Hx&Hy&?). unfold sortRecords in *. rewrite go_sort_elem_of in Hx, Hy. by exists x, y.
Qed.

(** The private encodings that [Deduplicate] hashes. *)
Definition hashed (l : list Record_) : list string := omap (λ r, canonicalConfiguration (configuration r) true) l.

(** Without a collision among them, equal identities are equal
    configurations. *)
Lemma identity_configuration l x y : Forall wf_record l → coll_free sha256 (hashed l) → x ∈ l → y ∈ l →
  record_identity x = record_identity y → configuration x = configuration y.
Proof.
  intros Hl Hfree Hx Hy Hid. rewrite Forall_forall in Hl.
  pose proof (wf_configuration _ (Hl x Hx)) as Wx. pose proof (wf_configuration _ (Hl y Hy)) as Wy.
  unfold record_identity, identity in Hid.
  destruct (Identity_of_wf _ Wx) as (lx&px&_&Hpx&Ex), (Identity_of_wf _ Wy) as (ly&py&_&Hpy&Ey).
  rewrite Ex, Ey in Hid. injection Hid as _ Hrev. apply Hfree in Hrev as <-; [|apply list_elem_of_omap; eauto..].
  rewrite <-(view_true (configuration x)), <-(view_true (configuration y)). by apply (canonical_inj true _ _ px).
Qed.
Lemma no_collision_no_conflict l : Forall wf_record l → coll_free sha256 (hashed l) → ¬ conflicting l.
Proof. intros Hl Hf (x&y&Hx&Hy&Hid&Hne). apply Hne. by eapply identity_configuration. Qed.

(** What the inventory of [l] is, told by configurations and by what the
    records say of them: every configuration of [l] once, in strictly
    increasing order of identity, related to exactly the sources and source
    records any record of [l] relates it to, each relationship once, under
    exactly the aliases these records give it. *)
Record merged (l out : list Record_) : Prop := {
  mg_sorted : StronglySorted (cmp_lt record_cmp) out;
  mg_distinct : NoDup (configuration <$> out);
  mg_configurations : ∀ c, c ∈ configuration <$> out ↔ c ∈ configuration <$> l;
  mg_once : ∀ r, r ∈ out → NoDup ((λ p, (source p, record p)) <$> provenance r);
  mg_related : ∀ r s i, r ∈ out →
    (∃ p, p ∈ provenance r ∧ source p = s ∧ record p = i) ↔
    (∃ y p, y ∈ l ∧ configuration y = configuration r ∧ p ∈ provenance y ∧ source p = s ∧ record p = i);
  mg_aliases : ∀ r s i a, r ∈ out →
    (∃ p, p ∈ provenance r ∧ source p = s ∧ record p = i ∧ a ∈ aliases p) ↔
    (∃ y p, y ∈ l ∧ configuration y = configuration r ∧ p ∈ provenance y ∧ source p = s ∧ record p = i ∧ a ∈ aliases p);
}.
Lemma class_configuration l out r : inventory_of l out → r ∈ out → ∀ y,
  y ∈ class (record_identity r) l ↔ y ∈ l ∧ configuration y = configuration r.
Proof.
  intros Hi Hr y. rewrite class_elem. destruct (inv_sound _ _ Hi r Hr) as (_&_&Hc&_). split; intros [Hy E]; (split; [done|]).
  - by apply Hc.
  - unfold record_identity. by rewrite E.
Qed.
Lemma sorted_distinct {A} (f : Record_ → A) out : StronglySorted (cmp_lt record_cmp) out →
  (∀ r q, f r = f q → record_identity r = record_identity q) → NoDup (f <$> out).
Proof.
  intros Hs Hf. induction Hs as [|r k Hk IH Hr]; [constructor|]. simpl. constructor; [|done].
  intros (q & E & Hq)%list_elem_of_fmap. rewrite Forall_forall in Hr. specialize (Hr q Hq).
  unfold cmp_lt, record_cmp, cmp_on in Hr. rewrite (Hf _ _ E) in Hr. by rewrite (cmp_refl Identity_Compare) in Hr.
Qed.
Lemma inventory_merged l out : Forall wf_record l → inventory_of l out → merged l out.
Proof.
  intros Hl Hi. pose proof (inv_sorted _ _ Hi) as Hs. pose proof (λ r, class_configuration l out r Hi) as Hclass.
  assert (∀ r (P : Provenance → Prop), r ∈ out → (∃ p, p ∈ (class (record_identity r) l ≫= provenance) ∧ P p) ↔
    ∃ y p, y ∈ l ∧ configuration y = configuration r ∧ p ∈ provenance y ∧ P p) as Hbind.
  { intros r P Hr. setoid_rewrite list_elem_of_bind. setoid_rewrite (Hclass r Hr). naive_solver. }
  assert (∀ r, r ∈ out → provenance r = mergeProvenance (class (record_identity r) l ≫= provenance) ∧
    Forall wf_provenance (class (record_identity r) l ≫= provenance)) as Hp.
  { intros r Hr. split; [by apply (inv_sound _ _ Hi)|by apply class_provenance_wf]. }
  split; [done| | | | |].
  - apply sorted_distinct; [done|]. unfold record_identity. by intros ?? ->.
  - intros c. rewrite !list_elem_of_fmap. split; intros (r & -> & Hr).
    + destruct (inv_sound _ _ Hi r Hr) as (_ & Hne & _). destruct (class (record_identity r) l) as [|y k] eqn:E; [done|].
      destruct (proj1 (Hclass r Hr y)) as [Hy Hc]; [rewrite E; by left|]. exists y. auto.
    + destruct (inv_complete _ _ Hi r Hr) as (q & Hq & Hid). exists q. split; [|done].
      by apply (inv_sound _ _ Hi q Hq).
  - intros r Hr. destruct (Hp r Hr) as [-> Hw]. by apply merge_once.
  - intros r s i Hr. rewrite <-(Hbind r (λ p, source p = s ∧ record p = i) Hr). destruct (Hp r Hr) as [-> Hw]. by apply merge_related.
  - intros r s i a Hr. rewrite <-(Hbind r (λ p, source p = s ∧ record p = i ∧ a ∈ aliases p) Hr). destruct (Hp r Hr) as [-> Hw].
    by apply merge_related_aliases.
Qed.

Lemma inventory_of_no_conflict l out : inventory_of l out → ¬ conflicting l.
Proof.
  intros Hi (x&y&Hx&Hy&Hid&Hne). destruct (inv_complete _ _ Hi x Hx) as (r&Hr&Hri).
  destruct (inv_sound _ _ Hi r Hr) as (_&_&Hc&_). apply Hne.
  rewrite (Hc x Hx), (Hc y Hy); [done|congruence|congruence].
Qed.

(** ** Snapshots per source *)

Record Snapshot := { snapshot_source : string; records : list Record_ }.
Abbreviation Set_ := (gmap string Snapshot).
(** The refresh failure codes of [Set.Replace]. *)
Inductive replace_error := InvalidSnapshot | EmptySnapshot.

Definition source_String (s : string) : string := if bool_decide (s = "") then "<invalid-source-id>" else s.
Definition Set_Replace (set : Set_) (snapshot : Snapshot) (allowEmpty : bool) : result replace_error Set_ :=
  if bool_decide (source_String (snapshot_source snapshot) = "<invalid-source-id>") then Err InvalidSnapshot
  else if bool_decide (records snapshot = []) && negb allowEmpty then Err EmptySnapshot
  else Ok (<[source_String (snapshot_source snapshot) := snapshot]> set).
Definition Set_Remove (set : Set_) (s : string) : Set_ := delete (source_String s) set.
(** Keys in [sort.Strings] order, then the records of each snapshot. *)
Definition Set_records (set : Set_) : list Record_ :=
  go_sort bytes_compare (map_to_list set).*1 ≫= λ k, default [] (records <$> set !! k).
Definition Set_Inventory (set : Set_) : result inventory_error (list Record_) := Deduplicate (Set_records set).

Lemma Set_records_elem set r : r ∈ Set_records set ↔ ∃ k s, set !! k = Some s ∧ r ∈ records s.
Proof.
  unfold Set_records. rewrite list_elem_of_bind. setoid_rewrite go_sort_elem_of. setoid_rewrite list_elem_of_fmap. split.
  - intros (k&Hr&([k' s]&Hk&Hin%elem_of_map_to_list)). simpl in *. subst k'. rewrite Hin in Hr. eauto.
  - intros (k&s&Hk&Hr). exists k. rewrite Hk. split; [done|]. exists (k, s). by rewrite elem_of_map_to_list.
Qed.

Definition wf_set (set : Set_) : Prop := ∀ k s, set !! k = Some s → Forall wf_record (records s).
Lemma wf_set_records set : wf_set set → Forall wf_record (Set_records set).
Proof.
  intros Hw. apply Forall_forall. intros r (k&s&Hk&Hr)%Set_records_elem. specialize (Hw k s Hk).
  rewrite Forall_forall in Hw. auto.
Qed.

(** ** Inventory theorems *)

(** C33: [Deduplicate] on constructed records whose private encodings do not collide under SHA-256 succeeds, and
    returns each of their configurations exactly once, in strictly increasing order of complete identity, related to
    exactly the sources and source records that some input record of that configuration names, each of these once and
    with exactly the union of the aliases given there: nothing is lost, invented or repeated.  Equal configurations
    never conflict. *)
Theorem deduplicate_correct l : Forall wf_record l → coll_free sha256 (hashed l) →
  ∃ out, Deduplicate l = Ok out ∧ merged l out.
Proof.
  intros Hl Hf. pose proof (Deduplicate_spec l Hl) as Hd. destruct (Deduplicate l) as [out|e].
  - exists out. split; [done|]. by apply inventory_merged.
  - by apply no_collision_no_conflict in Hd.
Qed.

(** The inventory does not depend on the order in which records arrive, although the code sorts with an
    unstable sort and merges provenance through a map. *)
Theorem deduplicate_order_independent l k out : Forall wf_record l → l ≡ₚ k →
  Deduplicate l = Ok out → Deduplicate k = Ok out.
Proof.
  intros Hl Hp Hd. assert (Forall wf_record k) as Hk by (by rewrite <-Hp).
  pose proof (Deduplicate_spec l Hl) as S1. pose proof (Deduplicate_spec k Hk) as S2. rewrite Hd in S1.
  apply (inventory_of_perm l k) in S1; [|done..]. destruct (Deduplicate k) as [out'|].
  - f_equal. by eapply inventory_of_unique.
  - by apply inventory_of_no_conflict in S1.
Qed.

(** A snapshot replacement that is refused leaves every source's last accepted records in place, one that is
    accepted changes exactly its own source, and the inventory holds an identity exactly when some source
    currently contributes it. *)
Theorem set_inventory_tracks_sources set snapshot allowEmpty : wf_set set → Forall wf_record (records snapshot) →
  let set' := match Set_Replace set snapshot allowEmpty with Ok s => s | Err _ => set end in
  (∀ k, k ≠ source_String (snapshot_source snapshot) → set' !! k = set !! k) ∧
  (records snapshot = [] → allowEmpty = false → set' = set) ∧
  ∀ out, Set_Inventory set' = Ok out → ∀ i,
    (∃ r, r ∈ out ∧ record_identity r = i) ↔
    (∃ k s y, set' !! k = Some s ∧ y ∈ records s ∧ record_identity y = i).
Proof.
  intros Hset Hsnap set'. assert (wf_set set' ∧ ∀ k, k ≠ source_String (snapshot_source snapshot) → set' !! k = set !! k)
    as [Hset' Hother].
  { unfold set', Set_Replace. case_bool_decide; [done|]. destruct (_ && _); [done|]. split.
    - intros k s [[<- <-]|[? ?]]%lookup_insert_Some; [done|by eapply Hset].
    - intros k Hk. by rewrite lookup_insert_ne. }
  split_and!; [done| |].
  - intros Hn ->. unfold set', Set_Replace. case_bool_decide; [done|]. by rewrite bool_decide_true.
  - intros out Hout i. pose proof (Deduplicate_spec _ (wf_set_records _ Hset')) as Hd.
    unfold Set_Inventory in Hout. rewrite Hout in Hd. split.
    + intros (r&Hr&<-). destruct (inv_sound _ _ Hd r Hr) as (_&Hne&_).
      destruct (class (record_identity r) _) as [|y c] eqn:E; [done|].
      assert (y ∈ class (record_identity r) (Set_records set')) as [Hy Hyr]%class_elem by (rewrite E; by left).
      apply Set_records_elem in Hy as (k&s&?&?). by exists k, s, y.
    + intros (k&s&y&Hk&Hy&<-). apply (inv_complete _ _ Hd). apply Set_records_elem. eauto.
Qed.
End inventory.

(** ** Concrete inventories *)

Module InventorySample.
#[local] Existing Instance toy_digest.
Definition prov (r : string) (l : list string) : Provenance := {| source := "src"; record := r; aliases := l |}.
Definition rec (uuid r : string) (l : list string) : Record_ :=
  {| configuration := Sample.vless uuid; provenance := [prov r l] |}.
Lemma rec_wf uuid r l : uuid = Sample.uuid1 ∨ uuid = Sample.uuid2 → wf_provenance (prov r l) →
  wf_record (rec uuid r l).
Proof.
  intros Hu Hp. assert (Forall wf_provenance [prov r l]) as Hall by (by constructor).
  assert (mergeProvenance [prov r l] = [prov r l]) as Hm.
  { unfold mergeProvenance, merge_map. simpl. unfold merge_step. rewrite lookup_empty.
    rewrite insert_empty, map_to_list_singleton. done. }
  split; [by apply made_wf, Sample.vless_made|done|done|done].
Qed.
Definition l : list Record_ := [rec Sample.uuid1 "a" ["x"]; rec Sample.uuid2 "b" []; rec Sample.uuid1 "c" ["y"]].
Lemma prov_wf r a : r ∈ ["a"; "b"; "c"] → a ∈ [["x"]; []; ["y"]] → wf_provenance (prov r a).
Proof.
  intros Hr Ha. assert (∀ s, s ∈ ["src"; "a"; "b"; "c"] → safe_id s) as Hs.
  { apply Forall_forall. by repeat constructor. }
  split; simpl.
  - apply Hs. by left.
  - apply Hs. by right.
  - revert a Ha. apply Forall_forall. by repeat constructor.
  - revert a Ha. apply Forall_forall. by repeat constructor.
Qed.
Lemma l_wf : Forall wf_record l.
Proof.
  unfold l. rewrite !Forall_cons. split_and!; [..|done]; (apply rec_wf; [auto|apply prov_wf; set_solver]).
Qed.
End InventorySample.

Lemma deduplicate_correct_witness :
  let out := [{| configuration := Sample.vless Sample.uuid1;
                 provenance := [InventorySample.prov "a" ["x"]; InventorySample.prov "c" ["y"]] |};
              {| configuration := Sample.vless Sample.uuid2; provenance := [InventorySample.prov "b" []] |}] in
  @Deduplicate toy_digest InventorySample.l = Ok out ∧ @merged toy_digest InventorySample.l out.
Proof.
  destruct (@deduplicate_correct toy_digest InventorySample.l InventorySample.l_wf) as (out & Hd & Hm).
  - apply (bool_decide_unpack _). vm_compute. exact I.
  - assert (@Deduplicate toy_digest InventorySample.l = Ok _) as Hv by (vm_compute; reflexivity).
    rewrite Hv in Hd. injection Hd as <-. split; [exact Hv|exact Hm].
Defined.

Lemma deduplicate_order_independent_witness :
  let a := InventorySample.rec Sample.uuid1 "a" ["x"] in
  let c := InventorySample.rec Sample.uuid1 "c" ["y"] in
  @Deduplicate toy_digest [c; a] =
  Ok [{| configuration := Sample.vless Sample.uuid1;
         provenance := [InventorySample.prov "a" ["x"]; InventorySample.prov "c" ["y"]] |}].
Proof.
  intros a c. apply (@deduplicate_order_independent toy_digest [a; c]).
  - rewrite !Forall_cons. split_and!; [..|done];
      (apply InventorySample.rec_wf; [auto|apply InventorySample.prov_wf; set_solver]).
  - apply Permutation_swap.
  - vm_compute. reflexivity.
Defined.

Lemma set_inventory_tracks_sources_witness :
  let snapshot := {| snapshot_source := "src"; records := InventorySample.l |} in
  let set' := match Set_Replace ∅ snapshot false with Ok s => s | Err _ => ∅ end in
  set' !! "src" = Some snapshot ∧ (∀ k, k ≠ "src" → set' !! k = None).
Proof.
  split; [reflexivity|].
  destruct (@set_inventory_tracks_sources toy_digest ∅
    {| snapshot_source := "src"; records := InventorySample.l |} false) as (Hk&_&_).
  - intros k s E. by rewrite lookup_empty in E.
  - exact InventorySample.l_wf.
  - intros k Hne. specialize (Hk k Hne). by rewrite lookup_empty in Hk.
Defined.
