(* ===== verification/Text.v ===== *)
(** * Text and base64 (strings, bytes, encoding/base64)

    The functions of the Go standard library that the source parsers use on
    text: trimming, cutting, searching, replacing, case folding, and the four
    base64 encodings.  A Go string and a [[]byte] are a [string] of bytes. *)
From S2P Require Import Prelude Order Bytes Encoding Netip Endpoint.
From Stdlib Require Import Ascii.
From Stdlib Require String.

(** ** Substrings *)

Definition drop_str (n : nat) (s : string) : string := of_chars (drop n (chars s)).
Definition take_first (n : nat) (s : string) : string := of_chars (take n (chars s)).
(** [strings.TrimPrefix]. *)
Definition trim_prefix (p s : string) : string := if has_prefix p s then drop_str (String.length p) s else s.
(** [strings.Index]: the first position of a substring, [None] for -1. *)
Fixpoint index_from (n : nat) (sub : string) (l : list ascii) : option nat :=
  if has_prefix sub (of_chars l) then Some n
  else match l with [] => None | _ :: l' => index_from (S n) sub l' end.
Definition index (s sub : string) : option nat := index_from 0 sub (chars s).
Definition contains (s sub : string) : bool := bool_decide (index s sub ≠ None).
(** The first position of a byte that satisfies [p] ([strings.IndexAny] with an
    ASCII set) and the last position of a byte ([strings.LastIndex]). *)
Fixpoint find_from (n : nat) (p : ascii → bool) (l : list ascii) : option nat :=
  match l with [] => None | c :: l' => if p c then Some n else find_from (S n) p l' end.
Definition index_any (s set : string) : option nat := find_from 0 (λ c, char_elem c set) (chars s).
Definition last_index (s : string) (c : ascii) : option nat :=
  (λ i, String.length s - 1 - i) <$> find_from 0 (Ascii.eqb c) (reverse (chars s)).
(** [strings.Cut] at a one-byte separator. *)
Fixpoint cut_chars (sep : ascii) (acc l : list ascii) : option (list ascii * list ascii) :=
  match l with
  | [] => None
  | c :: l' => if Ascii.eqb c sep then Some (reverse acc, l') else cut_chars sep (c :: acc) l'
  end.
Definition cut (sep : ascii) (s : string) : option (string * string) :=
  '(before, after) ← cut_chars sep [] (chars s); Some (of_chars before, of_chars after).
(** [strings.ReplaceAll] of one byte by another. *)
Definition replace_byte (old new : ascii) (s : string) : string :=
  of_chars ((λ c, if Ascii.eqb c old then new else c) <$> chars s).
(** [strings.Join]. *)
Fixpoint join (sep : string) (l : list string) : string :=
  match l with [] => "" | [x] => x | x :: l' => x +:+ sep +:+ join sep l' end.

(** ** White space (strings.TrimSpace, bytes.TrimSpace) *)

Fixpoint trim_with (spellings : list string) (fuel : nat) (s : string) : string :=
  match fuel with
  | O => s
  | S f => match List.find (λ sp, has_prefix sp s) spellings with
           | Some sp => trim_with spellings f (drop_str (String.length sp) s)
           | None => s
           end
  end.
Definition reverse_str (s : string) : string := of_chars (reverse (chars s)).
(** Every turn drops a byte, so the length of the text is enough fuel. *)
Definition trim_space (s : string) : string :=
  let left := trim_with Address.space_spellings (String.length s) s in
  reverse_str (trim_with (reverse_str <$> Address.space_spellings) (String.length s) (reverse_str left)).

(** [strings.Fields]. *)
Fixpoint fields_from (fuel : nat) (cur : list ascii) (s : string) : list string :=
  let flush := match cur with [] => [] | _ => [of_chars (reverse cur)] end in
  match fuel with
  | O => flush
  | S f =>
      match s with
      | EmptyString => flush
      | String c s' =>
          match List.find (λ sp, has_prefix sp s) Address.space_spellings with
          | Some sp => flush ++ fields_from f [] (drop_str (String.length sp) s)
          | None => fields_from f (c :: cur) s'
          end
      end
  end.
Definition Fields (s : string) : list string := fields_from (S (String.length s)) [] s.

(** ** Case folding ([strings.EqualFold])

    Only U+017F and U+212A fold to an ASCII letter, so two texts of which one
    is ASCII are equal under folding exactly when these normal forms agree. *)
Fixpoint fold_case (s : string) : string :=
  match s with
  | String c1 (String c2 s2 as s1) =>
      if (code c1 =? 197)%Z && (code c2 =? 191)%Z then String "s" (fold_case s2)
      else match s2 with
           | String c3 s3 =>
               if (code c1 =? 226)%Z && (code c2 =? 132)%Z && (code c3 =? 170)%Z
               then String "k" (fold_case s3)
               else String (lower_char c1) (fold_case s1)
           | EmptyString => String (lower_char c1) (fold_case s1)
           end
  | String c1 EmptyString => String (lower_char c1) ""
  | EmptyString => ""
  end.
Definition equal_fold (s t : string) : bool := bool_decide (fold_case s = fold_case t).

(** ** base64 (encoding/base64)

    A decoder skips line ends.  A padded encoding wants groups of four with at
    most two padding bytes at the end; a raw one has no padding and no final
    group of one symbol.  Left-over bits are not checked. *)
Definition base64std_alphabet : string := "ABCDEFGHIJKLMNOPQRSTUVWXYZabcdefghijklmnopqrstuvwxyz0123456789+/".
Record Base64 := { alphabet64 : string; padded : bool }.
Definition StdEncoding : Base64 := {| alphabet64 := base64std_alphabet; padded := true |}.
Definition RawStdEncoding : Base64 := {| alphabet64 := base64std_alphabet; padded := false |}.
Definition URLEncoding : Base64 := {| alphabet64 := base64url_alphabet; padded := true |}.
Definition RawURLEncoding : Base64 := {| alphabet64 := base64url_alphabet; padded := false |}.

(** The symbols without the padding at the end. *)
Definition strip_padding (l : list ascii) : list ascii :=
  match reverse l with
  | "="%char :: "="%char :: r => reverse r
  | "="%char :: r => reverse r
  | _ => l
  end.
Definition decode_body (alphabet : string) (l : list ascii) : option string :=
  b ← decode_symbols 6 alphabet l;
  if bool_decide (length l mod 4 = 1) then None else Some (bytes_of_bits (length l * 6 / 8) b).
Definition base64_decode (e : Base64) (s : string) : option string :=
  let l := strip_newlines s in
  if padded e then
    if bool_decide (length l mod 4 = 0) then decode_body (alphabet64 e) (strip_padding l) else None
  else decode_body (alphabet64 e) l.
(** [Encoding.DecodedLen]. *)
Definition decoded_len (e : Base64) (n : Z) : Z := if padded e then (n / 4 * 3)%Z else (n * 6 / 8)%Z.
Definition base64_encode (e : Base64) (s : string) : string :=
  let body := encode_symbols 6 (alphabet64 e) s in
  if padded e then
    body +:+ match String.length body mod 4 with 2 => "==" | 3 => "=" | _ => "" end
  else body.

(** ** Go maps with string keys

    The maps of the parsers are small and are evaluated on concrete texts, so
    they are association lists with one entry per key, in the order the keys
    were first set. *)
Record gomap (A : Type) := GoMap { entries : list (string * A) }.
Arguments GoMap {A} _.
Arguments entries {A} _.
#[global] Instance gomap_eq_dec {A} `{EqDecision A} : EqDecision (gomap A).
Proof. solve_decision. Defined.
Fixpoint find_key {A} (k : string) (l : list (string * A)) : option A :=
  match l with [] => None | (k', v) :: l' => if String.eqb k k' then Some v else find_key k l' end.
Fixpoint set_key {A} (k : string) (v : A) (l : list (string * A)) : list (string * A) :=
  match l with
  | [] => [(k, v)]
  | (k', v') :: l' => if String.eqb k k' then (k, v) :: l' else (k', v') :: set_key k v l'
  end.
#[global] Instance gomap_empty {A} : Empty (gomap A) := GoMap [].
#[global] Instance gomap_lookup {A} : Lookup string A (gomap A) := λ k m, find_key k (entries m).
#[global] Instance gomap_insert {A} : Insert string A (gomap A) := λ k v m, GoMap (set_key k v (entries m)).
#[global] Instance gomap_delete {A} : Delete string (gomap A) := λ k m,
  GoMap (List.filter (λ kv, negb (String.eqb k kv.1)) (entries m)).

(** Go visits the entries of a map in no particular order.  [range] is the
    order of one execution; theorems hold for every such order. *)
Class MapOrder := {
  range {A} (m : gomap A) : list (string * A);
  range_perm {A} (m : gomap A) : range m ≡ₚ entries m;
}.
#[global] Program Instance map_order : MapOrder := {| range A m := entries m |}.
Next Obligation. done. Qed.

Lemma gomap_lookup_empty {A} k : (∅ : gomap A) !! k = None.
Proof. done. Qed.
Lemma gomap_lookup_insert {A} k k' (v : A) m :
  (<[k := v]> m : gomap A) !! k' = if bool_decide (k = k') then Some v else m !! k'.
Proof.
  destruct m as [l]. unfold lookup, insert, gomap_lookup, gomap_insert. simpl. induction l as [|[x y] l IH]; simpl.
  - destruct (String.eqb_spec k' k); case_bool_decide; congruence.
  - destruct (String.eqb_spec k x); simpl; destruct (String.eqb_spec k' x); destruct (String.eqb_spec k' k);
      rewrite ?IH; repeat case_bool_decide; congruence.
Qed.
Lemma gomap_lookup_delete {A} k k' (m : gomap A) :
  (delete k m : gomap A) !! k' = if bool_decide (k = k') then None else m !! k'.
Proof.
  destruct m as [l]. unfold lookup, delete, gomap_lookup, gomap_delete. simpl. induction l as [|[x y] l IH]; simpl.
  - by case_bool_decide.
  - destruct (String.eqb_spec k x); simpl; destruct (String.eqb_spec k' x); rewrite ?IH; repeat case_bool_decide; congruence.
Qed.

(** ** Facts *)

Lemma drop_str_app p s : drop_str (String.length p) (p +:+ s) = s.
Proof. unfold drop_str. rewrite chars_app, <-length_chars, drop_app_length. apply of_chars_chars. Qed.
Lemma has_prefix_app p s : has_prefix p (p +:+ s) = true.
Proof. induction p as [|c p IH]; [done|]. simpl. by rewrite Ascii.eqb_refl. Qed.
Lemma trim_prefix_app p s : trim_prefix p (p +:+ s) = s.
Proof. unfold trim_prefix. by rewrite has_prefix_app, drop_str_app. Qed.
Lemma cut_chars_Some sep acc l a b : cut_chars sep acc l = Some (a, b) →
  ∃ m, a = reverse acc ++ m ∧ l = m ++ sep :: b ∧ sep ∉ m.
Proof.
  revert acc. induction l as [|c l IH]; intros acc; simpl; [done|]. destruct (Ascii.eqb_spec c sep) as [-> |Hc].
  - intros [= <- <-]. exists []. rewrite app_nil_r. split_and!; [done|done|apply not_elem_of_nil].
  - intros (m & -> & -> & Hm)%IH. exists (c :: m). rewrite reverse_cons, <-app_assoc. split_and!; [done|done|].
    by apply not_elem_of_cons.
Qed.
Lemma cut_Some sep s a b : cut sep s = Some (a, b) → s = a +:+ String sep b ∧ sep ∉ chars a.
Proof.
  unfold cut. destruct (cut_chars sep [] (chars s)) as [[x y]|] eqn:E; [|done]. intros [= <- <-].
  apply cut_chars_Some in E as (m & -> & Hs & Hm). rewrite reverse_nil, app_nil_l, chars_of_chars. split; [|done].
  rewrite <-(of_chars_chars s), Hs, of_chars_app. done.
Qed.
Lemma cut_app sep a b : ∃ x y, cut sep (a +:+ String sep b) = Some (x, y).
Proof.
  unfold cut. rewrite chars_app. simpl. generalize (@nil ascii) as acc. generalize (chars a) as l.
  induction l as [|c l IH]; intros acc; simpl; [|destruct (Ascii.eqb c sep)]; rewrite ?Ascii.eqb_refl; simpl; eauto.
Qed.

Example trim_space_example : trim_space (String (byte_of 9) "  a b " +:+ of_chars [byte_of 194; byte_of 160]) = "a b".
Proof. vm_compute. reflexivity. Qed.
Example base64_example :
  base64_decode StdEncoding "YTpiQGg6MQ==" = Some "a:b@h:1" ∧ base64_decode StdEncoding "YTpiQGg6MQ" = None ∧
  base64_decode RawURLEncoding "YTpiQGg6MQ" = Some "a:b@h:1" ∧ base64_encode StdEncoding "a:b@h:1" = "YTpiQGg6MQ==".
Proof. vm_compute. repeat split. Qed.
Example cut_example : cut "@" "u:p@h" = Some ("u:p", "h") ∧ last_index "a:b:c" ":" = Some 3 ∧
  index "vless://x" "://" = Some 5.
Proof. vm_compute. repeat split. Qed.
