(* ===== verification/Json.v ===== *)
(** * JSON (encoding/json)

    What the source parsers use of encoding/json, on the text itself: the
    grammar, the decoding of one level into raw members
    ([json.RawMessage]), string unquoting, decoding into typed targets, and
    the marshalling of a map of raw messages.

    A [RawMessage] is the text of a value.  A decoder of a target type takes
    the value the target holds and the text and returns the new value, or
    [None] for an error; [null] leaves a target as it is. *)
From S2P Require Import Prelude Order Bytes Encoding Netip Endpoint Text.
From Stdlib Require Import Ascii.
From Stdlib Require String.

Abbreviation RawMessage := string (only parsing).

(** One level of a JSON value; members and elements are raw text. *)
Inductive jvalue :=
| JNull
| JBool (b : bool)
| JNumber (literal : string)
| JString (s : string)
| JArray (items : list RawMessage)
| JObject (members : list (string * RawMessage)).

(** ** Scanning *)

Definition dquote : ascii := byte_of 34.
Definition is_ws (c : ascii) : bool := bool_decide (code c ∈ [32; 9; 10; 13]%Z).
Fixpoint skip_ws (l : list ascii) : list ascii :=
  match l with c :: l' => if is_ws c then skip_ws l' else l | [] => [] end.
Definition is_hex (c : ascii) : bool := match hex_digit c with Some _ => true | None => false end.

(** The content of a string after its opening quote, and the text after its
    closing quote. *)
Fixpoint scan_string (acc l : list ascii) : option (list ascii * list ascii) :=
  match l with
  | [] => None
  | c :: l1 =>
      if Ascii.eqb c dquote then Some (reverse acc, l1)
      else if (code c <? 32)%Z then None
      else if Ascii.eqb c "\" then
        match l1 with
        | [] => None
        | e :: l2 =>
            if Ascii.eqb e "u" then
              match l2 with
              | h1 :: h2 :: h3 :: h4 :: l3 =>
                  if is_hex h1 && is_hex h2 && is_hex h3 && is_hex h4
                  then scan_string (h4 :: h3 :: h2 :: h1 :: e :: c :: acc) l3 else None
              | _ => None
              end
            else if (Ascii.eqb e dquote || char_elem e "\/bfnrt") then scan_string (e :: c :: acc) l2 else None
        end
      else scan_string (c :: acc) l1
  end.

Fixpoint scan_digits (acc l : list ascii) : list ascii * list ascii :=
  match l with
  | c :: l' => if is_digit c then scan_digits (c :: acc) l' else (acc, l)
  | [] => (acc, [])
  end.
(** One or more digits; the accumulator is reversed. *)
Definition scan_digits1 (acc l : list ascii) : option (list ascii * list ascii) :=
  match l with c :: l' => if is_digit c then Some (scan_digits (c :: acc) l') else None | [] => None end.
Definition scan_int (acc l : list ascii) : option (list ascii * list ascii) :=
  match l with
  | c :: l' => if Ascii.eqb c "0" then Some (c :: acc, l') else scan_digits1 acc l
  | [] => None
  end.
Definition scan_frac (acc l : list ascii) : option (list ascii * list ascii) :=
  match l with c :: l' => if Ascii.eqb c "." then scan_digits1 (c :: acc) l' else Some (acc, l) | [] => Some (acc, l) end.
Definition scan_exp (acc l : list ascii) : option (list ascii * list ascii) :=
  match l with
  | c :: l' =>
      if Ascii.eqb c "e" || Ascii.eqb c "E" then
        match l' with
        | s :: l'' => if Ascii.eqb s "+" || Ascii.eqb s "-" then scan_digits1 (s :: c :: acc) l'' else scan_digits1 (c :: acc) l'
        | [] => None
        end
      else Some (acc, l)
  | [] => Some (acc, l)
  end.
Definition scan_number (l : list ascii) : option (list ascii * list ascii) :=
  '(acc, l) ← match l with
              | c :: l' => if Ascii.eqb c "-" then scan_int [c] l' else scan_int [] l
              | [] => None
              end;
  '(acc, l) ← scan_frac acc l;
  '(acc, l) ← scan_exp acc l;
  Some (reverse acc, l).

(** ** String contents *)

(** The number of bytes of the UTF-8 character at the front; 0 when the bytes
    are not valid UTF-8. *)
Definition rune_len (l : list ascii) : nat :=
  match l with
  | a :: l1 =>
      if is_ascii a then 1 else
      match l1 with
      | b :: l2 =>
          if char_in 194 223 a then if cont b then 2 else 0 else
          match l2 with
          | c :: l3 =>
              if char_in 224 239 a then
                let lo := if (code a =? 224)%Z then 160%Z else 128%Z in
                let hi := if (code a =? 237)%Z then 159%Z else 191%Z in
                if char_in lo hi b && cont c then 3 else 0
              else match l3 with
                   | d :: _ =>
                       let lo := if (code a =? 240)%Z then 144%Z else 128%Z in
                       let hi := if (code a =? 244)%Z then 143%Z else 191%Z in
                       if char_in 240 244 a && char_in lo hi b && cont c && cont d then 4 else 0
                   | [] => 0
                   end
          | [] => 0
          end
      | [] => 0
      end
  | [] => 0
  end.

(** [utf8.AppendRune]. *)
Definition encode_rune (r : Z) : list ascii :=
  byte_of <$>
  (if r <? 128 then [r]
   else if r <? 2048 then [192 + r / 64; 128 + r `mod` 64]
   else if r <? 65536 then [224 + r / 4096; 128 + (r / 64) `mod` 64; 128 + r `mod` 64]
   else [240 + r / 262144; 128 + (r / 4096) `mod` 64; 128 + (r / 64) `mod` 64; 128 + r `mod` 64])%Z.
Definition replacement : list ascii := encode_rune 65533.

(** [getu4]: the value of [\uXXXX] at the front. *)
Definition getu4 (l : list ascii) : option Z :=
  match l with
  | b :: u :: h1 :: h2 :: h3 :: h4 :: _ =>
      if Ascii.eqb b "\" && Ascii.eqb u "u" then
        x1 ← hex_digit h1; x2 ← hex_digit h2; x3 ← hex_digit h3; x4 ← hex_digit h4;
        Some (((x1 * 16 + x2) * 16 + x3) * 16 + x4)%Z
      else None
  | _ => None
  end.
Definition escape_byte (e : ascii) : ascii :=
  if Ascii.eqb e "b" then byte_of 8 else if Ascii.eqb e "f" then byte_of 12 else if Ascii.eqb e "n" then byte_of 10
  else if Ascii.eqb e "r" then byte_of 13 else if Ascii.eqb e "t" then byte_of 9 else e.

(** [unquote] of scanned content: escapes are resolved, a surrogate without
    its pair and every byte that is not UTF-8 become U+FFFD.  [copy] bytes of
    a character and [skip] bytes of an escape are still to be passed. *)
Fixpoint unquote (copy skip : nat) (l : list ascii) : list ascii :=
  match l with
  | [] => []
  | c :: l' =>
      match skip, copy with
      | S k, _ => unquote 0 k l'
      | O, S k => c :: unquote k 0 l'
      | O, O =>
          if Ascii.eqb c "\" then
            match getu4 l with
            | Some r =>
                if (55296 <=? r)%Z && (r <? 57344)%Z then
                  match getu4 (drop 6 l) with
                  | Some r2 =>
                      if (r <? 56320)%Z && (56320 <=? r2)%Z && (r2 <? 57344)%Z
                      then encode_rune (65536 + (r - 55296) * 1024 + (r2 - 56320)) ++ unquote 0 11 l'
                      else replacement ++ unquote 0 5 l'
                  | None => replacement ++ unquote 0 5 l'
                  end
                else encode_rune r ++ unquote 0 5 l'
            | None => match l' with e :: _ => escape_byte e :: unquote 0 1 l' | [] => [] end
            end
          else match rune_len l with
               | O => replacement ++ unquote 0 0 l'
               | S k => c :: unquote k 0 l'
               end
      end
  end.
Definition unquote_string (l : list ascii) : string := of_chars (unquote 0 0 l).

(** ** One level of a value *)

(** The text of [l] before its suffix [rest]. *)
Definition between (l rest : list ascii) : string := of_chars (take (length l - length rest) l).

Definition literal (word : string) (v : jvalue) (l : list ascii) : option (jvalue * list ascii) :=
  if has_prefix word (of_chars l) then Some (v, drop (String.length word) l) else None.

(** [value] wants no white space in front; [elements] starts after ['['] or a
    comma, [members] after ['{'] or a comma. *)
Fixpoint value (fuel : nat) (l : list ascii) : option (jvalue * list ascii) :=
  match fuel with
  | O => None
  | S f =>
      match l with
      | [] => None
      | c :: l' =>
          if Ascii.eqb c "[" then
            match skip_ws l' with
            | d :: r => if Ascii.eqb d "]" then Some (JArray [], r)
                        else '(items, r) ← elements f (d :: r); Some (JArray items, r)
            | [] => None
            end
          else if Ascii.eqb c "{" then
            match skip_ws l' with
            | d :: r => if Ascii.eqb d "}" then Some (JObject [], r)
                        else '(ms, r) ← members f (d :: r); Some (JObject ms, r)
            | [] => None
            end
          else if Ascii.eqb c dquote then
            '(content, r) ← scan_string [] l'; Some (JString (unquote_string content), r)
          else if Ascii.eqb c "n" then literal "null" JNull l
          else if Ascii.eqb c "t" then literal "true" (JBool true) l
          else if Ascii.eqb c "f" then literal "false" (JBool false) l
          else '(lit, r) ← scan_number l; Some (JNumber (of_chars lit), r)
      end
  end
with elements (fuel : nat) (l : list ascii) : option (list RawMessage * list ascii) :=
  match fuel with
  | O => None
  | S f =>
      let l := skip_ws l in
      '(_, r) ← value f l;
      match skip_ws r with
      | d :: r' =>
          if Ascii.eqb d "," then '(items, r'') ← elements f r'; Some (between l r :: items, r'')
          else if Ascii.eqb d "]" then Some ([between l r], r') else None
      | [] => None
      end
  end
with members (fuel : nat) (l : list ascii) : option (list (string * RawMessage) * list ascii) :=
  match fuel with
  | O => None
  | S f =>
      match skip_ws l with
      | q :: l1 =>
          if Ascii.eqb q dquote then
            '(key, r1) ← scan_string [] l1;
            match skip_ws r1 with
            | colon :: r2 =>
                if Ascii.eqb colon ":" then
                  let l2 := skip_ws r2 in
                  '(_, r) ← value f l2;
                  match skip_ws r with
                  | d :: r' =>
                      let m := (unquote_string key, between l2 r) in
                      if Ascii.eqb d "," then '(ms, r'') ← members f r'; Some (m :: ms, r'')
                      else if Ascii.eqb d "}" then Some ([m], r') else None
                  | [] => None
                  end
                else None
            | [] => None
            end
          else None
      | [] => None
      end
  end.
(** Every call but the first of an array or object consumes a byte, so twice
    the length is enough fuel ([value_fuel]). *)
Definition decode (raw : RawMessage) : option jvalue :=
  let l := skip_ws (chars raw) in
  '(v, r) ← value (2 * length l + 2) l;
  match skip_ws r with [] => Some v | _ => None end.

(** ** Decoding into typed targets ([json.Unmarshal]) *)

Abbreviation decoder A := (A → RawMessage → option A).

Definition dec_string : decoder string := λ old raw,
  match decode raw with Some JNull => Some old | Some (JString s) => Some s | _ => None end.
Definition dec_bool : decoder bool := λ old raw,
  match decode raw with Some JNull => Some old | Some (JBool b) => Some b | _ => None end.
(** An int target takes an integer literal that fits 64 bits. *)
Definition dec_int : decoder Z := λ old raw,
  match decode raw with Some JNull => Some old | Some (JNumber lit) => atoi lit | _ => None end.
(** [json.Number]: a number, or a string that is one. *)
Definition valid_number (s : string) : bool :=
  match scan_number (chars s) with Some (_, []) => true | _ => false end.
Definition dec_number : decoder string := λ old raw,
  match decode raw with
  | Some JNull => Some old
  | Some (JNumber lit) => Some lit
  | Some (JString s) => if valid_number s then Some s else None
  | _ => None
  end.
(** A RawMessage target keeps the text of a member or element, null included. *)
Definition dec_raw : decoder RawMessage := λ _ raw, Some raw.

(** A slice target: [null] makes it nil, element [i] is decoded over the
    element the target already holds there. *)
Fixpoint dec_items {A} (d : decoder A) (zero : A) (old : list A) (items : list RawMessage) : option (list A) :=
  match items with
  | [] => Some []
  | raw :: rest =>
      x ← d (default zero (head old)) raw;
      xs ← dec_items d zero (tail old) rest;
      Some (x :: xs)
  end.
Definition dec_slice {A} (d : decoder A) (zero : A) : decoder (list A) := λ old raw,
  match decode raw with
  | Some JNull => Some []
  | Some (JArray items) => dec_items d zero old items
  | _ => None
  end.
(** A map target with string keys: the last of equal members wins. *)
Fixpoint dec_members {A} (d : decoder A) (zero : A) (m : gomap A) (ms : list (string * RawMessage))
    : option (gomap A) :=
  match ms with
  | [] => Some m
  | (k, raw) :: rest => x ← d zero raw; dec_members d zero (<[k := x]> m) rest
  end.
Definition dec_map {A} (d : decoder A) (zero : A) : decoder (gomap A) := λ old raw,
  match decode raw with
  | Some JNull => Some ∅
  | Some (JObject ms) => dec_members d zero old ms
  | _ => None
  end.
(** A struct target: a member sets the field of exactly its name, or the first
    field whose name is equal to it under case folding; other members are
    skipped and [null] sets nothing.  [names] are the fields of the struct;
    [member] is what the members leave in one of them. *)
Definition struct_members (raw : RawMessage) : option (list (string * RawMessage)) :=
  match decode raw with Some JNull => Some [] | Some (JObject ms) => Some ms | _ => None end.
Definition resolve (names : list string) (key : string) : option string :=
  if bool_decide (key ∈ names) then Some key else List.find (λ n, equal_fold n key) names.
Fixpoint member {A} (names : list string) (name : string) (d : decoder A) (v : A) (ms : list (string * RawMessage))
    : option A :=
  match ms with
  | [] => Some v
  | (k, raw) :: rest =>
      v' ← (if bool_decide (resolve names k = Some name) then d v raw else Some v);
      member names name d v' rest
  end.

(** The targets of the parsers: [map[string]json.RawMessage],
    [[]json.RawMessage], [[]string] and [map[string]string], each declared
    just before it is decoded into. *)
Definition unmarshal_object (raw : RawMessage) : option (gomap RawMessage) := dec_map dec_raw "" ∅ raw.
Definition unmarshal_array (raw : RawMessage) : option (list RawMessage) := dec_slice dec_raw "" [] raw.
Definition unmarshal_string (raw : RawMessage) : option string := dec_string "" raw.
Definition unmarshal_strings (raw : RawMessage) : option (list string) := dec_slice dec_string "" [] raw.

(** ** Marshalling ([json.Marshal]) *)

Definition hex2 (z : Z) : list ascii := [hex_symbol (z / 16); hex_symbol (z `mod` 16)].
(** U+2028 and U+2029 in UTF-8. *)
Definition line_separator (l : list ascii) : option ascii :=
  match l with
  | a :: b :: c :: _ =>
      if (code a =? 226)%Z && (code b =? 128)%Z && ((code c =? 168)%Z || (code c =? 169)%Z)
      then Some (hex_symbol (code c - 160)) else None
  | _ => None
  end.
Definition html_special (c : ascii) : bool := char_elem c "<>&".
(** [appendString] with HTML escaping; counters as in [unquote]. *)
Fixpoint quote_chars (copy skip : nat) (l : list ascii) : list ascii :=
  match l with
  | [] => []
  | c :: l' =>
      match skip, copy with
      | S k, _ => quote_chars 0 k l'
      | O, S k => c :: quote_chars k 0 l'
      | O, O =>
          if is_ascii c then
            if Ascii.eqb c "\" || Ascii.eqb c dquote then "\"%char :: c :: quote_chars 0 0 l'
            else if (code c =? 8)%Z then chars "\b" ++ quote_chars 0 0 l'
            else if (code c =? 12)%Z then chars "\f" ++ quote_chars 0 0 l'
            else if (code c =? 10)%Z then chars "\n" ++ quote_chars 0 0 l'
            else if (code c =? 13)%Z then chars "\r" ++ quote_chars 0 0 l'
            else if (code c =? 9)%Z then chars "\t" ++ quote_chars 0 0 l'
            else if (code c <? 32)%Z || html_special c then chars "\u00" ++ hex2 (code c) ++ quote_chars 0 0 l'
            else c :: quote_chars 0 0 l'
          else match line_separator l with
               | Some d => chars "\u202" ++ d :: quote_chars 0 2 l'
               | None => match rune_len l with
                         | O => chars "\ufffd" ++ quote_chars 0 0 l'
                         | S k => c :: quote_chars k 0 l'
                         end
               end
      end
  end.
Definition quoted (s : string) : string := of_chars (dquote :: quote_chars 0 0 (chars s) ++ [dquote]).

(** [appendCompact] with HTML escaping, on the text of a value: white space
    outside strings goes away. *)
Fixpoint compact_chars (in_string escaped : bool) (skip : nat) (l : list ascii) : list ascii :=
  match l with
  | [] => []
  | c :: l' =>
      match skip with
      | S k => compact_chars in_string escaped k l'
      | O =>
          if html_special c then chars "\u00" ++ hex2 (code c) ++ compact_chars in_string false 0 l'
          else match line_separator l with
               | Some d => chars "\u202" ++ d :: compact_chars in_string false 2 l'
               | None =>
                   if in_string then
                     if escaped then c :: compact_chars true false 0 l'
                     else if Ascii.eqb c "\" then c :: compact_chars true true 0 l'
                     else if Ascii.eqb c dquote then c :: compact_chars false false 0 l'
                     else c :: compact_chars true false 0 l'
                   else if is_ws c then compact_chars false false 0 l'
                   else c :: compact_chars (Ascii.eqb c dquote) false 0 l'
               end
      end
  end.
Definition compact (raw : RawMessage) : string := of_chars (compact_chars false false 0 (chars raw)).

Definition marshal_bool (b : bool) : string := if b then "true" else "false".
(** A map is written in the order of its keys. *)
Definition marshal_object (m : gomap RawMessage) : RawMessage :=
  let member k := quoted k +:+ ":" +:+ compact (default "null" (m !! k)) in
  "{" +:+ join "," (member <$> go_sort bytes_compare (entries m).*1) +:+ "}".


(** Test texts are written with single quotes. *)
Definition json_text (s : string) : string := replace_byte "'" dquote s.
Example decode_object : decode (json_text " { 'a' : [1, {'b':null}] , 'c\u00e9\ud83d\ude00':'x\ny' } ") =
  Some (JObject [("a", json_text "[1, {'b':null}]");
                 (of_chars (byte_of <$> [99; 195; 169; 240; 159; 152; 128]%Z), json_text "'x\ny'")]).
Proof. vm_compute. reflexivity. Qed.
Example decode_rejects :
  decode <$> ["[1,]"; "01"; "-"; "1.e2"; "nul"; "{}x"; json_text "{'a':1,}"; json_text "'\x'"; ""] = replicate 9 None.
Proof. vm_compute. reflexivity. Qed.
Example marshal_example :
  marshal_object (<["b" := "[ 1 , 2 ]"]> (<["a<" := json_text "{ 'k' : ' & ' }"]> ∅)) =
  json_text "{'a\u003c':{'k':' \u0026 '},'b':[1,2]}".
Proof. vm_compute. reflexivity. Qed.

(** ** The fuel of [decode] is enough *)

Lemma skip_ws_length l : length (skip_ws l) ≤ length l.
Proof. induction l as [|c l IH]; [done|]. simpl. destruct (is_ws c); simpl; lia. Qed.
Lemma scan_string_length acc l c r : scan_string acc l = Some (c, r) → length r < length l.
Proof.
  revert acc. induction l as [l IH] using (induction_ltof1 _ (@length ascii)). unfold ltof in IH.
  intros acc. destruct l as [|x l1]; [done|]. cbn [scan_string]. intros H.
  repeat (case_match; try done); simplify_eq; simpl in *; try lia;
    match goal with H : scan_string _ ?k = _ |- _ => specialize (IH k ltac:(simpl; lia) _ H); simpl in *; lia end.
Qed.
Lemma scan_digits_length acc l a r : scan_digits acc l = (a, r) → length r ≤ length l.
Proof.
  revert acc. induction l as [|c l IH]; intros acc H; simpl in H; simplify_eq/=; [done|].
  case_match; simplify_eq/=; [apply IH in H; lia|lia].
Qed.
Lemma scan_digits1_length acc l a r : scan_digits1 acc l = Some (a, r) → length r < length l.
Proof.
  destruct l as [|c l]; simpl; [done|]. case_match; [|done]. intros [= Hl%scan_digits_length]. lia.
Qed.
Lemma scan_int_length acc l a r : scan_int acc l = Some (a, r) → length r < length l.
Proof.
  destruct l as [|c l]; cbn [scan_int]; [done|]. destruct (Ascii.eqb c "0"); [intros [= <- <-]; simpl; lia|].
  apply scan_digits1_length.
Qed.
Lemma scan_frac_length acc l a r : scan_frac acc l = Some (a, r) → length r ≤ length l.
Proof.
  destruct l as [|c l]; cbn [scan_frac]; [by intros [= <- <-]|].
  destruct (Ascii.eqb c "."); [intros Hl%scan_digits1_length; simpl; lia|by intros [= <- <-]].
Qed.
Lemma scan_exp_length acc l a r : scan_exp acc l = Some (a, r) → length r ≤ length l.
Proof.
  destruct l as [|c l]; cbn [scan_exp]; [by intros [= <- <-]|].
  destruct (_ || _); [|by intros [= <- <-]]. destruct l as [|d l]; [done|].
  destruct (_ || _); intros Hl%scan_digits1_length; simpl in *; lia.
Qed.
Lemma scan_number_length l a r : scan_number l = Some (a, r) → length r < length l.
Proof.
  unfold scan_number. intros H.
  apply bind_Some in H as ([a1 l1]&H1&H). apply bind_Some in H as ([a2 l2]&H2%scan_frac_length&H).
  apply bind_Some in H as ([a3 l3]&H3%scan_exp_length&[= <- <-]).
  assert (length l1 < length l); [|lia]. destruct l as [|c l]; [done|].
  destruct (Ascii.eqb c "-"); apply scan_int_length in H1; simpl in *; lia.
Qed.
Lemma literal_length w v l x r : w ≠ "" → literal w v l = Some (x, r) → length r < length l.
Proof.
  unfold literal. intros Hw. destruct (has_prefix w (of_chars l)) eqn:E; [|done]. intros [= <- <-]. rewrite length_drop.
  destruct w as [|c w]; [done|]. destruct l; [done|]. simpl. lia.
Qed.

(** What is left after a value is shorter; stated for the three functions at
    once, by induction on the fuel. *)
Lemma shrink f : 
  (∀ l v r, value f l = Some (v, r) → length r < length l) ∧
  (∀ l v r, elements f l = Some (v, r) → length r < length l) ∧
  (∀ l v r, members f l = Some (v, r) → length r < length l).
Proof.
  induction f as [|f (IHv&IHe&IHm)]; [done|]. split; [|split].
  - intros [|c l] v r; [done|]. cbn [value]. pose proof (skip_ws_length l) as Hws.
    destruct (Ascii.eqb c "[").
    { destruct (skip_ws l) as [|d k]; [done|]. simpl in Hws. destruct (Ascii.eqb d "]"); [intros [= <- <-]; simpl; lia|].
      intros ([x r']&He%IHe&[= <- <-])%bind_Some. simpl in *. lia. }
    destruct (Ascii.eqb c "{").
    { destruct (skip_ws l) as [|d k]; [done|]. simpl in Hws. destruct (Ascii.eqb d "}"); [intros [= <- <-]; simpl; lia|].
      intros ([x r']&He%IHm&[= <- <-])%bind_Some. simpl in *. lia. }
    destruct (Ascii.eqb c dquote).
    { intros ([x r']&He%scan_string_length&[= <- <-])%bind_Some. simpl in *. lia. }
    repeat case_match; try (intros Hl; eapply literal_length, Hl; done).
    intros ([x r']&He%scan_number_length&[= <- <-])%bind_Some. lia.
  - intros l v r. cbn [elements]. cbv zeta. intros ([x r1]&Hv%IHv&H)%bind_Some.
    pose proof (skip_ws_length l). pose proof (skip_ws_length r1). destruct (skip_ws r1) as [|d r2]; [done|]. simpl in *.
    destruct (Ascii.eqb d ","); [apply bind_Some in H as ([y r3]&He%IHe&[= <- <-]); lia|].
    destruct (Ascii.eqb d "]"); [|done]. simplify_eq. lia.
  - intros l v r. cbn [members]. pose proof (skip_ws_length l). destruct (skip_ws l) as [|q l1]; [done|].
    destruct (Ascii.eqb q dquote); [|done]. intros ([k r1]&Hs%scan_string_length&H1)%bind_Some.
    pose proof (skip_ws_length r1). destruct (skip_ws r1) as [|d r2]; [done|].
    destruct (Ascii.eqb d ":"); [|done]. cbv zeta in H1. apply bind_Some in H1 as ([x r3]&Hv%IHv&H1).
    pose proof (skip_ws_length r2). pose proof (skip_ws_length r3). destruct (skip_ws r3) as [|e r4]; [done|]. simpl in *.
    destruct (Ascii.eqb e ","); [apply bind_Some in H1 as ([y r5]&He%IHm&[= <- <-]); lia|].
    destruct (Ascii.eqb e "}"); [|done]. simplify_eq. lia.
Qed.
Lemma value_shrink f l v r : value f l = Some (v, r) → length r < length l.
Proof. apply shrink. Qed.

Lemma fuel_enough n :
  (∀ l f g, length l ≤ n → 2 * n + 1 ≤ f → 2 * n + 1 ≤ g → value f l = value g l) ∧
  (∀ l f g, length l ≤ n → 2 * n + 2 ≤ f → 2 * n + 2 ≤ g → elements f l = elements g l) ∧
  (∀ l f g, length l ≤ n → 2 * n + 2 ≤ f → 2 * n + 2 ≤ g → members f l = members g l).
Proof.
  induction n as [n IH] using lt_wf_ind.
  assert (∀ l f g, length l ≤ n → 2 * n + 1 ≤ f → 2 * n + 1 ≤ g → value f l = value g l) as Hv.
  { intros l f g Hl Hf Hg. destruct f as [|f], g as [|g]; try lia. destruct l as [|c l]; [done|]. cbn [value].
    pose proof (skip_ws_length l). simpl in Hl. destruct (IH (n - 1) ltac:(lia)) as (_&IHe&IHm).
    destruct (Ascii.eqb c "["); [|destruct (Ascii.eqb c "{"); [|done]]; destruct (skip_ws l) as [|d k]; [done| |done|];
      simpl in *; [rewrite (IHe (d :: k) f g)|rewrite (IHm (d :: k) f g)]; simpl; done || lia. }
  split; [done|]. split.
  - intros l f g Hl Hf Hg. destruct f as [|f], g as [|g]; try lia. cbn [elements]. cbv zeta.
    pose proof (skip_ws_length l). rewrite (Hv (skip_ws l) f g) by lia.
    destruct (value g (skip_ws l)) as [[v r]|] eqn:E; [|done]. apply value_shrink in E. simpl.
    pose proof (skip_ws_length r). destruct (skip_ws r) as [|d r']; [done|]. simpl in *.
    destruct (IH (n - 1) ltac:(lia)) as (_&IHe&_). by rewrite (IHe r' f g) by lia.
  - intros l f g Hl Hf Hg. destruct f as [|f], g as [|g]; try lia. cbn [members].
    pose proof (skip_ws_length l). destruct (skip_ws l) as [|q l1]; [done|]. destruct (Ascii.eqb q dquote); [|done].
    destruct (scan_string [] l1) as [[k r1]|] eqn:Es; [|done]. apply scan_string_length in Es. simpl.
    pose proof (skip_ws_length r1). destruct (skip_ws r1) as [|c r2]; [done|]. destruct (Ascii.eqb c ":"); [|done].
    pose proof (skip_ws_length r2). simpl in *. rewrite (Hv (skip_ws r2) f g) by lia.
    destruct (value g (skip_ws r2)) as [[v r]|] eqn:E; [|done]. apply value_shrink in E. simpl.
    pose proof (skip_ws_length r). destruct (skip_ws r) as [|d r']; [done|]. simpl in *.
    destruct (IH (n - 1) ltac:(lia)) as (_&_&IHm). by rewrite (IHm r' f g) by lia.
Qed.
(** No text is refused for want of fuel: any larger amount decodes the same. *)
Lemma value_fuel l f : 2 * length l + 2 ≤ f → value f l = value (2 * length l + 2) l.
Proof. intros Hf. apply (fuel_enough (length l)); lia. Qed.
