(* ===== verification/Url.v ===== *)
(** * URLs (net/url)

    What the source parsers use of net/url: percent-decoding, query strings,
    the host and port of an authority, and [url.Parse].  The parsers take the
    function that parses a URL as an interface ([UrlParser]), so what is
    proved of them does not depend on the details of one release of net/url;
    [go_url] is the documented behaviour of [url.Parse]. *)
From S2P Require Import Prelude Order Bytes Encoding Netip Endpoint Text.
From Stdlib Require Import Ascii.
From Stdlib Require String.

Record Userinfo := { Username : string; Password : option string }.
Record URL := {
  Scheme : string; Opaque : string; User : option Userinfo; Host : string;
  Path : string; RawPath : string; RawQuery : string; ForceQuery : bool; Fragment : string;
}.

Class UrlParser := url_Parse : string → option URL.

(** ** Percent-encoding *)

Inductive encoding :=
| encodePath | encodePathSegment | encodeHost | encodeZone | encodeUserPassword
| encodeQueryComponent | encodeFragment.

Definition shouldEscape (c : ascii) (mode : encoding) : bool :=
  if is_alnum c then false
  else if match mode with encodeHost | encodeZone => char_elem c "!$&'()*+,;=:[]<>" || (code c =? 34)%Z | _ => false end
  then false
  else if char_elem c "-_.~" then false
  else if char_elem c "$&+,/:;=?@" then
    match mode with
    | encodePath => Ascii.eqb c "?"
    | encodePathSegment => char_elem c "/;,?"
    | encodeUserPassword => char_elem c "@/?:"
    | encodeQueryComponent => true
    | encodeFragment => false
    | encodeHost | encodeZone => true
    end
  else match mode with encodeFragment => negb (char_elem c "!()*") | _ => true end.

Definition percent_byte (h1 h2 : ascii) : option ascii :=
  x ← hex_digit h1; y ← hex_digit h2; Some (byte_of (x * 16 + y)).
(** The escapes a host may contain: [%25] and the bytes above 0x7f; a zone
    may also hold a space and what a host holds unescaped. *)
Definition escape_allowed (mode : encoding) (h1 h2 v : ascii) : bool :=
  match mode with
  | encodeHost => (128 <=? code v)%Z || (Ascii.eqb h1 "2" && Ascii.eqb h2 "5")
  | encodeZone => (Ascii.eqb h1 "2" && Ascii.eqb h2 "5") || Ascii.eqb v " " || negb (shouldEscape v encodeHost)
  | _ => true
  end.
Fixpoint unescape_chars (mode : encoding) (l : list ascii) : option (list ascii) :=
  match l with
  | [] => Some []
  | c :: l' =>
      if Ascii.eqb c "%" then
        match l' with
        | h1 :: h2 :: r =>
            v ← percent_byte h1 h2;
            if escape_allowed mode h1 h2 v then cons v <$> unescape_chars mode r else None
        | _ => None
        end
      else
        match mode with
        | encodeHost | encodeZone =>
            if is_ascii c && shouldEscape c mode then None else cons c <$> unescape_chars mode l'
        | encodeQueryComponent => cons (if Ascii.eqb c "+" then " "%char else c) <$> unescape_chars mode l'
        | _ => cons c <$> unescape_chars mode l'
        end
  end.
Definition unescape (s : string) (mode : encoding) : option string := of_chars <$> unescape_chars mode (chars s).
Definition QueryUnescape (s : string) : option string := unescape s encodeQueryComponent.
Definition PathUnescape (s : string) : option string := unescape s encodePathSegment.

Definition hex_upper (z : Z) : ascii := symbol "0123456789ABCDEF" z.
Definition escape_char (mode : encoding) (c : ascii) : list ascii :=
  if shouldEscape c mode then
    match mode with
    | encodeQueryComponent =>
        if Ascii.eqb c " " then ["+"%char] else ["%"%char; hex_upper (code c / 16); hex_upper (code c `mod` 16)]
    | _ => ["%"%char; hex_upper (code c / 16); hex_upper (code c `mod` 16)]
    end
  else [c].
Definition escape (s : string) (mode : encoding) : string := of_chars (chars s ≫= escape_char mode).
Definition QueryEscape (s : string) : string := escape s encodeQueryComponent.
(** [Userinfo.String]. *)
Definition Userinfo_String (u : Userinfo) : string :=
  escape (Username u) encodeUserPassword +:+
  match Password u with Some p => ":" +:+ escape p encodeUserPassword | None => "" end.

(** ** Authority *)

(** An optional port: nothing, or a colon and digits. *)
Definition validOptionalPort (port : string) : bool :=
  match chars port with [] => true | c :: l => Ascii.eqb c ":" && forallb is_digit l end.
(** [splitHostPort] of a parsed authority. *)
Definition splitHostPort (hostPort : string) : string * string :=
  let '(host, port) :=
    match last_index hostPort ":" with
    | Some colon =>
        if validOptionalPort (drop_str colon hostPort)
        then (take_first colon hostPort, drop_str (S colon) hostPort) else (hostPort, "")
    | None => (hostPort, "")
    end in
  (if has_prefix "[" host && Address.has_suffix "]" host
   then of_chars (removelast (tail (chars host))) else host, port).
Definition Hostname (u : URL) : string := (splitHostPort (Host u)).1.
Definition Port (u : URL) : string := (splitHostPort (Host u)).2.

Definition parseHost (host : string) : option string :=
  match last_index host "[" with
  | Some (S _) => None
  | Some O =>
      closing ← last_index host "]";
      let colonPort := drop_str (S closing) host in
      if negb (validOptionalPort colonPort) then None else
      port ← unescape colonPort encodeHost;
      let hostname := of_chars (take (closing - 1) (drop 1 (chars host))) in
      name ← match index hostname "%25" with
             | Some z =>
                 h ← unescape (take_first z hostname) encodeHost;
                 zone ← unescape (drop_str z hostname) encodeZone; Some (h +:+ zone)
             | None => unescape hostname encodeHost
             end;
      match parse_addr name with
      | Some a => if is4 a then None else Some ("[" +:+ name +:+ "]" +:+ port)
      | None => None
      end
  | None =>
      match index host ":" with
      | Some i =>
          if bool_decide (last_index host ":" ≠ Some i) || negb (validOptionalPort (drop_str i host)) then None
          else unescape host encodeHost
      | None => unescape host encodeHost
      end
  end.

Definition userinfo_char (c : ascii) : bool := is_alnum c || char_elem c "-._:~!$&'()*+,;=%@".
Definition parseAuthority (authority : string) : option (option Userinfo * string) :=
  match last_index authority "@" with
  | None => host ← parseHost authority; Some (None, host)
  | Some i =>
      host ← parseHost (drop_str (S i) authority);
      let userinfo := take_first i authority in
      if negb (all_chars userinfo_char userinfo) then None else
      match cut ":" userinfo with
      | None => u ← unescape userinfo encodeUserPassword; Some (Some {| Username := u; Password := None |}, host)
      | Some (u, p) =>
          u ← unescape u encodeUserPassword; p ← unescape p encodeUserPassword;
          Some (Some {| Username := u; Password := Some p |}, host)
      end
  end.

(** ** url.Parse *)

Definition is_alpha (c : ascii) : bool := is_lower c || is_upper c.
(** [getScheme]: the scheme (empty when there is none) and the rest. *)
Fixpoint scheme_chars (first : bool) (acc l : list ascii) : option (option (list ascii * list ascii)) :=
  match l with
  | [] => Some None
  | c :: l' =>
      if is_alpha c then scheme_chars false (c :: acc) l'
      else if is_digit c || char_elem c "+-." then if first then Some None else scheme_chars false (c :: acc) l'
      else if Ascii.eqb c ":" then if first then None else Some (Some (reverse acc, l'))
      else Some None
  end.
Definition getScheme (raw : string) : option (string * string) :=
  match scheme_chars true [] (chars raw) with
  | None => None
  | Some None => Some ("", raw)
  | Some (Some (s, rest)) => Some (of_chars s, of_chars rest)
  end.
Definition no_url : URL :=
  {| Scheme := ""; Opaque := ""; User := None; Host := ""; Path := ""; RawPath := ""; RawQuery := "";
     ForceQuery := false; Fragment := "" |}.

Definition ctl_byte (c : ascii) : bool := (code c <? 32)%Z || (code c =? 127)%Z.
(** [setPath]: the raw path is kept when it is not the default encoding. *)
Definition with_path (u : URL) (p : string) : option URL :=
  path ← unescape p encodePath;
  Some {| Scheme := Scheme u; Opaque := Opaque u; User := User u; Host := Host u; Path := path;
          RawPath := if bool_decide (p = escape path encodePath) then "" else p;
          RawQuery := RawQuery u; ForceQuery := ForceQuery u; Fragment := Fragment u |}.

Definition parse_rest (scheme rest query : string) (force : bool) : option URL :=
  let u opaque user host :=
    {| Scheme := scheme; Opaque := opaque; User := user; Host := host; Path := ""; RawPath := "";
       RawQuery := query; ForceQuery := force; Fragment := "" |} in
  if negb (has_prefix "/" rest) && bool_decide (scheme ≠ "") then Some (u rest None "")
  else if negb (has_prefix "/" rest) &&
          char_elem ":" (match cut "/" rest with Some (segment, _) => segment | None => rest end) then None
  else if (bool_decide (scheme ≠ "") || negb (has_prefix "///" rest)) && has_prefix "//" rest then
    let authority := drop_str 2 rest in
    let '(authority, rest) :=
      match index authority "/" with
      | Some i => (take_first i authority, drop_str i authority)
      | None => (authority, "")
      end in
    '(user, host) ← parseAuthority authority;
    with_path (u "" user host) rest
  else with_path (u "" None "") rest.

Definition parse_url (raw : string) : option URL :=
  if existsb ctl_byte (chars raw) then None
  else if bool_decide (raw = "*") then with_path no_url "*"
  else
    '(scheme, rest) ← getScheme raw;
    let scheme := to_lower scheme in
    let '(rest, query, force) :=
      match cut "?" rest with
      | Some (before, after) => (before, after, bool_decide (after = ""))
      | None => (rest, "", false)
      end in
    parse_rest scheme rest query force.

Definition with_fragment (u : URL) (f : string) : URL :=
  {| Scheme := Scheme u; Opaque := Opaque u; User := User u; Host := Host u; Path := Path u;
     RawPath := RawPath u; RawQuery := RawQuery u; ForceQuery := ForceQuery u; Fragment := f |}.
#[global] Instance go_url : UrlParser := λ raw,
  let '(before, frag) := match cut "#" raw with Some (b, f) => (b, f) | None => (raw, "") end in
  u ← parse_url before;
  f ← unescape frag encodeFragment;
  Some (with_fragment u f).

(** ** Query strings *)

Abbreviation Values := (gomap (list string)).
Definition maxParams : nat := 10000.
(** One [key=value] setting; [None] is a malformed one. *)
Definition parse_setting (setting : string) : option (option (string * string)) :=
  if char_elem ";" setting then None
  else if bool_decide (setting = "") then Some None
  else
    let '(key, value) := match cut "=" setting with Some kv => kv | None => (setting, "") end in
    key ← QueryUnescape key; value ← QueryUnescape value; Some (Some (key, value)).
Definition add_value (m : Values) (kv : string * string) : Values :=
  <[kv.1 := default [] (m !! kv.1) ++ [kv.2]]> m.
(** [url.ParseQuery]: any malformed setting is an error. *)
Definition ParseQuery (query : string) : option Values :=
  if bool_decide (query = "") then Some ∅ else
  let settings := split_on "&" query in
  if bool_decide (maxParams < length settings) then None
  else foldl (λ m s, m ← m; kv ← parse_setting s;
                     Some (match kv with Some kv => add_value m kv | None => m end)) (Some ∅) settings.
Definition Get (m : Values) (key : string) : string := default "" (m !! key ≫= head).
Definition Has (m : Values) (key : string) : bool := bool_decide (m !! key ≠ None).

Example url_example : url_Parse "vless://id@[2001:db8::1]:443?type=ws&path=%2Fa+b#na%20me" =
  Some {| Scheme := "vless"; Opaque := ""; User := Some {| Username := "id"; Password := None |};
          Host := "[2001:db8::1]:443"; Path := ""; RawPath := ""; RawQuery := "type=ws&path=%2Fa+b";
          ForceQuery := false; Fragment := "na me" |}.
Proof. vm_compute. reflexivity. Qed.
Example host_example : splitHostPort "[2001:db8::1]:443" = ("2001:db8::1", "443") ∧ splitHostPort "h:" = ("h", "") ∧
  parseHost "a:b:1" = None ∧ parseHost "a%41" = None.
Proof. vm_compute. repeat split. Qed.
Example query_example : Get <$> ParseQuery "a=1&b=%2Fa+b&c" = Some (Get (<["c" := [""]]> (<["b" := ["/a b"]]> (<["a" := ["1"]]> ∅)))).
Proof. vm_compute. reflexivity. Qed.
