(* ===== verification/SourceUri.v ===== *)
(** * Share URIs (internal/source: parse.go, protocols.go, proxy_uri.go, hysteria2.go)

    The parsers of one subscription line.  A parser returns the configuration
    and its alias, or the kind and code of the diagnostic that refuses the
    line; the Go functions return both and an empty code means success. *)
From S2P Require Import Prelude Order Bytes Encoding Netip Endpoint Configuration Text Json Url.
From Stdlib Require Import Ascii.
From Stdlib Require String.
Import Security Configuration.
Import Transport (Transport, NewTCPTransport, NewWebSocketTransportWithHost, NewHTTP2Transport, NewHTTPUpgradeTransport, NewXHTTPTransport, NewGRPCTransport, NewQUICTransport).

Inductive DiagnosticKind := DiagnosticMalformed | DiagnosticUnsupported | DiagnosticInvalid | DiagnosticFiltered.
#[global] Instance DiagnosticKind_eq_dec : EqDecision DiagnosticKind.
Proof. solve_decision. Defined.

Abbreviation diagnosis := (DiagnosticKind * string)%type.
Abbreviation parsed A := (result diagnosis A).
Abbreviation malformed code := (DiagnosticMalformed, code).
Abbreviation unsupported code := (DiagnosticUnsupported, code).
Abbreviation invalid_ code := (DiagnosticInvalid, code).

(** An error of a constructor, or a missing value, becomes a diagnostic. *)
Definition or_else {A} (r : checked A) (d : diagnosis) : parsed A :=
  match r with Ok a => Ok a | Err _ => Err d end.
Definition some_or {A E} (o : option A) (d : E) : result E A :=
  match o with Some a => Ok a | None => Err d end.
(** A loop that returns at the first entry it refuses. *)
Fixpoint each {A E} (check : A → result E unit) (l : list A) : result E unit :=
  match l with [] => Ok () | x :: l' => _ ← check x; each check l' end.

Abbreviation empty s := (bool_decide (s = "")).
Definition valueOr (value fallback : string) : string := if empty value then fallback else value.
(** [None] is an invalid boolean. *)
Definition parseBool (value : string) : option bool :=
  if bool_decide (value ∈ [""; "0"; "false"]) then Some false
  else if bool_decide (value ∈ ["1"; "true"]) then Some true else None.

Definition knownParameter (key : string) : bool :=
  bool_decide (key ∈ ["encryption"; "type"; "security"; "sni"; "allowInsecure"; "path"; "flow"; "host"; "serviceName";
                      "mode"; "alpn"; "fp"; "pbk"; "sid"]).

(** The nesting of a JSON text is at most [max] and its brackets and quotes
    are balanced. *)
Fixpoint depth_loop (max depth : Z) (quoted escaped : bool) (l : list ascii) : bool :=
  match l with
  | [] => (depth =? 0)%Z && negb quoted
  | ch :: l' =>
      if quoted then
        if escaped then depth_loop max depth true false l'
        else if Ascii.eqb ch "\" then depth_loop max depth true true l'
        else if Ascii.eqb ch dquote then depth_loop max depth false false l'
        else depth_loop max depth true false l'
      else if Ascii.eqb ch dquote then depth_loop max depth true escaped l'
      else if Ascii.eqb ch "[" || Ascii.eqb ch "{" then
        if (max <? depth + 1)%Z then false else depth_loop max (depth + 1) false escaped l'
      else if Ascii.eqb ch "]" || Ascii.eqb ch "}" then
        if (depth - 1 <? 0)%Z then false else depth_loop max (depth - 1) false escaped l'
      else depth_loop max depth false escaped l'
  end.
Definition boundedJSONDepth (data : string) (max : Z) : bool := depth_loop max 0 false false (chars data).

(** The first of the four encodings that decodes the value to at most 16 KiB. *)
Fixpoint decode_share (encodings : list Base64) (value : string) : option string :=
  match encodings with
  | [] => None
  | e :: rest =>
      match base64_decode e value with
      | Some decoded => if (slen decoded <=? 16384)%Z then Some decoded else decode_share rest value
      | None => decode_share rest value
      end
  end.
Definition decodeShareBase64 (value : string) : option string :=
  decode_share [StdEncoding; RawStdEncoding; URLEncoding; RawURLEncoding] value.

(** ** VMess *)

Definition vmess_known : list string :=
  ["v"; "ps"; "add"; "port"; "id"; "aid"; "net"; "type"; "host"; "path"; "tls"; "sni"; "scy"; "fp"; "alpn"; "allowInsecure"].
(** The closure [get]: an absent field is empty, a number keeps its literal. *)
Definition vmess_get (fields : gomap RawMessage) (key : string) : option string :=
  match fields !! key with
  | None => Some ""
  | Some raw => match unmarshal_string raw with Some value => Some value | None => dec_number "" raw end
  end.

Section parsers.
Context {order : MapOrder} {urls : UrlParser}.

Definition parseVMessURI (raw : string) : parsed (Configuration * string) :=
  let encoded := trim_prefix "vmess://" raw in
  _ ← guard_err (contains_any encoded "?#/") (unsupported "vmess_uri_variant");
  decoded ← some_or (decodeShareBase64 encoded) (malformed "invalid_vmess_payload");
  _ ← guard_err (negb (boundedJSONDepth decoded 8)) (malformed "invalid_vmess_payload");
  fields ← some_or (unmarshal_object decoded) (malformed "invalid_vmess_payload");
  _ ← each (λ kv, guard_err (bool_decide (kv.1 ∉ vmess_known)) (unsupported "vmess_unknown_field")) (range fields);
  _ ← each (λ key, guard_err (bool_decide (vmess_get fields key = None)) (malformed "vmess_field_type")) vmess_known;
  let values key := default "" (vmess_get fields key) in
  _ ← guard_err (negb (empty (values "v")) && bool_decide (values "v" ≠ "2")) (unsupported "vmess_version");
  _ ← guard_err (negb (empty (values "aid")) && bool_decide (values "aid" ≠ "0")) (unsupported "vmess_alter_id");
  _ ← guard_err (negb (empty (values "type")) && bool_decide (values "type" ≠ "none") || negb (empty (values "fp")) ||
                 negb (empty (values "alpn"))) (unsupported "vmess_option");
  port ← some_or (atoi (values "port")) (malformed "invalid_port");
  address ← or_else (Address.NewAddress (values "add") port) (invalid_ "invalid_address");
  credential ← or_else (Credential.NewVMessCredential (values "id")) (invalid_ "invalid_credential");
  transport ←
    (let net := valueOr (values "net") "tcp" in
     if bool_decide (net = "tcp") then
       _ ← guard_err (negb (empty (values "path")) || negb (empty (values "host"))) (unsupported "vmess_transport_option");
       Ok NewTCPTransport
     else if bool_decide (net = "ws") then
       or_else (NewWebSocketTransportWithHost (values "path") (values "host")) (invalid_ "invalid_transport")
     else Err (unsupported "unsupported_transport"));
  tls ←
    (if empty (values "tls") then
       _ ← guard_err (negb (empty (values "sni")) || negb (empty (values "allowInsecure"))) (unsupported "tls_option_without_tls");
       Ok DisabledTLS
     else if bool_decide (values "tls" = "tls") then
       insecure ← some_or (parseBool (values "allowInsecure")) (malformed "invalid_boolean");
       or_else (NewTLS (values "sni") insecure) (invalid_ "invalid_tls")
     else Err (unsupported "unsupported_security"));
  configuration ← or_else (NewVMessConfiguration address credential transport tls (valueOr (values "scy") "auto"))
                    (unsupported "vmess_security");
  Ok (configuration, values "ps").

(** ** Shadowsocks *)

(** The user information and the authority of the two forms of the URI. *)
Definition ss_authority (u : URL) : parsed (string * string) :=
  match User u with
  | None =>
      if negb (empty (Opaque u)) || negb (empty (Host u)) then
        decoded ← some_or (decodeShareBase64 (valueOr (Opaque u) (Host u))) (malformed "invalid_ss_base64");
        some_or (cut "@" decoded) (malformed "invalid_ss_authority")
      else Err (malformed "missing_ss_userinfo")
  | Some user =>
      if negb (empty (Opaque u)) then
        decoded ← some_or (decodeShareBase64 (Opaque u)) (malformed "invalid_ss_base64");
        some_or (cut "@" decoded) (malformed "invalid_ss_authority")
      else
        let userinfo := Userinfo_String user in
        match decodeShareBase64 userinfo with
        | Some decoded => Ok (decoded, Host u)
        | None => userinfo ← some_or (PathUnescape userinfo) (malformed "invalid_ss_userinfo"); Ok (userinfo, Host u)
        end
  end.

Definition parseShadowsocksURI (raw : string) : parsed (Configuration * string) :=
  u ← some_or (url_Parse raw) (malformed "invalid_ss_uri");
  _ ← guard_err (bool_decide (Scheme u ≠ "ss")) (malformed "invalid_ss_uri");
  _ ← guard_err (bool_decide (Path u ∉ [""; "/"])) (unsupported "unsupported_ss_path");
  _ ← guard_err (negb (empty (RawQuery u))) (unsupported "ss_plugin_or_option");
  '(userinfo, hostport) ← ss_authority u;
  '(method, password) ← some_or (cut ":" userinfo) (malformed "invalid_ss_userinfo");
  hostURL ← some_or (url_Parse ("ss://" +:+ hostport)) (malformed "invalid_ss_authority");
  _ ← guard_err (empty (Hostname hostURL) || empty (Port hostURL)) (malformed "invalid_ss_authority");
  port ← some_or (atoi (Port hostURL)) (malformed "invalid_port");
  address ← or_else (Address.NewAddress (Hostname hostURL) port) (invalid_ "invalid_address");
  credential ← or_else (Credential.NewShadowsocksCredential password) (invalid_ "invalid_credential");
  configuration ← or_else (NewShadowsocksConfiguration address credential method) (unsupported "ss_method");
  Ok (configuration, Fragment u).

(** ** HTTP and SOCKS5 proxies *)

Definition proxy_credentials (protocol : Protocol) (user : option Userinfo) : parsed (string * string) :=
  match user with
  | None => Ok ("", "")
  | Some user =>
      password ← some_or (Password user) (unsupported "proxy_auth_form");
      _ ← guard_err (empty (Username user) || empty password) (unsupported "proxy_auth_form");
      _ ← guard_err (bool_decide (protocol = ProtocolHTTPProxy) && char_elem ":" (Username user)) (unsupported "proxy_auth_form");
      Ok (Username user, password)
  end.
Definition parseProxyURI (u : URL) (scheme : string) : parsed (Configuration * string) :=
  _ ← guard_err (negb (empty (Opaque u)) || empty (Hostname u) || empty (Port u) || negb (empty (Path u)) ||
                 negb (empty (RawPath u)) || negb (empty (RawQuery u)) || ForceQuery u) (unsupported "proxy_uri_option");
  port ← some_or (atoi (Port u)) (malformed "invalid_port");
  address ← or_else (Address.NewAddress (Hostname u) port) (invalid_ "invalid_address");
  let protocol := if bool_decide (scheme = "socks5") then ProtocolSOCKS5 else ProtocolHTTPProxy in
  '(username, password) ← proxy_credentials protocol (User u);
  credential ← or_else (Credential.NewProxyCredential protocol username password) (invalid_ "invalid_credential");
  tls ← (if bool_decide (scheme = "https") then or_else (NewTLS "" false) (invalid_ "invalid_tls") else Ok DisabledTLS);
  configuration ← or_else (NewExtendedConfiguration protocol address credential NewTCPTransport tls no_options FlowNone None)
                    (invalid_ "invalid_endpoint");
  Ok (configuration, Fragment u).

(** ** Hysteria2 *)

Definition hysteria2_known : list string :=
  ["sni"; "insecure"; "allowInsecure"; "alpn"; "obfs"; "obfs-password"; "obfsParam"; "upmbps"; "downmbps"; "ports"].
Definition parseHysteria2URI (u : URL) : parsed (Configuration * string) :=
  user ← some_or (User u) (malformed "invalid_hysteria2_uri");
  _ ← guard_err (negb (empty (Opaque u)) || empty (Username user) || empty (Hostname u) || bool_decide (Path u ∉ [""; "/"]))
        (malformed "invalid_hysteria2_uri");
  let auth := Username user +:+ match Password user with Some p => ":" +:+ p | None => "" end in
  query ← some_or (ParseQuery (RawQuery u)) (malformed "hysteria2_query");
  _ ← each (λ kv, _ ← guard_err (bool_decide (kv.1 ∉ hysteria2_known)) (unsupported "hysteria2_uri_option");
                  guard_err (bool_decide (length kv.2 ≠ 1)) (malformed "hysteria2_query_duplicate")) (range query);
  _ ← guard_err (Has query "insecure" && Has query "allowInsecure" || Has query "obfs-password" && Has query "obfsParam")
        (malformed "hysteria2_query_duplicate");
  port ← some_or (atoi (valueOr (Port u) "443")) (malformed "invalid_port");
  address ← or_else (Address.NewAddress (Hostname u) port) (invalid_ "invalid_address");
  credential ← or_else (Credential.NewHysteria2Credential auth) (invalid_ "invalid_credential");
  insecure ← some_or (parseBool (valueOr (Get query "insecure") (Get query "allowInsecure"))) (malformed "invalid_boolean");
  tls ← or_else (NewTLS (Get query "sni") insecure) (invalid_ "invalid_tls");
  let alpn := if empty (Get query "alpn") then [] else split_on "," (Get query "alpn") in
  security ← or_else (NewSecurityOptions alpn "" None) (invalid_ "invalid_alpn");
  let secret := valueOr (Get query "obfs-password") (Get query "obfsParam") in
  let obfs := Get query "obfs" in
  _ ← guard_err (negb (empty obfs) && bool_decide (obfs ≠ "salamander") || empty obfs && negb (empty secret) ||
                 bool_decide (obfs = "salamander") && empty secret) (unsupported "hysteria2_obfs");
  up ← some_or (atoi (valueOr (Get query "upmbps") "0")) (malformed "hysteria2_bandwidth");
  down ← some_or (atoi (valueOr (Get query "downmbps") "0")) (malformed "hysteria2_bandwidth");
  options ← or_else (if Has query "ports"
                     then NewHysteria2OptionsWithPorts up down secret (split_on "," (replace_byte "-" ":" (Get query "ports")))
                     else NewHysteria2Options up down secret) (invalid_ "hysteria2_options");
  _ ← guard_err (negb (IncludesPort options (Address.port address))) (unsupported "hysteria2_port_mismatch");
  configuration ← or_else (NewExtendedConfiguration ProtocolHysteria2 address credential NewQUICTransport tls security
                             FlowNone (Some options)) (invalid_ "invalid_endpoint");
  Ok (configuration, Fragment u).

(** The position of the port separator of an authority: a bracketed host must
    be followed by it at once. *)
Definition port_colon (hostport : string) : option nat :=
  match last_index hostport ":" with
  | None => None
  | Some colon =>
      if has_prefix "[" hostport then
        match index hostport "]" with
        | Some closing => if Nat.eqb colon (S closing) then Some colon else None
        | None => None
        end
      else Some colon
  end.
(** The rewriting of a port set in the authority into a first port and a
    [ports] parameter; other texts are kept. *)
Definition normalize_ports (raw : string) (start : nat) : parsed string :=
  let rest := drop_str start raw in
  let end_ := default (String.length rest) (index_any rest "/?#") in
  let authority := take_first end_ rest in
  match last_index authority "@" with
  | None => Ok raw
  | Some at_ =>
      let hostport := drop_str (S at_) authority in
      match port_colon hostport with
      | None => Ok raw
      | Some colon =>
          let portText := drop_str (S colon) hostport in
          if contains_any portText ",-" then
            let entries := split_on "," (replace_byte "-" ":" portText) in
            let first := default "" (head (split_on ":" (default "" (head entries)))) in
            _ ← or_else (NewHysteria2OptionsWithPorts 0 0 "" entries) (invalid_ "hysteria2_ports");
            let prefix := take_first (start + at_ + 1 + colon + 1) raw in
            let suffix := drop_str end_ rest in
            let separator := if contains suffix "?" then "&" else "?" in
            let ports := separator +:+ "ports=" +:+ QueryEscape (join "," entries) in
            Ok (prefix +:+ first +:+
                match index suffix "#" with
                | Some fragment => take_first fragment suffix +:+ ports +:+ drop_str fragment suffix
                | None => suffix +:+ ports
                end)
          else Ok raw
      end
  end.
Definition parseHysteria2Raw (raw : string) : parsed (Configuration * string) :=
  start ← some_or (index raw "://") (malformed "invalid_hysteria2_uri");
  raw ← normalize_ports raw (start + 3);
  u ← some_or (url_Parse raw) (malformed "invalid_hysteria2_uri");
  parseHysteria2URI u.

(** ** VLESS and Trojan *)

(** The checks of the parameters that are present. *)
Definition check_parameters (query : Values) : parsed unit :=
  _ ← each (λ kv, _ ← guard_err (bool_decide (length kv.2 ≠ 1)) (malformed "duplicate_parameter");
                  guard_err (negb (knownParameter kv.1)) (unsupported "unsupported_parameter")) (range query);
  each (λ key, guard_err (Has query key && empty (Get query key)) (malformed "empty_parameter"))
    ["type"; "security"; "sni"; "allowInsecure"; "encryption"].
Definition uri_flow (scheme : string) (query : Values) : parsed VLESSFlow :=
  let raw := Get query "flow" in
  if empty raw then Ok FlowNone
  else _ ← guard_err (bool_decide (scheme ≠ "vless") || bool_decide (raw ≠ flow_String FlowVision)) (unsupported "unsupported_flow");
       Ok FlowVision.
Definition uri_security (scheme : string) (query : Values) : string :=
  valueOr (Get query "security") (if bool_decide (scheme = "trojan") then "tls" else "none").
Definition uri_transport (query : Values) : parsed Transport :=
  let get := Get query in
  let name := valueOr (get "type") "tcp" in
  _ ← guard_err (bool_decide (name ≠ "grpc") && negb (empty (get "serviceName"))) (unsupported "transport_option");
  _ ← guard_err (bool_decide (name ≠ "xhttp") && negb (empty (get "mode"))) (unsupported "transport_option");
  let bad := invalid_ "invalid_transport" in
  if bool_decide (name = "tcp") then
    _ ← guard_err (negb (empty (get "path")) || negb (empty (get "host"))) (unsupported "path_without_websocket");
    Ok NewTCPTransport
  else if bool_decide (name = "ws") then
    _ ← guard_err (empty (get "path")) (invalid_ "websocket_path_required");
    or_else (NewWebSocketTransportWithHost (get "path") (get "host")) bad
  else if bool_decide (name ∈ ["h2"; "http"]) then or_else (NewHTTP2Transport (get "path") (get "host")) bad
  else if bool_decide (name = "httpupgrade") then or_else (NewHTTPUpgradeTransport (get "path") (get "host")) bad
  else if bool_decide (name = "grpc") then
    _ ← guard_err (negb (empty (get "path")) || negb (empty (get "host"))) (unsupported "grpc_option");
    or_else (NewGRPCTransport (get "serviceName")) bad
  else if bool_decide (name = "xhttp") then or_else (NewXHTTPTransport (get "path") (get "host") (get "mode")) bad
  else Err (unsupported "unsupported_transport").
Definition uri_tls (security : string) (query : Values) (insecure : bool) : parsed TLSConfig :=
  if bool_decide (security ∈ ["tls"; "reality"])
  then or_else (NewTLS (Get query "sni") insecure) (invalid_ "invalid_tls")
  else _ ← guard_err (negb (empty (Get query "sni")) || negb (empty (Get query "allowInsecure"))) (unsupported "tls_option_without_tls");
       Ok DisabledTLS.
Definition uri_reality (scheme security : string) (query : Values) (insecure : bool) : parsed (option Reality) :=
  if bool_decide (security = "reality") then
    _ ← guard_err (bool_decide (scheme ≠ "vless") || empty (Get query "sni") || insecure || empty (Get query "pbk") ||
                   empty (Get query "fp")) (invalid_ "incomplete_reality");
    value ← or_else (NewReality (Get query "pbk") (Get query "sid")) (invalid_ "invalid_reality");
    Ok (Some value)
  else _ ← guard_err (negb (empty (Get query "pbk")) || negb (empty (Get query "sid"))) (unsupported "reality_option_without_reality");
       Ok None.
(** The part of [parseURI] for the schemes [vless] and [trojan]. *)
Definition parseVLESSTrojan (u : URL) (scheme : string) : parsed (Configuration * string) :=
  user ← some_or (User u) (malformed "missing_authority_field");
  _ ← guard_err (empty (Username user) || empty (Hostname u) || empty (Port u)) (malformed "missing_authority_field");
  _ ← guard_err (negb (empty (Path u))) (unsupported "unsupported_uri_path");
  _ ← guard_err (bool_decide (Password user ≠ None)) (malformed "userinfo_password_form");
  port ← some_or (atoi (Port u)) (malformed "invalid_port");
  query ← some_or (ParseQuery (RawQuery u)) (malformed "invalid_query_encoding");
  _ ← check_parameters query;
  flow ← uri_flow scheme query;
  _ ← guard_err (bool_decide (scheme = "vless") && bool_decide (valueOr (Get query "encryption") "none" ≠ "none"))
        (unsupported "unsupported_encryption");
  _ ← guard_err (bool_decide (scheme = "trojan") && (Has query "encryption" || Has query "flow")) (unsupported "unsupported_parameter");
  let security := uri_security scheme query in
  _ ← guard_err (bool_decide (security ∉ ["none"; "tls"; "reality"])) (unsupported "unsupported_security");
  _ ← guard_err (bool_decide (scheme = "trojan") && bool_decide (security ≠ "tls")) (invalid_ "trojan_requires_tls");
  transport ← uri_transport query;
  insecure ← some_or (parseBool (Get query "allowInsecure")) (malformed "invalid_boolean");
  address ← or_else (Address.NewAddress (Hostname u) port) (invalid_ "invalid_address");
  tls ← uri_tls security query insecure;
  let protocol := if bool_decide (scheme = "trojan") then ProtocolTrojan else ProtocolVLESS in
  credential ← or_else (if bool_decide (scheme = "trojan") then Credential.NewTrojanCredential (Username user)
                        else Credential.NewVLESSCredential (Username user)) (invalid_ "invalid_credential");
  reality ← uri_reality scheme security query insecure;
  let alpn := if Has query "alpn" then split_on "," (Get query "alpn") else [] in
  options ← or_else (NewSecurityOptions alpn (Get query "fp") reality) (invalid_ "invalid_security_option");
  configuration ← or_else (NewExtendedConfiguration protocol address credential transport tls options flow None)
                    (invalid_ "invalid_endpoint");
  Ok (configuration, Fragment u).

Definition parseURI (raw : string) (allowHTTPProxyURI : bool) : parsed (Configuration * string) :=
  if has_prefix "hy2://" (to_lower raw) || has_prefix "hysteria2://" (to_lower raw) then parseHysteria2Raw raw
  else
    u ← some_or (url_Parse raw) (malformed "invalid_uri");
    _ ← guard_err (empty (Scheme u)) (malformed "invalid_uri");
    let scheme := to_lower (Scheme u) in
    if bool_decide (scheme ∈ ["socks5"; "http"; "https"]) then
      _ ← guard_err (bool_decide (scheme ≠ "socks5") && negb allowHTTPProxyURI) (unsupported "proxy_uri_requires_explicit_format");
      parseProxyURI u scheme
    else if bool_decide (scheme = "vmess") then parseVMessURI raw
    else if bool_decide (scheme = "ss") then parseShadowsocksURI raw
    else if bool_decide (scheme ∉ ["vless"; "trojan"]) then Err (unsupported "unsupported_protocol")
    else parseVLESSTrojan u scheme.
End parsers.

(** ** Inverting a parse *)

Lemma or_else_Ok {A} (r : checked A) d a : or_else r d = Ok a ↔ r = Ok a.
Proof. destruct r; simpl; naive_solver. Qed.
Lemma some_or_Ok {A E} (o : option A) (d : E) a : some_or o d = Ok a ↔ o = Some a.
Proof. destruct o; simpl; naive_solver. Qed.
Lemma if_Ok {E A} (b : bool) (x y : result E A) a :
  (if b then x else y) = Ok a → (b = true ∧ x = Ok a) ∨ (b = false ∧ y = Ok a).
Proof. destruct b; auto. Qed.

Ltac parse_inv :=
  repeat (progress ok_inv ||
    match goal with
    | H : or_else _ _ = Ok _ |- _ => apply or_else_Ok in H
    | H : some_or _ _ = Ok _ |- _ => apply some_or_Ok in H
    | H : (if ?b then _ else _) = Ok _ |- _ => apply if_Ok in H as [[? H] | [? H]]
    end).

(** Hints for values that come from the constructors. *)
#[export] Hint Constructors made_credential made_transport made_tls made_security made_hysteria : made.

(** The constructors with the equation that fixes their arguments in front. *)
Lemma extended_made p h n a cr tr t s f hy c :
  NewExtendedConfiguration p a cr tr t s f (Some hy) = Ok c → Address.NewAddress h n = Ok a → made_credential cr →
  made_transport tr → made_tls t → made_security s → made_hysteria hy → made c.
Proof. intros. eapply made_extended; eauto. by intros x [= <-]. Qed.
Lemma plain_made p h n a cr tr t s f c :
  NewExtendedConfiguration p a cr tr t s f None = Ok c → Address.NewAddress h n = Ok a → made_credential cr →
  made_transport tr → made_tls t → made_security s → made c.
Proof. intros. eapply made_extended; eauto. done. Qed.
Lemma basic_made p h n a cr tr t c :
  NewConfiguration p a cr tr t = Ok c → Address.NewAddress h n = Ok a → made_credential cr → made_transport tr →
  made_tls t → made c.
Proof. intros. eapply made_basic; eauto. Qed.
Lemma vmess_made h n a cr tr t m c :
  NewVMessConfiguration a cr tr t m = Ok c → Address.NewAddress h n = Ok a → made_credential cr → made_transport tr →
  made_tls t → made c.
Proof. intros. eapply made_vmess_configuration; eauto. Qed.
Lemma shadowsocks_made h n a cr m c :
  NewShadowsocksConfiguration a cr m = Ok c → Address.NewAddress h n = Ok a → made_credential cr → made c.
Proof. intros. eapply made_shadowsocks_configuration; eauto. Qed.
#[export] Hint Resolve extended_made plain_made basic_made vmess_made shadowsocks_made : made.

Section made.
Context {order : MapOrder} {urls : UrlParser}.

Lemma parseVMessURI_made raw c a : parseVMessURI raw = Ok (c, a) → made c.
Proof. unfold parseVMessURI. intros H. cbv zeta in H. parse_inv; eauto with made. Qed.
Lemma parseShadowsocksURI_made raw c a : parseShadowsocksURI raw = Ok (c, a) → made c.
Proof. unfold parseShadowsocksURI. intros H. parse_inv; eauto with made. Qed.
Lemma parseProxyURI_made u scheme c a : parseProxyURI u scheme = Ok (c, a) → made c.
Proof. unfold parseProxyURI. intros H. cbv zeta in H. parse_inv; eauto with made. Qed.
Lemma parseHysteria2URI_made u c a : parseHysteria2URI u = Ok (c, a) → made c.
Proof. unfold parseHysteria2URI. intros H. cbv zeta in H. parse_inv; eauto 12 with made. Qed.
Lemma uri_transport_made query t : uri_transport query = Ok t → made_transport t.
Proof. unfold uri_transport. intros H. cbv zeta in H. parse_inv; eauto with made. Qed.
Lemma uri_tls_made s query i t : uri_tls s query i = Ok t → made_tls t.
Proof. unfold uri_tls. intros H. parse_inv; eauto with made. Qed.
#[local] Hint Resolve uri_transport_made uri_tls_made : made.
Lemma uri_reality_made scheme s query i r : uri_reality scheme s query i = Ok r →
  ∀ x, r = Some x → ∃ k sh, NewReality k sh = Ok x.
Proof. unfold uri_reality. intros H x ->. parse_inv; eauto; congruence. Qed.
Lemma security_made l f r s : NewSecurityOptions l f r = Ok s →
  (∀ x, r = Some x → ∃ k sh, NewReality k sh = Ok x) → made_security s.
Proof.
  intros Hs Hr. destruct r as [x|]; [|by eapply made_plain]. destruct (Hr x eq_refl) as (?&?&?). by eapply made_reality.
Qed.
Lemma parseVLESSTrojan_made u scheme c a : parseVLESSTrojan u scheme = Ok (c, a) → made c.
Proof.
  unfold parseVLESSTrojan. intros H. cbv zeta in H. parse_inv; eauto 8 using security_made, uri_reality_made with made.
Qed.
Lemma parseURI_made raw allow c a : parseURI raw allow = Ok (c, a) → made c.
Proof.
  unfold parseURI, parseHysteria2Raw. intros H. cbv zeta in H.
  parse_inv; eauto using parseHysteria2URI_made, parseProxyURI_made, parseVMessURI_made, parseShadowsocksURI_made,
    parseVLESSTrojan_made.
Qed.
End made.

(** ** What a constructor keeps of its arguments *)

Record built (p : Protocol) (a : Address.Address) (cr : Credential.Credential) (tr : Transport) (t : TLSConfig)
    (c : Configuration) : Prop := {
  built_protocol : protocol c = p;
  built_address : address c = a;
  built_credential : credential c = cr;
  built_transport : transport c = tr;
  built_tls : tls c = default_server_name a t;
}.
Lemma NewConfiguration_built p a cr tr t c : NewConfiguration p a cr tr t = Ok c → built p a cr tr t c.
Proof. unfold NewConfiguration. intros H. cbv zeta in H. ok_inv. by split. Qed.
Lemma newAdditionalConfiguration_built p a cr tr t m c : newAdditionalConfiguration p a cr tr t m = Ok c → built p a cr tr t c.
Proof. unfold newAdditionalConfiguration. intros H. cbv zeta in H. ok_inv. by split. Qed.
Lemma NewVMessConfiguration_built a cr tr t m c : NewVMessConfiguration a cr tr t m = Ok c → built ProtocolVMess a cr tr t c.
Proof. unfold NewVMessConfiguration. intros H. ok_inv. by eapply newAdditionalConfiguration_built. Qed.
Lemma NewShadowsocksConfiguration_built a cr m c :
  NewShadowsocksConfiguration a cr m = Ok c → built ProtocolShadowsocks a cr NewTCPTransport DisabledTLS c.
Proof. unfold NewShadowsocksConfiguration. intros H. ok_inv. by eapply newAdditionalConfiguration_built. Qed.
Lemma NewExtendedConfiguration_built p a cr tr t s f h c :
  NewExtendedConfiguration p a cr tr t s f h = Ok c → built p a cr tr t c.
Proof.
  unfold NewExtendedConfiguration, newExtendedConfiguration. intros H. cbv zeta in H. ok_inv.
  apply if_Ok in H0 as [[_ H0] | [_ H0]]; [|ok_inv; by split].
  destruct p; first [by apply NewConfiguration_built|by eapply NewVMessConfiguration_built|ok_inv; by split].
Qed.
Lemma built_insecure p a cr tr t c : built p a cr tr t c → insecureSkipVerify (tls c) = insecureSkipVerify t.
Proof. intros [_ _ _ _ ->]. unfold default_server_name. by destruct (_ && _). Qed.
Lemma NewTLS_insecure n i t : NewTLS n i = Ok t → insecureSkipVerify t = i ∧ enabled t = true.
Proof. unfold NewTLS. intros H. by ok_inv. Qed.

(** Rewrite the fields of a constructed configuration. *)
Ltac built_inv :=
  repeat match goal with
  | H : NewExtendedConfiguration _ _ _ _ _ _ _ _ = Ok _ |- _ => apply NewExtendedConfiguration_built in H
  | H : NewConfiguration _ _ _ _ _ = Ok _ |- _ => apply NewConfiguration_built in H
  | H : NewVMessConfiguration _ _ _ _ _ = Ok _ |- _ => apply NewVMessConfiguration_built in H
  | H : NewShadowsocksConfiguration _ _ _ = Ok _ |- _ => apply NewShadowsocksConfiguration_built in H
  | H : NewTLS _ _ = Ok _ |- _ => apply NewTLS_insecure in H as [??]
  end.

(** ** Certificate verification is disabled only on request *)

Section insecure.
Context {order : MapOrder} {urls : UrlParser}.

Definition truthy (s : string) : Prop := s ∈ ["1"; "true"].
Lemma parseBool_true s : parseBool s = Some true → truthy s.
Proof. unfold parseBool, truthy. case_bool_decide; [done|]. by case_bool_decide. Qed.

(** The line asks for it: a parameter of its URL (after the rewriting of a
    Hysteria2 port set), or a field of its VMess payload. *)
Definition url_requests_insecure (raw : string) : Prop :=
  ∃ u query key, url_Parse raw = Some u ∧ ParseQuery (RawQuery u) = Some query ∧
    key ∈ ["allowInsecure"; "insecure"] ∧ truthy (Get query key).
Definition vmess_requests_insecure (raw : string) : Prop :=
  ∃ decoded fields value, decodeShareBase64 (trim_prefix "vmess://" raw) = Some decoded ∧
    unmarshal_object decoded = Some fields ∧ vmess_get fields "allowInsecure" = Some value ∧ truthy value.
Definition requests_insecure (raw : string) : Prop :=
  url_requests_insecure raw ∨ vmess_requests_insecure raw ∨
  ∃ start raw', normalize_ports raw start = Ok raw' ∧ url_requests_insecure raw'.

Lemma parseHysteria2URI_insecure raw u c a : url_Parse raw = Some u → parseHysteria2URI u = Ok (c, a) →
  insecureSkipVerify (tls c) = true → url_requests_insecure raw.
Proof.
  unfold parseHysteria2URI. intros Hu H Hi. cbv zeta in H. parse_inv; built_inv;
    match goal with H : built _ _ _ _ _ _ |- _ => rewrite (built_insecure _ _ _ _ _ _ H) in Hi end; simplify_eq;
    match goal with H : parseBool _ = Some _ |- _ => rewrite Hi in H; apply parseBool_true in H; rename H into Ht end;
    eexists _, _, (if empty (Get x1 "insecure") then "allowInsecure" else "insecure");
    (split; [done|split; [done|]]); unfold valueOr in Ht;
    destruct (empty (Get x1 "insecure")); split; try done; set_solver.
Qed.
Lemma uri_tls_insecure security query i t : uri_tls security query i = Ok t → insecureSkipVerify t = true → i = true.
Proof. unfold uri_tls. intros H Hi. parse_inv; built_inv; simplify_eq/=; done. Qed.
Lemma parseVLESSTrojan_insecure raw u scheme c a : url_Parse raw = Some u → parseVLESSTrojan u scheme = Ok (c, a) →
  insecureSkipVerify (tls c) = true → url_requests_insecure raw.
Proof.
  unfold parseVLESSTrojan. intros Hu H Hi. cbv zeta in H. parse_inv; built_inv;
    match goal with H : built _ _ _ _ _ _ |- _ => rewrite (built_insecure _ _ _ _ _ _ H) in Hi end;
    match goal with H : uri_tls _ _ _ = Ok _ |- _ => apply uri_tls_insecure in H; [subst|done] end;
    match goal with H : parseBool _ = Some _ |- _ => apply parseBool_true in H end;
    eexists _, _, "allowInsecure"; (do 3 (split; [done || set_solver|])); done.
Qed.
Lemma parseVMessURI_insecure raw c a : parseVMessURI raw = Ok (c, a) →
  insecureSkipVerify (tls c) = true → vmess_requests_insecure raw.
Proof.
  unfold parseVMessURI. intros H Hi. cbv zeta in H. parse_inv; built_inv;
    match goal with H : built _ _ _ _ _ _ |- _ => rewrite (built_insecure _ _ _ _ _ _ H) in Hi end; simplify_eq/=; try done;
    match goal with H : parseBool _ = Some _ |- _ => rewrite Hi in H; apply parseBool_true in H; rename H into Ht end;
    (destruct (vmess_get _ "allowInsecure") as [value|] eqn:Ev; [|by apply list_elem_of_In in Ht; simpl in Ht; destruct_or!]);
    eexists _, _, value; (do 3 (split; [done|])); done.
Qed.
Lemma parseProxyURI_insecure u scheme c a : parseProxyURI u scheme = Ok (c, a) → insecureSkipVerify (tls c) = false.
Proof.
  unfold parseProxyURI. intros H. cbv zeta in H. parse_inv; built_inv;
    match goal with H : built _ _ _ _ _ _ |- _ => rewrite (built_insecure _ _ _ _ _ _ H) end; done.
Qed.
Lemma parseShadowsocksURI_insecure raw c a : parseShadowsocksURI raw = Ok (c, a) → insecureSkipVerify (tls c) = false.
Proof.
  unfold parseShadowsocksURI. intros H. parse_inv; built_inv;
    match goal with H : built _ _ _ _ _ _ |- _ => rewrite (built_insecure _ _ _ _ _ _ H) end; done.
Qed.
Lemma parseURI_insecure raw allow c a : parseURI raw allow = Ok (c, a) → insecureSkipVerify (tls c) = true → requests_insecure raw.
Proof.
  unfold parseURI, parseHysteria2Raw, requests_insecure. intros H Hi. cbv zeta in H. parse_inv.
  - right. right. eauto using parseHysteria2URI_insecure.
  - match goal with H : parseProxyURI _ _ = Ok _ |- _ => apply parseProxyURI_insecure in H end. congruence.
  - eauto using parseVMessURI_insecure.
  - match goal with H : parseShadowsocksURI _ = Ok _ |- _ => apply parseShadowsocksURI_insecure in H end. congruence.
  - eauto using parseVLESSTrojan_insecure.
Qed.
End insecure.

(** ** HTTP proxies need an explicit format *)

Section protocols.
Context {order : MapOrder} {urls : UrlParser}.

Ltac protocol_of := 
  cbv zeta in *; parse_inv; built_inv;
  match goal with Hb : built _ _ _ _ _ _ |- _ => by rewrite (built_protocol _ _ _ _ _ _ Hb) end.

Lemma parseHysteria2URI_protocol u c a : parseHysteria2URI u = Ok (c, a) → protocol c = ProtocolHysteria2.
Proof. unfold parseHysteria2URI. intros H. protocol_of. Qed.
Lemma parseVMessURI_protocol raw c a : parseVMessURI raw = Ok (c, a) → protocol c = ProtocolVMess.
Proof. unfold parseVMessURI. intros H. protocol_of. Qed.
Lemma parseShadowsocksURI_protocol raw c a : parseShadowsocksURI raw = Ok (c, a) → protocol c = ProtocolShadowsocks.
Proof. unfold parseShadowsocksURI. intros H. protocol_of. Qed.
Lemma parseProxyURI_protocol u scheme c a : parseProxyURI u scheme = Ok (c, a) →
  protocol c = if bool_decide (scheme = "socks5") then ProtocolSOCKS5 else ProtocolHTTPProxy.
Proof. unfold parseProxyURI. intros H. protocol_of. Qed.
Lemma parseVLESSTrojan_protocol u scheme c a : parseVLESSTrojan u scheme = Ok (c, a) →
  protocol c = if bool_decide (scheme = "trojan") then ProtocolTrojan else ProtocolVLESS.
Proof. unfold parseVLESSTrojan. intros H. protocol_of. Qed.

Lemma parseURI_no_http raw c a : parseURI raw false = Ok (c, a) → protocol c ≠ ProtocolHTTPProxy.
Proof.
  unfold parseURI, parseHysteria2Raw. intros H. cbv zeta in H. parse_inv.
  - by erewrite parseHysteria2URI_protocol by done.
  - erewrite parseProxyURI_protocol by done. case_bool_decide as Hs; [done|by rewrite bool_decide_true].
  - by erewrite parseVMessURI_protocol by done.
  - by erewrite parseShadowsocksURI_protocol by done.
  - erewrite parseVLESSTrojan_protocol by done. by destruct (same _ "trojan").
Qed.
End protocols.

(** A share URI of any scheme yields an endpoint that skips certificate verification only when the line itself asks
    for it: through the value [1] or [true] of the parameter [allowInsecure] (or [insecure], for Hysteria2) of its URL,
    or of the field [allowInsecure] of a VMess payload.  Plain proxies and Shadowsocks never do. *)
Theorem insecure_tls_explicit {order : MapOrder} {urls : UrlParser} raw allow c a :
  parseURI raw allow = Ok (c, a) → insecureSkipVerify (tls c) = true → requests_insecure raw.
Proof. apply parseURI_insecure. Qed.
Lemma insecure_tls_explicit_witness : requests_insecure "trojan://pw@h.example:443?allowInsecure=1".
Proof.
  destruct (parseURI "trojan://pw@h.example:443?allowInsecure=1" false) as [[c a]|] eqn:E; [|vm_compute in E; discriminate E].
  apply (insecure_tls_explicit _ false c a); [exact E|]. vm_compute in E. injection E as <- _. reflexivity.
Defined.

(** With both an unknown and a repeated parameter, the diagnostic of a line depends on the order in which the map of
    parameters is visited. *)
Theorem diagnostic_depends_on_map_order : ∃ (o1 o2 : MapOrder) query, ParseQuery "x=1&sni=a&sni=b" = Some query ∧
  check_parameters (order := o1) query = Err (DiagnosticUnsupported, "unsupported_parameter") ∧
  check_parameters (order := o2) query = Err (DiagnosticMalformed, "duplicate_parameter").
Proof.
  unshelve eexists map_order, {| range A m := reverse (entries m) |}, (<["sni" := ["a"; "b"]]> (<["x" := ["1"]]> ∅)).
  - intros A m. apply reverse_Permutation.
  - repeat split; vm_compute; reflexivity.
Qed.
