(* ===== verification/SourceJson.v ===== *)
(** * JSON subscriptions (internal/source: singbox_json.go, hysteria2_json.go, xray_json.go, xray_proxy.go)

    The parsers of sing-box records and of the outbounds of Xray profiles.
    They work on raw messages; [msg object key] is the Go expression
    [object[key]], empty text for a missing key. *)
From S2P Require Import Prelude Order Bytes Encoding Netip Endpoint Configuration Text Json Url SourceUri.
From Stdlib Require Import Ascii.
From Stdlib Require String.
Import Security Configuration.
Import Transport (Transport, TransportTCP, NewTCPTransport, NewWebSocketTransportWithHost, NewHTTP2Transport, NewHTTPUpgradeTransport, NewXHTTPTransport, NewGRPCTransport, NewQUICTransport).

(** [input_configuration = None] is the zero Configuration, whose protocol is
    [ProtocolUnknown]; an empty [input_code] is no failure. *)
Record parseInput := {
  input_uri : string; input_configuration : option Configuration; input_alias : string;
  input_kind : option DiagnosticKind; input_code : string;
}.
Definition of_uri (u : string) : parseInput :=
  {| input_uri := u; input_configuration := None; input_alias := ""; input_kind := None; input_code := "" |}.
Definition rejected (d : diagnosis) : parseInput :=
  {| input_uri := ""; input_configuration := None; input_alias := ""; input_kind := Some d.1; input_code := d.2 |}.
Definition extracted (c : Configuration) (a : string) : parseInput :=
  {| input_uri := ""; input_configuration := Some c; input_alias := a; input_kind := None; input_code := "" |}.
Definition as_input (r : parsed (Configuration * string)) : parseInput :=
  match r with Ok (c, a) => extracted c a | Err d => rejected d end.

(** ** Limits (payload.go) *)

Record Limits := { MaxSourceBytes : Z; MaxDecodedBytes : Z; MaxRecords : Z; MaxRecordBytes : Z }.
#[global] Instance Limits_eq_dec : EqDecision Limits.
Proof. solve_decision. Defined.
Definition DefaultLimits : Limits :=
  {| MaxSourceBytes := 4 * 2 ^ 20; MaxDecodedBytes := 4 * 2 ^ 20; MaxRecords := 10000; MaxRecordBytes := 16 * 2 ^ 10 |}.
Definition no_limits : Limits := {| MaxSourceBytes := 0; MaxDecodedBytes := 0; MaxRecords := 0; MaxRecordBytes := 0 |}.
Definition maxConfiguredBytes : Z := 64 * 2 ^ 20.
Definition maxConfiguredRecords : Z := 1000000.
Definition maxConfiguredRecord : Z := 2 ^ 20.
(** [None] is an error. *)
Definition normalized (l : Limits) : option Limits :=
  if bool_decide (l = no_limits) then Some DefaultLimits
  else if (MaxSourceBytes l <=? 0)%Z || (MaxDecodedBytes l <=? 0)%Z || (MaxRecords l <=? 0)%Z || (MaxRecordBytes l <=? 0)%Z then None
  else if (maxConfiguredBytes <? MaxSourceBytes l)%Z || (maxConfiguredBytes <? MaxDecodedBytes l)%Z ||
          (maxConfiguredRecords <? MaxRecords l)%Z || (maxConfiguredRecord <? MaxRecordBytes l)%Z then None
  else Some l.

(** ** Raw messages *)

Abbreviation object := (gomap RawMessage).
Definition msg (o : object) (key : string) : RawMessage := default "" (o !! key).

Definition emptyJSON (raw : RawMessage) : bool := bool_decide (trim_space raw ∈ [""; "null"; "{}"; "[]"]).
Definition null_text (raw : RawMessage) : bool := bool_decide (trim_space raw = "null").
Definition onlyJSONKeys `{MapOrder} (raw : RawMessage) (allowed : list string) : bool :=
  if empty raw then true
  else match unmarshal_object raw with
       | None => false
       | Some o => forallb (λ kv, bool_decide (kv.1 ∈ allowed)) (range o)
       end.

(** An optional field: absent is the zero value. *)
Definition optional {A} (d : decoder A) (zero : A) (o : object) (key : string) : option A :=
  match o !! key with None => Some zero | Some raw => d zero raw end.
(** A field whose decoding error is ignored. *)
Definition lenient_string (o : object) (key : string) : string := default "" (unmarshal_string (msg o key)).

Definition isServiceOutbound (kind : string) : bool :=
  bool_decide (kind ∈ ["freedom"; "direct"; "blackhole"; "block"; "dns"; "loopback"; "balancer"; "selector"; "urltest"]).

(** ** sing-box *)

Module SingBoxInput.

Record tls_settings := {
  Enabled : bool; ServerName : string; Insecure : bool; ALPN : list string; UTLS : RawMessage; Reality_ : RawMessage;
}.
Definition tls_names : list string := ["enabled"; "server_name"; "insecure"; "alpn"; "utls"; "reality"].
Definition decode_tls (names : list string) (raw : RawMessage) : option tls_settings :=
  ms ← struct_members raw;
  enabled ← member names "enabled" dec_bool false ms;
  name ← member names "server_name" dec_string "" ms;
  insecure ← member names "insecure" dec_bool false ms;
  alpn ← member names "alpn" (dec_slice dec_string "") [] ms;
  utls ← member names "utls" dec_raw "" ms;
  reality ← member names "reality" dec_raw "" ms;
  Some {| Enabled := enabled; ServerName := name; Insecure := insecure; ALPN := alpn; UTLS := utls; Reality_ := reality |}.

Record transport_settings := {
  Type_ : string; Path : string; ServiceName : string; Host : RawMessage; Headers : gomap string;
}.
Definition transport_names : list string := ["type"; "path"; "service_name"; "host"; "headers"].
Definition decode_transport (raw : RawMessage) : option transport_settings :=
  ms ← struct_members raw;
  type ← member transport_names "type" dec_string "" ms;
  path ← member transport_names "path" dec_string "" ms;
  service ← member transport_names "service_name" dec_string "" ms;
  host ← member transport_names "host" dec_raw "" ms;
  headers ← member transport_names "headers" (dec_map dec_string "") ∅ ms;
  Some {| Type_ := type; Path := path; ServiceName := service; Host := host; Headers := headers |}.
End SingBoxInput.
Import SingBoxInput.

(** The loop over the headers: each must be a host header, the last one
    visited gives the host. *)
Fixpoint header_host {E} (bad : E) (host : string) (l : list (string * string)) : result E string :=
  match l with
  | [] => Ok host
  | (key, value) :: rest => if equal_fold key "host" then header_host bad value rest else Err bad
  end.

Section singbox.
Context {order : MapOrder}.

Definition parseSingBoxHysteria2 (o : object) : parsed (Configuration * string) :=
  let option_ := unsupported "singbox_hysteria2_option" in
  let field := malformed "singbox_hysteria2_field" in
  _ ← each (λ kv, guard_err (bool_decide (kv.1 ∉ ["type"; "tag"; "server"; "server_port"; "server_ports"; "password"; "tls";
                                                  "obfs"; "up_mbps"; "down_mbps"])) option_) (range o);
  tag ← some_or (optional dec_string "" o "tag") field;
  server ← some_or (optional dec_string "" o "server") field;
  port ← some_or (optional dec_int 0%Z o "server_port") field;
  password ← some_or (optional dec_string "" o "password") field;
  up ← some_or (optional dec_int 0%Z o "up_mbps") field;
  down ← some_or (optional dec_int 0%Z o "down_mbps") field;
  _ ← guard_err (bool_decide (o !! "server_ports" ≠ None) && bool_decide (o !! "server_port" ≠ None)) option_;
  port ← match o !! "server_ports" with
         | Some raw =>
             if (port =? 0)%Z then
               match unmarshal_strings raw with
               | Some (first :: _) => Ok (default 0%Z (atoi (default "" (head (split_on ":" first)))))
               | _ => Err (malformed "hysteria2_ports")
               end
             else Ok port
         | None => Ok port
         end;
  address ← or_else (Address.NewAddress server port) (invalid_ "invalid_address");
  credential ← or_else (Credential.NewHysteria2Credential password) (invalid_ "invalid_credential");
  _ ← guard_err (negb (onlyJSONKeys (msg o "tls") ["enabled"; "server_name"; "insecure"; "alpn"])) option_;
  settings ← some_or (decode_tls ["enabled"; "server_name"; "insecure"; "alpn"] (msg o "tls")) (invalid_ "hysteria2_tls_required");
  _ ← guard_err (negb (Enabled settings)) (invalid_ "hysteria2_tls_required");
  tls ← or_else (NewTLS (SingBoxInput.ServerName settings) (Insecure settings)) (invalid_ "invalid_tls");
  security ← or_else (NewSecurityOptions (ALPN settings) "" None) (invalid_ "invalid_alpn");
  secret ← match o !! "obfs" with
           | None => Ok ""
           | Some raw =>
               _ ← guard_err (negb (onlyJSONKeys raw ["type"; "password"])) option_;
               ms ← some_or (struct_members raw) (malformed "hysteria2_obfs");
               type ← some_or (member ["Type"; "Password"] "Type" dec_string "" ms) (malformed "hysteria2_obfs");
               password ← some_or (member ["Type"; "Password"] "Password" dec_string "" ms) (malformed "hysteria2_obfs");
               _ ← guard_err (bool_decide (type ≠ "salamander") || empty password) option_;
               Ok password
           end;
  options ← match o !! "server_ports" with
            | Some raw =>
                ports ← some_or (unmarshal_strings raw) (malformed "hysteria2_ports");
                or_else (NewHysteria2OptionsWithPorts up down secret ports) (invalid_ "hysteria2_options")
            | None => or_else (NewHysteria2Options up down secret) (invalid_ "hysteria2_options")
            end;
  _ ← guard_err (negb (IncludesPort options (Address.port address))) option_;
  configuration ← or_else (NewExtendedConfiguration ProtocolHysteria2 address credential NewQUICTransport tls security
                             FlowNone (Some options)) (invalid_ "invalid_endpoint");
  Ok (configuration, tag).

(** The transport of a record: absent or [null] is TCP. *)
Definition singbox_transport (o : object) : parsed Transport :=
  let option_ := unsupported "singbox_transport_option" in
  let bad := invalid_ "invalid_transport" in
  match o !! "transport" with
  | None => Ok NewTCPTransport
  | Some raw =>
      if null_text raw then Ok NewTCPTransport else
      _ ← guard_err (negb (onlyJSONKeys raw ["type"; "path"; "headers"; "host"; "service_name"])) option_;
      settings ← some_or (decode_transport raw) (unsupported "unsupported_transport");
      host ← header_host option_ "" (range (Headers settings));
      let type := Type_ settings in
      if bool_decide (type = "ws") then
        _ ← guard_err (negb (empty (Host settings)) || negb (empty (ServiceName settings))) option_;
        or_else (NewWebSocketTransportWithHost (Path settings) host) bad
      else if bool_decide (type = "http") then
        _ ← guard_err (bool_decide (Headers settings ≠ ∅) || negb (empty (ServiceName settings))) option_;
        host ← (if empty (Host settings) then Ok host else
                match unmarshal_strings (Host settings) with
                | Some [h] => Ok h
                | _ => Err (unsupported "singbox_http_host")
                end);
        or_else (NewHTTP2Transport (Path settings) host) bad
      else if bool_decide (type = "httpupgrade") then
        _ ← guard_err (bool_decide (Headers settings ≠ ∅) || negb (empty (ServiceName settings))) option_;
        host ← (if empty (Host settings) then Ok host else
                some_or (dec_string host (Host settings)) (unsupported "singbox_upgrade_host"));
        or_else (NewHTTPUpgradeTransport (Path settings) host) bad
      else if bool_decide (type = "grpc") then
        _ ← guard_err (negb (empty (Path settings)) || negb (empty (Host settings)) || bool_decide (Headers settings ≠ ∅)) option_;
        or_else (NewGRPCTransport (ServiceName settings)) bad
      else Err (unsupported "unsupported_transport")
  end.

Definition singbox_fingerprint (raw : RawMessage) : parsed string :=
  let option_ := unsupported "singbox_utls_option" in
  if empty raw then Ok "" else
  _ ← guard_err (negb (onlyJSONKeys raw ["enabled"; "fingerprint"])) option_;
  ms ← some_or (struct_members raw) option_;
  enabled ← some_or (member ["Enabled"; "Fingerprint"] "Enabled" dec_bool false ms) option_;
  fingerprint ← some_or (member ["Enabled"; "Fingerprint"] "Fingerprint" dec_string "" ms) option_;
  _ ← guard_err (negb enabled) option_;
  Ok fingerprint.
Definition singbox_reality (settings : tls_settings) : parsed (option Reality) :=
  let option_ := unsupported "singbox_reality_option" in
  let raw := Reality_ settings in
  let names := ["enabled"; "public_key"; "short_id"] in
  if empty raw then Ok None else
  _ ← guard_err (negb (onlyJSONKeys raw names)) option_;
  ms ← some_or (struct_members raw) option_;
  enabled ← some_or (member names "enabled" dec_bool false ms) option_;
  key ← some_or (member names "public_key" dec_string "" ms) option_;
  short ← some_or (member names "short_id" dec_string "" ms) option_;
  _ ← guard_err (negb enabled || empty (SingBoxInput.ServerName settings) || Insecure settings) option_;
  value ← or_else (NewReality key short) (invalid_ "invalid_reality");
  Ok (Some value).
Definition singbox_tls (o : object) : parsed (TLSConfig * SecurityOptions) :=
  let option_ := unsupported "singbox_tls_option" in
  match o !! "tls" with
  | None => Ok (DisabledTLS, no_options)
  | Some raw =>
      if null_text raw then Ok (DisabledTLS, no_options) else
      _ ← guard_err (negb (onlyJSONKeys raw tls_names)) option_;
      settings ← some_or (decode_tls tls_names raw) option_;
      _ ← guard_err (negb (Enabled settings)) option_;
      tls ← or_else (NewTLS (SingBoxInput.ServerName settings) (Insecure settings)) (invalid_ "invalid_tls");
      fingerprint ← singbox_fingerprint (UTLS settings);
      reality ← singbox_reality settings;
      options ← or_else (NewSecurityOptions (ALPN settings) fingerprint reality) (invalid_ "invalid_security_option");
      Ok (tls, options)
  end.

(** The text and number fields of a record, in the order they are decoded. *)
Record singbox_record := {
  Tag : string; Server : string; UUID : string; Password : string; Method : string; Security_ : string;
  Network : string; Flow : string; Username : string; Version : string; ServerPort : Z; AlterID : Z;
}.
Definition singbox_fields (o : object) : parsed singbox_record :=
  let text key := some_or (optional dec_string "" o key) (malformed "singbox_field_type") in
  tag ← text "tag"; server ← text "server"; uuid ← text "uuid"; password ← text "password"; method ← text "method";
  security ← text "security"; network ← text "network"; flow ← text "flow"; username ← text "username";
  version ← text "version";
  port ← some_or (dec_int 0%Z (msg o "server_port")) (malformed "singbox_port");
  alter ← some_or (optional dec_int 0%Z o "alter_id") (malformed "singbox_alter_id");
  Ok {| Tag := tag; Server := server; UUID := uuid; Password := password; Method := method; Security_ := security;
        Network := network; Flow := flow; Username := username; Version := version; ServerPort := port; AlterID := alter |}.

Definition singbox_keys : list string :=
  ["type"; "tag"; "server"; "server_port"; "uuid"; "password"; "method"; "security"; "alter_id"; "network"; "tls";
   "transport"; "flow"; "username"; "version"].
(** The keys a proxy record may have. *)
Definition singbox_proxy_key (kind key : string) : bool :=
  if bool_decide (key ∈ ["type"; "tag"; "server"; "server_port"; "username"; "password"]) then true
  else if bool_decide (key ∈ ["version"; "network"]) then bool_decide (kind = "socks")
  else if bool_decide (key = "tls") then bool_decide (kind = "http")
  else false.

Definition extended_options (s : SecurityOptions) : bool :=
  bool_decide (alpn s ≠ []) || negb (empty (fingerprint s)).

(** The final [switch kind] of [parseSingBoxOutbound]. *)
Definition singbox_configuration (o : object) (kind : string) (r : singbox_record) (address : Address.Address)
    (transport : Transport) (tls : TLSConfig) (options : SecurityOptions) : parsed Configuration :=
  let option_ := unsupported "singbox_protocol_option" in
  if bool_decide (kind = "vless") then
    _ ← guard_err (negb (empty (Password r)) || negb (empty (Method r)) || negb (empty (Security_ r))) option_;
    credential ← or_else (Credential.NewVLESSCredential (UUID r)) (invalid_ "invalid_credential");
    or_else (NewExtendedConfiguration ProtocolVLESS address credential transport tls options
               (if empty (Flow r) then FlowNone else FlowVision) None) (invalid_ "invalid_credential")
  else if bool_decide (kind = "trojan") then
    _ ← guard_err (extended_options options) (unsupported "singbox_trojan_security_option");
    _ ← guard_err (negb (empty (UUID r)) || negb (empty (Method r)) || negb (empty (Security_ r))) option_;
    credential ← or_else (Credential.NewTrojanCredential (Password r)) (invalid_ "invalid_credential");
    or_else (NewConfiguration ProtocolTrojan address credential transport tls) (invalid_ "invalid_credential")
  else if bool_decide (kind = "vmess") then
    _ ← guard_err (extended_options options) (unsupported "singbox_vmess_security_option");
    _ ← guard_err (negb (empty (Password r)) || negb (empty (Method r))) option_;
    credential ← or_else (Credential.NewVMessCredential (UUID r)) (unsupported "singbox_vmess_option");
    or_else (NewVMessConfiguration address credential transport tls (valueOr (Security_ r) "auto"))
      (unsupported "singbox_vmess_option")
  else if bool_decide (kind = "shadowsocks") then
    _ ← guard_err (negb (empty (UUID r)) || negb (empty (Security_ r)) ||
                   bool_decide (Transport.kind transport ≠ TransportTCP) || enabled tls) (unsupported "singbox_ss_option");
    credential ← or_else (Credential.NewShadowsocksCredential (Password r)) (unsupported "singbox_ss_option");
    or_else (NewShadowsocksConfiguration address credential (Method r)) (unsupported "singbox_ss_option")
  else
    _ ← guard_err (negb (empty (UUID r)) || negb (empty (Method r)) || negb (empty (Security_ r)) ||
                   bool_decide (o !! "transport" ≠ None) && negb (emptyJSON (msg o "transport"))) option_;
    _ ← guard_err (bool_decide (kind = "socks") && negb (empty (Version r)) && bool_decide (Version r ≠ "5"))
          (unsupported "singbox_socks_version");
    _ ← guard_err (bool_decide (kind = "socks") && enabled tls || bool_decide (kind = "http") && bool_decide (o !! "network" ≠ None))
          (unsupported "singbox_proxy_option");
    let protocol := if bool_decide (kind = "socks") then ProtocolSOCKS5 else ProtocolHTTPProxy in
    credential ← or_else (Credential.NewProxyCredential protocol (Username r) (Password r)) (unsupported "singbox_proxy_auth");
    or_else (NewExtendedConfiguration protocol address credential transport tls no_options FlowNone None)
      (invalid_ "invalid_endpoint").

Definition singbox_outbound (o : object) (kind : string) : parsed (Configuration * string) :=
  if bool_decide (kind = "hysteria2") then parseSingBoxHysteria2 o else
  _ ← guard_err (bool_decide (kind ∉ ["vless"; "trojan"; "vmess"; "shadowsocks"; "socks"; "http"])) (unsupported "unsupported_protocol");
  _ ← each (λ kv, guard_err (bool_decide (kv.1 ∉ singbox_keys)) (unsupported "singbox_outbound_option")) (range o);
  let proxy := bool_decide (kind ∈ ["socks"; "http"]) in
  _ ← (if proxy then each (λ kv, guard_err (negb (singbox_proxy_key kind kv.1)) (unsupported "singbox_proxy_option")) (range o)
       else Ok ());
  r ← singbox_fields o;
  _ ← guard_err (negb (AlterID r =? 0)%Z || negb (empty (Flow r)) &&
                 (bool_decide (kind ≠ "vless") || bool_decide (Flow r ≠ flow_String FlowVision))) (unsupported "singbox_protocol_option");
  _ ← guard_err (bool_decide (kind ≠ "socks") && bool_decide (o !! "version" ≠ None) ||
                 negb proxy && bool_decide (o !! "username" ≠ None)) (unsupported "singbox_protocol_option");
  _ ← guard_err (negb (empty (Network r)) && bool_decide (Network r ≠ "tcp")) (unsupported "singbox_network");
  address ← or_else (Address.NewAddress (Server r) (ServerPort r)) (invalid_ "invalid_address");
  transport ← singbox_transport o;
  '(tls, options) ← singbox_tls o;
  configuration ← singbox_configuration o kind r address transport tls options;
  Ok (configuration, Tag r).
Definition parseSingBoxOutbound (o : object) (kind : string) : parseInput := as_input (singbox_outbound o kind).

Fixpoint singbox_records (limits : Limits) (records : list RawMessage) : option (list parseInput) :=
  match records with
  | [] => Some []
  | raw :: rest =>
      if (MaxRecordBytes limits <? slen raw)%Z then None else
      o ← unmarshal_object raw;
      kind ← unmarshal_string (msg o "type");
      inputs ← singbox_records limits rest;
      Some (if isServiceOutbound kind then inputs else parseSingBoxOutbound o kind :: inputs)
  end.
(** [None] is an error, which refuses the whole subscription. *)
Definition decodeSingBoxRecords (records : list RawMessage) (limits : Limits) : option (list parseInput) :=
  if (MaxRecords limits <? Z.of_nat (length records))%Z then None else singbox_records limits records.
End singbox.

(** ** Xray *)

Module Xray.

Record user := { ID : string; Password : string; Encryption : string; Security : string; AlterID : Z; Flow : string }.
Definition no_user : user := {| ID := ""; Password := ""; Encryption := ""; Security := ""; AlterID := 0; Flow := "" |}.
Definition user_names : list string := ["id"; "password"; "encryption"; "security"; "alterId"; "flow"].
Definition dec_user : decoder user := λ old raw,
  ms ← struct_members raw;
  id ← member user_names "id" dec_string (ID old) ms;
  password ← member user_names "password" dec_string (Password old) ms;
  encryption ← member user_names "encryption" dec_string (Encryption old) ms;
  security ← member user_names "security" dec_string (Security old) ms;
  alter ← member user_names "alterId" dec_int (AlterID old) ms;
  flow ← member user_names "flow" dec_string (Flow old) ms;
  Some {| ID := id; Password := password; Encryption := encryption; Security := security; AlterID := alter; Flow := flow |}.

(** [xrayServer]; the credentials of the server itself are those of its
    shorthand user [own]. *)
Record xrayServer := { Address : string; Port : Z; own : user; Method : string; Users : list user }.
Definition server_names : list string :=
  ["address"; "port"; "id"; "password"; "method"; "security"; "encryption"; "flow"; "alterId"; "users"].
Definition no_server : xrayServer := {| Address := ""; Port := 0; own := no_user; Method := ""; Users := [] |}.
Definition dec_server : decoder xrayServer := λ old raw,
  ms ← struct_members raw;
  address ← member server_names "address" dec_string (Address old) ms;
  port ← member server_names "port" dec_int (Port old) ms;
  id ← member server_names "id" dec_string (ID (own old)) ms;
  password ← member server_names "password" dec_string (Password (own old)) ms;
  method ← member server_names "method" dec_string (Method old) ms;
  security ← member server_names "security" dec_string (Security (own old)) ms;
  encryption ← member server_names "encryption" dec_string (Encryption (own old)) ms;
  flow ← member server_names "flow" dec_string (Flow (own old)) ms;
  alter ← member server_names "alterId" dec_int (AlterID (own old)) ms;
  users ← member server_names "users" (dec_slice dec_user no_user) (Users old) ms;
  Some {| Address := address; Port := port; Method := method; Users := users;
          own := {| ID := id; Password := password; Encryption := encryption; Security := security; AlterID := alter; Flow := flow |} |}.

Record xrayProxyUser := { User : string; Pass : string }.
Definition dec_proxy_user : decoder xrayProxyUser := λ old raw,
  ms ← struct_members raw;
  user ← member ["user"; "pass"] "user" dec_string (User old) ms;
  pass ← member ["user"; "pass"] "pass" dec_string (Pass old) ms;
  Some {| User := user; Pass := pass |}.
Definition no_proxy_user : xrayProxyUser := {| User := ""; Pass := "" |}.
Record xrayProxyServer := { PAddress : string; PPort : Z; PUser : string; PPass : string; PUsers : list xrayProxyUser }.
Definition proxy_names : list string := ["address"; "port"; "user"; "pass"; "users"].
Definition no_proxy_server : xrayProxyServer := {| PAddress := ""; PPort := 0; PUser := ""; PPass := ""; PUsers := [] |}.
Definition dec_proxy_server : decoder xrayProxyServer := λ old raw,
  ms ← struct_members raw;
  address ← member proxy_names "address" dec_string (PAddress old) ms;
  port ← member proxy_names "port" dec_int (PPort old) ms;
  user ← member proxy_names "user" dec_string (PUser old) ms;
  pass ← member proxy_names "pass" dec_string (PPass old) ms;
  users ← member proxy_names "users" (dec_slice dec_proxy_user no_proxy_user) (PUsers old) ms;
  Some {| PAddress := address; PPort := port; PUser := user; PPass := pass; PUsers := users |}.

Record tls_settings := { serverName : string; allowInsecure : bool; alpn : list string; fingerprint : string }.
Definition tls_names : list string := ["serverName"; "allowInsecure"; "alpn"; "fingerprint"].
Definition no_tls : tls_settings := {| serverName := ""; allowInsecure := false; alpn := []; fingerprint := "" |}.
Definition decode_tls (raw : RawMessage) : option tls_settings :=
  ms ← struct_members raw;
  name ← member tls_names "serverName" dec_string "" ms;
  insecure ← member tls_names "allowInsecure" dec_bool false ms;
  alpn ← member tls_names "alpn" (dec_slice dec_string "") [] ms;
  fingerprint ← member tls_names "fingerprint" dec_string "" ms;
  Some {| serverName := name; allowInsecure := insecure; alpn := alpn; fingerprint := fingerprint |}.

Record reality_settings := { rServerName : string; rPublicKey : string; rShortID : string; rFingerprint : string; rALPN : list string }.
Definition reality_names : list string := ["ServerName"; "PublicKey"; "ShortID"; "Fingerprint"; "ALPN"].
Definition decode_reality (raw : RawMessage) : option reality_settings :=
  ms ← struct_members raw;
  name ← member reality_names "ServerName" dec_string "" ms;
  key ← member reality_names "PublicKey" dec_string "" ms;
  short ← member reality_names "ShortID" dec_string "" ms;
  fingerprint ← member reality_names "Fingerprint" dec_string "" ms;
  alpn ← member reality_names "ALPN" (dec_slice dec_string "") [] ms;
  Some {| rServerName := name; rPublicKey := key; rShortID := short; rFingerprint := fingerprint; rALPN := alpn |}.
End Xray.

Abbreviation coded A := (result string A).
Definition some_code {A} (o : option A) (code : string) : coded A :=
  match o with Some a => Ok a | None => Err code end.
Definition or_code {A} (r : checked A) (code : string) : coded A :=
  match r with Ok a => Ok a | Err _ => Err code end.

Section xray.
Context {order : MapOrder}.

Definition stream_keys : list string :=
  ["security"; "network"; "method"; "wsSettings"; "tlsSettings"; "httpSettings"; "httpupgradeSettings"; "grpcSettings"; "xhttpSettings"].
Definition used (fields : object) (key : string) : bool := negb (emptyJSON (msg fields key)).

Definition stream_tls (fields : object) (security : string) : coded TLSConfig :=
  if bool_decide (security = "tls") then
    _ ← guard_err (negb (onlyJSONKeys (msg fields "tlsSettings") Xray.tls_names)) "xray_tls_option";
    settings ← some_code (Xray.decode_tls (msg fields "tlsSettings")) "xray_tls_option";
    _ ← guard_err (bool_decide (Xray.alpn settings ≠ []) || negb (empty (Xray.fingerprint settings))) "xray_tls_option";
    or_code (NewTLS (Xray.serverName settings) (Xray.allowInsecure settings)) "invalid_tls"
  else _ ← guard_err (used fields "tlsSettings") "tls_option_without_tls"; Ok DisabledTLS.

(** A host that is a string, or a list of one string. *)
Definition stream_host (raw : RawMessage) : coded string :=
  if empty raw then Ok ""
  else match unmarshal_string raw with
       | Some host => Ok host
       | None => match unmarshal_strings raw with Some [host] => Ok host | _ => Err "xray_http_host" end
       end.
Definition stream_transport (fields : object) (network : string) : coded Transport :=
  let used := used fields in
  if bool_decide (network ∈ [""; "tcp"; "raw"]) then
    _ ← guard_err (used "wsSettings" || used "httpSettings" || used "httpupgradeSettings" || used "grpcSettings") "xray_transport_option";
    Ok NewTCPTransport
  else if bool_decide (network ∈ ["ws"; "websocket"]) then
    _ ← guard_err (used "httpSettings" || used "httpupgradeSettings" || used "grpcSettings") "xray_transport_option";
    let raw := msg fields "wsSettings" in
    _ ← guard_err (negb (onlyJSONKeys raw ["path"; "headers"])) "xray_ws_option";
    ms ← some_code (struct_members raw) "xray_ws_option";
    path ← some_code (member ["path"; "headers"] "path" dec_string "" ms) "xray_ws_option";
    headers ← some_code (member ["path"; "headers"] "headers" (dec_map dec_string "") ∅ ms) "xray_ws_option";
    host ← header_host "xray_ws_option" "" (range headers);
    or_code (NewWebSocketTransportWithHost path host) "invalid_transport"
  else if bool_decide (network ∈ ["h2"; "http"; "httpupgrade"]) then
    let upgrade := bool_decide (network = "httpupgrade") in
    _ ← guard_err (used "wsSettings" || used "grpcSettings" || negb upgrade && used "httpupgradeSettings" ||
                   upgrade && used "httpSettings") "xray_transport_option";
    let raw := msg fields (if upgrade then "httpupgradeSettings" else "httpSettings") in
    _ ← guard_err (negb (onlyJSONKeys raw ["path"; "host"])) "xray_transport_option";
    ms ← some_code (struct_members raw) "xray_transport_option";
    path ← some_code (member ["path"; "host"] "path" dec_string "" ms) "xray_transport_option";
    host ← some_code (member ["path"; "host"] "host" dec_raw "" ms) "xray_transport_option";
    host ← stream_host host;
    or_code (if upgrade then NewHTTPUpgradeTransport path host else NewHTTP2Transport path host) "invalid_transport"
  else if bool_decide (network = "grpc") then
    let raw := msg fields "grpcSettings" in
    _ ← guard_err (used "wsSettings" || used "httpSettings" || used "httpupgradeSettings" ||
                   negb (onlyJSONKeys raw ["serviceName"])) "xray_grpc_option";
    ms ← some_code (struct_members raw) "xray_grpc_option";
    service ← some_code (member ["serviceName"] "serviceName" dec_string "" ms) "xray_grpc_option";
    or_code (NewGRPCTransport service) "invalid_transport"
  else if bool_decide (network = "xhttp") then
    let raw := msg fields "xhttpSettings" in
    let names := ["path"; "host"; "mode"] in
    _ ← guard_err (used "wsSettings" || used "httpSettings" || used "httpupgradeSettings" || used "grpcSettings" ||
                   negb (onlyJSONKeys raw names)) "xray_xhttp_option";
    ms ← some_code (struct_members raw) "xray_xhttp_option";
    path ← some_code (member names "path" dec_string "" ms) "xray_xhttp_option";
    host ← some_code (member names "host" dec_string "" ms) "xray_xhttp_option";
    mode ← some_code (member names "mode" dec_string "" ms) "xray_xhttp_option";
    or_code (NewXHTTPTransport path host mode) "invalid_transport"
  else Err "unsupported_transport".

Definition parseXrayStream (raw : RawMessage) : coded (Transport * TLSConfig) :=
  if empty raw || emptyJSON raw then Ok (NewTCPTransport, DisabledTLS) else
  fields ← some_code (unmarshal_object raw) "xray_stream";
  let security := lenient_string fields "security" in
  let network := lenient_string fields "network" in
  let method := lenient_string fields "method" in
  _ ← guard_err (negb (empty method) && negb (empty network) && bool_decide (method ≠ network)) "xray_transport_conflict";
  let network := if empty method then network else method in
  _ ← guard_err (bool_decide (security = "reality")) "reality_unsupported";
  _ ← guard_err (bool_decide (security ∉ [""; "none"; "tls"])) "unsupported_security";
  _ ← each (λ kv, guard_err (bool_decide (kv.1 ∉ stream_keys) && negb (emptyJSON kv.2)) "xray_stream_option") (range fields);
  tls ← stream_tls fields security;
  _ ← guard_err (bool_decide (network ≠ "xhttp") && used fields "xhttpSettings") "xray_transport_option";
  transport ← stream_transport fields network;
  Ok (transport, tls).

(** What the security mode of a stream asks for: server name, verification,
    ALPN names, fingerprint and Reality. *)
Record stream_security := { sname : string; sinsecure : bool; salpn : list string; sfingerprint : string; sreality : option (string * string) }.
Definition advanced_security (fields : object) (mode : string) : coded stream_security :=
  if bool_decide (mode = "reality") then
    let raw := msg fields "realitySettings" in
    _ ← guard_err (negb (onlyJSONKeys raw ["serverName"; "publicKey"; "shortId"; "fingerprint"; "alpn"]) || used fields "tlsSettings")
          "xray_reality_option";
    r ← some_code (Xray.decode_reality raw) "xray_reality_option";
    _ ← guard_err (empty (Xray.rServerName r) || empty (Xray.rPublicKey r) || empty (Xray.rFingerprint r)) "incomplete_reality";
    Ok {| sname := Xray.rServerName r; sinsecure := false; salpn := Xray.rALPN r; sfingerprint := Xray.rFingerprint r;
          sreality := Some (Xray.rPublicKey r, Xray.rShortID r) |}
  else if bool_decide (mode = "tls") then
    let raw := msg fields "tlsSettings" in
    _ ← guard_err (negb (onlyJSONKeys raw Xray.tls_names) || used fields "realitySettings") "xray_tls_option";
    t ← (if empty raw then Ok Xray.no_tls else some_code (Xray.decode_tls raw) "xray_tls_option");
    Ok {| sname := Xray.serverName t; sinsecure := Xray.allowInsecure t; salpn := Xray.alpn t;
          sfingerprint := Xray.fingerprint t; sreality := None |}
  else
    _ ← guard_err (used fields "realitySettings") "reality_option_without_reality";
    Ok {| sname := ""; sinsecure := false; salpn := []; sfingerprint := ""; sreality := None |}.

(** The stream with the ordinary TLS fields the base decoder understands. *)
Definition tls_base (fields : object) (s : stream_security) : object :=
  <["tlsSettings" := "{" +:+ quoted "allowInsecure" +:+ ":" +:+ marshal_bool (sinsecure s) +:+ "," +:+
                     quoted "serverName" +:+ ":" +:+ quoted (sname s) +:+ "}"]>
  (delete "realitySettings" (<["security" := quoted "tls"]> fields)).
Definition parseXrayAdvancedStream (raw : RawMessage) : coded (Transport * TLSConfig * SecurityOptions) :=
  if emptyJSON raw then '(transport, tls) ← parseXrayStream raw; Ok (transport, tls, no_options) else
  fields ← some_code (unmarshal_object raw) "xray_stream";
  let mode := lenient_string fields "security" in
  s ← advanced_security fields mode;
  reality ← match sreality s with
            | Some (key, short) => value ← or_code (NewReality key short) "invalid_reality"; Ok (Some value)
            | None => Ok None
            end;
  options ← or_code (NewSecurityOptions (salpn s) (sfingerprint s) reality) "invalid_security_option";
  let fields := if bool_decide (mode ∈ ["reality"; "tls"]) then tls_base fields s else fields in
  '(transport, tls) ← parseXrayStream (marshal_object fields);
  Ok (transport, tls, options).

Definition coded_as {A} (r : coded A) : parsed A := match r with Ok a => Ok a | Err code => Err (unsupported code) end.
(** An outbound may only have these keys, other members must be empty. *)
Definition outbound_keys (o : object) : parsed unit :=
  each (λ kv, guard_err (bool_decide (kv.1 ∉ ["protocol"; "tag"; "settings"; "streamSettings"]) && negb (emptyJSON kv.2))
                (unsupported "xray_outbound_option")) (range o).

(** *** SOCKS and HTTP outbounds (xray_proxy.go) *)

Definition proxy_server_keys (raw : RawMessage) : parsed unit :=
  _ ← guard_err (negb (onlyJSONKeys raw ["address"; "port"; "users"])) (unsupported "xray_server_option");
  let fields := default ∅ (unmarshal_object raw) in
  users ← match fields !! "users" with
          | Some users => some_or (unmarshal_array users) (malformed "xray_users")
          | None => Ok []
          end;
  each (λ user, guard_err (negb (onlyJSONKeys user ["user"; "pass"; "level"; "email"])) (unsupported "xray_user_option")) users.
Definition proxy_servers (o : object) (settings : object) : parsed (list Xray.xrayProxyServer) :=
  match settings !! "servers" with
  | Some raw =>
      _ ← guard_err (negb (onlyJSONKeys (msg o "settings") ["servers"])) (unsupported "xray_settings_option");
      servers ← some_or (dec_slice Xray.dec_proxy_server Xray.no_proxy_server [] raw) (unsupported "xray_settings_option");
      rawServers ← some_or (unmarshal_array raw) (malformed "xray_servers");
      _ ← each proxy_server_keys rawServers;
      Ok servers
  | None =>
      _ ← guard_err (negb (onlyJSONKeys (msg o "settings") ["address"; "port"; "user"; "pass"; "level"; "email"]))
            (unsupported "xray_settings_option");
      server ← some_or (Xray.dec_proxy_server Xray.no_proxy_server (msg o "settings")) (malformed "xray_settings");
      Ok [server]
  end.
Definition proxy_input (protocol : string) (transport : Transport) (tls : TLSConfig) (alias : string)
    (server : Xray.xrayProxyServer) (user : Xray.xrayProxyUser) : parseInput :=
  as_input (
    address ← or_else (Address.NewAddress (Xray.PAddress server) (Xray.PPort server)) (invalid_ "invalid_address");
    let kind := if bool_decide (protocol = "socks") then ProtocolSOCKS5 else ProtocolHTTPProxy in
    credential ← or_else (Credential.NewProxyCredential kind (Xray.User user) (Xray.Pass user)) (unsupported "xray_proxy_auth");
    configuration ← or_else (NewExtendedConfiguration kind address credential transport tls no_options FlowNone None)
                      (invalid_ "invalid_endpoint");
    Ok (configuration, alias)).
Definition proxy_users (server : Xray.xrayProxyServer) : list Xray.xrayProxyUser :=
  match Xray.PUsers server with
  | [] => [{| Xray.User := Xray.PUser server; Xray.Pass := Xray.PPass server |}]
  | users => users
  end.
(** The loop over the servers; too many users refuse the whole outbound. *)
Fixpoint server_inputs {S U} (users : S → list U) (input : S → U → parseInput) (remaining : Z) (inputs : list parseInput)
    (servers : list S) : parsed (list parseInput) :=
  match servers with
  | [] => Ok inputs
  | server :: rest =>
      _ ← guard_err (remaining - Z.of_nat (length inputs) <? Z.of_nat (length (users server)))%Z (unsupported "xray_user_count");
      server_inputs users input remaining (inputs ++ (input server <$> users server)) rest
  end.
Definition proxy_outbound (o : object) (protocol : string) (remaining : Z) : parsed (list parseInput) :=
  _ ← outbound_keys o;
  '(transport, tls) ← coded_as (parseXrayStream (msg o "streamSettings"));
  _ ← guard_err (bool_decide (Transport.kind transport ≠ TransportTCP) || bool_decide (protocol = "socks") && enabled tls)
        (unsupported "xray_proxy_transport");
  settings ← some_or (unmarshal_object (msg o "settings")) (malformed "xray_settings");
  servers ← proxy_servers o settings;
  _ ← guard_err (bool_decide (servers = []) || (remaining <? Z.of_nat (length servers))%Z) (unsupported "xray_server_count");
  server_inputs proxy_users (proxy_input protocol transport tls (lenient_string o "tag")) remaining [] servers.
Definition refused (r : parsed (list parseInput)) : list parseInput :=
  match r with Ok inputs => inputs | Err d => [rejected d] end.
Definition parseXrayProxyOutbound (o : object) (protocol : string) (remaining : Z) : list parseInput :=
  refused (proxy_outbound o protocol remaining).

(** *** The other outbounds *)

Definition settings_keys (o settings : object) : parsed unit :=
  let only := onlyJSONKeys (msg o "settings") in
  guard_err (negb (if bool_decide (settings !! "vnext" ≠ None) then only ["vnext"]
                   else if bool_decide (settings !! "servers" ≠ None) then only ["servers"]
                   else only ["address"; "port"; "id"; "password"; "method"; "security"; "encryption"; "flow"; "alterId";
                              "level"; "email"])) (unsupported "xray_settings_option").
Definition xray_servers (o settings : object) (protocol : string) : parsed (list Xray.xrayServer) :=
  match settings !! "vnext", settings !! "servers" with
  | Some raw, _ =>
      _ ← guard_err (bool_decide (protocol ∉ ["vless"; "vmess"])) (malformed "xray_vnext");
      some_or (dec_slice Xray.dec_server Xray.no_server [] raw) (malformed "xray_vnext")
  | None, Some raw =>
      _ ← guard_err (bool_decide (protocol ∉ ["trojan"; "shadowsocks"])) (malformed "xray_servers");
      some_or (dec_slice Xray.dec_server Xray.no_server [] raw) (malformed "xray_servers")
  | None, None =>
      one ← some_or (Xray.dec_server Xray.no_server (msg o "settings")) (malformed "xray_settings");
      Ok [one]
  end.
Definition vnext_keys (raw : RawMessage) : parsed unit :=
  _ ← guard_err (negb (onlyJSONKeys raw ["address"; "port"; "users"])) (unsupported "xray_server_option");
  let fields := default ∅ (unmarshal_object raw) in
  each (λ user, guard_err (negb (onlyJSONKeys user ["id"; "password"; "encryption"; "security"; "alterId"; "flow"; "email"; "level"]))
                  (unsupported "xray_user_option")) (default [] (unmarshal_array (msg fields "users"))).
Definition server_keys (raw : RawMessage) : parsed unit :=
  guard_err (negb (onlyJSONKeys raw ["address"; "port"; "password"; "method"; "email"; "level"])) (unsupported "xray_server_option").
Definition raw_servers (settings : object) (key : string) : list RawMessage :=
  match settings !! key with Some raw => default [] (unmarshal_array raw) | None => [] end.

Definition user_configuration (protocol : string) (server : Xray.xrayServer) (transport : Transport) (tls : TLSConfig)
    (options : SecurityOptions) (address : Address.Address) (user : Xray.user) : parsed Configuration :=
  if bool_decide (protocol = "vless") then
    _ ← guard_err (bool_decide (Xray.Encryption user ∉ [""; "none"])) (unsupported "xray_encryption");
    credential ← or_else (Credential.NewVLESSCredential (Xray.ID user)) (invalid_ "xray_credential");
    or_else (NewExtendedConfiguration ProtocolVLESS address credential transport tls options
               (if empty (Xray.Flow user) then FlowNone else FlowVision) None) (invalid_ "xray_credential")
  else if bool_decide (protocol = "vmess") then
    _ ← guard_err (extended_options options) (unsupported "xray_vmess_security_option");
    credential ← or_else (Credential.NewVMessCredential (Xray.ID user)) (unsupported "xray_vmess_option");
    or_else (NewVMessConfiguration address credential transport tls (valueOr (Xray.Security user) "auto")) (unsupported "xray_vmess_option")
  else if bool_decide (protocol = "trojan") then
    _ ← guard_err (extended_options options) (unsupported "xray_trojan_security_option");
    credential ← or_else (Credential.NewTrojanCredential (Xray.Password user)) (invalid_ "xray_trojan_option");
    or_else (NewConfiguration ProtocolTrojan address credential transport tls) (invalid_ "xray_trojan_option")
  else
    credential ← or_else (Credential.NewShadowsocksCredential (Xray.Password user)) (unsupported "xray_ss_option");
    configuration ← or_else (NewShadowsocksConfiguration address credential (Xray.Method server)) (unsupported "xray_ss_option");
    _ ← guard_err (bool_decide (Transport.kind transport ≠ TransportTCP) || enabled tls) (unsupported "xray_ss_option");
    Ok configuration.
Definition user_input (protocol : string) (transport : Transport) (tls : TLSConfig) (options : SecurityOptions) (alias : string)
    (server : Xray.xrayServer) (user : Xray.user) : parseInput :=
  as_input (
    address ← or_else (Address.NewAddress (Xray.Address server) (Xray.Port server)) (invalid_ "invalid_address");
    _ ← guard_err (negb (Xray.AlterID user =? 0)%Z || negb (empty (Xray.Flow user)) &&
                   (bool_decide (protocol ≠ "vless") || bool_decide (Xray.Flow user ≠ flow_String FlowVision)))
          (unsupported "xray_user_option");
    configuration ← user_configuration protocol server transport tls options address user;
    Ok (configuration, alias)).
Definition xray_users (server : Xray.xrayServer) : list Xray.user :=
  match Xray.Users server with [] => [Xray.own server] | users => users end.

Definition xray_outbound (o : object) (protocol : string) (remaining : Z) : parsed (list parseInput) :=
  _ ← guard_err (bool_decide (protocol ∉ ["vless"; "vmess"; "trojan"; "shadowsocks"])) (unsupported "unsupported_protocol");
  _ ← outbound_keys o;
  '(transport, tls, options) ← coded_as (parseXrayAdvancedStream (msg o "streamSettings"));
  settings ← some_or (unmarshal_object (msg o "settings")) (malformed "xray_settings");
  _ ← settings_keys o settings;
  servers ← xray_servers o settings protocol;
  _ ← each vnext_keys (raw_servers settings "vnext");
  _ ← each server_keys (raw_servers settings "servers");
  _ ← guard_err (bool_decide (length servers = 0) || (remaining <? Z.of_nat (length servers))%Z) (unsupported "xray_server_count");
  server_inputs xray_users (user_input protocol transport tls options (lenient_string o "tag")) remaining [] servers.
Definition parseXrayOutbound (o : object) (protocol : string) (remaining : Z) : list parseInput :=
  if bool_decide (protocol ∈ ["socks"; "http"]) then parseXrayProxyOutbound o protocol remaining
  else refused (xray_outbound o protocol remaining).

(** ** Profiles *)

Definition input_count (inputs : list parseInput) : Z := Z.of_nat (length inputs).
(** The outbounds of one profile. *)
Fixpoint profile_outbounds (limits : Limits) (inputs : list parseInput) (outbounds : list RawMessage) : option (list parseInput) :=
  match outbounds with
  | [] => Some inputs
  | outbound :: rest =>
      if (MaxRecordBytes limits <? slen outbound)%Z then None else
      o ← unmarshal_object outbound;
      match unmarshal_string (msg o "protocol") with
      | None =>
          kind ← unmarshal_string (msg o "type");
          if isServiceOutbound kind then profile_outbounds limits inputs rest
          else profile_outbounds limits (inputs ++ [parseSingBoxOutbound o kind]) rest
      | Some protocol =>
          if isServiceOutbound protocol then profile_outbounds limits inputs rest
          else
            let inputs := inputs ++ parseXrayOutbound o protocol (MaxRecords limits - input_count inputs) in
            if (MaxRecords limits <? input_count inputs)%Z then None else profile_outbounds limits inputs rest
      end
  end.
Fixpoint xray_profiles (limits : Limits) (total : Z) (inputs : list parseInput) (profiles : list RawMessage) : option (list parseInput) :=
  match profiles with
  | [] => Some inputs
  | raw :: rest =>
      profile ← unmarshal_object raw;
      _ ← profile !! "outbounds";
      outbounds ← unmarshal_array (msg profile "outbounds");
      let total := (total + Z.of_nat (length outbounds))%Z in
      if (MaxRecords limits <? total)%Z then None else
      inputs ← profile_outbounds limits inputs outbounds;
      xray_profiles limits total inputs rest
  end.
Definition decodeXrayProfiles (profiles : list RawMessage) (limits : Limits) : option (list parseInput) :=
  if (MaxRecords limits <? Z.of_nat (length profiles))%Z then None else xray_profiles limits 0 [] profiles.
End xray.

(** ** Extracted configurations come from the constructors *)

Definition input_made (i : parseInput) : Prop := ∀ c, input_configuration i = Some c → made c.

Lemma or_code_Ok {A} (r : checked A) d a : or_code r d = Ok a ↔ r = Ok a.
Proof. destruct r; simpl; naive_solver. Qed.
Lemma some_code_Ok {A} (o : option A) d a : some_code o d = Ok a ↔ o = Some a.
Proof. destruct o; simpl; naive_solver. Qed.
Lemma coded_as_Ok {A} (r : coded A) a : coded_as r = Ok a ↔ r = Ok a.
Proof. destruct r; simpl; naive_solver. Qed.
Ltac json_inv :=
  repeat (progress parse_inv ||
    match goal with
    | H : or_code _ _ = Ok _ |- _ => apply or_code_Ok in H
    | H : some_code _ _ = Ok _ |- _ => apply some_code_Ok in H
    | H : coded_as _ = Ok _ |- _ => apply coded_as_Ok in H
    end).

Lemma as_input_made r : (∀ c a, r = Ok (c, a) → made c) → input_made (as_input r).
Proof. intros Hr c. destruct r as [[c' a]|d]; simpl; [|done]. intros [= <-]. eauto. Qed.

Section json_made.
Context {order : MapOrder}.

Lemma parseSingBoxHysteria2_made o c a : parseSingBoxHysteria2 o = Ok (c, a) → made c.
Proof.
  unfold parseSingBoxHysteria2. intros H. cbv zeta in H. parse_inv.
  destruct (o !! "server_ports"); parse_inv; eauto 12 with made.
Qed.
Lemma singbox_transport_made o t : singbox_transport o = Ok t → made_transport t.
Proof.
  unfold singbox_transport. intros H. cbv zeta in H. destruct (o !! "transport"); parse_inv; eauto with made.
Qed.
Lemma singbox_reality_made s r : singbox_reality s = Ok r → ∀ x, r = Some x → ∃ k sh, NewReality k sh = Ok x.
Proof. unfold singbox_reality. intros H x ->. cbv zeta in H. parse_inv; eauto; congruence. Qed.
Lemma singbox_tls_made o t s : singbox_tls o = Ok (t, s) → made_tls t ∧ made_security s.
Proof.
  unfold singbox_tls. intros H. cbv zeta in H. destruct (o !! "tls"); parse_inv; simplify_eq;
    eauto 8 using security_made, singbox_reality_made with made.
Qed.
Lemma singbox_configuration_made o kind r h n a tr t s c : Address.NewAddress h n = Ok a → made_transport tr → made_tls t →
  made_security s → singbox_configuration o kind r a tr t s = Ok c → made c.
Proof. unfold singbox_configuration. intros Ha Htr Ht Hs H. cbv zeta in H. parse_inv; eauto 8 with made. Qed.
Lemma parseSingBoxOutbound_made o kind : input_made (parseSingBoxOutbound o kind).
Proof.
  apply as_input_made. intros c a. unfold singbox_outbound. intros H. cbv zeta in H. parse_inv;
    [by eapply parseSingBoxHysteria2_made|..];
    match goal with H : singbox_tls _ = Ok _ |- _ => apply singbox_tls_made in H as [??] end;
    eauto using singbox_configuration_made, singbox_transport_made.
Qed.
Lemma singbox_records_made limits records inputs : singbox_records limits records = Some inputs → Forall input_made inputs.
Proof.
  revert inputs. induction records as [|raw rest IH]; intros inputs H; simpl in H; [simplify_eq; constructor|].
  destruct (_ <? _)%Z; [done|]. apply bind_Some in H as (o&_&H). apply bind_Some in H as (kind&_&H).
  apply bind_Some in H as (k&Hk%IH&[= <-]). destruct (isServiceOutbound kind); [done|].
  constructor; [apply parseSingBoxOutbound_made|done].
Qed.

Lemma stream_tls_made fields s t : stream_tls fields s = Ok t → made_tls t.
Proof. unfold stream_tls. intros H. json_inv; eauto with made. Qed.
Lemma stream_transport_made fields n t : stream_transport fields n = Ok t → made_transport t.
Proof. unfold stream_transport. intros H. cbv zeta in H. json_inv; eauto with made. Qed.
Lemma parseXrayStream_made raw tr t : parseXrayStream raw = Ok (tr, t) → made_transport tr ∧ made_tls t.
Proof.
  unfold parseXrayStream. intros H. cbv zeta in H. json_inv; simplify_eq;
    eauto using stream_tls_made, stream_transport_made with made.
Qed.
Lemma parseXrayAdvancedStream_made raw tr t s :
  parseXrayAdvancedStream raw = Ok (tr, t, s) → made_transport tr ∧ made_tls t ∧ made_security s.
Proof.
  unfold parseXrayAdvancedStream. intros H. cbv zeta in H. json_inv; simplify_eq;
    match goal with H : parseXrayStream _ = Ok _ |- _ => apply parseXrayStream_made in H as [??] end; [by eauto with made|].
  (do 2 (split; [done|])). eapply security_made; [done|]. intros r ->.
  repeat case_match; json_inv; simplify_eq; eauto.
Qed.

Lemma server_inputs_made {S U} (users : S → list U) input remaining acc servers inputs :
  (∀ s u, input_made (input s u)) → Forall input_made acc →
  server_inputs users input remaining acc servers = Ok inputs → Forall input_made inputs.
Proof.
  intros Hi. revert acc. induction servers as [|s rest IH]; intros acc Hacc H; cbn [server_inputs] in H; parse_inv; [done|].
  eapply IH; [|done]. apply Forall_app. split; [done|]. apply Forall_fmap, Forall_forall. intros u _. apply Hi.
Qed.
Lemma refused_made r : (∀ inputs, r = Ok inputs → Forall input_made inputs) → Forall input_made (refused r).
Proof. intros Hr. destruct r as [inputs|d]; simpl; [by apply Hr|]. by repeat constructor. Qed.
Lemma parseXrayProxyOutbound_made o protocol remaining : Forall input_made (parseXrayProxyOutbound o protocol remaining).
Proof.
  apply refused_made. intros inputs. unfold proxy_outbound. intros H. json_inv.
  match goal with H : parseXrayStream _ = Ok _ |- _ => apply parseXrayStream_made in H as [??] end.
  eapply server_inputs_made; [|constructor|done]. intros server user. apply as_input_made. intros c a Hc.
  cbv zeta in Hc. parse_inv; eauto 8 with made.
Qed.
Lemma user_configuration_made protocol server h n a tr t s user c : Address.NewAddress h n = Ok a → made_transport tr →
  made_tls t → made_security s → user_configuration protocol server tr t s a user = Ok c → made c.
Proof. unfold user_configuration. intros Ha Htr Ht Hs H. parse_inv; eauto 8 with made. Qed.
Lemma parseXrayOutbound_made o protocol remaining : Forall input_made (parseXrayOutbound o protocol remaining).
Proof.
  unfold parseXrayOutbound. case_bool_decide; [apply parseXrayProxyOutbound_made|].
  apply refused_made. intros inputs. unfold xray_outbound. intros Ho. json_inv.
  match goal with H : parseXrayAdvancedStream _ = Ok _ |- _ => apply parseXrayAdvancedStream_made in H as (?&?&?) end.
  eapply server_inputs_made; [|constructor|done]. intros server user. apply as_input_made. intros c a Hc.
  cbv zeta in Hc. parse_inv. eauto using user_configuration_made.
Qed.
Lemma profile_outbounds_made limits acc outbounds inputs : Forall input_made acc →
  profile_outbounds limits acc outbounds = Some inputs → Forall input_made inputs.
Proof.
  revert acc. induction outbounds as [|raw rest IH]; intros acc Hacc H; cbn [profile_outbounds] in H; [by simplify_eq|].
  destruct (_ <? _)%Z; [done|]. apply bind_Some in H as (o&_&H). cbv zeta in H.
  destruct (unmarshal_string (msg o "protocol")) as [protocol|].
  - destruct (isServiceOutbound protocol); [by eapply IH|]. destruct (_ <? _)%Z; [done|]. eapply IH, H.
    apply Forall_app. split; [done|apply parseXrayOutbound_made].
  - apply bind_Some in H as (kind&_&H). destruct (isServiceOutbound kind); eapply IH, H; [done|].
    apply Forall_app. split; [done|]. constructor; [apply parseSingBoxOutbound_made|constructor].
Qed.
Lemma decodeXrayProfiles_made limits profiles inputs : decodeXrayProfiles profiles limits = Some inputs → Forall input_made inputs.
Proof.
  unfold decodeXrayProfiles. destruct (_ <? _)%Z; [done|]. generalize 0%Z as total.
  assert (Forall input_made []) as Hacc by constructor. revert Hacc. generalize (@nil parseInput) as acc.
  induction profiles as [|raw rest IH]; intros acc Hacc total H; cbn [xray_profiles] in H; [by simplify_eq|].
  apply bind_Some in H as (p&_&H). apply bind_Some in H as (?&_&H). apply bind_Some in H as (os&_&H). cbv zeta in H.
  destruct (_ <? _)%Z; [done|]. apply bind_Some in H as (acc'&Ha&H). eapply IH, H. by eapply profile_outbounds_made.
Qed.
Lemma decodeSingBoxRecords_made limits records inputs : decodeSingBoxRecords records limits = Some inputs → Forall input_made inputs.
Proof. unfold decodeSingBoxRecords. destruct (_ <? _)%Z; [done|]. apply singbox_records_made. Qed.
End json_made.

(** A record with two spellings of the host header: which host the transport gets depends on the order in which the
    map of headers is visited. *)
Theorem host_header_depends_on_map_order : ∃ (o1 o2 : MapOrder) o t1 t2, t1 ≠ t2 ∧
  singbox_transport (order := o1) o = Ok t1 ∧ singbox_transport (order := o2) o = Ok t2.
Proof.
  unshelve eexists map_order, {| range A m := reverse (entries m) |},
    (<["transport" := json_text "{'type':'ws','path':'/','headers':{'Host':'a.example','host':'b.example'}}"]> ∅).
  - intros A m. apply reverse_Permutation.
  - destruct (NewWebSocketTransportWithHost "/" "a.example") as [t1|] eqn:E1; [|vm_compute in E1; discriminate E1].
    destruct (NewWebSocketTransportWithHost "/" "b.example") as [t2|] eqn:E2; [|vm_compute in E2; discriminate E2].
    vm_compute in E1, E2. injection E1 as <-. injection E2 as <-. eexists _, _. split; [|split; vm_compute; reflexivity].
    discriminate.
Qed.
