(* ===== verification/Parse.v ===== *)
(** * Source parsing (internal/source: parse.go, payload.go, errors.go)

    [Parse] turns the payload of a source into a snapshot of endpoint records
    and a report: format detection, the base64 envelope, JSON subscriptions,
    and the admission loop that numbers the records, applies the limits and
    the filter, and collects diagnostics. *)
From S2P Require Import Prelude Order Bytes Encoding Netip Endpoint Configuration Identity Provenance Inventory Text Json Url SourceUri SourceJson.
From Stdlib Require Import Ascii.
From Stdlib Require String.
Import Security Configuration.

(** ** Failures and reports (errors.go) *)

Inductive failure_kind := ErrAcquire | ErrFormat | ErrRefresh.
Record Failure := { fsource : string; fkind : failure_kind; fcode : string; fstatus : Z; fretryAfter : Z }.
Definition failure (s : string) (k : failure_kind) (c : string) : Failure :=
  {| fsource := s; fkind := k; fcode := c; fstatus := 0; fretryAfter := 0 |}.

Record Diagnostic := { dsource : string; drecord : Z; dkind : DiagnosticKind; dcode : string }.
Record Report := {
  Accepted : Z; Malformed : Z; Unsupported : Z; Invalid : Z; Filtered : Z; Diagnostics : list Diagnostic;
}.
Definition no_report : Report :=
  {| Accepted := 0; Malformed := 0; Unsupported := 0; Invalid := 0; Filtered := 0; Diagnostics := [] |}.
Definition Rejected (r : Report) : Z := Malformed r + Unsupported r + Invalid r + Filtered r.
Definition addDiagnostic (r : Report) (d : Diagnostic) : Report :=
  let one k := if bool_decide (dkind d = k) then 1%Z else 0%Z in
  {| Accepted := Accepted r;
     Malformed := Malformed r + one DiagnosticMalformed;
     Unsupported := Unsupported r + one DiagnosticUnsupported;
     Invalid := Invalid r + one DiagnosticInvalid;
     Filtered := Filtered r + one DiagnosticFiltered;
     Diagnostics := Diagnostics r ++ [d] |}.
Definition count_accepted (r : Report) : Report :=
  {| Accepted := Accepted r + 1; Malformed := Malformed r; Unsupported := Unsupported r; Invalid := Invalid r;
     Filtered := Filtered r; Diagnostics := Diagnostics r |}.

(** ** Options and payloads *)

Inductive Format := FormatAuto | FormatURIList | FormatBase64URIList | FormatJSON | FormatOther (n : Z).
#[global] Instance Format_eq_dec : EqDecision Format.
Proof. solve_decision. Defined.
Record Admission := { AllowPartial : bool; AllowedProtocol : list Protocol; DenyInsecureTLS : bool }.
Record ParseOptions := { format : Format; limits : Limits; admission : Admission }.
Record Payload := { psource : string; pdata : string; pcontentType : string }.

(** [Inline]: a source whose data is part of the configuration; the context
    may be over already. *)
Record Inline := { isource : string; idata : string; ilimits : Limits }.
Inductive inline_error := InlineFailure (f : Failure) | InlineLimits.
Definition NewInline (s data : string) (l : Limits) : result inline_error Inline :=
  if bool_decide (source_String s = "<invalid-source-id>") then Err (InlineFailure (failure s ErrAcquire "invalid_source_id"))
  else match normalized l with
       | None => Err InlineLimits
       | Some l => Ok {| isource := s; idata := data; ilimits := l |}
       end.
Definition Inline_Acquire (i : Inline) (done : bool) : result Failure Payload :=
  if done then Err (failure (isource i) ErrAcquire "cancelled")
  else if (MaxSourceBytes (ilimits i) <? slen (idata i))%Z then Err (failure (isource i) ErrAcquire "source_too_large")
  else Ok {| psource := isource i; pdata := idata i; pcontentType := "" |}.

(** [filtered]: the code of the filter that refuses a configuration. *)
Definition filtered (c : Configuration) (a : Admission) : option string :=
  if negb (bool_decide (AllowedProtocol a = [])) && negb (existsb (λ p, bool_decide (protocol c = p)) (AllowedProtocol a))
  then Some "protocol_filtered"
  else if DenyInsecureTLS a && insecureSkipVerify (tls c) then Some "insecure_tls_filtered"
  else None.

(** ** Formats *)

Definition uri_schemes : list string :=
  ["vless://"; "trojan://"; "vmess://"; "ss://"; "socks5://"; "hysteria://"; "hysteria2://"; "hy2://"; "tuic://"].
Definition newline : ascii := byte_of 10.
Definition blank_line (line : string) : bool := empty (trim_space line) || has_prefix "#" (trim_space line).
(** The first line that is not blank or a comment decides. *)
Fixpoint recognizable_lines (lines : list string) : bool :=
  match lines with
  | [] => true
  | line :: rest =>
      if blank_line line then recognizable_lines rest
      else existsb (λ scheme, has_prefix scheme (to_lower (trim_space line))) uri_schemes
  end.
Definition recognizableURIList (data : string) : bool := recognizable_lines (split_on newline data).

Definition envelope_space (c : ascii) : bool := bool_decide (code c ∈ [32; 10; 13; 9]%Z).
Definition decodeEnvelope (data : string) (max : Z) : option string :=
  let compact := of_chars (filter (λ c, envelope_space c = false) (chars data)) in
  if (max <? decoded_len StdEncoding (slen compact))%Z then None else
  decoded ← match base64_decode StdEncoding compact with
            | Some d => Some d
            | None => base64_decode RawStdEncoding compact
            end;
  if (max <? slen decoded)%Z then None else Some decoded.

Definition detectFormat (data : string) (l : Limits) : option Format :=
  let trimmed := trim_space data in
  if has_prefix "[" trimmed || has_prefix "{" trimmed then Some FormatJSON
  else if empty trimmed || recognizableURIList trimmed then Some FormatURIList
  else decoded ← decodeEnvelope data (MaxDecodedBytes l);
       if recognizableURIList (trim_space decoded) then Some FormatBase64URIList else None.

(** ** JSON subscriptions *)

Definition uri_items (l : Limits) (items : list RawMessage) : option (list parseInput) :=
  if (MaxRecords l <? Z.of_nat (length items))%Z then None
  else mapM (λ item, u ← unmarshal_string item; if (MaxRecordBytes l <? slen u)%Z then None else Some (of_uri u)) items.
(** The list under [proxies] or [nodes], which must not both be present. *)
Definition selected_list (o : object) : option RawMessage :=
  match o !! "proxies", o !! "nodes" with
  | Some _, Some _ => None
  | Some raw, None => Some raw
  | None, Some raw => Some raw
  | None, None => None
  end.
Section decode.
Context {order : MapOrder}.

Definition decodeJSONInputs (data : string) (l : Limits) : option (list parseInput) :=
  if negb (boundedJSONDepth data 32) then None else
  let trimmed := trim_space data in
  if has_prefix "[" trimmed then
    items ← unmarshal_array trimmed;
    match items with
    | first :: _ =>
        if has_prefix "{" (trim_space first) then
          match unmarshal_object first with
          | Some o =>
              if bool_decide (o !! "type" ≠ None) && bool_decide (o !! "outbounds" = None)
              then decodeSingBoxRecords items l else decodeXrayProfiles items l
          | None => decodeXrayProfiles items l
          end
        else uri_items l items
    | [] => uri_items l items
    end
  else if has_prefix "{" trimmed then
    o ← unmarshal_object trimmed;
    if bool_decide (o !! "outbounds" ≠ None) then decodeXrayProfiles [trimmed] l
    else selected ← selected_list o; items ← unmarshal_array selected; uri_items l items
  else None.
End decode.

Definition strip_cr (line : string) : string :=
  if Address.has_suffix (of_chars [byte_of 13]) line then of_chars (removelast (chars line)) else line.
Definition line_inputs (data : string) : list parseInput := (λ line, of_uri (strip_cr line)) <$> split_on newline data.

(** ** The admission loop *)

Definition unknown_protocol (i : parseInput) : bool :=
  match input_configuration i with Some c => bool_decide (protocol c = ProtocolUnknown) | None => true end.
Definition skipped (i : parseInput) : bool := empty (input_code i) && unknown_protocol i && blank_line (input_uri i).

Inductive outcome := Accept (r : Record_) | Reject (d : diagnosis) | Fatal (c : string).

Section parse.
Context {digest : Digest} {order : MapOrder} {urls : UrlParser}.

(** The body of the loop for one numbered input, up to its bookkeeping. *)
Definition admit_configuration (source : string) (a : Admission) (c : Configuration) (alias : string) : outcome :=
  match filtered c a with
  | Some fcode => Reject (DiagnosticFiltered, fcode)
  | None =>
      match NewRecordID (let i := id (identity c) in if empty i then "<invalid-endpoint-id>" else i) with
      | Err _ => Fatal "internal_record_id"
      | Ok recordID =>
          match NewProvenance source recordID (if empty alias then [] else [alias]) with
          | Err _ => Reject (DiagnosticInvalid, "invalid_alias")
          | Ok provenance =>
              match NewRecord c [provenance] with
              | Err _ => Fatal "internal_record"
              | Ok record => Accept record
              end
          end
      end
  end.
Definition resolve_input (allowHTTP : bool) (i : parseInput) : parsed (Configuration * string) :=
  if empty (input_code i) && unknown_protocol i then parseURI (input_uri i) allowHTTP
  else if negb (empty (input_code i)) then Err (default DiagnosticMalformed (input_kind i), input_code i)
  else match input_configuration i with Some c => Ok (c, input_alias i) | None => Err (DiagnosticMalformed, "") end.
Definition admit_input (source : string) (l : Limits) (a : Admission) (allowHTTP : bool) (i : parseInput) : outcome :=
  if (MaxRecordBytes l <? slen (input_uri i))%Z then Reject (DiagnosticMalformed, "record_too_large")
  else match resolve_input allowHTTP i with
       | Err d => Reject d
       | Ok (c, alias) => admit_configuration source a c alias
       end.

Fixpoint parse_loop (source : string) (l : Limits) (a : Admission) (allowHTTP : bool) (number : Z) (report : Report)
    (records : list Record_) (inputs : list parseInput) : Report * result Failure (list Record_) :=
  match inputs with
  | [] => (report, Ok records)
  | i :: rest =>
      if skipped i then parse_loop source l a allowHTTP number report records rest
      else
        let number := (number + 1)%Z in
        if (MaxRecords l <? number)%Z then (report, Err (failure source ErrFormat "too_many_records"))
        else match admit_input source l a allowHTTP i with
             | Reject d =>
                 let d := {| dsource := source; drecord := number; dkind := d.1; dcode := d.2 |} in
                 parse_loop source l a allowHTTP number (addDiagnostic report d) records rest
             | Fatal c => (report, Err (failure source ErrRefresh c))
             | Accept r => parse_loop source l a allowHTTP number (count_accepted report) (records ++ [r]) rest
             end
  end.

(** The format that is used, the text after the envelope, and the inputs. *)
Definition decode_inputs (p : Payload) (o : ParseOptions) (l : Limits) : result Failure (Format * list parseInput) :=
  _ ← guard_err (MaxSourceBytes l <? slen (pdata p))%Z (failure (psource p) ErrFormat "source_too_large");
  f ← (if bool_decide (format o = FormatAuto)
       then match detectFormat (pdata p) l with Some f => Ok f | None => Err (failure (psource p) ErrFormat "unrecognized_format") end
       else Ok (format o));
  if bool_decide (f = FormatBase64URIList) then
    match decodeEnvelope (pdata p) (MaxDecodedBytes l) with
    | Some data => Ok (f, line_inputs data)
    | None => Err (failure (psource p) ErrFormat "malformed_base64")
    end
  else if bool_decide (f = FormatURIList) then Ok (f, line_inputs (pdata p))
  else if bool_decide (f = FormatJSON) then
    match decodeJSONInputs (pdata p) l with
    | Some inputs => Ok (f, inputs)
    | None => Err (failure (psource p) ErrFormat "invalid_json_subscription")
    end
  else Err (failure (psource p) ErrFormat "unsupported_format").

Definition Parse (p : Payload) (o : ParseOptions) : Report * result Failure Snapshot :=
  match normalized (limits o) with
  | None => (no_report, Err (failure (psource p) ErrFormat "invalid_limits"))
  | Some l =>
      match decode_inputs p o l with
      | Err e => (no_report, Err e)
      | Ok (f, inputs) =>
          let allowHTTP := bool_decide (f ≠ FormatJSON) && bool_decide (format o ≠ FormatAuto) in
          match parse_loop (psource p) l (admission o) allowHTTP 0 no_report [] inputs with
          | (report, Err e) => (report, Err e)
          | (report, Ok records) =>
              (report,
               _ ← guard_err ((Accepted report =? 0)%Z && (0 <? Rejected report)%Z) (failure (psource p) ErrRefresh "no_accepted_records");
               _ ← guard_err ((0 <? Rejected report)%Z && negb (AllowPartial (admission o))) (failure (psource p) ErrRefresh "partial_snapshot");
               match Deduplicate records with
               | Ok inventory => Ok {| snapshot_source := psource p; records := inventory |}
               | Err _ => Err (failure (psource p) ErrRefresh "inventory_conflict")
               end)
          end
      end
  end.
End parse.

(** ** One input *)

Lemma lower_base32_id s : (∀ c, c ∈ chars s → c ∈ chars base32_alphabet) → all_chars id_char (to_lower s) = true.
Proof.
  intros Hall. induction s as [|c s IH]; [done|].
  assert (c ∈ chars base32_alphabet) as Hc by (apply Hall; simpl; by left).
  pose proof (alphabet_check (λ c, is_ascii c && id_char (lower_char c)) base32_alphabet c eq_refl Hc) as H.
  simpl in H. bool_to_prop. rewrite to_lower_cons by done. unfold all_chars in *. simpl. rewrite H0. simpl.
  apply IH. intros d Hd. apply Hall. simpl. by right.
Qed.

Section admitted.
Context {digest : Digest} {order : MapOrder} {urls : UrlParser}.

(** The identifier of a configuration is always a valid record identifier. *)
Lemma identity_record_id c : Configuration.wf c → NewRecordID (id (identity c)) = Ok (id (identity c)) ∧ safe_id (id (identity c)).
Proof.
  intros Hw. unfold identity. destruct (Identity_of_wf c Hw) as (l&p&_&_&->). simpl.
  set (t := to_lower (base32_encode (sha256 l))).
  assert (String.length t = 52) as Ht.
  { unfold t. destruct (base32_text (base32_encode (sha256 l))) as (_&_&->&_); [intros c'; by apply (encode_symbols_chars 5)|].
    unfold base32_encode. rewrite encode_symbols_length by lia. rewrite sha256_length. reflexivity. }
  assert (all_chars id_char t = true) as Hc.
  { apply lower_base32_id. intros c'. by apply (encode_symbols_chars 5). }
  pose proof (version_length c) as Hv.
  assert (all_chars id_char (version c +:+ t) = true) as Hall.
  { unfold all_chars in *. rewrite chars_app, forallb_app, Hc, andb_true_r.
    unfold version. destruct (version3 c); [done|]. by destruct (_ || _). }
  assert (validateProvenanceID "provenance.record_id" (version c +:+ t) = Ok ()) as Hok.
  { unfold validateProvenanceID, maxProvenanceIDBytes. rewrite slen_app, Hv, Ht, Hall. done. }
  unfold NewRecordID. rewrite Hok. split; [done|]. by eapply validateProvenanceID_safe.
Qed.

(** What an accepted record is: its own source, its identity, the alias. *)
Record admitted (source : string) (a : Admission) (r : Record_) : Prop := {
  admitted_made : made (configuration r);
  admitted_filter : filtered (configuration r) a = None;
  admitted_wf : wf_record r;
  admitted_provenance : Forall (λ p, Provenance.source p = source ∧ record p = id (record_identity r)) (provenance r);
}.
Lemma NewProvenance_fields s r l p : NewProvenance s r l = Ok p → Provenance.source p = s ∧ record p = r.
Proof. unfold NewProvenance. intros H. do 2 (apply if_Ok in H as [[_ ?] | [_ H]]; [done|]). by ok_inv. Qed.
Lemma merge_one p : mergeProvenance [p] = [p].
Proof.
  unfold mergeProvenance, merge_map. simpl. unfold merge_step. rewrite lookup_empty, insert_empty, map_to_list_singleton.
  reflexivity.
Qed.
Lemma admit_configuration_spec source a c alias : safe_id source → made c →
  match admit_configuration source a c alias with
  | Accept r => configuration r = c ∧ admitted source a r
  | Reject _ => True
  | Fatal _ => False
  end.
Proof.
  intros Hs Hm. pose proof (made_wf c Hm) as Hw. destruct (identity_record_id c Hw) as [Hid Hsafe].
  unfold admit_configuration. destruct (filtered c a) eqn:Hf; [done|]. cbv zeta.
  rewrite (bool_decide_false (id (identity c) = "")) by apply Hsafe. rewrite Hid.
  destruct (NewProvenance source _ _) as [p|] eqn:Hp; [|done].
  pose proof (NewProvenance_wf _ _ _ _ Hs Hsafe Hp) as Hpw.
  destruct (NewRecord c [p]) as [r|] eqn:Hr.
  - assert (Forall wf_provenance [p]) as Hall by (by constructor).
    pose proof (NewRecord_wf _ _ _ Hw Hall Hr) as Hrw. unfold NewRecord in Hr. split_all_in Hr.
    split; [done|]. split; simpl; auto. rewrite merge_one. constructor; [|constructor].
    by apply NewProvenance_fields in Hp.
  - unfold NewRecord in Hr. rewrite (wf_valid c Hw) in Hr. simpl in Hr.
    unfold provenance_valid in Hr. destruct Hpw as [[? _] [? _] _ _].
    rewrite !bool_decide_true in Hr by done. done.
Qed.

Lemma resolve_input_made allow i c alias : input_made i → resolve_input allow i = Ok (c, alias) → made c.
Proof.
  unfold resolve_input. intros Hi. destruct (_ && _); [apply parseURI_made|]. destruct (negb _); [done|].
  destruct (input_configuration i) eqn:E; [|done]. intros [= <- <-]. by apply Hi.
Qed.
Lemma admit_spec source l a allow i : safe_id source → input_made i →
  match admit_input source l a allow i with Accept r => admitted source a r | Reject _ => True | Fatal _ => False end.
Proof.
  intros Hs Hi. unfold admit_input. destruct (_ <? _)%Z; [done|].
  destruct (resolve_input allow i) as [[c alias]|d] eqn:E; [|done].
  pose proof (admit_configuration_spec source a c alias Hs (resolve_input_made _ _ _ _ Hi E)) as H.
  destruct (admit_configuration _ _ _ _); naive_solver.
Qed.
End admitted.

(** ** The loop against a reference definition

    The verdict of an input does not depend on the other inputs; the report is
    the tally of the verdicts in order, and a diagnostic carries the position
    of its input among those that are not blank. *)
Section tally.
Context {digest : Digest} {order : MapOrder} {urls : UrlParser}.

Definition numbered (inputs : list parseInput) : list parseInput := filter (λ i, skipped i = false) inputs.
Definition accepted_of (vs : list outcome) : list Record_ := omap (λ v, match v with Accept r => Some r | _ => None end) vs.
Definition rejected_as (k : DiagnosticKind) (v : outcome) : bool :=
  match v with Reject d => bool_decide (d.1 = k) | _ => false end.
Definition count_kind (k : DiagnosticKind) (vs : list outcome) : Z :=
  Z.of_nat (length (filter (λ v, rejected_as k v = true) vs)).
Definition diagnostic_of (source : string) (n : nat) (v : outcome) : option Diagnostic :=
  match v with
  | Reject d => Some {| dsource := source; drecord := Z.of_nat n + 1; dkind := d.1; dcode := d.2 |}
  | _ => None
  end.
Definition report_of (source : string) (vs : list outcome) : Report :=
  {| Accepted := Z.of_nat (length (accepted_of vs));
     Malformed := count_kind DiagnosticMalformed vs;
     Unsupported := count_kind DiagnosticUnsupported vs;
     Invalid := count_kind DiagnosticInvalid vs;
     Filtered := count_kind DiagnosticFiltered vs;
     Diagnostics := omap (λ x, x) (imap (diagnostic_of source) vs) |}.

Lemma accepted_of_app vs ws : accepted_of (vs ++ ws) = accepted_of vs ++ accepted_of ws.
Proof. unfold accepted_of. apply omap_app. Qed.
Lemma count_kind_snoc k vs v : count_kind k (vs ++ [v]) =
  (count_kind k vs + match v with Reject d => if bool_decide (d.1 = k) then 1 else 0 | _ => 0 end)%Z.
Proof.
  unfold count_kind. rewrite filter_app, length_app, Nat2Z.inj_add. f_equal.
  rewrite filter_cons, filter_nil. destruct v as [|d|]; simpl; try done. by case_bool_decide.
Qed.
Lemma report_snoc source vs v : report_of source (vs ++ [v]) =
  match v with
  | Accept _ => count_accepted (report_of source vs)
  | Reject d => addDiagnostic (report_of source vs)
      {| dsource := source; drecord := Z.of_nat (length vs) + 1; dkind := d.1; dcode := d.2 |}
  | Fatal _ => report_of source vs
  end.
Proof.
  unfold report_of. rewrite accepted_of_app, length_app, Nat2Z.inj_add, imap_app, omap_app, !count_kind_snoc.
  destruct v as [r|d|c]; simpl; unfold count_accepted, addDiagnostic; simpl;
    rewrite ?Nat.add_0_r, ?Z.add_0_r, ?app_nil_r; done.
Qed.

Lemma parse_loop_tally source l a allow inputs vs :
  let ws := admit_input source l a allow <$> numbered inputs in
  (Z.of_nat (length vs) ≤ MaxRecords l)%Z → (∀ c, Fatal c ∉ ws) →
  parse_loop source l a allow (Z.of_nat (length vs)) (report_of source vs) (accepted_of vs) inputs =
  if (Z.of_nat (length (vs ++ ws)) <=? MaxRecords l)%Z
  then (report_of source (vs ++ ws), Ok (accepted_of (vs ++ ws)))
  else (report_of source (take (Z.to_nat (MaxRecords l)) (vs ++ ws)), Err (failure source ErrFormat "too_many_records")).
Proof.
  cbv zeta. revert vs. induction inputs as [|i rest IH]; intros vs Hn Hf.
  { cbn [parse_loop]. unfold numbered. rewrite filter_nil. simpl. rewrite app_nil_r.
    by replace (_ <=? _)%Z with true by lia. }
  cbn [parse_loop]. unfold numbered in *. rewrite filter_cons in *.
  destruct (skipped i) eqn:Hs; [rewrite decide_False in * by done; by apply IH|].
  rewrite decide_True in * by done. rewrite fmap_cons in *. cbv zeta.
  set (ws := admit_input source l a allow <$> filter (λ i, skipped i = false) rest) in *.
  destruct (MaxRecords l <? Z.of_nat (length vs) + 1)%Z eqn:Hm.
  { assert (Z.of_nat (length (vs ++ admit_input source l a allow i :: ws)) <=? MaxRecords l = false)%Z as ->.
    { rewrite length_app. cbn [length]. apply Z.leb_gt. bool_to_prop. lia. }
    bool_to_prop. rewrite take_app_le, take_ge by lia. done. }
  assert (∀ v, admit_input source l a allow i = v → (∀ c, v ≠ Fatal c) →
    parse_loop source l a allow (Z.of_nat (length vs) + 1) (report_of source (vs ++ [v])) (accepted_of (vs ++ [v])) rest =
    if (Z.of_nat (length (vs ++ v :: ws)) <=? MaxRecords l)%Z
    then (report_of source (vs ++ v :: ws), Ok (accepted_of (vs ++ v :: ws)))
    else (report_of source (take (Z.to_nat (MaxRecords l)) (vs ++ v :: ws)), Err (failure source ErrFormat "too_many_records")))
    as Hstep.
  { intros v _ _. specialize (IH (vs ++ [v])). rewrite length_app, Nat2Z.inj_add, <-app_assoc in IH. apply IH; [simpl; lia|].
    intros c Hc. apply (Hf c). by right. }
  destruct (admit_input source l a allow i) as [r|d|c] eqn:Ha.
  - rewrite <-(Hstep _ eq_refl) by done. by rewrite report_snoc, accepted_of_app.
  - rewrite <-(Hstep _ eq_refl) by done. rewrite report_snoc, accepted_of_app. simpl. by rewrite app_nil_r.
  - exfalso. apply (Hf c). by left.
Qed.
End tally.

(** ** What [Parse] returns *)

Section theorems.
Context {digest : Digest} {order : MapOrder} {urls : UrlParser}.

Lemma uri_items_made l items inputs : uri_items l items = Some inputs → Forall input_made inputs.
Proof.
  unfold uri_items. destruct (_ <? _)%Z; [done|]. intros H%mapM_Some. induction H as [|item i items inputs Hi _ IH]; constructor; [|done].
  apply bind_Some in Hi as (u&_&Hi). destruct (_ <? _)%Z; [done|]. by simplify_eq.
Qed.
Lemma decodeJSONInputs_made data l inputs : decodeJSONInputs data l = Some inputs → Forall input_made inputs.
Proof.
  unfold decodeJSONInputs. intros H. cbv zeta in H. destruct (negb _); [done|]. destruct (has_prefix "[" _).
  { apply bind_Some in H as (items&_&H). repeat case_match;
      eauto using uri_items_made, decodeSingBoxRecords_made, decodeXrayProfiles_made. }
  destruct (has_prefix "{" _); [|done]. apply bind_Some in H as (o&_&H).
  case_bool_decide; [by eapply decodeXrayProfiles_made|]. apply bind_Some in H as (?&_&H). apply bind_Some in H as (?&_&H).
  by eapply uri_items_made.
Qed.
Lemma line_inputs_made data : Forall input_made (line_inputs data).
Proof. unfold line_inputs. apply Forall_fmap, Forall_forall. done. Qed.
Lemma decode_inputs_made p o l f inputs : decode_inputs p o l = Ok (f, inputs) → Forall input_made inputs.
Proof.
  unfold decode_inputs. intros H. ok_inv. clear H0.
  repeat case_match; ok_inv; simplify_eq; eauto using decodeJSONInputs_made, line_inputs_made.
Qed.

(** The verdicts on the inputs of a payload. *)
Definition verdicts (p : Payload) (o : ParseOptions) (l : Limits) (f : Format) (inputs : list parseInput) : list outcome :=
  admit_input (psource p) l (admission o) (bool_decide (f ≠ FormatJSON) && bool_decide (format o ≠ FormatAuto)) <$> numbered inputs.
Lemma verdicts_spec p o l f inputs : safe_id (psource p) → Forall input_made inputs →
  Forall (λ v, match v with Accept r => admitted (psource p) (admission o) r | Reject _ => True | Fatal _ => False end)
    (verdicts p o l f inputs).
Proof.
  intros Hs Hi. apply Forall_fmap. apply Forall_forall. intros i [_ Hin]%list_elem_of_filter.
  apply admit_spec; [done|]. by eapply Forall_forall in Hi.
Qed.
Lemma accepted_admitted p o l f inputs : safe_id (psource p) → Forall input_made inputs →
  Forall (admitted (psource p) (admission o)) (accepted_of (verdicts p o l f inputs)).
Proof.
  intros Hs Hi. apply Forall_forall. intros r (v&Hv&Hr)%list_elem_of_omap.
  pose proof (verdicts_spec p o l f inputs Hs Hi) as H. rewrite Forall_forall in H. specialize (H v Hv).
  destruct v; by simplify_eq.
Qed.
(** Every verdict is counted exactly once. *)
Lemma report_total source vs : (∀ c, Fatal c ∉ vs) →
  (Accepted (report_of source vs) + Rejected (report_of source vs) = Z.of_nat (length vs))%Z.
Proof.
  induction vs as [|v vs IH] using rev_ind; [done|]. intros Hf. rewrite report_snoc, length_app.
  specialize (IH ltac:(intros c Hc; apply (Hf c), elem_of_app; by left)).
  generalize dependent (report_of source vs). intros r0 IH. unfold Rejected in *.
  destruct v as [r|[k c]|c]; cbn; [lia| |].
  - destruct k; cbn; repeat first [rewrite bool_decide_true by done|rewrite bool_decide_false by done]; lia.
  - exfalso. apply (Hf c), elem_of_app. right. by left.
Qed.
Lemma snapshot_admitted source a accepted out r : Forall (admitted source a) accepted → inventory_of accepted out → r ∈ out →
  admitted source a r.
Proof.
  intros Ha Hi Hr. destruct (inv_sound _ _ Hi r Hr) as (Hw&Hne&Hc&Hp).
  assert (∀ y, y ∈ class (record_identity r) accepted → admitted source a y ∧ configuration y = configuration r ∧ record_identity y = record_identity r) as Hy.
  { intros y [Hin Hy]%class_elem. split; [by eapply Forall_forall in Ha|]. split; [by apply Hc|done]. }
  destruct (class (record_identity r) accepted) as [|y k] eqn:E; [done|].
  destruct (Hy y ltac:(by left)) as ([Hm Hf _ _]&Ec&_). rewrite Ec in *. split; [done..|].
  rewrite Hp, <-E in *. apply Forall_forall. intros q Hq.
  assert (Forall wf_provenance (class (record_identity r) accepted ≫= provenance)) as Hwf.
  { apply class_provenance_wf. eapply Forall_impl; [done|]. by intros x []. }
  destruct (proj1 (merge_keys _ (provenance_key q) Hwf) ltac:(eauto)) as (q'&Hq'&Hk).
  rewrite list_elem_of_bind in Hq'. destruct Hq' as (z&Hqz&Hz). destruct (Hy z Hz) as ([_ _ _ Hz1]&_&Hz2).
  rewrite Forall_forall in Hz1. destruct (Hz1 q' Hqz) as [H1 H2].
  apply provenance_key_inj in Hk as [<- <-]; [by rewrite <-Hz2|eapply Forall_forall in Hwf; [done|]|].
  - rewrite list_elem_of_bind. eauto.
  - pose proof (mergeProvenance_wf _ Hwf) as Hmw. by eapply Forall_forall in Hmw.
Qed.

(** An inventory has at most as many records as there were inputs to it. *)
Lemma inventory_length l out : inventory_of l out → length out ≤ length l.
Proof.
  intros Hi. assert (record_identity <$> out ⊆ record_identity <$> l) as Hsub.
  { intros x (r&->&Hr)%list_elem_of_fmap. destruct (inv_sound _ _ Hi r Hr) as (_&Hne&_).
    destruct (class (record_identity r) l) as [|y k] eqn:E; [done|].
    assert (y ∈ class (record_identity r) l) as [Hy <-]%class_elem by (rewrite E; by left). by apply list_elem_of_fmap_2. }
  rewrite <-(length_fmap record_identity out), <-(length_fmap record_identity l).
  apply submseteq_length, NoDup_submseteq; [|done].
  pose proof (inv_sorted _ _ Hi) as Hsort. clear -Hsort. induction Hsort as [|r out Hs IH Hall]; [constructor|]. simpl.
  constructor; [|done]. intros (x&Hx&Hin)%list_elem_of_fmap. rewrite Forall_forall in Hall. specialize (Hall x Hin).
  unfold cmp_lt, record_cmp, cmp_on in Hall. rewrite Hx in Hall. by rewrite (cmp_refl Identity_Compare) in Hall.
Qed.
Lemma no_fatal p o l f inputs c : safe_id (psource p) → Forall input_made inputs → Fatal c ∉ verdicts p o l f inputs.
Proof.
  intros Hs Hi Hc. pose proof (verdicts_spec p o l f inputs Hs Hi) as H. rewrite Forall_forall in H. by specialize (H _ Hc).
Qed.
(** The end of [Parse], after the loop. *)
Definition settle (p : Payload) (o : ParseOptions) (report : Report) (rs : list Record_) : result Failure Snapshot :=
  _ ← guard_err ((Accepted report =? 0)%Z && (0 <? Rejected report)%Z) (failure (psource p) ErrRefresh "no_accepted_records");
  _ ← guard_err ((0 <? Rejected report)%Z && negb (AllowPartial (admission o))) (failure (psource p) ErrRefresh "partial_snapshot");
  match Deduplicate rs with
  | Ok inventory => Ok {| snapshot_source := psource p; records := inventory |}
  | Err _ => Err (failure (psource p) ErrRefresh "inventory_conflict")
  end.
Lemma parse_run p o l f inputs : safe_id (psource p) → normalized (limits o) = Some l → decode_inputs p o l = Ok (f, inputs) →
  let vs := verdicts p o l f inputs in
  Parse p o = if (Z.of_nat (length vs) <=? MaxRecords l)%Z
              then (report_of (psource p) vs, settle p o (report_of (psource p) vs) (accepted_of vs))
              else (report_of (psource p) (take (Z.to_nat (MaxRecords l)) vs), Err (failure (psource p) ErrFormat "too_many_records")).
Proof.
  intros Hs Hl Hd vs. unfold Parse. rewrite Hl, Hd. pose proof (decode_inputs_made _ _ _ _ _ Hd) as Hm.
  assert (0 ≤ MaxRecords l)%Z as Hpos.
  { unfold normalized in Hl. repeat case_match; simplify_eq; [done|]. bool_to_prop. lia. }
  pose proof (parse_loop_tally (psource p) l (admission o)
    (bool_decide (f ≠ FormatJSON) && bool_decide (format o ≠ FormatAuto)) inputs [] Hpos) as Hloop.
  cbv zeta in Hloop. change (report_of (psource p) []) with no_report in Hloop.
  change (accepted_of []) with (@nil Record_) in Hloop. change (Z.of_nat (length [])) with 0%Z in Hloop.
  rewrite Hloop by (intros c; by apply (no_fatal p o l f)). fold (verdicts p o l f inputs). simpl app.
  fold vs. by destruct (_ <=? _)%Z.
Qed.
Lemma normalized_of_parse p o report s : Parse p o = (report, Ok s) →
  ∃ l f inputs, normalized (limits o) = Some l ∧ decode_inputs p o l = Ok (f, inputs).
Proof.
  unfold Parse. destruct (normalized _) as [l|]; [|done]. destruct (decode_inputs p o l) as [[f inputs]|] eqn:E; [|done].
  intros _. by exists l, f, inputs.
Qed.
Lemma settle_ok p o report rs s : settle p o report rs = Ok s →
  snapshot_source s = psource p ∧ Deduplicate rs = Ok (records s) ∧
  (Rejected report ≤ 0 ∨ AllowPartial (admission o) = true ∧ Accepted report ≠ 0)%Z.
Proof.
  unfold settle. intros H. ok_inv. destruct (Deduplicate rs); [|done]. simplify_eq/=. split; [done|split; [done|]].
  destruct (0 <? Rejected report)%Z eqn:E; bool_to_prop; [|lia]. rewrite andb_true_r in *. simpl in *. bool_to_prop. auto.
Qed.
End theorems.

(** ** Theorems *)

Section claims.
Context {digest : Digest} {order : MapOrder} {urls : UrlParser}.

Lemma parse_admits p o report s : safe_id (psource p) → Parse p o = (report, Ok s) →
  snapshot_source s = psource p ∧
  Forall (admitted (psource p) (admission o)) (records s) ∧
  StronglySorted (cmp_lt record_cmp) (records s) ∧
  (∃ l, normalized (limits o) = Some l ∧ Accepted report + Rejected report ≤ MaxRecords l)%Z ∧
  (Z.of_nat (length (records s)) ≤ Accepted report)%Z ∧
  (AllowPartial (admission o) = false → Rejected report = 0%Z).
Proof.
  intros Hs H. destruct (normalized_of_parse _ _ _ _ H) as (l&f&inputs&Hl&Hd).
  pose proof (decode_inputs_made _ _ _ _ _ Hd) as Hm.
  rewrite (parse_run p o l f inputs Hs Hl Hd) in H. set (vs := verdicts p o l f inputs) in *.
  destruct (_ <=? _)%Z eqn:Hn; [|done]. bool_to_prop. injection H as <- Hf. apply settle_ok in Hf as (Hsrc&Hdd&Hrej).
  pose proof (accepted_admitted p o l f inputs Hs Hm) as Ha. fold vs in Ha.
  assert (inventory_of (accepted_of vs) (records s)) as Hi.
  { pose proof (Deduplicate_spec (accepted_of vs)) as Hspec. rewrite Hdd in Hspec. apply Hspec.
    eapply Forall_impl; [done|]. by intros r []. }
  pose proof (report_total (psource p) vs (λ c, no_fatal p o l f inputs c Hs Hm)) as Htot.
  split; [done|]. split; [apply Forall_forall; intros r; by eapply snapshot_admitted|].
  split; [apply Hi|]. split; [exists l; split; [done|lia]|]. split; [by apply Nat2Z.inj_le, inventory_length|].
  intros Hp. rewrite Hp in Hrej. unfold Rejected in *. simpl in *. unfold count_kind in *. destruct Hrej as [?|[??]]; [lia|done].
Qed.

(** C18: A snapshot that [Parse] returns, for any order of map iteration and any URL parser, belongs to the payload's
    source and holds only records whose configuration was made by the endpoint constructors, passes the admission
    filter (allowed protocols, refused certificate verification bypass) and whose provenance names exactly that source
    and the endpoint's own identity; identities are distinct and in increasing order, at most MaxRecords inputs were
    considered, each was either accepted or rejected, and without AllowPartial nothing was rejected. *)
Theorem parse_sound p o report s : safe_id (psource p) → Parse p o = (report, Ok s) →
  snapshot_source s = psource p ∧
  Forall (admitted (psource p) (admission o)) (records s) ∧
  StronglySorted (cmp_lt record_cmp) (records s) ∧
  (∃ l, normalized (limits o) = Some l ∧ Accepted report + Rejected report ≤ MaxRecords l)%Z ∧
  (Z.of_nat (length (records s)) ≤ Accepted report)%Z ∧
  (AllowPartial (admission o) = false → Rejected report = 0%Z).
Proof. apply parse_admits. Qed.

(** C19: The admission loop equals its reference definition: the report is the tally of the verdicts on the non-blank
    inputs (a verdict never depends on the other inputs), every input is counted once, diagnostics carry the input's
    position, and the tally decides the result.  More inputs than MaxRecords are refused as too many records; a
    payload of which everything was rejected, as having no accepted record; one of which something was rejected,
    where partial snapshots are not allowed, as partial; every other payload, whose accepted configurations do not
    collide under SHA-256, gives the snapshot of the payload's source that merges exactly the accepted records. *)
Theorem parse_tally p o l f inputs : safe_id (psource p) → normalized (limits o) = Some l →
  decode_inputs p o l = Ok (f, inputs) →
  let vs := verdicts p o l f inputs in
  coll_free sha256 (hashed (accepted_of vs)) →
  let report := (Parse p o).1 in let refused kind code := (Parse p o).2 = Err (failure (psource p) kind code) in
  if (MaxRecords l <? Z.of_nat (length vs))%Z then refused ErrFormat "too_many_records"
  else report = report_of (psource p) vs ∧ (Accepted report + Rejected report = Z.of_nat (length vs))%Z ∧
    if ((Accepted report =? 0) && (0 <? Rejected report))%Z then refused ErrRefresh "no_accepted_records"
    else if (0 <? Rejected report)%Z && negb (AllowPartial (admission o)) then refused ErrRefresh "partial_snapshot"
    else ∃ s, (Parse p o).2 = Ok s ∧ snapshot_source s = psource p ∧ merged (accepted_of vs) (records s).
Proof.
  intros Hs Hl Hd vs Hfree report refused. pose proof (decode_inputs_made _ _ _ _ _ Hd) as Hm. unfold refused, report.
  rewrite (parse_run p o l f inputs Hs Hl Hd). fold vs. rewrite Z.ltb_antisym.
  destruct (_ <=? _)%Z eqn:Hn; simpl negb; cbn iota; [|done].
  pose proof (report_total (psource p) vs (λ c, no_fatal p o l f inputs c Hs Hm)) as Htot.
  split; [done|]. split; [done|].
  assert (Forall wf_record (accepted_of vs)) as Hw.
  { eapply Forall_impl; [by apply accepted_admitted|]. by intros r []. }
  simpl fst. simpl snd. generalize dependent (report_of (psource p) vs). intros rep _.
  pose proof (Deduplicate_spec (accepted_of vs) Hw) as Hdd. unfold settle, guard_err.
  destruct ((_ =? _) && _)%Z; [done|]. destruct (_ && _); [done|]. simpl.
  destruct (Deduplicate (accepted_of vs)) as [out|]; [|by apply no_collision_no_conflict in Hdd].
  eexists. split_and!; [done|done|]. by apply inventory_merged.
Qed.

(** Auto-detected and JSON sources never turn an HTTP(S) URL into a proxy endpoint: unless the caller names a URI
    list format, no input that is a URI is accepted as an HTTP proxy. *)
Theorem http_proxy_needs_explicit_format p o l f inputs i c alias :
  decode_inputs p o l = Ok (f, inputs) → format o = FormatAuto ∨ f = FormatJSON → input_code i = "" → unknown_protocol i = true →
  resolve_input (bool_decide (f ≠ FormatJSON) && bool_decide (format o ≠ FormatAuto)) i = Ok (c, alias) →
  protocol c ≠ ProtocolHTTPProxy.
Proof.
  intros _ Hf Hc Hu. unfold resolve_input. rewrite (bool_decide_true _ Hc), Hu. simpl.
  replace (_ && _) with false; [apply parseURI_no_http|]. symmetry. apply andb_false_iff.
  rewrite !bool_decide_eq_false. naive_solver.
Qed.

(** Inputs of which one is accepted make a snapshot, when partial snapshots
    are allowed. *)
Lemma parse_one p o l f inputs : safe_id (psource p) → normalized (limits o) = Some l → decode_inputs p o l = Ok (f, inputs) →
  (Z.of_nat (length (verdicts p o l f inputs)) ≤ MaxRecords l)%Z → length (accepted_of (verdicts p o l f inputs)) = 1 →
  AllowPartial (admission o) = true → ∃ report s, Parse p o = (report, Ok s) ∧ records s ≠ [].
Proof.
  intros Hs Hl Hd Hn Hone Hp. pose proof (decode_inputs_made _ _ _ _ _ Hd) as Hm. rewrite (parse_run p o l f inputs Hs Hl Hd).
  rewrite (proj2 (Z.leb_le _ _)) by exact Hn. cbn iota. pose proof (accepted_admitted p o l f inputs Hs Hm) as Ha.
  set (vs := verdicts _ _ _ _ _) in *. clearbody vs.
  pose proof (Deduplicate_spec (accepted_of vs) ltac:(eapply Forall_impl; [exact Ha|]; by intros r [])) as Hdd.
  destruct (Deduplicate (accepted_of vs)) as [out|] eqn:Ed.
  - exists (report_of (psource p) vs), {| snapshot_source := psource p; records := out |}. split.
    { unfold settle, guard_err. assert (Accepted (report_of (psource p) vs) =? 0 = false)%Z as ->
        by (simpl; rewrite Hone; reflexivity). rewrite Hp. simpl negb. rewrite andb_false_r, Ed. reflexivity. }
    simpl records. destruct (accepted_of vs) as [|y k]; [discriminate Hone|]. destruct (inv_complete _ _ Hdd y ltac:(by left)) as (r&Hr&_).
    intros ->. by apply not_elem_of_nil in Hr.
  - destruct (accepted_of vs) as [|y [|]]; try discriminate Hone.
    destruct Hdd as (x&z&->%list_elem_of_singleton&->%list_elem_of_singleton&_&Hne). by destruct Hne.
Qed.
End claims.

Module ParseSample.
#[local] Existing Instance toy_digest.
Definition text : string := "trojan://pw@h.example:443#n" +:+ of_chars [newline] +:+ "http://h".
Definition payload : Payload := {| psource := "src"; pdata := text; pcontentType := "" |}.
Definition options (partial : bool) : ParseOptions :=
  {| format := FormatAuto; limits := no_limits;
     admission := {| AllowPartial := partial; AllowedProtocol := [ProtocolTrojan]; DenyInsecureTLS := true |} |}.
Lemma source_safe : safe_id (psource payload).
Proof. split; [done|reflexivity]. Qed.
Definition inputs : list parseInput := line_inputs text.
Lemma payload_decodes b : decode_inputs payload (options b) DefaultLimits = Ok (FormatURIList, inputs).
Proof. destruct b; vm_compute; reflexivity. Qed.
Lemma accepted_one b : length (accepted_of (verdicts payload (options b) DefaultLimits FormatURIList inputs)) = 1.
Proof. destruct b; lazy; reflexivity. Qed.
Lemma verdicts_two b : length (verdicts payload (options b) DefaultLimits FormatURIList inputs) = 2.
Proof. destruct b; lazy; reflexivity. Qed.
Lemma parse_accepts : ∃ report s, Parse payload (options true) = (report, Ok s) ∧ records s ≠ [].
Proof.
  apply (parse_one payload (options true) DefaultLimits FormatURIList inputs); [apply source_safe|reflexivity|apply payload_decodes| |apply accepted_one|done].
  by rewrite verdicts_two.
Qed.

Lemma parse_sound_witness : ∃ report s, Parse payload (options true) = (report, Ok s) ∧ records s ≠ [] ∧
  snapshot_source s = "src" ∧ Forall (admitted "src" (admission (options true))) (records s).
Proof.
  destruct parse_accepts as (report&s&E&Hne). exists report, s.
  destruct (parse_sound payload (options true) report s source_safe E) as (H1&H2&_).
  exact (conj E (conj Hne (conj H1 H2))).
Defined.
Lemma parse_tally_witness :
  (Parse payload (options false)).2 = Err (failure "src" ErrRefresh "partial_snapshot") ∧
  ∃ s, (Parse payload (options true)).2 = Ok s ∧
    merged (accepted_of (verdicts payload (options true) DefaultLimits FormatURIList inputs)) (records s).
Proof.
  assert (∀ b, coll_free sha256 (hashed (accepted_of (verdicts payload (options b) DefaultLimits FormatURIList inputs)))) as Hc.
  { intros b. destruct b; apply (bool_decide_unpack _); vm_compute; exact I. }
  pose proof (λ b, parse_tally payload (options b) DefaultLimits FormatURIList inputs source_safe eq_refl (payload_decodes b) (Hc b)) as H.
  cbv zeta in H. split.
  - specialize (H false). rewrite verdicts_two in H. change (MaxRecords DefaultLimits <? Z.of_nat 2)%Z with false in H. cbn iota in H.
    destruct H as (E & _ & H). rewrite E in H.
    assert (Accepted (report_of "src" (verdicts payload (options false) DefaultLimits FormatURIList inputs)) = 1)%Z as E1 by (vm_compute; reflexivity).
    assert (Rejected (report_of "src" (verdicts payload (options false) DefaultLimits FormatURIList inputs)) = 1)%Z as E2 by (vm_compute; reflexivity).
    change (psource payload) with "src" in H. rewrite E1, E2 in H. exact H.
  - specialize (H true). rewrite verdicts_two in H. change (MaxRecords DefaultLimits <? Z.of_nat 2)%Z with false in H. cbn iota in H.
    destruct H as (E & _ & H). rewrite E in H.
    assert (Accepted (report_of "src" (verdicts payload (options true) DefaultLimits FormatURIList inputs)) = 1)%Z as E1 by (vm_compute; reflexivity).
    assert (Rejected (report_of "src" (verdicts payload (options true) DefaultLimits FormatURIList inputs)) = 1)%Z as E2 by (vm_compute; reflexivity).
    change (psource payload) with "src" in H. rewrite E1, E2 in H. destruct H as (s & H1 & _ & H2). exists s. exact (conj H1 H2).
Defined.
Lemma http_proxy_needs_explicit_format_witness : ∃ c alias, resolve_input false (of_uri "trojan://pw@h.example:443") = Ok (c, alias) ∧
  protocol c ≠ ProtocolHTTPProxy.
Proof.
  destruct (resolve_input false (of_uri "trojan://pw@h.example:443")) as [[c alias]|] eqn:E; [|vm_compute in E; discriminate E].
  exists c, alias. split; [reflexivity|].
  apply (http_proxy_needs_explicit_format payload (options false) DefaultLimits FormatURIList inputs
    (of_uri "trojan://pw@h.example:443") c alias); [apply payload_decodes|by left|reflexivity|reflexivity|exact E].
Defined.
End ParseSample.
