(* ===== verification/Artifact.v ===== *)
(** * Rendered artifacts and receipts (internal/artifact/artifact.go)

    Engine profiles, candidates, validation, the generation digest and the
    protected receipt.  encoding/json is the class [ReceiptCodec]: what the
    code relies on is that a marshalled receipt unmarshals to itself; the
    law is stated for ASCII strings, as encoding/json replaces invalid UTF-8. *)
From S2P Require Import Prelude Order Bytes Encoding Endpoint.
From Stdlib Require Import Ascii.
From Stdlib Require String.

Inductive Engine := EngineUnknown | EngineMihomo | EngineSingBox.
#[global] Instance Engine_eq_dec : EqDecision Engine.
Proof. solve_decision. Defined.
Definition Engine_code (e : Engine) : Z := match e with EngineUnknown => 0 | EngineMihomo => 1 | EngineSingBox => 2 end.
Definition Engine_String (e : Engine) : string :=
  match e with EngineMihomo => "mihomo" | EngineSingBox => "sing-box" | EngineUnknown => "unknown" end.

Record Profile := { engine : Engine; pversion : string; rendererSchema : string; mediaType : string }.
#[global] Instance Profile_eq_dec : EqDecision Profile.
Proof. solve_decision. Defined.
Definition Mihomo11931 : Profile :=
  {| engine := EngineMihomo; pversion := "1.19.31"; rendererSchema := "egressfox.mihomo/v1"; mediaType := "application/yaml" |}.
Definition SingBox1141 : Profile :=
  {| engine := EngineSingBox; pversion := "1.14.1"; rendererSchema := "egressfox.sing-box/v3"; mediaType := "application/json" |}.

Record Candidate := { profile : Profile; content : string }.
#[global] Instance Candidate_eq_dec : EqDecision Candidate.
Proof. solve_decision. Defined.
Definition NewCandidate (p : Profile) (c : string) : option Candidate :=
  if bool_decide (Engine_String (engine p) = "unknown") || bool_decide (pversion p = "") ||
     bool_decide (rendererSchema p = "") || bool_decide (mediaType p = "") || bool_decide (c = "")
  then None else Some {| profile := p; content := c |}.

(** The characters of validator IDs, probe IDs and selection scopes. *)
Definition safe_char (c : ascii) : bool := is_alnum c || char_elem c "./_-".
Definition safe_name (value : string) : bool :=
  negb (slen value =? 0)%Z && negb (128 <? slen value)%Z && all_chars safe_char value.
Definition safeValidatorID : string → bool := safe_name.

Record receiptData := {
  rd_profile : Profile; rd_generation : string; rd_validatorID : string;
}.
#[global] Instance receiptData_eq_dec : EqDecision receiptData.
Proof. solve_decision. Defined.

(** ASCII text. *)
Definition plain : string → bool := all_chars is_ascii.
Definition plain_profile (p : Profile) : Prop :=
  plain (pversion p) = true ∧ plain (rendererSchema p) = true ∧ plain (mediaType p) = true.

Lemma safe_plain s : safe_name s = true → plain s = true.
Proof.
  unfold safe_name, plain, all_chars. intros [_ Hs]%andb_true_iff. rewrite forallb_forall in *.
  intros c Hc%Hs. revert Hc. destruct c as [[] [] [] [] [] [] [] []]; by vm_compute.
Qed.

Class ReceiptCodec := {
  marshal : receiptData → string;
  unmarshal : string → option receiptData;
  marshal_nonempty d : marshal d ≠ "";
  unmarshal_marshal d : plain_profile (rd_profile d) → plain (rd_validatorID d) = true →
    unmarshal (marshal d) = Some d;
}.

Section artifact.
Context `{Digest}.

(** The bytes the generation digest hashes. *)
Definition generation_input (c : Candidate) : string :=
  "egressfox.artifact/v1" +:+ u8 (Engine_code (engine (profile c))) +:+ enc_string (pversion (profile c)) +:+
  enc_string (rendererSchema (profile c)) +:+ enc_string (mediaType (profile c)) +:+ content c.
Definition generation (c : Candidate) : string := sha256 (generation_input c).

Record Validated := { candidate : Candidate; vgeneration : string; validatorID : string }.

Inductive validate_error := NoChecker | CheckFailed (code : string) | InvalidEvidence.
(** [Validate]: the checker is the native engine, behind an interface. *)
Definition Validate (checker : option (Candidate → string + string)) (c : Candidate) : result validate_error Validated :=
  match checker with
  | None => Err NoChecker
  | Some check =>
      match check c with
      | inr code => Err (CheckFailed code)
      | inl evidence =>
          if negb (safeValidatorID evidence) then Err InvalidEvidence
          else Ok {| candidate := c; vgeneration := generation c; validatorID := evidence |}
      end
  end.

Definition Validated_Equal (a b : Validated) : bool :=
  bool_decide (profile (candidate a) = profile (candidate b)) && bool_decide (vgeneration a = vgeneration b).

Section receipts.
Context `{ReceiptCodec}.

(** A [Receipt] is its canonical encoding; the zero value is empty. *)
Definition RestoreReceipt (encoded : string) : option string :=
  data ← unmarshal encoded;
  if negb (slen (rd_generation data) =? 32)%Z || negb (safeValidatorID (rd_validatorID data)) then None
  else _ ← NewCandidate (rd_profile data) (String (byte_of 1) ""); Some (marshal data).
Definition Receipt_RevealForPersistence (r : string) : option string :=
  if bool_decide (r = "") then None else Some r.
Definition Receipt_Equal (r s : string) : bool :=
  (0 <? slen r)%Z && (slen r =? slen s)%Z && bool_decide (r = s).

Definition ProtectedReceipt (a : Validated) : option string :=
  if bool_decide (content (candidate a) = "") || negb (safeValidatorID (validatorID a)) then None
  else Some (marshal {| rd_profile := profile (candidate a); rd_generation := vgeneration a;
                        rd_validatorID := validatorID a |}).
Definition Validated_Receipt (a : Validated) : option string := ProtectedReceipt a ≫= RestoreReceipt.

Definition MatchesProtectedReceipt (content encoded : string) : option Profile :=
  data ← unmarshal encoded;
  if negb (slen (rd_generation data) =? 32)%Z || negb (safeValidatorID (rd_validatorID data)) then None else
  c ← NewCandidate (rd_profile data) content;
  if bool_decide (generation c = rd_generation data) then Some (rd_profile data) else None.

(** ** Receipts identify artifacts *)

Definition small_profile (p : Profile) : Prop :=
  fits32 (pversion p) ∧ fits32 (rendererSchema p) ∧ fits32 (mediaType p).

Lemma generation_input_inj c d : small_profile (profile c) → small_profile (profile d) →
  generation_input c = generation_input d → c = d.
Proof.
  destruct c as [[e v s m] ct], d as [[e' v' s' m'] ct']. unfold small_profile, generation_input. simpl.
  intros (?&?&?) (?&?&?) E. apply sapp_inj_len in E as [_ E]; [|done].
  apply u8_inj in E as [He E]; [|by destruct e|by destruct e'].
  apply enc_string_inj in E as [-> E]; [|done..]. apply enc_string_inj in E as [-> E]; [|done..].
  apply enc_string_inj in E as [-> ->]; [|done..]. by destruct e, e'.
Qed.

Lemma NewCandidate_Some p ct c : NewCandidate p ct = Some c → c = {| profile := p; content := ct |} ∧ ct ≠ "".
Proof. unfold NewCandidate. destruct (_ || _) eqn:E; [done|]. intros [= <-]. bool_to_prop. done. Qed.

Lemma NewCandidate_other p ct ct' : is_Some (NewCandidate p ct) → ct' ≠ "" →
  NewCandidate p ct' = Some {| profile := p; content := ct' |}.
Proof.
  intros [c Hc] Hne. unfold NewCandidate in *. destruct (_ || bool_decide (ct = "")) eqn:E in Hc; [done|].
  apply orb_false_iff in E as [E _]. rewrite E. simpl. by rewrite bool_decide_false.
Qed.

(** The artifacts [NewCandidate] and [Validate] make of an ASCII profile, as
    both profiles the renderers use are. *)
Inductive made_validated : Validated → Prop :=
| made_by_validate p ct c checker a :
    plain_profile p → NewCandidate p ct = Some c → Validate checker c = Ok a → made_validated a.

Lemma made_validated_inv a : made_validated a →
  is_Some (NewCandidate (profile (candidate a)) (content (candidate a))) ∧ content (candidate a) ≠ "" ∧
  vgeneration a = generation (candidate a) ∧ safeValidatorID (validatorID a) = true.
Proof.
  destruct 1 as [p ct c checker a _ Hc Hv]. unfold Validate in Hv. destruct checker as [check|]; [|done].
  destruct (check c) as [ev|]; [|done]. destruct (safeValidatorID ev) eqn:Hs; [|done]. injection Hv as <-.
  pose proof (NewCandidate_Some _ _ _ Hc) as [-> ?]. simpl. split_and!; [by eexists|done..].
Qed.

Lemma made_validated_json a : made_validated a →
  let d := {| rd_profile := profile (candidate a); rd_generation := vgeneration a; rd_validatorID := validatorID a |} in
  unmarshal (marshal d) = Some d.
Proof.
  intros Ha d. apply unmarshal_marshal; [|by apply safe_plain, made_validated_inv].
  destruct Ha as [p ct c checker a Hp Hc Hv]. unfold Validate in Hv. destruct checker as [check|]; [|done].
  destruct (check c) as [ev|]; [|done]. destruct (safeValidatorID ev); [|done]. injection Hv as <-.
  by apply NewCandidate_Some in Hc as [-> _].
Qed.

Lemma ProtectedReceipt_made a : made_validated a →
  ProtectedReceipt a = Some (marshal {| rd_profile := profile (candidate a); rd_generation := vgeneration a;
                                        rd_validatorID := validatorID a |}).
Proof.
  intros (_&Hc&_&Hv)%made_validated_inv. unfold ProtectedReceipt. rewrite bool_decide_false by done.
  by rewrite Hv.
Qed.

Lemma receipt_of_made a : made_validated a → ∃ r, Validated_Receipt a = Some r ∧ ProtectedReceipt a = Some r ∧ r ≠ "".
Proof.
  intros Ha. destruct (made_validated_inv a Ha) as (Hnc&Hc&Hg&Hv). unfold Validated_Receipt.
  rewrite (ProtectedReceipt_made a Ha). csimpl. eexists. split_and!; [|done|apply marshal_nonempty].
  unfold RestoreReceipt. rewrite made_validated_json by done. csimpl. rewrite Hg. unfold generation at 1.
  rewrite sha256_length, Hv. simpl.
  rewrite (NewCandidate_other (profile (candidate a)) (content (candidate a))) by done. done.
Qed.

Lemma receipt_matches a r : made_validated a → ProtectedReceipt a = Some r →
  MatchesProtectedReceipt (content (candidate a)) r = Some (profile (candidate a)).
Proof.
  intros Ha Hp. rewrite ProtectedReceipt_made in Hp by done. injection Hp as <-.
  destruct (made_validated_inv a Ha) as (Hnc&Hc&Hg&Hv).
  unfold MatchesProtectedReceipt. rewrite made_validated_json by done. csimpl. rewrite Hg, Hv. unfold generation at 1.
  rewrite sha256_length. simpl.
  rewrite (NewCandidate_other (profile (candidate a)) (content (candidate a))) by done. simpl.
  rewrite bool_decide_true; [done|]. by destruct (candidate a).
Qed.

(** A validated artifact always has a receipt, restoring its encoding gives the same receipt, and the receipt
    matches the artifact's own content. *)
Theorem receipt_round_trip a : made_validated a → ∃ r,
  Validated_Receipt a = Some r ∧ Receipt_RevealForPersistence r = Some r ∧ RestoreReceipt r = Some r ∧
  MatchesProtectedReceipt (content (candidate a)) r = Some (profile (candidate a)).
Proof.
  intros Ha. destruct (receipt_of_made a Ha) as (r&Hr&Hp&Hne). exists r. rewrite Hr.
  unfold Validated_Receipt in Hr. rewrite Hp in Hr. simpl in Hr.
  split_and!; [done|unfold Receipt_RevealForPersistence; by rewrite bool_decide_false|done|].
  by apply receipt_matches.
Qed.

(** If any bytes match the receipt of a validated artifact under the profile it records, they are that
    artifact's bytes, when the two generation inputs do not collide: a receipt authenticates exactly one artifact. *)
Theorem receipt_authenticates a r bytes p : made_validated a → small_profile (profile (candidate a)) →
  ProtectedReceipt a = Some r → MatchesProtectedReceipt bytes r = Some p →
  coll_free sha256 [generation_input (candidate a); generation_input {| profile := profile (candidate a); content := bytes |}] →
  p = profile (candidate a) ∧ bytes = content (candidate a).
Proof.
  intros Ha Hsm Hr Hm Hfree. rewrite ProtectedReceipt_made in Hr by done. injection Hr as <-.
  destruct (made_validated_inv a Ha) as (Hnc&Hc&Hg&Hv).
  unfold MatchesProtectedReceipt in Hm. rewrite made_validated_json in Hm by done. csimpl in Hm.
  destruct (_ || _); [done|]. apply bind_Some in Hm as (c&Hc'&Hm). case_bool_decide as Hgen; [|done].
  injection Hm as <-. apply NewCandidate_Some in Hc' as [-> Hne].
  rewrite Hg in Hgen. apply Hfree in Hgen; [|by rewrite !elem_of_cons; auto..].
  split; [done|]. apply generation_input_inj in Hgen; [|done..]. by destruct (candidate a); simplify_eq/=.
Qed.
End receipts.
End artifact.

(** ** A concrete codec

    Any injective text of the record does for evaluating the model. *)
Fixpoint pos_text (p : positive) : string :=
  match p with xH => "." | xO p' => String "0" (pos_text p') | xI p' => String "1" (pos_text p') end.
Fixpoint text_pos (s : string) : option positive :=
  match s with
  | String "." EmptyString => Some xH
  | String "0" s' => xO <$> text_pos s'
  | String "1" s' => xI <$> text_pos s'
  | _ => None
  end.
Lemma text_pos_text p : text_pos (pos_text p) = Some p.
Proof. induction p as [p IH|p IH|]; simpl; [by rewrite IH..|done]. Qed.

#[local] Instance Engine_countable : Countable Engine.
Proof.
  apply (inj_countable Engine_code (λ z, Some (if (z =? 1)%Z then EngineMihomo
    else if (z =? 2)%Z then EngineSingBox else EngineUnknown))). by intros [].
Defined.
#[local] Instance receiptData_countable : Countable receiptData.
Proof.
  apply (inj_countable' (λ d, (engine (rd_profile d), pversion (rd_profile d), rendererSchema (rd_profile d),
      mediaType (rd_profile d), rd_generation d, rd_validatorID d))
    (λ '(e, v, s, m, g, i), {| rd_profile := {| engine := e; pversion := v; rendererSchema := s; mediaType := m |};
                               rd_generation := g; rd_validatorID := i |})).
  by intros [[] ? ?].
Defined.
Definition toy_codec : ReceiptCodec.
Proof.
  refine {| marshal d := pos_text (encode d); unmarshal s := text_pos s ≫= decode |}.
  - intros d. by destruct (encode d).
  - intros d _ _. rewrite text_pos_text. simpl. apply decode_encode.
Defined.

Module ArtifactSample.
Definition cand : Candidate := {| profile := Mihomo11931; content := "proxies: []" |}.
Definition validated : Validated :=
  {| candidate := cand; vgeneration := @generation toy_digest cand; validatorID := "mihomo/1.19.31" |}.
Lemma validated_made : @made_validated toy_digest validated.
Proof.
  apply (@made_by_validate toy_digest Mihomo11931 "proxies: []" cand (Some (λ _, inl "mihomo/1.19.31"))); done.
Qed.
End ArtifactSample.

Lemma receipt_round_trip_witness : ∃ r,
  @Validated_Receipt toy_codec ArtifactSample.validated = Some r ∧
  @Receipt_RevealForPersistence r = Some r ∧ @RestoreReceipt toy_codec r = Some r ∧
  @MatchesProtectedReceipt toy_digest toy_codec "proxies: []" r = Some Mihomo11931.
Proof. apply (@receipt_round_trip toy_digest toy_codec ArtifactSample.validated), ArtifactSample.validated_made. Defined.

Lemma receipt_authenticates_witness :
  Mihomo11931 = Mihomo11931 ∧ "proxies: []" = "proxies: []".
Proof.
  eapply (@receipt_authenticates toy_digest toy_codec ArtifactSample.validated _ "proxies: []" Mihomo11931);
    [apply ArtifactSample.validated_made|done|vm_compute; reflexivity|vm_compute; reflexivity|].
  apply (bool_decide_unpack _). vm_compute. exact I.
Defined.
