(* ===== verification/NativeCheck.v ===== *)
(** * Native engine checks (internal/artifact/native.go)

    [NativeChecker.Check] runs the pinned engine twice: for its version, and
    on the candidate in a workspace of its own.  What the processes, the file
    system and the context do are arguments; the calls are logged. *)
From S2P Require Import Prelude Order Bytes Encoding Netip Endpoint Text Artifact.
From Stdlib Require Import Ascii.
From Stdlib Require String.
Open Scope Z_scope.

(** ** The checker *)

Record NativeChecker := { nc_profile : Profile; binary : string; nc_timeout : Z }.
(** What [os.Lstat] says of the binary. *)
Record file_info := { fi_regular : bool; fi_symlink : bool; fi_executable : bool }.
Definition NewNativeChecker (p : Profile) (binary : string) (timeout : Z) (info : option file_info) : result string NativeChecker :=
  if negb (has_prefix "/" binary) || (timeout <=? 0) then Err "absolute binary and positive timeout" else
  match info with
  | None => Err "executable regular file"
  | Some i =>
      if negb (fi_regular i) || fi_symlink i || negb (fi_executable i) then Err "executable regular file"
      else if bool_decide (p = Mihomo11931) || bool_decide (p = SingBox1141) then Ok {| nc_profile := p; binary := binary; nc_timeout := timeout |}
      else Err "profile"
  end.

(** ** Bounded output *)

Definition limit : Z := 16 * 2 ^ 10.
(** [limitedBuffer.Write]. *)
Definition buffer_write (buffer p : string) : string :=
  let remaining := limit - Z.of_nat (String.length buffer) in
  if 0 <? remaining then
    if remaining <? Z.of_nat (String.length p) then buffer +:+ take_first (Z.to_nat remaining) p else buffer +:+ p
  else buffer.
Definition captured (writes : list string) : string := foldl buffer_write "" writes.
Definition hasVersionToken (output version : string) : bool := existsb (λ field, bool_decide (trim_prefix "v" field = version)) (Fields output).

(** ** A check *)

Inductive context_state := ContextLive | ContextDeadline | ContextCanceled.
Definition contextCode (c : context_state) (fallback : string) : string :=
  match c with ContextDeadline => "timeout" | ContextCanceled => "cancelled" | ContextLive => fallback end.
(** A process: what it writes, whether it exits successfully, and the context
    afterwards. *)
Record process := { writes : list string; exit_ok : bool; context_after : context_state }.
Inductive native_effect :=
| RunProcess (directory : string) (args : list string)
| MakeWorkspace (directory : string)
| RestrictWorkspace (directory : string)
| WriteCandidate (path content : string)
| RemoveWorkspace (directory : string).
Record native_answers := { version_process : process; workspace : option string; chmod_ok : bool; write_ok : bool; check_process : process }.

Definition is_mihomo (p : Profile) : bool := bool_decide (engine p = EngineMihomo).
Definition version_args (p : Profile) : list string := if is_mihomo p then ["-v"] else ["version"].
Definition candidate_path (p : Profile) (directory : string) : string := directory +:+ "/candidate" +:+ (if is_mihomo p then ".yaml" else ".json").
Definition check_args (p : Profile) (directory : string) : list string :=
  let path := candidate_path p directory in
  if is_mihomo p then ["-t"; "-f"; path; "-d"; directory] else ["check"; "-c"; path; "-D"; directory].
Definition evidence_id (p : Profile) : string := "native/" +:+ Engine_String (engine p) +:+ "/" +:+ pversion p.

(** From the creation of the workspace on, with its deferred removal. *)
Definition check_candidate (p : Profile) (content : string) (a : native_answers) : result string string * list native_effect :=
  match workspace a with
  | None => (Err "workspace_failed", [])
  | Some d =>
      let '(r, l) :=
        if negb (chmod_ok a) then (Err "workspace_failed", [RestrictWorkspace d])
        else if negb (write_ok a) then (Err "workspace_failed", [RestrictWorkspace d; WriteCandidate (candidate_path p d) content])
        else
          (if exit_ok (check_process a) then Ok (evidence_id p) else Err (contextCode (context_after (check_process a)) "candidate_rejected"),
           [RestrictWorkspace d; WriteCandidate (candidate_path p d) content; RunProcess d (check_args p d)]) in
      (r, MakeWorkspace d :: l ++ [RemoveWorkspace d])
  end.
Definition Check_native (c : NativeChecker) (x : Candidate) (a : native_answers) : result string string * list native_effect :=
  let p := nc_profile c in
  if negb (bool_decide (profile x = p)) then (Err "profile_mismatch", []) else
  let version := RunProcess "" (version_args p) in
  if negb (exit_ok (version_process a)) then (Err (contextCode (context_after (version_process a)) "version_failed"), [version])
  else if negb (hasVersionToken (captured (writes (version_process a))) (pversion p)) then (Err "version_mismatch", [version])
  else let '(r, l) := check_candidate p (content x) a in (r, version :: l).
(** The code of a failed check is that of its [ValidationError]; the checker
    as [Validate] takes it. *)
Definition native_checker (c : NativeChecker) (a : Candidate → native_answers) (x : Candidate) : string + string :=
  match (Check_native c x (a x)).1 with Ok id => inl id | Err code => inr code end.

(** ** What evidence means *)

Lemma buffer_write_bounded b p : Z.of_nat (String.length b) ≤ limit → Z.of_nat (String.length (buffer_write b p)) ≤ limit.
Proof.
  intros Hb. unfold buffer_write. cbv zeta. destruct (0 <? _) eqn:E; [|done]. destruct (_ <? Z.of_nat (String.length p)) eqn:El; rewrite slen_app; [|lia].
  unfold take_first. rewrite length_of_chars, length_take. lia.
Qed.
Lemma captured_bounded ws : Z.of_nat (String.length (captured ws)) ≤ limit.
Proof.
  unfold captured. assert (Z.of_nat (String.length "") ≤ limit) as H0 by (vm_compute; discriminate). revert H0. generalize "" as b.
  induction ws as [|p ws IH]; intros b Hb; [done|]. cbn. by apply IH, buffer_write_bounded.
Qed.
Definition removed (e : native_effect) : option string := match e with RemoveWorkspace d => Some d | _ => None end.
Definition made (e : native_effect) : option string := match e with MakeWorkspace d => Some d | _ => None end.

(** Evidence is what the pinned engine said of exactly this candidate.  A check succeeds only when the candidate is of
    the checker's profile, the engine reported the profile's version (in the first 16 KiB it wrote), and then accepted
    the file that holds the candidate's bytes, in the order logged; the evidence names the engine and the version.
    Whether it succeeds or not, the workspace it made is removed at the end, and at most one was made. *)
Theorem native_evidence c x a r l : Check_native c x a = (r, l) →
  omap made l = omap removed l ∧ (length (omap made l) ≤ 1)%nat ∧
  ∀ id, r = Ok id → ∃ d out, profile x = nc_profile c ∧ id = evidence_id (nc_profile c) ∧ workspace a = Some d ∧
    out = captured (writes (version_process a)) ∧ Z.of_nat (String.length out) ≤ limit ∧
    (∃ field, field ∈ Fields out ∧ trim_prefix "v" field = pversion (nc_profile c)) ∧
    exit_ok (version_process a) = true ∧ exit_ok (check_process a) = true ∧
    l = [RunProcess "" (version_args (nc_profile c)); MakeWorkspace d; RestrictWorkspace d; WriteCandidate (candidate_path (nc_profile c) d) (content x);
         RunProcess d (check_args (nc_profile c) d); RemoveWorkspace d].
Proof.
  unfold Check_native. case_bool_decide as Ep; cbn [negb]; [|intros [= <- <-]; split_and!; [done|cbn; lia|done]].
  destruct (exit_ok (version_process a)) eqn:Ev; cbn [negb]; [|intros [= <- <-]; split_and!; [done|cbn; lia|done]].
  destruct (hasVersionToken _ _) eqn:Et; cbn [negb]; [|intros [= <- <-]; split_and!; [done|cbn; lia|done]].
  unfold check_candidate. destruct (workspace a) as [d|]; [|intros [= <- <-]; split_and!; [done|cbn; lia|done]].
  destruct (chmod_ok a); cbn [negb]; [|intros [= <- <-]; split_and!; [done|cbn; lia|done]].
  destruct (write_ok a); cbn [negb]; [|intros [= <- <-]; split_and!; [done|cbn; lia|done]].
  intros [= <- <-]. split_and!; [done|cbn; lia|]. intros id Hid. destruct (exit_ok (check_process a)) eqn:Ec; [|done]. injection Hid as <-.
  exists d, (captured (writes (version_process a))). split_and!; [done|done|done|done|apply captured_bounded| |done|done|done].
  unfold hasVersionToken in Et. apply existsb_exists in Et as (f&Hf&E%bool_decide_eq_true). exists f. split; [by apply list_elem_of_In|done].
Qed.
