(* ===== verification/Observation.v ===== *)
(** * Probe observations and their summaries (internal/observation)

    Evidence keys, observations with their sample digests (model.go), the
    windowed summary (summary.go) and target revisions (target.go).  The
    float64 success ratio of a summary is the pair of counts it is made
    from; nothing in the program reads the quotient. *)
From S2P Require Import Prelude Order Bytes Encoding Netip Identity Artifact.
From Stdlib Require Import Ascii.
From Stdlib Require String.
Open Scope Z_scope.

Inductive Kind := KindUnknown | KindHTTPGet.
#[global] Instance Kind_eq_dec : EqDecision Kind.
Proof. solve_decision. Defined.
Definition Kind_code (k : Kind) : Z := match k with KindUnknown => 0 | KindHTTPGet => 1 end.

(** [Outcome]; a value outside the declared constants is [OutcomeUnknown]. *)
Inductive Outcome :=
| OutcomeUnknown | OutcomeSuccess | OutcomeTimeout | OutcomeConnectionFailure | OutcomeTLSFailure
| OutcomeUnexpectedResponse | OutcomeResponseTooLarge.
#[global] Instance Outcome_eq_dec : EqDecision Outcome.
Proof. solve_decision. Defined.
Definition Outcome_code (o : Outcome) : Z :=
  match o with
  | OutcomeUnknown => 0 | OutcomeSuccess => 1 | OutcomeTimeout => 2 | OutcomeConnectionFailure => 3
  | OutcomeTLSFailure => 4 | OutcomeUnexpectedResponse => 5 | OutcomeResponseTooLarge => 6
  end.

(** [Revision.Equal]: a nil revision equals nothing. *)
Definition revision_equal (r s : option string) : bool :=
  match r, s with Some a, Some b => bool_decide (a = b) | _, _ => false end.

Record ConnectionRef := { cid : string; crev : option string }.
#[global] Instance ConnectionRef_eq_dec : EqDecision ConnectionRef.
Proof. solve_decision. Defined.
Definition NewConnectionRef (i : Identity) : option ConnectionRef :=
  if bool_decide (revision i = None) || bool_decide (id i = "") then None
  else Some {| cid := id i; crev := revision i |}.
Definition RestoreConnectionRef (i : string) (r : option string) : option ConnectionRef :=
  if bool_decide (r = None) || bool_decide (i = "") then None else Some {| cid := i; crev := r |}.
Definition ConnectionRef_Equal (x y : ConnectionRef) : bool :=
  bool_decide (cid x = cid y) && revision_equal (crev x) (crev y).

Definition safeID : string → bool := safe_name.
Definition NewTargetID (v : string) : option string := if safeID v then Some v else None.
Definition NewVantageID (v : string) : option string := if safeID v then Some v else None.

Record TargetRef := { tid : string; trev : option string }.
#[global] Instance TargetRef_eq_dec : EqDecision TargetRef.
Proof. solve_decision. Defined.
Definition RestoreTargetRef (i : string) (encoded : string) : option TargetRef :=
  if negb (slen encoded =? 32) || bool_decide (i = "") then None else Some {| tid := i; trev := Some encoded |}.
Definition TargetRef_Equal (x y : TargetRef) : bool :=
  bool_decide (tid x = tid y) && revision_equal (trev x) (trev y).

Record Key := { connection : ConnectionRef; target : TargetRef; vantage : string; kind : Kind; kprofile : Profile }.
#[global] Instance Key_eq_dec : EqDecision Key.
Proof. solve_decision. Defined.
Definition supportedProfile (p : Profile) : bool := bool_decide (p = Mihomo11931) || bool_decide (p = SingBox1141).
Definition valid_key (k : Key) : bool :=
  negb (bool_decide (cid (connection k) = "") || bool_decide (tid (target k) = "") ||
        bool_decide (vantage k = "") || bool_decide (kind k ≠ KindHTTPGet) || negb (supportedProfile (kprofile k))).
Definition NewKey (c : ConnectionRef) (t : TargetRef) (v : string) (kd : Kind) (p : Profile) : option Key :=
  let k := {| connection := c; target := t; vantage := v; kind := kd; kprofile := p |} in
  if valid_key k then Some k else None.

Definition sameKey (left right : Key) : bool :=
  bool_decide (cid (connection left) = cid (connection right)) &&
  revision_equal (crev (connection left)) (crev (connection right)) &&
  bool_decide (tid (target left) = tid (target right)) &&
  revision_equal (trev (target left)) (trev (target right)) &&
  bool_decide (vantage left = vantage right) && bool_decide (kind left = kind right) &&
  bool_decide (kprofile left = kprofile right).

Record Observation := {
  key : Key; startedAt : Z; completedAt : Z; duration : Z; outcome : Outcome; statusCode : Z;
  sampleID : string;
}.
#[global] Instance Observation_eq_dec : EqDecision Observation.
Proof. solve_decision. Defined.
Definition Successful (o : Observation) : bool := bool_decide (outcome o = OutcomeSuccess).

Inductive observation_error :=
| InvalidKey | InvalidTiming | InvalidOutcome | InvalidStatus | UnexpectedStatus.

Section observation.
Context `{Digest}.

Definition observation_input (k : Key) (started completed d : Z) (o : Outcome) (status : Z) : string :=
  "egressfox.observation/v1" +:+ enc_string (cid (connection k)) +:+ default "" (crev (connection k)) +:+
  enc_string (tid (target k)) +:+ default "" (trev (target k)) +:+ enc_string (vantage k) +:+
  u8 (Kind_code (kind k)) +:+ u8 (Engine_code (engine (kprofile k))) +:+ u8 (Outcome_code o) +:+
  enc_string (pversion (kprofile k)) +:+ enc_string (rendererSchema (kprofile k)) +:+
  u64 (unix_nano started) +:+ u64 (unix_nano completed) +:+ u64 d +:+ u64 status.

Definition New (k : Key) (started completed d : Z) (o : Outcome) (status : Z) : result observation_error Observation :=
  _ ← guard_err (negb (valid_key k)) InvalidKey;
  _ ← guard_err (is_zero started || is_zero completed || (completed <? started) || (d <? 0) || (2 * minute <? d))
        InvalidTiming;
  _ ← guard_err (bool_decide (o = OutcomeUnknown)) InvalidOutcome;
  _ ← (if bool_decide (o = OutcomeSuccess) || bool_decide (o = OutcomeUnexpectedResponse)
       then guard_err ((status <? 100) || (599 <? status)) InvalidStatus
       else guard_err (negb (status =? 0)) UnexpectedStatus);
  Ok {| key := k; startedAt := started; completedAt := completed; duration := d; outcome := o;
        statusCode := status; sampleID := sha256 (observation_input k started completed d o status) |}.

(** ** Summaries *)

Record Summary := {
  skey : Key; samples : Z; successes : Z; latest : option Observation; latestSuccess : option Observation;
  meanSuccessDuration : Z; consecutiveSuccesses : Z; consecutiveFailures : Z; fresh : bool;
}.

Inductive summary_error := SummaryKey | SummaryBounds | DifferentKey.

(** The less function of the sort: completion time, then sample digest. *)
Definition observation_cmp : Observation → Observation → comparison :=
  cmp_lex (cmp_on completedAt Z.compare) (cmp_on sampleID bytes_compare).

(** The loop over the input: every key is checked, the window filters. *)
Fixpoint filter_window (k : Key) (cutoff now : Z) (values : list Observation)
    : result summary_error (list Observation) :=
  match values with
  | [] => Ok []
  | v :: rest =>
      _ ← guard_err (negb (sameKey k (key v))) DifferentKey;
      l ← filter_window k cutoff now rest;
      if (completedAt v <? cutoff) || (now <? completedAt v) then Ok l else Ok (v :: l)
  end.

(** The successes loop: count, total duration (int64) and latest success. *)
Definition success_step (acc : Z * Z * option Observation) (v : Observation) : Z * Z * option Observation :=
  let '(n, total, last) := acc in
  if Successful v then (n + 1, wrap64 (total + duration v), Some v) else acc.

(** The backwards loop that counts the streak at the end: [l] is reversed. *)
Fixpoint streaks (l : list Observation) (s f : Z) : Z * Z :=
  match l with
  | [] => (s, f)
  | v :: l' =>
      if Successful v then if 0 <? f then (s, f) else streaks l' (s + 1) f
      else if 0 <? s then (s, f) else streaks l' s (f + 1)
  end.

Definition summarize_sorted (k : Key) (now freshness : Z) (l : list Observation) : Summary :=
  let '(n, total, lastOk) := foldl success_step (0, 0, None) l in
  let '(s, f) := streaks (reverse l) 0 0 in
  {| skey := k; samples := Z.of_nat (length l); successes := n; latest := last l; latestSuccess := lastOk;
     meanSuccessDuration := if 0 <? n then Z.quot total n else 0;
     consecutiveSuccesses := s; consecutiveFailures := f;
     fresh := match last l with Some v => time_sub now (completedAt v) <=? freshness | None => false end |}.

Definition Summarize (k : Key) (values : list Observation) (now window freshness : Z) : result summary_error Summary :=
  _ ← guard_err (negb (valid_key k)) SummaryKey;
  _ ← guard_err (is_zero now || (window <=? 0) || (freshness <=? 0)) SummaryBounds;
  l ← filter_window k (now - window) now values;
  Ok (summarize_sorted k now freshness (go_sort observation_cmp l)).

(** ** What a constructed observation satisfies *)

Definition made_observation (v : Observation) : Prop :=
  ∃ k st c d o code, New k st c d o code = Ok v.
(** Instants whose Unix time in nanoseconds fits int64, the years 1678-2262. *)
Definition representable (t : Z) : Prop := in_int64 (t - unix_epoch).

Lemma made_observation_inv v : made_observation v →
  valid_key (key v) = true ∧ 0 ≤ duration v ≤ 2 * minute ∧ startedAt v ≤ completedAt v ∧
  0 ≤ statusCode v ≤ 599 ∧ outcome v ≠ OutcomeUnknown ∧
  sampleID v = sha256 (observation_input (key v) (startedAt v) (completedAt v) (duration v) (outcome v) (statusCode v)).
Proof.
  intros (k&st&c&d&o&code&Hn). unfold New in Hn. ok_inv.
  assert (0 ≤ code ≤ 599) as Hcode.
  { match goal with Hc : (if _ then guard_err _ _ else _) = Ok _ |- _ => destruct (_ || _) in Hc end;
      ok_inv; bool_to_prop; lia. }
  bool_to_prop. simpl. split_and!; try done; lia.
Qed.

Lemma revision_equal_eq r s : revision_equal r s = true → r = s.
Proof. destruct r, s; simpl; try done. intros. bool_to_prop. by subst. Qed.
Lemma sameKey_eq k k' : sameKey k k' = true → k = k'.
Proof.
  destruct k as [[] [] ? ? ?], k' as [[] [] ? ? ?]. unfold sameKey. simpl. intros E. bool_to_prop.
  repeat match goal with R : revision_equal _ _ = true |- _ => apply revision_equal_eq in R end. by subst.
Qed.

Lemma Outcome_code_inj o o' : Outcome_code o = Outcome_code o' → o = o'.
Proof. by destruct o, o'. Qed.

Lemma sapp_cancel_l (s t t' : string) : s +:+ t = s +:+ t' → t = t'.
Proof. intros E. by apply sapp_inj_len in E as [_ ?]. Qed.

(** The bytes that identify a sample. *)
Definition sample_input (v : Observation) : string :=
  observation_input (key v) (startedAt v) (completedAt v) (duration v) (outcome v) (statusCode v).
(** Two observations of one key with one digest are the same observation. *)
Lemma sample_identifies v w : made_observation v → made_observation w → key v = key w →
  representable (startedAt v) → representable (startedAt w) →
  representable (completedAt v) → representable (completedAt w) →
  coll_free sha256 [sample_input v; sample_input w] → sampleID v = sampleID w → v = w.
Proof.
  intros (_&Hd&_&Hs&_&Ev)%made_observation_inv (_&Hd'&_&Hs'&_&Ew)%made_observation_inv Hk R1 R2 R3 R4 Hfree Hid.
  rewrite Ev, Ew in Hid. fold (sample_input v) (sample_input w) in Hid.
  apply Hfree in Hid as E; [|by rewrite !elem_of_cons; auto..].
  assert (in_int64 (duration v) ∧ in_int64 (duration w) ∧ in_int64 (statusCode v) ∧ in_int64 (statusCode w)) as (?&?&?&?).
  { unfold in_int64, int64_min, int64_max, minute, second in *. lia. }
  assert (∀ z, in_int64 (unix_nano z)) as Hun by (intros; apply wrap64_range).
  unfold sample_input, observation_input in E. rewrite Hk in E. do 8 apply sapp_cancel_l in E.
  apply u8_inj in E as [Ho E]; [|by destruct (outcome v)|by destruct (outcome w)].
  do 2 apply sapp_cancel_l in E.
  apply u64_inj in E as [Hst E]; [|apply Hun..]. apply u64_inj in E as [Hc E]; [|apply Hun..].
  apply u64_inj in E as [Hdd E]; [|done..].
  rewrite <-(sapp_nil_r (u64 (statusCode v))), <-(sapp_nil_r (u64 (statusCode w))) in E.
  apply u64_inj in E as [Hcode _]; [|done..].
  apply (f_equal from_unix_nano) in Hst, Hc. rewrite !unix_nano_round_trip in Hst, Hc by done.
  apply Outcome_code_inj in Ho. destruct v, w; simpl in *; subst. done.
Qed.

(** ** Summaries, declaratively *)

Lemma filter_window_ok k cutoff now l out : filter_window k cutoff now l = Ok out →
  out = filter (λ v, cutoff ≤ completedAt v ≤ now) l ∧ Forall (λ v, sameKey k (key v) = true) l.
Proof.
  revert out. induction l as [|v l IH]; intros out E; simpl in E; [ok_inv; split; [done|constructor]|].
  ok_inv. bool_to_prop. destruct (IH _ ltac:(done)) as [-> Hall].
  destruct (_ || _) eqn:Hw; ok_inv.
  - split; [|by constructor]. rewrite filter_cons_False; [done|]. apply orb_true_iff in Hw as [Hw|Hw]; bool_to_prop; lia.
  - bool_to_prop. split; [|by constructor]. rewrite filter_cons_True by lia. done.
Qed.
Lemma filter_window_total k cutoff now l : Forall (λ v, sameKey k (key v) = true) l →
  is_ok (filter_window k cutoff now l) = true.
Proof.
  induction 1 as [|v l Hv _ IH]; [done|]. simpl. rewrite Hv. simpl.
  destruct (filter_window k cutoff now l); [|done]. simpl. by destruct (_ || _).
Qed.

(** The number of elements at the front of [l] that satisfy [p]. *)
Fixpoint run (p : Observation → bool) (l : list Observation) : nat :=
  match l with [] => O | v :: l' => if p v then S (run p l') else O end.

Lemma streaks_gen l s f : (0 ≤ s → 0 ≤ f → s = 0 ∨ f = 0 →
  streaks l s f = (if 0 <? f then s else s + Z.of_nat (run Successful l),
                   if 0 <? s then f else f + Z.of_nat (run (λ v, negb (Successful v)) l))).
Proof.
  revert s f. induction l as [|v l IH]; intros s f Hs Hf Hz; simpl.
  { destruct (0 <? f), (0 <? s); f_equal; lia. }
  destruct (Successful v); simpl.
  - destruct (0 <? f) eqn:E; bool_to_prop.
    + destruct (0 <? s) eqn:E'; bool_to_prop; [lia|]. f_equal; lia.
    + rewrite IH by lia. replace (0 <? f) with false by lia. replace (0 <? s + 1) with true by lia.
      destruct (0 <? s) eqn:E'; f_equal; lia.
  - destruct (0 <? s) eqn:E; bool_to_prop.
    + destruct (0 <? f) eqn:E'; bool_to_prop; [lia|]. f_equal; lia.
    + rewrite IH by lia. replace (0 <? s) with false by lia. replace (0 <? f + 1) with true by lia.
      destruct (0 <? f) eqn:E'; bool_to_prop; f_equal; lia.
Qed.

Definition total_duration (l : list Observation) : Z := foldr (λ v a, duration v + a) 0 l.
Definition succeeded (l : list Observation) : list Observation := filter (λ v, Successful v = true) l.

Lemma total_duration_app l k : total_duration (l ++ k) = total_duration l + total_duration k.
Proof. induction l; simpl; lia. Qed.
Lemma total_duration_bound l b : Forall (λ v, 0 ≤ duration v ≤ b) l →
  0 ≤ total_duration l ≤ b * Z.of_nat (length l).
Proof. induction 1; simpl length; [simpl; lia|]. simpl. lia. Qed.
Lemma total_duration_perm l k : l ≡ₚ k → total_duration l = total_duration k.
Proof. induction 1; simpl; lia. Qed.

Definition max_samples : Z := 2 ^ 26.

Lemma success_fold l : Forall (λ v, 0 ≤ duration v ≤ 2 * minute) l → Z.of_nat (length l) ≤ max_samples →
  foldl success_step (0, 0, None) l =
  (Z.of_nat (length (succeeded l)), total_duration (succeeded l), last (succeeded l)).
Proof.
  induction l as [|v l IH] using rev_ind; intros Hd Hlen; [done|].
  apply Forall_app in Hd as [Hd Hv]. inversion Hv; subst. rewrite length_app in Hlen. simpl in Hlen.
  rewrite foldl_app, IH by (done || lia). simpl. unfold succeeded. rewrite filter_app. unfold Successful in *.
  case_bool_decide as Ho.
  - rewrite filter_cons_True by (by rewrite bool_decide_true). rewrite filter_nil.
    rewrite length_app, total_duration_app, last_snoc. rewrite Nat2Z.inj_add. simpl. do 2 f_equal.
    assert (Forall (λ v, 0 ≤ duration v ≤ 2 * minute) (filter (λ v, bool_decide (outcome v = OutcomeSuccess) = true) l))
      as Hf.
    { rewrite Forall_forall in *. intros w [_ Hw]%list_elem_of_filter. auto. }
    pose proof (total_duration_bound _ _ Hf) as Hb.
    pose proof (length_filter (λ v, bool_decide (outcome v = OutcomeSuccess) = true) l) as Hl.
    rewrite Z.add_0_r. apply wrap64_id. unfold in_int64, int64_min, int64_max, max_samples, minute, second in *. nia.
  - by rewrite filter_cons_False, filter_nil, app_nil_r by (by rewrite bool_decide_false).
Qed.

Definition window_of (now window : Z) (l : list Observation) : list Observation :=
  filter (λ v, now - window ≤ completedAt v ≤ now) l.

Lemma observation_no_ties k l : Forall made_observation l → Forall (λ v, sameKey k (key v) = true) l →
  Forall (λ v, representable (startedAt v) ∧ representable (completedAt v)) l →
  coll_free sha256 (sample_input <$> l) → no_ties observation_cmp l.
Proof.
  intros Hm Hk Hr Hfree. rewrite Forall_forall in *. intros v w Hv Hw E. destruct (Hr v Hv), (Hr w Hw). apply sample_identifies; auto.
  - transitivity k; [symmetry|]; apply sameKey_eq; auto.
  - eapply coll_free_incl, Hfree. intros x. rewrite !elem_of_cons. intros [-> | [-> | []%elem_of_nil]]; by apply list_elem_of_fmap_2.
  - unfold observation_cmp, cmp_lex, lex, cmp_on in E.
    destruct (Z.compare _ _); try done. by apply bytes_compare_exact.
Qed.

#[local] Instance observation_cmp_order : CmpOrder observation_cmp.
Proof. apply _. Qed.

(** ** Summary theorems *)

(** C34: [Summarize] over observations of the key returns exactly: the samples completed inside the window, how many
    succeeded, the mean successful duration rounded down (between 0 and two minutes, with no int64 overflow), the
    latest sample and latest success, and the length of the success or failure streak at the end. *)
Theorem summarize_correct k values now window freshness :
  Forall made_observation values → Forall (λ v, sameKey k (key v) = true) values →
  valid_key k = true → 0 < now → 0 < window → 0 < freshness → Z.of_nat (length values) ≤ max_samples →
  ∃ s, Summarize k values now window freshness = Ok s ∧
    let l := go_sort observation_cmp (window_of now window values) in
    skey s = k ∧ samples s = Z.of_nat (length l) ∧ successes s = Z.of_nat (length (succeeded l)) ∧
    0 ≤ successes s ≤ samples s ∧
    meanSuccessDuration s = total_duration (succeeded l) / successes s ∧
    0 ≤ meanSuccessDuration s ≤ 2 * minute ∧
    latest s = last l ∧ latestSuccess s = last (succeeded l) ∧
    consecutiveSuccesses s = Z.of_nat (run Successful (reverse l)) ∧
    consecutiveFailures s = Z.of_nat (run (λ v, negb (Successful v)) (reverse l)) ∧
    StronglySorted (cmp_le observation_cmp) l.
Proof.
  intros Hm Hk Hv Hnow Hw Hf Hlen. unfold Summarize. rewrite Hv. simpl.
  unfold is_zero. replace (now =? 0) with false by lia. replace (window <=? 0) with false by lia.
  replace (freshness <=? 0) with false by lia. simpl.
  pose proof (filter_window_total k (now - window) now values Hk) as Ht.
  destruct (filter_window k (now - window) now values) as [out|] eqn:E; [|done].
  apply filter_window_ok in E as [-> _]. simpl. eexists. split; [done|].
  fold (window_of now window values). set (l := go_sort observation_cmp (window_of now window values)).
  assert (Forall (λ v, 0 ≤ duration v ≤ 2 * minute) l) as Hd.
  { rewrite Forall_forall in *. intros v. unfold l, window_of. rewrite go_sort_elem_of, list_elem_of_filter.
    intros [_ Hin]. by apply made_observation_inv, Hm. }
  assert (Z.of_nat (length l) ≤ max_samples) as Hll.
  { unfold l. rewrite go_sort_length. pose proof (length_filter (λ v, now - window ≤ completedAt v ≤ now) values).
    unfold window_of. lia. }
  unfold summarize_sorted. rewrite success_fold by done. rewrite streaks_gen by lia. simpl.
  assert (Forall (λ v, 0 ≤ duration v ≤ 2 * minute) (succeeded l)) as Hds.
  { rewrite Forall_forall in *. intros v [_ Hin]%list_elem_of_filter. auto. }
  pose proof (total_duration_bound _ _ Hds) as Hb.
  pose proof (length_filter (λ v, Successful v = true) l) as Hls. fold (succeeded l) in Hls.
  split_and!; try done; try lia; try (apply go_sort_sorted; apply _).
  - destruct (0 <? Z.of_nat (length (succeeded l))) eqn:E; bool_to_prop.
    + apply Z.quot_div_nonneg; lia.
    + replace (Z.of_nat (length (succeeded l))) with 0 by lia. by rewrite Zdiv_0_r.
  - destruct (0 <? Z.of_nat (length (succeeded l))) eqn:E; bool_to_prop; [|lia]. apply Z.quot_pos; lia.
  - destruct (0 <? Z.of_nat (length (succeeded l))) eqn:E; bool_to_prop; [|unfold minute, second; lia].
    rewrite Z.quot_div_nonneg by lia. apply Z.div_le_upper_bound; [lia|]. lia.
Qed.

(** A summary does not depend on the order in which the store returns the samples, when no two of them share a
    digest. *)
Theorem summarize_order_independent k values values' now window freshness :
  Forall made_observation values →
  Forall (λ v, representable (startedAt v) ∧ representable (completedAt v)) values → coll_free sha256 (sample_input <$> values) →
  values ≡ₚ values' → Summarize k values now window freshness = Summarize k values' now window freshness.
Proof.
  intros Hm Hr Hfree Hp. unfold Summarize.
  destruct (guard_err (negb (valid_key k)) SummaryKey); [|done]. simpl.
  destruct (guard_err _ SummaryBounds); [|done]. simpl.
  destruct (filter_window k (now - window) now values) as [l|e] eqn:E1;
    destruct (filter_window k (now - window) now values') as [l'|e'] eqn:E2; simpl.
  - apply filter_window_ok in E1 as [-> Hk], E2 as [-> _].
    assert (filter (λ v, now - window ≤ completedAt v ≤ now) values ≡ₚ
            filter (λ v, now - window ≤ completedAt v ≤ now) values') as Hpf by (by rewrite Hp).
    assert (no_ties observation_cmp (filter (λ v, now - window ≤ completedAt v ≤ now) values)) as Hn.
    { apply (observation_no_ties k); [rewrite Forall_forall in *; intros v [_ Hin]%list_elem_of_filter; auto..|].
      eapply coll_free_incl, Hfree. intros x (v & -> & [_ Hv]%list_elem_of_filter)%list_elem_of_fmap. by apply list_elem_of_fmap_2. }
    by rewrite (go_sort_perm_eq observation_cmp _ _ Hn Hpf).
  - apply filter_window_ok in E1 as [_ Hk]. rewrite Hp in Hk.
    pose proof (filter_window_total k (now - window) now values' Hk) as Ht. by rewrite E2 in Ht.
  - apply filter_window_ok in E2 as [_ Hk]. rewrite <-Hp in Hk.
    pose proof (filter_window_total k (now - window) now values Hk) as Ht. by rewrite E1 in Ht.
  - assert (∀ l e, filter_window k (now - window) now l = Err e → e = DifferentKey) as He.
    { induction l as [|v l IH]; intros e0 E; simpl in E; [done|].
      destruct (sameKey k (key v)); simpl in E; [|congruence].
      destruct (filter_window k (now - window) now l); simpl in E; [by destruct (_ || _)|naive_solver]. }
    by rewrite (He _ _ E1), (He _ _ E2).
Qed.
End observation.

(** ** Concrete observations *)

Module ObservationSample.
#[local] Existing Instance toy_digest.
Definition k : Key :=
  {| connection := {| cid := "ef1_x"; crev := Some "r" |}; target := {| tid := "t"; trev := Some "tr" |};
     vantage := "v"; kind := KindHTTPGet; kprofile := Mihomo11931 |}.
Definition t0 : Z := unix_epoch + 1700000000 * second.
Definition obs (at_ d : Z) (o : Outcome) (code : Z) : Observation :=
  {| key := k; startedAt := t0 + at_; completedAt := t0 + at_ + d; duration := d; outcome := o; statusCode := code;
     sampleID := sha256 (observation_input k (t0 + at_) (t0 + at_ + d) d o code) |}.
Definition values : list Observation :=
  [obs 0 (20 * millisecond) OutcomeSuccess 204; obs (60 * second) (30 * millisecond) OutcomeTimeout 0;
   obs (120 * second) (40 * millisecond) OutcomeSuccess 204].
Lemma obs_made a d o c : New k (t0 + a) (t0 + a + d) d o c = Ok (obs a d o c) → made_observation (obs a d o c).
Proof. intros E. by exists k, (t0 + a), (t0 + a + d), d, o, c. Qed.
Lemma values_made : Forall made_observation values.
Proof. repeat (apply Forall_cons; split; [apply obs_made; vm_compute; reflexivity|]). constructor. Qed.
Lemma values_key : Forall (λ v, sameKey k (key v) = true) values.
Proof. by repeat constructor. Qed.
Lemma values_representable : Forall (λ v, representable (startedAt v) ∧ representable (completedAt v)) values.
Proof. repeat (apply Forall_cons; split; [split; split; vm_compute; discriminate|]). constructor. Qed.
End ObservationSample.

Lemma summarize_correct_witness : ∃ s,
  Summarize ObservationSample.k ObservationSample.values (ObservationSample.t0 + 5 * minute) (30 * minute) (5 * minute) = Ok s ∧
  samples s = 3 ∧ successes s = 2 ∧ meanSuccessDuration s = 30 * millisecond ∧ consecutiveSuccesses s = 1.
Proof.
  destruct (@summarize_correct toy_digest ObservationSample.k ObservationSample.values
    (ObservationSample.t0 + 5 * minute) (30 * minute) (5 * minute)) as (s&Hs&Hrest);
    [exact ObservationSample.values_made|exact ObservationSample.values_key|reflexivity..|discriminate|].
  exists s. destruct Hrest as (_&H1&H2&_&H3&_&_&_&H4&_). split; [exact Hs|].
  rewrite H1, H3, H2, H4. split_and!; vm_compute; reflexivity.
Defined.

Lemma summarize_order_independent_witness :
  Summarize ObservationSample.k ObservationSample.values (ObservationSample.t0 + 5 * minute) (30 * minute) (5 * minute) =
  Summarize ObservationSample.k (reverse ObservationSample.values) (ObservationSample.t0 + 5 * minute) (30 * minute) (5 * minute).
Proof.
  apply (@summarize_order_independent toy_digest);
    [exact ObservationSample.values_made|exact ObservationSample.values_representable| |].
  { apply (bool_decide_unpack _). vm_compute. exact I. }
  symmetry. apply reverse_Permutation.
Defined.
