(* ===== verification/Float64.v ===== *)
(** * The float64 arithmetic of the Wilson bound

    Go's [float64] operations are the IEEE 754 binary64 ones: the Standard
    Library's [SpecFloat] at precision 53 and exponent bound 1024, with no
    fused operations.  [math.Round] rounds halves away from zero. *)
From S2P Require Import Prelude.
From Stdlib Require Import SpecFloat.
Open Scope Z_scope.

Definition f64 := spec_float.
Definition fmul (x y : f64) : f64 := SFmul 53 1024 x y.
Definition fadd (x y : f64) : f64 := SFadd 53 1024 x y.
Definition fsub (x y : f64) : f64 := SFsub 53 1024 x y.
Definition fdiv (x y : f64) : f64 := SFdiv 53 1024 x y.
Definition fsqrt (x : f64) : f64 := SFsqrt 53 1024 x.
(** [float64(n)]. *)
Definition of_int (n : Z) : f64 := binary_normalize 53 1024 n 0 false.
(** The literal 1.96: the nearest binary64. *)
Definition f1_96 : f64 := S754_finite false 8827055269646172 (-52).

Definition is_negative (x : f64) : bool :=
  match x with S754_finite true _ _ | S754_infinity true => true | _ => false end.

(** [int64(math.Round(x))]; not a number and infinities convert to the
    minimum, as on amd64. *)
Definition round_int64 (x : f64) : Z :=
  match x with
  | S754_zero _ => 0
  | S754_finite s m e =>
      let a := if 0 <=? e then Z.pos m * 2 ^ e else (Z.pos m + 2 ^ (- e - 1)) / 2 ^ (- e) in
      let r := if s then - a else a in
      if bool_decide (in_int64 r) then r else int64_min
  | _ => int64_min
  end.

Definition wilsonLowerPPM (successes samples : Z) : Z :=
  if (samples <=? 0) || (successes <? 0) || (samples <? successes) then 0 else
  let n := of_int samples in
  let p := fdiv (of_int successes) (of_int samples) in
  let z := f1_96 in
  let z2 := fmul z z in
  let root := fsqrt (fadd (fdiv (fmul p (fsub (of_int 1) p)) n) (fdiv z2 (fmul (fmul (of_int 4) n) n))) in
  let lower := fdiv (fsub (fadd p (fdiv z2 (fmul (of_int 2) n))) (fmul z root)) (fadd (of_int 1) (fdiv z2 n)) in
  let lower := if is_negative lower then S754_zero false else lower in
  round_int64 (fmul lower (of_int 1000000)).

Example wilson_3_3 : wilsonLowerPPM 3 3 = 438494.
Proof. vm_compute. reflexivity. Qed.
Example wilson_0_3 : wilsonLowerPPM 0 3 = 0.
Proof. vm_compute. reflexivity. Qed.

(** ** The bound on small samples *)

Definition wilson_cell (n s : nat) : bool :=
  let v := wilsonLowerPPM (Z.of_nat s) (Z.of_nat n) in
  (0 <=? v) && (v * Z.of_nat n <=? 1000000 * Z.of_nat s) && Bool.eqb (v =? 0) (Nat.eqb s 0) &&
  (Nat.eqb s n || (v <? wilsonLowerPPM (Z.of_nat (S s)) (Z.of_nat n))).
Lemma wilson_table : forallb (λ n, forallb (wilson_cell n) (seq 0 (S n))) (seq 1 14) = true.
Proof. vm_compute. reflexivity. Qed.

(** For up to 14 samples, the float64 computation of the Wilson bound is a number of parts per million that never
    exceeds the observed success ratio, is zero exactly when nothing succeeded, and strictly grows with every
    additional success; so a candidate with a success is never rejected for a zero confidence. *)
Theorem wilson_bound_small s n : 0 < n ≤ 14 → 0 ≤ s ≤ n →
  let v := wilsonLowerPPM s n in
  0 ≤ v ∧ v * n ≤ 1000000 * s ∧ (v = 0 ↔ s = 0) ∧ (s < n → v < wilsonLowerPPM (s + 1) n).
Proof.
  intros Hn Hs v. pose proof wilson_table as Ht. rewrite forallb_forall in Ht.
  specialize (Ht (Z.to_nat n)). rewrite in_seq in Ht. specialize (Ht ltac:(lia)).
  rewrite forallb_forall in Ht. specialize (Ht (Z.to_nat s)). rewrite in_seq in Ht. specialize (Ht ltac:(lia)).
  unfold wilson_cell in Ht. rewrite Nat2Z.inj_succ, !Z2Nat.id in Ht by lia. fold v in Ht.
  apply andb_true_iff in Ht as [Ht H4]. apply andb_true_iff in Ht as [Ht H3].
  apply andb_true_iff in Ht as [H1 H2]. bool_to_prop. apply Bool.eqb_prop in H3. split_and!; [done|done| |].
  - destruct (v =? 0) eqn:E; symmetry in H3; bool_to_prop; lia.
  - intros Hlt. apply orb_true_iff in H4 as [H4|H4]; bool_to_prop; [lia|]. by rewrite <-Z.add_1_r in H4.
Qed.

Lemma wilson_bound_small_witness : 0 < wilsonLowerPPM 2 3.
Proof.
  destruct (wilson_bound_small 2 3) as (H0&_&Hz&_); [lia|lia|]. destruct (Z.eq_dec (wilsonLowerPPM 2 3) 0) as [E|E].
  - apply Hz in E. discriminate E.
  - lia.
Defined.
