(* ===== verification/Selection.v ===== *)
(** * Endpoint selection (internal/selection/selection.go)

    The policy, the persistent selection state, the evaluation of one
    candidate and [Select], which turns a set of candidates, the previous
    state and a time into a decision.  [Select] is pure in the source too. *)
From S2P Require Import Prelude Order Bytes Encoding Identity Provenance Inventory Artifact Observation Float64.
From Stdlib Require Import Ascii.
From Stdlib Require String.
Open Scope Z_scope.

(** ** Policies *)

Inductive Strategy := StrategyUnknown | StrategyStatic | StrategyLowestLatency | StrategyAdaptive.
#[global] Instance Strategy_eq_dec : EqDecision Strategy.
Proof. solve_decision. Defined.
Definition Strategy_code (s : Strategy) : Z :=
  match s with StrategyUnknown => 0 | StrategyStatic => 1 | StrategyLowestLatency => 2 | StrategyAdaptive => 3 end.

Record Policy := {
  strategy : Strategy; topN : Z; evidenceWindow : Z; freshness : Z; minSamples : Z; minSuccessPermille : Z;
  failureStreak : Z; recoverySuccesses : Z; residence : Z; cooldown : Z; requiredImprovementPermille : Z;
}.
Definition DefaultPolicy (s : Strategy) : Policy :=
  {| strategy := s; topN := 1; evidenceWindow := 30 * minute; freshness := 5 * minute; minSamples := 3;
     minSuccessPermille := 600; failureStreak := 2; recoverySuccesses := 3; residence := 10 * minute;
     cooldown := 15 * minute; requiredImprovementPermille := 100 |}.
Definition outside (z lo hi : Z) : bool := (z <? lo) || (hi <? z).
(** [Policy.Validate]. *)
Definition policy_valid (p : Policy) : bool :=
  negb (bool_decide (strategy p = StrategyUnknown)) &&
  negb (outside (topN p) 1 10000 || outside (minSamples p) 1 512 || outside (minSuccessPermille p) 1 1000 ||
        outside (failureStreak p) 1 512 || outside (recoverySuccesses p) 1 512 ||
        (evidenceWindow p <=? 0) || (30 * 24 * hour <? evidenceWindow p) ||
        (freshness p <=? 0) || (evidenceWindow p <? freshness p) ||
        (residence p <? 0) || (7 * 24 * hour <? residence p) || (cooldown p <? 0) || (30 * 24 * hour <? cooldown p) ||
        (requiredImprovementPermille p <? 0) || (1000 <=? requiredImprovementPermille p)).

(** ** Contexts and state *)

Record Context := { ctarget : TargetRef; cvantage : string; ckind : Kind; cprofile : Profile }.
#[global] Instance Context_eq_dec : EqDecision Context.
Proof. solve_decision. Defined.
Definition context_valid (c : Context) : bool :=
  negb (bool_decide (tid (ctarget c) = "") || bool_decide (cvantage c = "") || bool_decide (ckind c ≠ KindHTTPGet) ||
        negb (supportedProfile (cprofile c))) && bool_decide (trev (ctarget c) ≠ None).
Definition NewContext (t : TargetRef) (v : string) (k : Kind) (p : Profile) : option Context :=
  let c := {| ctarget := t; cvantage := v; ckind := k; cprofile := p |} in
  if context_valid c then Some c else None.
Definition contextsEqual (l r : Context) : bool :=
  TargetRef_Equal (ctarget l) (ctarget r) && bool_decide (cvantage l = cvantage r) &&
  bool_decide (ckind l = ckind r) && bool_decide (cprofile l = cprofile r).
Definition Context_Matches (c : Context) (k : Key) : bool :=
  TargetRef_Equal (ctarget c) (target k) && bool_decide (cvantage c = vantage k) &&
  bool_decide (ckind c = kind k) && bool_decide (cprofile c = kprofile k).

Record SCandidate := { crecord : Record_; evidence : option Summary }.
Record Member := { mconnection : ConnectionRef; selectedAt : Z }.
#[global] Instance Member_eq_dec : EqDecision Member.
Proof. solve_decision. Defined.
Record Cooldown := { dconnection : ConnectionRef; until : Z }.
#[global] Instance Cooldown_eq_dec : EqDecision Cooldown.
Proof. solve_decision. Defined.
Record State := {
  scope : string; scontext : Context; fingerprint : string; evaluatedAt : Z;
  members : list Member; cooldowns : list Cooldown;
}.

Definition safeScope : string → bool := safe_name.
Definition ref_String (r : ConnectionRef) : string := if bool_decide (cid r = "") then "<invalid-endpoint-id>" else cid r.
Definition refKey (r : ConnectionRef) : string := ref_String r +:+ default "" (crev r).

(** [State.Validate]; the errors are told apart only by their text. *)
Definition fingerprint_zero (f : string) : bool := all_chars (λ c, code c =? 0) f.
Fixpoint no_duplicate (seen : list string) (l : list string) : bool :=
  match l with [] => true | x :: l' => negb (bool_decide (x ∈ seen)) && no_duplicate (x :: seen) l' end.
Definition state_valid (s : State) : bool :=
  safeScope (scope s) && context_valid (scontext s) && negb (fingerprint_zero (fingerprint s)) &&
  negb (is_zero (evaluatedAt s)) &&
  forallb (λ m, negb (is_zero (selectedAt m)) &&
                negb (bool_decide (ref_String (mconnection m) = "<invalid-endpoint-id>")) &&
                bool_decide (crev (mconnection m) ≠ None)) (members s) &&
  no_duplicate [] (refKey ∘ mconnection <$> members s) &&
  forallb (λ d, negb (is_zero (until d)) && bool_decide (crev (dconnection d) ≠ None)) (cooldowns s) &&
  no_duplicate [] (refKey ∘ dconnection <$> cooldowns s).

(** ** Evaluating one candidate *)

Inductive Reason :=
| ReasonEligible | ReasonMissingEvidence | ReasonWrongContext | ReasonWrongRevision | ReasonStale
| ReasonInsufficientSamples | ReasonUnreliable | ReasonFailureStreak | ReasonNoSuccessfulLatency
| ReasonCooldown | ReasonRecovery.
#[global] Instance Reason_eq_dec : EqDecision Reason.
Proof. solve_decision. Defined.

Record Explanation := {
  xconnection : ConnectionRef; endpointID : string; reason : Reason; xsamples : Z; xsuccesses : Z;
  successPermille : Z; xmean : Z; confidencePPM : Z; adaptiveCostNanos : Z; incumbent : bool; residenceActive : bool;
}.

Definition findMember (l : list Member) (r : ConnectionRef) : bool * Z :=
  match List.find (λ m, ConnectionRef_Equal (mconnection m) r) l with
  | Some m => (true, selectedAt m)
  | None => (false, 0)
  end.
Definition findCooldown (l : list Cooldown) (r : ConnectionRef) : option Cooldown :=
  List.find (λ d, ConnectionRef_Equal (dconnection d) r) l.

(** [riskCost] in int64 arithmetic. *)
Definition riskCost (duration confidence : Z) : Z :=
  if (duration <=? 0) || (confidence <=? 0) then int64_max else
  let value := wrap64 (duration * 1000000) in
  Z.quot (wrap64 (wrap64 (value + confidence) - 1)) confidence.

Definition explain (ref : ConnectionRef) (eid : string) (r : Reason) (s : option Summary) (ppm cost : Z)
    (inc res : bool) : Explanation :=
  match s with
  | None => {| xconnection := ref; endpointID := eid; reason := r; xsamples := 0; xsuccesses := 0; successPermille := 0;
               xmean := 0; confidencePPM := ppm; adaptiveCostNanos := cost; incumbent := inc; residenceActive := res |}
  | Some s => {| xconnection := ref; endpointID := eid; reason := r; xsamples := samples s; xsuccesses := successes s;
                 successPermille := if 0 <? samples s then Z.quot (wrap64 (successes s * 1000)) (samples s) else 0;
                 xmean := meanSuccessDuration s; confidencePPM := ppm; adaptiveCostNanos := cost;
                 incumbent := inc; residenceActive := res |}
  end.

Section selection.
Context `{Digest}.

Definition evaluate (c : SCandidate) (ref : ConnectionRef) (ctx : Context) (p : Policy) (cds : list Cooldown)
    (inc : bool) (since now : Z) : Explanation :=
  let res := inc && (now <? since + residence p) in
  let eid := id (record_identity (crecord c)) in
  match evidence c with
  | None => explain ref eid ReasonMissingEvidence None 0 0 inc res
  | Some s =>
      let fail r := explain ref eid r (Some s) 0 0 inc res in
      let permille := successPermille (fail ReasonEligible) in
      if negb (Context_Matches ctx (skey s)) then fail ReasonWrongContext
      else if negb (ConnectionRef_Equal (connection (skey s)) ref) then fail ReasonWrongRevision
      else if negb (fresh s) then fail ReasonStale
      else if samples s <? minSamples p then fail ReasonInsufficientSamples
      else if permille <? minSuccessPermille p then fail ReasonUnreliable
      else if failureStreak p <=? consecutiveFailures s then fail ReasonFailureStreak
      else if (successes s =? 0) || (meanSuccessDuration s <=? 0) then fail ReasonNoSuccessfulLatency
      else
        let finish :=
          let ppm := wilsonLowerPPM (successes s) (samples s) in
          if ppm <=? 0 then explain ref eid ReasonUnreliable (Some s) ppm 0 inc res
          else explain ref eid ReasonEligible (Some s) ppm (riskCost (meanSuccessDuration s) ppm) inc res in
        match findCooldown cds ref with
        | Some d => if now <? until d then fail ReasonCooldown
                    else if consecutiveSuccesses s <? recoverySuccesses p then fail ReasonRecovery
                    else finish
        | None => finish
        end
  end.

(** ** Ranking and optimization *)

Record ranked := { rcandidate : SCandidate; ref : ConnectionRef; explanation : Explanation }.

Definition candidate_identity (c : SCandidate) : Identity := record_identity (crecord c).
Definition ranked_cmp (s : Strategy) : ranked → ranked → comparison :=
  let by_identity := cmp_on (λ r, candidate_identity (rcandidate r)) Identity_Compare in
  match s with
  | StrategyLowestLatency => cmp_lex (cmp_on (λ r, xmean (explanation r)) Z.compare) by_identity
  | StrategyAdaptive => cmp_lex (cmp_on (λ r, adaptiveCostNanos (explanation r)) Z.compare) by_identity
  | StrategyStatic => by_identity
  (* an invalid strategy compares 0 with 0 *)
  | StrategyUnknown => by_identity
  end.
Definition sortRanked (s : Strategy) (l : list ranked) : list ranked := go_sort (ranked_cmp s) l.

Definition findRanked (l : list ranked) (r : ConnectionRef) : option ranked :=
  List.find (λ x, ConnectionRef_Equal (ref x) r) l.
Definition containsRanked (l : list ranked) (r : ConnectionRef) : bool := bool_decide (is_Some (findRanked l r)).

(** Exact rational comparison, then the rounded costs. *)
Definition improvesBy (challenger incumbent : Explanation) (requiredPermille : Z) : bool :=
  (xmean challenger * confidencePPM incumbent * 1000 <=?
   xmean incumbent * confidencePPM challenger * (1000 - requiredPermille)) &&
  (adaptiveCostNanos challenger <? adaptiveCostNanos incumbent).

Definition protected_by_residence (previous : list Member) (p : Policy) (now : Z) (r : ConnectionRef) : bool :=
  let since := (findMember previous r).2 in negb (is_zero since) && (now <? since + residence p).

(** The index of the costliest replaceable member, ties to the greater
    identity: the inner loop of [optimize]. *)
Definition worse (a b : ranked) : bool :=
  (adaptiveCostNanos (explanation a) <? adaptiveCostNanos (explanation b)) ||
  (adaptiveCostNanos (explanation a) =? adaptiveCostNanos (explanation b)) &&
  is_lt (Identity_Compare (candidate_identity (rcandidate a)) (candidate_identity (rcandidate b))).
Fixpoint find_worst (previous : list Member) (p : Policy) (now : Z) (i : nat) (best : option (nat * ranked))
    (l : list ranked) : option (nat * ranked) :=
  match l with
  | [] => best
  | x :: l' =>
      let best' :=
        if protected_by_residence previous p now (ref x) then best
        else match best with
             | None => Some (i, x)
             | Some (_, w) => if worse w x then Some (i, x) else best
             end in
      find_worst previous p now (S i) best' l'
  end.
Definition optimize_step (previous : list Member) (p : Policy) (now : Z) (selected : list ranked) (challenger : ranked)
    : list ranked :=
  if containsRanked selected (ref challenger) then selected else
  match find_worst previous p now 0 None selected with
  | None => selected
  | Some (i, w) =>
      if improvesBy (explanation challenger) (explanation w) (requiredImprovementPermille p)
      then <[i := challenger]> selected else selected
  end.
Definition optimize (selected rankedValues : list ranked) (previous : list Member) (p : Policy) (now : Z) : list ranked :=
  foldl (optimize_step previous p now) selected rankedValues.

Definition upsertCooldown (l : list Cooldown) (d : Cooldown) : list Cooldown :=
  match list_find (λ x, ConnectionRef_Equal (dconnection x) (dconnection d) = true) l with
  | Some (i, _) => <[i := d]> l
  | None => l ++ [d]
  end.

Definition sameMembers (l r : list Member) : bool :=
  Nat.eqb (length l) (length r) &&
  forallb (λ '(a, b), ConnectionRef_Equal (mconnection a) (mconnection b)) (zip l r).

(** The bytes hashed into the policy fingerprint. *)
Definition policy_input (p : Policy) : string :=
  "adaptive/v1" +:+ u64 (Strategy_code (strategy p)) +:+ u64 (topN p) +:+ u64 (evidenceWindow p) +:+
  u64 (freshness p) +:+ u64 (minSamples p) +:+ u64 (minSuccessPermille p) +:+ u64 (failureStreak p) +:+
  u64 (recoverySuccesses p) +:+ u64 (residence p) +:+ u64 (cooldown p) +:+ u64 (requiredImprovementPermille p).
Definition policyFingerprint (p : Policy) : string := sha256 (policy_input p).

(** ** Select *)

Inductive Transition :=
| TransitionInitial | TransitionUnchanged | TransitionOptimized | TransitionEmergency | TransitionContextReset
| TransitionNoEligible.

Record Decision := {
  selected : list Record_; explanations : list Explanation; next : State; changed : bool; degraded : bool;
  transition : Transition; eligible : Z; requested : Z;
}.
Inductive select_error :=
| UnsafeInput | InvalidPolicy | OlderThanState | DuplicateCandidates | InvalidIdentity.

Definition candidate_cmp : SCandidate → SCandidate → comparison := cmp_on candidate_identity Identity_Compare.

Fixpoint adjacent_duplicates (l : list SCandidate) : bool :=
  match l with
  | x :: ((y :: _) as l') => Identity_Equal (candidate_identity x) (candidate_identity y) || adjacent_duplicates l'
  | _ => false
  end.

(** The first loop: every candidate, in identity order, is evaluated. *)
Definition evaluate_ref (ctx : Context) (p : Policy) (prev : list Member) (cds : list Cooldown) (now : Z)
    (c : SCandidate) : option ranked :=
  r ← NewConnectionRef (candidate_identity c);
  let '(inc, since) := findMember prev r in
  Some {| rcandidate := c; ref := r; explanation := evaluate c r ctx p cds inc since now |}.

(** Cooldowns of present connections, except the released ones. *)
Definition keep_cooldown (p : Policy) (present : gset string) (rankedValues : list ranked) (now : Z) (d : Cooldown) : bool :=
  bool_decide (refKey (dconnection d) ∈ present) &&
  ((now <? until d) ||
   match findRanked rankedValues (dconnection d) with
   | Some e => match evidence (rcandidate e) with
               | Some s => consecutiveSuccesses s <? recoverySuccesses p
               | None => true
               end
   | None => true
   end).

(** The loop over previous members of an adaptive selection: the eligible
    ones stay, the others are an emergency and may start a cooldown. *)
Definition retain_step (p : Policy) (rankedValues : list ranked) (reasons : gmap string Reason) (now : Z)
    (acc : list ranked * bool * list Cooldown) (m : Member) : list ranked * bool * list Cooldown :=
  let '(sel, emergency, cds) := acc in
  match findRanked rankedValues (mconnection m) with
  | Some e => (sel ++ [e], emergency, cds)
  | None =>
      let r := reasons !! refKey (mconnection m) in
      (sel, true,
       if bool_decide (r = Some ReasonFailureStreak) || bool_decide (r = Some ReasonUnreliable)
       then upsertCooldown cds {| dconnection := mconnection m; until := now + cooldown p |} else cds)
  end.

(** The fill loop: candidates in rank order while there is room. *)
Definition fill_step (p : Policy) (sel : list ranked) (c : ranked) : list ranked :=
  if (topN p <=? Z.of_nat (length sel)) || containsRanked sel (ref c) then sel else sel ++ [c].

Definition next_member (prev : list Member) (now : Z) (x : ranked) : Member :=
  let since := (findMember prev (ref x)).2 in
  {| mconnection := ref x; selectedAt := if is_zero since then now else since |}.

Definition Select (sc : string) (ctx : Context) (p : Policy) (candidates : list SCandidate) (previous : option State)
    (now : Z) : result select_error Decision :=
  _ ← guard_err (negb (safeScope sc) || is_zero now) UnsafeInput;
  _ ← guard_err (negb (policy_valid p)) InvalidPolicy;
  let fp := policyFingerprint p in
  let usablePrevious :=
    match previous with
    | Some s => bool_decide (scope s = sc) && contextsEqual (scontext s) ctx && bool_decide (fingerprint s = fp)
    | None => false
    end in
  _ ← guard_err (usablePrevious && match previous with Some s => now <? evaluatedAt s | None => false end) OlderThanState;
  let prev := if usablePrevious then match previous with Some s => members s | None => [] end else [] in
  let cds := if usablePrevious then match previous with Some s => cooldowns s | None => [] end else [] in
  let transition0 := if usablePrevious then TransitionUnchanged
                     else if bool_decide (is_Some (scope <$> previous)) then TransitionContextReset else TransitionInitial in
  let ordered := go_sort candidate_cmp candidates in
  _ ← guard_err (adjacent_duplicates ordered) DuplicateCandidates;
  match mapM (evaluate_ref ctx p prev cds now) ordered with
  | None => Err InvalidIdentity
  | Some evaluated =>
      let present : gset string := list_to_set ((λ x, refKey (ref x)) <$> evaluated) in
      let reasons : gmap string Reason := list_to_map ((λ x, (refKey (ref x), reason (explanation x))) <$> reverse evaluated) in
      let rankedValues := sortRanked (strategy p) (filter (λ x, reason (explanation x) = ReasonEligible) evaluated) in
      let kept := filter (λ d, keep_cooldown p present rankedValues now d = true) cds in
      let adaptive := bool_decide (strategy p = StrategyAdaptive) && usablePrevious in
      let '(retained, emergency, nextCooldowns) :=
        if adaptive then foldl (retain_step p rankedValues reasons now) ([], false, kept) prev else ([], false, kept) in
      let retained := if topN p <? Z.of_nat (length retained)
                      then take (Z.to_nat (topN p)) (sortRanked (strategy p) retained) else retained in
      let filled := foldl (fill_step p) retained rankedValues in
      let sel := if negb adaptive then take (Z.to_nat (topN p)) filled
                 else if Z.of_nat (length filled) =? topN p then optimize filled rankedValues prev p now else filled in
      let nextMembers := next_member prev now <$> sel in
      let chg := negb (sameMembers prev nextMembers) in
      let transition1 := if bool_decide (sel = []) then TransitionNoEligible
                         else if emergency && chg then TransitionEmergency
                         else if chg && usablePrevious then TransitionOptimized else transition0 in
      Ok {| selected := (λ x, crecord (rcandidate x)) <$> sel; explanations := explanation <$> evaluated;
            next := {| scope := sc; scontext := ctx; fingerprint := fp; evaluatedAt := now;
                       members := nextMembers; cooldowns := nextCooldowns |};
            changed := chg; degraded := Z.of_nat (length sel) <? topN p; transition := transition1;
            eligible := Z.of_nat (length rankedValues); requested := topN p |}
  end.
End selection.
