(* ===== verification/SelectionFacts.v ===== *)
(** * Facts about selection

    The loops of [Select] one by one: evaluation, ranking, retention, filling
    and optimization; then the decision as a whole. *)
From S2P Require Import Prelude Order Bytes Encoding Identity Provenance Inventory Artifact Observation Float64 Selection.
From Stdlib Require Import Ascii.
From Stdlib Require String.
Open Scope Z_scope.

(** ** References *)

Lemma ConnectionRef_Equal_eq x y : ConnectionRef_Equal x y = true → x = y.
Proof.
  destruct x, y. unfold ConnectionRef_Equal. simpl. intros H. bool_to_prop.
  match goal with R : revision_equal _ _ = true |- _ => apply revision_equal_eq in R end. by subst.
Qed.
Lemma ConnectionRef_Equal_refl x : crev x ≠ None → ConnectionRef_Equal x x = true.
Proof.
  destruct x as [c [r|]]; [|done]. intros _. unfold ConnectionRef_Equal. simpl. by rewrite !bool_decide_true.
Qed.

Lemma Identity_Equal_iff x y : Identity_Equal x y = true ↔ x = y.
Proof.
  destruct x as [i [r|]], y as [j [s|]]; unfold Identity_Equal; simpl; rewrite ?andb_false_r; split; try done.
  - case_bool_decide as E; [done|]. intros. bool_to_prop. by subst.
  - intros [= -> ->]. rewrite bool_decide_false by (intros []; done). by apply bool_decide_true.
  - intros. bool_to_prop. by subst.
  - intros [= ->]. by rewrite !bool_decide_true.
Qed.

Lemma NewConnectionRef_Some i r : NewConnectionRef i = Some r → i = {| id := cid r; revision := crev r |} ∧ crev r ≠ None ∧ cid r ≠ "".
Proof. unfold NewConnectionRef. destruct (_ || _) eqn:E; [done|]. intros [= <-]. bool_to_prop. by destruct i. Qed.

Section facts.
Context `{Digest}.

Lemma findRanked_Some l r e : findRanked l r = Some e → e ∈ l ∧ ref e = r.
Proof.
  unfold findRanked. intros [Hin He]%find_some. split; [by apply list_elem_of_In|by apply ConnectionRef_Equal_eq].
Qed.
Lemma findRanked_None l r e : findRanked l r = None → e ∈ l → crev (ref e) ≠ None → ref e ≠ r.
Proof.
  unfold findRanked. intros Hn He Hr <-. apply list_elem_of_In in He.
  apply (find_none _ _ Hn) in He. by rewrite ConnectionRef_Equal_refl in He.
Qed.
Lemma containsRanked_true l r : containsRanked l r = true → ∃ e, e ∈ l ∧ ref e = r.
Proof. unfold containsRanked. intros. bool_to_prop. destruct H0 as [e He]. exists e. by apply findRanked_Some. Qed.
Lemma containsRanked_false l r e : containsRanked l r = false → e ∈ l → crev (ref e) ≠ None → ref e ≠ r.
Proof.
  unfold containsRanked. intros Hb. bool_to_prop. apply findRanked_None. by apply eq_None_not_Some.
Qed.

(** ** Evaluation *)

(** What makes a candidate eligible. *)
Record qualifies (ctx : Context) (p : Policy) (cds : list Cooldown) (now : Z) (c : SCandidate) (s : Summary) : Prop := {
  q_evidence : evidence c = Some s;
  q_context : Context_Matches ctx (skey s) = true;
  q_revision : candidate_identity c = {| id := cid (connection (skey s)); revision := crev (connection (skey s)) |};
  q_fresh : fresh s = true;
  q_samples : minSamples p ≤ samples s;
  q_reliable : minSuccessPermille p ≤ Z.quot (wrap64 (successes s * 1000)) (samples s);
  q_streak : consecutiveFailures s < failureStreak p;
  q_latency : 0 < meanSuccessDuration s;
  q_cooldown : ∀ d, findCooldown cds (connection (skey s)) = Some d →
    until d ≤ now ∧ recoverySuccesses p ≤ consecutiveSuccesses s;
}.

Lemma evaluate_eligible c r ctx p cds inc since now :
  0 < minSamples p → NewConnectionRef (candidate_identity c) = Some r →
  reason (evaluate c r ctx p cds inc since now) = ReasonEligible → ∃ s, qualifies ctx p cds now c s.
Proof.
  intros Hmin Hr. unfold evaluate. destruct (evidence c) as [s|] eqn:Hev; [|done]. simpl.
  destruct (Context_Matches ctx (skey s)) eqn:Hc; [|done]. simpl.
  destruct (ConnectionRef_Equal (connection (skey s)) r) eqn:Hcr; [|done]. simpl.
  destruct (fresh s) eqn:Hf; [|done]. simpl.
  destruct (samples s <? minSamples p) eqn:Hs; [done|].
  bool_to_prop. replace (0 <? samples s) with true by lia. rewrite ?Hs. 
  destruct (_ <? minSuccessPermille p) eqn:Hp; [done|].
  destruct (failureStreak p <=? consecutiveFailures s) eqn:Hst; [done|].
  destruct (_ || (meanSuccessDuration s <=? 0)) eqn:Hl; [done|]. bool_to_prop.
  apply ConnectionRef_Equal_eq in Hcr. subst r.
  intros Hreason. exists s. split; auto; [by apply NewConnectionRef_Some in Hr as [-> _]|].
  intros d Hd. rewrite Hd in Hreason. destruct (now <? until d) eqn:E1; [done|].
  destruct (consecutiveSuccesses s <? recoverySuccesses p) eqn:E2; [done|]. bool_to_prop. done.
Qed.

Lemma evaluate_connection c r ctx p cds inc since now : xconnection (evaluate c r ctx p cds inc since now) = r.
Proof.
  unfold evaluate. destruct (evidence c); [|done]. repeat (case_match; try done).
Qed.

(** ** The loops *)

Definition distinct (l : list ranked) : Prop := NoDup (ref <$> l).
Definition live (l : list ranked) : Prop := Forall (λ e, crev (ref e) ≠ None) l.

Lemma distinct_snoc l c : live l → containsRanked l (ref c) = false → distinct l → distinct (l ++ [c]).
Proof.
  unfold distinct, live. intros Hl Hc Hd. rewrite fmap_app. apply NoDup_app. split_and!; [done| |apply NoDup_singleton].
  intros r (e&->&He)%list_elem_of_fmap Hin. apply list_elem_of_singleton in Hin. simpl in Hin.
  rewrite Forall_forall in Hl. by eapply containsRanked_false; eauto.
Qed.

Definition retained_members (R : list ranked) (prev : list Member) : list ranked :=
  omap (λ m, findRanked R (mconnection m)) prev.

Lemma retain_loop p R reasons now prev acc :
  (foldl (retain_step p R reasons now) acc prev).1.1 = acc.1.1 ++ retained_members R prev.
Proof.
  revert acc. induction prev as [|m prev IH]; intros [[sel em] cds]; simpl; [by rewrite app_nil_r|].
  rewrite IH. unfold retained_members. simpl.
  destruct (findRanked R (mconnection m)); simpl; [by rewrite <-app_assoc|done].
Qed.

Lemma retained_elem R prev e : e ∈ retained_members R prev ↔ ∃ m, m ∈ prev ∧ findRanked R (mconnection m) = Some e.
Proof. unfold retained_members. rewrite list_elem_of_omap. naive_solver. Qed.

Lemma retained_distinct R prev : NoDup (mconnection <$> prev) → distinct (retained_members R prev).
Proof.
  unfold distinct, retained_members. induction prev as [|m prev IH]; simpl; [constructor|].
  rewrite NoDup_cons. intros [Hm Hnd]. destruct (findRanked R (mconnection m)) as [e|] eqn:E; [|auto].
  simpl. rewrite NoDup_cons. split; [|auto]. apply findRanked_Some in E as [_ Hr].
  intros (e'&He'&Hin)%list_elem_of_fmap. apply list_elem_of_omap in Hin as (m'&Hm'&[_ Hr']%findRanked_Some).
  apply Hm. apply list_elem_of_fmap. exists m'. split; [congruence|done].
Qed.

Lemma fill_loop p R sel : live sel → live R → distinct sel →
  let out := foldl (fill_step p) sel R in
  distinct out ∧ live out ∧ (∃ k, out = sel ++ k ∧ ∀ e, e ∈ k → e ∈ R) ∧
  Z.of_nat (length out) ≤ Z.max (topN p) (Z.of_nat (length sel)) ∧
  (Z.of_nat (length out) < topN p → ∀ e, e ∈ R → ref e ∈ ref <$> out).
Proof.
  revert sel. induction R as [|c R IH]; intros sel Hs HR Hd; simpl.
  { split_and!; auto; [exists []; rewrite app_nil_r; split; [done|by intros e ?%not_elem_of_nil]|lia|by intros _ e ?%not_elem_of_nil]. }
  inversion HR as [|?? Hc HR']; subst.
  assert (live (fill_step p sel c) ∧ distinct (fill_step p sel c) ∧
    (∃ k, fill_step p sel c = sel ++ k ∧ ∀ e, e ∈ k → e = c) ∧
    Z.of_nat (length (fill_step p sel c)) ≤ Z.max (topN p) (Z.of_nat (length sel)) ∧
    (Z.of_nat (length (fill_step p sel c)) < topN p → ref c ∈ ref <$> fill_step p sel c)) as (H1&H2&(k&Hk&Hkc)&H3&H4).
  { unfold fill_step. destruct (topN p <=? Z.of_nat (length sel)) eqn:Hfull; simpl.
    { bool_to_prop. split_and!; auto; [exists []; rewrite app_nil_r; split; [done|by intros e ?%not_elem_of_nil]|lia|lia]. }
    destruct (containsRanked sel (ref c)) eqn:Hcon.
    - split_and!; auto; [exists []; rewrite app_nil_r; split; [done|by intros e ?%not_elem_of_nil]|lia|].
      intros _. apply containsRanked_true in Hcon as (e&He&<-). by apply list_elem_of_fmap_2.
    - bool_to_prop. split_and!.
      + apply Forall_app. split; [done|by constructor].
      + by apply distinct_snoc.
      + exists [c]. split; [done|]. by intros e ?%list_elem_of_singleton.
      + rewrite length_app. simpl. lia.
      + intros _. rewrite fmap_app. apply elem_of_app. right. by left. }
  destruct (IH (fill_step p sel c)) as (I1&I2&(k'&Hk'&Hin)&I4&I5); [done..|].
  split_and!; auto.
  - exists (k ++ k'). rewrite Hk', Hk, app_assoc. split; [done|].
    intros e [He|He]%elem_of_app; [rewrite (Hkc e He); by left|right; auto].
  - lia.
  - intros Hlt e [->|He]%elem_of_cons; [|by apply I5].
    rewrite Hk', fmap_app, elem_of_app. left. apply H4. rewrite Hk', length_app in Hlt. lia.
Qed.

Lemma find_worst_spec prev p now l i best j w :
  find_worst prev p now i best l = Some (j, w) →
  best = Some (j, w) ∨ (∃ n, j = (i + n)%nat ∧ l !! n = Some w ∧ protected_by_residence prev p now (ref w) = false).
Proof.
  revert i best. induction l as [|x l IH]; intros i best; simpl; [by left|].
  intros [Hb|(n&->&Hn&Hp)]%IH; [|right; exists (S n); split; [lia|done]].
  destruct (protected_by_residence prev p now (ref x)) eqn:Hx; [by left|].
  destruct best as [[k v]|].
  - destruct (worse v x); [|by left]. simplify_eq. right. exists 0%nat. split; [lia|done].
  - simplify_eq. right. exists 0%nat. split; [lia|done].
Qed.

Lemma optimize_step_spec prev p now sel c : live sel → crev (ref c) ≠ None → distinct sel →
  let out := optimize_step prev p now sel c in
  out = sel ∨ ∃ i w, sel !! i = Some w ∧ out = <[i := c]> sel ∧ protected_by_residence prev p now (ref w) = false ∧
    improvesBy (explanation c) (explanation w) (requiredImprovementPermille p) = true ∧ distinct out ∧ live out.
Proof.
  intros Hl Hc Hd. unfold optimize_step. destruct (containsRanked sel (ref c)) eqn:Hcon; [by left|].
  destruct (find_worst prev p now 0 None sel) as [[i w]|] eqn:Hw; [|by left].
  destruct (improvesBy _ _ _) eqn:Hi; [|by left]. right.
  apply find_worst_spec in Hw as [?|(n&->&Hn&Hp)]; [done|]. rewrite Nat.add_0_l. exists n, w. split_and!; auto.
  - unfold distinct in *. rewrite list_fmap_insert. apply NoDup_alt. intros a b x Ha Hb.
    assert (∀ k, (ref <$> sel) !! k ≠ Some (ref c)) as Hnot.
    { intros k Hk. apply list_lookup_fmap_Some in Hk as (e&He&Hk). apply list_elem_of_lookup_2 in Hk.
      unfold live in Hl. rewrite Forall_forall in Hl. by eapply containsRanked_false; eauto. }
    rewrite NoDup_alt in Hd.
    destruct (decide (a = n)) as [->|], (decide (b = n)) as [->|]; try done.
    + rewrite list_lookup_insert_ne in Hb by done. assert (x = ref c) as ->.
      { apply list_lookup_insert_Some in Ha as [(_&->&_)|[? _]]; done. } by destruct (Hnot b).
    + rewrite list_lookup_insert_ne in Ha by done. assert (x = ref c) as ->.
      { apply list_lookup_insert_Some in Hb as [(_&->&_)|[? _]]; done. } by destruct (Hnot a).
    + rewrite list_lookup_insert_ne in Ha, Hb by done. by eapply Hd.
  - by apply Forall_insert.
Qed.

Lemma optimize_loop prev p now R sel : live sel → live R → distinct sel →
  let out := optimize sel R prev p now in
  distinct out ∧ live out ∧ length out = length sel ∧ (∀ e, e ∈ out → e ∈ sel ∨ e ∈ R).
Proof.
  unfold optimize. revert sel. induction R as [|c R IH]; intros sel Hs HR Hd; simpl.
  { split_and!; auto. }
  inversion HR as [|?? Hc HR']; subst.
  destruct (optimize_step_spec prev p now sel c Hs Hc Hd) as [Eq|(i&w&Hi&Eq&Hp&Him&Hd'&Hl')].
  - rewrite Eq. destruct (IH sel) as (I1&I2&I3&I4); [done..|]. split_and!; auto.
    intros e He. destruct (I4 e He); [by left|right; by right].
  - rewrite Eq in *. destruct (IH (<[i:=c]> sel)) as (I1&I2&I3&I4); [done..|].
    rewrite length_insert in I3. split_and!; auto.
    intros e He. destruct (I4 e He) as [Hin|]; [|right; by right].
    apply list_elem_of_lookup in Hin as [k Hk]. apply list_lookup_insert_Some in Hk as [(_&->&_)|[_ Hk]].
    + right. by left.
    + left. by eapply list_elem_of_lookup_2.
Qed.

(** ** Who is outbid by whom *)

Definition cost (e : ranked) : Z := adaptiveCostNanos (explanation e).
(** An eligible candidate has a measured latency and some confidence. *)
Definition measured (e : ranked) : Prop := 0 < xmean (explanation e) ∧ 0 < confidencePPM (explanation e).
Definition outbids (p : Policy) (c e : ranked) : Prop :=
  improvesBy (explanation c) (explanation e) (requiredImprovementPermille p) = true.
Lemma outbids_spec p c e : outbids p c e ↔
  xmean (explanation c) * confidencePPM (explanation e) * 1000 ≤
  xmean (explanation e) * confidencePPM (explanation c) * (1000 - requiredImprovementPermille p) ∧ cost c < cost e.
Proof. unfold outbids, improvesBy, cost. rewrite andb_true_iff, Z.leb_le, Z.ltb_lt. done. Qed.
Lemma outbids_trans p a b c : 0 ≤ requiredImprovementPermille p < 1000 → measured a → measured b → measured c →
  outbids p a b → outbids p b c → outbids p a c.
Proof.
  rewrite !outbids_spec. unfold measured, cost. intros Hr [A1 A2] [B1 B2] [C1 C2] [H1 L1] [H2 L2]. split; [|lia].
  set (k := 1000 - requiredImprovementPermille p) in *. assert (0 < k ≤ 1000) as Hk by lia. clearbody k.
  generalize dependent (xmean (explanation a)). generalize dependent (xmean (explanation b)). generalize dependent (xmean (explanation c)).
  generalize dependent (confidencePPM (explanation a)). generalize dependent (confidencePPM (explanation b)). generalize dependent (confidencePPM (explanation c)).
  clear L1 L2 Hr. intros fc Fc fb Fb fa Fa dc Dc db Db H2 da Da H1.
  apply (Zmult_le_reg_r _ _ (fb * 1000)); [nia|].
  transitivity (db * fa * k * (fc * 1000)); [nia|]. transitivity (dc * fb * k * (fa * k)); [nia|]. nia.
Qed.

(** The optimization replaces a member by a newcomer that outbids it, or by a
    member that was itself outbid by a newcomer; newcomers stay, because the
    challengers come in order of cost. *)
Record outbid_ok (prev : list Member) (p : Policy) (now : Z) (filled cur rest : list ranked) : Prop := {
  ob_cheap : ∀ c, c ∈ cur → ref c ∉ ref <$> filled → ∀ ch, ch ∈ rest → cost c ≤ cost ch;
  ob_known : ∀ c, c ∈ cur ∨ c ∈ rest → measured c ∧ (ref c ∈ ref <$> filled → c ∈ filled);
  ob_members : ∀ e, e ∈ filled → measured e ∧ (e ∈ cur ∨ protected_by_residence prev p now (ref e) = false ∧
    ∃ c, c ∈ cur ∧ ref c ∉ ref <$> filled ∧ outbids p c e);
}.
Lemma insert_elem (l : list ranked) i w c x : l !! i = Some w → x ∈ <[i := c]> l → x = c ∨ x ∈ l.
Proof.
  intros Hi [k Hk]%list_elem_of_lookup. apply list_lookup_insert_Some in Hk as [(_&->&_)|[_ Hk]]; [by left|].
  right. by eapply list_elem_of_lookup_2.
Qed.
Lemma insert_keeps (l : list ranked) i w c x : l !! i = Some w → x ∈ l → x = w ∨ x ∈ <[i := c]> l.
Proof.
  intros Hi [k Hk]%list_elem_of_lookup. destruct (decide (k = i)) as [-> |Hne]; [left; congruence|right].
  apply (list_elem_of_lookup_2 _ k). by rewrite list_lookup_insert_ne.
Qed.
Lemma outbid_replace prev p now filled cur rest i w c : 0 ≤ requiredImprovementPermille p < 1000 →
  outbid_ok prev p now filled cur (c :: rest) → (∀ ch, ch ∈ rest → cost c ≤ cost ch) → cur !! i = Some w → c ∉ cur →
  protected_by_residence prev p now (ref w) = false → outbids p c w → outbid_ok prev p now filled (<[i := c]> cur) rest.
Proof.
  intros Hreq [Hcheap Hknown Hmem] Hc Hi Hnew Hprot Hout.
  assert (w ∈ cur) as Hw by (by eapply list_elem_of_lookup_2). assert (c ∈ <[i:=c]> cur) as Hin.
  { apply (list_elem_of_lookup_2 _ i). apply list_lookup_insert_eq. by eapply lookup_lt_Some. }
  assert (ref w ∈ ref <$> filled) as Hwf.
  { destruct (decide (ref w ∈ ref <$> filled)) as [?|Hn]; [done|]. apply outbids_spec in Hout as [_ Hlt].
    specialize (Hcheap w Hw Hn c ltac:(by left)). lia. }
  split.
  - intros x Hx Hn ch Hch. destruct (insert_elem _ _ _ _ _ Hi Hx) as [-> |Hx']; [by apply Hc|]. apply Hcheap; [done|done|by right].
  - intros x [Hx|Hx]; apply Hknown; [|right; by right]. destruct (insert_elem _ _ _ _ _ Hi Hx) as [-> |?]; [right; by left|by left].
  - intros e He. destruct (Hmem e He) as [Hme Hcase]. split; [done|].
    assert (∀ x, x ∈ cur → ref x ∉ ref <$> filled → x ∈ <[i:=c]> cur) as Hstay.
    { intros x Hx Hn. destruct (insert_keeps _ _ _ c x Hi Hx) as [-> |?]; done. }
    destruct Hcase as [Hecur|(Hp&x&Hx&Hn&Ho)]; [|right; split; [done|]; exists x; auto].
    destruct (insert_keeps _ _ _ c e Hi Hecur) as [-> |?]; [|by left]. right. split; [done|].
    destruct (decide (ref c ∈ ref <$> filled)) as [Hcf|]; [|by exists c].
    destruct (Hknown c ltac:(right; by left)) as [Hmc Hcf']. destruct (Hmem c (Hcf' Hcf)) as [_ [?|(_&x&Hx&Hn&Ho)]]; [done|].
    exists x. split_and!; [by apply Hstay|done|]. eapply outbids_trans; [done|by apply Hknown; left|done|done|done|done].
Qed.
Lemma optimize_outbids prev p now filled cur R : 0 ≤ requiredImprovementPermille p < 1000 → live cur → live R → distinct cur →
  StronglySorted (λ a b, cost a ≤ cost b) R → outbid_ok prev p now filled cur R →
  outbid_ok prev p now filled (optimize cur R prev p now) [].
Proof.
  intros Hreq. unfold optimize. revert cur. induction R as [|c R IH]; intros cur Hs HR Hd Hsort Hok; simpl; [done|].
  inversion HR as [|?? Hc HR']; subst. inversion_clear Hsort as [|? ? Hsort' Hle]. rewrite Forall_forall in Hle.
  destruct (optimize_step_spec prev p now cur c Hs Hc Hd) as [Eq|(i&w&Hi&Eq&Hp&Him&Hd'&Hl')].
  - rewrite Eq. apply IH; try done. destruct Hok as [H1 H2 H3]. split; [|intros x [?|?]; apply H2; [by left|right; by right]|done].
    intros x Hx Hn ch Hch. apply H1; [done|done|by right].
  - rewrite Eq in *. apply IH; try done. eapply outbid_replace; try done. intros Hin.
    apply list_elem_of_lookup in Hin as [k Hk]. destruct (decide (k = i)) as [-> |Hne].
    + assert (c = w) as -> by congruence. apply outbids_spec in Him as [_ ?]. lia.
    + assert (i < length cur)%nat by (by eapply lookup_lt_Some). unfold distinct in Hd'. rewrite NoDup_alt in Hd'. apply Hne.
      apply (Hd' k i (ref c)); rewrite list_lookup_fmap; [rewrite list_lookup_insert_ne by done; by rewrite Hk|by rewrite list_lookup_insert_eq].
Qed.

(** ** The decision *)

Definition usable (sc : string) (ctx : Context) (p : Policy) (previous : option State) : bool :=
  match previous with
  | Some s => bool_decide (scope s = sc) && contextsEqual (scontext s) ctx && bool_decide (fingerprint s = policyFingerprint p)
  | None => false
  end.
Definition prev_members sc ctx p (previous : option State) : list Member :=
  if usable sc ctx p previous then match previous with Some s => members s | None => [] end else [].
Definition prev_cooldowns sc ctx p (previous : option State) : list Cooldown :=
  if usable sc ctx p previous then match previous with Some s => cooldowns s | None => [] end else [].

(** The intermediate values of a successful [Select]. *)
Record selection_run sc ctx p candidates previous now (d : Decision) (evaluated R sel : list ranked) : Prop := {
  run_policy : policy_valid p = true;
  run_inputs : safeScope sc = true ∧ now ≠ 0;
  run_duplicates : adjacent_duplicates (go_sort candidate_cmp candidates) = false;
  run_evaluated : mapM (evaluate_ref ctx p (prev_members sc ctx p previous) (prev_cooldowns sc ctx p previous) now)
    (go_sort candidate_cmp candidates) = Some evaluated;
  run_ranked : R = sortRanked (strategy p) (filter (λ x, reason (explanation x) = ReasonEligible) evaluated);
  run_selected : sel =
    let prev := prev_members sc ctx p previous in
    let adaptive := bool_decide (strategy p = StrategyAdaptive) && usable sc ctx p previous in
    let retained := if adaptive then retained_members R prev else [] in
    let retained := if topN p <? Z.of_nat (length retained)
                    then take (Z.to_nat (topN p)) (sortRanked (strategy p) retained) else retained in
    let filled := foldl (fill_step p) retained R in
    if negb adaptive then take (Z.to_nat (topN p)) filled
    else if Z.of_nat (length filled) =? topN p then optimize filled R prev p now else filled;
  run_decision : selected d = (λ x, crecord (rcandidate x)) <$> sel ∧ explanations d = explanation <$> evaluated ∧
    members (next d) = next_member (prev_members sc ctx p previous) now <$> sel ∧
    degraded d = (Z.of_nat (length sel) <? topN p) ∧ eligible d = Z.of_nat (length R) ∧ requested d = topN p;
  run_next : scope (next d) = sc ∧ scontext (next d) = ctx ∧ fingerprint (next d) = policyFingerprint p ∧
    evaluatedAt (next d) = now ∧ ∃ reasons kept, kept `sublist_of` prev_cooldowns sc ctx p previous ∧
    (cooldowns (next d) =
      if bool_decide (strategy p = StrategyAdaptive) && usable sc ctx p previous
      then (foldl (retain_step p R reasons now) ([], false, kept) (prev_members sc ctx p previous)).2 else kept) ∧
    (∀ c, c ∈ kept → refKey (dconnection c) ∈ refKey ∘ ref <$> evaluated) ∧
    ∀ k, is_Some (reasons !! k) → k ∈ refKey ∘ ref <$> evaluated;
}.

Lemma Select_run sc ctx p candidates previous now d :
  Select sc ctx p candidates previous now = Ok d → ∃ evaluated R sel,
    selection_run sc ctx p candidates previous now d evaluated R sel.
Proof.
  unfold Select. intros Hsel. ok_inv. cbv zeta in *. ok_inv. fold (usable sc ctx p previous) in *.
  fold (prev_members sc ctx p previous) in *. fold (prev_cooldowns sc ctx p previous) in *.
  destruct (mapM _ _) as [evaluated|] eqn:Hev; [|done].
  set (R := sortRanked (strategy p) (filter (λ x, reason (explanation x) = ReasonEligible) evaluated)) in *.
  set (adaptive := bool_decide (strategy p = StrategyAdaptive) && usable sc ctx p previous) in *.
  set (kept := filter _ (prev_cooldowns sc ctx p previous)) in *. set (reasons := list_to_map _) in *.
  match goal with Hx : (let '(_, _) := ?x in _) = Ok d |- _ => destruct x as [[ret em] cds] eqn:Hret end.
  assert (ret = if adaptive then retained_members R (prev_members sc ctx p previous) else []) as ->.
  { destruct adaptive.
    - match type of Hret with ?x = _ => change ret with (ret, em, cds).1.1; rewrite <-Hret end. by rewrite retain_loop.
    - by simplify_eq. }
  ok_inv. bool_to_prop. unfold is_zero in *. bool_to_prop.
  eexists evaluated, R, _. split; try done. simpl. split_and!; try done. fold adaptive.
  exists reasons, kept. split_and!; [apply sublist_filter|destruct adaptive; [by rewrite Hret|by simplify_eq]|..].
  - intros c [Hk _]%list_elem_of_filter. unfold keep_cooldown in Hk. bool_to_prop.
    match goal with Hx : refKey _ ∈ list_to_set _ |- _ => by apply elem_of_list_to_set in Hx end.
  - intros k [r Hk]. apply elem_of_list_to_map_2, list_elem_of_fmap in Hk as (e&[= -> _]&He). apply list_elem_of_fmap.
    exists e. split; [done|]. by rewrite elem_of_reverse in He.
Qed.

#[local] Instance candidate_cmp_order : CmpOrder candidate_cmp.
Proof. apply _. Qed.
#[local] Instance ranked_cmp_order st : CmpOrder (ranked_cmp st).
Proof. destruct st; apply _. Qed.

Lemma adjacent_duplicates_spec l : StronglySorted (cmp_le candidate_cmp) l →
  adjacent_duplicates l = false ↔ NoDup (candidate_identity <$> l).
Proof.
  intros Hs. split.
  - intros Hadj. assert (StronglySorted (cmp_lt candidate_cmp) l) as Hlt.
    { apply sorted_le_adjacent; [apply _|done|]. clear Hs. induction l as [|x l IH]; intros i a b Ha Hb; [done|].
      destruct l as [|y l]; [by destruct i|]. simpl in Hadj. apply orb_false_iff in Hadj as [Hxy Hadj].
      destruct i as [|i]; simpl in *; [|by eapply IH].
      simplify_eq. intros E. apply (cmp_exact Identity_Compare) in E. apply Identity_Equal_iff in E. congruence. }
    clear Hadj Hs. induction Hlt as [|x l Hl IH Hx]; [constructor|]. rewrite fmap_cons. apply NoDup_cons. split; [|done].
    intros (y&Hy&Hin)%list_elem_of_fmap. rewrite Forall_forall in Hx. specialize (Hx y Hin).
    unfold cmp_lt, candidate_cmp, cmp_on in Hx. rewrite Hy in Hx. by rewrite (cmp_refl Identity_Compare) in Hx.
  - clear Hs. induction l as [|x l IH]; intros Hnd; [done|]. rewrite fmap_cons in Hnd. apply NoDup_cons in Hnd as [Hx Hnd].
    destruct l as [|y l]; [done|]. simpl. apply orb_false_iff. split; [|by apply IH].
    apply not_true_is_false. intros E%Identity_Equal_iff. apply Hx. rewrite E. by left.
Qed.

Section run.
Context (sc : string) (ctx : Context) (p : Policy) (candidates : list SCandidate) (previous : option State) (now : Z).
Context (d : Decision) (evaluated R sel : list ranked).
Context (Hrun : selection_run sc ctx p candidates previous now d evaluated R sel).
Let prev := prev_members sc ctx p previous.
Let cds := prev_cooldowns sc ctx p previous.

Lemma evaluated_elem e : e ∈ evaluated →
  rcandidate e ∈ candidates ∧ NewConnectionRef (candidate_identity (rcandidate e)) = Some (ref e) ∧
  explanation e = evaluate (rcandidate e) (ref e) ctx p cds (findMember prev (ref e)).1 (findMember prev (ref e)).2 now.
Proof.
  pose proof (run_evaluated _ _ _ _ _ _ _ _ _ _ Hrun) as Hm. apply mapM_Some in Hm.
  intros He. apply list_elem_of_lookup in He as [i Hi].
  destruct (Forall2_lookup_r _ _ _ _ _ Hm Hi) as (c&Hc&Hev). unfold evaluate_ref in Hev.
  apply bind_Some in Hev as (r&Hr&Hev). fold prev in Hev. destruct (findMember prev r) as [inc since] eqn:Hf.
  injection Hev as <-. simpl. rewrite Hf. simpl. split_and!; try done.
  apply list_elem_of_lookup_2 in Hc. by apply go_sort_elem_of in Hc.
Qed.

Lemma evaluated_identities : candidate_identity ∘ rcandidate <$> evaluated = candidate_identity <$> go_sort candidate_cmp candidates.
Proof.
  pose proof (run_evaluated _ _ _ _ _ _ _ _ _ _ Hrun) as Hm. apply mapM_Some in Hm.
  clear -Hm. induction Hm as [|c e l k Hce Hm IH]; [done|]. rewrite !fmap_cons. f_equal; [|done].
  unfold evaluate_ref in Hce. apply bind_Some in Hce as (r&Hr&Hev). destruct (findMember _ _). by injection Hev as <-.
Qed.

Lemma evaluated_live : live evaluated.
Proof.
  apply Forall_forall. intros e (_&Hr&_)%evaluated_elem. by apply NewConnectionRef_Some in Hr as (_&?&_).
Qed.

Lemma evaluated_distinct : distinct evaluated.
Proof.
  assert (NoDup (candidate_identity ∘ rcandidate <$> evaluated)) as Hnd.
  { rewrite evaluated_identities. apply adjacent_duplicates_spec; [apply go_sort_sorted, _|apply Hrun]. }
  unfold distinct.
  assert (ref <$> evaluated = (λ i, {| cid := id i; crev := revision i |}) <$> (candidate_identity ∘ rcandidate <$> evaluated)) as ->.
  { rewrite <-list_fmap_compose. apply list_fmap_ext. intros i e Hi%list_elem_of_lookup_2.
    destruct (evaluated_elem e Hi) as (_&Hr&_). apply NewConnectionRef_Some in Hr as [Hid _]. simpl.
    rewrite Hid. by destruct (ref e). }
  apply NoDup_fmap_2; [|done]. intros [i r] [i' r'] E. by injection E as -> ->.
Qed.

Lemma R_elem e : e ∈ R ↔ e ∈ evaluated ∧ reason (explanation e) = ReasonEligible.
Proof.
  rewrite (run_ranked _ _ _ _ _ _ _ _ _ _ Hrun). unfold sortRanked.
  rewrite go_sort_elem_of, list_elem_of_filter. naive_solver.
Qed.
Lemma R_live : live R.
Proof. apply Forall_forall. intros e [He _]%R_elem. pose proof evaluated_live as Hl. unfold live in Hl. rewrite Forall_forall in Hl. auto. Qed.
Lemma R_distinct : distinct R.
Proof.
  rewrite (run_ranked _ _ _ _ _ _ _ _ _ _ Hrun). unfold distinct, sortRanked. rewrite go_sort_perm.
  eapply sublist_NoDup; [apply evaluated_distinct|]. apply fmap_sublist, sublist_filter.
Qed.

Context (Hprev : NoDup (mconnection <$> prev)).
Let adaptive := bool_decide (strategy p = StrategyAdaptive) && usable sc ctx p previous.
Let retained0 := if adaptive then retained_members R prev else [].
Let retained := if topN p <? Z.of_nat (length retained0)
                then take (Z.to_nat (topN p)) (sortRanked (strategy p) retained0) else retained0.
Let filled := foldl (fill_step p) retained R.

Lemma topN_pos : 1 ≤ topN p.
Proof. pose proof (run_policy _ _ _ _ _ _ _ _ _ _ Hrun) as Hp. unfold policy_valid, outside in Hp. bool_to_prop. lia. Qed.

Lemma retained0_sub e : e ∈ retained0 → e ∈ R.
Proof.
  unfold retained0. destruct adaptive; [|by intros ?%not_elem_of_nil].
  intros (m&_&Hf)%retained_elem. by apply findRanked_Some in Hf as [? _].
Qed.
Lemma retained_sub e : e ∈ retained → e ∈ retained0.
Proof.
  unfold retained. destruct (_ <? _); [|done]. intros He.
  apply list_elem_of_lookup in He as [i He]. apply lookup_take_Some in He as [He _]. apply list_elem_of_lookup_2 in He.
  unfold sortRanked in He. by rewrite go_sort_elem_of in He.
Qed.
Lemma sub_live l : (∀ e, e ∈ l → e ∈ R) → live l.
Proof. intros Hs. pose proof R_live as Hl. unfold live in *. rewrite Forall_forall in *. auto. Qed.

Lemma retained_good : distinct retained ∧ live retained ∧ Z.of_nat (length retained) ≤ topN p.
Proof.
  pose proof topN_pos. assert (distinct retained0) as Hd.
  { unfold retained0. destruct adaptive; [by apply retained_distinct|constructor]. }
  split_and!.
  - unfold retained. destruct (_ <? _); [|done]. unfold distinct in *. rewrite fmap_take.
    eapply sublist_NoDup; [|apply sublist_take]. unfold sortRanked. by rewrite go_sort_perm.
  - apply sub_live. eauto using retained_sub, retained0_sub.
  - unfold retained. destruct (_ <? _) eqn:E; bool_to_prop; [|done]. rewrite length_take. lia.
Qed.

Lemma filled_good : distinct filled ∧ live filled ∧ (∀ e, e ∈ filled → e ∈ R) ∧ (∀ e, e ∈ retained → e ∈ filled) ∧
  Z.of_nat (length filled) = Z.min (topN p) (Z.of_nat (length R)).
Proof.
  destruct retained_good as (Hd&Hl&Hlen).
  destruct (fill_loop p R retained Hl R_live Hd) as (F1&F2&(k&Hk&Hkin)&F4&F5). fold filled in F1, F2, F4, F5, Hk.
  assert (∀ e, e ∈ filled → e ∈ R) as Hsub.
  { intros e. rewrite Hk, elem_of_app. intros [?|?]; eauto using retained_sub, retained0_sub. }
  split_and!; auto. { intros e He. rewrite Hk, elem_of_app. by left. }
  assert (length filled ≤ length R)%nat as Hle.
  { rewrite <-(length_fmap ref filled), <-(length_fmap ref R). apply submseteq_length.
    apply NoDup_submseteq; [done|]. intros r (e&->&He)%list_elem_of_fmap. apply list_elem_of_fmap_2. auto. }
  destruct (decide (Z.of_nat (length filled) < topN p)) as [Hlt|]; [|lia].
  assert (length R ≤ length filled)%nat; [|lia].
  rewrite <-(length_fmap ref filled), <-(length_fmap ref R). apply submseteq_length.
  apply NoDup_submseteq; [apply R_distinct|]. intros r (e&->&He)%list_elem_of_fmap. auto.
Qed.

Lemma evaluate_measured c r cds' inc since : reason (evaluate c r ctx p cds' inc since now) = ReasonEligible →
  0 < xmean (evaluate c r ctx p cds' inc since now) ∧ 0 < confidencePPM (evaluate c r ctx p cds' inc since now).
Proof.
  unfold evaluate. destruct (evidence c) as [x|]; [|done]. cbv zeta.
  repeat (match goal with |- context [if ?b then _ else _] => lazymatch b with (_ && _) => fail | _ => destruct b eqn:? end end || case_match); try done;
    intros _; simpl; bool_to_prop; lia.
Qed.
Lemma R_measured e : e ∈ R → measured e.
Proof.
  intros [He Hr]%R_elem. destruct (evaluated_elem e He) as (_&_&Hx). unfold measured. rewrite Hx in Hr |- *. by apply evaluate_measured.
Qed.
Lemma R_by_cost : strategy p = StrategyAdaptive → StronglySorted (λ a b, cost a ≤ cost b) R.
Proof.
  intros Hst. rewrite (run_ranked _ _ _ _ _ _ _ _ _ _ Hrun), Hst. unfold sortRanked.
  pose proof (go_sort_sorted (ranked_cmp StrategyAdaptive) (filter (λ x, reason (explanation x) = ReasonEligible) evaluated)) as Hs.
  induction Hs as [|a l _ IH Ha]; constructor; [done|]. eapply Forall_impl; [exact Ha|].
  intros b. unfold cmp_le, ranked_cmp, cmp_lex, lex, cmp_on, cost.
  destruct (Z.compare_spec (adaptiveCostNanos (explanation a)) (adaptiveCostNanos (explanation b))); [lia|lia|done].
Qed.
Lemma R_same x y : x ∈ R → y ∈ R → ref x = ref y → x = y.
Proof.
  pose proof R_distinct as Hd. unfold distinct in Hd. rewrite NoDup_alt in Hd. intros [i Hi]%list_elem_of_lookup [j Hj]%list_elem_of_lookup E.
  assert (i = j) as <-; [|congruence]. apply (Hd i j (ref x)); rewrite list_lookup_fmap; [by rewrite Hi|rewrite Hj, E; done].
Qed.
(** The selection: distinct eligible candidates, as many as the policy asks
    for or as there are; an eligible member it drops was outbid by a selected
    newcomer. *)
Lemma sel_good : distinct sel ∧ live sel ∧ (∀ e, e ∈ sel → e ∈ R) ∧
  Z.of_nat (length sel) = Z.min (topN p) (Z.of_nat (length R)) ∧
  (adaptive = true → ∀ e, e ∈ retained → e ∈ sel ∨ (protected_by_residence prev p now (ref e) = false ∧
     ∃ c, c ∈ sel ∧ ref c ∉ ref <$> retained ∧ outbids p c e)).
Proof.
  destruct filled_good as (F1&F2&F3&F4&F5). pose proof (run_selected _ _ _ _ _ _ _ _ _ _ Hrun) as Hs. rewrite Hs. clear Hs. cbv zeta.
  fold prev adaptive. fold retained0. fold retained. fold filled. destruct adaptive eqn:Ead; simpl.
  - destruct (Z.of_nat (length filled) =? topN p) eqn:E.
    + destruct (optimize_loop prev p now R filled F2 R_live F1) as (O1&O2&O3&O4).
      split_and!; auto; [intros e He; destruct (O4 e He); auto|by rewrite O3|].
      assert (outbid_ok prev p now filled (optimize filled R prev p now) []) as [_ _ Hm].
      { pose proof (run_policy _ _ _ _ _ _ _ _ _ _ Hrun) as Hp. unfold policy_valid in Hp.
        apply optimize_outbids; auto using R_live.
        - bool_to_prop. lia.
        - apply R_by_cost. unfold adaptive in Ead. by bool_to_prop.
        - split.
          + intros c Hc Hn. destruct Hn. by apply list_elem_of_fmap_2.
          + intros c Hc. assert (c ∈ R) as HcR by (destruct Hc; auto). split; [by apply R_measured|].
            intros (y&Hy&Hin)%list_elem_of_fmap. by rewrite (R_same c y HcR (F3 y Hin) Hy).
          + intros e He. split; [by apply R_measured, F3|by left]. }
      intros _ e He. destruct (Hm e (F4 e He)) as [_ [?|(Hp&c&Hc&Hn&Ho)]]; [by left|right]. split; [done|]. exists c. split_and!; [done| |done].
      intros (y&Hy&Hin)%list_elem_of_fmap. apply Hn. rewrite Hy. apply list_elem_of_fmap_2, F4, Hin.
    + split_and!; auto.
  - rewrite take_ge by lia. split_and!; auto.
Qed.
End run.

(** The members of a state that [State.Validate] accepted are distinct. *)
Lemma no_duplicate_spec seen l : no_duplicate seen l = true → NoDup l ∧ ∀ x, x ∈ l → x ∉ seen.
Proof.
  revert seen. induction l as [|x l IH]; intros seen Hl; simpl in Hl.
  { split; [constructor|by intros x ?%not_elem_of_nil]. }
  bool_to_prop. destruct (IH (x :: seen)) as [Hnd Hs]; [done|]. split.
  - constructor; [|done]. intros Hx. apply (Hs x Hx). by left.
  - intros y [->|Hy]%elem_of_cons; [done|]. intros Hin. apply (Hs y Hy). by right.
Qed.
Lemma no_duplicate_intro seen l : NoDup l → (∀ x, x ∈ l → x ∉ seen) → no_duplicate seen l = true.
Proof.
  intros Hnd. revert seen. induction Hnd as [|x l Hx _ IH]; intros seen Hs; [done|]. simpl.
  rewrite bool_decide_false by (apply Hs; by left). simpl. apply IH. intros y Hy [->|Hin]%elem_of_cons; [done|].
  apply (Hs y); [by right|done].
Qed.
Lemma NoDup_fmap_inv {A B} (f : A → B) l : NoDup (f <$> l) → NoDup l.
Proof.
  induction l as [|x l IH]; [constructor|]. rewrite fmap_cons, NoDup_cons. intros [Hx Hl].
  constructor; [|auto]. intros Hin. apply Hx. by apply list_elem_of_fmap_2.
Qed.

Lemma prev_members_distinct sc ctx p previous :
  (∀ s, previous = Some s → state_valid s = true) → NoDup (mconnection <$> prev_members sc ctx p previous).
Proof.
  intros Hv. unfold prev_members. destruct (usable _ _ _ _); [|constructor].
  destruct previous as [s|]; [|constructor]. specialize (Hv s eq_refl). unfold state_valid in Hv. bool_to_prop.
  match goal with Hn : no_duplicate [] (_ <$> members s) = true |- _ => apply no_duplicate_spec in Hn as [Hn _] end.
  apply (NoDup_fmap_inv refKey). by rewrite <-list_fmap_compose.
Qed.

Lemma NoDup_fmap_eq {A B} (f : A → B) l x y : NoDup (f <$> l) → x ∈ l → y ∈ l → f x = f y → x = y.
Proof.
  rewrite NoDup_alt. intros Hnd [i Hi]%list_elem_of_lookup [j Hj]%list_elem_of_lookup Hf.
  assert (i = j) as <-; [|congruence].
  apply (Hnd i j (f x)); rewrite list_lookup_fmap; [rewrite Hi|rewrite Hj]; simpl; congruence.
Qed.
Lemma findRanked_in l e : distinct l → live l → e ∈ l → findRanked l (ref e) = Some e.
Proof.
  intros Hd Hl He. unfold live in Hl. rewrite Forall_forall in Hl.
  destruct (findRanked l (ref e)) as [e'|] eqn:Hf; [|by eapply findRanked_None in Hf; eauto].
  apply findRanked_Some in Hf as [He' Hr]. f_equal. by apply (NoDup_fmap_eq ref l).
Qed.
Lemma findMember_in l m : NoDup (mconnection <$> l) → m ∈ l → crev (mconnection m) ≠ None →
  findMember l (mconnection m) = (true, selectedAt m).
Proof.
  intros Hnd Hm Hr. unfold findMember. destruct (List.find _ l) as [m'|] eqn:Hf.
  - apply find_some in Hf as [Hin Heq%ConnectionRef_Equal_eq]. apply list_elem_of_In in Hin.
    by rewrite (NoDup_fmap_eq mconnection l m' m).
  - apply list_elem_of_In, (find_none _ _ Hf) in Hm. by rewrite ConnectionRef_Equal_refl in Hm.
Qed.
Lemma state_member_valid s m : state_valid s = true → m ∈ members s → selectedAt m ≠ 0 ∧ crev (mconnection m) ≠ None.
Proof.
  intros Hv Hm. unfold state_valid in Hv. bool_to_prop.
  match goal with Hf : forallb _ (members s) = true |- _ => rewrite forallb_forall in Hf; specialize (Hf m) end.
  rewrite <-list_elem_of_In in *. match goal with Hf : _ ∈ _ → _ |- _ => specialize (Hf Hm) end.
  unfold is_zero in *. bool_to_prop. done.
Qed.
Lemma retained_length R l : (length (retained_members R l) ≤ length l)%nat.
Proof.
  unfold retained_members. induction l as [|a l IH]; [done|]. csimpl.
  destruct (findRanked R (mconnection a)); csimpl; lia.
Qed.

(** ** Selection theorems *)

(** C1: Every connection [Select] returns is a candidate that satisfies every eligibility rule of the policy in this
    context (matching and fresh evidence for this revision, enough samples, reliable enough, no failure streak, not
    cooling down), no connection is returned twice, and exactly min(TopN, eligible) are returned: the decision is
    degraded if and only if fewer than TopN candidates are eligible. *)
Theorem select_sound sc ctx p candidates previous now d :
  (∀ s, previous = Some s → state_valid s = true) → Select sc ctx p candidates previous now = Ok d →
  (∀ r, r ∈ selected d → ∃ c s, c ∈ candidates ∧ crecord c = r ∧
     qualifies ctx p (prev_cooldowns sc ctx p previous) now c s) ∧
  NoDup (record_identity <$> selected d) ∧
  Z.of_nat (length (selected d)) = Z.min (topN p) (eligible d) ∧ degraded d = (eligible d <? topN p).
Proof.
  intros Hv (ev&R&sel&Hrun)%Select_run. pose proof (prev_members_distinct sc ctx p previous Hv) as Hnd.
  destruct (sel_good _ _ _ _ _ _ _ _ _ _ Hrun Hnd) as (Hd&Hl&Hsub&Hlen&_).
  destruct (run_decision _ _ _ _ _ _ _ _ _ _ Hrun) as (Hsel&_&_&Hdeg&Hel&_).
  pose proof (run_policy _ _ _ _ _ _ _ _ _ _ Hrun) as Hp. unfold policy_valid, outside in Hp. bool_to_prop.
  split_and!.
  - rewrite Hsel. intros r (e&->&He)%list_elem_of_fmap. apply Hsub, (R_elem _ _ _ _ _ _ _ _ _ _ Hrun) in He as [He Hr].
    destruct (evaluated_elem _ _ _ _ _ _ _ _ _ _ Hrun e He) as (Hc&Hnr&Hx). rewrite Hx in Hr.
    apply evaluate_eligible in Hr as [s Hs]; [|lia|done]. by exists (rcandidate e), s.
  - rewrite Hsel, <-list_fmap_compose. unfold distinct in Hd.
    apply (NoDup_fmap_inv (λ i, {| cid := id i; crev := revision i |})).
    rewrite <-list_fmap_compose. replace (_ <$> sel) with (ref <$> sel); [done|].
    apply list_fmap_ext. intros i e He%list_elem_of_lookup_2. apply Hsub, (R_elem _ _ _ _ _ _ _ _ _ _ Hrun) in He as [He _].
    destruct (evaluated_elem _ _ _ _ _ _ _ _ _ _ Hrun e He) as (_&Hnr&_).
    apply NewConnectionRef_Some in Hnr as [Hid _]. simpl. unfold candidate_identity in Hid. rewrite Hid. by destruct (ref e).
  - rewrite Hsel, length_fmap, Hel. done.
  - rewrite Hdeg, Hel. destruct (Z.of_nat (length R) <? topN p) eqn:E; bool_to_prop; lia.
Qed.

(** C4: Adaptive selection keeps its incumbents.  For the adaptive strategy and a previous state that is usable (same
    scope, context and policy) and has no more members than TopN: a previous member that is still eligible keeps its
    place with its original selection time while it is inside its residence period, and outside of it loses its place
    only to a newcomer: an eligible candidate that was not a member before, is a member now, selected at [now], and
    whose mean latency per unit of confidence is lower by at least the required margin, at a lower rounded cost. *)
Theorem select_keeps_incumbents sc ctx p candidates s now d m x :
  state_valid s = true → Select sc ctx p candidates (Some s) now = Ok d →
  strategy p = StrategyAdaptive → usable sc ctx p (Some s) = true → Z.of_nat (length (members s)) ≤ topN p →
  m ∈ members s → x ∈ explanations d → xconnection x = mconnection m → reason x = ReasonEligible →
  (∃ m', m' ∈ members (next d) ∧ mconnection m' = mconnection m ∧ selectedAt m' = selectedAt m) ∨
  (selectedAt m + residence p ≤ now ∧
   ∃ y m', y ∈ explanations d ∧ reason y = ReasonEligible ∧
     m' ∈ members (next d) ∧ mconnection m' = xconnection y ∧ selectedAt m' = now ∧ xconnection y ∉ mconnection <$> members s ∧
     xmean y * confidencePPM x * 1000 ≤ xmean x * confidencePPM y * (1000 - requiredImprovementPermille p) ∧
     adaptiveCostNanos y < adaptiveCostNanos x).
Proof.
  intros Hv (ev&R&sel&Hrun)%Select_run Hst Hus Htop Hm Hx Hxc Hxr.
  assert (∀ s', Some s = Some s' → state_valid s' = true) as Hv' by (by intros s' [= <-]).
  pose proof (prev_members_distinct sc ctx p (Some s) Hv') as Hnd.
  destruct (sel_good _ _ _ _ _ _ _ _ _ _ Hrun Hnd) as (Hd&Hl&Hsub&Hlen&Hkeep).
  destruct (run_decision _ _ _ _ _ _ _ _ _ _ Hrun) as (_&Hex&Hmem&_).
  assert (prev_members sc ctx p (Some s) = members s) as Hpm by (unfold prev_members; by rewrite Hus).
  rewrite Hpm, Hus, Hst in *. rewrite bool_decide_true in Hkeep by done. simpl in Hkeep.
  pose proof (retained_length R (members s)).
  replace (topN p <? Z.of_nat (length (retained_members R (members s)))) with false in Hkeep by lia.
  rewrite Hex in Hx. apply list_elem_of_fmap in Hx as (e&->&He).
  assert (e ∈ R) as HeR by (apply (R_elem _ _ _ _ _ _ _ _ _ _ Hrun); done).
  destruct (evaluated_elem _ _ _ _ _ _ _ _ _ _ Hrun e He) as (_&Hnr&Hxe).
  assert (ref e = mconnection m) as Hem by (by rewrite <-Hxc, Hxe, evaluate_connection).
  destruct (state_member_valid s m Hv Hm) as [Hsa Hmr].
  assert (∀ c, c ∈ R → findRanked R (ref c) = Some c) as Hf.
  { intros c Hc. apply findRanked_in; [apply (R_distinct _ _ _ _ _ _ _ _ _ _ Hrun)|apply (R_live _ _ _ _ _ _ _ _ _ _ Hrun)|done]. }
  assert (findMember (members s) (ref e) = (true, selectedAt m)) as Hfm by (rewrite Hem; by apply findMember_in).
  assert (∀ m', m' ∈ members s → ∀ c, c ∈ R → ref c = mconnection m' → c ∈ retained_members R (members s)) as Hret.
  { intros m' Hm' c Hc E. apply retained_elem. exists m'. split; [done|]. rewrite <-E. by apply Hf. }
  destruct (Hkeep eq_refl e) as [Hin|(Hprot&c&Hc&Hnew&Hout)]; [by eapply Hret| |].
  - left. exists (next_member (members s) now e). rewrite Hmem. split_and!.
    + by apply list_elem_of_fmap_2.
    + done.
    + unfold next_member. rewrite Hfm. simpl. unfold is_zero. by replace (selectedAt m =? 0) with false by lia.
  - right. split.
    + unfold protected_by_residence in Hprot. rewrite Hfm in Hprot. simpl in Hprot. unfold is_zero in Hprot.
      replace (selectedAt m =? 0) with false in Hprot by lia. simpl in Hprot. bool_to_prop. lia.
    + assert (ref c ∉ mconnection <$> members s) as Hnm.
      { intros (m'&Hm'&Hin)%list_elem_of_fmap. apply Hnew, list_elem_of_fmap_2. by eapply Hret; [|apply Hsub|]. }
      pose proof (Hsub c Hc) as HcR. apply (R_elem _ _ _ _ _ _ _ _ _ _ Hrun) in HcR as [Hcev Hcr].
      destruct (evaluated_elem _ _ _ _ _ _ _ _ _ _ Hrun c Hcev) as (_&_&Hcx).
      assert (xconnection (explanation c) = ref c) as Hcc by (by rewrite Hcx, evaluate_connection).
      exists (explanation c), (next_member (members s) now c). rewrite Hex, Hmem, Hcc. apply outbids_spec in Hout as [? ?].
      split_and!; [by apply list_elem_of_fmap_2|done|by apply list_elem_of_fmap_2|done| |done|done|done].
      unfold next_member, findMember. destruct (List.find _ _) as [m'|] eqn:Ef; [|done].
      apply find_some in Ef as [Hin Heq%ConnectionRef_Equal_eq]. destruct Hnm. rewrite <-Heq. apply list_elem_of_fmap_2. by apply list_elem_of_In.
Qed.

(** The decision does not depend on the order of the candidates. *)
Theorem select_order_independent sc ctx p c1 c2 previous now : c1 ≡ₚ c2 →
  Select sc ctx p c1 previous now = Select sc ctx p c2 previous now.
Proof.
  intros Hp. unfold Select.
  destruct (guard_err _ UnsafeInput); [|done]. simpl. destruct (guard_err _ InvalidPolicy); [|done]. simpl.
  destruct (guard_err _ OlderThanState); [|done]. simpl.
  destruct (decide (NoDup (candidate_identity <$> c1))) as [Hnd|Hd].
  - assert (go_sort candidate_cmp c1 = go_sort candidate_cmp c2) as ->; [|done].
    apply go_sort_perm_eq; [apply _| |done]. intros x y Hx Hy E. apply (cmp_exact Identity_Compare) in E.
    by apply (NoDup_fmap_eq candidate_identity c1).
  - assert (∀ c, c1 ≡ₚ c → adjacent_duplicates (go_sort candidate_cmp c) = true) as Hall.
    { intros c Hc. destruct (adjacent_duplicates _) eqn:E; [done|]. destruct Hd.
      apply adjacent_duplicates_spec in E; [|apply go_sort_sorted, _]. by rewrite go_sort_perm, <-Hc in E. }
    by rewrite !Hall.
Qed.

(** ** The state invariant *)

(** A reference made or restored by the program: a proper ID and a revision
    of 32 bytes. *)
Definition ref_ok (r : ConnectionRef) : Prop :=
  cid r ≠ "" ∧ cid r ≠ "<invalid-endpoint-id>" ∧ ∃ b, crev r = Some b ∧ String.length b = 32%nat.
Definition state_ok (s : State) : Prop :=
  state_valid s = true ∧ Forall (λ m, ref_ok (mconnection m)) (members s) ∧ Forall (λ d, ref_ok (dconnection d)) (cooldowns s).

Lemma refKey_inj r r' : ref_ok r → ref_ok r' → refKey r = refKey r' → r = r'.
Proof.
  destruct r as [c rv], r' as [c' rv']. unfold ref_ok, refKey, ref_String. simpl.
  intros (?&_&b&->&Hb) (?&_&b'&->&Hb'). rewrite !bool_decide_false by done. simpl. intros E.
  assert (String.length (c +:+ b) = String.length (c' +:+ b')) as El by (by rewrite E). rewrite !slen_app in El.
  apply sapp_inj_len in E as [-> ->]; [done|lia].
Qed.

Definition cooldowns_ok (l : list Cooldown) : Prop :=
  NoDup (dconnection <$> l) ∧ Forall (λ d, ref_ok (dconnection d) ∧ until d ≠ 0) l.

Lemma upsertCooldown_ok l x : cooldowns_ok l → ref_ok (dconnection x) → until x ≠ 0 → cooldowns_ok (upsertCooldown l x).
Proof.
  intros [Hnd Hf] Hx Hu. unfold upsertCooldown.
  destruct (list_find _ l) as [[i y]|] eqn:E.
  - apply list_find_Some in E as (Hi&Hy&_). apply ConnectionRef_Equal_eq in Hy. split.
    + rewrite list_fmap_insert, <-Hy. by rewrite list_insert_id; [|rewrite list_lookup_fmap, Hi].
    + by apply Forall_insert.
  - apply list_find_None in E. split.
    + rewrite fmap_app. apply NoDup_app. split_and!; [done| |apply NoDup_singleton].
      intros r (y&->&Hy)%list_elem_of_fmap Hin%list_elem_of_singleton. rewrite Forall_forall in E.
      apply (E y Hy). rewrite Hin. apply ConnectionRef_Equal_refl. destruct Hx as (_&_&b&->&_). done.
    + apply Forall_app. split; [done|by constructor].
Qed.

Lemma retain_cooldowns p R reasons now prev sel em cds : 0 < now + cooldown p →
  Forall (λ m, ref_ok (mconnection m)) prev → cooldowns_ok cds →
  cooldowns_ok (foldl (retain_step p R reasons now) (sel, em, cds) prev).2.
Proof.
  intros Hnow Hp. revert sel em cds. induction Hp as [|m prev Hm _ IH]; intros sel em cds Hc; [done|].
  simpl. destruct (findRanked R (mconnection m)); [by apply IH|]. apply IH.
  destruct (_ || _); [|done]. apply upsertCooldown_ok; simpl; auto. lia.
Qed.

Lemma cooldowns_ok_valid l : cooldowns_ok l →
  forallb (λ d, negb (is_zero (until d)) && bool_decide (crev (dconnection d) ≠ None)) l = true ∧
  no_duplicate [] (refKey ∘ dconnection <$> l) = true ∧ Forall (λ d, ref_ok (dconnection d)) l.
Proof.
  intros [Hnd Hf]. split_and!.
  - apply forallb_forall. intros x Hx%list_elem_of_In. rewrite Forall_forall in Hf.
    destruct (Hf x Hx) as [(_&_&b&->&_) Hu]. unfold is_zero. rewrite bool_decide_true by done.
    by replace (until x =? 0) with false by lia.
  - apply no_duplicate_intro; [|by intros ? _ ?%not_elem_of_nil]. rewrite list_fmap_compose.
    apply NoDup_fmap_2_strong; [|done]. intros r r' (x&->&Hx)%list_elem_of_fmap (y&->&Hy)%list_elem_of_fmap.
    rewrite Forall_forall in Hf. apply refKey_inj; by apply Hf.
  - eapply Forall_impl; [done|]. by intros ? [? _].
Qed.

Lemma state_ok_cooldowns s : state_ok s → cooldowns_ok (cooldowns s).
Proof.
  intros (Hv&_&Hc). unfold state_valid in Hv. bool_to_prop. split.
  - match goal with Hn : no_duplicate [] (_ <$> cooldowns s) = true |- _ => apply no_duplicate_spec in Hn as [Hn _] end.
    apply (NoDup_fmap_inv refKey). by rewrite <-list_fmap_compose.
  - rewrite Forall_forall in *. intros x Hx. split; [auto|].
    match goal with Hf : forallb _ (cooldowns s) = true |- _ => rewrite forallb_forall in Hf; specialize (Hf x) end.
    rewrite <-list_elem_of_In in *. match goal with Hf : _ ∈ _ → _ |- _ => specialize (Hf Hx) end.
    unfold is_zero in *. bool_to_prop. done.
Qed.

Lemma identity_ref_ok c r : Configuration.Configuration.wf c → NewConnectionRef (identity c) = Some r → ref_ok r.
Proof.
  intros Hc [Hi _]%NewConnectionRef_Some. unfold identity in Hi. destruct (Identity_of_wf c Hc) as (l&q&_&_&E).
  rewrite E in Hi. simpl in Hi. injection Hi as Hid Hrev. unfold ref_ok. rewrite <-Hid, <-Hrev.
  assert (∀ v, v = "ef1_" ∨ v = "ef2_" ∨ v = "ef3_" → ∀ t, v +:+ t ≠ "" ∧ v +:+ t ≠ "<invalid-endpoint-id>") as Hv.
  { intros v [->|[->| ->]] t; split; discriminate. }
  destruct (Hv (version c)) with (t := to_lower (base32_encode (sha256 l))) as [H1 H2].
  { unfold version. destruct (version3 c); [auto|]. destruct (_ || _); auto. }
  split_and!; [done|done|]. eexists. split; [done|]. apply sha256_length.
Qed.

Lemma members_valid (l : list Member) : NoDup (mconnection <$> l) →
  Forall (λ m, ref_ok (mconnection m) ∧ selectedAt m ≠ 0) l →
  forallb (λ m, negb (is_zero (selectedAt m)) && negb (bool_decide (ref_String (mconnection m) = "<invalid-endpoint-id>")) &&
                bool_decide (crev (mconnection m) ≠ None)) l = true ∧
  no_duplicate [] (refKey ∘ mconnection <$> l) = true ∧ Forall (λ m, ref_ok (mconnection m)) l.
Proof.
  intros Hnd Hf. rewrite Forall_forall in Hf. split_and!.
  - apply forallb_forall. intros m Hm%list_elem_of_In. destruct (Hf m Hm) as [(Hc&Hi&b&Hb&_) Ht].
    unfold ref_String, is_zero. rewrite Hb, (bool_decide_false (cid (mconnection m) = "")) by done.
    rewrite (bool_decide_false (cid _ = _)), bool_decide_true by done. by replace (selectedAt m =? 0) with false by lia.
  - apply no_duplicate_intro; [|by intros ? _ ?%not_elem_of_nil]. rewrite list_fmap_compose.
    apply NoDup_fmap_2_strong; [|done]. intros r r' (x&->&Hx)%list_elem_of_fmap (y&->&Hy)%list_elem_of_fmap.
    apply refKey_inj; by apply Hf.
  - apply Forall_forall. intros m Hm. by apply Hf.
Qed.

Lemma select_state_ok sc ctx p candidates previous now d :
  Forall (λ c, wf_record (crecord c)) candidates → context_valid ctx = true →
  fingerprint_zero (policyFingerprint p) = false → 0 < now → (∀ s, previous = Some s → state_ok s) →
  Select sc ctx p candidates previous now = Ok d → state_ok (next d).
Proof.
  intros Hc Hctx Hfp Hnow Hok (ev&R&sel&Hrun)%Select_run.
  assert (NoDup (mconnection <$> prev_members sc ctx p previous)) as Hnd
    by (apply prev_members_distinct; intros s Hs; by apply Hok).
  destruct (sel_good _ _ _ _ _ _ _ _ _ _ Hrun Hnd) as (Hd&Hl&Hsub&_).
  destruct (run_decision _ _ _ _ _ _ _ _ _ _ Hrun) as (_&_&Hmem&_).
  destruct (run_next _ _ _ _ _ _ _ _ _ _ Hrun) as (Hs1&Hs2&Hs3&Hs4&reasons&kept&Hkept&Hcd&_).
  destruct (run_inputs _ _ _ _ _ _ _ _ _ _ Hrun) as [Hsc _].
  assert (0 ≤ cooldown p) as Hcool.
  { pose proof (run_policy _ _ _ _ _ _ _ _ _ _ Hrun) as Hp. unfold policy_valid in Hp. bool_to_prop. lia. }
  assert (cooldowns_ok (cooldowns (next d))) as Hcok.
  { assert (cooldowns_ok kept) as Hk.
    { assert (cooldowns_ok (prev_cooldowns sc ctx p previous)) as [Hn Hf].
      { unfold prev_cooldowns. destruct (usable _ _ _ _); [|split; constructor].
        destruct previous as [s|]; [by apply state_ok_cooldowns, Hok|split; constructor]. }
      split; [eapply sublist_NoDup; [exact Hn|by apply fmap_sublist]|].
      rewrite Forall_forall in *. intros x Hx. apply Hf. by eapply sublist_subseteq. }
    rewrite Hcd. destruct (_ && _); [|done]. apply retain_cooldowns; [lia| |done].
    unfold prev_members. destruct (usable _ _ _ _); [|constructor].
    destruct previous as [s|]; [by apply Hok|constructor]. }
  assert (NoDup (mconnection <$> members (next d)) ∧ Forall (λ m, ref_ok (mconnection m) ∧ selectedAt m ≠ 0) (members (next d)))
    as [Hm1 Hm2].
  { rewrite Hmem. split.
    - unfold distinct in Hd. by rewrite <-list_fmap_compose.
    - apply Forall_forall. intros m (e&->&He)%list_elem_of_fmap. split.
      + apply Hsub, (R_elem _ _ _ _ _ _ _ _ _ _ Hrun) in He as [He _].
        destruct (evaluated_elem _ _ _ _ _ _ _ _ _ _ Hrun e He) as (Hin&Hnr&_).
        rewrite Forall_forall in Hc. eapply identity_ref_ok; [apply (Hc _ Hin)|exact Hnr].
      + unfold next_member, is_zero. simpl. destruct (_ =? 0) eqn:E; bool_to_prop; lia. }
  destruct (members_valid _ Hm1 Hm2) as (M1&M2&M3). destruct (cooldowns_ok_valid _ Hcok) as (C1&C2&C3).
  split_and!; [|done|done]. unfold state_valid. rewrite Hs1, Hs2, Hs3, Hs4, Hsc, Hctx, Hfp, M1, M2, C1, C2.
  unfold is_zero. by replace (now =? 0) with false by lia.
Qed.

(** C7: The state [Select] returns satisfies [State.Validate] whenever the previous one did: distinct members with
    selection times, distinct cooldowns, the given scope, context and policy fingerprint.  So the state invariant
    holds along every chain of evaluations. *)
Theorem select_preserves_state sc ctx p candidates previous now d :
  Forall (λ c, wf_record (crecord c)) candidates → context_valid ctx = true →
  fingerprint_zero (policyFingerprint p) = false → 0 < now → (∀ s, previous = Some s → state_ok s) →
  Select sc ctx p candidates previous now = Ok d → state_ok (next d).
Proof. apply select_state_ok. Qed.

(** For every successful mean duration a summary can hold and every positive confidence up to one million, the
    int64 arithmetic of [riskCost] does not overflow and returns the duration divided by the confidence, rounded up. *)
Theorem riskCost_exact duration confidence : 0 < duration ≤ 2 * minute → 0 < confidence ≤ 1000000 →
  riskCost duration confidence = (duration * 1000000 + confidence - 1) / confidence ∧
  in_int64 (riskCost duration confidence) ∧ duration ≤ riskCost duration confidence.
Proof.
  unfold riskCost, minute, second. intros Hd Hc.
  replace (duration <=? 0) with false by lia. replace (confidence <=? 0) with false by lia. simpl.
  assert (∀ z, 0 ≤ z ≤ 200000000000000000 → wrap64 z = z) as Hw.
  { intros z Hz. apply wrap64_id. unfold in_int64, int64_min, int64_max. lia. }
  rewrite (Hw (duration * 1000000)), (Hw (_ + confidence)), (Hw (_ - 1)) by lia.
  rewrite Z.quot_div_nonneg by lia.
  split; [done|]. assert (duration ≤ (duration * 1000000 + confidence - 1) / confidence) as Hle.
  { apply Z.div_le_lower_bound; [lia|]. nia. }
  split; [|done]. unfold in_int64, int64_min, int64_max. split; [lia|].
  transitivity (duration * 1000000 + confidence - 1); [|lia]. apply Z.div_le_upper_bound; [lia|]. nia.
Qed.
End facts.

(** ** Concrete decisions *)

Module SelectionSample.
#[local] Existing Instance toy_digest.
Definition ctx : Context :=
  {| ctarget := {| tid := "t"; trev := Some "tr" |}; cvantage := "v"; ckind := KindHTTPGet; cprofile := Mihomo11931 |}.
Definition policy : Policy := DefaultPolicy StrategyAdaptive.
Definition t0 : Z := unix_epoch + 1700000000 * second.
Definition rec (uuid : string) : Record_ := InventorySample.rec uuid "a" ["x"].
Definition cref (uuid : string) : ConnectionRef :=
  {| cid := id (record_identity (rec uuid)); crev := revision (record_identity (rec uuid)) |}.
Definition summary (uuid : string) (n ok mean : Z) : Summary :=
  {| skey := {| connection := cref uuid; target := ctarget ctx; vantage := "v"; kind := KindHTTPGet; kprofile := Mihomo11931 |};
     samples := n; successes := ok; latest := None; latestSuccess := None; meanSuccessDuration := mean;
     consecutiveSuccesses := ok; consecutiveFailures := 0; fresh := true |}.
Definition cand (uuid : string) (mean : Z) : SCandidate :=
  {| crecord := rec uuid; evidence := Some (summary uuid 4 4 mean) |}.
Definition candidates : list SCandidate := [cand Sample.uuid1 (80 * millisecond); cand Sample.uuid2 (20 * millisecond)].
Definition member : Member := {| mconnection := cref Sample.uuid1; selectedAt := t0 |}.
Definition state : State :=
  {| scope := "pool"; scontext := ctx; fingerprint := policyFingerprint policy; evaluatedAt := t0;
     members := [member]; cooldowns := [] |}.
Lemma candidates_wf : Forall (λ c, wf_record (crecord c)) candidates.
Proof.
  unfold candidates. rewrite !Forall_cons. split_and!; [..|done];
    (apply InventorySample.rec_wf; [auto|apply InventorySample.prov_wf; set_solver]).
Qed.
Lemma state_is_ok : state_ok state.
Proof.
  assert (ref_ok (cref Sample.uuid1)) as Hr.
  { eapply identity_ref_ok; [apply Configuration.Configuration.made_wf, Sample.vless_made; by left|].
    vm_compute. reflexivity. }
  split_and!; [vm_compute; reflexivity|by constructor|constructor].
Qed.
Definition later : Z := residence policy + minute.
Definition next_refs (d : result select_error Decision) : list ConnectionRef :=
  match d with Ok d => mconnection <$> members (next d) | Err _ => [] end.
Definition is_eligible (r : ConnectionRef) (d : result select_error Decision) : bool :=
  match d with
  | Ok d => existsb (λ x, bool_decide (xconnection x = r) && bool_decide (reason x = ReasonEligible)) (explanations d)
  | Err _ => false
  end.
Lemma eligible_elem r d : is_eligible r (Ok d) = true → ∃ x, x ∈ explanations d ∧ xconnection x = r ∧ reason x = ReasonEligible.
Proof.
  simpl. intros (x&Hx&Hb)%existsb_exists. bool_to_prop. exists x. split; [by apply list_elem_of_In|done].
Qed.
End SelectionSample.

Lemma select_sound_witness : ∃ d,
  @Select toy_digest "pool" SelectionSample.ctx SelectionSample.policy SelectionSample.candidates None SelectionSample.t0 = Ok d ∧
  NoDup (@record_identity toy_digest <$> selected d) ∧ degraded d = (eligible d <? 1).
Proof.
  destruct (@Select toy_digest "pool" SelectionSample.ctx SelectionSample.policy SelectionSample.candidates None SelectionSample.t0)
    as [d|e] eqn:E; [|vm_compute in E; discriminate E].
  exists d. split; [reflexivity|].
  destruct (@select_sound toy_digest "pool" SelectionSample.ctx SelectionSample.policy SelectionSample.candidates None
    SelectionSample.t0 d) as (_&Hnd&_&Hd); [intros s Hs; discriminate Hs|exact E|]. split; [exact Hnd|exact Hd].
Defined.

(** Inside its residence the slower member stays; after it, the faster
    candidate takes its place. *)
Lemma select_keeps_incumbents_witness :
  (∃ d m', @Select toy_digest "pool" SelectionSample.ctx SelectionSample.policy SelectionSample.candidates (Some SelectionSample.state)
     (SelectionSample.t0 + minute) = Ok d ∧ m' ∈ members (next d) ∧ mconnection m' = SelectionSample.cref Sample.uuid1) ∧
  (∃ d y, @Select toy_digest "pool" SelectionSample.ctx SelectionSample.policy SelectionSample.candidates (Some SelectionSample.state)
     (SelectionSample.t0 + SelectionSample.later) = Ok d ∧ xconnection y ∈ mconnection <$> members (next d) ∧
     xconnection y ∉ mconnection <$> members SelectionSample.state ∧ mconnection <$> members (next d) = [SelectionSample.cref Sample.uuid2]).
Proof.
  split.
  - destruct (@Select toy_digest "pool" SelectionSample.ctx SelectionSample.policy SelectionSample.candidates (Some SelectionSample.state)
      (SelectionSample.t0 + minute)) as [d|e] eqn:E; [|vm_compute in E; discriminate E].
    assert (SelectionSample.is_eligible (SelectionSample.cref Sample.uuid1) (Ok d) = true) as Hel
      by (rewrite <-E; vm_compute; reflexivity).
    destruct (SelectionSample.eligible_elem _ _ Hel) as (x&Hx&Hxc&Hxr). exists d.
    destruct (@select_keeps_incumbents toy_digest "pool" SelectionSample.ctx SelectionSample.policy SelectionSample.candidates
      SelectionSample.state (SelectionSample.t0 + minute) d SelectionSample.member x) as [(m'&Hm'&Hc&_)|[Hr _]];
      [apply SelectionSample.state_is_ok|exact E|reflexivity|vm_compute; reflexivity|vm_compute; discriminate|by left|exact Hx|exact Hxc|exact Hxr| |].
    + exists m'. split_and!; [reflexivity|exact Hm'|exact Hc].
    + exfalso. vm_compute in Hr. by apply Hr.
  - destruct (@Select toy_digest "pool" SelectionSample.ctx SelectionSample.policy SelectionSample.candidates (Some SelectionSample.state)
      (SelectionSample.t0 + SelectionSample.later)) as [d|e] eqn:E; [|vm_compute in E; discriminate E].
    assert (SelectionSample.is_eligible (SelectionSample.cref Sample.uuid1) (Ok d) = true) as Hel
      by (rewrite <-E; vm_compute; reflexivity).
    assert (SelectionSample.next_refs (Ok d) = [SelectionSample.cref Sample.uuid2]) as Hnext by (rewrite <-E; vm_compute; reflexivity).
    destruct (SelectionSample.eligible_elem _ _ Hel) as (x&Hx&Hxc&Hxr). exists d. simpl in Hnext.
    destruct (@select_keeps_incumbents toy_digest "pool" SelectionSample.ctx SelectionSample.policy SelectionSample.candidates
      SelectionSample.state (SelectionSample.t0 + SelectionSample.later) d SelectionSample.member x) as [(m'&Hm'&Hc&_)|(_&y&m'&_&_&Hm'&Hc&_&Hn&_)];
      [apply SelectionSample.state_is_ok|exact E|reflexivity|vm_compute; reflexivity|vm_compute; discriminate|by left|exact Hx|exact Hxc|exact Hxr| |].
    + exfalso. assert (mconnection m' ∈ mconnection <$> members (next d)) as Hin by (by apply list_elem_of_fmap_2).
      rewrite Hnext in Hin. apply list_elem_of_singleton in Hin. rewrite Hc in Hin. vm_compute in Hin. discriminate Hin.
    + exists y. split_and!; [reflexivity|rewrite <-Hc; by apply list_elem_of_fmap_2|exact Hn|exact Hnext].
Defined.

Lemma select_order_independent_witness :
  @Select toy_digest "pool" SelectionSample.ctx SelectionSample.policy SelectionSample.candidates None SelectionSample.t0 =
  @Select toy_digest "pool" SelectionSample.ctx SelectionSample.policy (reverse SelectionSample.candidates) None SelectionSample.t0.
Proof. apply (@select_order_independent toy_digest). symmetry. apply reverse_Permutation. Defined.

Lemma select_preserves_state_witness : ∃ d,
  @Select toy_digest "pool" SelectionSample.ctx SelectionSample.policy SelectionSample.candidates (Some SelectionSample.state)
    (SelectionSample.t0 + minute) = Ok d ∧ state_ok (next d).
Proof.
  destruct (@Select toy_digest "pool" SelectionSample.ctx SelectionSample.policy SelectionSample.candidates (Some SelectionSample.state)
    (SelectionSample.t0 + minute)) as [d|e] eqn:E; [|vm_compute in E; discriminate E].
  exists d. split; [reflexivity|].
  apply (@select_preserves_state toy_digest "pool" SelectionSample.ctx SelectionSample.policy SelectionSample.candidates
    (Some SelectionSample.state) (SelectionSample.t0 + minute) d).
  - exact SelectionSample.candidates_wf.
  - reflexivity.
  - vm_compute. reflexivity.
  - vm_compute. reflexivity.
  - intros s [= <-]. exact SelectionSample.state_is_ok.
  - exact E.
Defined.

Lemma riskCost_exact_witness : riskCost (80 * millisecond) 438494 = 182442634%Z.
Proof. destruct (riskCost_exact (80 * millisecond) 438494) as [-> _]; [vm_compute; by split|lia|]. vm_compute. reflexivity. Defined.
