(* ===== verification/Replay.v ===== *)
(** * Selection replay (internal/selection/replay.go)

    [Compare] replays one sequence of evidence frames through [Select] once
    per strategy, each with a chain of states of its own, and counts what the
    decisions did. *)
From S2P Require Import Prelude Order Bytes Encoding Identity Provenance Inventory Artifact Observation Selection SelectionFacts.
Open Scope Z_scope.

Record Frame := { At : Z; frame_candidates : list SCandidate }.
Record Scenario := { sn_scope : string; sn_context : Context; sn_policy : Policy; Frames : list Frame }.
Record Report := {
  rep_strategy : Strategy; Evaluations : Z; Changes : Z; EmergencyChanges : Z; NoEligible : Z; rep_degraded : Z; MeanSelectedLatency : Z }.
Inductive compare_error := EmptyComparison | ReplayFailed (e : select_error).

Definition with_strategy (s : Strategy) (p : Policy) : Policy :=
  {| strategy := s; topN := topN p; evidenceWindow := evidenceWindow p; freshness := freshness p; minSamples := minSamples p;
     minSuccessPermille := minSuccessPermille p; failureStreak := failureStreak p; recoverySuccesses := recoverySuccesses p;
     residence := residence p; cooldown := cooldown p; requiredImprovementPermille := requiredImprovementPermille p |}.

Section replay.
Context `{Digest}.

Definition connectionRef (r : Record_) : ConnectionRef := default {| cid := ""; crev := None |} (NewConnectionRef (record_identity r)).
(** The latency of a selected record: that of its first eligible
    explanation. *)
Definition selected_latency (d : Decision) (r : Record_) : option Z :=
  xmean <$> List.find (λ x, ConnectionRef_Equal (xconnection x) (connectionRef r) && bool_decide (reason x = ReasonEligible)) (explanations d).
(** The counters of the loop: the report so far, the latencies' total and
    number, and the state. *)
Record tally := { t_report : Report; latencyTotal : Z; latencySamples : Z; t_state : option State }.
Definition is_emergency (t : Transition) : bool := match t with TransitionEmergency => true | _ => false end.
Definition count (b : bool) : Z := if b then 1 else 0.
Definition count_decision (d : Decision) (t : tally) : tally :=
  let r := t_report t in
  let ls := omap (selected_latency d) (selected d) in
  {| t_report := {| rep_strategy := rep_strategy r; Evaluations := Evaluations r + 1; Changes := Changes r + count (changed d);
                    EmergencyChanges := EmergencyChanges r + count (is_emergency (transition d));
                    NoEligible := NoEligible r + count (bool_decide (selected d = []));
                    rep_degraded := rep_degraded r + count (degraded d); MeanSelectedLatency := MeanSelectedLatency r |};
     latencyTotal := foldl (λ n l, wrap64 (n + l)) (latencyTotal t) ls; latencySamples := latencySamples t + Z.of_nat (length ls);
     t_state := Some (next d) |}.
Fixpoint replay_frames (sn : Scenario) (p : Policy) (fs : list Frame) (t : tally) : result select_error tally :=
  match fs with
  | [] => Ok t
  | f :: fs =>
      match Select (sn_scope sn) (sn_context sn) p (frame_candidates f) (t_state t) (At f) with
      | Err e => Err e
      | Ok d => replay_frames sn p fs (count_decision d t)
      end
  end.
Definition empty_report (s : Strategy) : Report :=
  {| rep_strategy := s; Evaluations := 0; Changes := 0; EmergencyChanges := 0; NoEligible := 0; rep_degraded := 0; MeanSelectedLatency := 0 |}.
Definition empty_tally (s : Strategy) : tally := {| t_report := empty_report s; latencyTotal := 0; latencySamples := 0; t_state := None |}.
Definition with_latency (t : tally) : Report :=
  let r := t_report t in
  {| rep_strategy := rep_strategy r; Evaluations := Evaluations r; Changes := Changes r; EmergencyChanges := EmergencyChanges r;
     NoEligible := NoEligible r; rep_degraded := rep_degraded r;
     MeanSelectedLatency := if 0 <? latencySamples t then Z.quot (latencyTotal t) (latencySamples t) else MeanSelectedLatency r |}.
Definition replay (sn : Scenario) (s : Strategy) : result select_error Report :=
  match replay_frames sn (with_strategy s (sn_policy sn)) (Frames sn) (empty_tally s) with Ok t => Ok (with_latency t) | Err e => Err e end.
Fixpoint replay_all (sn : Scenario) (ss : list Strategy) : result select_error (list Report) :=
  match ss with
  | [] => Ok []
  | s :: ss =>
      match replay sn s with
      | Err e => Err e
      | Ok r => match replay_all sn ss with Ok rs => Ok (r :: rs) | Err e => Err e end
      end
  end.
Definition Compare (sn : Scenario) (ss : list Strategy) : result compare_error (list Report) :=
  if bool_decide (ss = []) || bool_decide (Frames sn = []) then Err EmptyComparison
  else match replay_all sn ss with Ok rs => Ok rs | Err e => Err (ReplayFailed e) end.

(** ** The decisions of a replay *)

(** The chain of decisions of one strategy over the frames. *)
Inductive decisions (sn : Scenario) (p : Policy) : option State → list Frame → list Decision → Prop :=
| no_frame st : decisions sn p st [] []
| next_frame st f fs d ds : Select (sn_scope sn) (sn_context sn) p (frame_candidates f) st (At f) = Ok d →
    decisions sn p (Some (next d)) fs ds → decisions sn p st (f :: fs) (d :: ds).
Definition total (f : Decision → Z) (ds : list Decision) : Z := foldr (λ d n, f d + n) 0 ds.

Lemma replay_frames_Ok sn p fs t t' : replay_frames sn p fs t = Ok t' → ∃ ds, decisions sn p (t_state t) fs ds ∧ t' = foldl (λ t d, count_decision d t) t ds.
Proof.
  revert t. induction fs as [|f fs IH]; intros t; cbn [replay_frames]; [intros [= <-]; exists []; split; [constructor|done]|].
  destruct (Select _ _ _ _ _ _) as [d|] eqn:E; [|done]. intros (ds&Hds&->)%IH. exists (d :: ds). split; [|done]. by econstructor.
Qed.
Lemma counted ds t : let r := t_report (foldl (λ t d, count_decision d t) t ds) in
  rep_strategy r = rep_strategy (t_report t) ∧ Evaluations r = Evaluations (t_report t) + Z.of_nat (length ds) ∧
  Changes r = Changes (t_report t) + total (λ d, count (changed d)) ds ∧
  EmergencyChanges r = EmergencyChanges (t_report t) + total (λ d, count (is_emergency (transition d))) ds ∧
  NoEligible r = NoEligible (t_report t) + total (λ d, count (bool_decide (selected d = []))) ds ∧
  rep_degraded r = rep_degraded (t_report t) + total (λ d, count (degraded d)) ds.
Proof.
  revert t. induction ds as [|d ds IH]; intros t; cbn [foldl total foldr length]; [split_and!; lia || done|].
  destruct (IH (count_decision d t)) as (->&->&->&->&->&->). unfold total. cbn. split_and!; [done|lia..].
Qed.
Lemma decisions_length sn p st fs ds : decisions sn p st fs ds → length ds = length fs.
Proof. induction 1; cbn; congruence. Qed.

(** Every selected record has a latency. *)
Lemma new_ref_Equal i r : NewConnectionRef i = Some r → ConnectionRef_Equal r r = true.
Proof.
  unfold NewConnectionRef. destruct (revision i) as [v|] eqn:Ev; [|done]. destruct (_ || _); [done|]. intros [= <-]. by apply ConnectionRef_Equal_refl.
Qed.
Lemma selected_measured sc ctx p cs prev now d r : (∀ x, prev = Some x → state_valid x = true) → Select sc ctx p cs prev now = Ok d →
  r ∈ selected d → ∃ x, x ∈ explanations d ∧ reason x = ReasonEligible ∧ ConnectionRef_Equal (xconnection x) (connectionRef r) = true ∧ selected_latency d r = Some (xmean x).
Proof.
  intros Hv (ev&R&sel&Hrun)%Select_run Hr. destruct (run_decision _ _ _ _ _ _ _ _ _ _ Hrun) as (Hs&He&_).
  destruct (sel_good _ _ _ _ _ _ _ _ _ _ Hrun (prev_members_distinct sc ctx p prev Hv)) as (_&_&Hsub&_).
  rewrite Hs in Hr. apply list_elem_of_fmap in Hr as (e&->&Hsel). apply Hsub, (R_elem _ _ _ _ _ _ _ _ _ _ Hrun) in Hsel as [Hev Hre].
  destruct (evaluated_elem _ _ _ _ _ _ _ _ _ _ Hrun e Hev) as (_&Href&Ee).
  unfold selected_latency. set (f := λ x, _ && _). assert (f (explanation e) = true) as Hf.
  { unfold f. rewrite Hre, Ee, evaluate_connection. unfold connectionRef, candidate_identity in *. rewrite Href. cbn.
    by rewrite (new_ref_Equal _ _ Href). }
  destruct (List.find f (explanations d)) as [x|] eqn:Ef.
  - apply List.find_some in Ef as [Hx Hfx]. unfold f in Hfx. apply andb_prop in Hfx as [H1 H2]. apply bool_decide_eq_true in H2.
    exists x. split_and!; [by apply list_elem_of_In|done|done|done].
  - exfalso. assert (explanation e ∈ explanations d) as Hx by (rewrite He; by apply list_elem_of_fmap_2).
    apply list_elem_of_In in Hx. pose proof (List.find_none _ _ Ef _ Hx). congruence.
Qed.

(** The latencies a decision contributes. *)
Definition latencies (d : Decision) : list Z := omap (selected_latency d) (selected d).
Lemma wrap64_sum ls n : foldl (λ n l, wrap64 (n + l)) (wrap64 n) ls = wrap64 (n + foldr Z.add 0 ls).
Proof.
  revert n. induction ls as [|l ls IH]; intros n; cbn [foldl foldr]; [by rewrite Z.add_0_r|].
  rewrite Z.add_assoc, <-IH. f_equal. unfold wrap64. f_equal.
  replace ((n + 2 ^ 63) `mod` 2 ^ 64 - 2 ^ 63 + l + 2 ^ 63) with ((n + 2 ^ 63) `mod` 2 ^ 64 + l) by lia.
  rewrite Zplus_mod_idemp_l. f_equal. lia.
Qed.
Lemma measured ds t n : latencyTotal t = wrap64 n →
  let t' := foldl (λ t d, count_decision d t) t ds in
  latencyTotal t' = wrap64 (n + total (λ d, foldr Z.add 0 (latencies d)) ds) ∧
  latencySamples t' = latencySamples t + total (λ d, Z.of_nat (length (latencies d))) ds.
Proof.
  revert t n. induction ds as [|d ds IH]; intros t n Ht; cbn [foldl]; [cbn; split; [by rewrite Z.add_0_r|lia]|].
  destruct (IH (count_decision d t) (n + foldr Z.add 0 (latencies d))) as [-> ->].
  { cbn. by rewrite Ht, wrap64_sum. }
  unfold total. cbn [foldr]. split; [f_equal; lia|]. cbn. unfold latencies. lia.
Qed.

(** What a scenario must provide. *)
Record scenario_ok (sn : Scenario) (s : Strategy) : Prop := {
  sn_records : Forall (λ f, 0 < At f ∧ Forall (λ c, wf_record (crecord c)) (frame_candidates f)) (Frames sn);
  sn_valid : context_valid (sn_context sn) = true;
  sn_fingerprint : fingerprint_zero (policyFingerprint (with_strategy s (sn_policy sn))) = false;
}.
Lemma latencies_all sn p st fs ds : context_valid (sn_context sn) = true → fingerprint_zero (policyFingerprint p) = false →
  Forall (λ f, 0 < At f ∧ Forall (λ c, wf_record (crecord c)) (frame_candidates f)) fs → (∀ x, st = Some x → state_ok x) →
  decisions sn p st fs ds → Forall (λ d, length (latencies d) = length (selected d)) ds.
Proof.
  intros Hc Hf. intros Hfs Hst Hds. induction Hds as [|st f fs d ds Hsel _ IH]; [constructor|].
  apply Forall_cons in Hfs as [[Hat Hw] Hfs]. constructor.
  - unfold latencies. assert (∀ r, r ∈ selected d → is_Some (selected_latency d r)) as Hall.
    { intros r Hr. destruct (selected_measured _ _ _ _ _ _ _ r (λ x Hx, proj1 (Hst x Hx)) Hsel Hr) as (x&_&_&_&->). by eexists. }
    clear -Hall. induction (selected d) as [|r rs IH]; [done|]. cbn. destruct (Hall r) as [z Hz]; [set_solver|]. rewrite Hz. cbn. f_equal. apply IH. set_solver.
  - apply IH; [done|]. intros x [= <-]. by eapply select_state_ok.
Qed.

(** The report of one strategy, from its decisions. *)
Definition report_of (s : Strategy) (ds : list Decision) : Report :=
  let n := total (λ d, Z.of_nat (length (selected d))) ds in
  {| rep_strategy := s; Evaluations := Z.of_nat (length ds); Changes := total (λ d, count (changed d)) ds;
     EmergencyChanges := total (λ d, count (is_emergency (transition d))) ds;
     NoEligible := total (λ d, count (bool_decide (selected d = []))) ds; rep_degraded := total (λ d, count (degraded d)) ds;
     MeanSelectedLatency := if 0 <? n then Z.quot (wrap64 (total (λ d, foldr Z.add 0 (latencies d)) ds)) n else 0 |}.
Lemma replay_Ok sn s r : scenario_ok sn s → replay sn s = Ok r →
  ∃ ds, decisions sn (with_strategy s (sn_policy sn)) None (Frames sn) ds ∧ length ds = length (Frames sn) ∧ r = report_of s ds.
Proof.
  intros [Hf Hc Hfp]. unfold replay. destruct (replay_frames _ _ _ _) as [t|] eqn:E; [|done]. intros [= <-].
  apply replay_frames_Ok in E as (ds&Hds&->). exists ds. split; [exact Hds|]. split; [by eapply decisions_length|].
  destruct (counted ds (empty_tally s)) as (H1&H2&H3&H4&H5&H6), (measured ds (empty_tally s) 0 eq_refl) as [H7 H8].
  unfold with_latency, report_of. rewrite H1, H2, H3, H4, H5, H6, H7, H8. cbn [empty_tally t_report empty_report latencySamples].
  apply latencies_all in Hds; [|done..]. assert (total (λ d, Z.of_nat (length (latencies d))) ds = total (λ d, Z.of_nat (length (selected d))) ds) as ->.
  { clear -Hds. induction Hds as [|d ds Hd _ IH]; [done|]. unfold total in *. cbn. by rewrite IH, Hd. }
  assert (MeanSelectedLatency (t_report (foldl (λ t d, count_decision d t) (empty_tally s) ds)) = 0) as ->; [|done].
  generalize (empty_tally s) (eq_refl : MeanSelectedLatency (t_report (empty_tally s)) = 0). clear. induction ds as [|d ds IH]; intros t Ht; [done|]. cbn. by apply IH.
Qed.

(** A replay compares the strategies and nothing else: every strategy sees every frame, in order and with the states
    of its own decisions only, and its report counts exactly those decisions; each selected endpoint contributes the
    mean duration of an eligible explanation of its own connection to the mean latency, none is left out. *)
Theorem compare_exact sn ss rs : (∀ s, s ∈ ss → scenario_ok sn s) → Compare sn ss = Ok rs →
  Forall2 (λ s r, ∃ ds, decisions sn (with_strategy s (sn_policy sn)) None (Frames sn) ds ∧ length ds = length (Frames sn) ∧ r = report_of s ds) ss rs.
Proof.
  intros Hok. unfold Compare. destruct (_ || _); [done|]. destruct (replay_all sn ss) as [l|] eqn:E; [|done]. intros [= <-].
  revert l E. induction ss as [|s ss IH]; intros l; cbn [replay_all]; [intros [= <-]; constructor|].
  destruct (replay sn s) as [r|] eqn:Er; [|done]. destruct (replay_all sn ss) as [l'|]; [|done]. intros [= <-].
  constructor; [eapply replay_Ok; [apply Hok; set_solver|done]|]. apply IH; [|done]. intros x Hx. apply Hok. set_solver.
Qed.
End replay.

(** ** A concrete replay *)

Module ReplaySample.
#[local] Existing Instance toy_digest.
Definition scenario : Scenario :=
  {| sn_scope := "pool"; sn_context := SelectionSample.ctx; sn_policy := SelectionSample.policy;
     Frames := [{| At := SelectionSample.t0; frame_candidates := SelectionSample.candidates |}; {| At := SelectionSample.t0 + minute; frame_candidates := [] |}] |}.
Definition counts (r : Report) : Z * Z * Z * Z := (Evaluations r, Changes r, NoEligible r, MeanSelectedLatency r).
(** The faster endpoint is selected, then nothing is left to select. *)
Example replay_counts : match Compare scenario [StrategyAdaptive] with Ok rs => counts <$> rs | Err _ => [] end = [(2, 2, 1, 20 * millisecond)].
Proof. vm_compute. reflexivity. Qed.
End ReplaySample.
