(* ===== verification/Publish.v ===== *)
(** * The file publisher (internal/publish/file.go)

    The publisher replaces a target file through staged files, a journal and
    a receipt.  The file system keeps the four named files and the staged
    temporaries.  Every file-system call consumes one event of a schedule: it
    succeeds, it fails without an effect, or the process crashes before it;
    an exhausted schedule succeeds forever.  A crash therefore leaves the
    effects of a prefix of the calls, which is also what a power loss leaves
    when the file system orders its directory updates. *)
From S2P Require Import Prelude Order Bytes Encoding Artifact.
From Stdlib Require Import Ascii.
From Stdlib Require String.
Open Scope Z_scope.

Inductive failure_kind := ErrTarget | ErrOwnership | ErrPublication.
Record Failure := failure { fkind : failure_kind; fcode : string }.
Definition targetError : string → Failure := failure ErrTarget.
Definition ownershipError : string → Failure := failure ErrOwnership.
Definition publicationError : string → Failure := failure ErrPublication.

(** ** The file system *)

Inductive file_type := Regular | Directory | Symlink | OtherType.
Record mode := { mtype : file_type; perm : Z }.
#[global] Instance file_type_eq_dec : EqDecision file_type.
Proof. solve_decision. Defined.
Inductive path := Target | ReceiptPath | PreviousPath | JournalPath.
#[global] Instance path_eq_dec : EqDecision path.
Proof. solve_decision. Defined.

(** The four named files with their contents and modes, the directory, and
    the staged temporaries. *)
Record FS := {
  target : option string; receipt : option string; previous : option string; journal : option string;
  modes : path → mode; directory : option mode;
  temps : gmap nat string; fresh : nat;
}.
Definition private_mode : mode := {| mtype := Regular; perm := 384 |}.

Definition read_path (p : path) (fs : FS) : option string :=
  match p with Target => target fs | ReceiptPath => receipt fs | PreviousPath => previous fs | JournalPath => journal fs end.
Definition write_path (p : path) (v : option string) (fs : FS) : FS :=
  {| target := if p is Target then v else target fs;
     receipt := if p is ReceiptPath then v else receipt fs;
     previous := if p is PreviousPath then v else previous fs;
     journal := if p is JournalPath then v else journal fs;
     modes := λ q, if decide (q = p) then private_mode else modes fs q; directory := directory fs;
     temps := temps fs; fresh := fresh fs |}.
Definition with_mode (p : path) (m : mode) (fs : FS) : FS :=
  {| target := target fs; receipt := receipt fs; previous := previous fs; journal := journal fs;
     modes := λ q, if decide (q = p) then m else modes fs q; directory := directory fs; temps := temps fs; fresh := fresh fs |}.
Definition with_temps (t : gmap nat string) (n : nat) (fs : FS) : FS :=
  {| target := target fs; receipt := receipt fs; previous := previous fs; journal := journal fs;
     modes := modes fs; directory := directory fs; temps := t; fresh := n |}.

(** ** Effects *)

Inductive event := EvOk | EvFail | EvCrash.
Record world := { files : FS; schedule : list event }.
Inductive outcome (A : Type) := Done (a : A) (w : world) | Crashed (fs : FS).
Arguments Done {A} _ _. Arguments Crashed {A} _.
Definition M (A : Type) : Type := world → outcome A.
#[global] Instance M_ret : MRet M := λ A a w, Done a w.
#[global] Instance M_bind : MBind M := λ A B k m w,
  match m w with Done a w' => k a w' | Crashed fs => Crashed fs end.

(** One call: [true] with its effect, [false] without. *)
Definition call (f : FS → FS) : M bool := λ w,
  match schedule w with
  | [] => Done true {| files := f (files w); schedule := [] |}
  | EvOk :: s => Done true {| files := f (files w); schedule := s |}
  | EvFail :: s => Done false {| files := files w; schedule := s |}
  | EvCrash :: _ => Crashed (files w)
  end.
Definition get : M FS := λ w, Done (files w) w.

Definition syncDir : M bool := call (λ fs, fs).
Definition remove_path (p : path) : M bool := call (write_path p None).
Definition remove_temp (n : nat) : M bool := call (λ fs, with_temps (delete n (temps fs)) (fresh fs) fs).

(** [stage]: a fresh private file with the content, synced and closed. *)
Definition stage (content : string) : M (option nat) :=
  fs ← get;
  ok ← call (λ fs, with_temps (<[fresh fs := content]> (temps fs)) (S (fresh fs)) fs);
  mret (if (ok : bool) then Some (fresh fs) else None).
(** [os.Rename] of a staged file. *)
Definition rename_temp (n : nat) (p : path) : M bool :=
  fs ← get;
  match temps fs !! n with
  | None => mret false
  | Some content => call (λ fs, write_path p (Some content) (with_temps (delete n (temps fs)) (fresh fs) fs))
  end.
(** [os.Rename] between named files; a missing source is an error. *)
Definition rename_path (from to : path) : M bool :=
  fs ← get;
  match read_path from fs with
  | None => mret false
  | Some content => call (λ fs, write_path from None (with_mode to (modes fs from) (write_path to (Some content) fs)))
  end.

Inductive read_result := ReadOk (content : string) | NotExist | ReadError.
Definition readRegular (p : path) (limit : Z) : M read_result :=
  found ← call (λ fs, fs);
  if negb found then mret ReadError else
  fs ← get;
  match read_path p fs with
  | None => mret NotExist
  | Some content =>
      if negb (bool_decide (mtype (modes fs p) = Regular)) then mret ReadError else
      ok ← call (λ fs, fs);
      mret (if (ok : bool) then if limit <? slen content then ReadError else ReadOk content else ReadError)
  end.

Definition writeAtomic (p : path) (content : string) : M bool :=
  st ← stage content;
  match st with
  | None => mret false
  | Some n =>
      renamed ← rename_temp n p;
      ok ← (if (renamed : bool) then syncDir else mret false);
      _ ← remove_temp n;
      mret ok
  end.

Definition cleanupTemps : M (result Failure unit) :=
  ok ← call (λ fs, fs);
  if (ok : bool) then _ ← call (λ fs, with_temps ∅ (fresh fs) fs); mret (Ok ())
  else mret (Err (publicationError "temp_scan")).

Fixpoint validate_paths (ps : list path) : M (result Failure unit) :=
  match ps with
  | [] => mret (Ok ())
  | p :: ps =>
      found ← call (λ fs, fs);
      if negb found then mret (Err (targetError "unsafe_path")) else
      fs ← get;
      match read_path p fs with
      | None => validate_paths ps
      | Some _ =>
          if negb (bool_decide (mtype (modes fs p) = Regular)) then mret (Err (targetError "unsafe_path"))
          else if negb (Z.land (perm (modes fs p)) 63 =? 0) then mret (Err (targetError "file_permissions"))
          else validate_paths ps
      end
  end.
Definition validateDirectory : M (result Failure unit) :=
  found ← call (λ fs, fs);
  if negb found then mret (Err (targetError "directory")) else
  fs ← get;
  match directory fs with
  | None => mret (Err (targetError "directory"))
  | Some m =>
      if negb (bool_decide (mtype m = Directory)) then mret (Err (targetError "directory"))
      else if negb (Z.land (perm m) 63 =? 0) then mret (Err (targetError "directory_permissions"))
      else validate_paths [Target; ReceiptPath; PreviousPath; JournalPath]
  end.

(** ** The publisher *)

Definition target_limit : Z := 64 * 2 ^ 20.
Definition metadata_limit : Z := 64 * 2 ^ 10.

Section publisher.
Context `{Digest} `{ReceiptCodec}.

Definition recover : M (result Failure unit) :=
  j ← readRegular JournalPath metadata_limit;
  match j with
  | NotExist => cleanupTemps
  | ReadError => mret (Err (ownershipError "journal"))
  | ReadOk journal =>
      content ← readRegular Target target_limit;
      written ← (match content with
                 | ReadOk c => if bool_decide (is_Some (MatchesProtectedReceipt c journal))
                               then writeAtomic ReceiptPath journal else mret true
                 | _ => mret true
                 end);
      if negb written then mret (Err (publicationError "recovery_receipt")) else
      removed ← remove_path JournalPath;
      if negb removed then mret (Err (publicationError "recovery_cleanup")) else
      synced ← syncDir;
      if negb synced then mret (Err (publicationError "recovery_sync")) else cleanupTemps
  end.

(** The owned content and receipt, or none when nothing is published. *)
Definition currentOwned : M (result Failure (option (string * string))) :=
  t ← readRegular Target target_limit;
  match t with
  | NotExist =>
      found ← call (λ fs, fs);
      fs ← get;
      mret (if found && negb (bool_decide (receipt fs = None)) then Err (ownershipError "orphan_receipt") else Ok None)
  | ReadError => mret (Err (targetError "target_read"))
  | ReadOk content =>
      r ← readRegular ReceiptPath metadata_limit;
      mret (match r with
            | ReadOk rc => if bool_decide (is_Some (MatchesProtectedReceipt content rc)) then Ok (Some (content, rc))
                           else Err (ownershipError "receipt_mismatch")
            | _ => Err (ownershipError "unmanaged_target")
            end)
  end.

Definition CurrentReceipt : M (result Failure (option string)) :=
  v ← validateDirectory;
  match v with
  | Err e => mret (Err e)
  | Ok _ =>
      r ← recover;
      match r with
      | Err e => mret (Err e)
      | Ok _ =>
          c ← currentOwned;
          mret (match c with
                | Err e => Err e
                | Ok None => Ok None
                | Ok (Some (_, encoded)) =>
                    match RestoreReceipt encoded with
                    | Some rc => Ok (Some rc)
                    | None => Err (ownershipError "receipt_decode")
                    end
                end)
      end
  end.

Definition rollback (hadPrevious : bool) (previousReceipt : string) (code : string) : M Failure :=
  recovered ← (if hadPrevious then
                 a ← rename_path PreviousPath Target;
                 b ← writeAtomic ReceiptPath previousReceipt;
                 mret (a && b)
               else
                 a ← remove_path Target;
                 b ← remove_path ReceiptPath;
                 mret (a && b));
  _ ← remove_path JournalPath;
  _ ← syncDir;
  mret (publicationError (if (recovered : bool) then code else "rollback_failed")).

(** The part of [Publish] from the journal on, after the backup. *)
Definition commit (exists_ : bool) (currentReceipt : string) (desired desiredReceipt : string) (st : nat) (cancelled : M bool)
    : M (result Failure bool) :=
  wrote ← writeAtomic JournalPath desiredReceipt;
  if negb wrote then mret (Err (publicationError "journal")) else
  alive ← cancelled;
  if negb alive then
    _ ← remove_path JournalPath; _ ← syncDir; mret (Err (publicationError "cancelled"))
  else
    renamed ← rename_temp st Target;
    if negb renamed then
      _ ← remove_path JournalPath; _ ← syncDir; mret (Err (publicationError "target_commit"))
    else
      synced ← syncDir;
      if negb synced then e ← rollback exists_ currentReceipt "target_sync"; mret (Err e) else
      back ← readRegular Target (slen desired + 1);
      if negb (match back with ReadOk c => bool_decide (c = desired) | _ => false end)
      then e ← rollback exists_ currentReceipt "readback"; mret (Err e) else
      receipted ← writeAtomic ReceiptPath desiredReceipt;
      if negb receipted then e ← rollback exists_ currentReceipt "receipt_commit"; mret (Err e) else
      removed ← remove_path JournalPath;
      if negb removed then mret (Err (publicationError "journal_cleanup")) else
      synced ← syncDir;
      if negb synced then mret (Err (publicationError "receipt_sync")) else mret (Ok true).

(** The backup of the current content under the previous path, with the
    staged file the deferred removal names. *)
Definition backup (content : string) : M (result Failure unit * option nat) :=
  st ← stage content;
  match st with
  | None => mret (Err (publicationError "backup_stage"), None)
  | Some n =>
      renamed ← rename_temp n PreviousPath;
      if negb renamed then mret (Err (publicationError "backup_commit"), Some n) else
      synced ← syncDir;
      mret (if (synced : bool) then Ok () else Err (publicationError "backup_sync"), Some n)
  end.
Definition remove_staged (n : option nat) : M bool :=
  match n with Some n => remove_temp n | None => mret true end.

(** [Publish] after the recovery; [Ok changed] is the publication result.  A
    cancelled context is a failing call. *)
Definition publish_recovered (a : Validated) : M (result Failure bool) :=
  alive ← call (λ fs, fs);
  if negb alive then mret (Err (publicationError "cancelled")) else
  c ← currentOwned;
  match c with
  | Err e => mret (Err e)
  | Ok current =>
  match ProtectedReceipt a with
  | None => mret (Err (publicationError "receipt_encode"))
  | Some desiredReceipt =>
  let desired := content (candidate a) in
  match current with
  | Some (c, rc) =>
      if bool_decide (c = desired) then
        mret (if bool_decide (MatchesProtectedReceipt c rc = Some (profile (candidate a)))
              then Ok false else Err (ownershipError "receipt_mismatch"))
      else
        st ← stage desired;
        match st with
        | None => mret (Err (publicationError "stage"))
        | Some n =>
            '(b, bn) ← backup c;
            r ← (match b with Err e => mret (Err e) | Ok _ => commit true rc desired desiredReceipt n (call (λ fs, fs)) end);
            _ ← remove_staged bn;
            _ ← remove_temp n;
            mret r
        end
  | None =>
      st ← stage desired;
      match st with
      | None => mret (Err (publicationError "stage"))
      | Some n =>
          r ← commit false "" desired desiredReceipt n (call (λ fs, fs));
          _ ← remove_temp n;
          mret r
      end
  end end end.
Definition Publish (a : Validated) : M (result Failure bool) :=
  v ← validateDirectory;
  match v with
  | Err e => mret (Err e)
  | Ok _ =>
      r ← recover;
      match r with Err e => mret (Err e) | Ok _ => publish_recovered a end
  end.
End publisher.

(** ** A crash logic

    [wp m w Q C]: from [w], [m] either returns with [Q] or crashes in a state
    that satisfies [C]. *)
Definition wp {A} (m : M A) (w : world) (Q : A → world → Prop) (C : FS → Prop) : Prop :=
  match m w with Done a w' => Q a w' | Crashed fs => C fs end.

Definition all_ok (s : list event) : Prop := Forall (λ e, e = EvOk) s.
(** At most one call fails, or the process crashes once. *)
Inductive one_fault : list event → Prop :=
| one_none : one_fault []
| one_ok s : one_fault s → one_fault (EvOk :: s)
| one_fail s : all_ok s → one_fault (EvFail :: s)
| one_crash s : one_fault (EvCrash :: s).
(** The schedules with a fault left to come, and those without. *)
Definition sched (b : bool) : list event → Prop := if b then one_fault else all_ok.

Lemma sched_clean b s : all_ok s → sched b s.
Proof. intros Hs. destruct b; [|done]. simpl. induction Hs as [|e s -> _ IH]; by constructor. Qed.

Section logic.
Context {A B : Type}.
Lemma wp_bind (m : M A) (k : A → M B) w Q C :
  wp m w (λ a w', wp (k a) w' Q C) C → wp (m ≫= k) w Q C.
Proof. unfold wp, mbind, M_bind. by destruct (m w). Qed.
Lemma wp_ret (a : A) w (Q : A → world → Prop) C : Q a w → wp (mret a) w Q C.
Proof. done. Qed.
Lemma wp_mono (m : M A) w Q Q' (C C' : FS → Prop) :
  (∀ a w', Q a w' → Q' a w') → (∀ fs, C fs → C' fs) → wp m w Q C → wp m w Q' C'.
Proof. unfold wp. destruct (m w); auto. Qed.
End logic.
Lemma wp_get w Q C : Q (files w) w → wp get w Q C.
Proof. done. Qed.

(** A call succeeds; a failure or a crash is possible only while a fault is
    left, and then nothing fails after it. *)
Lemma wp_call b f w (Q : bool → world → Prop) (C : FS → Prop) : sched b (schedule w) →
  (∀ s, sched b s → Q true {| files := f (files w); schedule := s |}) →
  (b = true → ∀ s, all_ok s → Q false {| files := files w; schedule := s |}) →
  (b = true → C (files w)) → wp (call f) w Q C.
Proof.
  intros Hs H1 H2 H3. unfold wp, call. destruct b.
  - destruct Hs; auto. apply H1. constructor.
  - destruct (schedule w) as [|e s]; [apply H1; constructor|]. inversion Hs; subst. by apply H1.
Qed.

(** Without a crash in the schedule every operation returns. *)
Definition returns {A} (m : M A) : Prop :=
  ∀ w, all_ok (schedule w) → ∃ a w', m w = Done a w' ∧ all_ok (schedule w').
Lemma returns_ret {A} (a : A) : returns (mret a).
Proof. intros w Hw. by exists a, w. Qed.
Lemma returns_bind {A B} (m : M A) (k : A → M B) : returns m → (∀ a, returns (k a)) → returns (m ≫= k).
Proof. intros Hm Hk w Hw. unfold mbind, M_bind. destruct (Hm w Hw) as (a&w'&->&Hw'). by apply Hk. Qed.
Lemma returns_get : returns get.
Proof. intros w Hw. by exists (files w), w. Qed.
Lemma returns_call f : returns (call f).
Proof.
  intros w Hw. unfold call. destruct (schedule w) as [|e s] eqn:E; [eexists _, _; split; [done|constructor]|].
  inversion Hw; subst. eauto.
Qed.
Create HintDb publisher.
#[export] Hint Resolve returns_ret returns_bind returns_get returns_call : publisher.
Ltac returns_step :=
  repeat (intros; first [apply returns_bind | apply returns_ret | apply returns_get | apply returns_call | progress (auto with publisher) | case_match]).
Lemma returns_validate_paths ps : returns (validate_paths ps).
Proof. induction ps; simpl; returns_step. Qed.
#[export] Hint Resolve returns_validate_paths : publisher.
Lemma returns_writeAtomic p c : returns (writeAtomic p c).
Proof. unfold writeAtomic, stage, rename_temp, remove_temp, syncDir. returns_step. Qed.
#[export] Hint Resolve returns_writeAtomic : publisher.
Lemma returns_rollback h r c : returns (rollback h r c).
Proof. unfold rollback, rename_path, remove_path, syncDir. returns_step. Qed.
#[export] Hint Resolve returns_rollback : publisher.
Lemma returns_readRegular p l : returns (readRegular p l).
Proof. unfold readRegular. returns_step. Qed.
#[export] Hint Resolve returns_readRegular : publisher.
Lemma returns_commit h r d dr n : returns (commit h r d dr n (call (λ fs, fs))).
Proof. unfold commit, rename_temp, remove_path, syncDir. returns_step. Qed.
#[export] Hint Resolve returns_commit : publisher.
Lemma returns_publish_recovered `{Digest} `{ReceiptCodec} a : returns (publish_recovered a).
Proof. unfold publish_recovered, currentOwned, backup, remove_staged, remove_temp, rename_temp, stage, syncDir. returns_step. Qed.

(** ** Specifications of the file operations *)

(** What [validateDirectory] accepts. *)
Definition private (fs : FS) : Prop :=
  (∃ m, directory fs = Some m ∧ mtype m = Directory ∧ Z.land (perm m) 63 = 0) ∧
  ∀ p, is_Some (read_path p fs) → mtype (modes fs p) = Regular ∧ Z.land (perm (modes fs p)) 63 = 0.

(** The files stay private and the staged files below [n] are kept. *)
Record frame (n : nat) (fs fs' : FS) : Prop := {
  frame_private : private fs → private fs';
  frame_fresh : (fresh fs ≤ fresh fs')%nat;
  frame_temps k : (k < n)%nat → temps fs' !! k = temps fs !! k;
}.
Definition same (n : nat) (fs fs' : FS) : Prop := frame n fs fs' ∧ ∀ q, read_path q fs' = read_path q fs.
Definition wrote (n : nat) (p : path) (v : option string) (fs fs' : FS) : Prop :=
  frame n fs fs' ∧ ∀ q, read_path q fs' = if decide (q = p) then v else read_path q fs.

Lemma frame_trans n a b c : frame n a b → frame n b c → frame n a c.
Proof.
  intros [U1 F1 T1] [U2 F2 T2]. split; [auto|lia|]. intros k Hk. rewrite T2 by lia. by apply T1.
Qed.
Lemma frame_weaken n m a b : (m ≤ n)%nat → frame n a b → frame m a b.
Proof. intros Hm [U F T]. split; [done|done|]. intros k Hk. apply T. lia. Qed.
Lemma same_refl n fs : same n fs fs.
Proof. by split. Qed.
Lemma same_weaken n m a b : (m ≤ n)%nat → same n a b → same m a b.
Proof. intros Hm [F R]. split; [by eapply frame_weaken|done]. Qed.
Lemma wrote_weaken n m p v a b : (m ≤ n)%nat → wrote n p v a b → wrote m p v a b.
Proof. intros Hm [F R]. split; [by eapply frame_weaken|done]. Qed.
Lemma read_write_path p v fs q : read_path q (write_path p v fs) = if decide (q = p) then v else read_path q fs.
Proof. by destruct p, q. Qed.
Lemma read_with_mode p m fs q : read_path q (with_mode p m fs) = read_path q fs.
Proof. by destruct q. Qed.
Lemma read_with_temps t n fs q : read_path q (with_temps t n fs) = read_path q fs.
Proof. by destruct q. Qed.
Lemma same_wrote n p v a b c : same n a b → wrote n p v b c → wrote n p v a c.
Proof.
  intros [F1 H1] [F2 H2]. split; [by eapply frame_trans|]. intros q. rewrite H2. by destruct (decide _).
Qed.
Lemma wrote_same n p v a b c : wrote n p v a b → same n b c → wrote n p v a c.
Proof. intros [F1 H1] [F2 H2]. split; [by eapply frame_trans|]. intros q. by rewrite H2, H1. Qed.
Lemma same_trans n a b c : same n a b → same n b c → same n a c.
Proof. intros [F1 H1] [F2 H2]. split; [by eapply frame_trans|]. intros q. by rewrite H2, H1. Qed.

Lemma private_with_temps t n fs : private fs → private (with_temps t n fs).
Proof. intros [Hd Hp]. split; [done|]. intros p. rewrite read_with_temps. apply Hp. Qed.
Lemma private_write_path p v fs : private fs → private (write_path p v fs).
Proof.
  intros [Hd Hp]. split; [done|]. intros q. rewrite read_write_path. simpl. destruct (decide (q = p)); [done|apply Hp].
Qed.
Lemma temps_same fs n m t : (fresh fs ≤ m)%nat → (∀ k, (k < n)%nat → t !! k = temps fs !! k) → same n fs (with_temps t m fs).
Proof. intros Hm Ht. split; [split; [apply private_with_temps|done|done]|]. intros q. apply read_with_temps. Qed.
Lemma write_path_wrote n p v fs : wrote n p v fs (write_path p v fs).
Proof. split; [split; [apply private_write_path|done|done]|]. intros q. apply read_write_path. Qed.

Section operations.
Context (b : bool) (w : world).
Context (Hs : sched b (schedule w)).

Lemma wp_syncDir (Q : bool → world → Prop) (C : FS → Prop) :
  (∀ s, sched b s → Q true {| files := files w; schedule := s |}) →
  (b = true → ∀ s, all_ok s → Q false {| files := files w; schedule := s |}) → (b = true → C (files w)) → wp syncDir w Q C.
Proof using Hs. intros. by apply (wp_call b). Qed.

Lemma wp_remove_path n p (Q : bool → world → Prop) (C : FS → Prop) :
  (∀ w', sched b (schedule w') → wrote n p None (files w) (files w') → Q true w') →
  (b = true → ∀ s, all_ok s → Q false {| files := files w; schedule := s |}) → (b = true → C (files w)) →
  wp (remove_path p) w Q C.
Proof using Hs. intros H1 H2 H3. apply (wp_call b); [done| |done|done]. intros s Hs'. apply H1; [done|]. apply write_path_wrote. Qed.

Lemma wp_stage content (Q : option nat → world → Prop) (C : FS → Prop) :
  (∀ w', sched b (schedule w') → same (fresh (files w)) (files w) (files w') →
     temps (files w') !! fresh (files w) = Some content → (fresh (files w) < fresh (files w'))%nat → Q (Some (fresh (files w))) w') →
  (b = true → ∀ s, all_ok s → Q None {| files := files w; schedule := s |}) → (b = true → C (files w)) → wp (stage content) w Q C.
Proof using Hs.
  intros H1 H2 H3. unfold stage. apply wp_bind, wp_get, wp_bind, (wp_call b); [done|..|done].
  - intros s Hs'. apply wp_ret, H1; simpl; [done| |apply lookup_insert_eq|lia]. apply temps_same; [lia|].
    intros k Hk. by rewrite lookup_insert_ne by lia.
  - intros Hb s Hs'. by apply wp_ret, H2.
Qed.

Lemma wp_rename_temp n p content (Q : bool → world → Prop) (C : FS → Prop) : temps (files w) !! n = Some content →
  (∀ w', sched b (schedule w') → wrote n p (Some content) (files w) (files w') → Q true w') →
  (b = true → ∀ s, all_ok s → Q false {| files := files w; schedule := s |}) → (b = true → C (files w)) → wp (rename_temp n p) w Q C.
Proof using Hs.
  intros Ht H1 H2 H3. unfold rename_temp. apply wp_bind, wp_get. rewrite Ht. apply (wp_call b); [done|..|done|done].
  intros s Hs'. apply H1; [done|]. simpl. eapply same_wrote; [|apply write_path_wrote]. apply temps_same; [lia|].
  intros k Hk. by rewrite lookup_delete_ne by lia.
Qed.

Lemma wp_remove_temp n (Q : bool → world → Prop) (C : FS → Prop) :
  (∀ r w', sched b (schedule w') → same n (files w) (files w') → Q r w') → (b = true → C (files w)) → wp (remove_temp n) w Q C.
Proof using Hs.
  intros H1 H3. apply (wp_call b); [done|..|done].
  - intros s Hs'. apply H1; [done|]. apply temps_same; [lia|]. intros k Hk. by rewrite lookup_delete_ne by lia.
  - intros _ s Hs'. apply H1; [by apply sched_clean|apply same_refl].
Qed.

Lemma wp_rename_path n from to content (Q : bool → world → Prop) (C : FS → Prop) :
  from ≠ to → read_path from (files w) = Some content →
  (∀ w', sched b (schedule w') → frame n (files w) (files w') →
     (∀ q, read_path q (files w') = if decide (q = from) then None else if decide (q = to) then Some content else read_path q (files w)) →
     Q true w') →
  (b = true → ∀ s, all_ok s → Q false {| files := files w; schedule := s |}) → (b = true → C (files w)) → wp (rename_path from to) w Q C.
Proof using Hs.
  intros Hne Hr H1 H2 H3. unfold rename_path. apply wp_bind, wp_get. rewrite Hr. apply (wp_call b); [done|..|done|done].
  intros s Hs'. apply H1; simpl; [done| |].
  - split; [|done|done]. intros Hp. apply private_write_path. destruct (private_write_path to (Some content) _ Hp) as [Hd Hq].
    split; [done|]. intros q. rewrite read_with_mode. simpl. destruct (decide (q = to)) as [->|]; [|intros Hi].
    + intros _. apply Hp. by eexists.
    + destruct (Hq q Hi) as [??]. simpl in *. rewrite decide_False in * by done. done.
  - intros q. rewrite read_write_path, read_with_mode, read_write_path. done.
Qed.

Lemma wp_readRegular p limit (Q : read_result → world → Prop) (C : FS → Prop) : private (files w) →
  (∀ s, sched b s → read_path p (files w) = None → Q NotExist {| files := files w; schedule := s |}) →
  (∀ c s, read_path p (files w) = Some c → slen c ≤ limit → sched b s → Q (ReadOk c) {| files := files w; schedule := s |}) →
  (∀ s, (∃ c, read_path p (files w) = Some c ∧ limit < slen c) ∧ sched b s ∨ b = true ∧ all_ok s →
     Q ReadError {| files := files w; schedule := s |}) →
  (b = true → C (files w)) → wp (readRegular p limit) w Q C.
Proof using Hs.
  intros [_ Hp] H1 H2 H3 H4. unfold readRegular. apply wp_bind, (wp_call b); [done|..|done].
  2:{ intros Hb s Hs'. apply wp_ret, H3. auto. }
  intros s Hs'. simpl. apply wp_bind, wp_get. simpl. specialize (Hp p).
  destruct (read_path p (files w)) as [c|] eqn:E; [|by apply wp_ret, H1].
  destruct Hp as [-> _]; [by eexists|]. rewrite bool_decide_true by done. simpl.
  apply wp_bind, (wp_call b); [done|..|done]; simpl.
  - intros s' Hs''. apply wp_ret. destruct (limit <? slen c) eqn:El; bool_to_prop; [apply H3; left; eauto|by eapply H2].
  - intros Hb s' Hs''. apply wp_ret, H3. auto.
Qed.

End operations.

(** [writeAtomic] reports success only when the file has its new content;
    otherwise the file is old or new, never anything else. *)
Lemma wp_writeAtomic b w p content (Q : bool → world → Prop) (C : FS → Prop) : sched b (schedule w) →
  let n := fresh (files w) in
  (∀ w', sched b (schedule w') → wrote n p (Some content) (files w) (files w') → Q true w') →
  (b = true → ∀ w', all_ok (schedule w') → same n (files w) (files w') ∨ wrote n p (Some content) (files w) (files w') → Q false w') →
  (b = true → ∀ fs', same n (files w) fs' ∨ wrote n p (Some content) (files w) fs' → C fs') →
  wp (writeAtomic p content) w Q C.
Proof.
  intros Hs n H1 H2 H3. unfold writeAtomic. apply wp_bind, (wp_stage b); [done|..].
  2:{ intros Hb s Hs'. apply wp_ret, H2; [done|done|]. left. apply same_refl. }
  2:{ intros Hb. apply H3; [done|]. left. apply same_refl. }
  intros w1 Hs1 Hw1 Ht Hfr. fold n in Hw1, Ht |- *. apply wp_bind, (wp_rename_temp b) with (content := content); [done|done|..].
  - intros w2 Hs2 Hw2. pose proof (same_wrote _ _ _ _ _ _ Hw1 Hw2) as Hw. apply wp_bind, (wp_syncDir b); [done|..].
    + intros s3 Hs3. apply wp_bind, (wp_remove_temp b); [done|..]; simpl.
      * intros _ w4 Hs4 Hw4. apply wp_ret, H1; [done|]. by eapply wrote_same.
      * intros Hb. apply H3; [done|]. by right.
    + intros Hb s3 Hs3. apply wp_bind, (wp_remove_temp false); [done|..]; simpl; [|done].
      intros _ w4 Hs4 Hw4. apply wp_ret, H2; [done|done|]. right. by eapply wrote_same.
    + intros Hb. apply H3; [done|]. by right.
  - intros Hb s2 Hs2. apply wp_bind, wp_ret, wp_bind, (wp_remove_temp false); [done|..]; simpl; [|done].
    intros _ w4 Hs4 Hw4. apply wp_ret, H2; [done|done|]. left. by eapply same_trans.
  - intros Hb. apply H3; [done|]. by left.
Qed.

Lemma wp_cleanupTemps b w (Q : result Failure unit → world → Prop) (C : FS → Prop) : sched b (schedule w) →
  (∀ w', sched b (schedule w') → same 0 (files w) (files w') → Q (Ok ()) w') →
  (b = true → ∀ e s, all_ok s → Q (Err e) {| files := files w; schedule := s |}) → (b = true → C (files w)) → wp cleanupTemps w Q C.
Proof.
  intros Hs H1 H2 H3. unfold cleanupTemps. apply wp_bind, (wp_call b); [done|..|done].
  - intros s1 Hs1. apply wp_bind, (wp_call b); [done|..|done]; simpl.
    + intros s2 Hs2. apply wp_ret, H1; [done|]. apply temps_same; [lia|]. intros k Hk. lia.
    + intros _ s2 Hs2. apply wp_ret, H1; [by apply sched_clean|apply same_refl].
  - intros Hb s1 Hs1. by apply wp_ret, H2.
Qed.
Lemma wp_validate_paths b ps w (Q : result Failure unit → world → Prop) (C : FS → Prop) : sched b (schedule w) → private (files w) →
  (∀ s, sched b s → Q (Ok ()) {| files := files w; schedule := s |}) →
  (b = true → ∀ e s, all_ok s → Q (Err e) {| files := files w; schedule := s |}) → (b = true → C (files w)) → wp (validate_paths ps) w Q C.
Proof.
  intros Hs Hp H1 H2 H3. revert w Hs Hp H1 H2 H3. induction ps as [|p ps IH]; intros w Hs Hp H1 H2 H3; simpl.
  { apply wp_ret. destruct w. by apply H1. }
  apply wp_bind, (wp_call b); [done|..|done]; [|intros Hb s Hs'; by apply wp_ret, H2].
  intros s Hs'. simpl. apply wp_bind, wp_get. simpl. destruct (read_path p (files w)) as [c|] eqn:E; [|by apply IH].
  destruct (proj2 Hp p) as [-> ->]; [by eexists|]. rewrite bool_decide_true by done. by apply IH.
Qed.
Lemma wp_validateDirectory b w (Q : result Failure unit → world → Prop) (C : FS → Prop) : sched b (schedule w) → private (files w) →
  (∀ s, sched b s → Q (Ok ()) {| files := files w; schedule := s |}) →
  (b = true → ∀ e s, all_ok s → Q (Err e) {| files := files w; schedule := s |}) → (b = true → C (files w)) → wp validateDirectory w Q C.
Proof.
  intros Hs Hp H1 H2 H3. unfold validateDirectory. apply wp_bind, (wp_call b); [done|..|done]; [|intros Hb s Hs'; by apply wp_ret, H2].
  intros s Hs'. cbn [negb]. apply wp_bind, wp_get. cbn [files]. destruct (proj1 Hp) as (m&->&->&->). rewrite bool_decide_true by done. cbn [negb].
  by apply (wp_validate_paths b).
Qed.

(** ** Crash safety *)

Section safety.
Context `{Digest} `{ReceiptCodec}.

(** A content with the receipt that proves the publisher wrote it. *)
Record authentic (c r : string) : Prop := {
  auth_match : is_Some (MatchesProtectedReceipt c r);
  auth_size : slen c ≤ target_limit;
  auth_receipt : slen r ≤ metadata_limit;
}.
Definition authentic_pair (cur : option (string * string)) : Prop := ∀ c r, cur = Some (c, r) → authentic c r.

(** At rest: no journal, and the target is absent or has its receipt. *)
Record owned (cur : option (string * string)) (fs : FS) : Prop := {
  owned_private : private fs;
  owned_journal : journal fs = None;
  owned_target : target fs = fst <$> cur;
  owned_receipt : receipt fs = snd <$> cur;
  owned_authentic : authentic_pair cur;
}.
(** A state from which the next start finds its artifact again: the receipt
    of the target is in its place or still in the journal. *)
Record recoverable (fs : FS) : Prop := {
  rec_private : private fs;
  rec_journal j : journal fs = Some j → slen j ≤ metadata_limit;
  rec_target : match target fs with
               | None => receipt fs = None
               | Some c => ∃ r, authentic c r ∧ (receipt fs = Some r ∨ journal fs = Some r)
               end;
}.

(** The artifact in force in such a state, with its receipt: the receipt a
    journal holds counts when it is a receipt of the target. *)
Definition in_force (fs : FS) : option (string * string) :=
  c ← target fs;
  match journal fs with
  | Some j => if bool_decide (is_Some (MatchesProtectedReceipt c j)) then Some (c, j) else pair c <$> receipt fs
  | None => pair c <$> receipt fs
  end.

Lemma same_read n fs fs' : same n fs fs' →
  target fs' = target fs ∧ receipt fs' = receipt fs ∧ previous fs' = previous fs ∧ journal fs' = journal fs.
Proof. intros [_ R]. exact (conj (R Target) (conj (R ReceiptPath) (conj (R PreviousPath) (R JournalPath)))). Qed.
Lemma wrote_read n p v fs fs' : wrote n p v fs fs' →
  target fs' = (if decide (Target = p) then v else target fs) ∧ receipt fs' = (if decide (ReceiptPath = p) then v else receipt fs) ∧
  previous fs' = (if decide (PreviousPath = p) then v else previous fs) ∧ journal fs' = (if decide (JournalPath = p) then v else journal fs).
Proof. intros [_ R]. exact (conj (R Target) (conj (R ReceiptPath) (conj (R PreviousPath) (R JournalPath)))). Qed.
Lemma owned_same n cur fs fs' : same n fs fs' → owned cur fs → owned cur fs'.
Proof.
  intros Hs [P J T R A]. destruct (same_read _ _ _ Hs) as (?&?&?&?). split; [|congruence..|done].
  by apply (frame_private _ _ _ (proj1 Hs)).
Qed.

(** The end of a recovery: the journal goes. *)
Lemma wp_recover_tail cur w (Q : result Failure unit → world → Prop) : all_ok (schedule w) → private (files w) →
  target (files w) = fst <$> cur → receipt (files w) = snd <$> cur → authentic_pair cur →
  (∀ w', all_ok (schedule w') → owned cur (files w') → Q (Ok ()) w') →
  wp (removed ← remove_path JournalPath;
      if negb removed then mret (Err (publicationError "recovery_cleanup")) else
      synced ← syncDir;
      if negb synced then mret (Err (publicationError "recovery_sync")) else cleanupTemps) w Q (λ _, False).
Proof.
  intros Hs P T R A H1. apply wp_bind, (wp_remove_path false _ Hs 0); [|done|done]. intros w1 Hs1 Hw1.
  apply wp_bind, (wp_syncDir false); [done| |done|done]. intros s2 Hs2.
  apply (wp_cleanupTemps false); [done| |done|done]. intros w3 Hs3 Hw3. apply H1; [done|]. apply (owned_same _ _ _ _ Hw3).
  destruct (wrote_read _ _ _ _ _ Hw1) as (?&?&?&?). split; simpl in *; [|congruence..|done]. by apply (frame_private _ _ _ (proj1 Hw1)).
Qed.

(** Recovery without a further fault restores the resting state and never
    touches the target. *)
Lemma wp_recover_clean w (Q : result Failure unit → world → Prop) : all_ok (schedule w) → recoverable (files w) →
  (∀ w', all_ok (schedule w') → owned (in_force (files w)) (files w') → fst <$> in_force (files w) = target (files w) → Q (Ok ()) w') →
  wp recover w Q (λ _, False).
Proof.
  intros Hs [P J T] H1. unfold in_force in H1. unfold recover. apply wp_bind, (wp_readRegular false); [done|done|..|done]; simpl.
  - intros s Hs' HJ. rewrite HJ in H1. apply (wp_cleanupTemps false); [done|..]; [|done|done]. intros w' Hs2 Hw'. simpl in *.
    destruct (target (files w)) as [c|] eqn:HT; csimpl in H1.
    + destruct T as (r&Ha&[Hr|?]); [|congruence]. rewrite Hr in H1. apply H1; [done| |done]. apply (owned_same _ _ _ _ Hw').
      split; simpl; try done. by intros ?? [= <- <-].
    + apply H1; [done| |done]. apply (owned_same _ _ _ _ Hw'). by split.
  - intros j s HJ Hlj Hs'. rewrite HJ in H1. apply wp_bind, (wp_readRegular false); [done|done|..|done]; simpl.
    + intros s1 Hs1 HT. rewrite HT in T, H1. apply wp_bind, wp_ret. cbn [negb]. apply (wp_recover_tail None); simpl; try done.
      intros w' Hs2 Hw'. by apply H1.
    + intros c s1 HT Hlc Hs1. rewrite HT in T, H1. csimpl in H1. destruct T as (r&Ha&Hr). case_bool_decide as Hm.
      * apply wp_bind, (wp_writeAtomic false); [done| |done|done]. intros w1 Hs2 Hw1.
        destruct (wrote_read _ _ _ _ _ Hw1) as (?&?&?&?). simpl in *.
        apply (wp_recover_tail (Some (c, j))); simpl; [done|by apply (frame_private _ _ _ (proj1 Hw1))|congruence|congruence| |].
        -- intros ?? [= <- <-]. by split; auto; destruct Ha.
        -- intros w' Hs3 Hw'. by apply H1.
      * destruct Hr as [Hr|Hr]; [|destruct Ha; congruence]. rewrite Hr in H1. apply wp_bind, wp_ret. cbn [negb].
        apply (wp_recover_tail (Some (c, r))); simpl; try done; [by intros ?? [= <- <-]|].
        intros w' Hs3 Hw'. by apply H1.
    + intros s1 [[(c&HT&Hlc) _]|[? _]]; [|done]. rewrite HT in T. destruct T as (r&[]&_). lia.
  - intros s [[(j&HJ&Hlj) _]|[? _]]; [|done]. apply J in HJ. lia.
Qed.

(** At rest a recovery only scans for staged files, so a fault in it is
    harmless. *)
Lemma wp_recover_owned b cur w (Q : result Failure unit → world → Prop) (C : FS → Prop) : sched b (schedule w) → owned cur (files w) →
  (∀ w', sched b (schedule w') → owned cur (files w') → Q (Ok ()) w') →
  (b = true → ∀ e s, all_ok s → Q (Err e) {| files := files w; schedule := s |}) → (b = true → C (files w)) → wp recover w Q C.
Proof.
  intros Hs Ho H1 H2 H3. destruct (id Ho) as [P J T R A]. unfold recover. apply wp_bind, (wp_readRegular b); [done|done|..|done]; simpl.
  - intros s Hs' _. apply (wp_cleanupTemps b); [done|..]; [|done|done]. intros w' Hs2 Hw'. apply H1; [done|]. by eapply owned_same.
  - congruence.
  - intros s [[(j&HJ&_) _]|[Hb Hs']]; [congruence|]. by apply wp_ret, H2.
Qed.

Lemma wp_currentOwned b cur w (Q : result Failure (option (string * string)) → world → Prop) (C : FS → Prop) :
  sched b (schedule w) → owned cur (files w) →
  (∀ s, sched b s → Q (Ok cur) {| files := files w; schedule := s |}) →
  (b = true → ∀ e s, all_ok s → Q (Err e) {| files := files w; schedule := s |}) → (b = true → C (files w)) → wp currentOwned w Q C.
Proof.
  intros Hs [P J T R A] H1 H2 H3. unfold currentOwned. apply wp_bind, (wp_readRegular b); [done|done|..|done]; simpl.
  - intros s Hs' HT. destruct cur as [|]; [simpl in T; congruence|]. apply wp_bind, (wp_call b); [done|..|done]; simpl.
    + intros s1 Hs1. apply wp_bind, wp_get, wp_ret. simpl. rewrite R. simpl. by apply H1.
    + intros _ s1 Hs1. apply wp_bind, wp_get, wp_ret. simpl. by apply H1, sched_clean.
  - intros c s HT _ Hs'. destruct cur as [[c' r]|]; simpl in T, R; [|congruence]. assert (c' = c) as -> by congruence.
    destruct (A c r eq_refl) as [Hm Hc Hr]. apply wp_bind, (wp_readRegular b); [done|done|..|done]; simpl.
    + congruence.
    + intros r' s1 HR _ Hs1. assert (r' = r) as -> by congruence. apply wp_ret. rewrite bool_decide_true by done. by apply H1.
    + intros s1 [[(r'&HR&Hlr) _]|[Hb Hs1]]; [assert (r' = r) as -> by congruence; lia|]. by apply wp_ret, H2.
  - intros s [[(c&HT&Hl) _]|[Hb Hs']]; [|by apply wp_ret, H2].
    destruct cur as [[c' r]|]; simpl in T; [|congruence]. destruct (A c' r eq_refl). assert (c' = c) as -> by congruence. lia.
Qed.
(** ** One publication attempt *)

Section attempt.
Context (cur : option (string * string)) (desired dr : string).
Context (Hcur : authentic_pair cur) (Hnew : authentic desired dr).

(** The target is the old or the new artifact, and recoverable. *)
Definition good (fs : FS) : Prop := recoverable fs ∧ (target fs = fst <$> cur ∨ target fs = Some desired).
(** The states a publication passes through. *)
Record stage_state (fs : FS) : Prop := {
  st_private : private fs;
  st_journal : journal fs = None ∨ journal fs = Some dr;
  st_previous c r : cur = Some (c, r) → previous fs = Some c;
  st_target : (target fs = fst <$> cur ∧ receipt fs = snd <$> cur) ∨
              (target fs = Some desired ∧ journal fs = Some dr) ∨ (target fs = Some desired ∧ receipt fs = Some dr);
}.
Definition post (b : bool) (r : result Failure bool) (w : world) : Prop :=
  sched b (schedule w) ∧ good (files w) ∧ (∀ x, r = Ok x → x = true ∧ owned (Some (desired, dr)) (files w)) ∧
  (b = false → r = Ok true).

Lemma good_intro fs : private fs → (journal fs = None ∨ journal fs = Some dr) →
  (target fs = fst <$> cur ∧ receipt fs = snd <$> cur) ∨
  (target fs = Some desired ∧ journal fs = Some dr) ∨ (target fs = Some desired ∧ receipt fs = Some dr) → good fs.
Proof using Hcur Hnew.
  intros P J T. split; [split; [done| |]|].
  - intros j Hj. destruct Hnew. destruct J; congruence.
  - destruct T as [[-> R]|[[-> R]|[-> R]]]; [|exists dr; auto..]. destruct cur as [[c r]|]; [|done]. exists r. auto.
  - destruct T as [[? _]|[[? _]|[? _]]]; auto.
Qed.
Lemma stage_good fs : stage_state fs → good fs.
Proof using Hcur Hnew. intros [P J _ T]. by apply good_intro. Qed.
Lemma owned_good fs : owned cur fs → good fs.
Proof using Hcur Hnew. intros [P J T R _]. apply good_intro; auto. Qed.
Lemma good_same n fs fs' : same n fs fs' → good fs → good fs'.
Proof.
  intros Hs [[P J T] O]. destruct (same_read _ _ _ Hs) as (Ht&Hr&_&Hj). unfold good. rewrite Ht. split; [|done].
  split; [by apply (frame_private _ _ _ (proj1 Hs))|by rewrite Hj|by rewrite Ht, Hr, Hj].
Qed.
Lemma post_same n b r w w' : same n (files w) (files w') → sched b (schedule w') → post b r w → post b r w'.
Proof.
  intros Hs Hb (_&Hg&Ho&Hr). split_and!; [done|by eapply good_same| |done]. intros x Hx. destruct (Ho x Hx) as [-> ?].
  split; [done|by eapply owned_same].
Qed.
Lemma post_err e w : all_ok (schedule w) → good (files w) → post true (Err e) w.
Proof. intros Hs Hg. split_and!; [by apply (sched_clean true)|done|done|done]. Qed.

Lemma stage_same n fs fs' : same n fs fs' → stage_state fs → stage_state fs'.
Proof.
  intros Hs [P J Pr T]. destruct (same_read _ _ _ Hs) as (Ht&Hr&Hp&Hj).
  split; [by apply (frame_private _ _ _ (proj1 Hs))|by rewrite Hj|intros c r; rewrite Hp; apply Pr|by rewrite Ht, Hr, Hj].
Qed.

(** After a failed step the remaining calls run: [rollback] puts the old
    artifact and its receipt back. *)
Lemma wp_rollback prev code w (Q : Failure → world → Prop) : all_ok (schedule w) → stage_state (files w) →
  (∀ r, snd <$> cur = Some r → prev = r) →
  (∀ e w', all_ok (schedule w') → owned cur (files w') → Q e w') →
  wp (rollback (bool_decide (is_Some cur)) prev code) w Q (λ _, False).
Proof using Hcur.
  intros Hs [P _ Pr _] Hprev H1. unfold rollback.
  assert (∀ ok w', all_ok (schedule w') → private (files w') → target (files w') = fst <$> cur → receipt (files w') = snd <$> cur →
    wp (_ ← remove_path JournalPath; _ ← syncDir; mret (publicationError (if (ok : bool) then code else "rollback_failed"))) w' Q (λ _, False)) as Hend.
  { intros ok w' Hs' P' T R. apply wp_bind, (wp_remove_path false _ Hs' 0); [|done|done]. intros w1 Hs1 Hw1.
    apply wp_bind, (wp_syncDir false); [done| |done|done]. intros s2 Hs2. apply wp_ret, H1; [done|]. simpl.
    destruct (wrote_read _ _ _ _ _ Hw1) as (?&?&?&?). simpl in *.
    split; [by apply (frame_private _ _ _ (proj1 Hw1))|congruence..|done]. }
  apply wp_bind. destruct cur as [[c r]|]; simpl.
  - rewrite (Hprev r eq_refl) in *. apply wp_bind, (wp_rename_path false _ Hs 0 _ _ c); [done|by eapply Pr| |done|done].
    intros w1 Hs1 F1 R1. apply wp_bind, (wp_writeAtomic false); [done| |done|done]. intros w2 Hs2 Hw2. apply wp_ret.
    destruct (wrote_read _ _ _ _ _ Hw2) as (Ht2&Hr2&_&_). apply (Hend true); simpl in *; [done| |rewrite Ht2; apply (R1 Target)|done].
    by apply (frame_private _ _ _ (proj1 Hw2)), (frame_private _ _ _ F1).
  - apply wp_bind, (wp_remove_path false _ Hs 0); [|done|done]. intros w1 Hs1 Hw1.
    apply wp_bind, (wp_remove_path false _ Hs1 0); [|done|done]. intros w2 Hs2 Hw2. apply wp_ret.
    destruct (wrote_read _ _ _ _ _ Hw1) as (?&?&_&_), (wrote_read _ _ _ _ _ Hw2) as (?&?&_&_). simpl in *.
    apply (Hend true); simpl; [done| |congruence|congruence].
    by apply (frame_private _ _ _ (proj1 Hw2)), (frame_private _ _ _ (proj1 Hw1)).
Qed.
(** An attempt given up before the target was replaced. *)
Lemma wp_give_up code w : all_ok (schedule w) → stage_state (files w) → target (files w) = fst <$> cur → receipt (files w) = snd <$> cur →
  wp (_ ← remove_path JournalPath; _ ← syncDir; mret (Err (publicationError code))) w (post true) good.
Proof using Hcur Hnew.
  intros Hs [P _ _ _] T R. apply wp_bind, (wp_remove_path false _ Hs 0); [|done|done]. intros w1 Hs1 Hw1.
  apply wp_bind, (wp_syncDir false); [done| |done|done]. intros s2 Hs2. apply wp_ret, post_err; [done|].
  destruct (wrote_read _ _ _ _ _ Hw1) as (Ht&Hr&_&Hj). simpl in *.
  apply good_intro; simpl; [by apply (frame_private _ _ _ (proj1 Hw1))|auto|left; by rewrite Ht, Hr].
Qed.
Lemma wp_roll_back prev code w : all_ok (schedule w) → stage_state (files w) → (∀ r, snd <$> cur = Some r → prev = r) →
  wp (e ← rollback (bool_decide (is_Some cur)) prev code; mret (Err e)) w (post true) good.
Proof using Hcur Hnew.
  intros Hs Hst Hp. apply wp_bind.
  apply (wp_mono _ _ (λ e w', all_ok (schedule w') ∧ owned cur (files w')) _ (λ _, False)); [|done|by apply wp_rollback].
  intros e w' [Hs' Ho]. apply wp_ret, post_err; [done|]. by apply owned_good.
Qed.

(** A step of the attempt keeps to the states above. *)
Lemma stage_step n p v fs fs' : wrote n p v fs fs' → p ≠ PreviousPath →
  (journal fs' = None ∨ journal fs' = Some dr) →
  (target fs' = fst <$> cur ∧ receipt fs' = snd <$> cur) ∨
  (target fs' = Some desired ∧ journal fs' = Some dr) ∨ (target fs' = Some desired ∧ receipt fs' = Some dr) →
  stage_state fs → stage_state fs'.
Proof.
  intros Hw Hp HJ HT [P _ Pr _]. split; [by apply (frame_private _ _ _ (proj1 Hw))|done| |done].
  intros c r Hc. destruct (wrote_read _ _ _ _ _ Hw) as (_&_&->&_). rewrite decide_False by congruence. by apply (Pr c r).
Qed.
Lemma stage_journal n fs fs' : wrote n JournalPath (Some dr) fs fs' → stage_state fs →
  target fs = fst <$> cur → receipt fs = snd <$> cur →
  stage_state fs' ∧ target fs' = fst <$> cur ∧ receipt fs' = snd <$> cur ∧ journal fs' = Some dr.
Proof.
  intros Hw Hst T R. destruct (wrote_read _ _ _ _ _ Hw) as (Ht&Hr&_&Hj). simpl in *. rewrite Ht, Hr.
  split_and!; auto. eapply stage_step; eauto. left. by rewrite Ht, Hr.
Qed.
Lemma stage_target n fs fs' : wrote n Target (Some desired) fs fs' → stage_state fs → journal fs = Some dr →
  stage_state fs' ∧ target fs' = Some desired ∧ journal fs' = Some dr.
Proof.
  intros Hw Hst J. destruct (wrote_read _ _ _ _ _ Hw) as (Ht&_&_&Hj). simpl in *. rewrite Hj.
  split_and!; auto. eapply stage_step; eauto; [right; congruence|]. right. left. split; congruence.
Qed.
Lemma stage_receipt n fs fs' : wrote n ReceiptPath (Some dr) fs fs' → stage_state fs → target fs = Some desired → journal fs = Some dr →
  stage_state fs' ∧ target fs' = Some desired ∧ journal fs' = Some dr ∧ receipt fs' = Some dr.
Proof.
  intros Hw Hst T J. destruct (wrote_read _ _ _ _ _ Hw) as (Ht&Hr&_&Hj). simpl in *. rewrite Ht, Hr, Hj.
  split_and!; auto. eapply stage_step; eauto; [right; congruence|]. right. left. split; congruence.
Qed.

(** The end of [commit], once the receipt is written. *)
Lemma wp_commit_tail b w : sched b (schedule w) → stage_state (files w) → target (files w) = Some desired → receipt (files w) = Some dr →
  wp (removed ← remove_path JournalPath;
      if negb removed then mret (Err (publicationError "journal_cleanup")) else
      synced ← syncDir;
      if negb synced then mret (Err (publicationError "receipt_sync")) else mret (Ok true)) w (post b) good.
Proof using Hcur Hnew.
  intros Hs Hst T R. apply wp_bind, (wp_remove_path b _ Hs 0); [|intros ->; intros s1 Hs1; by apply wp_ret, post_err, stage_good|intros _; by apply stage_good].
  intros w1 Hs1 Hw1. destruct (wrote_read _ _ _ _ _ Hw1) as (Ht&Hr&_&Hj). simpl in *.
  assert (owned (Some (desired, dr)) (files w1)) as Ho.
  { split; simpl; [apply (frame_private _ _ _ (proj1 Hw1)), Hst|congruence..|]. by intros ?? [= <- <-]. }
  assert (good (files w1)) as Hg by (apply good_intro; [apply Ho|auto|right; right; split; congruence]).
  apply wp_bind, (wp_syncDir b); [done|..]; simpl; [|intros -> s2 Hs2; by apply wp_ret, post_err|done].
  intros s2 Hs2. apply wp_ret. split_and!; [done|done| |done]. by intros ? [= <-].
Qed.

Lemma wp_commit b w st prev : sched b (schedule w) → stage_state (files w) → (∀ r, snd <$> cur = Some r → prev = r) →
  target (files w) = fst <$> cur → receipt (files w) = snd <$> cur →
  temps (files w) !! st = Some desired → (st < fresh (files w))%nat →
  wp (commit (bool_decide (is_Some cur)) prev desired dr st (call (λ fs, fs))) w (post b) good.
Proof using Hcur Hnew.
  intros Hs Hst Hp T R Htmp Hlt. unfold commit.
  assert (∀ fs', same (fresh (files w)) (files w) fs' ∨ wrote (fresh (files w)) JournalPath (Some dr) (files w) fs' → good fs') as Hg1.
  { intros fs' [Hw|Hw]; apply stage_good; [by eapply stage_same|by eapply stage_journal]. }
  apply wp_bind, (wp_writeAtomic b); [done| |intros -> w' Hs' Hw'; apply wp_ret, post_err; auto|auto].
  intros w1 Hs1 Hw1. destruct (stage_journal _ _ _ Hw1 Hst T R) as (Hst1&T1&R1&J1).
  apply wp_bind, (wp_call b); [done| |intros -> s2 Hs2; by apply wp_give_up|intros _; by apply stage_good].
  intros s2 Hs2. cbn [negb files]. apply wp_bind, (wp_rename_temp b) with (content := desired); simpl;
    [done|rewrite (frame_temps _ _ _ (proj1 Hw1)) by done; done| |intros -> s3 Hs3; by apply wp_give_up|intros _; by apply stage_good].
  intros w3 Hs3 Hw3. destruct (stage_target _ _ _ Hw3 Hst1 J1) as (Hst3&T3&J3).
  apply wp_bind, (wp_syncDir b); [done| |intros -> s4 Hs4; by apply wp_roll_back|intros _; by apply stage_good].
  intros s4 Hs4. cbn [negb].
  apply wp_bind, (wp_readRegular b); simpl; [done|apply Hst3|congruence| | |intros _; by apply stage_good].
  2:{ intros s5 [[(c&Hc&Hl) _]|[-> Hs5]]; [|by apply wp_roll_back]. rewrite T3 in Hc. injection Hc as <-. lia. }
  intros c s5 Hc _ Hs5. rewrite T3 in Hc. injection Hc as <-. rewrite bool_decide_true by done. cbn [negb].
  assert (∀ fs', same (fresh (files w3)) (files w3) fs' ∨ wrote (fresh (files w3)) ReceiptPath (Some dr) (files w3) fs' → stage_state fs') as Hg2.
  { intros fs' [Hw|Hw]; [by eapply stage_same|by eapply stage_receipt]. }
  apply wp_bind, (wp_writeAtomic b); simpl; [done| |intros -> w' Hs' Hw'; apply wp_roll_back; auto|intros _ fs' Hw'; apply stage_good; auto].
  intros w6 Hs6 Hw6. destruct (stage_receipt _ _ _ Hw6 Hst3 T3 J3) as (Hst6&T6&_&R6). by apply wp_commit_tail.
Qed.
(** ** Publish *)

(** The previous content is kept before the target is touched. *)
Lemma wp_backup b w st c r : sched b (schedule w) → cur = Some (c, r) → owned cur (files w) →
  temps (files w) !! st = Some desired → (st < fresh (files w))%nat →
  wp (backup c) w (λ res w', match res.1 with
      | Ok _ => sched b (schedule w') ∧ stage_state (files w') ∧ target (files w') = fst <$> cur ∧ receipt (files w') = snd <$> cur ∧
                temps (files w') !! st = Some desired ∧ (st < fresh (files w'))%nat
      | Err _ => b = true ∧ all_ok (schedule w') ∧ good (files w')
      end) good.
Proof using Hcur Hnew.
  intros Hs Hc Ho Ht Hlt. unfold backup. pose proof (owned_good _ Ho) as Hg.
  apply wp_bind, (wp_stage b); [done| |intros -> s1 Hs1; by apply wp_ret|done].
  intros w1 Hs1 Hw1 Ht1 Hf1. pose proof (good_same _ _ _ Hw1 Hg) as Hg1. apply wp_bind, (wp_rename_temp b) with (content := c); [done|done| |intros -> s2 Hs2; by apply wp_ret|done].
  intros w2 Hs2 Hw2. pose proof (same_wrote _ _ _ _ _ _ Hw1 Hw2) as Hw. destruct (wrote_read _ _ _ _ _ Hw) as (HT&HR&HP&HJ).
  simpl in *. destruct (id Ho) as [P J T R _]. pose proof (frame_private _ _ _ (proj1 Hw) P) as P2.
  assert (good (files w2)) as Hg2 by (apply good_intro; [done|left; congruence|left; split; congruence]).
  apply wp_bind, (wp_syncDir b); [done| |intros -> s3 Hs3; by apply wp_ret|done]. intros s3 Hs3. apply wp_ret. simpl.
  split_and!; [done| |congruence|congruence| |].
  - split; [done|left; congruence| |left; split; congruence]. intros c' r' Hc'. congruence.
  - by rewrite (frame_temps _ _ _ (proj1 Hw)) by done.
  - pose proof (frame_fresh _ _ _ (proj1 Hw)). lia.
Qed.
End attempt.
Section publish.
Context (a : Validated) (dr : string).
Context (Ha : made_validated a) (Hdr : ProtectedReceipt a = Some dr).
Context (Hsize : slen (content (candidate a)) ≤ target_limit) (Hrsize : slen dr ≤ metadata_limit).
#[local] Notation desired := (content (candidate a)).

(** The artifact in force has the content of the candidate and a receipt
    of another profile. *)
Definition foreign (cur : option (string * string)) : Prop :=
  ∃ rc p, cur = Some (desired, rc) ∧ MatchesProtectedReceipt desired rc = Some p ∧ p ≠ profile (candidate a).

(** What an attempt leaves: the old or the new artifact; after a success
    the new one, at rest. *)
Definition attempted (cur : option (string * string)) (b : bool) (r : result Failure bool) (w : world) : Prop :=
  sched b (schedule w) ∧ good cur desired (files w) ∧
  (∀ changed, r = Ok changed → changed = bool_decide (fst <$> cur ≠ Some desired) ∧
    ∃ rc, MatchesProtectedReceipt desired rc = Some (profile (candidate a)) ∧ owned (Some (desired, rc)) (files w)) ∧
  (b = false → match r with
     | Ok _ => ¬ foreign cur
     | Err e => e = ownershipError "receipt_mismatch" ∧ foreign cur ∧ owned cur (files w)
     end).

Lemma post_attempted cur b r w : fst <$> cur ≠ Some desired → post cur desired dr b r w → attempted cur b r w.
Proof using Ha Hdr.
  intros Hne (Hs&Hg&Ho&Hr). split_and!; [done|done| |].
  - intros x Hx. destruct (Ho x Hx) as [-> ?]. rewrite bool_decide_true by done. split; [done|]. exists dr.
    split; [by apply receipt_matches|done].
  - intros Hb. rewrite (Hr Hb). intros (rc&p&->&_). by apply Hne.
Qed.
Lemma attempted_same cur n b r w w' : same n (files w) (files w') → sched b (schedule w') → attempted cur b r w → attempted cur b r w'.
Proof.
  intros Hs Hb (_&Hg&Ho&Hr). split_and!; [done|by eapply good_same| |].
  - intros x Hx. destruct (Ho x Hx) as (->&rc&?&?). split; [done|]. exists rc. split; [done|]. by eapply owned_same.
  - intros Hf. specialize (Hr Hf). destruct r; [done|]. destruct Hr as (?&?&?). split_and!; [done|done|]. by eapply owned_same.
Qed.
Lemma attempted_err cur e w : all_ok (schedule w) → good cur desired (files w) → attempted cur true (Err e) w.
Proof. intros Hs Hg. split_and!; [by apply (sched_clean true)|done|done|done]. Qed.

(** The deferred removals change no named file. *)
Lemma wp_deferred cur b n r w : attempted cur b r w →
  wp (_ ← remove_temp n; mret r) w (attempted cur b) (good cur desired).
Proof.
  intros Hp. apply wp_bind, (wp_remove_temp b); [apply Hp| |intros _; apply Hp].
  intros _ w' Hs' Hw'. apply wp_ret. by eapply attempted_same.
Qed.

Lemma new_authentic : authentic desired dr.
Proof using Ha Hdr Hsize Hrsize. split; [|done|done]. rewrite (receipt_matches a dr Ha Hdr). by eexists. Qed.
Lemma rest_err cur e w : all_ok (schedule w) → owned cur (files w) → attempted cur true (Err e) w.
Proof using Ha Hdr Hsize Hrsize.
  intros Hs Ho. apply attempted_err; [done|]. eapply owned_good; [apply Ho|apply new_authentic|done].
Qed.
Lemma rest_good cur fs : owned cur fs → good cur desired fs.
Proof using Ha Hdr Hsize Hrsize. intros Ho. eapply owned_good; [apply Ho|apply new_authentic|done]. Qed.

(** The first publication to an absent target. *)
Lemma wp_publish_create b w : sched b (schedule w) → owned None (files w) →
  wp (st ← stage desired;
      match st with
      | None => mret (Err (publicationError "stage"))
      | Some n => r ← commit false "" desired dr n (call (λ fs, fs)); _ ← remove_temp n; mret r
      end) w (attempted None b) (good None desired).
Proof using Ha Hdr Hsize Hrsize.
  intros Hs Ho. apply wp_bind, (wp_stage b); [done| |intros -> s1 Hs1; by apply wp_ret, rest_err|intros _; by apply rest_good].
  intros w1 Hs1 Hw1 Ht1 Hf1. pose proof (owned_same _ _ _ _ Hw1 Ho) as [P J T R A].
  apply wp_bind, (wp_mono _ _ (attempted None b) _ (good None desired)); [intros r w2 H2; by apply wp_deferred|done|].
  eapply wp_mono; [|done|apply (wp_commit None desired dr A new_authentic b w1 _ ""); try done].
  - intros r w2. by apply post_attempted.
  - split; [done|by left|done|by left].
Qed.

(** The replacement of an owned target. *)
Lemma wp_publish_replace b w c rc : sched b (schedule w) → owned (Some (c, rc)) (files w) → c ≠ desired →
  wp (st ← stage desired;
      match st with
      | None => mret (Err (publicationError "stage"))
      | Some n =>
          '(b, bn) ← backup c;
          r ← (match b with Err e => mret (Err e) | Ok _ => commit true rc desired dr n (call (λ fs, fs)) end);
          _ ← remove_staged bn;
          _ ← remove_temp n;
          mret r
      end) w (attempted (Some (c, rc)) b) (good (Some (c, rc)) desired).
Proof using Ha Hdr Hsize Hrsize.
  intros Hs Ho Hne. pose proof (owned_authentic _ _ Ho) as A.
  apply wp_bind, (wp_stage b); [done| |intros -> s1 Hs1; by apply wp_ret, rest_err|intros _; by apply rest_good].
  intros w1 Hs1 Hw1 Ht1 Hf1. pose proof (owned_same _ _ _ _ Hw1 Ho) as Ho1. apply wp_bind.
  eapply wp_mono; [|done|by eapply (wp_backup (Some (c, rc)) desired dr A new_authentic b w1 _ c rc); eauto].
  intros [res bn] w2 H2. simpl in H2.
  apply wp_bind, (wp_mono _ _ (attempted (Some (c, rc)) b) _ (good (Some (c, rc)) desired)); [|done|].
  - intros r w3 H3. apply wp_bind. destruct bn as [m|]; simpl; [|by apply wp_ret, wp_deferred].
    apply (wp_remove_temp b); [apply H3| |intros _; apply H3]. intros _ w4 Hs4 Hw4. apply wp_deferred. by eapply attempted_same.
  - destruct res as [[]|e]; [|destruct H2 as (->&?&?); by apply wp_ret, attempted_err]. destruct H2 as (?&?&?&?&?&?).
    eapply wp_mono; [|done|apply (wp_commit (Some (c, rc)) desired dr A new_authentic b w2 _ rc); try done; by intros ? [= <-]].
    intros r w3. apply post_attempted. simpl. congruence.
Qed.

Lemma wp_publish_recovered cur b w : sched b (schedule w) → owned cur (files w) →
  wp (publish_recovered a) w (attempted cur b) (good cur desired).
Proof using Ha Hdr Hsize Hrsize.
  intros Hs Ho. unfold publish_recovered.
  apply wp_bind, (wp_call b); [done| |intros -> s1 Hs1; by apply wp_ret, rest_err|intros _; by apply rest_good].
  intros s1 Hs1. cbn [negb].
  apply wp_bind, (wp_currentOwned b cur); [done|done| |intros -> e s2 Hs2; by apply wp_ret, rest_err|intros _; by apply rest_good].
  intros s2 Hs2. cbn [files]. rewrite Hdr. destruct cur as [[c rc]|]; [|by apply wp_publish_create].
  case_bool_decide as Hc; [|by apply wp_publish_replace]. subst c. apply wp_ret. split_and!; [done|by apply rest_good| |].
  - intros x. case_bool_decide as Hm; intros [= <-]. split; [|by exists rc].
    symmetry. apply bool_decide_eq_false_2. simpl. auto.
  - intros _. case_bool_decide as Hm; [by intros (rc'&p&[= <-]&?&?); congruence|]. split_and!; [done| |done].
    destruct (owned_authentic _ _ Ho desired rc eq_refl) as [[p Hp] _ _]. exists rc, p. split_and!; [done|done|congruence].
Qed.
Lemma wp_Publish cur b w : sched b (schedule w) → owned cur (files w) →
  wp (Publish a) w (attempted cur b) (good cur desired).
Proof using Ha Hdr Hsize Hrsize.
  intros Hs Ho. unfold Publish.
  apply wp_bind, (wp_validateDirectory b); [done|apply Ho| |intros -> e s1 Hs1; by apply wp_ret, rest_err|intros _; by apply rest_good].
  intros s1 Hs1. apply wp_bind, (wp_recover_owned b cur); [done|done| |intros -> e s2 Hs2; by apply wp_ret, rest_err|intros _; by apply rest_good].
  intros w2 Hs2 Ho2. by apply wp_publish_recovered.
Qed.

(** Without a fault the attempt goes by the artifact in force. *)
Lemma wp_Publish_clean fs : recoverable fs →
  wp (Publish a) {| files := fs; schedule := [] |} (λ r w', fst <$> in_force fs = target fs ∧ attempted (in_force fs) false r w') (λ _, False).
Proof using Ha Hdr Hsize Hrsize.
  intros Hr. unfold Publish. apply wp_bind, (wp_validateDirectory false); [constructor|apply Hr| |done|done].
  intros s1 Hs1. apply wp_bind, wp_recover_clean; [done|done|]. intros w2 Hs2 Ho2 Ht. simpl in *.
  pose proof (wp_publish_recovered _ false w2 Hs2 Ho2) as Hp. unfold wp in *.
  destruct (returns_publish_recovered a w2 Hs2) as (r&w'&Hrun&_). by rewrite Hrun in *.
Qed.

(** C3: From the state at rest, a publication attempt in which one file operation fails or the process dies at any
    point leaves the target with exactly its old or exactly its new content and with the receipt of that content in
    its place or in the journal; a reported success means the new content is in place with its receipt and no
    journal, and [Changed] is reported exactly when the content was different. *)
Theorem publish_crash_safe cur fs s : one_fault s → owned cur fs →
  match Publish a {| files := fs; schedule := s |} with
  | Crashed fs' => recoverable fs' ∧ (target fs' = fst <$> cur ∨ target fs' = Some desired)
  | Done r w' => recoverable (files w') ∧ (target (files w') = fst <$> cur ∨ target (files w') = Some desired) ∧
      ∀ changed, r = Ok changed → changed = bool_decide (fst <$> cur ≠ Some desired) ∧ ∃ rc, owned (Some (desired, rc)) (files w')
  end.
Proof using Ha Hdr Hsize Hrsize.
  intros Hs Ho. pose proof (wp_Publish cur true {| files := fs; schedule := s |} Hs Ho) as Hp. unfold wp in Hp.
  destruct (Publish a _) as [r w'|fs']; [|exact Hp]. destruct Hp as (_&[Hg1 Hg2]&Hok&_). split_and!; [done|done|].
  intros x Hx. destruct (Hok x Hx) as (?&rc&_&?). eauto.
Qed.

(** C8: From every state a faulty attempt can leave, a publication in which nothing fails decides by the artifact then
    in force and its receipt, the one in the journal included. It is refused exactly when that artifact is the new
    content under a receipt of another profile, and then it leaves it in force at rest; otherwise it recovers and
    succeeds, reports a change exactly when the content differs, and leaves the new content at rest under a receipt
    of its own profile. *)
Theorem publish_recovers fs : recoverable fs → ∃ r w',
  Publish a {| files := fs; schedule := [] |} = Done r w' ∧
  (foreign (in_force fs) → r = Err (ownershipError "receipt_mismatch") ∧ owned (in_force fs) (files w')) ∧
  (¬ foreign (in_force fs) → r = Ok (bool_decide (target fs ≠ Some desired)) ∧
     ∃ rc, MatchesProtectedReceipt desired rc = Some (profile (candidate a)) ∧ owned (Some (desired, rc)) (files w')).
Proof using Ha Hdr Hsize Hrsize.
  intros Hr. pose proof (wp_Publish_clean fs Hr) as Hw. unfold wp in Hw. destruct (Publish a _) as [r w'|]; [|done].
  destruct Hw as (Ht&_&_&Hok&Herr). exists r, w'. split; [done|]. specialize (Herr eq_refl). destruct r as [x|e].
  - split; [done|]. intros _. destruct (Hok x eq_refl) as (->&?). by rewrite <-Ht.
  - destruct Herr as (->&?&?). done.
Qed.
End publish.
Lemma authentic_restores c r : authentic c r → is_Some (RestoreReceipt r).
Proof.
  intros [[p Hm] _ _]. unfold MatchesProtectedReceipt in Hm. unfold RestoreReceipt.
  destruct (unmarshal r) as [d|]; [|done]. csimpl in *. destruct (_ || _); [done|].
  apply bind_Some in Hm as (x&Hx&_). rewrite (NewCandidate_other (rd_profile d) c) by (try done; by eexists). by eexists.
Qed.

(** After any faulty attempt a restart that reads the current receipt without a further fault succeeds: it reports
    a receipt exactly when a target exists, leaves the target as it is, and brings the publisher to rest. *)
Theorem current_receipt_recovers fs : recoverable fs → ∃ r w' cur,
  CurrentReceipt {| files := fs; schedule := [] |} = Done (Ok r) w' ∧ owned cur (files w') ∧
  target (files w') = target fs ∧ (is_Some r ↔ is_Some (target fs)).
Proof.
  intros Hr.
  assert (wp CurrentReceipt {| files := fs; schedule := [] |} (λ res w', ∃ r cur, res = Ok r ∧ owned cur (files w') ∧
    target (files w') = target fs ∧ (is_Some r ↔ is_Some (target fs))) (λ _, False)) as Hw.
  2:{ unfold wp in Hw. destruct (CurrentReceipt _) as [res w'|]; [|done]. destruct Hw as (r&cur&->&?). eauto. }
  unfold CurrentReceipt. apply wp_bind, (wp_validateDirectory false); [constructor|apply Hr| |done|done].
  intros s1 Hs1. apply wp_bind, wp_recover_clean; [done|done|]. intros w2 Hs2 Ho2 Ht. simpl in *.
  set (cur := in_force fs) in *. apply wp_bind, (wp_currentOwned false cur); [done|done| |done|done]. intros s3 Hs3. apply wp_ret. cbn [files].
  assert (target (files w2) = target fs) as Htt by (rewrite <-Ht; apply Ho2).
  destruct cur as [[c r]|]; simpl in Ht; rewrite <-Ht.
  - destruct (authentic_restores c r) as [rr Hrr]; [by apply (owned_authentic _ _ Ho2)|]. rewrite Hrr.
    exists (Some rr), (Some (c, r)). split_and!; [done|done|congruence|]. split; by eexists.
  - exists None, None. split_and!; [done|done|congruence|done].
Qed.

(** ** Where it does not recover *)

(** When the target carries a receipt that does not match it and no journal is left, no publication succeeds again:
    every fault-free attempt, whatever the artifact, is refused with receipt_mismatch and changes nothing. *)
Theorem mismatch_is_permanent a fs c r : private fs → journal fs = None → target fs = Some c → receipt fs = Some r →
  MatchesProtectedReceipt c r = None → slen c ≤ target_limit → slen r ≤ metadata_limit → ∃ w',
  Publish a {| files := fs; schedule := [] |} = Done (Err (ownershipError "receipt_mismatch")) w' ∧
  ∀ q, read_path q (files w') = read_path q fs.
Proof.
  intros P J T R Hm Hc Hr.
  assert (wp (Publish a) {| files := fs; schedule := [] |} (λ res w', res = Err (ownershipError "receipt_mismatch") ∧
    ∀ q, read_path q (files w') = read_path q fs) (λ _, False)) as Hw.
  2:{ unfold wp in Hw. destruct (Publish a _) as [res w'|]; [|done]. destruct Hw as [-> ?]. eauto. }
  unfold Publish. apply wp_bind, (wp_validateDirectory false); [constructor|done| |done|done]. intros s1 Hs1.
  unfold recover. apply wp_bind, wp_bind, (wp_readRegular false); simpl; [done|done| |congruence| |done].
  2:{ intros s2 [[(j&?&_) _]|[? _]]; congruence. }
  intros s2 Hs2 _. apply (wp_cleanupTemps false); [done| |done|done]. intros w3 Hs3 Hw3.
  destruct (same_read _ _ _ Hw3) as (HT&HR&_&_). simpl in *. pose proof (frame_private _ _ _ (proj1 Hw3) P) as P3.
  unfold publish_recovered. apply wp_bind, (wp_call false); [done| |done|done]. intros s4 Hs4. cbn [negb].
  unfold currentOwned. apply wp_bind, wp_bind, (wp_readRegular false); simpl; [done|done|congruence| | |done].
  2:{ intros s5 [[(c'&?&?) _]|[? _]]; [|done]. assert (c' = c) as -> by congruence. lia. }
  intros c' s5 Hc' _ Hs5. assert (c' = c) as -> by congruence.
  apply wp_bind, (wp_readRegular false); simpl; [done|done|congruence| | |done].
  2:{ intros s6 [[(r'&?&?) _]|[? _]]; [|done]. assert (r' = r) as -> by congruence. lia. }
  intros r' s6 Hr' _ Hs6. assert (r' = r) as -> by congruence. apply wp_ret. rewrite Hm, bool_decide_false by (by intros [? ?]).
  apply wp_ret. split; [done|]. apply Hw3.
Qed.

(** A recovery whose read of the target fails once drops the journal without writing the receipt: from the state a
    crash between the target and the receipt leaves, the recovery reports success and the new target keeps the old
    receipt, which is the permanent mismatch. *)
Theorem recovery_read_fault_drops_journal fs c r j : private fs → journal fs = Some j → target fs = Some c → receipt fs = Some r →
  slen j ≤ metadata_limit → ∃ w',
  recover {| files := fs; schedule := [EvOk; EvOk; EvFail] |} = Done (Ok ()) w' ∧
  journal (files w') = None ∧ target (files w') = Some c ∧ receipt (files w') = Some r.
Proof.
  intros P J T R Hj. unfold recover, readRegular, mbind, M_bind, call, get, mret, M_ret. simpl. rewrite J.
  destruct (proj2 P JournalPath) as [-> _]; [simpl; by rewrite J|]. simpl.
  replace (metadata_limit <? slen j) with false by lia. simpl. eauto.
Qed.
End safety.

(** ** A concrete publication *)

Module PublishSample.
Definition absent : FS :=
  {| target := None; receipt := None; previous := None; journal := None; modes := λ _, private_mode;
     directory := Some {| mtype := Directory; perm := 448 |}; temps := ∅; fresh := 0 |}.
Definition dr : string := Eval vm_compute in default "" (@ProtectedReceipt toy_codec ArtifactSample.validated).
Lemma dr_receipt : @ProtectedReceipt toy_codec ArtifactSample.validated = Some dr.
Proof. vm_compute. reflexivity. Qed.
Lemma dr_short : slen dr ≤ metadata_limit.
Proof. vm_compute. discriminate. Qed.
Lemma content_short : slen (content (candidate ArtifactSample.validated)) ≤ target_limit.
Proof. vm_compute. discriminate. Qed.
Lemma absent_private : private absent.
Proof. split; [by eexists|]. by intros []. Qed.
Lemma absent_owned : @owned toy_digest toy_codec None absent.
Proof. split; try done. apply absent_private. Qed.
(** The receipt write fails: a rollback. *)
Definition faulty : list event := repeat EvOk 20 ++ [EvFail].
Lemma faulty_one : one_fault faulty.
Proof. repeat constructor. Qed.
(** A crash after the target was replaced, before the receipt was. *)
Definition crashed : FS :=
  {| target := Some "proxies: []"; receipt := Some "stale"; previous := None; journal := Some dr; modes := λ _, private_mode;
     directory := Some {| mtype := Directory; perm := 448 |}; temps := ∅; fresh := 0 |}.
Lemma crashed_private : private crashed.
Proof. split; [by eexists|]. by intros []. Qed.
Lemma crashed_recoverable : @recoverable toy_digest toy_codec crashed.
Proof.
  split; [apply crashed_private|intros j [= <-]; apply dr_short|]. exists dr. split; [|by right].
  split; [|apply content_short|apply dr_short]. eexists. vm_compute. reflexivity.
Qed.
Lemma crashed_own : ¬ @foreign toy_digest toy_codec ArtifactSample.validated (@in_force toy_digest toy_codec crashed).
Proof.
  intros (rc&p&E&Hm&Hp). assert (@in_force toy_digest toy_codec crashed = Some ("proxies: []", dr)) as F by (vm_compute; reflexivity).
  rewrite F in E. injection E as <-. assert (@MatchesProtectedReceipt toy_digest toy_codec "proxies: []" dr = Some Mihomo11931) as G
    by (vm_compute; reflexivity). simpl in *. congruence.
Qed.
(** A crash with the journal written and the old artifact still in place. *)
Definition old : Candidate := {| profile := Mihomo11931; content := "proxies: [a]" |}.
Definition dr_of (c : Candidate) : string :=
  default "" (@ProtectedReceipt toy_codec {| candidate := c; vgeneration := @generation toy_digest c; validatorID := "engine" |}).
Definition dr_old : string := Eval vm_compute in dr_of old.
Definition replacing : FS :=
  {| target := Some "proxies: [a]"; receipt := Some dr_old; previous := Some "proxies: [a]"; journal := Some dr; modes := λ _, private_mode;
     directory := Some {| mtype := Directory; perm := 448 |}; temps := {[ 0%nat := "proxies: []" ]}; fresh := 1 |}.
Lemma replacing_recoverable : @recoverable toy_digest toy_codec replacing.
Proof.
  split; [split; [by eexists|by intros []]|intros j [= <-]; apply dr_short|]. exists dr_old. split; [|by left].
  split; [eexists; vm_compute; reflexivity|vm_compute; discriminate..].
Qed.
Lemma replacing_own : ¬ @foreign toy_digest toy_codec ArtifactSample.validated (@in_force toy_digest toy_codec replacing).
Proof.
  intros (rc&p&E&_). assert (@in_force toy_digest toy_codec replacing = Some ("proxies: [a]", dr_old)) as F by (vm_compute; reflexivity).
  rewrite F in E. apply (f_equal (fmap fst)) in E. clear F. cbn [fmap option_fmap option_map fst] in E. by injection E.
Qed.
(** The same content under the receipt of another engine. *)
Definition dr_other : string := Eval vm_compute in dr_of {| profile := SingBox1141; content := "proxies: []" |}.
Definition other : FS :=
  {| target := Some "proxies: []"; receipt := Some dr_other; previous := None; journal := None; modes := λ _, private_mode;
     directory := Some {| mtype := Directory; perm := 448 |}; temps := ∅; fresh := 0 |}.
Lemma other_recoverable : @recoverable toy_digest toy_codec other.
Proof.
  split; [split; [by eexists|by intros []]|done|]. exists dr_other. split; [|by left].
  split; [eexists; vm_compute; reflexivity|vm_compute; discriminate..].
Qed.
Lemma other_in_force : @in_force toy_digest toy_codec other = Some ("proxies: []", dr_other).
Proof. reflexivity. Qed.
Lemma other_foreign : @foreign toy_digest toy_codec ArtifactSample.validated (@in_force toy_digest toy_codec other).
Proof. rewrite other_in_force. exists dr_other, SingBox1141. split_and!; [done|vm_compute; reflexivity|done]. Qed.
Definition stuck : FS :=
  {| target := Some "proxies: []"; receipt := Some "stale"; previous := None; journal := None; modes := λ _, private_mode;
     directory := Some {| mtype := Directory; perm := 448 |}; temps := ∅; fresh := 0 |}.
Lemma stuck_private : private stuck.
Proof. split; [by eexists|]. by intros []. Qed.
End PublishSample.

Lemma publish_crash_safe_witness :
  match @Publish toy_digest toy_codec ArtifactSample.validated {| files := PublishSample.absent; schedule := PublishSample.faulty |} with
  | Crashed fs' => @recoverable toy_digest toy_codec fs' ∧ (target fs' = None ∨ target fs' = Some "proxies: []")
  | Done r w' => @recoverable toy_digest toy_codec (files w') ∧ (target (files w') = None ∨ target (files w') = Some "proxies: []") ∧
      ∀ changed, r = Ok changed → changed = bool_decide (None ≠ Some "proxies: []") ∧
        ∃ rc, @owned toy_digest toy_codec (Some ("proxies: []", rc)) (files w')
  end.
Proof.
  apply (@publish_crash_safe toy_digest toy_codec ArtifactSample.validated PublishSample.dr ArtifactSample.validated_made
    PublishSample.dr_receipt PublishSample.content_short PublishSample.dr_short None);
    [apply PublishSample.faulty_one|apply PublishSample.absent_owned].
Defined.

Lemma publish_recovers_witness :
  let run fs := @Publish toy_digest toy_codec ArtifactSample.validated {| files := fs; schedule := [] |} in
  (∃ w' rc, run PublishSample.replacing = Done (Ok true) w' ∧ @owned toy_digest toy_codec (Some ("proxies: []", rc)) (files w')) ∧
  (∃ w' rc, run PublishSample.crashed = Done (Ok false) w' ∧ @owned toy_digest toy_codec (Some ("proxies: []", rc)) (files w')) ∧
  (∃ w', run PublishSample.other = Done (Err (ownershipError "receipt_mismatch")) w' ∧
         @owned toy_digest toy_codec (Some ("proxies: []", PublishSample.dr_other)) (files w')).
Proof.
  pose proof (@publish_recovers toy_digest toy_codec ArtifactSample.validated PublishSample.dr ArtifactSample.validated_made
    PublishSample.dr_receipt PublishSample.content_short PublishSample.dr_short) as H. split_and!.
  - destruct (H PublishSample.replacing PublishSample.replacing_recoverable) as (r&w'&Hrun&_&Hok).
    destruct (Hok PublishSample.replacing_own) as (->&rc&_&Ho). exists w', rc. split; [|exact Ho].
    rewrite Hrun. f_equal.
  - destruct (H PublishSample.crashed PublishSample.crashed_recoverable) as (r&w'&Hrun&_&Hok).
    destruct (Hok PublishSample.crashed_own) as (->&rc&_&Ho). exists w', rc. split; [|exact Ho].
    rewrite Hrun. f_equal.
  - destruct (H PublishSample.other PublishSample.other_recoverable) as (r&w'&Hrun&Herr&_).
    destruct (Herr PublishSample.other_foreign) as (->&Ho). rewrite PublishSample.other_in_force in Ho. eauto.
Defined.

Lemma current_receipt_recovers_witness : ∃ r w' cur,
  @CurrentReceipt toy_digest toy_codec {| files := PublishSample.crashed; schedule := [] |} = Done (Ok r) w' ∧
  @owned toy_digest toy_codec cur (files w') ∧ target (files w') = Some "proxies: []" ∧ (is_Some r ↔ is_Some (Some "proxies: []")).
Proof. apply (@current_receipt_recovers toy_digest toy_codec PublishSample.crashed), PublishSample.crashed_recoverable. Defined.

Lemma mismatch_is_permanent_witness : ∃ w',
  @Publish toy_digest toy_codec ArtifactSample.validated {| files := PublishSample.stuck; schedule := [] |} =
    Done (Err (ownershipError "receipt_mismatch")) w' ∧ ∀ q, read_path q (files w') = read_path q PublishSample.stuck.
Proof.
  apply (@mismatch_is_permanent toy_digest toy_codec ArtifactSample.validated PublishSample.stuck "proxies: []" "stale"
    PublishSample.stuck_private); try reflexivity; vm_compute; discriminate.
Defined.

Lemma recovery_read_fault_drops_journal_witness : ∃ w',
  @recover toy_digest toy_codec {| files := PublishSample.crashed; schedule := [EvOk; EvOk; EvFail] |} = Done (Ok ()) w' ∧
  journal (files w') = None ∧ target (files w') = Some "proxies: []" ∧ receipt (files w') = Some "stale".
Proof.
  apply (@recovery_read_fault_drops_journal toy_digest toy_codec PublishSample.crashed "proxies: []" "stale" PublishSample.dr
    PublishSample.crashed_private); try reflexivity. apply PublishSample.dr_short.
Defined.
