(* ===== verification/Engine.v ===== *)
(** * Engine capabilities and gateway policy (internal/engine/renderer.go, internal/policy/gateway.go)

    [AssessEndpoint] decides which connections an exact engine build can
    carry; [CheckEndpoint] is the gate the renderers and the prober use.
    [AssignNames] gives every record of an inventory its outbound name.  The
    gateway policy pairs an inventory with a SOCKS listener. *)
From S2P Require Import Prelude Order Bytes Encoding Netip Endpoint Configuration Identity Provenance Inventory Artifact.
From Stdlib Require Import Ascii.
From Stdlib Require String.
Import Configuration.

(** ** Capabilities *)

Inductive BuildSupport := BuildUnverified | BuildAvailable | BuildUnavailable.
#[global] Instance BuildSupport_eq_dec : EqDecision BuildSupport.
Proof. solve_decision. Defined.
Record Assessment := { Build : BuildSupport; Implemented : bool; Field_ : string; Feature : string }.
Record CapabilityError := { ce_profile : Profile; ce_field : string; ce_feature : string }.
Inductive engine_error := EInvalid (e : ValidationError) | ECapability (e : CapabilityError).

Definition Validate (c : Configuration) : checked unit :=
  if negb (valid c) then Err (invalid "configuration" "contains invalid connection semantics") else Ok ().

Definition supported : Assessment := {| Build := BuildAvailable; Implemented := true; Field_ := ""; Feature := "" |}.
Definition not_implemented (field feature : string) : Assessment :=
  {| Build := BuildAvailable; Implemented := false; Field_ := field; Feature := feature |}.

(** The part of [AssessEndpoint] past the protocol and Reality cases. *)
Definition assess_transport (p : Profile) (c : Configuration) : Assessment :=
  let k := Transport.kind (transport c) in
  match k with
  | Transport.TransportTCP | Transport.TransportWebSocket => supported
  | Transport.TransportHTTP2 | Transport.TransportGRPC | Transport.TransportHTTPUpgrade =>
      if bool_decide (protocol c ≠ ProtocolVLESS) || negb (Security.enabled (tls c))
      then not_implemented "endpoint.transport" (Transport.kind_String k) else supported
  | Transport.TransportXHTTP =>
      if bool_decide (p = SingBox1141)
      then {| Build := BuildUnavailable; Implemented := false; Field_ := "endpoint.transport"; Feature := "xhttp" |}
      else if bool_decide (protocol c ≠ ProtocolVLESS) || negb (Security.enabled (tls c))
      then not_implemented "endpoint.transport" "xhttp_protocol" else supported
  | _ => {| Build := BuildUnverified; Implemented := false; Field_ := "endpoint.transport"; Feature := Transport.kind_String k |}
  end.
Definition direct_vless (c : Configuration) : bool :=
  bool_decide (protocol c = ProtocolVLESS) && bool_decide (Transport.kind (transport c) = Transport.TransportTCP).

Definition AssessEndpoint (p : Profile) (c : Configuration) : checked Assessment :=
  _ ← Validate c;
  let s := SecurityOptions_ c in
  Ok (if bool_decide (p ≠ Mihomo11931) && bool_decide (p ≠ SingBox1141)
      then {| Build := BuildUnverified; Implemented := false; Field_ := "engine.profile"; Feature := "unqualified_profile" |}
      else if bool_decide (protocol c = ProtocolHysteria2)
      then if bool_decide (Security.fingerprint s ≠ "") then not_implemented "endpoint.security" "hysteria2_client_fingerprint" else supported
      else if bool_decide (Security.reality s ≠ None)
      then if direct_vless c && bool_decide (Flow c = Security.FlowVision) then supported
           else not_implemented "endpoint.security" "reality_transport"
      else if bool_decide (Flow c ≠ Security.FlowNone) then not_implemented "endpoint.flow" "vision"
      else if bool_decide (Security.fingerprint s ≠ "") && negb (direct_vless c)
      then not_implemented "endpoint.security" "client_fingerprint"
      else if bool_decide (Security.alpn s ≠ []) && negb (direct_vless c)
      then not_implemented "endpoint.security" "alpn"
      else assess_transport p c).

Definition CheckEndpoint (p : Profile) (c : Configuration) : result engine_error unit :=
  match AssessEndpoint p c with
  | Err e => Err (EInvalid e)
  | Ok a =>
      if Implemented a && bool_decide (Build a = BuildAvailable) then Ok ()
      else Err (ECapability {| ce_profile := p; ce_field := Field_ a; ce_feature := Feature a |})
  end.

(** ** Outbound names *)

(** [%03d] *)
Definition pad3 (n : nat) : string :=
  let s := itoa (Z.of_nat n) in of_chars (replicate (3 - String.length s) "0"%char) +:+ s.
Record NamedRecord := { nr_name : string; nr_record : Record_ }.

Section naming.
Context `{Digest}.

Definition record_id (r : Record_) : string := id (record_identity r).
Definition name_of (i : string) (n : nat) : string := "egressfox-" +:+ i +:+ "-" +:+ pad3 n.
(** The loop of [AssignNames], with the counts of the records before. *)
Fixpoint assign_names (counts : gmap string nat) (rs : list Record_) : list NamedRecord :=
  match rs with
  | [] => []
  | r :: rs =>
      let i := record_id r in
      let n := S (default 0 (counts !! i)) in
      {| nr_name := name_of i n; nr_record := r |} :: assign_names (<[i := n]> counts) rs
  end.
Definition AssignNames (inventory : list Record_) : list NamedRecord := assign_names ∅ inventory.
End naming.

(** ** Gateway policy *)

Inductive listenerMode := listenerNone | listenerLoopback | listenerManaged.
#[global] Instance listenerMode_eq_dec : EqDecision listenerMode.
Proof. solve_decision. Defined.
(** [None] is the invalid zero address. *)
Record Listener := { laddress : option ipaddr; lport : Z; lmode : listenerMode; user : string; pass : string }.

(** [netip.Addr.IsLoopback] and [IsUnspecified]; a 4-in-6 address is
    unmapped for the former. *)
Definition IsLoopback (a : ipaddr) : bool :=
  match a with
  | IPv4 v => (v / 16777216 =? 127)%Z
  | IPv6 v _ => if is4_in6 v then ((v `mod` 4294967296) / 16777216 =? 127)%Z else (v =? 1)%Z
  end.
Definition IsUnspecified (a : ipaddr) : bool :=
  match a with IPv4 v => (v =? 0)%Z | IPv6 v z => (v =? 0)%Z && bool_decide (z = "") end.

Definition NewSOCKSListener (address : string) (port : Z) : checked Listener :=
  match parse_addr address with
  | Some a =>
      if negb (IsLoopback a) || bool_decide (addr_zone a ≠ "")
      then Err (invalid "listener.address" "must be a loopback IP address")
      else if (port <? 1)%Z || (65535 <? port)%Z then Err (invalid "listener.port" "must be between 1 and 65535")
      else Ok {| laddress := Some a; lport := port; lmode := listenerLoopback; user := ""; pass := "" |}
  | None => Err (invalid "listener.address" "must be a loopback IP address")
  end.

Definition credential_char (c : ascii) : bool := is_alnum c || char_elem c "-_.~".
Definition safeCredential (value : string) (minimum maximum : Z) : bool :=
  negb (slen value <? minimum)%Z && negb (maximum <? slen value)%Z && all_chars credential_char value.

Definition NewManagedSOCKSListener (port : Z) (username password : string) : checked Listener :=
  if (port <? 1)%Z || (65535 <? port)%Z then Err (invalid "listener.port" "must be between 1 and 65535")
  else if negb (safeCredential username 1 64)
  then Err (invalid "listener.authentication.username" "must be 1 to 64 safe ASCII characters")
  else if negb (safeCredential password 16 128)
  then Err (invalid "listener.authentication.password" "must be 16 to 128 safe ASCII characters")
  else Ok {| laddress := Some (IPv4 0); lport := port; lmode := listenerManaged; user := username; pass := password |}.

Definition Managed (l : Listener) : bool := bool_decide (lmode l = listenerManaged).
(** The zero [Addr] prints as "invalid IP". *)
Definition Listener_Address (l : Listener) : string :=
  match laddress l with Some a => print_addr a | None => "invalid IP" end.

Record Gateway := { inventory : list Record_; listener : Listener }.
Definition NewGateway (rs : list Record_) (l : Listener) : checked Gateway :=
  if bool_decide (rs = []) then Err (invalid "inventory" "must contain at least one admitted endpoint") else
  match laddress l with
  | None => Err (invalid "listener" "must be constructed with a SOCKS listener constructor")
  | Some a =>
      if (lport l =? 0)%Z || bool_decide (lmode l = listenerNone)
      then Err (invalid "listener" "must be constructed with a SOCKS listener constructor")
      else if bool_decide (lmode l = listenerLoopback) && negb (IsLoopback a)
      then Err (invalid "listener" "BYO listener must be loopback")
      else if bool_decide (lmode l = listenerManaged) &&
              (negb (IsUnspecified a) || bool_decide (user l = "") || bool_decide (pass l = ""))
      then Err (invalid "listener" "managed listener must be authenticated on the Pod network")
      else Ok {| inventory := rs; listener := l |}
  end.

(** ** Names are distinct *)

Lemma pad3_parse n : (Z.of_nat n < 10 ^ 20)%Z → parse_digits 0 (chars (pad3 n)) = Some (Z.of_nat n).
Proof.
  intros Hn. unfold pad3. set (k := 3 - _). rewrite chars_app, chars_of_chars.
  induction k as [|k IH]; [apply itoa_parse; lia|exact IH].
Qed.

(** A text without the separator is determined by what follows the last
    one. *)
Lemma last_separator {A} (x : A) l l' p p' : x ∉ p → x ∉ p' → l ++ x :: p = l' ++ x :: p' → l = l' ∧ p = p'.
Proof.
  revert l'. induction l as [|y l IH]; intros [|y' l'] Hp Hp' E; simplify_eq/=; auto.
  - destruct Hp. apply elem_of_app. right. by left.
  - destruct Hp'. apply elem_of_app. right. by left.
  - destruct (IH l') as [-> ->]; auto.
Qed.

Lemma name_of_inj i n j m : (Z.of_nat n < 10 ^ 20)%Z → (Z.of_nat m < 10 ^ 20)%Z →
  name_of i n = name_of j m → i = j ∧ n = m.
Proof.
  intros Hn Hm E. unfold name_of in E. apply sapp_inj_len in E as [_ E]; [|done].
  pose proof (pad3_parse n Hn) as Pn. pose proof (pad3_parse m Hm) as Pm.
  assert (∀ k z, parse_digits 0 (chars (pad3 k)) = Some z → "-"%char ∉ chars (pad3 k)) as Hd.
  { intros k z Hk%parse_digits_digits Hin. rewrite Forall_forall in Hk. by apply Hk in Hin. }
  apply (f_equal chars) in E. rewrite !chars_app in E. simpl in E.
  apply last_separator in E as [E1 E2]; [|by eapply Hd..]. split; [|rewrite E2, Pm in Pn; injection Pn; lia].
  by rewrite <-(of_chars_chars i), <-(of_chars_chars j), E1.
Qed.

Section names.
Context `{Digest}.

Lemma assign_names_counts counts rs x : x ∈ assign_names counts rs →
  ∃ n, nr_name x = name_of (record_id (nr_record x)) n ∧ nr_record x ∈ rs ∧
    default 0 (counts !! record_id (nr_record x)) < n ≤ default 0 (counts !! record_id (nr_record x)) + length rs.
Proof.
  revert counts. induction rs as [|r rs IH]; intros counts; [by intros ?%not_elem_of_nil|]. simpl.
  intros [->|Hx]%elem_of_cons; simpl.
  - eexists. split; [done|]. split; [by left|]. lia.
  - destruct (IH _ Hx) as (n&Hn&Hr&Hb). exists n. split; [done|]. split; [by right|].
    destruct (decide (record_id (nr_record x) = record_id r)) as [E|E].
    + rewrite E in Hb |- *. rewrite lookup_insert_eq in Hb. simpl in Hb. lia.
    + rewrite lookup_insert_ne in Hb by done. lia.
Qed.

Lemma assign_names_nodup counts rs B : (∀ i, default 0 (counts !! i) + length rs ≤ B) → (Z.of_nat B < 10 ^ 20)%Z →
  NoDup (nr_name <$> assign_names counts rs).
Proof.
  revert counts. induction rs as [|r rs IH]; intros counts HB HB'; simpl; [constructor|]. set (i := record_id r).
  constructor.
  - rewrite list_elem_of_fmap. intros (x&Hx&Hin). destruct (assign_names_counts _ _ _ Hin) as (n&Hn&_&Hlt).
    pose proof (HB i). pose proof (HB (record_id (nr_record x))). simpl in *.
    rewrite Hn in Hx. apply name_of_inj in Hx as [Hi Hnm]; [|lia|].
    + rewrite <-Hi, lookup_insert_eq in Hlt. simpl in Hlt. lia.
    + destruct (decide (record_id (nr_record x) = i)) as [E|E].
      * rewrite E, lookup_insert_eq in Hlt. simpl in Hlt. lia.
      * rewrite lookup_insert_ne in Hlt by done. lia.
  - apply IH; [|done]. intros j. pose proof (HB i). pose proof (HB j). simpl in *. destruct (decide (j = i)) as [->|E].
    + rewrite lookup_insert_eq. simpl. lia.
    + rewrite lookup_insert_ne by done. lia.
Qed.

Lemma assign_names_records counts rs : nr_record <$> assign_names counts rs = rs.
Proof. revert counts. induction rs as [|r rs IH]; intros counts; simpl; [done|]. by rewrite IH. Qed.

Lemma AssignNames_nodup rs : (Z.of_nat (length rs) ≤ int64_max)%Z → NoDup (nr_name <$> AssignNames rs).
Proof.
  intros Hl. apply (assign_names_nodup ∅ rs (length rs)).
  - intros i. rewrite lookup_empty. simpl. lia.
  - unfold int64_max in Hl. lia.
Qed.

(** The outbound names of an inventory are pairwise distinct, also when records share a public ID, and there is
    one per record, in order. *)
Theorem names_distinct rs : (Z.of_nat (length rs) ≤ int64_max)%Z →
  NoDup (nr_name <$> AssignNames rs) ∧ nr_record <$> AssignNames rs = rs.
Proof. intros Hl. split; [by apply AssignNames_nodup|apply assign_names_records]. Qed.
End names.

(** ** Listeners *)

Lemma safeCredential_nonempty v lo hi : (1 ≤ lo)%Z → safeCredential v lo hi = true → v ≠ "".
Proof. unfold safeCredential. intros Hlo Hs ->. bool_to_prop. simpl in *. lia. Qed.

Lemma NewGateway_Ok rs l g : NewGateway rs l = Ok g → g = {| inventory := rs; listener := l |} ∧ rs ≠ [].
Proof. unfold NewGateway. intros Hg. case_bool_decide; [done|]. destruct (laddress l); [|done]. split_all_in Hg. done. Qed.

(** Whatever listener it is given, [NewGateway] accepts only a loopback address or an authenticated one: no
    gateway offers an open proxy to the network. *)
Theorem gateway_never_open rs l g : NewGateway rs l = Ok g →
  inventory g = rs ∧ listener g = l ∧ rs ≠ [] ∧ ∃ a, laddress l = Some a ∧
  ((Managed l = false ∧ IsLoopback a = true) ∨
   (Managed l = true ∧ IsUnspecified a = true ∧ user l ≠ "" ∧ pass l ≠ "")).
Proof.
  unfold NewGateway. intros Hg. case_bool_decide as Hrs; [done|]. destruct (laddress l) as [a|]; [|done].
  destruct (_ || bool_decide (lmode l = listenerNone)) eqn:E1; [done|]. destruct (_ && negb (IsLoopback a)) eqn:E2; [done|].
  destruct (_ && (_ || _ || _)) eqn:E3; [done|]. injection Hg as <-. simpl. repeat split; [done|]. exists a. split; [done|].
  unfold Managed. bool_to_prop. destruct (lmode l); [done| |]; simpl in *; [left|right].
  - by destruct (IsLoopback a).
  - bool_to_prop. auto.
Qed.

(** The listeners of the two constructors are accepted with every nonempty inventory. *)
Theorem gateway_accepts_listeners rs l : rs ≠ [] →
  (∃ addr port, NewSOCKSListener addr port = Ok l) ∨ (∃ port u p, NewManagedSOCKSListener port u p = Ok l) →
  NewGateway rs l = Ok {| inventory := rs; listener := l |}.
Proof.
  intros Hrs Hl. unfold NewGateway. rewrite bool_decide_false by done.
  destruct Hl as [(addr&port&Hl)|(port&u&p&Hl)].
  - unfold NewSOCKSListener in Hl. destruct (parse_addr addr) as [a|]; [|done]. destruct (_ || _) eqn:E; [done|].
    destruct (_ || _) eqn:E2 in Hl; [done|]. injection Hl as <-. bool_to_prop. simpl.
    replace (port =? 0)%Z with false by lia. simpl.
    by match goal with Hb : IsLoopback a = true |- _ => rewrite Hb end.
  - unfold NewManagedSOCKSListener in Hl. destruct (_ || _) eqn:E2 in Hl; [done|].
    destruct (safeCredential u 1 64) eqn:Hu; [|done]. destruct (safeCredential p 16 128) eqn:Hp; [|done].
    injection Hl as <-. bool_to_prop. simpl. replace (port =? 0)%Z with false by lia. simpl.
    apply safeCredential_nonempty in Hu, Hp; [|lia..]. by rewrite !bool_decide_false.
Qed.

Module EngineSample.
Definition record : Record_ :=
  {| configuration := Sample.vless Sample.uuid1; provenance := [] |}.
Definition listener : Listener :=
  {| laddress := Some (IPv4 2130706433); lport := 1080; lmode := listenerLoopback; user := ""; pass := "" |}.
End EngineSample.

Lemma names_distinct_witness :
  NoDup (nr_name <$> @AssignNames toy_digest [EngineSample.record; EngineSample.record]) ∧
  nr_record <$> @AssignNames toy_digest [EngineSample.record; EngineSample.record] = [EngineSample.record; EngineSample.record].
Proof. apply (@names_distinct toy_digest [EngineSample.record; EngineSample.record]). vm_compute. discriminate. Defined.

Lemma gateway_never_open_witness :
  [EngineSample.record] = [EngineSample.record] ∧ EngineSample.listener = EngineSample.listener ∧ [EngineSample.record] ≠ [] ∧
  ∃ a, laddress EngineSample.listener = Some a ∧
  ((Managed EngineSample.listener = false ∧ IsLoopback a = true) ∨
   (Managed EngineSample.listener = true ∧ IsUnspecified a = true ∧ user EngineSample.listener ≠ "" ∧ pass EngineSample.listener ≠ "")).
Proof.
  apply (gateway_never_open [EngineSample.record] EngineSample.listener
    {| inventory := [EngineSample.record]; listener := EngineSample.listener |}). reflexivity.
Defined.

Lemma gateway_accepts_listeners_witness :
  NewGateway [EngineSample.record] EngineSample.listener =
    Ok {| inventory := [EngineSample.record]; listener := EngineSample.listener |}.
Proof.
  apply (gateway_accepts_listeners [EngineSample.record] EngineSample.listener); [discriminate|].
  left. exists "127.0.0.1", 1080%Z. vm_compute. reflexivity.
Defined.
