(* ===== verification/Render.v ===== *)
(** * The engine renderers (internal/engine/mihomo/render.go, internal/engine/singbox/render.go)

    Each renderer turns a gateway policy into the document model of its
    engine and serializes it.  A document is the Go struct that is
    marshalled, with the fields a [switch] fills grouped in a record of their
    own; a nil pointer or an omitted map is [None] or [[]].  The serializers
    (go.yaml.in/yaml and encoding/json) are arguments of [Render]. *)
From S2P Require Import Prelude Order Bytes Encoding Netip Endpoint Configuration Identity Provenance Inventory Artifact Engine.
From Stdlib Require Import Ascii.
From Stdlib Require String.
Import Configuration.
Import Transport(TransportTCP, TransportWebSocket, TransportHTTP2, TransportHTTPUpgrade, TransportGRPC, TransportQUIC, TransportXHTTP).

Inductive render_error := RenderEngine (e : engine_error) | RenderSerialization | RenderCandidate.

Definition replace_char (from to : ascii) (s : string) : string :=
  of_chars ((λ c, if bool_decide (c = from) then to else c) <$> chars s).
Definition capability (p : Profile) (field feature : string) : engine_error :=
  ECapability {| ce_profile := p; ce_field := field; ce_feature := feature |}.
(** The [Host] header map of a WebSocket transport. *)
Definition host_header (h : string) : list (string * string) := if bool_decide (h = "") then [] else [("Host", h)].

(** ** Mihomo *)

Module Mihomo.
Record webSocketOpts := { ws_Path : string; Headers : list (string * string); HTTPUpgrade : bool }.
Record http2Opts := { h2_Host : list string; h2_Path : string }.
Record xhttpOpts := { x_Path : string; x_Host : string; x_Mode : string }.
Record realityOpts := { r_PublicKey : string; r_ShortID : string }.
(** The fields the protocol switch sets. *)
Record protocolPart := {
  Type_ : string; UUID : string; Password : string; Username : string; Cipher : string; AlterID : option Z;
  ServerName : string; SNI : string; Up : string; Down : string; Obfs : string; ObfsPassword : string; Ports : string;
}.
(** The fields the transport switch sets. *)
Record transportPart := {
  Network : string; WebSocket : option webSocketOpts; HTTP2 : option http2Opts; GRPC : option string; XHTTP : option xhttpOpts;
}.
Record proxy := {
  Name : string; Server : string; Port : Z; TLS : bool; SkipCertVerify : bool;
  Flow_ : string; ALPN : list string; ClientFingerprint : string; RealityOpts : option realityOpts;
  protocol_part : protocolPart; transport_part : transportPart;
}.
Record configuration := {
  SOCKSPort : Z; BindAddress : string; AllowLAN : bool; Authentication : list string; Mode : string; LogLevel : string;
  Proxies : list proxy; Groups : list (string * string * list string); Rules : list string;
}.

Definition hysteria_part (c : Configuration) (password sni : string) : protocolPart :=
  let base := {| Type_ := "hysteria2"; UUID := ""; Password := password; Username := ""; Cipher := ""; AlterID := None;
                 ServerName := ""; SNI := sni; Up := ""; Down := ""; Obfs := ""; ObfsPassword := ""; Ports := "" |} in
  match Hysteria2 c with
  | None => base
  | Some o =>
      let secret := Security.RevealSalamanderPassword o in
      {| Type_ := Type_ base; UUID := UUID base; Password := Password base; Username := Username base; Cipher := Cipher base;
         AlterID := AlterID base; ServerName := ServerName base; SNI := SNI base;
         Up := if (Security.upMbps o =? 0)%Z then "" else itoa (Security.upMbps o) +:+ " Mbps";
         Down := if (Security.upMbps o =? 0)%Z then "" else itoa (Security.downMbps o) +:+ " Mbps";
         Obfs := if bool_decide (secret = "") then "" else "salamander"; ObfsPassword := secret;
         Ports := join "," (replace_char ":" "-" <$> Security.portRanges o) |}
  end.
Definition render_protocol (c : Configuration) : result engine_error protocolPart :=
  let secret := Credential.Reveal (credential c) in
  let username := Credential.username (credential c) in
  let name := Security.serverName (tls c) in
  let tls_name := if Security.enabled (tls c) then name else "" in
  match protocol c with
  | ProtocolVLESS =>
      Ok {| Type_ := "vless"; UUID := secret; Password := ""; Username := ""; Cipher := ""; AlterID := None;
            ServerName := tls_name; SNI := ""; Up := ""; Down := ""; Obfs := ""; ObfsPassword := ""; Ports := "" |}
  | ProtocolTrojan =>
      Ok {| Type_ := "trojan"; UUID := ""; Password := secret; Username := ""; Cipher := ""; AlterID := None;
            ServerName := ""; SNI := name; Up := ""; Down := ""; Obfs := ""; ObfsPassword := ""; Ports := "" |}
  | ProtocolVMess =>
      Ok {| Type_ := "vmess"; UUID := secret; Password := ""; Username := ""; Cipher := method c; AlterID := Some 0%Z;
            ServerName := tls_name; SNI := ""; Up := ""; Down := ""; Obfs := ""; ObfsPassword := ""; Ports := "" |}
  | ProtocolShadowsocks =>
      Ok {| Type_ := "ss"; UUID := ""; Password := secret; Username := ""; Cipher := method c; AlterID := None;
            ServerName := ""; SNI := ""; Up := ""; Down := ""; Obfs := ""; ObfsPassword := ""; Ports := "" |}
  | ProtocolSOCKS5 =>
      Ok {| Type_ := "socks5"; UUID := ""; Password := secret; Username := username; Cipher := ""; AlterID := None;
            ServerName := ""; SNI := ""; Up := ""; Down := ""; Obfs := ""; ObfsPassword := ""; Ports := "" |}
  | ProtocolHTTPProxy =>
      Ok {| Type_ := "http"; UUID := ""; Password := secret; Username := username; Cipher := ""; AlterID := None;
            ServerName := ""; SNI := tls_name; Up := ""; Down := ""; Obfs := ""; ObfsPassword := ""; Ports := "" |}
  | ProtocolHysteria2 => Ok (hysteria_part c secret name)
  | ProtocolUnknown => Err (capability Mihomo11931 "inventory.protocol" (Protocol_String (protocol c)))
  end.
Definition render_transport (c : Configuration) : result engine_error transportPart :=
  let t := transport c in
  let network := if bool_decide (protocol c = ProtocolHysteria2) then "" else "tcp" in
  let part n ws h2 grpc x := {| Network := n; WebSocket := ws; HTTP2 := h2; GRPC := grpc; XHTTP := x |} in
  match Transport.kind t with
  | TransportTCP | TransportQUIC => Ok (part network None None None None)
  | TransportWebSocket =>
      Ok (part "ws" (Some {| ws_Path := Transport.WebSocketPath t; Headers := host_header (Transport.webSocketHost t);
                             HTTPUpgrade := false |}) None None None)
  | TransportHTTP2 =>
      Ok (part "h2" None (Some {| h2_Host := if bool_decide (Transport.Host t = "") then [] else [Transport.Host t];
                                  h2_Path := Transport.Path t |}) None None)
  | TransportHTTPUpgrade =>
      Ok (part "ws" (Some {| ws_Path := Transport.Path t; Headers := host_header (Transport.Host t);
                             HTTPUpgrade := true |}) None None None)
  | TransportGRPC => Ok (part "grpc" None None (Some (Transport.Service t)) None)
  | TransportXHTTP =>
      Ok (part "xhttp" None None None (Some {| x_Path := Transport.Path t; x_Host := Transport.Host t; x_Mode := Transport.Mode t |}))
  | Transport.TransportUnknown => Err (capability Mihomo11931 "inventory.transport" (Transport.kind_String (Transport.kind t)))
  end.
Definition renderProxy (name : string) (c : Configuration) : result engine_error proxy :=
  let s := SecurityOptions_ c in
  _ ← CheckEndpoint Mihomo11931 c;
  pp ← render_protocol c;
  tp ← render_transport c;
  Ok {| Name := name; Server := Address.host (address c); Port := Address.port (address c);
        TLS := Security.enabled (tls c); SkipCertVerify := Security.insecureSkipVerify (tls c);
        Flow_ := Security.flow_String (Flow c); ALPN := Security.alpn s; ClientFingerprint := Security.fingerprint s;
        RealityOpts := (λ r, {| r_PublicKey := Security.publicKey r; r_ShortID := Security.shortID r |}) <$> Security.reality s;
        protocol_part := pp; transport_part := tp |}.

Fixpoint render_proxies (items : list NamedRecord) : result engine_error (list proxy) :=
  match items with
  | [] => Ok []
  | i :: items => p ← renderProxy (nr_name i) (Inventory.configuration (nr_record i)); ps ← render_proxies items; Ok (p :: ps)
  end.
Definition document `{Digest} (g : Gateway) : result engine_error configuration :=
  let named := AssignNames (inventory g) in
  let l := listener g in
  ps ← render_proxies named;
  Ok {| SOCKSPort := lport l; BindAddress := Listener_Address l; AllowLAN := Managed l;
        Authentication := if Managed l then [user l +:+ ":" +:+ pass l] else [];
        Mode := "rule"; LogLevel := "silent"; Proxies := ps;
        Groups := [("egressfox", "select", nr_name <$> named)]; Rules := ["MATCH,egressfox"] |}.
Definition Render `{Digest} (marshal : configuration → option string) (g : Gateway) : result render_error Candidate :=
  match document g with
  | Err e => Err (RenderEngine e)
  | Ok model =>
      match marshal model with
      | None => Err RenderSerialization
      | Some content => match NewCandidate Mihomo11931 content with Some c => Ok c | None => Err RenderCandidate end
      end
  end.
End Mihomo.

(** ** sing-box *)

Module SingBox.
Record realityConfig := { rc_PublicKey : string; rc_ShortID : string }.
(** [utls] and [reality] are enabled when present. *)
Record tlsConfig := {
  t_ServerName : string; Insecure : bool; t_ALPN : list string; UTLS : option string; Reality : option realityConfig;
}.
(** The dynamically typed host: absent, a list or a string. *)
Inductive any_host := NoHost | HostList (l : list string) | HostString (s : string).
Record transport_ := {
  tr_Type : string; tr_Path : string; tr_Host : any_host; ServiceName : string; tr_Headers : list (string * string);
}.
Record protocolPart := {
  Type_ : string; UUID : string; Password : string; Username : string; Version : string; Security_ : string;
  AlterID : option Z; Method : string; Network : string; UpMbps : Z; DownMbps : Z; Obfs : option (string * string);
  ServerPort : Z; ServerPorts : list string;
}.
Record outbound := {
  Tag : string; Server : string; Flow_ : string; TLS : option tlsConfig; Transport_ : option transport_;
  protocol_part : protocolPart;
}.
(** The endpoints, and the selector over them that ends the list. *)
Record configuration := {
  Listen : string; ListenPort : Z; Users : list (string * string); Outbounds : list outbound;
  Selector : list string; Default : string;
}.

(** sing-box port ranges have two ends. *)
Definition server_port (entry : string) : string := if char_elem ":" entry then entry else entry +:+ ":" +:+ entry.
Definition render_protocol (c : Configuration) : result engine_error protocolPart :=
  let secret := Credential.Reveal (credential c) in
  let username := Credential.username (credential c) in
  let port := Address.port (address c) in
  let part ty uuid password user version security alter method network :=
    {| Type_ := ty; UUID := uuid; Password := password; Username := user; Version := version; Security_ := security;
       AlterID := alter; Method := method; Network := network; UpMbps := 0; DownMbps := 0; Obfs := None;
       ServerPort := port; ServerPorts := [] |} in
  match protocol c with
  | ProtocolVLESS => Ok (part "vless" secret "" "" "" "" None "" "tcp")
  | ProtocolTrojan => Ok (part "trojan" "" secret "" "" "" None "" "tcp")
  | ProtocolVMess => Ok (part "vmess" secret "" "" "" (method c) (Some 0%Z) "" "tcp")
  | ProtocolShadowsocks => Ok (part "shadowsocks" "" secret "" "" "" None (method c) "tcp")
  | ProtocolSOCKS5 => Ok (part "socks" "" secret username "5" "" None "" "tcp")
  | ProtocolHTTPProxy => Ok (part "http" "" secret username "" "" None "" "")
  | ProtocolHysteria2 =>
      Ok (match Hysteria2 c with
          | None => part "hysteria2" "" secret "" "" "" None "" ""
          | Some o =>
              let ports := server_port <$> Security.portRanges o in
              let obfs := Security.RevealSalamanderPassword o in
              {| Type_ := "hysteria2"; UUID := ""; Password := secret; Username := ""; Version := ""; Security_ := "";
                 AlterID := None; Method := ""; Network := ""; UpMbps := Security.upMbps o; DownMbps := Security.downMbps o;
                 Obfs := if bool_decide (obfs = "") then None else Some ("salamander", obfs);
                 ServerPort := if bool_decide (ports = []) then port else 0; ServerPorts := ports |}
          end)
  | ProtocolUnknown => Err (capability SingBox1141 "inventory.protocol" (Protocol_String (protocol c)))
  end.
Definition render_tls (c : Configuration) : option tlsConfig :=
  let s := SecurityOptions_ c in
  if Security.enabled (tls c) then
    Some {| t_ServerName := Security.serverName (tls c); Insecure := Security.insecureSkipVerify (tls c); t_ALPN := Security.alpn s;
            UTLS := if bool_decide (Security.fingerprint s = "") then None else Some (Security.fingerprint s);
            Reality := (λ r, {| rc_PublicKey := Security.publicKey r; rc_ShortID := Security.shortID r |}) <$> Security.reality s |}
  else None.
Definition render_transport (c : Configuration) : result engine_error (option transport_) :=
  let t := transport c in
  let part ty path host service headers :=
    {| tr_Type := ty; tr_Path := path; tr_Host := host; ServiceName := service; tr_Headers := headers |} in
  match Transport.kind t with
  | TransportTCP | TransportQUIC => Ok None
  | TransportWebSocket => Ok (Some (part "ws" (Transport.WebSocketPath t) NoHost "" (host_header (Transport.webSocketHost t))))
  | TransportHTTP2 =>
      Ok (Some (part "http" (Transport.Path t) (if bool_decide (Transport.Host t = "") then NoHost else HostList [Transport.Host t]) "" []))
  | TransportHTTPUpgrade => Ok (Some (part "httpupgrade" (Transport.Path t) (HostString (Transport.Host t)) "" []))
  | TransportGRPC => Ok (Some (part "grpc" "" NoHost (Transport.Service t) []))
  | _ => Err (capability SingBox1141 "inventory.transport" (Transport.kind_String (Transport.kind t)))
  end.
Definition renderOutbound (name : string) (c : Configuration) : result engine_error outbound :=
  _ ← CheckEndpoint SingBox1141 c;
  pp ← render_protocol c;
  tp ← render_transport c;
  Ok {| Tag := name; Server := Address.host (address c); Flow_ := Security.flow_String (Flow c); TLS := render_tls c;
        Transport_ := tp; protocol_part := pp |}.

Fixpoint render_outbounds (items : list NamedRecord) : result engine_error (list outbound) :=
  match items with
  | [] => Ok []
  | i :: items => p ← renderOutbound (nr_name i) (Inventory.configuration (nr_record i)); ps ← render_outbounds items; Ok (p :: ps)
  end.
(** [None] is the index out of range at [names[0]]. *)
Definition document `{Digest} (g : Gateway) : option (result engine_error configuration) :=
  let named := AssignNames (inventory g) in
  let names := nr_name <$> named in
  let l := listener g in
  match render_outbounds named with
  | Err e => Some (Err e)
  | Ok outs =>
      first ← head names;
      Some (Ok {| Listen := Listener_Address l; ListenPort := lport l; Users := if Managed l then [(user l, pass l)] else [];
                  Outbounds := outs; Selector := names; Default := first |})
  end.
Definition Render `{Digest} (encode : configuration → option string) (g : Gateway) : option (result render_error Candidate) :=
  model ← document g;
  Some (match model with
        | Err e => Err (RenderEngine e)
        | Ok model =>
            match encode model with
            | None => Err RenderSerialization
            | Some content => match NewCandidate SingBox1141 content with Some c => Ok c | None => Err RenderCandidate end
            end
        end).
End SingBox.

(** ** Admitted endpoints always render *)

Lemma transport_known t : Transport.valid t = true → Transport.kind t ≠ Transport.TransportUnknown.
Proof.
  unfold Transport.valid. intros Hv Hk. rewrite Hk in Hv. simpl in Hv. destruct (Transport.advanced t) as [a|]; [|done].
  by rewrite andb_false_r in Hv.
Qed.
Lemma hysteria_quic c : valid c = true → protocol c = ProtocolHysteria2 → Transport.kind (transport c) = TransportQUIC.
Proof.
  intros (_&_&_&_&_&Ha&_)%valid_spec Hp. unfold advanced_valid in Ha. rewrite Hp in Ha.
  destruct (advanced c) as [a|]; [|done]. simpl in Ha. split_all_in Ha; by bool_to_prop.
Qed.
Lemma check_valid p c : CheckEndpoint p c = Ok () → valid c = true.
Proof. unfold CheckEndpoint, AssessEndpoint, Validate. by destruct (valid c). Qed.

(** Only Mihomo carries XHTTP. *)
Lemma singbox_no_xhttp c : CheckEndpoint SingBox1141 c = Ok () → Transport.kind (transport c) ≠ TransportXHTTP.
Proof.
  intros Hc Hk. pose proof (check_valid _ _ Hc) as Hv. unfold CheckEndpoint, AssessEndpoint, Validate in Hc. rewrite Hv in Hc. cbn in Hc.
  destruct (decide (protocol c = ProtocolHysteria2)) as [Hp|Hp].
  { pose proof (hysteria_quic c Hv Hp). congruence. }
  rewrite (bool_decide_false (protocol c = ProtocolHysteria2)) in Hc by done.
  assert (direct_vless c = false) as Hd by (unfold direct_vless; rewrite Hk, andb_false_r; done).
  rewrite Hd in Hc. simpl in Hc. unfold assess_transport in Hc. rewrite Hk in Hc. simpl in Hc. split_all_in Hc.
Qed.

Lemma mihomo_renders name c : CheckEndpoint Mihomo11931 c = Ok () → ∃ p, Mihomo.renderProxy name c = Ok p ∧
  Mihomo.Name p = name ∧ Mihomo.Server p = Address.host (address c) ∧ Mihomo.Port p = Address.port (address c).
Proof.
  intros Hc. destruct (valid_spec c (check_valid _ _ Hc)) as (Hp&_&_&_&Hk%transport_known&_).
  unfold Mihomo.renderProxy. rewrite Hc. cbn.
  assert (∃ pp, Mihomo.render_protocol c = Ok pp) as [pp ->] by (unfold Mihomo.render_protocol; destruct (protocol c); eauto; done).
  assert (∃ tp, Mihomo.render_transport c = Ok tp) as [tp ->]
    by (unfold Mihomo.render_transport; destruct (Transport.kind (transport c)); eauto; done).
  cbn. eauto.
Qed.
Lemma singbox_renders name c : CheckEndpoint SingBox1141 c = Ok () → ∃ o, SingBox.renderOutbound name c = Ok o ∧
  SingBox.Tag o = name ∧ SingBox.Server o = Address.host (address c).
Proof.
  intros Hc. destruct (valid_spec c (check_valid _ _ Hc)) as (Hp&_&_&_&Hk%transport_known&_).
  pose proof (singbox_no_xhttp c Hc) as Hx. unfold SingBox.renderOutbound. rewrite Hc. cbn.
  assert (∃ pp, SingBox.render_protocol c = Ok pp) as [pp ->] by (unfold SingBox.render_protocol; destruct (protocol c); eauto; done).
  assert (∃ tp, SingBox.render_transport c = Ok tp) as [tp ->]
    by (unfold SingBox.render_transport; destruct (Transport.kind (transport c)); eauto; done).
  cbn. eauto.
Qed.

(** Every connection the capability gate admits for an engine is rendered by that engine's renderer, under the
    name and for the server it has: the renderers have no unsupported case left behind the gate. *)
Theorem admitted_renders name c :
  (CheckEndpoint Mihomo11931 c = Ok () → ∃ p, Mihomo.renderProxy name c = Ok p ∧
     Mihomo.Name p = name ∧ Mihomo.Server p = Address.host (address c) ∧ Mihomo.Port p = Address.port (address c)) ∧
  (CheckEndpoint SingBox1141 c = Ok () → ∃ o, SingBox.renderOutbound name c = Ok o ∧
     SingBox.Tag o = name ∧ SingBox.Server o = Address.host (address c)).
Proof. split; [apply mihomo_renders|apply singbox_renders]. Qed.

(** ** Whole documents *)

Definition admitted (p : Profile) (rs : list Record_) : Prop :=
  Forall (λ r, CheckEndpoint p (Inventory.configuration r) = Ok ()) rs.

Lemma render_proxies_all items : admitted Mihomo11931 (nr_record <$> items) →
  ∃ ps, Mihomo.render_proxies items = Ok ps ∧ Mihomo.Name <$> ps = nr_name <$> items.
Proof.
  unfold admitted. rewrite Forall_fmap. induction 1 as [|i items Hi _ (ps&IH&Hn)]; [by exists []|].
  destruct (mihomo_renders (nr_name i) _ Hi) as (p&Hp&Hnm&_). exists (p :: ps). cbn. rewrite Hp. cbn. rewrite IH. cbn.
  split; [done|]. by rewrite Hnm, Hn.
Qed.
Lemma render_outbounds_all items : admitted SingBox1141 (nr_record <$> items) →
  ∃ os, SingBox.render_outbounds items = Ok os ∧ SingBox.Tag <$> os = nr_name <$> items.
Proof.
  unfold admitted. rewrite Forall_fmap. induction 1 as [|i items Hi _ (ps&IH&Hn)]; [by exists []|].
  destruct (singbox_renders (nr_name i) _ Hi) as (p&Hp&Hnm&_). exists (p :: ps). cbn. rewrite Hp. cbn. rewrite IH. cbn.
  split; [done|]. by rewrite Hnm, Hn.
Qed.

(** A refused record refuses the whole document. *)
Lemma render_proxies_admitted items ps : Mihomo.render_proxies items = Ok ps → admitted Mihomo11931 (nr_record <$> items).
Proof.
  revert ps. induction items as [|i items IH]; intros ps Hr; [constructor|]. cbn in Hr. ok_inv.
  constructor; [|by eapply IH]. unfold Mihomo.renderProxy in H. cbv zeta in H. apply result_bind_Ok in H as ([]&?&_). done.
Qed.
Lemma render_outbounds_admitted items os : SingBox.render_outbounds items = Ok os → admitted SingBox1141 (nr_record <$> items).
Proof.
  revert os. induction items as [|i items IH]; intros ps Hr; [constructor|]. cbn in Hr. ok_inv.
  constructor; [|by eapply IH]. unfold SingBox.renderOutbound in H. apply result_bind_Ok in H as ([]&?&_). done.
Qed.

Section documents.
Context `{Digest}.
(** Serializing a document of strings, numbers and lists succeeds with some
    text. *)
Context (yaml : Mihomo.configuration → option string) (Hyaml : ∀ d, ∃ s, yaml d = Some s ∧ s ≠ "").
Context (json : SingBox.configuration → option string) (Hjson : ∀ d, ∃ s, json d = Some s ∧ s ≠ "").
Context (rs : list Record_) (l : Listener) (g : Gateway).
Context (Hlen : (Z.of_nat (length rs) ≤ int64_max)%Z) (Hg : NewGateway rs l = Ok g).

(** Mihomo renders a gateway exactly when the capability gate admits all its records, and then completely: one
    proxy per record, under pairwise distinct names that are exactly the choices of the selector group, with
    authentication exactly for a managed listener, as a nonempty candidate of the shipped profile.  A record that is
    not admitted is never dropped silently. *)
Theorem mihomo_document_complete :
  ((∃ c, Mihomo.Render yaml g = Ok c) ↔ admitted Mihomo11931 rs) ∧
  ∀ c, Mihomo.Render yaml g = Ok c → profile c = Mihomo11931 ∧ content c ≠ "" ∧ ∃ d, Mihomo.document g = Ok d ∧
    Mihomo.Groups d = [("egressfox", "select", Mihomo.Name <$> Mihomo.Proxies d)] ∧ NoDup (Mihomo.Name <$> Mihomo.Proxies d) ∧
    length (Mihomo.Proxies d) = length rs ∧ (Mihomo.Authentication d = [] ↔ Managed l = false).
Proof using Hyaml Hlen Hg.
  destruct (NewGateway_Ok _ _ _ Hg) as [-> Hne].
  assert (nr_record <$> AssignNames rs = rs) as Hrec by apply assign_names_records.
  unfold Mihomo.Render, Mihomo.document. cbn [inventory listener].
  destruct (Mihomo.render_proxies (AssignNames rs)) as [ps|e] eqn:E.
  - pose proof (render_proxies_admitted _ _ E) as Ha. rewrite Hrec in Ha.
    destruct (render_proxies_all (AssignNames rs)) as (ps'&E'&Hn); [by rewrite Hrec|]. rewrite E in E'. injection E' as <-.
    cbn. match goal with |- context [yaml ?d] => destruct (Hyaml d) as (s&->&Hs) end.
    unfold NewCandidate. rewrite (bool_decide_false (s = "")) by done. cbn. split; [split; eauto|].
    intros c [= <-]. split; [done|]. split; [done|]. eexists. split; [done|]. cbn. rewrite Hn.
    split; [done|]. split; [by apply AssignNames_nodup|]. split.
    + by rewrite <-(length_fmap Mihomo.Name), Hn, length_fmap, <-(length_fmap nr_record), Hrec.
    + by destruct (Managed l).
  - cbn. split; [split; [by intros [? ?]|]|done]. intros Ha.
    destruct (render_proxies_all (AssignNames rs)) as (ps'&E'&_); [by rewrite Hrec|congruence].
Qed.

(** sing-box renders a gateway exactly when the capability gate admits all its records, and then completely: one
    tagged outbound per record under pairwise distinct tags that are exactly the choices of the selector, whose default
    is one of them, with users exactly for a managed listener; the renderer never indexes an empty list. *)
Theorem singbox_document_complete : ∃ res, SingBox.Render json g = Some res ∧
  ((∃ c, res = Ok c) ↔ admitted SingBox1141 rs) ∧
  ∀ c, res = Ok c → profile c = SingBox1141 ∧ content c ≠ "" ∧ ∃ d, SingBox.document g = Some (Ok d) ∧
    SingBox.Selector d = SingBox.Tag <$> SingBox.Outbounds d ∧ NoDup (SingBox.Selector d) ∧ SingBox.Default d ∈ SingBox.Selector d ∧
    length (SingBox.Outbounds d) = length rs ∧ (SingBox.Users d = [] ↔ Managed l = false).
Proof using Hjson Hlen Hg.
  destruct (NewGateway_Ok _ _ _ Hg) as [-> Hne].
  assert (nr_record <$> AssignNames rs = rs) as Hrec by apply assign_names_records.
  unfold SingBox.Render, SingBox.document. cbn [inventory listener].
  destruct (SingBox.render_outbounds (AssignNames rs)) as [os|e] eqn:E.
  - pose proof (render_outbounds_admitted _ _ E) as Ha. rewrite Hrec in Ha.
    destruct (render_outbounds_all (AssignNames rs)) as (os'&E'&Hn); [by rewrite Hrec|]. rewrite E in E'. injection E' as <-.
    assert (∃ first, head (nr_name <$> AssignNames rs) = Some first) as [first Hf].
    { destruct (AssignNames rs); [by subst rs|]. by eexists. }
    rewrite Hf. cbn. match goal with |- context [json ?d] => destruct (Hjson d) as (s&->&Hs) end.
    unfold NewCandidate. rewrite (bool_decide_false (s = "")) by done. cbn. eexists. split; [done|]. split; [split; eauto|].
    intros c [= <-]. split; [done|]. split; [done|]. eexists. split; [done|]. cbn.
    split; [done|]. split; [by apply AssignNames_nodup|]. split.
    { destruct (nr_name <$> AssignNames rs); [done|]. injection Hf as ->. by left. }
    split; [|by destruct (Managed l)].
    by rewrite <-(length_fmap SingBox.Tag), Hn, length_fmap, <-(length_fmap nr_record), Hrec.
  - cbn. eexists. split; [done|]. split; [split; [by intros [? ?]|]|done]. intros Ha.
    destruct (render_outbounds_all (AssignNames rs)) as (os'&E'&_); [by rewrite Hrec|congruence].
Qed.
End documents.

(** ** Rendering loses nothing *)

Lemma transport_shape t : Transport.wf t →
  match Transport.kind t with
  | TransportTCP => t = Transport.NewTCPTransport
  | TransportQUIC => t = Transport.NewQUICTransport
  | TransportWebSocket => ∃ p h, t = {| Transport.kind := TransportWebSocket; Transport.webSocketPath := Some p;
      Transport.webSocketHost := h; Transport.advanced := None |}
  | TransportGRPC => ∃ s, t = {| Transport.kind := TransportGRPC; Transport.webSocketPath := None; Transport.webSocketHost := "";
      Transport.advanced := Some {| Transport.path := ""; Transport.thost := ""; Transport.service := s; Transport.mode := "" |} |}
  | TransportXHTTP => ∃ p h m, t = {| Transport.kind := TransportXHTTP; Transport.webSocketPath := None; Transport.webSocketHost := "";
      Transport.advanced := Some {| Transport.path := p; Transport.thost := h; Transport.service := ""; Transport.mode := m |} |}
  | Transport.TransportUnknown => False
  | k => ∃ p h, t = {| Transport.kind := k; Transport.webSocketPath := None; Transport.webSocketHost := "";
      Transport.advanced := Some {| Transport.path := p; Transport.thost := h; Transport.service := ""; Transport.mode := "" |} |}
  end.
Proof.
  destruct t as [k wp wh a]. intros [Hv _ _ _ _ _ Hm]. unfold Transport.valid, Transport.Mode in *. simpl in *.
  destruct k, a as [[p h s m]|]; simpl in *; try discriminate Hv; rewrite ?orb_false_r, ?andb_false_r in Hv; simpl in Hv;
    try discriminate Hv; bool_to_prop; subst; try (rewrite Hm by done); eauto.
  destruct wp; [eauto|done].
Qed.

Lemma host_header_inj h h' : host_header h = host_header h' → h = h'.
Proof. unfold host_header. repeat case_bool_decide; naive_solver. Qed.
Lemma host_list_inj (h h' : string) : (if bool_decide (h = "") then [] else [h]) = (if bool_decide (h' = "") then [] else [h']) → h = h'.
Proof. repeat case_bool_decide; naive_solver. Qed.

Lemma host_any_inj (h h' : string) : (if bool_decide (h = "") then SingBox.NoHost else SingBox.HostList [h]) =
  (if bool_decide (h' = "") then SingBox.NoHost else SingBox.HostList [h']) → h = h'.
Proof. repeat case_bool_decide; naive_solver. Qed.

Lemma quic_hysteria c : valid c = true → Transport.kind (transport c) = TransportQUIC → protocol c = ProtocolHysteria2.
Proof.
  intros Hv Hk. destruct (advanced c) as [a|] eqn:Ea.
  - destruct (valid_spec c Hv) as (_&_&_&_&_&Ha&_). rewrite Ea in Ha. unfold advanced_valid in Ha. rewrite Hk in Ha.
    split_all_in Ha; bool_to_prop; done.
  - destruct (no_advanced_spec c Hv Ea) as (_&_&_&Hn). destruct (valid_spec c Hv) as (_&_&_&_&Ht&_).
    unfold Transport.valid in Ht. by rewrite Hk, Hn in Ht.
Qed.

(** The transport switch of either engine is injective on the transports of
    one protocol. *)
Ltac shapes :=
  repeat match goal with
  | W : ∃ _, _ |- _ => destruct W
  | W : _ = Transport.Build_Transport _ _ _ _ |- _ => subst
  | W : _ = Transport.NewTCPTransport |- _ => subst
  | W : _ = Transport.NewQUICTransport |- _ => subst
  | H : host_header _ = host_header _ |- _ => apply host_header_inj in H
  | H : (if bool_decide _ then [] else _) = (if bool_decide _ then [] else _) |- _ => apply host_list_inj in H
  | H : (if bool_decide _ then SingBox.NoHost else _) = (if bool_decide _ then SingBox.NoHost else _) |- _ => apply host_any_inj in H
  | _ => progress simplify_eq/=
  end.
Lemma mihomo_transport_inj c c' tp : valid c = true → valid c' = true →
  Transport.wf (transport c) → Transport.wf (transport c') → protocol c = protocol c' →
  Mihomo.render_transport c = Ok tp → Mihomo.render_transport c' = Ok tp → transport c = transport c'.
Proof.
  intros V V' W%transport_shape W'%transport_shape Hp R R'.
  pose proof (quic_hysteria c V) as Q. pose proof (quic_hysteria c' V') as Q'.
  pose proof (hysteria_quic c V) as H. pose proof (hysteria_quic c' V') as H'. clear V V'.
  destruct c as [p a cr t tl m ad], c' as [p' a' cr' t' tl' m' ad'].
  unfold Mihomo.render_transport, Transport.WebSocketPath, Transport.Path, Transport.Host, Transport.Service, Transport.Mode in *.
  simpl in *. subst p'.
  destruct (Transport.kind t) eqn:K, (Transport.kind t') eqn:K'; try done; simplify_eq/=; shapes; try done; naive_solver.
Qed.
Lemma singbox_transport_inj c c' tp : valid c = true → valid c' = true →
  Transport.wf (transport c) → Transport.wf (transport c') → protocol c = protocol c' →
  SingBox.render_transport c = Ok tp → SingBox.render_transport c' = Ok tp → transport c = transport c'.
Proof.
  intros V V' W%transport_shape W'%transport_shape Hp R R'.
  pose proof (quic_hysteria c V) as Q. pose proof (quic_hysteria c' V') as Q'.
  pose proof (hysteria_quic c V) as H. pose proof (hysteria_quic c' V') as H'. clear V V'.
  destruct c as [p a cr t tl m ad], c' as [p' a' cr' t' tl' m' ad'].
  unfold SingBox.render_transport, Transport.WebSocketPath, Transport.Path, Transport.Host, Transport.Service, Transport.Mode in *.
  simpl in *. subst p'.
  destruct (Transport.kind t) eqn:K, (Transport.kind t') eqn:K'; try done; simplify_eq/=; shapes; try done; naive_solver.
Qed.

(** ** Hysteria2 options *)

(** The printed port ranges. *)
Definition port_text (v : string) : Prop := ∃ f l, v = Security.print_range f l ∧ (1 ≤ f ≤ l)%Z ∧ (l ≤ 65535)%Z.
Lemma port_entry_range e f l : Security.port_entry e = Ok (f, l) → (1 ≤ f ≤ l)%Z ∧ (l ≤ 65535)%Z.
Proof.
  unfold Security.port_entry. destruct (split_on ":" e) as [|first rest]; [done|]. intros H. apply result_bind_Ok in H as (u & _ & H).
  destruct (atoi first) as [x|]; [|done]. apply result_bind_Ok in H as (u1 & Hg & H). apply guard_err_Ok in Hg. bool_to_prop.
  destruct rest as [|last rest]; [injection H as <- <-; lia|]. destruct (atoi last) as [y|]; [|done].
  apply result_bind_Ok in H as (u2 & Hg2 & H). apply guard_err_Ok in Hg2. bool_to_prop. injection H as <- <-. lia.
Qed.
Lemma port_entries_text n acc es ports : Security.port_entries n acc es = Ok ports → Forall port_text acc → Forall port_text ports.
Proof.
  revert n acc. induction es as [|e es IH]; intros n acc H Ha; simpl in H; [by injection H as <-|].
  apply result_bind_Ok in H as ([f l] & He & H). apply result_bind_Ok in H as (u & _ & H). apply IH in H; [done|].
  apply Forall_app. split; [done|]. constructor; [|constructor]. exists f, l. split; [done|]. by apply port_entry_range in He.
Qed.
Lemma made_ports_text h : made_hysteria h → Forall port_text (Security.portRanges h).
Proof.
  destruct 1 as [u d p h H|u d p l h H]; [apply Security.NewHysteria2Options_wf in H as [_ ->]; constructor|].
  unfold Security.NewHysteria2OptionsWithPorts in H. ok_inv. simpl. eapply port_entries_text; [done|].
  rename select (Security.NewHysteria2Options _ _ _ = _) into Hn. apply Security.NewHysteria2Options_wf in Hn as [_ ->]. constructor.
Qed.
(** The options of a constructed connection were constructed. *)
Lemma made_hysteria_options c h : made c → Hysteria2 c = Some h → made_hysteria h.
Proof.
  assert (∀ p a cr tr t m c, newAdditionalConfiguration p a cr tr t m = Ok c → Hysteria2 c = None) as Hadd
    by (intros p a cr tr t m c0 H; unfold newAdditionalConfiguration in H; by ok_inv).
  assert (∀ p a cr tr t c, NewConfiguration p a cr tr t = Ok c → Hysteria2 c = None) as Hnew
    by (intros p a cr tr t c0 H; unfold NewConfiguration in H; by ok_inv).
  assert (∀ p a cr tr t s f o m c, newExtendedConfiguration p a cr tr t s f o m = Ok c → Hysteria2 c = None ∨ Hysteria2 c = o) as Hext.
  { intros p a cr tr t s f o m c0 H. unfold newExtendedConfiguration, NewVMessConfiguration in H. apply result_bind_Ok in H as (u & _ & H).
    destruct (_ && _); [destruct p|]; try (by left; eauto); ok_inv; try (by left; eauto); by right. }
  induction 1 as [| | |p h0 n a cr tr t s f hy c _ _ _ _ _ Hh H|h0 n a cr tr t s m c _ _ _ _ _ H|c0 h0 n a c Hm IH _ H]; intros E.
  - erewrite Hnew in E by done. done.
  - unfold NewVMessConfiguration in *. ok_inv. erewrite Hadd in E by done. done.
  - unfold NewShadowsocksConfiguration in *. ok_inv. erewrite Hadd in E by done. done.
  - apply Hext in H as [H|H]; [congruence|]. apply Hh. congruence.
  - unfold NewExtendedVMessConfiguration in H. ok_inv. rename select (newExtendedConfiguration _ _ _ _ _ _ _ _ _ = _) into Hx.
    apply Hext in Hx as [Hx|Hx]; congruence.
  - unfold WithAddress in H. destruct (_ || _); [done|]. injection H as <-. by apply IH.
Qed.
(** Only Hysteria2 connections have them, and all of these do. *)
Lemma hysteria_protocol c : valid c = true → protocol c = ProtocolHysteria2 ↔ is_Some (Hysteria2 c).
Proof.
  intros (_&_&_&_&_&Ha&_)%valid_spec. unfold Hysteria2, advanced_valid in *. destruct (advanced c) as [a|]; simpl in *; [|split_all_in Ha; bool_to_prop; split; [done|by intros [? ?]]].
  split.
  - intros Hp. rewrite Hp in Ha. simpl in Ha. split_all_in Ha; bool_to_prop; destruct (hysteria a); try done; by eexists.
  - intros [h E]. rewrite E in Ha. split_all_in Ha; by bool_to_prop.
Qed.

Lemma chars_inj s t : chars s = chars t → s = t.
Proof. intros E. by rewrite <-(of_chars_chars s), <-(of_chars_chars t), E. Qed.
Lemma itoa_inj x y : (0 ≤ x ≤ 100000)%Z → (0 ≤ y ≤ 100000)%Z → itoa x = itoa y → x = y.
Proof. intros Hx Hy E. apply (f_equal (λ s, parse_digits 0 (chars s))) in E. rewrite !itoa_parse in E by lia. by injection E. Qed.
Lemma itoa_digits x : (0 ≤ x ≤ 100000)%Z → Forall (λ c, is_digit c = true) (chars (itoa x)) ∧ itoa x ≠ "".
Proof.
  intros Hx. split; [eapply parse_digits_digits, itoa_parse; lia|].
  assert (∀ n z c s, digits_acc n z (String c s) ≠ "") as Hne.
  { induction n as [|n IH]; intros z c s0; simpl; [done|]. destruct (_ <? _)%Z; [done|apply IH]. }
  assert (∀ n z s, digits_acc (S n) z s ≠ "") as Hs by (intros n z s0; simpl; destruct (_ <? _)%Z; [done|apply Hne]).
  apply (Hs 19).
Qed.
(** Cutting at a separator that the first parts do not contain. *)
Lemma sep_inj {A} (c : A) l l' r r' : c ∉ l → c ∉ l' → l ++ c :: r = l' ++ c :: r' → l = l' ∧ r = r'.
Proof.
  revert l'. induction l as [|x l IH]; intros [|y l'] Hl Hl' E; simpl in E; [by injection E|injection E as -> _; destruct Hl'; by left|
    injection E as -> _; destruct Hl; by left|]. injection E as -> E. apply not_elem_of_cons in Hl as [_ Hl], Hl' as [_ Hl'].
  destruct (IH l' Hl Hl' E) as [-> ->]. done.
Qed.
Lemma digits_no c l : is_digit c = false → Forall (λ x, is_digit x = true) l → c ∉ l.
Proof. intros Hc Hl Hin. rewrite Forall_forall in Hl. apply Hl in Hin. congruence. Qed.

(** Bandwidths. *)
Lemma mbps_inj x y : (0 ≤ x ≤ 100000)%Z → (0 ≤ y ≤ 100000)%Z → itoa x +:+ " Mbps" = itoa y +:+ " Mbps" → x = y.
Proof.
  intros Hx Hy E. apply (f_equal chars) in E. rewrite !chars_app in E. apply app_inv_tail, chars_inj in E. by apply itoa_inj.
Qed.

(** Port ranges: sing-box writes both ends, Mihomo writes the entry with a
    hyphen and separates entries by commas. *)
Lemma print_range_chars f l : chars (Security.print_range f l) =
  if (l =? f)%Z then chars (itoa f) else chars (itoa f) ++ ":"%char :: chars (itoa l).
Proof. unfold Security.print_range. destruct (_ =? _)%Z; [done|]. by rewrite !chars_app. Qed.
Lemma server_port_inj v w : port_text v → port_text w → SingBox.server_port v = SingBox.server_port w → v = w.
Proof.
  intros (f & l & -> & Hf & Hl) (f' & l' & -> & Hf' & Hl').
  assert (∀ f l, (1 ≤ f ≤ l)%Z → (l ≤ 65535)%Z → chars (SingBox.server_port (Security.print_range f l)) = chars (itoa f) ++ ":"%char :: chars (itoa l)) as Hs.
  { clear. intros f l Hf Hl. unfold SingBox.server_port. destruct (itoa_digits f ltac:(lia)) as [D _].
    destruct (char_elem ":" (Security.print_range f l)) eqn:E.
    - rewrite print_range_chars. destruct (l =? f)%Z eqn:El; [|done]. exfalso. unfold char_elem in E. apply existsb_exists in E as (c & Hc & Heq).
      apply Ascii.eqb_eq in Heq as <-. rewrite print_range_chars, El in Hc. apply list_elem_of_In in Hc. by eapply digits_no in Hc.
    - rewrite !chars_app, print_range_chars. destruct (l =? f)%Z eqn:El; [by bool_to_prop; subst|]. exfalso.
      apply not_true_iff_false in E. apply E. unfold char_elem. apply existsb_exists. exists ":"%char. split; [|by apply Ascii.eqb_eq].
      rewrite print_range_chars, El. apply in_app_iff. right. by left. }
  intros E%(f_equal chars). rewrite !Hs in E by done. destruct (itoa_digits f ltac:(lia)) as [D _], (itoa_digits f' ltac:(lia)) as [D' _].
  apply sep_inj in E as [E1%chars_inj E2%chars_inj]; [|by apply digits_no..]. apply itoa_inj in E1, E2; try lia. congruence.
Qed.
Definition range_char (c : ascii) : bool := is_digit c || Ascii.eqb c ":".
Lemma port_text_chars v : port_text v → Forall (λ c, range_char c = true) (chars v) ∧ v ≠ "".
Proof.
  intros (f & l & -> & Hf & Hl). destruct (itoa_digits f ltac:(lia)) as [D N], (itoa_digits l ltac:(lia)) as [D' _].
  assert (∀ k, Forall (λ x, is_digit x = true) k → Forall (λ c, range_char c = true) k) as Hd.
  { intros k Hk. eapply Forall_impl; [exact Hk|]. unfold range_char. by intros x ->. }
  split; [rewrite print_range_chars; destruct (_ =? _)%Z; [auto|apply Forall_app; split; [auto|constructor; auto]]|].
  unfold Security.print_range. destruct (_ =? _)%Z; [done|]. intros E. apply N. by destruct (itoa f).
Qed.
Definition dash (c : ascii) : ascii := if bool_decide (c = ":"%char) then "-"%char else c.
Lemma dash_chars l : Forall (λ c, range_char c = true) l → ","%char ∉ dash <$> l.
Proof.
  intros Hl (c & E & Hc)%list_elem_of_fmap. rewrite Forall_forall in Hl. apply Hl in Hc. unfold dash in E. case_bool_decide; [done|]. by subst.
Qed.
Lemma dash_inj l k : Forall (λ c, range_char c = true) l → Forall (λ c, range_char c = true) k → dash <$> l = dash <$> k → l = k.
Proof.
  intros Hl. revert k. induction Hl as [|c l Hc _ IH]; intros [|d k] Hk E; try done. inversion_clear Hk as [|? ? Hd Hk'].
  cbn in E. injection E as E1 E2. f_equal; [|by apply IH]. unfold dash in E1. repeat case_bool_decide; subst; done.
Qed.
Lemma join_dash_inj l k : Forall port_text l → Forall port_text k →
  join "," (replace_char ":" "-" <$> l) = join "," (replace_char ":" "-" <$> k) → l = k.
Proof.
  assert (∀ v, chars (replace_char ":" "-" v) = dash <$> chars v) as Hr by (intros v; unfold replace_char; by rewrite chars_of_chars).
  assert (∀ v w x, chars (join "," (replace_char ":" "-" <$> v :: w :: x)) =
    (dash <$> chars v) ++ ","%char :: chars (join "," (replace_char ":" "-" <$> w :: x))) as Hj.
  { intros v w x. cbn [fmap list_fmap join]. rewrite !chars_app, Hr. done. }
  assert (∀ v, chars (join "," (replace_char ":" "-" <$> [v])) = dash <$> chars v) as H1 by (intros v; cbn [fmap list_fmap join]; apply Hr).
  assert (∀ v, port_text v → dash <$> chars v ≠ []) as Hn.
  { intros v [_ Hv]%port_text_chars. destruct v; [done|]. by simpl. }
  intros Hl. revert k. induction Hl as [|v l Hv Hl IH]; intros k Hk E%(f_equal chars).
  - destruct Hk as [|w k Hw Hk]; [done|]. exfalso. destruct k as [|w' k]; [rewrite H1 in E; by apply (Hn w)|].
    rewrite Hj in E. simpl in E. by destruct (dash <$> chars w).
  - destruct Hk as [|w k Hw Hk]; [exfalso; destruct l as [|v' l]; [rewrite H1 in E; by apply (Hn v)|rewrite Hj in E; by destruct (dash <$> chars v)]|].
    destruct (port_text_chars v Hv) as [Cv _], (port_text_chars w Hw) as [Cw _].
    pose proof (dash_chars _ Cv) as Nv. pose proof (dash_chars _ Cw) as Nw.
    destruct l as [|v' l], k as [|w' k].
    + rewrite !H1 in E. apply dash_inj, chars_inj in E as ->; done.
    + rewrite H1, Hj in E. exfalso. apply Nv. rewrite E. apply elem_of_app. right. by left.
    + rewrite H1, Hj in E. exfalso. apply Nw. rewrite <-E. apply elem_of_app. right. by left.
    + rewrite !Hj in E. apply sep_inj in E as [E1 E2]; [|done..]. apply dash_inj, chars_inj in E1 as ->; [|done..]. f_equal.
      apply IH; [done|]. by apply chars_inj.
Qed.
Lemma obfs_inj h h' : Security.wf_hysteria h → Security.wf_hysteria h' →
  Security.RevealSalamanderPassword h = Security.RevealSalamanderPassword h' → Security.obfsPassword h = Security.obfsPassword h'.
Proof.
  intros [_ _ _ W _ _] [_ _ _ W' _ _]. unfold Security.RevealSalamanderPassword.
  destruct (Security.obfsPassword h) as [p|], (Security.obfsPassword h') as [q|]; simpl; intros E; try congruence.
  - destruct (W p eq_refl). congruence.
  - destruct (W' q eq_refl). congruence.
Qed.

Lemma hysteria_eq (h h' : Security.Hysteria2Options) : Security.upMbps h = Security.upMbps h' → Security.downMbps h = Security.downMbps h' →
  Security.obfsPassword h = Security.obfsPassword h' → Security.portRanges h = Security.portRanges h' → h = h'.
Proof. destruct h, h'. simpl. by intros -> -> -> ->. Qed.
Lemma mihomo_hysteria_inj c c' s s' n n' : made c → made c' → protocol c = ProtocolHysteria2 → protocol c' = ProtocolHysteria2 →
  Mihomo.hysteria_part c s n = Mihomo.hysteria_part c' s' n' → Hysteria2 c = Hysteria2 c'.
Proof.
  intros M M' [h Hh]%hysteria_protocol [h' Hh']%hysteria_protocol; [|by apply wf_valid, made_wf..].
  pose proof (made_hysteria_options _ _ M Hh) as O. pose proof (made_hysteria_options _ _ M' Hh') as O'.
  pose proof (made_ports_text _ O) as T. pose proof (made_ports_text _ O') as T'.
  pose proof (made_hysteria_wf _ O) as W. pose proof (made_hysteria_wf _ O') as W'.
  unfold Mihomo.hysteria_part. rewrite Hh, Hh'. intros [= _ _ Eu Ed _ Eo Ep]. f_equal.
  destruct (Security.wf_up _ W) as [U1 U2], (Security.wf_up _ W') as [U1' U2'], (Security.wf_down _ W) as [D1 D2], (Security.wf_down _ W') as [D1' D2'].
  pose proof (Security.wf_bandwidth _ W) as B. pose proof (Security.wf_bandwidth _ W') as B'.
  destruct (itoa_digits (Security.upMbps h)) as [_ N]; [lia|]. destruct (itoa_digits (Security.upMbps h')) as [_ N']; [lia|].
  assert (∀ s, s ≠ "" → s +:+ " Mbps" ≠ "") as Hne by (by intros [|]).
  apply hysteria_eq; [| |by apply obfs_inj|by apply join_dash_inj].
  - destruct (Security.upMbps h =? 0)%Z eqn:E1, (Security.upMbps h' =? 0)%Z eqn:E2; bool_to_prop; [congruence|by destruct (Hne _ N')|by destruct (Hne _ N)|].
    by apply mbps_inj.
  - destruct (Security.upMbps h =? 0)%Z eqn:E1, (Security.upMbps h' =? 0)%Z eqn:E2; bool_to_prop; [|by destruct (Hne _ N')|by destruct (Hne _ N)|by apply mbps_inj].
    apply B in E1. apply B' in E2. congruence.
Qed.

(** What two connections share when an engine cannot tell them apart; the
    Hysteria2 options are bandwidths, obfuscation password and port ranges. *)
Record same_rendering (c c' : Configuration) : Prop := {
  sr_protocol : protocol c = protocol c';
  sr_host : Address.host (address c) = Address.host (address c');
  sr_credential : credential c = credential c';
  sr_transport : transport c = transport c';
  sr_tls : Security.enabled (tls c) = Security.enabled (tls c');
  sr_verify : Security.enabled (tls c) = true → Security.insecureSkipVerify (tls c) = Security.insecureSkipVerify (tls c');
  sr_name : Security.enabled (tls c) = true → Security.serverName (tls c) = Security.serverName (tls c');
  sr_method : method c = method c';
  sr_flow : Flow c = Flow c';
  sr_security : SecurityOptions_ c = SecurityOptions_ c';
  sr_hysteria : Hysteria2 c = Hysteria2 c';
}.
Lemma no_hysteria c c' : valid c = true → valid c' = true → protocol c = protocol c' → protocol c ≠ ProtocolHysteria2 → Hysteria2 c = Hysteria2 c'.
Proof.
  intros V%hysteria_protocol V'%hysteria_protocol Hp Hn. destruct (Hysteria2 c) eqn:E; [destruct Hn; apply V; by eexists|].
  destruct (Hysteria2 c') eqn:E'; [|done]. destruct Hn. rewrite Hp. apply V'. by eexists.
Qed.

Lemma credential_eq c c' : wf c → wf c' → protocol c = protocol c' →
  Credential.Reveal (credential c) = Credential.Reveal (credential c') →
  (protocol c = ProtocolSOCKS5 ∨ protocol c = ProtocolHTTPProxy → Credential.username (credential c) = Credential.username (credential c')) →
  credential c = credential c'.
Proof.
  intros W W' Hp Hs Hu. destruct (valid_spec c (wf_valid _ W)) as (_&_&Vc&Pc&_), (valid_spec c' (wf_valid _ W')) as (_&_&Vc'&Pc'&_).
  destruct (wf_credential _ W) as [_ _ _ Nu], (wf_credential _ W') as [_ _ _ Nu'].
  destruct (credential c) as [p s u], (credential c') as [p' s' u']. unfold Credential.valid, Credential.Reveal in *. simpl in *.
  destruct s as [s|], s' as [s'|]; try done. simpl in *. subst p p' s'. rewrite <-Hp in Nu' |- *.
  f_equal. destruct (decide (protocol c = ProtocolSOCKS5)); [by apply Hu; left|].
  destruct (decide (protocol c = ProtocolHTTPProxy)); [by apply Hu; right|]. by rewrite Nu, Nu'.
Qed.
Lemma flow_String_inj f f' : Security.flow_String f = Security.flow_String f' → f = f'.
Proof. by destruct f, f'. Qed.
Lemma security_needs_tls c : valid c = true → Security.enabled (tls c) = false → SecurityOptions_ c = Security.no_options.
Proof.
  intros (_&_&_&_&_&Ha&_)%valid_spec Ht. unfold SecurityOptions_, advanced_valid in *. destruct (advanced c) as [a|]; [|done].
  rewrite Ht in Ha. simpl in Ha. destruct (_ && _) eqn:E1 in Ha; [done|]. destruct (_ && true) eqn:E2 in Ha; [done|].
  rewrite andb_true_r in E2. bool_to_prop. clear Ha E1. destruct a as [f [al fp re] h]. simpl in *. by subst.
Qed.

Lemma hysteria_part_core c s n : Mihomo.Type_ (Mihomo.hysteria_part c s n) = "hysteria2" ∧
  Mihomo.Password (Mihomo.hysteria_part c s n) = s ∧ Mihomo.SNI (Mihomo.hysteria_part c s n) = n.
Proof. unfold Mihomo.hysteria_part. by destruct (Hysteria2 c). Qed.

Lemma plain_protocols c : valid c = true → protocol c = ProtocolShadowsocks ∨ protocol c = ProtocolSOCKS5 → Security.enabled (tls c) = false.
Proof.
  intros Hv [Hp|Hp].
  - unfold valid in Hv. rewrite Hp in Hv. simpl in Hv. split_all_in Hv; bool_to_prop; done.
  - destruct (valid_spec c Hv) as (_&_&_&_&_&Ha&_). unfold advanced_valid in Ha. rewrite Hp in Ha.
    destruct (advanced c) as [a|]; [|done]. simpl in Ha. split_all_in Ha; by bool_to_prop.
Qed.

(** What the protocol switch of an engine determines. *)
Definition protocol_determined (c c' : Configuration) : Prop :=
  protocol c = protocol c' ∧ Credential.Reveal (credential c) = Credential.Reveal (credential c') ∧
  (protocol c = ProtocolSOCKS5 ∨ protocol c = ProtocolHTTPProxy → Credential.username (credential c) = Credential.username (credential c')) ∧
  method c = method c'.
Lemma mihomo_protocol_inj c c' pp : wf c → wf c' → Mihomo.render_protocol c = Ok pp → Mihomo.render_protocol c' = Ok pp →
  protocol_determined c c' ∧ (Security.enabled (tls c) = true → Security.enabled (tls c') = true → Security.serverName (tls c) = Security.serverName (tls c')).
Proof.
  intros W W' P P'. pose proof (wf_method _ W) as M. pose proof (wf_method _ W') as M'.
  pose proof (hysteria_part_core c (Credential.Reveal (credential c)) (Security.serverName (tls c))) as (H1&H2&H3).
  pose proof (hysteria_part_core c' (Credential.Reveal (credential c')) (Security.serverName (tls c'))) as (H1'&H2'&H3').
  pose proof (plain_protocols c (wf_valid _ W)) as N.
  unfold protocol_determined, Mihomo.render_protocol in *.
  set (hp := Mihomo.hysteria_part c _ _) in *. set (hp' := Mihomo.hysteria_part c' _ _) in *. clearbody hp hp'.
  destruct (protocol c) eqn:E, (protocol c') eqn:E'; simplify_eq/=; try done;
    (split; [split_and!; try done; try congruence; try (by rewrite M, M'); naive_solver|]); intros He He'; rewrite ?He, ?He' in *; try congruence;
    naive_solver.
Qed.
Lemma singbox_protocol_inj c c' pp : wf c → wf c' → SingBox.render_protocol c = Ok pp → SingBox.render_protocol c' = Ok pp →
  protocol_determined c c'.
Proof.
  intros W W' P P'. pose proof (wf_method _ W) as M. pose proof (wf_method _ W') as M'.
  unfold protocol_determined, SingBox.render_protocol in *.
  destruct (protocol c) eqn:E, (protocol c') eqn:E'; try (destruct (Hysteria2 c)); try (destruct (Hysteria2 c')); simplify_eq/=; try done;
    (split_and!; try done; try congruence; try (by rewrite M, M'); naive_solver).
Qed.

Lemma security_eq (s s' : Security.SecurityOptions) : Security.alpn s = Security.alpn s' →
  Security.fingerprint s = Security.fingerprint s' → Security.reality s = Security.reality s' → s = s'.
Proof. destruct s, s'. simpl. by intros -> -> ->. Qed.

Lemma mihomo_hysteria_same c c' pp : made c → made c' → protocol c = protocol c' →
  Mihomo.render_protocol c = Ok pp → Mihomo.render_protocol c' = Ok pp → Hysteria2 c = Hysteria2 c'.
Proof.
  intros M M' Hp P P'. destruct (decide (protocol c = ProtocolHysteria2)) as [E|E]; [|by apply no_hysteria; [apply wf_valid, made_wf..|done|done]].
  pose proof E as E'. rewrite Hp in E'. unfold Mihomo.render_protocol in P, P'. rewrite E in P. rewrite E' in P'. simplify_eq.
  by eapply mihomo_hysteria_inj.
Qed.
Lemma server_ports_inj l k : Forall port_text l → Forall port_text k → SingBox.server_port <$> l = SingBox.server_port <$> k → l = k.
Proof.
  intros Hl. revert k. induction Hl as [|v l Hv _ IH]; intros [|w k] Hk E; try done. inversion_clear Hk as [|? ? Hw Hk'].
  rewrite !fmap_cons in E. injection E as E1 E2. f_equal; [by apply server_port_inj|by apply IH].
Qed.
Lemma singbox_hysteria_same c c' pp : made c → made c' → protocol c = protocol c' →
  SingBox.render_protocol c = Ok pp → SingBox.render_protocol c' = Ok pp → Hysteria2 c = Hysteria2 c'.
Proof.
  intros M M' Hp P P'. destruct (decide (protocol c = ProtocolHysteria2)) as [E|E]; [|by apply no_hysteria; [apply wf_valid, made_wf..|done|done]].
  pose proof E as E'. rewrite Hp in E'. unfold SingBox.render_protocol in P, P'. rewrite E in P. rewrite E' in P'.
  apply hysteria_protocol in E as [h Hh]; [|by apply wf_valid, made_wf]. apply hysteria_protocol in E' as [h' Hh']; [|by apply wf_valid, made_wf].
  pose proof (made_hysteria_options _ _ M Hh) as O. pose proof (made_hysteria_options _ _ M' Hh') as O'.
  rewrite Hh in *. rewrite Hh' in *. injection P as <-. injection P' as _ Eu Ed Eo _ Ep. f_equal.
  apply hysteria_eq; [done|done| |apply server_ports_inj; auto using made_ports_text].
  apply obfs_inj; [by apply made_hysteria_wf..|]. repeat case_bool_decide; congruence.
Qed.

(** C40: Mihomo tells two constructed connections apart by everything but the TLS settings of a connection without TLS:
    if they render to the same proxy they have the same name, protocol, server, port, credential, transport, TLS
    settings, method, flow, security options (ALPN, fingerprint, Reality) and Hysteria2 options (bandwidths,
    obfuscation password, port ranges): the renderer drops and confuses none of them. *)
Theorem mihomo_rendering_faithful n n' c c' p : made c → made c' →
  Mihomo.renderProxy n c = Ok p → Mihomo.renderProxy n' c' = Ok p →
  n = n' ∧ Address.port (address c) = Address.port (address c') ∧ same_rendering c c'.
Proof.
  intros M M' R R'. pose proof (made_wf _ M) as W. pose proof (made_wf _ M') as W'. unfold Mihomo.renderProxy in R, R'. cbv zeta in R, R'.
  apply result_bind_Ok in R as (?&_&R). apply result_bind_Ok in R as (pp&P&R). apply result_bind_Ok in R as (tp&T&R).
  apply result_bind_Ok in R' as (?&_&R'). apply result_bind_Ok in R' as (pp'&P'&R'). apply result_bind_Ok in R' as (tp'&T'&R').
  injection R as <-. injection R' as Hn Hh Hport Ht Hv Hf%flow_String_inj Ha Hfp Hr -> ->.
  destruct (mihomo_protocol_inj c c' pp W W' P P') as [(Hp&Hs&Hu&Hm) Hname].
  split; [done|]. split; [done|]. split; try done; auto.
  - by apply credential_eq.
  - eapply mihomo_transport_inj; eauto using wf_valid, wf_transport.
  - intros He. apply Hname; congruence.
  - apply security_eq; [done|done|]. by destruct (Security.reality (SecurityOptions_ c)) as [[]|], (Security.reality (SecurityOptions_ c')) as [[]|]; simplify_eq/=.
  - by eapply mihomo_hysteria_same.
Qed.

Lemma render_tls_inj c c' : valid c = true → valid c' = true → SingBox.render_tls c = SingBox.render_tls c' →
  Security.enabled (tls c) = Security.enabled (tls c') ∧
  (Security.enabled (tls c) = true → Security.insecureSkipVerify (tls c) = Security.insecureSkipVerify (tls c') ∧
    Security.serverName (tls c) = Security.serverName (tls c')) ∧ SecurityOptions_ c = SecurityOptions_ c'.
Proof.
  intros V V' R. unfold SingBox.render_tls in R. pose proof (security_needs_tls c V) as N. pose proof (security_needs_tls c' V') as N'.
  destruct (Security.enabled (tls c)), (Security.enabled (tls c')); try done.
  - injection R as Hn Hi Ha Hf Hr. split_and!; [done|done|]. apply security_eq; [done| |].
    + repeat case_bool_decide; congruence.
    + by destruct (Security.reality (SecurityOptions_ c)) as [[]|], (Security.reality (SecurityOptions_ c')) as [[]|]; simplify_eq/=.
  - rewrite N, N' by done. done.
Qed.
Lemma singbox_port c pp : SingBox.render_protocol c = Ok pp → protocol c ≠ ProtocolHysteria2 → SingBox.ServerPort pp = Address.port (address c).
Proof. unfold SingBox.render_protocol. intros P Hp. by destruct (protocol c); simplify_eq/=. Qed.

(** sing-box tells two constructed connections apart by everything but the TLS settings of a connection without
    TLS: if they render to the same outbound they have the same tag, protocol, server, credential, transport, TLS
    settings, method, flow, security options and Hysteria2 options, and the same port unless Hysteria2 port ranges
    replace it. *)
Theorem singbox_rendering_faithful n n' c c' o : made c → made c' →
  SingBox.renderOutbound n c = Ok o → SingBox.renderOutbound n' c' = Ok o →
  n = n' ∧ (protocol c ≠ ProtocolHysteria2 → Address.port (address c) = Address.port (address c')) ∧ same_rendering c c'.
Proof.
  intros M M' R R'. pose proof (made_wf _ M) as W. pose proof (made_wf _ M') as W'. unfold SingBox.renderOutbound in R, R'.
  apply result_bind_Ok in R as (?&_&R). apply result_bind_Ok in R as (pp&P&R). apply result_bind_Ok in R as (tp&T&R).
  apply result_bind_Ok in R' as (?&_&R'). apply result_bind_Ok in R' as (pp'&P'&R'). apply result_bind_Ok in R' as (tp'&T'&R').
  injection R as <-. injection R' as Hn Hh Hf%flow_String_inj Ht -> ->.
  destruct (singbox_protocol_inj c c' pp W W' P P') as (Hp&Hs&Hu&Hm).
  destruct (render_tls_inj c c') as (He&Hx&Hsec); eauto using wf_valid.
  split; [done|]. split; [intros Hy; by rewrite <-(singbox_port c pp P Hy), (singbox_port c' pp P') by congruence|].
  split; try done; try (by intros ?; apply Hx).
  - by apply credential_eq.
  - eapply singbox_transport_inj; eauto using wf_valid, wf_transport.
  - by eapply singbox_hysteria_same.
Qed.

Module RenderSample.
Definition c : Configuration := Sample.vless Sample.uuid1.
Definition options (password : string) : Security.Hysteria2Options :=
  {| Security.upMbps := 50; Security.downMbps := 100; Security.obfsPassword := Some password; Security.portRanges := ["443"; "2000:2010"] |}.
(** Hysteria2 connections that differ in the obfuscation password only. *)
Definition hysteria_ (password : string) : Configuration :=
  {| protocol := ProtocolHysteria2; address := Sample.address;
     credential := {| Credential.protocol := ProtocolHysteria2; Credential.secret := Some "pw"; Credential.username := "" |};
     transport := Transport.NewQUICTransport; tls := Sample.tls; method := "";
     advanced := Some {| flow := Security.FlowNone; security := Security.no_options; hysteria := Some (options password) |} |}.
Lemma hysteria_made password : password = "x" ∨ password = "y" → made (hysteria_ password).
Proof.
  intros Hp. apply (made_extended ProtocolHysteria2 "Example.com" 443 Sample.address
    {| Credential.protocol := ProtocolHysteria2; Credential.secret := Some "pw"; Credential.username := "" |} Transport.NewQUICTransport
    {| Security.enabled := true; Security.serverName := ""; Security.insecureSkipVerify := false |} Security.no_options Security.FlowNone
    (Some (options password))).
  - reflexivity.
  - apply (made_hysteria2 "pw"). reflexivity.
  - constructor.
  - apply (made_enabled "" false). reflexivity.
  - constructor.
  - intros h [= <-]. apply (made_ports 50 100 password ["443:443"; "2000:2010"]). destruct Hp as [-> | ->]; vm_compute; reflexivity.
  - destruct Hp as [-> | ->]; vm_compute; reflexivity.
Qed.
Definition gateway : Gateway := {| inventory := [EngineSample.record]; listener := EngineSample.listener |}.
Lemma gateway_made : NewGateway [EngineSample.record] EngineSample.listener = Ok gateway.
Proof. reflexivity. Qed.
End RenderSample.

Lemma mihomo_document_complete_witness :
  ((∃ c, @Mihomo.Render toy_digest (λ _, Some "doc") RenderSample.gateway = Ok c) ↔ admitted Mihomo11931 [EngineSample.record]) ∧
  ∀ c, @Mihomo.Render toy_digest (λ _, Some "doc") RenderSample.gateway = Ok c → profile c = Mihomo11931 ∧ content c ≠ "" ∧
    ∃ d, @Mihomo.document toy_digest RenderSample.gateway = Ok d ∧
    Mihomo.Groups d = [("egressfox", "select", Mihomo.Name <$> Mihomo.Proxies d)] ∧ NoDup (Mihomo.Name <$> Mihomo.Proxies d) ∧
    length (Mihomo.Proxies d) = 1 ∧ (Mihomo.Authentication d = [] ↔ Managed EngineSample.listener = false).
Proof.
  apply (@mihomo_document_complete toy_digest (λ _, Some "doc")) with (rs := [EngineSample.record]).
  - intros d. by exists "doc".
  - vm_compute. discriminate.
  - apply RenderSample.gateway_made.
Defined.

Lemma singbox_document_complete_witness :
  ∃ res, @SingBox.Render toy_digest (λ _, Some "doc") RenderSample.gateway = Some res ∧
  ((∃ c, res = Ok c) ↔ admitted SingBox1141 [EngineSample.record]) ∧
  ∀ c, res = Ok c → profile c = SingBox1141 ∧ content c ≠ "" ∧ ∃ d, @SingBox.document toy_digest RenderSample.gateway = Some (Ok d) ∧
    SingBox.Selector d = SingBox.Tag <$> SingBox.Outbounds d ∧ NoDup (SingBox.Selector d) ∧ SingBox.Default d ∈ SingBox.Selector d ∧
    length (SingBox.Outbounds d) = 1 ∧ (SingBox.Users d = [] ↔ Managed EngineSample.listener = false).
Proof.
  apply (@singbox_document_complete toy_digest (λ _, Some "doc")) with (rs := [EngineSample.record]).
  - intros d. by exists "doc".
  - vm_compute. discriminate.
  - apply RenderSample.gateway_made.
Defined.

Lemma mihomo_rendering_faithful_witness :
  ∃ p p', Mihomo.renderProxy "a" (RenderSample.hysteria_ "x") = Ok p ∧ Mihomo.renderProxy "a" (RenderSample.hysteria_ "y") = Ok p' ∧ p ≠ p' ∧
    Mihomo.Ports (Mihomo.protocol_part p) = "443,2000-2010" ∧ same_rendering (RenderSample.hysteria_ "x") (RenderSample.hysteria_ "x").
Proof.
  destruct (Mihomo.renderProxy "a" (RenderSample.hysteria_ "x")) as [p|] eqn:E; [|vm_compute in E; discriminate E].
  destruct (Mihomo.renderProxy "a" (RenderSample.hysteria_ "y")) as [p'|] eqn:E'; [|vm_compute in E'; discriminate E'].
  exists p, p'. split; [reflexivity|]. split; [reflexivity|]. split; [|split; [vm_compute in E; injection E as <-; reflexivity|]].
  2: { apply (mihomo_rendering_faithful "a" "a" (RenderSample.hysteria_ "x") (RenderSample.hysteria_ "x") p); [apply RenderSample.hysteria_made; auto..|exact E|exact E]. }
  intros <-. destruct (mihomo_rendering_faithful "a" "a" (RenderSample.hysteria_ "x") (RenderSample.hysteria_ "y") p) as (_ & _ & Hs);
    [apply RenderSample.hysteria_made; auto..|exact E|exact E'|]. pose proof (sr_hysteria _ _ Hs) as H. discriminate H.
Defined.
Lemma singbox_rendering_faithful_witness :
  "a" = "a" ∧ (ProtocolVLESS ≠ ProtocolHysteria2 → 443%Z = 443%Z) ∧ same_rendering RenderSample.c RenderSample.c.
Proof.
  eapply (singbox_rendering_faithful "a" "a" RenderSample.c RenderSample.c);
    [apply Sample.vless_made; auto..|vm_compute; reflexivity|vm_compute; reflexivity].
Defined.
