(* ===== verification/Authorize.v ===== *)
(** * Destination authorization (internal/probe/authorize.go)

    Which resolved addresses a probe may connect to.  The predicates of
    net/netip are written with the bit operations of its source; the theorems
    give the accepted set as explicit address intervals, and show that a host
    is accepted only if every address it resolves to is. *)
From S2P Require Import Prelude Order Bytes Netip Engine.
From Stdlib Require String.
Open Scope Z_scope.

(** ** net/netip *)

(** [Addr.Unmap] also drops the zone. *)
Definition Unmap (a : ipaddr) : ipaddr :=
  match a with IPv6 v _ => if is4_in6 v then IPv4 (v `mod` 4294967296) else a | IPv4 _ => a end.

(** The byte [i] of an IPv4 address, the first byte and the first 16 bits of an IPv6 address. *)
Definition v4 (v i : Z) : Z := Z.land (Z.shiftr v (8 * (3 - i))) 255.
Definition v6_0 (v : Z) : Z := Z.shiftr v 120.
Definition v6u16_0 (v : Z) : Z := Z.shiftr v 112.

Definition IsMulticast (a : ipaddr) : bool :=
  match a with IPv4 v => Z.land (v4 v 0) 0xf0 =? 0xe0 | IPv6 v _ => v6_0 v =? 0xff end.
Definition IsLinkLocalUnicast (a : ipaddr) : bool :=
  match a with
  | IPv4 v => (v4 v 0 =? 169) && (v4 v 1 =? 254)
  | IPv6 v _ => Z.land (v6u16_0 v) 0xffc0 =? 0xfe80
  end.
Definition IsLinkLocalMulticast (a : ipaddr) : bool :=
  match a with
  | IPv4 v => (v4 v 0 =? 224) && (v4 v 1 =? 0) && (v4 v 2 =? 0)
  | IPv6 v _ => Z.land (v6u16_0 v) 0xff0f =? 0xff02
  end.
Definition IsPrivate (a : ipaddr) : bool :=
  match a with
  | IPv4 v => (v4 v 0 =? 10) || ((v4 v 0 =? 172) && (Z.land (v4 v 1) 0xf0 =? 16)) || ((v4 v 0 =? 192) && (v4 v 1 =? 168))
  | IPv6 v _ => Z.land (v6_0 v) 0xfe =? 0xfc
  end.

(** [Prefix.Contains]; [mask6 n] has the first [n] of 128 bits set. *)
Definition mask6 (n : Z) : Z := Z.shiftl (Z.ones n) (128 - n).
Definition Contains (p : ipaddr * Z) (a : ipaddr) : bool :=
  match p.1, a with
  | IPv4 x, IPv4 v => Z.shiftr (Z.lxor v x) (32 - p.2) =? 0
  | IPv6 x _, IPv6 v z => bool_decide (z = "") && (Z.land (Z.lxor v x) (mask6 p.2) =? 0)
  | _, _ => false
  end.

(** [Addr.Compare]: by family, value and zone. *)
Definition addr_value (a : ipaddr) : Z := match a with IPv4 v => v | IPv6 v _ => v end.
Definition bit_len (a : ipaddr) : Z := match a with IPv4 _ => 32 | IPv6 _ _ => 128 end.
Definition addr_compare : ipaddr → ipaddr → comparison :=
  cmp_lex (cmp_on bit_len Z.compare) (cmp_lex (cmp_on addr_value Z.compare) (cmp_on addr_zone bytes_compare)).

(** ** authorize.go *)

Definition MustParseAddr (s : string) : ipaddr := default (IPv4 0) (parse_addr s).
Definition sharedOrControlPrefixes : list (ipaddr * Z) :=
  [(MustParseAddr "0.0.0.0", 8); (MustParseAddr "100.64.0.0", 10); (MustParseAddr "192.0.0.0", 24);
   (MustParseAddr "198.18.0.0", 15); (MustParseAddr "192.0.2.0", 24); (MustParseAddr "198.51.100.0", 24);
   (MustParseAddr "203.0.113.0", 24); (MustParseAddr "240.0.0.0", 4); (MustParseAddr "2001:db8::", 32)].
Definition metadataAddresses : list ipaddr :=
  MustParseAddr <$> ["169.254.169.254"; "169.254.170.2"; "100.100.100.200"; "fd00:ec2::254"].

Definition isSharedOrControlAddress (a : ipaddr) : bool := existsb (λ p, Contains p a) sharedOrControlPrefixes.

(** An [netip.Addr] is [None] when it is not valid. *)
Definition authorizedAddress (address : option ipaddr) (allowPrivate : bool) : bool :=
  match Unmap <$> address with
  | None => false
  | Some a =>
      if bool_decide (a ∈ metadataAddresses) then false
      else if bool_decide (addr_zone a ≠ "") || IsUnspecified a || IsMulticast a || IsLinkLocalUnicast a ||
              IsLinkLocalMulticast a || isSharedOrControlAddress a then false
      else if negb allowPrivate && (IsPrivate a || IsLoopback a) then false else true
  end.

(** [ctx.Err()] and [contextCode]. *)
Inductive context_err := ContextLive | DeadlineExceeded | Canceled.
#[global] Instance context_err_eq_dec : EqDecision context_err.
Proof. solve_decision. Defined.
Definition contextCode (ctx : context_err) (fallback : string) : string :=
  match ctx with DeadlineExceeded => "timeout" | Canceled => "cancelled" | ContextLive => fallback end.

(** [authorizeHost]; [lookup] is what [LookupNetIP] returns, [ctx] the
    context after it.  The loop stops at the first denied address. *)
Definition authorizeHost (ctx : context_err) (lookup : string → option (list (option ipaddr))) (host : string)
    (allowPrivate : bool) (subject : string) : result string ipaddr :=
  addresses ← match parse_addr host with
              | Some literal => Ok [Some literal]
              | None => match lookup host with
                        | Some l => Ok l
                        | None => Err (contextCode ctx (subject +:+ "_resolution"))
                        end
              end;
  if bool_decide (addresses = []) then Err (subject +:+ "_resolution_empty")
  else if negb (forallb (λ a, authorizedAddress (Unmap <$> a) allowPrivate) addresses) then Err (subject +:+ "_address_denied")
  else match go_sort addr_compare (Unmap <$> omap id addresses) with
       | a :: _ => Ok a
       | [] => Err (subject +:+ "_resolution_empty")
       end.

(** ** The accepted addresses as intervals *)

(** An address of 32 or 128 bits. *)
Definition addr_ok (a : ipaddr) : Prop := 0 ≤ addr_value a < 2 ^ bit_len a.
Definition within (v : Z) (b : Z * Z) : Prop := b.1 ≤ v ≤ b.2.

Definition denied4 : list (Z * Z) :=
  [(0x00000000, 0x00ffffff);   (* 0.0.0.0/8, this network *)
   (0x64400000, 0x647fffff);   (* 100.64.0.0/10, shared *)
   (0xa9fe0000, 0xa9feffff);   (* 169.254.0.0/16, link-local and metadata *)
   (0xc0000000, 0xc00000ff);   (* 192.0.0.0/24, protocol assignments *)
   (0xc0000200, 0xc00002ff);   (* 192.0.2.0/24, documentation *)
   (0xc6120000, 0xc613ffff);   (* 198.18.0.0/15, benchmarking *)
   (0xc6336400, 0xc63364ff);   (* 198.51.100.0/24, documentation *)
   (0xcb007100, 0xcb0071ff);   (* 203.0.113.0/24, documentation *)
   (0xe0000000, 0xffffffff)].  (* 224.0.0.0/3, multicast, reserved and broadcast *)
Definition private4 : list (Z * Z) :=
  [(0x0a000000, 0x0affffff);   (* 10.0.0.0/8 *)
   (0x7f000000, 0x7fffffff);   (* 127.0.0.0/8, loopback *)
   (0xac100000, 0xac1fffff);   (* 172.16.0.0/12 *)
   (0xc0a80000, 0xc0a8ffff)].  (* 192.168.0.0/16 *)
Definition denied6 : list (Z * Z) :=
  [(0, 0);                                                                         (* unspecified *)
   (0x20010db8000000000000000000000000, 0x20010db8ffffffffffffffffffffffff);       (* 2001:db8::/32, documentation *)
   (0xfd000ec2000000000000000000000254, 0xfd000ec2000000000000000000000254);       (* metadata *)
   (0xfe800000000000000000000000000000, 0xfebfffffffffffffffffffffffffffff);       (* fe80::/10, link-local *)
   (0xff000000000000000000000000000000, 0xffffffffffffffffffffffffffffffff)].      (* ff00::/8, multicast *)
Definition private6 : list (Z * Z) :=
  [(1, 1);                                                                         (* loopback *)
   (0xfc000000000000000000000000000000, 0xfdffffffffffffffffffffffffffffff)].      (* fc00::/7, unique local *)

Definition permitted (allowPrivate : bool) (a : ipaddr) : Prop :=
  match a with
  | IPv4 v => ¬ Exists (within v) denied4 ∧ (allowPrivate = false → ¬ Exists (within v) private4)
  | IPv6 v z => z = "" ∧ ¬ Exists (within v) denied6 ∧ (allowPrivate = false → ¬ Exists (within v) private6)
  end.

(** Division by constants in linear arithmetic. *)
#[local] Ltac Zify.zify_post_hook ::= Z.to_euclidean_division_equations.

Lemma land_byte x : Z.land x 255 = x `mod` 256.
Proof. exact (Z.land_ones x 8 ltac:(lia)). Qed.
(** A mask of the high bits keeps the quotient. *)
Lemma land_high n k x : 0 ≤ k ≤ n → 0 ≤ x < 2 ^ n → Z.land x (Z.shiftl (Z.ones (n - k)) k) = 2 ^ k * (x / 2 ^ k).
Proof.
  intros Hk Hx. apply Z.bits_inj_iff'. intros i Hi. rewrite Z.land_spec, Z.shiftl_spec by done.
  rewrite (Z.mul_comm (2 ^ k)), <-Z.shiftl_mul_pow2, <-Z.shiftr_div_pow2 by lia. rewrite Z.shiftl_spec by done.
  destruct (decide (i < k)) as [Hlt|Hge].
  { rewrite !(Z.testbit_neg_r _ (i - k)) by lia. apply andb_false_r. }
  rewrite Z.shiftr_spec by lia. replace (i - k + k) with i by lia.
  destruct (decide (i < n)) as [Hin|Hin].
  - rewrite Z.ones_spec_low by lia. apply andb_true_r.
  - replace (Z.testbit x i) with false; [done|]. symmetry. destruct (decide (x = 0)) as [->|]; [apply Z.bits_0|].
    apply Z.bits_above_log2; [lia|]. apply Z.log2_lt_pow2; [lia|]. assert (2 ^ n ≤ 2 ^ i) by (apply Z.pow_le_mono_r; lia). lia.
Qed.
Lemma land_f0 x : 0 ≤ x < 256 → Z.land x 0xf0 = 16 * (x / 16).
Proof. intros Hx. exact (land_high 8 4 x ltac:(lia) Hx). Qed.
Lemma land_fe x : 0 ≤ x < 256 → Z.land x 0xfe = 2 * (x / 2).
Proof. intros Hx. exact (land_high 8 1 x ltac:(lia) Hx). Qed.
Lemma land_ffc0 x : 0 ≤ x < 65536 → Z.land x 0xffc0 = 64 * (x / 64).
Proof. intros Hx. exact (land_high 16 6 x ltac:(lia) Hx). Qed.
Lemma land_ff0f x : 0 ≤ x < 65536 → Z.land x 0xff0f = 0xff02 → x / 256 = 255.
Proof.
  intros Hx E. apply (f_equal (λ y, Z.shiftr y 8)) in E. rewrite Z.shiftr_land, Z.shiftr_div_pow2 in E by lia.
  change (Z.shiftr 0xff0f 8) with 255 in E. rewrite land_byte in E. change (Z.shiftr 0xff02 8) with 255 in E.
  change (2 ^ 8) with 256 in E. rewrite Z.mod_small in E; lia.
Qed.

(** A prefix is an interval. *)
Lemma block_spec k x v : 0 ≤ k → x `mod` 2 ^ k = 0 → v / 2 ^ k = x / 2 ^ k ↔ within v (x, x + 2 ^ k - 1).
Proof.
  intros Hk Hx. assert (0 < 2 ^ k) as Hp by (apply Z.pow_pos_nonneg; lia). unfold within. cbn [fst snd].
  pose proof (Z.div_mod v (2 ^ k) ltac:(lia)) as Ev. pose proof (Z.div_mod x (2 ^ k) ltac:(lia)) as Ex.
  pose proof (Z.mod_pos_bound v (2 ^ k) Hp) as Hb. rewrite Hx in Ex. split.
  - intros E. rewrite E in Ev. generalize dependent (2 ^ k * (x / 2 ^ k)). generalize dependent (v `mod` 2 ^ k). intros. lia.
  - intros Hv. symmetry. apply Z.div_unique with (v - x); [left; lia|].
    generalize dependent (2 ^ k * (x / 2 ^ k)). intros. lia.
Qed.
Lemma lxor_shiftr v x k : 0 ≤ k → Z.shiftr (Z.lxor v x) k = 0 ↔ v / 2 ^ k = x / 2 ^ k.
Proof. intros Hk. rewrite Z.shiftr_lxor, Z.lxor_eq_0_iff, !Z.shiftr_div_pow2 by done. done. Qed.
Lemma contains4 x n v : 0 ≤ n ≤ 32 → x `mod` 2 ^ (32 - n) = 0 →
  Contains (IPv4 x, n) (IPv4 v) = true ↔ within v (x, x + 2 ^ (32 - n) - 1).
Proof.
  intros Hn Hx. rewrite <-block_spec by (done || lia). unfold Contains. cbn [fst snd]. rewrite Z.eqb_eq. apply lxor_shiftr. lia.
Qed.
Lemma lxor_bound v x n : 0 < n → 0 ≤ v < 2 ^ n → 0 ≤ x < 2 ^ n → 0 ≤ Z.lxor v x < 2 ^ n.
Proof.
  intros Hn Hv Hx. assert (0 ≤ Z.lxor v x) by (apply Z.lxor_nonneg; lia). split; [done|].
  destruct (decide (Z.lxor v x = 0)) as [->|Hne]; [lia|].
  apply Z.log2_lt_pow2; [lia|]. pose proof (Z.log2_lxor v x ltac:(lia) ltac:(lia)).
  assert (Z.log2 v < n) by (destruct (decide (v = 0)) as [->|]; [done|apply Z.log2_lt_pow2; lia]).
  assert (Z.log2 x < n) by (destruct (decide (x = 0)) as [->|]; [done|apply Z.log2_lt_pow2; lia]). lia.
Qed.
Lemma contains6 x n v : 0 ≤ n ≤ 128 → 0 ≤ v < 2 ^ 128 → 0 ≤ x < 2 ^ 128 → x `mod` 2 ^ (128 - n) = 0 →
  Contains (IPv6 x "", n) (IPv6 v "") = true ↔ within v (x, x + 2 ^ (128 - n) - 1).
Proof.
  intros Hn Hv Hx Hm. rewrite <-block_spec by (done || lia).
  unfold Contains, mask6. cbn [fst snd]. rewrite bool_decide_true, andb_true_l, Z.eqb_eq by done.
  rewrite <-lxor_shiftr by lia. replace (Z.ones n) with (Z.ones (128 - (128 - n))) by (f_equal; lia).
  rewrite land_high, Z.shiftr_div_pow2 by (lia || by apply lxor_bound).
  assert (0 < 2 ^ (128 - n)) by (apply Z.pow_pos_nonneg; lia). nia.
Qed.

Lemma v4_spec v i : v4 v i = (v / 2 ^ (8 * (3 - i))) `mod` 256 ∨ i > 3.
Proof. destruct (decide (i > 3)); [by right|left]. unfold v4. rewrite land_byte, Z.shiftr_div_pow2 by lia. done. Qed.
Lemma v4_0 v : 0 ≤ v < 2 ^ 32 → v4 v 0 = v / 16777216.
Proof. intros Hv. destruct (v4_spec v 0) as [->|]; [|lia]. change (2 ^ (8 * (3 - 0))) with 16777216. lia. Qed.
Lemma v4_1 v : v4 v 1 = (v / 65536) `mod` 256.
Proof. by destruct (v4_spec v 1) as [->|]; [|lia]. Qed.
Lemma v4_2 v : v4 v 2 = (v / 256) `mod` 256.
Proof. by destruct (v4_spec v 2) as [->|]; [|lia]. Qed.

Lemma prefixes_eval : sharedOrControlPrefixes =
  [(IPv4 0, 8); (IPv4 0x64400000, 10); (IPv4 0xc0000000, 24); (IPv4 0xc6120000, 15); (IPv4 0xc0000200, 24);
   (IPv4 0xc6336400, 24); (IPv4 0xcb007100, 24); (IPv4 0xf0000000, 4); (IPv6 0x20010db8000000000000000000000000 "", 32)].
Proof. vm_compute. reflexivity. Qed.
Lemma metadata_eval : metadataAddresses =
  [IPv4 0xa9fea9fe; IPv4 0xa9feaa02; IPv4 0x646464c8; IPv6 0xfd000ec2000000000000000000000254 ""].
Proof. vm_compute. reflexivity. Qed.

Lemma shared4 v : isSharedOrControlAddress (IPv4 v) = true ↔
  Exists (within v) [(0x00000000, 0x00ffffff); (0x64400000, 0x647fffff); (0xc0000000, 0xc00000ff); (0xc6120000, 0xc613ffff);
    (0xc0000200, 0xc00002ff); (0xc6336400, 0xc63364ff); (0xcb007100, 0xcb0071ff); (0xf0000000, 0xffffffff)].
Proof.
  unfold isSharedOrControlAddress. rewrite prefixes_eval. cbn [existsb].
  change (Contains _ _ || false) with false. rewrite !orb_true_iff, !contains4 by (done || lia).
  rewrite !Exists_cons, Exists_nil. assert (false = true ↔ False) as -> by done. reflexivity.
Qed.
Lemma shared6 v : 0 ≤ v < 2 ^ 128 → isSharedOrControlAddress (IPv6 v "") = true ↔
  within v (0x20010db8000000000000000000000000, 0x20010db8ffffffffffffffffffffffff).
Proof.
  intros Hv. unfold isSharedOrControlAddress. rewrite prefixes_eval. cbn [existsb]. rewrite !orb_true_iff.
  rewrite contains6 by (done || lia). cbn [Contains fst snd]. assert (false = true ↔ False) as -> by done. tauto.
Qed.

(** ** Each predicate as an interval *)

Section intervals4.
Context (v : Z) (Hv : 0 ≤ v < 4294967296).
Lemma multicast4 : IsMulticast (IPv4 v) = true ↔ within v (0xe0000000, 0xefffffff).
Proof. unfold IsMulticast, within. rewrite v4_0, land_f0, Z.eqb_eq by lia. cbn [fst snd]. lia. Qed.
Lemma link_local4 : IsLinkLocalUnicast (IPv4 v) = true ↔ within v (0xa9fe0000, 0xa9feffff).
Proof. unfold IsLinkLocalUnicast, within. rewrite v4_0, v4_1, andb_true_iff, !Z.eqb_eq by lia. cbn [fst snd]. lia. Qed.
Lemma link_local_multicast4 : IsLinkLocalMulticast (IPv4 v) = true → within v (0xe0000000, 0xefffffff).
Proof. unfold IsLinkLocalMulticast, within. rewrite v4_0, !andb_true_iff, !Z.eqb_eq by lia. cbn [fst snd]. lia. Qed.
Lemma private4_spec : IsPrivate (IPv4 v) = true ↔
  Exists (within v) [(0x0a000000, 0x0affffff); (0xac100000, 0xac1fffff); (0xc0a80000, 0xc0a8ffff)].
Proof.
  unfold IsPrivate. rewrite v4_0, !v4_1, land_f0, !orb_true_iff, !andb_true_iff, !Z.eqb_eq by lia.
  rewrite !Exists_cons, Exists_nil. unfold within. cbn [fst snd]. lia.
Qed.
Lemma loopback4 : IsLoopback (IPv4 v) = true ↔ within v (0x7f000000, 0x7fffffff).
Proof. unfold IsLoopback, within. rewrite Z.eqb_eq. cbn [fst snd]. lia. Qed.
End intervals4.

Section intervals6.
Context (v : Z) (Hv : 0 ≤ v < 2 ^ 128).
Lemma v6_0_spec : v6_0 v = v / 2 ^ 120 ∧ 0 ≤ v / 2 ^ 120 < 256.
Proof. unfold v6_0. rewrite Z.shiftr_div_pow2 by lia. split; [done|]. lia. Qed.
Lemma v6u16_0_spec : v6u16_0 v = v / 2 ^ 112 ∧ 0 ≤ v / 2 ^ 112 < 65536.
Proof. unfold v6u16_0. rewrite Z.shiftr_div_pow2 by lia. split; [done|]. lia. Qed.
Lemma multicast6 z : IsMulticast (IPv6 v z) = true ↔
  within v (0xff000000000000000000000000000000, 0xffffffffffffffffffffffffffffffff).
Proof. destruct v6_0_spec as [E ?]. unfold IsMulticast, within. rewrite E, Z.eqb_eq. cbn [fst snd]. lia. Qed.
Lemma link_local6 z : IsLinkLocalUnicast (IPv6 v z) = true ↔
  within v (0xfe800000000000000000000000000000, 0xfebfffffffffffffffffffffffffffff).
Proof.
  destruct v6u16_0_spec as [E ?]. unfold IsLinkLocalUnicast, within. rewrite E, land_ffc0, Z.eqb_eq by done. cbn [fst snd]. lia.
Qed.
Lemma link_local_multicast6 z : IsLinkLocalMulticast (IPv6 v z) = true →
  within v (0xff000000000000000000000000000000, 0xffffffffffffffffffffffffffffffff).
Proof.
  destruct v6u16_0_spec as [E ?]. unfold IsLinkLocalMulticast, within. rewrite E, Z.eqb_eq. cbn [fst snd].
  intros ?%land_ff0f; [|done]. lia.
Qed.
Lemma private6_spec z : IsPrivate (IPv6 v z) = true ↔
  within v (0xfc000000000000000000000000000000, 0xfdffffffffffffffffffffffffffffff).
Proof. destruct v6_0_spec as [E ?]. unfold IsPrivate, within. rewrite E, land_fe, Z.eqb_eq by done. cbn [fst snd]. lia. Qed.
End intervals6.

(** The address is denied whatever the options, or denied as private. *)
Definition always_denied (a : ipaddr) : Prop :=
  a ∈ metadataAddresses ∨ addr_zone a ≠ "" ∨ IsUnspecified a = true ∨ IsMulticast a = true ∨ IsLinkLocalUnicast a = true ∨
  IsLinkLocalMulticast a = true ∨ isSharedOrControlAddress a = true.
Lemma authorizedAddress_split a allow : authorizedAddress (Some a) allow = true ↔
  ¬ always_denied (Unmap a) ∧ (allow = false → ¬ (IsPrivate (Unmap a) = true ∨ IsLoopback (Unmap a) = true)).
Proof.
  unfold authorizedAddress, always_denied. simpl fmap. generalize (Unmap a) as u. intros u. rewrite <-!orb_true_iff.
  case_bool_decide; [naive_solver|]. case_bool_decide; [naive_solver|]. cbn [orb].
  destruct (_ || isSharedOrControlAddress u) eqn:E.
  - rewrite !orb_true_iff in *. naive_solver.
  - rewrite !orb_false_iff in E. rewrite !orb_true_iff.
    destruct allow, (IsPrivate u), (IsLoopback u); simpl; naive_solver congruence.
Qed.

Lemma always_denied4 v : 0 ≤ v < 2 ^ 32 → always_denied (IPv4 v) ↔ Exists (within v) denied4.
Proof.
  intros Hv. change (2 ^ 32) with 4294967296 in Hv. unfold always_denied, denied4. cbn [addr_zone].
  rewrite multicast4, link_local4, shared4, metadata_eval by done. unfold IsUnspecified. rewrite Z.eqb_eq.
  pose proof (link_local_multicast4 v Hv) as Hm. rewrite !elem_of_cons, elem_of_nil, !Exists_cons, !Exists_nil.
  unfold within in *. cbn [fst snd] in *. split.
  - intros Hd. destruct_or! Hd; try (specialize (Hm Hd)); simplify_eq; try lia; try done.
  - intros Hd. clear Hm. destruct_or! Hd; try done; lia.
Qed.
Lemma always_denied6 v z : 0 ≤ v < 2 ^ 128 → always_denied (IPv6 v z) ↔ z ≠ "" ∨ Exists (within v) denied6.
Proof.
  intros Hv. unfold always_denied. cbn [addr_zone]. destruct (decide (z = "")) as [->|Hz]; [|by split; [left|right; left]].
  unfold denied6. rewrite multicast6, link_local6, shared6, metadata_eval by done. unfold IsUnspecified.
  rewrite bool_decide_true, andb_true_r, Z.eqb_eq by done.
  pose proof (link_local_multicast6 v Hv "") as Hm. rewrite !elem_of_cons, elem_of_nil, !Exists_cons, !Exists_nil.
  unfold within in *. cbn [fst snd] in *. split.
  - intros Hd. destruct_or! Hd; try (specialize (Hm Hd)); simplify_eq; try lia; try done.
  - intros [?|Hd]; [done|]. clear Hm. destruct_or! Hd; try done; [lia|lia| |lia|lia].
    left. do 3 right. left. f_equal. lia.
Qed.

Lemma Unmap_ok a : addr_ok a → addr_ok (Unmap a).
Proof. destruct a as [v|v z]; [done|]. unfold addr_ok. simpl. destruct (is4_in6 v); [|done]. simpl. lia. Qed.
Lemma Unmap_not_mapped a v z : Unmap a = IPv6 v z → is4_in6 v = false.
Proof. destruct a as [|v' z']; simpl; [done|]. destruct (is4_in6 v') eqn:E; [done|]. by intros [= <- <-]. Qed.
Lemma Unmap_idem a : Unmap (Unmap a) = Unmap a.
Proof. destruct (Unmap a) as [|v z] eqn:E; [done|]. simpl. by rewrite (Unmap_not_mapped _ _ _ E). Qed.

Lemma authorizedAddress_Unmap a allow : authorizedAddress (Some (Unmap a)) allow = authorizedAddress (Some a) allow.
Proof. unfold authorizedAddress. simpl. by rewrite Unmap_idem. Qed.

Lemma authorized_permitted a allow : addr_ok a → authorizedAddress (Some a) allow = true ↔ permitted allow (Unmap a).
Proof.
  intros Ha%Unmap_ok. rewrite authorizedAddress_split. destruct (Unmap a) as [v|v z] eqn:E; unfold permitted, addr_ok in *; simpl in Ha.
  - rewrite always_denied4, private4_spec, loopback4 by done.
    assert (Exists (within v) private4 ↔ Exists (within v) [(0x0a000000, 0x0affffff); (0xac100000, 0xac1fffff); (0xc0a80000, 0xc0a8ffff)] ∨
      within v (0x7f000000, 0x7fffffff)) as ->; [|done].
    unfold private4. rewrite !Exists_cons, Exists_nil. tauto.
  - rewrite always_denied6, private6_spec by done. unfold IsLoopback. rewrite (Unmap_not_mapped _ _ _ E), Z.eqb_eq.
    assert (Exists (within v) private6 ↔ within v (0xfc000000000000000000000000000000, 0xfdffffffffffffffffffffffffffffff) ∨ v = 1) as ->.
    { unfold private6. rewrite !Exists_cons, Exists_nil. unfold within. cbn [fst snd]. lia. }
    destruct (decide (z = "")); naive_solver.
Qed.

(** A probe may connect to a valid address exactly if, after unmapping an IPv4-in-IPv6 form, it has no zone and
    lies outside the listed special-purpose blocks, and outside the private and loopback blocks too unless private
    destinations are allowed: the prefix table, the metadata list and the netip predicates together accept no other
    address and refuse no other address. *)
Theorem authorized_exact a allowPrivate : addr_ok a →
  authorizedAddress (Some a) allowPrivate = true ↔ permitted allowPrivate (Unmap a).
Proof. apply authorized_permitted. Qed.

(** ** Hosts *)

#[global] Instance addr_compare_order : CmpOrder addr_compare.
Proof. apply _. Qed.

(** The addresses a host stands for: itself, if it is a literal, or what the resolver says. *)
Definition addresses_of (lookup : string → option (list (option ipaddr))) (host : string) : option (list (option ipaddr)) :=
  match parse_addr host with Some literal => Some [Some literal] | None => lookup host end.

Definition authorized (allow : bool) (a : option ipaddr) : bool := authorizedAddress (Unmap <$> a) allow.
Lemma authorized_Unmap allow a : authorized allow a = authorizedAddress a allow.
Proof. destruct a; [apply authorizedAddress_Unmap|done]. Qed.
Lemma all_valid l allow : forallb (authorized allow) l = true → Some <$> omap id l = l.
Proof.
  induction l as [|[a|] l IH]; [done| |done]. cbn [forallb]. intros [_ H]%andb_true_iff. csimpl. by rewrite IH.
Qed.

Lemma authorizeHost_eq ctx lookup host allow subject l : addresses_of lookup host = Some l →
  authorizeHost ctx lookup host allow subject =
    if bool_decide (l = []) then Err (subject +:+ "_resolution_empty")
    else if negb (forallb (authorized allow) l) then Err (subject +:+ "_address_denied")
    else match go_sort addr_compare (Unmap <$> omap id l) with a :: _ => Ok a | [] => Err (subject +:+ "_resolution_empty") end.
Proof.
  unfold addresses_of, authorizeHost. destruct (parse_addr host) as [a|]; [by intros [= <-]|]. by intros ->.
Qed.
Lemma authorizeHost_Ok ctx lookup host allow subject a : authorizeHost ctx lookup host allow subject = Ok a →
  ∃ l, addresses_of lookup host = Some l ∧ l ≠ [] ∧ forallb (authorized allow) l = true ∧
    ∃ rest, go_sort addr_compare (Unmap <$> omap id l) = a :: rest.
Proof.
  destruct (addresses_of lookup host) as [l|] eqn:El.
  - rewrite (authorizeHost_eq _ _ _ _ _ _ El). case_bool_decide; [done|]. destruct (forallb _ l) eqn:Ef; [|done]. simpl.
    destruct (go_sort _ _) as [|a' rest] eqn:Es; [done|]. intros [= ->]. eauto 6.
  - unfold addresses_of in El. unfold authorizeHost. destruct (parse_addr host); [done|]. by rewrite El.
Qed.

(** What an accepted host is pinned to. *)
Lemma authorizeHost_pinned ctx lookup host allow subject a : authorizeHost ctx lookup host allow subject = Ok a →
  ∃ l, addresses_of lookup host = Some l ∧
    (∀ x, x ∈ l → authorizedAddress x allow = true) ∧ (∃ x, Some x ∈ l ∧ a = Unmap x) ∧
    (∀ x, Some x ∈ l → addr_compare (Unmap x) a ≠ Lt) ∧ authorizedAddress (Some a) allow = true.
Proof.
  intros (l&El&Hne&Hf&rest&Es)%authorizeHost_Ok. exists l. pose proof (all_valid _ _ Hf) as Hl.
  assert (∀ x, x ∈ l → authorizedAddress x allow = true) as Hall.
  { intros x Hx. rewrite <-authorized_Unmap. rewrite forallb_forall in Hf. by apply Hf, list_elem_of_In. }
  assert (a ∈ Unmap <$> omap id l) as Ha by (rewrite <-(go_sort_elem_of addr_compare), Es; by left).
  split_and!; [done|done| | |].
  - apply list_elem_of_fmap in Ha as (x&->&Hx). exists x. split; [|done]. rewrite <-Hl. apply list_elem_of_fmap. by exists x.
  - intros x Hx Hlt. assert (Unmap x ∈ go_sort addr_compare (Unmap <$> omap id l)) as Hin.
    { rewrite go_sort_elem_of. apply list_elem_of_fmap. exists x. split; [done|].
      rewrite <-Hl in Hx. apply list_elem_of_fmap in Hx as (?&[= ->]&?). done. }
    pose proof (go_sort_sorted addr_compare (Unmap <$> omap id l)) as Hs. rewrite Es in Hin, Hs.
    apply elem_of_cons in Hin as [<-|Hin].
    * by rewrite (cmp_refl addr_compare) in Hlt.
    * inversion Hs as [|?? _ Hh]; subst. rewrite Forall_forall in Hh. apply (Hh _ Hin). apply (cmp_gt_lt addr_compare). exact Hlt.
  - apply list_elem_of_fmap in Ha as (x&->&Hx). rewrite authorizedAddress_Unmap. apply Hall. rewrite <-Hl.
    apply list_elem_of_fmap. by exists x.
Qed.

(** A host is authorized only if it resolves and every address it resolves to is authorized; the probe is then
    pinned to one of them, the least in address order whatever order the resolver answers in. One denied or invalid
    address among the answers refuses the host, and a host all of whose addresses are authorized is accepted. *)
Theorem authorize_host_all ctx lookup host allow subject :
  (∀ a, authorizeHost ctx lookup host allow subject = Ok a → ∃ l, addresses_of lookup host = Some l ∧
    (∀ x, x ∈ l → authorizedAddress x allow = true) ∧ (∃ x, Some x ∈ l ∧ a = Unmap x) ∧
    (∀ x, Some x ∈ l → addr_compare (Unmap x) a ≠ Lt) ∧ authorizedAddress (Some a) allow = true) ∧
  (∀ l x, addresses_of lookup host = Some l → x ∈ l → authorizedAddress x allow = false →
    authorizeHost ctx lookup host allow subject = Err (subject +:+ "_address_denied")) ∧
  (∀ l, addresses_of lookup host = Some l → l ≠ [] → (∀ x, x ∈ l → authorizedAddress x allow = true) →
    ∃ a, authorizeHost ctx lookup host allow subject = Ok a).
Proof.
  split_and!.
  - apply authorizeHost_pinned.
  - intros l x El Hx Hd. rewrite (authorizeHost_eq _ _ _ _ _ _ El), bool_decide_false by (intros ->; by apply not_elem_of_nil in Hx).
    destruct (forallb _ l) eqn:Ef; [|done]. rewrite forallb_forall in Ef. apply list_elem_of_In in Hx.
    specialize (Ef _ Hx). rewrite authorized_Unmap in Ef. congruence.
  - intros l El Hne Hall. rewrite (authorizeHost_eq _ _ _ _ _ _ El), bool_decide_false by done.
    assert (forallb (authorized allow) l = true) as Hf.
    { apply forallb_forall. intros x Hx%list_elem_of_In. rewrite authorized_Unmap. auto. }
    rewrite Hf. simpl. destruct (go_sort _ _) as [|a rest] eqn:Es; [|by exists a].
    apply (f_equal length) in Es. rewrite go_sort_length, length_fmap in Es. destruct Hne. rewrite <-(all_valid _ _ Hf).
    by destruct (omap id l).
Qed.

Lemma authorized_exact_witness :
  authorizedAddress (Some (IPv6 0xffff08080808 "")) false = true ∧ permitted false (Unmap (IPv6 0xffff08080808 "")) ∧
  authorizedAddress (Some (IPv4 0x0a000001)) false = false ∧ ¬ permitted false (Unmap (IPv4 0x0a000001)).
Proof.
  assert (addr_ok (IPv6 0xffff08080808 "")) as H1 by (unfold addr_ok; simpl; lia).
  assert (addr_ok (IPv4 0x0a000001)) as H2 by (unfold addr_ok; simpl; lia).
  split_and!; [vm_compute; reflexivity| |vm_compute; reflexivity|].
  - apply (authorized_exact _ false H1). vm_compute. reflexivity.
  - intros Hp. apply (authorized_exact _ false H2) in Hp. vm_compute in Hp. discriminate Hp.
Defined.

Module AuthorizeSample.
(** A name with a public and a loopback address, and one with two public addresses. *)
Definition rebinding (host : string) : option (list (option ipaddr)) := Some [Some (IPv4 0x08080808); Some (IPv4 0x7f000001)].
Definition public (host : string) : option (list (option ipaddr)) := Some [Some (IPv6 0x26064700 ""); Some (IPv4 0x08080808)].
End AuthorizeSample.
Lemma authorize_host_all_witness :
  authorizeHost ContextLive AuthorizeSample.rebinding "example.com" false "target" = Err "target_address_denied" ∧
  authorizeHost ContextLive AuthorizeSample.public "example.com" false "target" = Ok (IPv4 0x08080808) ∧
  authorizedAddress (Some (IPv4 0x08080808)) false = true.
Proof.
  split_and!; [| |].
  - destruct (authorize_host_all ContextLive AuthorizeSample.rebinding "example.com" false "target") as (_&H&_).
    apply (H [Some (IPv4 0x08080808); Some (IPv4 0x7f000001)] (Some (IPv4 0x7f000001))); [reflexivity|right; left|vm_compute; reflexivity].
  - vm_compute. reflexivity.
  - destruct (authorize_host_all ContextLive AuthorizeSample.public "example.com" false "target") as (H&_&_).
    destruct (H (IPv4 0x08080808)) as (_&_&_&_&_&Ha); [vm_compute; reflexivity|exact Ha].
Defined.
