(* ===== verification/HttpSource.v ===== *)
(** * HTTP sources (internal/source/http.go, retry.go)

    The destination policy of a subscription download, the conditional
    request with its redirect rule, what is kept of a response, and the
    bounded retry.  The network is a parameter: what a name resolves to, which
    connections succeed, and what a server answers to each request. *)
From S2P Require Import Prelude Order Bytes Encoding Netip Endpoint Configuration Identity Provenance Inventory Text Json Url SourceUri SourceJson Parse Engine Authorize.
From Stdlib Require Import Ascii.
From Stdlib Require String.

(** ** Destinations *)

Definition sourceSpecialUsePrefixes : list (ipaddr * Z) :=
  [(MustParseAddr "100.64.0.0", 10); (MustParseAddr "192.0.0.0", 24); (MustParseAddr "198.18.0.0", 15);
   (MustParseAddr "192.0.2.0", 24); (MustParseAddr "198.51.100.0", 24); (MustParseAddr "203.0.113.0", 24);
   (MustParseAddr "240.0.0.0", 4); (MustParseAddr "2001:db8::", 32)]%Z.
Definition sourceMetadataAddresses : list ipaddr :=
  MustParseAddr <$> ["169.254.169.254"; "169.254.170.2"; "100.100.100.200"; "fd00:ec2::254"].

(** [netip.Addr.IsGlobalUnicast]. *)
Definition IsGlobalUnicast (a : ipaddr) : bool :=
  match a with
  | IPv4 v => negb (v =? 0)%Z && negb (v =? 0xffffffff)%Z && negb (IsLoopback a) && negb (IsMulticast a) && negb (IsLinkLocalUnicast a)
  | IPv6 _ _ => negb (IsUnspecified a) && negb (IsLoopback a) && negb (IsMulticast a) && negb (IsLinkLocalUnicast a)
  end.
Definition publicAddress (a : ipaddr) : bool :=
  if negb (IsGlobalUnicast a) || IsPrivate a || IsLoopback a || IsLinkLocalUnicast a then false
  else negb (existsb (λ p, Contains p a) sourceSpecialUsePrefixes).
(** A [netip.Addr] is [None] when it is not valid. *)
Definition destinationAllowed (address : option ipaddr) (allowPrivate allowLoopback : bool) : bool :=
  match Unmap <$> address with
  | None => false
  | Some a =>
      if bool_decide (a ∈ sourceMetadataAddresses) then false
      else if IsUnspecified a || IsMulticast a || IsLinkLocalUnicast a then false
      else if IsLoopback a then allowLoopback
      else if IsPrivate a then allowPrivate
      else publicAddress a
  end.

(** ** Options *)

Abbreviation Header := (gomap (list string)).
Definition header_set (h : Header) (k v : string) : Header := <[k := [v]]> h.
(** [Header.Get] with a canonical key. *)
Definition header_get (h : Header) (k : string) : string := default "" (h !! k ≫= head).

Record HTTPOptions := {
  hlimits : Limits; Timeout : Z; MaxRedirects : Z; AllowHTTP : bool; AllowPrivateNetworks : bool; AllowLoopback : bool;
  AllowInsecureTLS : bool; Headers_ : Header;
}.
Record HTTP := { hsource : string; location : URL; hoptions : HTTPOptions }.
Definition defaultHTTPTimeout : Z := 15 * second.

Definition NewHTTP `{UrlParser} (source rawURL : string) (o : HTTPOptions) : result Failure HTTP :=
  let fail := failure source ErrAcquire in
  _ ← guard_err (bool_decide (source_String source = "<invalid-source-id>")) (fail "invalid_source_id");
  limits ← some_or (normalized (hlimits o)) (fail "invalid_limits");
  location ← some_or (url_Parse rawURL) (fail "invalid_url");
  _ ← guard_err (bool_decide (Hostname location = "") || match User location with Some _ => true | None => false end) (fail "invalid_url");
  _ ← guard_err (bool_decide (Scheme location ≠ "https") && negb (AllowHTTP o && bool_decide (Scheme location = "http")))
        (fail "scheme_not_allowed");
  _ ← guard_err ((4096 <? slen rawURL)%Z || bool_decide (Fragment location ≠ "")) (fail "invalid_url");
  let timeout := if (Timeout o =? 0)%Z then defaultHTTPTimeout else Timeout o in
  _ ← guard_err (timeout <? 0)%Z (fail "invalid_timeout");
  let redirects := if (MaxRedirects o =? 0)%Z then 3%Z else MaxRedirects o in
  _ ← guard_err (redirects <? 0)%Z (fail "invalid_redirect_limit");
  Ok {| hsource := source; location := location;
        hoptions := {| hlimits := limits; Timeout := timeout; MaxRedirects := redirects; AllowHTTP := AllowHTTP o;
                       AllowPrivateNetworks := AllowPrivateNetworks o; AllowLoopback := AllowLoopback o;
                       AllowInsecureTLS := AllowInsecureTLS o; Headers_ := Headers_ o |} |}.

Definition canonicalOrigin (u : URL) : string :=
  let port := if bool_decide (Port u = "") then (if bool_decide (Scheme u = "https") then "443" else "80") else Port u in
  to_lower (Scheme u) +:+ "://" +:+ to_lower (Hostname u) +:+ ":" +:+ port.

(** ** Connections *)

(** The loop of [HTTP.dialContext]: the addresses it tried to connect to, in
    order, and the connection or the failure.  [connects] says which
    connections the network accepts. *)
Fixpoint dial_loop (s : HTTP) (connects : ipaddr → bool) (tried : list ipaddr) (l : list (option ipaddr))
    : list ipaddr * result Failure ipaddr :=
  match l with
  | [] => (tried, Err (failure (hsource s) ErrAcquire "destination_not_allowed"))
  | candidate :: rest =>
      match Unmap <$> candidate with
      | Some a =>
          if destinationAllowed (Some a) (AllowPrivateNetworks (hoptions s)) (AllowLoopback (hoptions s)) then
            if connects a then (tried ++ [a], Ok a) else dial_loop s connects (tried ++ [a]) rest
          else dial_loop s connects tried rest
      | None => dial_loop s connects tried rest
      end
  end.
(** [HTTP.dialContext]; [host] is the host [net.SplitHostPort] finds. *)
Definition HTTP_dialContext (s : HTTP) (lookup : string → option (list (option ipaddr))) (connects : ipaddr → bool) (host : option string)
    : list ipaddr * result Failure ipaddr :=
  match host with
  | None => ([], Err (failure (hsource s) ErrAcquire "invalid_destination"))
  | Some host =>
      match lookup host with
      | None | Some [] => ([], Err (failure (hsource s) ErrAcquire "resolve"))
      | Some addresses => dial_loop s connects [] addresses
      end
  end.

(** ** Requests and responses *)

Record Response := {
  StatusCode : Z; rheader : Header;
  rbody : option string;   (* what reading the body yields, [None] for an error *)
}.
(** What one round trip of the HTTP client ends in; a failure of
    [dialContext] stays in the error chain. *)
Inductive exchange :=
| Answer (r : Response)
| RedirectTo (u : URL)
| NestedFailure (f : Failure)
| CertificateError
| OtherError.

Record FetchResult := { fpayload : Payload; NotModified : bool; ETag : string; LastModified : string }.

Definition safeValidator (value : string) : bool :=
  if (1024 <? slen value)%Z then false else all_chars (λ c, negb (ctl_byte c)) value.
(** A validator header of a response, kept only when it is safe. *)
Definition kept_validator (h : Header) (k : string) : string :=
  let value := header_get h k in if safeValidator value then value else "".

(** [parse_time] is [http.ParseTime]; the result is between 0 and 2 seconds. *)
Definition boundedRetryAfter (parse_time : string → option Z) (value : string) (now : Z) : Z :=
  let seconds := atoi value in
  let fallback := match parse_time value with Some at_ => time_sub at_ now | None => 0%Z end in
  let clamp delay := (if delay <? 0 then 0 else if 2 * second <? delay then 2 * second else delay)%Z in
  match seconds with
  | Some n => if (n <? 0)%Z then clamp fallback else if (2 <? n)%Z then (2 * second)%Z else clamp (n * second)%Z
  | None => clamp fallback
  end.

Definition request_headers (s : HTTP) (etag lastModified : string) : Header :=
  let h := header_set (Headers_ (hoptions s)) "Accept-Encoding" "identity" in
  let h := delete "If-Modified-Since" (delete "If-None-Match" h) in
  let h := if bool_decide (etag ≠ "") && safeValidator etag then header_set h "If-None-Match" etag else h in
  if bool_decide (lastModified ≠ "") && safeValidator lastModified then header_set h "If-Modified-Since" lastModified else h.

(** [CheckRedirect] with the number of requests already made. *)
Definition checkRedirect (s : HTTP) (via : Z) (target : URL) : result Failure unit :=
  _ ← guard_err (MaxRedirects (hoptions s) <? via)%Z (failure (hsource s) ErrAcquire "redirect_limit");
  guard_err (bool_decide (canonicalOrigin target ≠ canonicalOrigin (location s))) (failure (hsource s) ErrAcquire "redirect_origin").

(** [client.Do]: requests in order, the targets of those made and the end.
    One more turn than [MaxRedirects] is enough for the redirect limit to
    refuse ([follow_fuel]). *)
Fixpoint follow (fuel : nat) (s : HTTP) (server : Header → URL → exchange) (h : Header) (made : list URL) (target : URL)
    : list URL * exchange :=
  let made := made ++ [target] in
  match server h target with
  | RedirectTo next =>
      match checkRedirect s (Z.of_nat (length made)) next with
      | Err f => (made, NestedFailure f)
      | Ok _ => match fuel with
                | S fuel => follow fuel s server (delete "Referer" h) made next
                | O => (made, OtherError)
                end
      end
  | e => (made, e)
  end.
Definition do_request (s : HTTP) (server : Header → URL → exchange) (h : Header) : list URL * exchange :=
  follow (Z.to_nat (MaxRedirects (hoptions s)) + 1) s server h [] (location s).

(** What the response is turned into. *)
Definition read_response (s : HTTP) (parse_time : string → option Z) (now : Z) (r : Response) : result Failure FetchResult :=
  let fail := failure (hsource s) ErrAcquire in
  let etag := kept_validator (rheader r) "Etag" in
  let modified := kept_validator (rheader r) "Last-Modified" in
  if (StatusCode r =? 304)%Z then
    Ok {| fpayload := {| psource := ""; pdata := ""; pcontentType := "" |}; NotModified := true; ETag := etag; LastModified := modified |}
  else if (StatusCode r <? 200)%Z || (299 <? StatusCode r)%Z then
    Err {| fsource := hsource s; fkind := ErrAcquire; fcode := "http_status"; fstatus := StatusCode r;
           fretryAfter := if (StatusCode r =? 429)%Z || (500 <=? StatusCode r)%Z
                          then boundedRetryAfter parse_time (header_get (rheader r) "Retry-After") now else 0 |}
  else
    (* The reader stops one byte after the limit. *)
    data ← match rbody r with
           | Some body => Ok (take_first (Z.to_nat (MaxSourceBytes (hlimits (hoptions s)) + 1)) body)
           | None => Err (fail "read")
           end;
    _ ← guard_err (MaxSourceBytes (hlimits (hoptions s)) <? slen data)%Z (fail "source_too_large");
    let contentType := header_get (rheader r) "Content-Type" in
    Ok {| fpayload := {| psource := hsource s; pdata := data; pcontentType := if (256 <? slen contentType)%Z then "" else contentType |};
          NotModified := false; ETag := etag; LastModified := modified |}.

(** [HTTP.Fetch]; [ctx] is the context when the client gives up. *)
Definition Fetch (s : HTTP) (server : Header → URL → exchange) (parse_time : string → option Z) (now : Z) (ctx : context_err)
    (etag lastModified : string) : list URL * result Failure FetchResult :=
  let '(made, e) := do_request s server (request_headers s etag lastModified) in
  (made,
   match e with
   | NestedFailure f => Err f
   | CertificateError => Err (failure (hsource s) ErrAcquire "tls_verification")
   | OtherError | RedirectTo _ => Err (failure (hsource s) ErrAcquire (contextCode ctx "request"))
   | Answer r => read_response s parse_time now r
   end).
Definition HTTP_Acquire (s : HTTP) (server : Header → URL → exchange) (parse_time : string → option Z) (now : Z) (ctx : context_err)
    : result Failure Payload :=
  result ← (Fetch s server parse_time now ctx "" "").2;
  if NotModified result then Err (failure (hsource s) ErrAcquire "unexpected_not_modified") else Ok (fpayload result).

(** ** Retries *)

Inductive fetch_error := FetchFailure (f : Failure) | ContextError (ctx : context_err).
Definition Retryable (e : fetch_error) : bool :=
  match e with
  | FetchFailure f =>
      if bool_decide (fcode f ∈ ["timeout"; "request"; "resolve"]) then true
      else bool_decide (fcode f = "http_status") && ((fstatus f =? 429)%Z || (500 <=? fstatus f)%Z && (fstatus f <=? 599)%Z)
  | ContextError _ => false
  end.
Definition retry_wait (delay : Z) (e : fetch_error) : Z :=
  let wait := match e with FetchFailure f => if (delay <? fretryAfter f)%Z then fretryAfter f else delay | ContextError _ => delay end in
  (if wait <? 0 then 0 else if 2 * second <? wait then 2 * second else wait)%Z.

(** One execution: what attempt [n] returns, the context after it, the delay
    chosen (given, or exponential with jitter), and whether the context ends
    during the wait. *)
Record retry_world := {
  fetches : nat → result fetch_error FetchResult; after : nat → context_err; delays : nat → Z; interrupts : nat → option context_err;
}.
(** The waits made and the result; [more] attempts remain after this one. *)
Fixpoint retry_loop (w : retry_world) (more : nat) (attempt : nat) (waits : list Z) : nat * list Z * result fetch_error FetchResult :=
  let r := fetches w attempt in
  match r with
  | Ok _ => (attempt, waits, r)
  | Err e =>
      if negb (Retryable e) || bool_decide (after w attempt ≠ ContextLive) then (attempt, waits, r)
      else match more with
           | O => (attempt, waits, r)
           | S more =>
               let waits := waits ++ [retry_wait (delays w attempt) e] in
               match interrupts w attempt with
               | Some c => (attempt, waits, Err (ContextError c))
               | None => retry_loop w more (S attempt) waits
               end
           end
  end.
Definition RetryFetch (w : retry_world) : nat * list Z * result fetch_error FetchResult := retry_loop w 2 1 [].

(** ** What the policy admits *)

(** The addresses every source may connect to, as intervals: no option opens
    these blocks. *)
Definition source_denied4 : list (Z * Z) :=
  [(0x00000000, 0x00000000);   (* unspecified *)
   (0x64400000, 0x647fffff);   (* 100.64.0.0/10, shared and metadata *)
   (0xa9fe0000, 0xa9feffff);   (* 169.254.0.0/16, link-local and metadata *)
   (0xc0000000, 0xc00000ff); (0xc0000200, 0xc00002ff); (0xc6120000, 0xc613ffff); (0xc6336400, 0xc63364ff); (0xcb007100, 0xcb0071ff);
   (0xe0000000, 0xffffffff)]%Z.  (* multicast, reserved, broadcast *)
Definition lan4 : list (Z * Z) := [(0x0a000000, 0x0affffff); (0xac100000, 0xac1fffff); (0xc0a80000, 0xc0a8ffff)]%Z.
Definition loop4 : Z * Z := (0x7f000000, 0x7fffffff)%Z.
Definition lan6 : Z * Z := (0xfc000000000000000000000000000000, 0xfdffffffffffffffffffffffffffffff)%Z.
Definition source_permitted (private loopback : bool) (a : ipaddr) : Prop :=
  match a with
  | IPv4 v => ¬ Exists (within v) source_denied4 ∧ (Exists (within v) lan4 → private = true) ∧ (within v loop4 → loopback = true)
  | IPv6 v _ => ¬ Exists (within v) denied6 ∧ (within v lan6 → private = true) ∧ (v = 1%Z → loopback = true)
  end.

#[local] Ltac Zify.zify_post_hook ::= Z.to_euclidean_division_equations.

Lemma special_eval : sourceSpecialUsePrefixes =
  [(IPv4 0x64400000, 10); (IPv4 0xc0000000, 24); (IPv4 0xc6120000, 15); (IPv4 0xc0000200, 24);
   (IPv4 0xc6336400, 24); (IPv4 0xcb007100, 24); (IPv4 0xf0000000, 4); (IPv6 0x20010db8000000000000000000000000 "", 32)]%Z.
Proof. vm_compute. reflexivity. Qed.
Lemma source_metadata_eval : sourceMetadataAddresses =
  [IPv4 0xa9fea9fe; IPv4 0xa9feaa02; IPv4 0x646464c8; IPv6 0xfd000ec2000000000000000000000254 ""]%Z.
Proof. vm_compute. reflexivity. Qed.
Definition special (a : ipaddr) : bool := existsb (λ p, Contains p a) sourceSpecialUsePrefixes.
Lemma special4 v : special (IPv4 v) = true ↔
  Exists (within v) [(0x64400000, 0x647fffff); (0xc0000000, 0xc00000ff); (0xc6120000, 0xc613ffff);
    (0xc0000200, 0xc00002ff); (0xc6336400, 0xc63364ff); (0xcb007100, 0xcb0071ff); (0xf0000000, 0xffffffff)]%Z.
Proof.
  unfold special. rewrite special_eval. cbn [existsb].
  change (Contains _ _ || false) with false. rewrite !orb_true_iff, !contains4 by (done || lia).
  rewrite !Exists_cons, Exists_nil. assert (false = true ↔ False) as -> by done. reflexivity.
Qed.
Lemma special6 v : (0 ≤ v < 2 ^ 128)%Z → special (IPv6 v "") = true ↔
  within v (0x20010db8000000000000000000000000, 0x20010db8ffffffffffffffffffffffff)%Z.
Proof.
  intros Hv. unfold special. rewrite special_eval. cbn [existsb]. rewrite !orb_true_iff.
  rewrite contains6 by (done || lia). cbn [Contains fst snd]. assert (false = true ↔ False) as -> by done. tauto.
Qed.

(** The decision as one proposition over the predicates of net/netip. *)
Lemma destination_split u p l : Unmap u = u → destinationAllowed (Some u) p l = true ↔
  u ∉ sourceMetadataAddresses ∧ IsUnspecified u = false ∧ IsMulticast u = false ∧ IsLinkLocalUnicast u = false ∧
  (if IsLoopback u then l = true else if IsPrivate u then p = true else IsGlobalUnicast u = true ∧ special u = false).
Proof.
  intros Hu. unfold destinationAllowed. simpl fmap. rewrite Hu. unfold publicAddress. fold (special u).
  case_bool_decide; [intuition congruence|].
  generalize (IsUnspecified u), (IsMulticast u), (IsLinkLocalUnicast u), (IsLoopback u), (IsPrivate u), (IsGlobalUnicast u), (special u).
  intros b1 b2 b3 b4 b5 b6 b7. destruct b1, b2, b3, b4, b5, b6, b7; simpl; intuition congruence.
Qed.
Lemma bool_iff (b : bool) (P : Prop) : (b = true ↔ P) → (b = false ↔ ¬ P).
Proof. destruct b; naive_solver. Qed.

(** Replace a decided predicate by what it says. *)
Ltac decided H :=
  match type of H with
  | ?b = true ↔ ?P => let E := fresh in destruct b eqn:E; [apply proj1 in H; specialize (H eq_refl)|apply bool_iff, proj1 in H; specialize (H eq_refl)]
  end.

Lemma destination4 v p l : (0 ≤ v < 2 ^ 32)%Z → destinationAllowed (Some (IPv4 v)) p l = true ↔ source_permitted p l (IPv4 v).
Proof.
  intros Hv. change (2 ^ 32)%Z with 4294967296%Z in Hv. rewrite destination_split, source_metadata_eval by done.
  rewrite !not_elem_of_cons. unfold IsUnspecified, source_permitted, IsGlobalUnicast.
  pose proof (multicast4 v Hv) as Hm. pose proof (link_local4 v Hv) as Hll. pose proof (loopback4 v Hv) as Hlo.
  pose proof (private4_spec v Hv) as Hpr. pose proof (special4 v) as Hsp. unfold source_denied4, lan4, loop4.
  rewrite !Exists_cons, !Exists_nil in *. unfold within in *. cbn [fst snd] in *.
  decided Hm; [split; [intros (_&_&Hd&_); discriminate Hd|lia]|].
  decided Hll; [split; [intros (_&_&_&Hd&_); discriminate Hd|lia]|].
  assert (∀ x y : Z, IPv4 x ≠ IPv4 y ↔ x ≠ y) as Hne by (intros; split; congruence).
  assert (∀ x y z, IPv4 x ≠ IPv6 y z ↔ True) as Hne6 by done. rewrite !Hne, Hne6.
  destruct (v =? 0)%Z eqn:E0; bool_to_prop; [split; [intros (_&Hd&_); discriminate Hd|lia]|]. cbn [negb andb].
  decided Hlo; [clear Hpr Hsp|decided Hpr; [clear Hsp|destruct (v =? 0xffffffff)%Z eqn:E1; bool_to_prop; cbn [negb andb]; decided Hsp]].
  all: split; intros Hd; repeat split; intros; first [lia|apply not_elem_of_nil|done|apply Hd; lia].
Qed.

Lemma destination6 v p l : (0 ≤ v < 2 ^ 128)%Z → is4_in6 v = false →
  destinationAllowed (Some (IPv6 v "")) p l = true ↔ source_permitted p l (IPv6 v "").
Proof.
  intros Hv Hmap. assert (Unmap (IPv6 v "") = IPv6 v "") as Hu by (simpl; by rewrite Hmap).
  rewrite destination_split, source_metadata_eval by done. rewrite !not_elem_of_cons. unfold source_permitted, IsGlobalUnicast, IsUnspecified, denied6, lan6.
  pose proof (multicast6 v Hv "") as Hm. pose proof (link_local6 v Hv "") as Hll.
  pose proof (private6_spec v Hv "") as Hpr. pose proof (special6 v Hv) as Hsp. unfold IsLoopback in *. rewrite Hmap in *.
  rewrite !Exists_cons, !Exists_nil in *. unfold within in *. cbn [fst snd] in *.
  decided Hm; [split; [intros (_&_&Hd&_); discriminate Hd|lia]|].
  decided Hll; [split; [intros (_&_&_&Hd&_); discriminate Hd|lia]|].
  assert (∀ x y : Z, IPv6 x "" ≠ IPv6 y "" ↔ x ≠ y) as Hne by (intros; split; congruence).
  assert (∀ x y z, IPv6 y z ≠ IPv4 x ↔ True) as Hne4 by done. rewrite Hne, !Hne4, !(andb_true_r (_ =? _)%Z).
  destruct (v =? 0)%Z eqn:E0; bool_to_prop; [split; [intros (_&Hd&_); discriminate Hd|lia]|].
  destruct (v =? 1)%Z eqn:E1; bool_to_prop; [clear Hpr Hsp|decided Hpr; [clear Hsp|cbn [negb andb]; decided Hsp]].
  all: split; intros Hd; repeat split; intros; first [lia|apply not_elem_of_nil|done|apply Hd; lia].
Qed.
Lemma destination_permitted a p l : addr_ok a → addr_zone a = "" →
  destinationAllowed (Some a) p l = true ↔ source_permitted p l (Unmap a).
Proof.
  intros Ha%Unmap_ok Hz. transitivity (destinationAllowed (Some (Unmap a)) p l = true).
  { unfold destinationAllowed. simpl fmap. by rewrite Unmap_idem. }
  destruct (Unmap a) as [v|v z] eqn:E; unfold addr_ok in Ha; simpl in Ha; [by apply destination4|].
  assert (z = "") as -> by (destruct a as [|w y]; simpl in E, Hz; [done|]; destruct (is4_in6 w); congruence).
  apply destination6; [done|]. by eapply Unmap_not_mapped.
Qed.

(** Zoned addresses are outside the policy: the block and metadata tests
    compare addresses without a zone.  [Resolver.LookupNetIP] of package net
    returns none. *)
Lemma zone_escapes_policy : destinationAllowed (Some (IPv6 0 "x")) false false = true ∧
  destinationAllowed (Some (IPv6 0xfd000ec2000000000000000000000254 "x")) true false = true.
Proof. vm_compute. done. Qed.

(** ** Connections stay within the policy *)

Definition candidate_ok (x : option ipaddr) : Prop := ∀ a, x = Some a → addr_ok a ∧ addr_zone a = "".
Section dial.
Context (s : HTTP) (connects : ipaddr → bool).
#[local] Abbreviation allowed a := (source_permitted (AllowPrivateNetworks (hoptions s)) (AllowLoopback (hoptions s)) a).
(** The candidates the policy leaves, in the resolver's order. *)
Definition dialable (l : list (option ipaddr)) : list ipaddr :=
  filter (λ a, destinationAllowed (Some a) (AllowPrivateNetworks (hoptions s)) (AllowLoopback (hoptions s)) = true) (Unmap <$> omap (λ x, x) l).

(** Up to and including the first that connects. *)
Fixpoint until_connected (l : list ipaddr) : list ipaddr :=
  match l with [] => [] | a :: l => a :: if connects a then [] else until_connected l end.
Lemma dial_loop_spec l tried :
  dial_loop s connects tried l =
  (tried ++ until_connected (dialable l),
   match list_find (λ a, connects a = true) (dialable l) with
   | Some (_, a) => Ok a
   | None => Err (failure (hsource s) ErrAcquire "destination_not_allowed")
   end).
Proof.
  revert tried. induction l as [|x l IH]; intros tried; simpl; [by rewrite app_nil_r|].
  unfold dialable. destruct x as [a|]; simpl; [|apply IH]. rewrite filter_cons. 
  destruct (destinationAllowed _ _ _) eqn:E; [|rewrite decide_False by congruence; apply IH].
  rewrite decide_True by done. simpl. destruct (connects (Unmap a)) eqn:Ec.
  - rewrite decide_True by done. done.
  - rewrite decide_False by congruence. rewrite IH, <-app_assoc. simpl. f_equal. unfold dialable. by destruct (list_find _ _) as [[]|].
Qed.
Lemma and_iff_compat_l_dep (P Q R : Prop) : (P → Q ↔ R) → P ∧ Q ↔ P ∧ R.
Proof. tauto. Qed.
Lemma dialable_permitted l a : Forall candidate_ok l → a ∈ dialable l ↔ a ∈ Unmap <$> omap (λ x, x) l ∧ allowed a.
Proof.
  intros Hl. unfold dialable. rewrite list_elem_of_filter, (and_comm _ (a ∈ _)). apply and_iff_compat_l_dep. intros Hin.
  apply list_elem_of_fmap in Hin as (b & -> & Hb). apply list_elem_of_omap in Hb as (x & Hx & ->).
  rewrite Forall_forall in Hl. destruct (Hl _ Hx _ eq_refl) as [Hok Hz].
  rewrite <-destination_permitted by done. unfold destinationAllowed. simpl fmap. by rewrite Unmap_idem.
Qed.
Lemma until_connected_elem l a : a ∈ until_connected l → a ∈ l.
Proof. induction l as [|b l IH]; simpl; [done|]. rewrite !elem_of_cons. destruct (connects b); [rewrite elem_of_nil|]; tauto. Qed.
Lemma until_connected_last l i a : list_find (λ a, connects a = true) l = Some (i, a) →
  last (until_connected l) = Some a ∧ connects a = true.
Proof.
  revert i. induction l as [|b l IH]; intros i; simpl; [done|]. destruct (connects b) eqn:E.
  - rewrite decide_True by done. by intros [= <- <-].
  - rewrite decide_False by congruence. intros ([j c] & Hf & Heq)%fmap_Some. simplify_eq/=.
    destruct (IH _ Hf) as [Hlast ?]. rewrite last_cons, Hlast. done.
Qed.
End dial.

(** C20: A subscription download connects only to addresses its options admit.
    For a resolver that returns addresses without zones, every address
    [dialContext] tries to connect to is one the host resolved to, in its
    unmapped form, and lies outside the unspecified, link-local, shared,
    reserved, documentation, multicast and metadata blocks; it is private
    only with AllowPrivateNetworks and loopback only with AllowLoopback.  A
    connection is returned exactly when a permitted address accepts one, and
    it is then the last address tried. *)
Theorem source_dial_permitted s lookup connects host l : lookup host = Some l → Forall candidate_ok l →
  let ok := source_permitted (AllowPrivateNetworks (hoptions s)) (AllowLoopback (hoptions s)) in
  let '(tried, r) := HTTP_dialContext s lookup connects (Some host) in
  (∀ a, a ∈ tried → a ∈ Unmap <$> omap (λ x, x) l ∧ ok a) ∧
  (∀ a, r = Ok a → last tried = Some a ∧ connects a = true) ∧
  ((∃ a, r = Ok a) ↔ ∃ a, a ∈ Unmap <$> omap (λ x, x) l ∧ ok a ∧ connects a = true).
Proof.
  intros Hl Hok ok. unfold HTTP_dialContext. rewrite Hl. assert (∀ a, a ∈ dialable s l ↔ a ∈ Unmap <$> omap (λ x, x) l ∧ ok a) as Hd.
  { intros a. by apply dialable_permitted. }
  destruct l as [|x l]; [split_and!; [by intros ? ?%elem_of_nil|done|]; split; [by intros []|by intros (? & ?%elem_of_nil & _)]|].
  rewrite dial_loop_spec. simpl app. split_and!.
  - intros a Ha%until_connected_elem. by apply Hd.
  - intros a. destruct (list_find _ _) as [[i b]|] eqn:E; [|done]. intros [= ->]. by apply until_connected_last in E.
  - destruct (list_find _ _) as [[i b]|] eqn:E.
    + apply list_find_Some in E as (Hi & Hc & _). split; [|eauto]. intros _. exists b. destruct (proj1 (Hd b)); [|done].
      by eapply list_elem_of_lookup_2.
    + apply list_find_None in E. rewrite Forall_forall in E. split; [by intros []|]. intros (a & Ha & Hoa & Hc). destruct (E a); [by apply Hd|done].
Qed.

(** ** The client *)

Lemma chars_take_first n x : chars (take_first n x) = take n (chars x).
Proof. unfold take_first. apply chars_of_chars. Qed.

(** Only Referer changes between the requests of one download. *)
Definition same_but_referer (h h' : Header) : Prop := ∀ k, k ≠ "Referer" → h' !! k = h !! k.

Section client.
Context (s : HTTP) (server : Header → URL → exchange).
#[local] Abbreviation limit := (Z.to_nat (MaxRedirects (hoptions s))).
#[local] Abbreviation home u := (canonicalOrigin u = canonicalOrigin (location s)).

Lemma checkRedirect_Ok via u x : (0 ≤ MaxRedirects (hoptions s))%Z → checkRedirect s (Z.of_nat via) u = Ok x → (via ≤ limit)%nat ∧ home u.
Proof. unfold checkRedirect. destruct (_ <? _)%Z eqn:E1; [done|]. simpl. destruct (bool_decide _) eqn:E2; [done|]. intros.
  bool_to_prop. split; [lia|]. by apply dec_stable. Qed.

(** More fuel than the redirect limit changes nothing: the limit stops the
    client before the fuel does. *)
Lemma follow_fuel extra fuel h made u : (0 ≤ MaxRedirects (hoptions s))%Z → (limit < length made + S fuel)%nat →
  follow (fuel + extra)%nat s server h made u = follow fuel s server h made u.
Proof.
  intros HM. revert h made u. induction fuel as [|fuel IH]; intros h made u Hf.
  - destruct extra as [|extra]; [done|]. cbn [follow Nat.add]. destruct (server h u) as [|v| | |]; try done.
    destruct (checkRedirect _ _ _) as [x|] eqn:E; [|done]. apply checkRedirect_Ok in E as [E _]; [|done].
    rewrite length_app in E. simpl in E. lia.
  - cbn [follow Nat.add]. destruct (server h u) as [|v| | |]; try done.
    destruct (checkRedirect _ _ _) as [x|] eqn:E; [|done]. apply IH. rewrite length_app. simpl. lia.
Qed.
Lemma follow_spec fuel h made u : (0 ≤ MaxRedirects (hoptions s))%Z → (length made ≤ limit)%nat → (limit < length made + S fuel)%nat →
  Forall (λ u, home u) made → home u →
  let '(made', e) := follow fuel s server h made u in
  Forall (λ u, home u) made' ∧ (length made < length made' ≤ limit + 1)%nat ∧
  (∃ h' v, same_but_referer h h' ∧ last made' = Some v ∧
    match e with
    | NestedFailure f => server h' v = e ∨ ∃ next, server h' v = RedirectTo next ∧ checkRedirect s (Z.of_nat (length made')) next = Err f
    | RedirectTo _ => False
    | _ => server h' v = e
    end).
Proof.
  intros HM. revert h made u. induction fuel as [|fuel IH]; intros h made u Hlen Hf Hmade Hu.
  all: assert (Forall (λ u, home u) (made ++ [u])) as Hmade' by (apply Forall_app; auto).
  all: assert (length (made ++ [u]) = length made + 1)%nat as Hl by apply length_app.
  all: cbn [follow]; destruct (server h u) as [|v| | |] eqn:Es;
    try (split_and!; [done|lia|lia|]; exists h, u; split_and!; [done|apply last_snoc|auto]).
  all: destruct (checkRedirect _ _ _) as [x|f] eqn:E;
    [|split_and!; [done|lia|lia|]; exists h, u; split_and!; [done|apply last_snoc|eauto]].
  all: apply checkRedirect_Ok in E as [E Hv]; [|done]; try lia.
  specialize (IH (delete "Referer" h) (made ++ [u]) v E ltac:(lia) Hmade' Hv).
  destruct (follow _ _ _ _ _ _) as [made' e]. destruct IH as (? & ? & h' & w & Hh & Hw). split_and!; [done|lia|lia|].
  exists h', w. split; [|done]. intros k Hk. rewrite Hh by done. rewrite gomap_lookup_delete. by rewrite bool_decide_false.
Qed.
End client.

Lemma normalized_bounds l l' : normalized l = Some l' → (0 < MaxSourceBytes l' ≤ maxConfiguredBytes)%Z.
Proof.
  unfold normalized. destruct (bool_decide _).
  { intros H%(inj Some). rewrite <-H. by vm_compute. }
  case_match; [done|]. case_match; [done|]. intros ->%(inj Some). bool_to_prop. lia.
Qed.
Lemma NewHTTP_ok `{UrlParser} source raw o s : NewHTTP source raw o = Ok s →
  hsource s = source ∧ (0 ≤ MaxRedirects (hoptions s))%Z ∧ (0 ≤ Timeout (hoptions s))%Z ∧
  (0 < MaxSourceBytes (hlimits (hoptions s)) ≤ maxConfiguredBytes)%Z ∧
  (Scheme (location s) = "https" ∨ AllowHTTP o = true ∧ Scheme (location s) = "http").
Proof.
  unfold NewHTTP. intros Hs. parse_inv. simpl. bool_to_prop.
  split_and!; [done|done|done|by eapply normalized_bounds..|].
  match goal with E : _ && _ = false |- _ => apply andb_false_iff in E as [E|E] end; bool_to_prop; [left; by apply dec_stable|auto].
Qed.

Definition usable (v : string) : bool := bool_decide (v ≠ "") && safeValidator v.
(** The request asks for an unencoded body, and is conditional exactly on the
    validators given. *)
Definition conditional (etag lastModified : string) (h : Header) : Prop :=
  h !! "Accept-Encoding" = Some ["identity"] ∧
  h !! "If-None-Match" = (if usable etag then Some [etag] else None) ∧
  h !! "If-Modified-Since" = (if usable lastModified then Some [lastModified] else None).
Lemma request_headers_conditional s etag lm : conditional etag lm (request_headers s etag lm).
Proof.
  unfold conditional, request_headers, header_set. fold (usable etag) (usable lm).
  destruct (usable etag), (usable lm); split_and!;
    repeat first [rewrite gomap_lookup_insert | rewrite gomap_lookup_delete]; reflexivity.
Qed.
Lemma conditional_referer etag lm h h' : same_but_referer h h' → conditional etag lm h → conditional etag lm h'.
Proof. intros Hh. unfold conditional. by rewrite !Hh by done. Qed.
Lemma kept_validator_safe h k : safeValidator (kept_validator h k) = true.
Proof. unfold kept_validator. destruct (safeValidator (header_get h k)) eqn:E; [done|]. by vm_compute. Qed.

(** What is kept of a response. *)
Lemma read_response_Ok s pt now r f : (0 ≤ MaxSourceBytes (hlimits (hoptions s)))%Z → read_response s pt now r = Ok f →
  safeValidator (ETag f) = true ∧ safeValidator (LastModified f) = true ∧
  if NotModified f then StatusCode r = 304 ∧ pdata (fpayload f) = ""
  else (200 ≤ StatusCode r ≤ 299)%Z ∧ rbody r = Some (pdata (fpayload f)) ∧ psource (fpayload f) = hsource s ∧
       (slen (pdata (fpayload f)) ≤ MaxSourceBytes (hlimits (hoptions s)))%Z ∧ (slen (pcontentType (fpayload f)) ≤ 256)%Z.
Proof.
  intros Hm. unfold read_response. destruct (StatusCode r =? 304)%Z eqn:E3; bool_to_prop.
  { intros [= <-]. simpl. auto using kept_validator_safe. }
  destruct (_ || _) eqn:E; [done|]. destruct (rbody r) as [body|] eqn:Eb; [|done]. intros Hr. ok_inv. bool_to_prop. simpl.
  match goal with H : context [take_first ?n body] |- _ => assert (take_first n body = body) as Hb end.
  { unfold take_first. rewrite take_ge; [apply of_chars_chars|].
    rewrite length_chars. unfold take_first in *. rewrite length_of_chars, length_take, length_chars in *. lia. }
  rewrite Hb in *. split_and!; try done; auto using kept_validator_safe. destruct (256 <? _)%Z eqn:E6; bool_to_prop; simpl; lia.
Qed.

(** C21: A download stays at its source and within its limits.  Whatever the
    server answers, every request of a [Fetch] goes to the origin of the
    configured URL, there are at most MaxRedirects + 1 of them, and the last
    one carries the caller's validators and no others.  A result is the
    answer to that last request: either a 304, or a 2xx whose whole body fits
    the configured limit, which itself is below the hard maximum; the
    validators kept are short and free of control characters. *)
Theorem fetch_bounded `{UrlParser} source raw o s server pt now ctx etag lm : NewHTTP source raw o = Ok s →
  let '(made, r) := Fetch s server pt now ctx etag lm in
  Forall (λ u, canonicalOrigin u = canonicalOrigin (location s)) made ∧
  (1 ≤ Z.of_nat (length made) ≤ MaxRedirects (hoptions s) + 1)%Z ∧
  ∀ f, r = Ok f → ∃ h u resp, last made = Some u ∧ server h u = Answer resp ∧ conditional etag lm h ∧
    safeValidator (ETag f) = true ∧ safeValidator (LastModified f) = true ∧
    if NotModified f then StatusCode resp = 304 ∧ pdata (fpayload f) = ""
    else (200 ≤ StatusCode resp ≤ 299)%Z ∧ rbody resp = Some (pdata (fpayload f)) ∧ psource (fpayload f) = source ∧
         (slen (pdata (fpayload f)) ≤ MaxSourceBytes (hlimits (hoptions s)) ≤ maxConfiguredBytes)%Z ∧
         (slen (pcontentType (fpayload f)) ≤ 256)%Z.
Proof.
  intros (Hsrc & HM & _ & [Hb1 Hb2] & _)%NewHTTP_ok. unfold Fetch, do_request.
  pose proof (follow_spec s server (Z.to_nat (MaxRedirects (hoptions s)) + 1) (request_headers s etag lm) [] (location s) HM
    ltac:(simpl; lia) ltac:(simpl; lia) ltac:(done) eq_refl) as Hf.
  destruct (follow _ _ _ _ _ _) as [made e]. destruct Hf as (Hmade & Hlen & h & v & Hh & Hv & He). simpl in Hlen.
  split_and!; [done|lia|lia|]. intros f Hr. destruct e as [resp| | | |]; try done.
  exists h, v, resp. apply read_response_Ok in Hr as (? & ? & Hr); [|lia]. split_and!; try done.
  { eapply conditional_referer, request_headers_conditional. done. }
  destruct (NotModified f); [done|]. rewrite Hsrc in Hr. destruct Hr as (? & ? & ? & ? & ?). done.
Qed.

(** ** Retries *)

Lemma boundedRetryAfter_bounds pt v now : (0 ≤ boundedRetryAfter pt v now ≤ 2 * second)%Z.
Proof. unfold boundedRetryAfter, second. repeat case_match; bool_to_prop; lia. Qed.
Lemma retry_wait_bounds d e : (0 ≤ retry_wait d e ≤ 2 * second)%Z.
Proof. unfold retry_wait, second. repeat case_match; bool_to_prop; lia. Qed.

Section retry.
Context (w : retry_world).
(** An attempt failed in a way that is retried, and the context allowed it. *)
Definition retried (n : nat) : Prop := (∃ e, fetches w n = Err e ∧ Retryable e = true) ∧ after w n = ContextLive.

Lemma retry_loop_spec more attempt waits :
  let '(k, ws, r) := retry_loop w more attempt waits in
  (attempt ≤ k ≤ attempt + more)%nat ∧ (∀ i, attempt ≤ i < k → retried i)%nat ∧
  (∃ new, ws = waits ++ new ∧ Forall (λ d, 0 ≤ d ≤ 2 * second)%Z new ∧
    (r = fetches w k ∧ length new = k - attempt ∧ (retried k → k = attempt + more) ∨
     ∃ c, r = Err (ContextError c) ∧ interrupts w k = Some c ∧ retried k ∧ length new = S (k - attempt)))%nat.
Proof.
  revert attempt waits. induction more as [|more IH]; intros attempt waits; cbn [retry_loop].
  all: destruct (fetches w attempt) as [f|e] eqn:Ef.
  1,3: split_and!; [lia|lia|lia|]; exists []; rewrite app_nil_r; split_and!; [done|constructor|].
  1,2: left; split_and!; [done|simpl; lia|]; intros [(e & He & _) _]; congruence.
  all: destruct (negb (Retryable e) || _) eqn:Eg.
  1,3: split_and!; [lia|lia|lia|]; exists []; rewrite app_nil_r; split_and!; [done|constructor|].
  1,2: left; split_and!; [done|simpl; lia|]; intros [(e' & He & Hr) Ha]; assert (e' = e) as -> by congruence; rewrite Hr, bool_decide_false in Eg by tauto; done.
  all: assert (retried attempt) as Hret by (bool_to_prop; split; [eauto|by apply dec_stable]).
  - split_and!; [lia|lia|lia|]. exists []. rewrite app_nil_r. split_and!; [done|constructor|]. left. split_and!; [done|simpl; lia|lia].
  - destruct (interrupts w attempt) as [c|] eqn:Ei.
    { split_and!; [lia|lia|lia|]. exists [retry_wait (delays w attempt) e]. split_and!; [done|repeat constructor; apply retry_wait_bounds|].
      right. exists c. split_and!; [done|done|done|]. simpl. lia. }
    specialize (IH (S attempt) (waits ++ [retry_wait (delays w attempt) e])).
    destruct (retry_loop _ _ _ _) as [[k ws] r]. destruct IH as (Hk & Hi & new & -> & Hnew & Hr).
    split_and!; [lia|lia| |exists (retry_wait (delays w attempt) e :: new)].
    + intros i Hi'. destruct (decide (i = attempt)) as [-> |]; [done|]. apply Hi. lia.
    + rewrite <-app_assoc. split_and!; [done|constructor; [apply retry_wait_bounds|done]|]. simpl.
      destruct Hr as [(? & ? & Hl)|(c & ? & ? & ? & ?)]; [left|right; exists c]; split_and!; try done; try lia.
Qed.
End retry.

(** C26: Retries are bounded.  [RetryFetch] makes between one and three
    attempts; each attempt before the last failed with a retryable error while
    the context was live; every wait is between zero and two seconds.  The
    result is the last attempt's own, and a retryable failure is returned only
    after the third attempt; otherwise the context ended during a wait and its
    error is returned. *)
Theorem retry_fetch_bounded w :
  let '(attempts, waits, r) := RetryFetch w in
  (1 ≤ attempts ≤ 3)%nat ∧ (∀ i, 1 ≤ i < attempts → retried w i)%nat ∧ Forall (λ d, 0 ≤ d ≤ 2 * second)%Z waits ∧
  (r = fetches w attempts ∧ length waits = attempts - 1 ∧ (retried w attempts → attempts = 3) ∨
   ∃ c, r = Err (ContextError c) ∧ interrupts w attempts = Some c ∧ retried w attempts ∧ length waits = attempts)%nat.
Proof.
  pose proof (retry_loop_spec w 2 1 []) as H. unfold RetryFetch. destruct (retry_loop _ _ _ _) as [[k ws] r].
  destruct H as (Hk & Hi & new & -> & Hnew & Hr). rewrite app_nil_l. split_and!; [lia|lia|done|done|].
  destruct Hr as [(? & ? & ?)|(c & ? & ? & ? & ?)]; [left|right; exists c]; split_and!; try done; try lia. 
Qed.

(** A host whose only permitted address refuses the connection is reported
    as a destination that is not allowed, an error that is never retried. *)
Theorem refused_connection_not_retried s lookup connects host a :
  lookup host = Some [Some a] → connects (Unmap a) = false →
  destinationAllowed (Some (Unmap a)) (AllowPrivateNetworks (hoptions s)) (AllowLoopback (hoptions s)) = true →
  ∃ f, HTTP_dialContext s lookup connects (Some host) = ([Unmap a], Err f) ∧ fcode f = "destination_not_allowed" ∧
    Retryable (FetchFailure f) = false.
Proof. intros Hl Hc Hd. unfold HTTP_dialContext. rewrite Hl. simpl. rewrite Hd, Hc. eauto. Qed.

(** ** Witnesses *)

Module HttpSample.
Definition options : HTTPOptions :=
  {| hlimits := {| MaxSourceBytes := 0; MaxDecodedBytes := 0; MaxRecords := 0; MaxRecordBytes := 0 |}; Timeout := 0; MaxRedirects := 2;
     AllowHTTP := false; AllowPrivateNetworks := false; AllowLoopback := false; AllowInsecureTLS := false;
     Headers_ := header_set ∅ "If-None-Match" "stale" |}.
Definition source : result Failure HTTP := NewHTTP "feed" "https://Feed.example/list" options.
Definition feed : HTTP := match source with Ok s => s | Err _ => {| hsource := ""; location := no_url; hoptions := options |} end.
(** The feed moves once within its origin, then answers with a body. *)
Definition moved : URL := match url_Parse "https://feed.example:443/v2" with Some u => u | None => no_url end.
Definition answer : Response :=
  {| StatusCode := 200; rheader := header_set (header_set ∅ "Etag" "v2") "Content-Type" "text/plain"; rbody := Some "vless://x" |}.
Definition server (h : Header) (u : URL) : exchange :=
  if bool_decide (h !! "If-None-Match" = Some ["stale"]) then Answer answer
  else if bool_decide (Path u = "/v2") then Answer answer else RedirectTo moved.
Definition fetched : FetchResult :=
  {| fpayload := {| psource := "feed"; pdata := "vless://x"; pcontentType := "text/plain" |}; NotModified := false; ETag := "v2"; LastModified := "" |}.

Example fetch_example : Fetch feed server (λ _, None) 0 ContextLive "" "" = ([location feed; moved], Ok fetched).
Proof. vm_compute. reflexivity. Qed.
Lemma fetch_bounded_witness : source = Ok feed ∧ Fetch feed server (λ _, None) 0 ContextLive "" "" = ([location feed; moved], Ok fetched) ∧
  canonicalOrigin moved = canonicalOrigin (location feed).
Proof.
  assert (source = Ok feed) as Hs by reflexivity. split; [exact Hs|]. split; [exact fetch_example|].
  pose proof (fetch_bounded "feed" "https://Feed.example/list" options feed server (λ _, None) 0 ContextLive "" "" Hs) as H.
  rewrite fetch_example in H. destruct H as (H & _). rewrite Forall_forall in H. apply H. right. left.
Defined.

(** Of a private and a public address, only the public one is tried. *)
Definition lookup (_ : string) : option (list (option ipaddr)) := Some [Some (IPv4 0x0a000001); Some (IPv6 0xffff08080808 "")].
Example dial_example : HTTP_dialContext feed lookup (λ _, true) (Some "feed.example") = ([IPv4 0x08080808], Ok (IPv4 0x08080808)).
Proof. vm_compute. reflexivity. Qed.
Lemma candidates_ok : Forall candidate_ok [Some (IPv4 0x0a000001); Some (IPv6 0xffff08080808 "")].
Proof. rewrite !Forall_cons. split; [|split; [|constructor]]; intros ? [= <-]; (split; [unfold addr_ok; simpl; lia|done]). Qed.
Lemma source_dial_permitted_witness : source_permitted false false (IPv4 0x08080808) ∧ ¬ source_permitted false false (IPv4 0x0a000001).
Proof.
  pose proof (source_dial_permitted feed lookup (λ _, true) "feed.example" _ eq_refl candidates_ok) as H. cbv zeta in H.
  rewrite dial_example in H. destruct H as (H & _). split; [apply H; left|].
  intros (_ & Hp & _). enough (false = true) by done. apply Hp. left. unfold within. simpl. lia.
Defined.
End HttpSample.
