(* ===== verification/HttpProfile.v ===== *)
(** * The request context of an HTTP source (internal/operator/http_profile.go)

    Which headers a subscription request carries: the default or clean
    client profile, the static headers of the resource, and the stable
    hardware identifier derived from the client identity. *)
From S2P Require Import Prelude Order Bytes Encoding Configuration Text Url SourceUri HttpSource.
From Stdlib Require Import Ascii.
From Stdlib Require String.
Open Scope Z_scope.

(** ** Header names (net/http) *)

Definition token_char (c : ascii) : bool := is_alnum c || char_elem c "!#$%&'*+-.^_`|~".
(** Upper case at the start and after a hyphen, lower case elsewhere. *)
Fixpoint canonical_chars (upper : bool) (l : list ascii) : list ascii :=
  match l with
  | [] => []
  | c :: l => (if upper then upper_char c else lower_char c) :: canonical_chars (Ascii.eqb c "-") l
  end.
(** [http.CanonicalHeaderKey]; a key with an invalid byte is left alone. *)
Definition CanonicalHeaderKey (s : string) : string :=
  if all_chars token_char s then of_chars (canonical_chars true (chars s)) else s.
(** [Header.Set]. *)
Definition Header_Set (h : Header) (k v : string) : Header := header_set h (CanonicalHeaderKey k) v.

(** ** The profile *)

Record HTTPClientProfile := {
  Mode : string; UserAgent : string; HWID : string; DeviceOS : string; OSVersion : string; DeviceModel : string;
  Headers : gomap string;
}.

(** A [PoolError] with its code, or the panic of an index out of range. *)
Inductive pool_error := PoolError (code : string) | IndexOutOfRange.

Definition validIdentityPart (value : string) (max : Z) : bool :=
  if empty value || (max <? slen value) then false else all_chars (λ c, is_alnum c || char_elem c "-_.") value.
Definition validHeaderName (value : string) : bool :=
  if empty value || (128 <? slen value) then false else all_chars token_char value.
Definition validHeaderValue (value : string) (max : Z) : bool :=
  if max <? slen value then false else all_chars (λ c, negb (ctl_byte c)) value.

Definition reservedTransportOrProfileHeader (name : string) : bool :=
  bool_decide (to_lower name ∈
    ["user-agent"; "x-hwid"; "x-device-os"; "x-ver-os"; "x-device-model";
     "host"; "connection"; "content-length"; "transfer-encoding"; "proxy-authorization"; "set-cookie";
     "accept-encoding"; "if-none-match"; "if-modified-since"; "referer"; "upgrade"; "te"; "trailer"]).
Definition likelyCredentialHeader (name : string) : bool :=
  let lower := to_lower name in
  contains lower "authorization" || contains lower "cookie" || contains lower "token" || contains lower "api-key" ||
  contains lower "secret" || contains lower "password".

Definition clientIdentity (poolUID sourceID explicit : string) : result pool_error string :=
  if empty explicit then Ok ("legacy:" +:+ poolUID +:+ "/" +:+ sourceID)
  else if 160 <? slen explicit then Err (PoolError "client_identity")
  else match cut ":" explicit with
       | None => Err (PoolError "client_identity")
       | Some (prefix, value) =>
           if bool_decide (prefix = "legacy") then
             match cut "/" value with
             | Some (uid, previousID) =>
                 if negb (validIdentityPart uid 80) || negb (validIdentityPart previousID 63)
                 then Err (PoolError "client_identity") else Ok explicit
             | None => Err (PoolError "client_identity")
             end
           else if bool_decide (prefix ≠ "stable") || negb (validIdentityPart value 128)
                then Err (PoolError "client_identity") else Ok explicit
       end.

Section profile.
Context {digest : Digest} {order : MapOrder}.

Definition nul : ascii := byte_of 0.
(** [parts[1]] is out of range when the legacy identity has no slash. *)
Definition hwid_material (identity : string) : result pool_error string :=
  if has_prefix "legacy:" identity then
    match cut "/" (trim_prefix "legacy:" identity) with
    | Some (uid, previous) => Ok ("egressfox-http-client-hwid-v1" +:+ String nul (uid +:+ String nul previous))
    | None => Err IndexOutOfRange
    end
  else Ok ("egressfox-http-client-hwid-v2" +:+ String nul identity).
Definition set_version (l : list Z) : list Z :=
  alter (λ b, Z.lor (Z.land b 0x3f) 0x80) 8%nat (alter (λ b, Z.lor (Z.land b 0x0f) 0x80) 6%nat l).
Definition hwid_text (bytes : list Z) : string :=
  let value := hex_encode bytes in
  Credential.take_str 0 8 value +:+ "-" +:+ Credential.take_str 8 12 value +:+ "-" +:+ Credential.take_str 12 16 value +:+ "-" +:+
  Credential.take_str 16 20 value +:+ "-" +:+ Credential.take_str 20 32 value.
Definition stableHWID (identity : string) : result pool_error string :=
  material ← hwid_material identity;
  Ok (to_upper (hwid_text (take 16 (set_version (code <$> chars (sha256 material)))))).

(** The named fields of the profile, in order. *)
Fixpoint set_fields (l : list (string * string)) (h : Header) : result pool_error Header :=
  match l with
  | [] => Ok h
  | (k, v) :: rest =>
      if empty v then set_fields rest h
      else if negb (validHeaderValue v 256) then Err (PoolError "profile_header_value")
      else set_fields rest (Header_Set h k v)
  end.
Fixpoint set_headers (l : list (string * string)) (h : Header) : result pool_error Header :=
  match l with
  | [] => Ok h
  | (key, value) :: rest =>
      if negb (validHeaderName key) || negb (validHeaderValue value 1024) then Err (PoolError "profile_header_invalid")
      else let canonical := CanonicalHeaderKey key in
           if reservedTransportOrProfileHeader canonical || likelyCredentialHeader canonical then Err (PoolError "profile_header_reserved")
           else match h !! canonical with
                | Some _ => Err (PoolError "profile_header_duplicate")
                | None => set_headers rest (Header_Set h canonical value)
                end
  end.
Definition profile_mode (p : option HTTPClientProfile) : string :=
  match p with Some p => if empty (Mode p) then "Default" else Mode p | None => "Default" end.
Definition has_attributes (p : HTTPClientProfile) : bool :=
  negb (empty (UserAgent p)) || negb (empty (HWID p)) || negb (empty (DeviceOS p)) || negb (empty (OSVersion p)) ||
  negb (empty (DeviceModel p)) || negb (bool_decide (entries (Headers p) = [])).
Definition profileHeaders (clientIdentity : string) (p : option HTTPClientProfile) : result pool_error Header :=
  headers ←
    (if bool_decide (profile_mode p = "Default") then
       hwid ← stableHWID clientIdentity;
       Ok (Header_Set (Header_Set (Header_Set (Header_Set (Header_Set ∅ "User-Agent" "Happ/1.0") "X-Hwid" hwid)
             "X-Device-Os" "iOS") "X-Ver-Os" "18.3") "X-Device-Model" "iPhone 14 Pro Max")
     else if bool_decide (profile_mode p = "Clean") then
       _ ← guard_err (match p with Some p => has_attributes p | None => false end) (PoolError "profile_clean_conflict");
       Ok (<[CanonicalHeaderKey "User-Agent" := [""]]> ∅ : Header)
     else Err (PoolError "profile_mode"));
  match p with
  | None => Ok headers
  | Some p =>
      headers ← set_fields [("User-Agent", UserAgent p); ("X-Hwid", HWID p); ("X-Device-Os", DeviceOS p); ("X-Ver-Os", OSVersion p);
                            ("X-Device-Model", DeviceModel p)] headers;
      _ ← guard_err (16 <? Z.of_nat (length (entries (Headers p)))) (PoolError "profile_header_limit");
      set_headers (range (Headers p)) headers
  end.
End profile.

(** ** The hardware identifier *)

Definition hex_upper (c : ascii) : bool := is_digit c || char_in 65 70 c.
Lemma to_upper_ascii s : all_chars is_ascii s = true → chars (to_upper s) = upper_char <$> chars s.
Proof.
  induction s as [|c s IH]; [done|]. intros H. unfold all_chars in *. cbn [chars forallb] in H. bool_to_prop.
  rewrite to_upper_cons by done. simpl. by rewrite IH.
Qed.
(** The digits of one byte, and of the bytes that carry version and variant. *)
Definition byte_digits (b : Z) : list ascii := [hex_symbol (b / 16); hex_symbol (b `mod` 16)].
Definition hex_digits_ok (b : Z) : bool := forallb (λ c, is_ascii c && hex_upper (upper_char c)) (byte_digits b).
Lemma byte_digits_ok c : hex_digits_ok (code c) = true.
Proof. by destruct c as [[] [] [] [] [] [] [] []]. Qed.
Lemma version_digits c : let b := Z.lor (Z.land (code c) 0x0f) 0x80 in
  hex_digits_ok b = true ∧ upper_char (hex_symbol (b / 16)) = "8"%char.
Proof. by destruct c as [[] [] [] [] [] [] [] []]. Qed.
Lemma variant_digits c : let b := Z.lor (Z.land (code c) 0x3f) 0x80 in
  hex_digits_ok b = true ∧ char_elem (upper_char (hex_symbol (b / 16))) "89AB" = true.
Proof. by destruct c as [[] [] [] [] [] [] [] []]. Qed.

(** An upper case UUID of version 8, variant 1. *)
Definition uuid8 (v : string) : Prop :=
  slen v = 36 ∧ (∀ n, n ∈ [8; 13; 18; 23]%nat → chars v !! n = Some "-"%char) ∧
  (∀ n c, chars v !! n = Some c → n ∉ [8; 13; 18; 23]%nat → hex_upper c = true) ∧
  chars v !! 14%nat = Some "8"%char ∧ ∃ c, chars v !! 19%nat = Some c ∧ char_elem c "89AB" = true.

#[local] Arguments hex_symbol : simpl never.
Lemma hwid_chars b0 b1 b2 b3 b4 b5 b6 b7 b8 b9 b10 b11 b12 b13 b14 b15 :
  chars (hwid_text [b0; b1; b2; b3; b4; b5; b6; b7; b8; b9; b10; b11; b12; b13; b14; b15]) =
  ([b0; b1; b2; b3] ≫= byte_digits) ++ "-"%char :: ([b4; b5] ≫= byte_digits) ++ "-"%char :: ([b6; b7] ≫= byte_digits) ++
  "-"%char :: ([b8; b9] ≫= byte_digits) ++ "-"%char :: ([b10; b11; b12; b13; b14; b15] ≫= byte_digits).
Proof. reflexivity. Qed.

(** The digits are hexadecimal and the hyphens are in place. *)
Lemma digits_ok b : hex_digits_ok b = true → ∃ x y, byte_digits b = [x; y] ∧ x = hex_symbol (b / 16) ∧
  is_ascii x = true ∧ is_ascii y = true ∧ hex_upper (upper_char x) = true ∧ hex_upper (upper_char y) = true.
Proof. unfold hex_digits_ok. simpl. intros H. bool_to_prop. eauto 10. Qed.
Lemma uuid_format b0 b1 b2 b3 b4 b5 b6 b7 b8 b9 b10 b11 b12 b13 b14 b15 t :
  chars t = ([b0; b1; b2; b3] ≫= byte_digits) ++ "-"%char :: ([b4; b5] ≫= byte_digits) ++ "-"%char :: ([b6; b7] ≫= byte_digits) ++
    "-"%char :: ([b8; b9] ≫= byte_digits) ++ "-"%char :: ([b10; b11; b12; b13; b14; b15] ≫= byte_digits) →
  Forall (λ b, hex_digits_ok b = true) [b0; b1; b2; b3; b4; b5; b6; b7; b8; b9; b10; b11; b12; b13; b14; b15] →
  upper_char (hex_symbol (b6 / 16)) = "8"%char → char_elem (upper_char (hex_symbol (b8 / 16))) "89AB" = true → uuid8 (to_upper t).
Proof.
  intros Ht Hall V6 V8. rewrite !Forall_cons in Hall. destruct_and! Hall.
  repeat match goal with H : hex_digits_ok _ = true |- _ => apply digits_ok in H as (? & ? & ? & ? & ? & ? & ? & ?) end.
  cbn [mbind list_bind] in Ht. repeat match goal with H : byte_digits _ = _ |- _ => rewrite H in Ht; clear H end. simpl in Ht. subst.
  assert (all_chars is_ascii t = true) as Ha by (unfold all_chars; rewrite Ht; simpl; repeat (apply andb_true_iff; split; [done|]); done).
  pose proof (to_upper_ascii t Ha) as Hu. rewrite Ht in Hu. cbn [fmap list_fmap] in Hu. unfold uuid8. rewrite <-length_chars, Hu.
  split_and!; [done| | | |].
  - intros n Hn. repeat (apply elem_of_cons in Hn as [-> |Hn]; [reflexivity|]). by apply elem_of_nil in Hn.
  - intros n c Hc Hn. rewrite !not_elem_of_cons in Hn. do 36 (destruct n as [|n]; [simpl in Hc; injection Hc as <-; first [done|lia]|]). done.
  - simpl. by rewrite V6.
  - eexists. split; [reflexivity|done].
Qed.

Section hwid.
Context {digest : Digest} {order : MapOrder}.
Lemma stableHWID_uuid identity v : stableHWID identity = Ok v → uuid8 v.
Proof.
  unfold stableHWID. intros (material & _ & Hv)%result_bind_Ok. injection Hv as <-.
  pose proof (sha256_length material) as Hl. rewrite <-length_chars in Hl. generalize dependent (chars (sha256 material)). intros l Hl.
  do 16 (destruct l as [|? l]; [done|]). clear Hl. set (t := hwid_text _).
  assert (chars t = _) as Ht by apply hwid_chars. clearbody t. cbv beta in Ht.
  destruct (version_digits a5) as [D6 V6]. destruct (variant_digits a7) as [D8 V8].
  eapply uuid_format; [exact Ht| |done|done]. rewrite !Forall_cons. split_and!; auto using byte_digits_ok.
Qed.
End hwid.

(** ** Which headers are sent *)

Definition profile_names : list string := ["User-Agent"; "X-Hwid"; "X-Device-Os"; "X-Ver-Os"; "X-Device-Model"].
(** A header that is safe to send: one value without control characters,
    under a canonical, valid name. *)
Record sendable (max : Z) (k : string) (vs : list string) : Prop := {
  sendable_name : validHeaderName k = true;
  sendable_canonical : CanonicalHeaderKey k = k;
  sendable_value : ∃ v, vs = [v] ∧ validHeaderValue v max = true;
}.
Definition all_headers (P : string → list string → Prop) (h : Header) : Prop := ∀ k vs, h !! k = Some vs → P k vs.
Lemma all_headers_set (P : string → list string → Prop) h k v : all_headers P h → P k [v] → all_headers P (header_set h k v).
Proof. intros Hh Hk k' vs. unfold header_set. rewrite gomap_lookup_insert. case_bool_decide; [by intros [= <-]; subst|apply Hh]. Qed.
Lemma all_headers_mono (P Q : string → list string → Prop) h : (∀ k vs, P k vs → Q k vs) → all_headers P h → all_headers Q h.
Proof. firstorder. Qed.
Lemma validHeaderValue_mono v m n : m ≤ n → validHeaderValue v m = true → validHeaderValue v n = true.
Proof. unfold validHeaderValue. intros Hmn. destruct (m <? slen v) eqn:E; [done|]. bool_to_prop. by replace (n <? slen v) with false by lia. Qed.
Lemma sendable_mono m n k vs : m ≤ n → sendable m k vs → sendable n k vs.
Proof. intros Hmn [? ? (v & -> & Hv)]. split; [done..|]. eauto using validHeaderValue_mono. Qed.

Lemma token_upper c : token_char c = true → token_char (upper_char c) = true ∧ is_ascii c = true ∧ lower_char (upper_char c) = lower_char c ∧
  upper_char (upper_char c) = upper_char c ∧ Ascii.eqb (upper_char c) "-" = Ascii.eqb c "-".
Proof. by destruct c as [[] [] [] [] [] [] [] []]. Qed.
Lemma token_lower c : token_char c = true → token_char (lower_char c) = true ∧ lower_char (lower_char c) = lower_char c ∧
  Ascii.eqb (lower_char c) "-" = Ascii.eqb c "-".
Proof. by destruct c as [[] [] [] [] [] [] [] []]. Qed.

(** Canonical names are valid names with the same lower case form. *)
Lemma canonical_chars_spec up l : forallb token_char l = true →
  forallb token_char (canonical_chars up l) = true ∧ length (canonical_chars up l) = length l ∧
  canonical_chars up (canonical_chars up l) = canonical_chars up l ∧
  to_lower (of_chars (canonical_chars up l)) = to_lower (of_chars l).
Proof.
  revert up. induction l as [|c l IH]; intros up; [done|]. cbn [forallb canonical_chars]. intros H. bool_to_prop.
  destruct (IH (Ascii.eqb c "-") ltac:(done)) as (I1 & I2 & I3 & I4).
  destruct (token_upper c ltac:(done)) as (U1 & A & U2 & U3 & U4). destruct (token_lower c ltac:(done)) as (L1 & L2 & L3).
  assert (∀ d, token_char d = true → is_ascii d = true) as Has by (intros d Hd; by apply token_upper in Hd as (_ & ? & _)).
  cbn [of_chars length]. rewrite I2. rewrite (to_lower_cons c) by done.
  destruct up; rewrite to_lower_cons by auto; rewrite ?U1, ?U2, ?U3, ?U4, ?L1, ?L2, ?L3, I1, I3, I4; done.
Qed.
Lemma canonical_spec k : validHeaderName k = true →
  validHeaderName (CanonicalHeaderKey k) = true ∧ CanonicalHeaderKey (CanonicalHeaderKey k) = CanonicalHeaderKey k ∧
  to_lower (CanonicalHeaderKey k) = to_lower k.
Proof.
  unfold validHeaderName at 1. destruct (_ || _) eqn:E; [done|]. intros Hk. bool_to_prop.
  destruct (canonical_chars_spec true (chars k) Hk) as (H1 & H2 & H3 & H4). rewrite of_chars_chars in H4.
  assert (CanonicalHeaderKey k = of_chars (canonical_chars true (chars k))) as -> by (unfold CanonicalHeaderKey; by rewrite Hk).
  assert (all_chars token_char (of_chars (canonical_chars true (chars k))) = true) as Ht by (unfold all_chars; by rewrite chars_of_chars).
  split_and!; [|unfold CanonicalHeaderKey; rewrite Ht, chars_of_chars; congruence|done].
  unfold validHeaderName. rewrite Ht. replace (_ || _) with false; [done|]. symmetry. apply orb_false_iff.
  rewrite length_of_chars, H2, length_chars.
  split; [|lia]. apply bool_decide_eq_false. intros E%(f_equal String.length). rewrite length_of_chars, H2, length_chars in E. by destruct k.
Qed.

(** A header of the profile: the five fixed names, or a name the transport
    does not use and that does not look like a credential. *)
Definition profile_header (k : string) (vs : list string) : Prop :=
  sendable 1024 k vs ∧ (k ∈ profile_names ∨ reservedTransportOrProfileHeader k = false ∧ likelyCredentialHeader k = false).

Lemma uuid8_value v : uuid8 v → validHeaderValue v 1024 = true.
Proof.
  intros (Hl & Hdash & Hhex & _). unfold validHeaderValue. rewrite Hl. simpl. unfold all_chars. rewrite forallb_forall.
  intros c Hc. apply list_elem_of_In, list_elem_of_lookup in Hc as [n Hn].
  assert (c = "-"%char ∨ hex_upper c = true) as [-> |Hc]; [|done|].
  { destruct (decide (n ∈ [8; 13; 18; 23]%nat)) as [Hin|Hout]; [left; apply Hdash in Hin; congruence|right; by eapply Hhex]. }
  unfold hex_upper, is_digit, char_in, ctl_byte in *. apply orb_true_iff in Hc. apply negb_true_iff, orb_false_iff.
  destruct Hc; bool_to_prop; lia.
Qed.
Lemma profile_header_field k v : k ∈ profile_names → validHeaderValue v 1024 = true → profile_header (CanonicalHeaderKey k) [v].
Proof.
  intros Hk Hv. assert (CanonicalHeaderKey k = k ∧ validHeaderName k = true) as [E Hn].
  { unfold profile_names in Hk. repeat (apply elem_of_cons in Hk as [-> |Hk]; [by vm_compute|]). by apply elem_of_nil in Hk. }
  rewrite E. split; [split; eauto|auto].
Qed.
Lemma set_fields_ok l h h' : set_fields l h = Ok h' → Forall (λ kv, kv.1 ∈ profile_names) l → all_headers profile_header h → all_headers profile_header h'.
Proof.
  revert h. induction l as [|[k v] l IH]; intros h; simpl; [by intros [= <-]|]. intros H. inversion_clear 1 as [|? ? Hk Hl]. intros Hh.
  destruct (bool_decide (v = "")); [by eapply IH|]. destruct (validHeaderValue v 256) eqn:Ev; [|done].
  eapply IH; [exact H|done|]. apply all_headers_set; [done|]. apply profile_header_field; [done|]. eapply validHeaderValue_mono; [|done]. lia.
Qed.
Lemma set_headers_ok l h h' : set_headers l h = Ok h' → all_headers profile_header h → all_headers profile_header h'.
Proof.
  revert h. induction l as [|[k v] l IH]; intros h; cbn [set_headers]; [by intros [= <-]|]. intros H Hh.
  destruct (_ || _) eqn:E; [done|]. bool_to_prop. destruct (_ || _) eqn:Er; [done|]. bool_to_prop.
  destruct (h !! _); [done|]. eapply IH; [exact H|]. destruct (canonical_spec k ltac:(done)) as (Hn & Hc & _).
  unfold Header_Set. rewrite Hc. apply all_headers_set; [done|]. split; [split; eauto|auto].
Qed.

Lemma bind_no_panic {A B} (m : result pool_error A) (k : A → result pool_error B) :
  m ≠ Err IndexOutOfRange → (∀ a, k a ≠ Err IndexOutOfRange) → m ≫= k ≠ Err IndexOutOfRange.
Proof. destruct m; simpl; [auto|]. congruence. Qed.
Lemma guard_no_panic b c : guard_err b (PoolError c) ≠ Err IndexOutOfRange.
Proof. by destruct b. Qed.
Lemma set_fields_panic l h e : set_fields l h = Err e → e = PoolError "profile_header_value".
Proof.
  revert h. induction l as [|[k v] l IH]; intros h; cbn [set_fields]; [done|]. destruct (bool_decide (v = "")); [apply IH|].
  destruct (negb _); [by intros [= <-]|apply IH].
Qed.
Lemma set_headers_panic l h : set_headers l h ≠ Err IndexOutOfRange.
Proof.
  revert h. induction l as [|[k v] l IH]; intros h; cbn [set_headers]; [done|]. destruct (_ || _); [done|].
  destruct (_ || _); [done|]. destruct (h !! _); [done|apply IH].
Qed.

Section safety.
Context {digest : Digest} {order : MapOrder}.
Lemma profileHeaders_ok ident p h : profileHeaders ident p = Ok h → all_headers profile_header h.
Proof.
  unfold profileHeaders. intros (h0 & H0 & H)%result_bind_Ok. assert (all_headers profile_header h0) as Hh0.
  { destruct (bool_decide _).
    - apply result_bind_Ok in H0 as (hwid & Hw & H0). injection H0 as <-. apply stableHWID_uuid, uuid8_value in Hw. unfold Header_Set.
      repeat (apply all_headers_set; [|apply profile_header_field; [by apply (bool_decide_unpack _)|done]]). done.
    - destruct (bool_decide _); [|done]. apply result_bind_Ok in H0 as (u & _ & H0).
      assert (h0 = header_set ∅ (CanonicalHeaderKey "User-Agent") "") as -> by (by injection H0).
      apply all_headers_set; [done|]. apply profile_header_field; [by apply (bool_decide_unpack _)|done]. }
  destruct p as [p|]; [|by injection H as <-]. ok_inv. eapply set_headers_ok; [done|]. eapply set_fields_ok; [done| |done].
  rewrite !Forall_cons. split_and!; [by apply (bool_decide_unpack _)..|constructor].
Qed.

Lemma set_fields_other x l h h' : Forall (λ kv, kv.2 = "" ∨ CanonicalHeaderKey kv.1 ≠ x) l → set_fields l h = Ok h' → h' !! x = h !! x.
Proof.
  intros Hl. revert h. induction Hl as [|[k v] l Hk _ IH]; intros h; cbn [set_fields]; [by intros [= <-]|]. simpl in Hk.
  case_bool_decide; [apply IH|]. destruct (negb _); [done|]. intros ->%IH. unfold Header_Set, header_set. rewrite gomap_lookup_insert.
  rewrite bool_decide_false by naive_solver. done.
Qed.
(** A header that is there is not replaced. *)
Lemma set_headers_keep x vs l h h' : set_headers l h = Ok h' → h !! x = Some vs → h' !! x = Some vs.
Proof.
  revert h. induction l as [|[k v] l IH]; intros h H Hx; cbn [set_headers] in H; [by injection H as <-|].
  destruct (negb (validHeaderName k)) eqn:Ev; [done|]. destruct (negb (validHeaderValue v 1024)); [done|]. cbn [orb] in H. cbv zeta in H.
  destruct (reservedTransportOrProfileHeader _ || _); [done|].
  destruct (h !! CanonicalHeaderKey k) eqn:E; [done|]. eapply IH; [exact H|]. bool_to_prop.
  destruct (canonical_spec k ltac:(done)) as (_ & Hc & _). unfold Header_Set, header_set. rewrite gomap_lookup_insert, bool_decide_false; [done|congruence].
Qed.
(** The device identifier of the default profile, unless the resource sets
    one, is the one derived from the client identity. *)
Definition derives_hwid (p : option HTTPClientProfile) : Prop := profile_mode p = "Default" ∧ ∀ q, p = Some q → HWID q = "".
Lemma profileHeaders_hwid ident p h : profileHeaders ident p = Ok h → derives_hwid p →
  ∃ v, stableHWID ident = Ok v ∧ h !! "X-Hwid" = Some [v].
Proof.
  intros H [Hm Hq]. unfold profileHeaders in H. rewrite (bool_decide_true _ Hm) in H. apply result_bind_Ok in H as (h0 & H0 & H).
  apply result_bind_Ok in H0 as (v & Hv & H0). exists v. split; [done|]. injection H0 as <-. set (h0 := Header_Set _ "X-Device-Model" _) in *.
  assert (h0 !! "X-Hwid" = Some [v]) as Hh0 by reflexivity. clearbody h0.
  destruct p as [p|]; [|by injection H as <-]. ok_inv. eapply set_headers_keep; [done|]. rewrite <-Hh0.
  eapply set_fields_other; [|done]. rewrite !Forall_cons. split_and!; try (right; vm_compute; discriminate); [left; by apply Hq|constructor].
Qed.

(** The index into the parts of a legacy identity is in range. *)
Lemma hwid_material_ok uid sid explicit ident : clientIdentity uid sid explicit = Ok ident → ∃ m, hwid_material ident = Ok m.
Proof.
  unfold clientIdentity. destruct (bool_decide (explicit = "")).
  { intros [= <-]. unfold hwid_material. rewrite trim_prefix_app, has_prefix_app. change ("/" +:+ sid) with (String "/" sid).
    destruct (cut_app "/" uid sid) as (a & b & ->). eauto. }
  destruct (160 <? _); [done|]. destruct (cut ":" explicit) as [[prefix value]|] eqn:E; [|done]. apply cut_Some in E as [-> Hp].
  destruct (decide (prefix = "legacy")) as [-> |Hl].
  - rewrite bool_decide_true by done. destruct (cut "/" value) as [[a b]|] eqn:E; [|done]. destruct (_ || _); [done|].
    intros [= <-]. unfold hwid_material. change ("legacy" +:+ String ":" value) with ("legacy:" +:+ value).
    rewrite has_prefix_app, trim_prefix_app, E. eauto.
  - rewrite bool_decide_false by done. destruct (_ || _) eqn:E; [done|]. intros [= <-]. bool_to_prop.
    assert (prefix = "stable") as -> by (by apply dec_stable). unfold hwid_material. simpl. eauto.
Qed.
Lemma profileHeaders_no_panic uid sid explicit ident p : clientIdentity uid sid explicit = Ok ident →
  profileHeaders ident p ≠ Err IndexOutOfRange.
Proof.
  intros (m & Hm)%hwid_material_ok. apply bind_no_panic.
  - destruct (bool_decide _); [apply bind_no_panic; [unfold stableHWID; by rewrite Hm|done]|].
    destruct (bool_decide _); [|done]. apply bind_no_panic; [apply guard_no_panic|done].
  - intros h. destruct p as [p|]; [|done]. apply bind_no_panic; [by intros ?%set_fields_panic|]. intros h'.
    apply bind_no_panic; [apply guard_no_panic|]. intros _. apply set_headers_panic.
Qed.
End safety.
