(* ===== verification/NetipPrint.v ===== *)
(** * Printed addresses parse

    [netip.ParseAddr] reads what [Addr.String] prints, so an address that is
    pinned by its text is the address that was authorized. *)
From S2P Require Import Prelude Order Bytes Encoding Netip.
From Stdlib Require Import Ascii.
From Stdlib Require String.

(** ** Hexadecimal fields *)

Definition is_hex (c : ascii) : Prop := is_Some (hex_digit c).
Lemma hex_digit_symbol d : (0 ≤ d < 16)%Z → hex_digit (hex_symbol d) = Some d.
Proof.
  intros Hd. assert (∃ n, (n < 16)%nat ∧ d = Z.of_nat n) as (n&Hn&->) by (exists (Z.to_nat d); lia).
  do 16 (destruct n as [|n]; [reflexivity|]). lia.
Qed.

Lemma hex_acc_scan f z s : (0 ≤ z < 16 ^ Z.of_nat (S f))%Z → ∃ ds, chars (hex_acc (S f) z s) = ds ++ chars s ∧
  1 ≤ length ds ≤ S f ∧ Forall is_hex ds ∧
  ∀ a off rest, scan_hex a off (ds ++ rest) = scan_hex (a * 16 ^ Z.of_nat (length ds) + z) (off + length ds) rest.
Proof.
  revert z s. induction f as [|f IH]; intros z s Hz.
  - exists [hex_symbol z]. cbn [hex_acc]. rewrite Z.mod_small by lia. rewrite (proj2 (Z.ltb_lt z 16)) by lia.
    split_and!; [done|simpl; lia..| |].
    + constructor; [|constructor]. eexists. apply hex_digit_symbol. lia.
    + intros a off rest. cbn [app scan_hex length]. rewrite hex_digit_symbol by lia. f_equal; lia.
  - change (hex_acc (S (S f)) z s) with (let acc := String (hex_symbol (z `mod` 16)) s in
      if (z <? 16)%Z then acc else hex_acc (S f) (z / 16) acc). cbv zeta.
    pose proof (Z.mod_pos_bound z 16 ltac:(lia)) as Hm.
    destruct (z <? 16)%Z eqn:E; bool_to_prop.
    + exists [hex_symbol z]. rewrite Z.mod_small by lia. split_and!; [done|simpl; lia..| |].
      * constructor; [|constructor]. eexists. apply hex_digit_symbol. lia.
      * intros a off rest. cbn [app scan_hex length]. rewrite hex_digit_symbol by lia. f_equal; lia.
    + rewrite Nat2Z.inj_succ, Z.pow_succ_r in Hz by lia.
      destruct (IH (z / 16)%Z (String (hex_symbol (z `mod` 16)) s)) as (ds&E1&Hl&Hh&Hs).
      { split; [apply Z.div_pos; lia|]. apply Z.div_lt_upper_bound; lia. }
      exists (ds ++ [hex_symbol (z `mod` 16)]). rewrite E1, length_app, Forall_app, Forall_singleton. simpl length.
      split_and!; [by rewrite <-app_assoc|lia|lia|done|by eexists; apply hex_digit_symbol|].
      intros a off rest. rewrite <-app_assoc, Hs. cbn [app scan_hex]. rewrite hex_digit_symbol by done.
      rewrite Nat2Z.inj_add, Z.pow_add_r by lia. f_equal; [|lia].
      pose proof (Z.div_mod z 16 ltac:(lia)). change (16 ^ Z.of_nat 1)%Z with 16%Z. lia.
Qed.
Lemma print_hex_scan x : (0 ≤ x < 65536)%Z → ∃ d ds, chars (print_hex x) = d :: ds ∧ length ds ≤ 3 ∧ Forall is_hex (d :: ds) ∧
  ∀ rest, (∀ c r, rest = c :: r → hex_digit c = None) → scan_hex 0 0 ((d :: ds) ++ rest) = (x, S (length ds), rest).
Proof.
  intros Hx. destruct (hex_acc_scan 3 x "") as (ds&E&Hl&Hh&Hs); [done|]. destruct ds as [|d ds]; [simpl in Hl; lia|].
  exists d, ds. unfold print_hex. rewrite E, app_nil_r. simpl in Hl. split_and!; [done|lia|done|].
  intros rest Hr. rewrite Hs. destruct rest as [|c r]; simpl; [done|]. rewrite (Hr c r) by done. done.
Qed.

(** ** The field loop *)

Definition field_ok (x : Z) : Prop := (0 ≤ x < 65536)%Z.
Definition joined (l : list Z) : list ascii := chars (join ":" (print_hex <$> l)).
Lemma joined_cons x y l : joined (x :: y :: l) = chars (print_hex x) ++ ":"%char :: joined (y :: l).
Proof. unfold joined. simpl. by rewrite chars_app. Qed.
Lemma joined_one x : joined [x] = chars (print_hex x).
Proof. done. Qed.
Lemma joined_head x l : field_ok x → ∃ d r, joined (x :: l) = d :: r ∧ is_hex d.
Proof.
  intros Hx. destruct (print_hex_scan x Hx) as (d&ds&E&_&Hh&_). inversion Hh; subst. destruct l as [|y l].
  - rewrite joined_one, E. eauto.
  - rewrite joined_cons, E. simpl. eauto.
Qed.
Lemma joined_chars l : Forall field_ok l → Forall (λ c, is_hex c ∨ c = ":"%char) (joined l).
Proof.
  assert (∀ x, field_ok x → Forall (λ c, is_hex c ∨ c = ":"%char) (chars (print_hex x))) as Hp.
  { intros x Hx. destruct (print_hex_scan x Hx) as (d&ds&->&_&Hh&_). eapply Forall_impl; [done|]. by left. }
  induction 1 as [|x [|y l] Hx Hl IH]; [constructor|by apply Hp|].
  rewrite joined_cons. apply Forall_app. split; [by apply Hp|]. constructor; [by right|done].
Qed.

Lemma colon_not_hex : hex_digit ":" = None.
Proof. done. Qed.
Lemma parse_last fuel got ell l acc off : scan_hex 0 0 l = (acc, off, []) → 1 ≤ off ≤ 4 →
  parse_fields (S fuel) got ell l = Some (acc :: got, ell).
Proof. intros E Ho. cbn [parse_fields]. rewrite E. destruct off as [|[|[|[|[|off]]]]]; try lia; done. Qed.
Lemma parse_colon fuel got ell l acc off c r : scan_hex 0 0 l = (acc, off, ":"%char :: c :: r) → 1 ≤ off ≤ 4 → is_hex c →
  parse_fields (S fuel) got ell l = parse_fields fuel (acc :: got) ell (c :: r).
Proof.
  intros E Ho [x Hc]. cbn [parse_fields]. rewrite E.
  replace (Nat.eqb off 0 || Nat.ltb 4 off)%bool with false by (destruct off as [|[|[|[|[|off]]]]]; done || lia).
  destruct c as [[] [] [] [] [] [] [] []]; done.
Qed.
Lemma parse_ellipsis fuel got l acc off r : scan_hex 0 0 l = (acc, off, ":"%char :: ":"%char :: r) → 1 ≤ off ≤ 4 →
  parse_fields (S fuel) got None l =
    match r with [] => Some (acc :: got, Some (S (length got))) | _ => parse_fields fuel (acc :: got) (Some (S (length got))) r end.
Proof.
  intros E Ho. cbn [parse_fields]. rewrite E.
  replace (Nat.eqb off 0 || Nat.ltb 4 off)%bool with false by (destruct off as [|[|[|[|[|off]]]]]; done || lia). by destruct r.
Qed.

Lemma colon_head (r : list ascii) : ∀ c r', ":"%char :: r = c :: r' → hex_digit c = None.
Proof. intros c r' [= <- <-]. apply colon_not_hex. Qed.

Lemma parse_joined l fuel got ell : l ≠ [] → Forall field_ok l → length l ≤ fuel →
  parse_fields fuel got ell (joined l) = Some (reverse l ++ got, ell).
Proof.
  revert fuel got. induction l as [|x l IH]; intros fuel got Hne Hl Hf; [done|]. inversion Hl as [|?? Hx Hl']; subst.
  destruct (print_hex_scan x Hx) as (d&ds&E&Hd&_&Hs). destruct fuel as [|fuel]; [simpl in Hf; lia|]. destruct l as [|y l].
  - rewrite joined_one, E. eapply parse_last; [|shelve]. rewrite <-(app_nil_r (d :: ds)). by apply Hs. Unshelve. lia.
  - inversion Hl' as [|?? Hy _]; subst. destruct (joined_head y l Hy) as (c&r&Ej&Hc). rewrite joined_cons, E, Ej.
    erewrite parse_colon; [|apply Hs, colon_head|lia|done]. rewrite <-Ej, IH by (done || simpl in *; lia).
    by rewrite (reverse_cons _ x), <-app_assoc.
Qed.
Lemma parse_split l l2 fuel got : l ≠ [] → Forall field_ok l → Forall field_ok l2 → length l + length l2 ≤ fuel →
  parse_fields fuel got None (joined l ++ ":"%char :: ":"%char :: joined l2) =
    Some (reverse l2 ++ reverse l ++ got, Some (length got + length l)).
Proof.
  revert fuel got. induction l as [|x l IH]; intros fuel got Hne Hl Hl2 Hf; [done|]. inversion Hl as [|?? Hx Hl']; subst.
  destruct (print_hex_scan x Hx) as (d&ds&E&Hd&_&Hs). destruct fuel as [|fuel]; [simpl in Hf; lia|]. destruct l as [|y l].
  - rewrite joined_one, E. erewrite parse_ellipsis; [|apply Hs, colon_head|lia]. simpl length. rewrite Nat.add_1_r.
    destruct l2 as [|z l2]; [done|]. inversion Hl2 as [|?? Hz _]; subst. destruct (joined_head z l2 Hz) as (c&r&Ej&_).
    rewrite Ej, <-Ej, parse_joined by (done || simpl in *; lia). done.
  - inversion Hl' as [|?? Hy _]; subst. destruct (joined_head y l Hy) as (c&r&Ej&Hc).
    rewrite joined_cons, E, <-app_assoc, <-app_comm_cons, Ej, <-app_comm_cons.
    erewrite parse_colon; [|apply Hs, colon_head|lia|done]. rewrite app_comm_cons, <-Ej, IH by (done || simpl in *; lia).
    rewrite (reverse_cons _ x), <-!app_assoc. simpl. do 3 f_equal. lia.
Qed.

(** ** Fields and values *)

Lemma fields_of_ok v : Forall field_ok (fields_of v).
Proof. unfold fields_of. apply Forall_fmap, Forall_true. intros i. apply Z.mod_pos_bound. lia. Qed.
Lemma field_step v k : (0 ≤ k)%Z → (v / 65536 ^ (k + 1) * 65536 + (v / 65536 ^ k) `mod` 65536 = v / 65536 ^ k)%Z.
Proof.
  intros Hk. rewrite Z.pow_add_r, <-Z.div_div by lia. change (65536 ^ 1)%Z with 65536%Z.
  pose proof (Z.div_mod (v / 65536 ^ k) 65536 ltac:(lia)). lia.
Qed.
Lemma of_fields_of v : (0 ≤ v < 2 ^ 128)%Z → of_fields (fields_of v) = v.
Proof.
  intros Hv. transitivity
    (((((((((v / 65536 ^ 7) `mod` 65536) * 65536 + (v / 65536 ^ 6) `mod` 65536) * 65536 + (v / 65536 ^ 5) `mod` 65536) * 65536 + (v / 65536 ^ 4) `mod` 65536) * 65536 +
       (v / 65536 ^ 3) `mod` 65536) * 65536 + (v / 65536 ^ 2) `mod` 65536) * 65536 + (v / 65536 ^ 1) `mod` 65536) * 65536 + (v / 65536 ^ 0) `mod` 65536)%Z.
  { reflexivity. }
  rewrite (Z.mod_small (v / 65536 ^ 7)).
  2: { split; [apply Z.div_pos; lia|]. apply Z.div_lt_upper_bound; [lia|]. change (65536 ^ 7 * 65536)%Z with (2 ^ 128)%Z. lia. }
  assert (∀ k k', k' = k + 1 → 0 ≤ k → v / 65536 ^ k' * 65536 + (v / 65536 ^ k) `mod` 65536 = v / 65536 ^ k)%Z as Hs
    by (intros k k' -> ?; by apply field_step).
  rewrite (Hs 6 7)%Z, (Hs 5 6)%Z, (Hs 4 5)%Z, (Hs 3 4)%Z, (Hs 2 3)%Z, (Hs 1 2)%Z, (Hs 0 1)%Z by done. apply Z.div_1_r.
Qed.

Lemma zero_run_take l : take (zero_run l) l = replicate (zero_run l) 0%Z ∧ zero_run l ≤ length l.
Proof.
  induction l as [|x l [IH Hl]]; [done|]. destruct x; simpl; [|split; [done|lia]..]. split; [by rewrite IH|lia].
Qed.
Lemma longest_run_spec l i n : longest_run l = Some (i, n) → 2 ≤ n ∧ i < 8 ∧ n = zero_run (drop i l).
Proof.
  unfold longest_run. intros H.
  assert (∀ ks best, Forall (λ k, k < 8) ks →
    (∀ i n, best = Some (i, n) → 2 ≤ n ∧ i < 8 ∧ n = zero_run (drop i l)) →
    ∀ i n, foldl (λ best i, let n := zero_run (drop i l) in
      if (2 <=? n) && (match best with Some (_, m) => m <? n | None => true end) then Some (i, n) else best) best ks = Some (i, n) →
    2 ≤ n ∧ i < 8 ∧ n = zero_run (drop i l)) as Hg.
  { induction ks as [|k ks IH]; intros best Hk Hb; [exact Hb|]. inversion Hk; subst. cbn [foldl].
    apply IH; [done|]. cbv zeta. destruct (_ && _) eqn:E2; [|exact Hb]. apply andb_true_iff in E2 as [E2%Nat.leb_le _].
    intros ?? [= <- <-]. done. }
  apply (Hg (seq 0 8) None); [by repeat constructor; lia|intros ?? [=]|exact H].
Qed.

(** ** Parsing what is printed *)

Definition address_char (c : ascii) : Prop := is_hex c ∨ c = ":"%char.
Lemma address_char_cases c : address_char c → c = ":"%char ∨ char_elem c ".:%" = false.
Proof. intros [[x Hx]|?]; [|by left]. right. by destruct c as [[] [] [] [] [] [] [] []]. Qed.
Lemma cut_at_none l : Forall address_char l → cut_at "%" l = (l, None).
Proof.
  induction 1 as [|c l Hc Hl IH]; [done|]. simpl. rewrite IH.
  destruct (Ascii.eqb_spec c "%"); [|done]. subst. destruct Hc as [[x Hx]|Hx]; done.
Qed.
Lemma find_colon l : Forall address_char l → ":"%char ∈ l → List.find (λ c, char_elem c ".:%") l = Some ":"%char.
Proof.
  induction 1 as [|c l Hc Hl IH]; [by intros ?%not_elem_of_nil|]. intros Hin. simpl.
  destruct (address_char_cases c Hc) as [->|E]; [done|]. rewrite E. apply IH. apply elem_of_cons in Hin as [<-|?]; done.
Qed.

Definition parse_groups (l : list ascii) : option (list Z * option nat) :=
  match l with
  | ":"%char :: ":"%char :: [] => Some ([], Some 0)
  | ":"%char :: ":"%char :: l' => parse_fields 8 [] (Some 0) l'
  | _ => parse_fields 8 [] None l
  end.
Lemma parse_groups_hex c l : is_hex c → parse_groups (c :: l) = parse_fields 8 [] None (c :: l).
Proof. intros [x Hx]. destruct c as [[] [] [] [] [] [] [] []]; done. Qed.

Lemma parse_groups_colons c l : parse_groups (":"%char :: ":"%char :: c :: l) = parse_fields 8 [] (Some 0) (c :: l).
Proof. reflexivity. Qed.
Lemma parse_groups_split l l2 : Forall field_ok l → Forall field_ok l2 → length l + length l2 ≤ 8 →
  parse_groups (joined l ++ ":"%char :: ":"%char :: joined l2) = Some (reverse (l ++ l2), Some (length l)).
Proof.
  intros H1 H2 Hl. rewrite reverse_app. destruct l as [|x l].
  - change (joined []) with (@nil ascii). rewrite app_nil_l. destruct l2 as [|y l2]; [reflexivity|].
    inversion H2 as [|?? Hy _]; subst. destruct (joined_head y l2 Hy) as (c&r&Ej&_).
    rewrite Ej, parse_groups_colons, <-Ej, parse_joined by (done || cbn [length] in *; lia). done.
  - inversion H1 as [|?? Hx _]; subst. destruct (joined_head x l Hx) as (c&r&Ej&Hc).
    rewrite Ej, <-app_comm_cons, parse_groups_hex, app_comm_cons, <-Ej by done.
    rewrite parse_split by (done || lia). by rewrite app_nil_r.
Qed.

(** What [print_ipv6] prints, as fields. *)
Lemma print_ipv6_groups v : ∃ l e, parse_groups (chars (print_ipv6 v)) = Some (reverse l, e) ∧ expand l e = Some (of_fields (fields_of v)).
Proof.
  unfold print_ipv6. pose proof (fields_of_ok v) as Hok. assert (length (fields_of v) = 8) as Hlen by done.
  generalize dependent (fields_of v). intros f Hok Hlen. destruct (longest_run f) as [[i n]|] eqn:E.
  - apply longest_run_spec in E as (Hn&Hi&En). destruct (zero_run_take (drop i f)) as [Hz Hzl].
    rewrite <-En in Hz, Hzl. rewrite length_drop, Hlen in Hzl.
    assert (length (take i f) = i) as L1 by (rewrite length_take; lia).
    exists (take i f ++ drop (i + n) f), (Some i). split.
    + rewrite !chars_app. fold (joined (take i f)). fold (joined (drop (i + n) f)).
      change (chars "::") with [":"; ":"]%char. cbn [app].
      rewrite parse_groups_split, L1; [done|by apply Forall_take|by apply Forall_drop|rewrite length_drop; lia].
    + unfold expand. rewrite length_app, length_take, length_drop, Hlen. rewrite (proj2 (Nat.ltb_lt _ _)) by lia.
      rewrite take_app_length', drop_app_length' by (rewrite length_take; lia).
      replace (8 - _) with n by lia. rewrite <-Hz, <-drop_drop. by rewrite (take_drop n), take_drop.
  - exists f, None. split.
    + fold (joined f). destruct f as [|x f]; [done|]. inversion Hok as [|?? Hx _]; subst.
      destruct (joined_head x f Hx) as (c&r&Ej&Hc). rewrite Ej, parse_groups_hex, <-Ej by done.
      rewrite parse_joined by (done || lia). by rewrite app_nil_r.
    + unfold expand. by rewrite Hlen.
Qed.

Lemma print_ipv6_chars v : Forall address_char (chars (print_ipv6 v)) ∧ ":"%char ∈ chars (print_ipv6 v).
Proof.
  unfold print_ipv6. pose proof (fields_of_ok v) as Hok. assert (length (fields_of v) = 8) as Hlen by done.
  generalize dependent (fields_of v). intros f Hok Hlen. destruct (longest_run f) as [[i n]|].
  - rewrite !chars_app. fold (joined (take i f)). fold (joined (drop (i + n) f)). split.
    + rewrite !Forall_app. split_and!; [by apply joined_chars, Forall_take|by repeat constructor; right|by apply joined_chars, Forall_drop].
    + rewrite !elem_of_app. right. left. by left.
  - fold (joined f). split; [by apply joined_chars|]. destruct f as [|x [|y f]]; [done..|]. rewrite joined_cons.
    rewrite elem_of_app. right. by left.
Qed.
Lemma parse_print_ipv6 v : (0 ≤ v < 2 ^ 128)%Z → parse_addr (print_ipv6 v) = Some (IPv6 v "").
Proof.
  intros Hv. destruct (print_ipv6_chars v) as [Hc Hin]. unfold parse_addr. rewrite find_colon by done.
  unfold parse_ipv6. rewrite cut_at_none by done. rewrite bool_decide_false by done. cbn [default of_chars].
  destruct (print_ipv6_groups v) as (l&e&Hg&He). fold (parse_groups (chars (print_ipv6 v))). rewrite Hg. simpl.
  rewrite reverse_involutive, He. simpl. by rewrite of_fields_of.
Qed.

(** An octet prints as its digits. *)
Definition octet_ok (z : Z) : bool :=
  bool_decide (parse_octet (itoa z) = Some z) && negb (char_elem "." (itoa z)) && forallb is_digit (chars (itoa z)).
Lemma octets_ok z : (0 ≤ z < 256)%Z → octet_ok z = true.
Proof.
  intros Hz. assert (forallb octet_ok (Z.of_nat <$> seq 0 256) = true) as H by (vm_compute; reflexivity).
  rewrite forallb_forall in H. apply H, list_elem_of_In, list_elem_of_fmap. exists (Z.to_nat z).
  split; [lia|]. apply elem_of_seq. lia.
Qed.
Lemma split_chars_sep sep cur l r : Forall (λ c, c ≠ sep) l →
  split_chars sep cur (l ++ sep :: r) = (reverse cur ++ l) :: split_chars sep [] r.
Proof.
  revert cur. induction l as [|c l IH]; intros cur Hl; cbn [app split_chars].
  - rewrite Ascii.eqb_refl, app_nil_r. done.
  - inversion Hl; subst. destruct (Ascii.eqb_spec c sep); [done|]. rewrite IH, reverse_cons, <-app_assoc by done. done.
Qed.
Lemma split_chars_end sep cur l : Forall (λ c, c ≠ sep) l → split_chars sep cur l = [reverse cur ++ l].
Proof.
  revert cur. induction l as [|c l IH]; intros cur Hl; cbn [split_chars]; [by rewrite app_nil_r|].
  inversion Hl; subst. destruct (Ascii.eqb_spec c sep); [done|]. rewrite IH, reverse_cons, <-app_assoc by done. done.
Qed.
Lemma octet_chars z : (0 ≤ z < 256)%Z → parse_octet (itoa z) = Some z ∧ Forall (λ c, is_digit c = true) (chars (itoa z)).
Proof.
  intros [[H1 _]%andb_true_iff H3]%octets_ok%andb_true_iff. apply bool_decide_eq_true_1 in H1. split; [done|].
  rewrite Forall_forall. rewrite forallb_forall in H3. intros c Hc%list_elem_of_In. auto.
Qed.
Lemma digit_not_dot c : is_digit c = true → c ≠ "."%char.
Proof. by intros H ->. Qed.
Lemma digit_not_sep c : is_digit c = true → char_elem c ".:%" = false.
Proof. by destruct c as [[] [] [] [] [] [] [] []]. Qed.
Lemma find_dot l r : Forall (λ c, is_digit c = true) l → List.find (λ c, char_elem c ".:%") (l ++ "."%char :: r) = Some "."%char.
Proof. induction 1 as [|c l Hc Hl IH]; [done|]. cbn [app List.find]. by rewrite digit_not_sep. Qed.

Lemma parse_print_ipv4 v : (0 ≤ v < 2 ^ 32)%Z → parse_addr (print_ipv4 v) = Some (IPv4 v).
Proof.
  intros Hv. unfold print_ipv4.
  assert (0 ≤ v / 16777216 < 256)%Z as Ha by (split; [apply Z.div_pos; lia|apply Z.div_lt_upper_bound; lia]).
  pose proof (Z.mod_pos_bound (v / 65536) 256 ltac:(lia)) as Hb. pose proof (Z.mod_pos_bound (v / 256) 256 ltac:(lia)) as Hc.
  pose proof (Z.mod_pos_bound v 256 ltac:(lia)) as Hd.
  assert (v = ((v / 16777216 * 256 + (v / 65536) `mod` 256) * 256 + (v / 256) `mod` 256) * 256 + v `mod` 256)%Z as Ev.
  { clear -Hv. rewrite !Z.mod_eq by lia. replace (v / 65536 / 256)%Z with (v / 16777216)%Z by (by rewrite Z.div_div by lia).
    replace (v / 256 / 256)%Z with (v / 65536)%Z by (by rewrite Z.div_div by lia). lia. }
  generalize dependent (v / 16777216)%Z. generalize dependent ((v / 65536) `mod` 256)%Z.
  generalize dependent ((v / 256) `mod` 256)%Z. generalize dependent (v `mod` 256)%Z. intros d Hd c Hc b Hb a Ha ->.
  destruct (octet_chars a Ha) as [Pa Ca]. destruct (octet_chars b Hb) as [Pb Cb].
  destruct (octet_chars c Hc) as [Pc Cc]. destruct (octet_chars d Hd) as [Pd Cd].
  unfold parse_addr. rewrite !chars_app. change (chars ".") with ["."%char]. cbn [app]. rewrite find_dot by done.
  unfold parse_ipv4, split_on. rewrite !chars_app. change (chars ".") with ["."%char]. cbn [app].
  rewrite !split_chars_sep, split_chars_end by (eapply Forall_impl; [done|]; simpl; apply digit_not_dot).
  rewrite reverse_nil, !app_nil_l. simpl. rewrite !of_chars_chars. by rewrite Pa, Pb, Pc, Pd.
Qed.

(** An address without a zone, of its family's width and not an IPv4 address
    written as IPv6, parses from its text. *)
Lemma parse_print_addr a : addr_zone a = "" →
  match a with IPv4 v => (0 ≤ v < 2 ^ 32)%Z | IPv6 v _ => (0 ≤ v < 2 ^ 128)%Z ∧ is4_in6 v = false end →
  parse_addr (print_addr a) = Some a.
Proof.
  destruct a as [v|v z]; simpl; [intros _; apply parse_print_ipv4|]. intros -> [Hv Hm]. rewrite Hm, bool_decide_true by done.
  rewrite sapp_nil_r. by apply parse_print_ipv6.
Qed.

(** ** Parsed addresses have the width of their family *)

Lemma hex_digit_range c d : hex_digit c = Some d → (0 ≤ d < 16)%Z.
Proof. destruct c as [[] [] [] [] [] [] [] []]; vm_compute; intros [= <-]; by split. Qed.
Lemma scan_hex_range acc off l acc' off' r : scan_hex acc off l = (acc', off', r) → (0 ≤ acc < 16 ^ Z.of_nat off)%Z →
  (0 ≤ acc' < 16 ^ Z.of_nat off')%Z.
Proof.
  revert acc off. induction l as [|c l IH]; intros acc off; simpl; [by intros [= <- <- <-]|].
  destruct (hex_digit c) as [d|] eqn:Ed; [|by intros [= <- <- <-]]. intros E Ha. eapply IH; [exact E|].
  apply hex_digit_range in Ed. rewrite Nat2Z.inj_succ, Z.pow_succ_r by lia. lia.
Qed.
Lemma parse_digits_nonneg acc l z : (0 ≤ acc)%Z → parse_digits acc l = Some z → (0 ≤ z)%Z.
Proof.
  revert acc. induction l as [|c l IH]; intros acc Ha; simpl; [by intros [= <-]|].
  destruct (is_digit c) eqn:Ec; [|done]. apply IH. assert (48 ≤ code c)%Z; [|lia].
  clear -Ec. by destruct c as [[] [] [] [] [] [] [] []].
Qed.
Lemma parse_octet_range s z : parse_octet s = Some z → (0 ≤ z ≤ 255)%Z.
Proof.
  unfold parse_octet. destruct (chars s) as [|c l]; [done|]. case_bool_decide; [done|].
  intros (x&Hx&Hz)%bind_Some. apply parse_digits_nonneg in Hx; [|done]. destruct (x <=? 255)%Z eqn:E; [|done].
  injection Hz as <-. bool_to_prop. lia.
Qed.
Lemma parse_ipv4_range s v : parse_ipv4 s = Some v → (0 ≤ v < 2 ^ 32)%Z.
Proof.
  unfold parse_ipv4. destruct (split_on "." s) as [|a [|b [|c [|d [|e l]]]]]; try done.
  intros (x1&H1&(x2&H2&(x3&H3&(x4&H4&[= <-])%bind_Some)%bind_Some)%bind_Some)%bind_Some.
  apply parse_octet_range in H1, H2, H3, H4. lia.
Qed.
Lemma parse_fields_range fuel got ell l got' ell' : parse_fields fuel got ell l = Some (got', ell') →
  Forall field_ok got → Forall field_ok got'.
Proof.
  revert got ell l. induction fuel as [|fuel IH]; intros got ell l; cbn [parse_fields].
  { destruct l; [by intros [= <- <-]|done]. }
  destruct (scan_hex 0 0 l) as [[acc off] rest] eqn:Es. destruct (_ || _)%bool eqn:Eo; [done|].
  apply orb_false_iff in Eo as [_ Eo%Nat.ltb_ge]. apply scan_hex_range in Es; [|done].
  assert (field_ok acc) as Hacc.
  { assert (16 ^ Z.of_nat off ≤ 16 ^ 4)%Z by (apply Z.pow_le_mono_r; lia). unfold field_ok. lia. }
  intros Hp Hg. assert (Forall field_ok (acc :: got)) as Hg' by by constructor.
  repeat (case_match; simplify_eq; try done).
  all: try (eapply IH; [exact Hp|done]).
  apply bind_Some in Hp as (v&Hv&[= <- <-]). apply parse_ipv4_range in Hv.
  constructor; [|constructor; [|done]]; unfold field_ok; [apply Z.mod_pos_bound; lia|].
  split; [apply Z.div_pos; lia|apply Z.div_lt_upper_bound; lia].
Qed.
Lemma of_fields_range l : Forall field_ok l → (0 ≤ of_fields l < 65536 ^ Z.of_nat (length l))%Z.
Proof.
  unfold of_fields. induction l as [|x l IH] using rev_ind; intros Hl; [done|].
  apply Forall_app in Hl as [Hl Hx]. specialize (IH Hl). rewrite Forall_singleton in Hx. unfold field_ok in Hx.
  rewrite foldl_app, length_app, Nat2Z.inj_add, Z.pow_add_r by lia.
  cbn [foldl length]. change (65536 ^ Z.of_nat 1)%Z with 65536%Z. lia.
Qed.
Lemma parse_addr_range s a : parse_addr s = Some a →
  match a with IPv4 v => (0 ≤ v < 2 ^ 32)%Z | IPv6 v _ => (0 ≤ v < 2 ^ 128)%Z end.
Proof.
  unfold parse_addr. destruct (List.find _ _) as [c|]; [|done].
  assert (parse_ipv6 s = Some a → match a with IPv4 v => (0 ≤ v < 2 ^ 32)%Z | IPv6 v _ => (0 ≤ v < 2 ^ 128)%Z end) as H6.
  { unfold parse_ipv6. destruct (cut_at _ _) as [l z]. case_bool_decide; [done|]. fold (parse_groups l).
    intros ([got ell]&Hr&(v&Hv&[= <-])%bind_Some)%bind_Some.
    assert (Forall field_ok got) as Hg.
    { clear -Hr. unfold parse_groups in Hr. repeat (case_match; simplify_eq; try (by constructor));
        by (eapply parse_fields_range; [exact Hr|constructor]). }
    simpl in Hv. assert (Forall field_ok (reverse got)) as Hrev by by apply Forall_reverse. unfold expand in Hv.
    change (2 ^ 128)%Z with (65536 ^ Z.of_nat 8)%Z. destruct ell as [e|].
    - destruct (_ <? 8)%nat eqn:El in Hv; [|done]. injection Hv as <-. bool_to_prop.
      pose proof (of_fields_range (take e (reverse got) ++ replicate (8 - length (reverse got)) 0%Z ++ drop e (reverse got))) as Hb.
      rewrite !length_app, length_replicate, length_take, length_drop in Hb.
      replace (_ + (_ + _))%nat with 8%nat in Hb by lia. apply Hb. rewrite !Forall_app. split_and!;
        [by apply Forall_take|by apply Forall_replicate|by apply Forall_drop].
    - destruct (_ =? 8)%nat eqn:El in Hv; [|done]. injection Hv as <-. apply Nat.eqb_eq in El. rewrite <-El. by apply of_fields_range. }
  destruct c as [[] [] [] [] [] [] [] []]; try done. intros (v&Hv&->)%fmap_Some. by apply parse_ipv4_range in Hv.
Qed.
