(* ===== verification/Archive.v ===== *)
(** * Release downloads and archives (internal/releasemanifest/manifest.go)

    [Fetch] installs a pinned download and [ExtractSourceArchive] unpacks a
    source archive.  Each call to the operating system is logged and may fail;
    gzip and tar readers are parameters. *)
From S2P Require Import Prelude Order Bytes Encoding Netip NetipPrint Endpoint Text.
From Stdlib Require Import Ascii.
From Stdlib Require String.
Open Scope Z_scope.

(** ** Slash-separated paths (path) *)

Definition slash : ascii := "/"%char.
Abbreviation component := (list ascii).
Definition components (s : string) : list component := split_chars slash [] (chars s).
Definition dot : component := ["."%char].
Definition dotdot : component := ["."%char; "."%char].
Fixpoint join_path (l : list component) : list ascii :=
  match l with [] => [] | [c] => c | c :: l => c ++ slash :: join_path l end.
(** The stack of [path.Clean], its top first. *)
Fixpoint clean_onto (rooted : bool) (stack l : list component) : list component :=
  match l with
  | [] => reverse stack
  | c :: l =>
      if bool_decide (c = []) || bool_decide (c = dot) then clean_onto rooted stack l
      else if bool_decide (c = dotdot) then
        match stack with
        | top :: rest => if bool_decide (top = dotdot) then clean_onto rooted (c :: stack) l else clean_onto rooted rest l
        | [] => if rooted then clean_onto rooted [] l else clean_onto rooted [c] l
        end
      else clean_onto rooted (c :: stack) l
  end.
Definition is_rooted (s : string) : bool := has_prefix "/" s.
Definition clean_stack (s : string) : list component := clean_onto (is_rooted s) [] (components s).
Definition path_Clean (s : string) : string :=
  let out := of_chars ((if is_rooted s then [slash] else []) ++ join_path (clean_stack s)) in
  if bool_decide (out = "") then "." else out.
(** [filepath.Join] of a directory and a relative path. *)
Definition path_Join (directory relative : string) : string :=
  if bool_decide (directory = "") then path_Clean relative else path_Clean (directory +:+ "/" +:+ relative).
(** [path.Base(s) = s] for a non-empty [s]: a name without a slash. *)
Definition is_base_name (s : string) : bool := bool_decide (s = "/") || negb (char_elem slash s).
Definition trim_slash (s : string) : string := if Address.has_suffix "/" s then take_first (String.length s - 1) s else s.

Definition safeArchivePath (value : string) : bool :=
  let trimmed := trim_slash value in
  negb (bool_decide (trimmed = "")) && negb (has_prefix "/" trimmed) && bool_decide (path_Clean trimmed = trimmed) && negb (has_prefix "../" trimmed).

Example clean_examples : path_Clean <$> ["a//b/./c/.."; "/../a/"; "../../a"; ""; "a/.."] = ["a/b"; "/a"; "../../a"; "."; "."].
Proof. vm_compute. reflexivity. Qed.

(** ** The operating system *)

Inductive effect :=
| Mkdir (path : string)
| MkdirAll (path : string)
| MakeParents (path : string)          (* MkdirAll of the path's directory *)
| OpenTemp                             (* the temporary file, for reading *)
| CreateExclusive (path : string) (mode : Z)
| CreateTemp (beside : string)         (* in the directory of a path *)
| WriteFile (path : string) (size : Z)
| WriteTemp (data : string)
| Chmod (mode : Z)
| CloseFile
| Rename (path : string) (data : string). (* the temporary file, with its content *)
(** Calls are logged in order; the [n]-th one succeeds when [os n]. *)
Definition IO (A : Type) : Type := list effect → result string A * list effect.
#[export] Instance io_ret : MRet IO := λ A a log, (Ok a, log).
#[export] Instance io_bind : MBind IO := λ A B k m log, match m log with (Ok a, log) => k a log | (Err e, log) => (Err e, log) end.
Definition io_fail {A} (code : string) : IO A := λ log, (Err code, log).
Definition call (os : nat → bool) (code : string) (e : effect) : IO () :=
  λ log, (if os (length log) then Ok () else Err code, log ++ [e]).
(** A call on an open file, which is closed when the call fails. *)
Definition call_closing (os : nat → bool) (code : string) (e : effect) : IO () :=
  λ log, if os (length log) then (Ok (), log ++ [e]) else (Err code, log ++ [e; CloseFile]).
Definition require (b : bool) (code : string) : IO () := λ log, (if b then Ok () else Err code, log).

(** ** Downloads *)

Inductive tar_type := TypeReg | TypeDir | TypeXHeader | TypeXGlobalHeader | TypeOther (c : Z).
#[export] Instance tar_type_eq_dec : EqDecision tar_type.
Proof. solve_decision. Defined.
Record header := { h_name : string; h_type : tar_type; h_size : Z; h_mode : Z; h_body : string }.
(** The entries of an archive; [None] is a read error. *)
Abbreviation tar_stream := (list (option header)).
Record Download := { FileName : string; dl_URL : string; SHA256 : string; dl_format : string; BinaryPath : string }.

Section release.
Context `{Digest}.
(** gzip and archive/tar: a stream that does not decompress is [None]. *)
Context (gunzip : string → option string) (untar : string → tar_stream) (os : nat → bool).

(** [io.LimitReader] and [io.CopyN] of an entry. *)
Definition limit_bytes (n : Z) (s : string) : string := take_first (Z.to_nat n) s.
Fixpoint archiveFile (hs : tar_stream) (wanted : string) : result string string :=
  match hs with
  | [] => Err "absent"
  | None :: _ => Err "read"
  | Some h :: hs =>
      if negb (safeArchivePath (h_name h)) then Err "unsafe_path"
      else if bool_decide (h_name h = wanted) then
        if negb (bool_decide (h_type h = TypeReg)) || (256 * 2 ^ 20 <? h_size h) then Err "not_bounded_regular"
        else Ok (limit_bytes (h_size h) (h_body h))
      else archiveFile hs wanted
  end.
Definition writeAtomic (output data : string) (mode : Z) : IO () :=
  _ ← call os "create_output_directory" (MakeParents output);
  _ ← call os "create_temporary" (CreateTemp output);
  _ ← call_closing os "write_output" (WriteTemp data);
  _ ← call_closing os "set_mode" (Chmod mode);
  _ ← call os "close_output" CloseFile;
  call os "install_output" (Rename output data).
(** The bytes a verified download stands for. *)
Definition unpacked (d : Download) (bytes : string) : result string string :=
  let zipped := bool_decide (dl_format d = "gzip") || bool_decide (dl_format d = "tar.gz") in
  match (if zipped then gunzip bytes else Some bytes) with
  | None => Err "gzip"
  | Some data => if bool_decide (dl_format d = "tar.gz") then archiveFile (untar data) (BinaryPath d) else Ok data
  end.
Definition materialize (d : Download) (bytes output : string) (mode : Z) : IO () :=
  _ ← call os "open_download" OpenTemp;
  match unpacked d bytes with Err e => io_fail e | Ok data => writeAtomic output data mode end.
(** [response] is the status and the body of the GET, [None] when it fails. *)
(** File modes are the numbers of the octal constants: 365 is 0555, 420 is
    0644, 493 is 0755 and the mask 73 is 0111. *)
Definition maxDownload : Z := 512 * 2 ^ 20.
Definition hex_string (s : string) : string := hex_encode (code <$> chars s).
Definition Fetch (response : option (Z * string)) (d : Download) (output : string) (executable : bool) : IO () :=
  match response with
  | None => io_fail "download"
  | Some (status, body) =>
      _ ← require (status =? 200) "http_status";
      _ ← call os "create_download_directory" (MakeParents output);
      _ ← call os "create_temporary_download" (CreateTemp output);
      let bytes := limit_bytes maxDownload body in
      _ ← call_closing os "read" (WriteTemp bytes);
      _ ← call os "close" CloseFile;
      _ ← require (bool_decide (hex_string (sha256 bytes) = SHA256 d)) "checksum";
      materialize d bytes output (if executable then 365 else 420)
  end.
Definition secureRedirects (via : Z) (scheme : string) : bool := negb ((10 <=? via) || negb (bool_decide (scheme = "https"))).

(** ** Source archives *)

Record extraction := { x_root : string; x_files : Z; x_total : Z }.
Definition empty_extraction : extraction := {| x_root := ""; x_files := 0; x_total := 0 |}.
Definition metadata (t : tar_type) : bool := match t with TypeXHeader | TypeXGlobalHeader => true | _ => false end.
(** A file or a directory below the root. *)
Definition extract_entry (output relative : string) (h : header) (x : extraction) : IO extraction :=
  _ ← require (safeArchivePath relative) "unsafe_relative_path";
  let target := path_Join output relative in
  let files := x_files x + 1 in
  _ ← require (files <=? 50000) "too_many_entries";
  match h_type h with
  | TypeDir =>
      _ ← call os "create_directory" (MkdirAll target);
      mret {| x_root := x_root x; x_files := files; x_total := x_total x |}
  | TypeReg =>
      let total := wrap64 (x_total x + h_size h) in
      _ ← require (negb ((h_size h <? 0) || (256 * 2 ^ 20 <? h_size h) || (2 ^ 30 <? total))) "size_limits";
      _ ← call os "create_parent" (MakeParents target);
      _ ← call os "create_file" (CreateExclusive target (if bool_decide (Z.land (h_mode h) 73 = 0) then 420 else 493));
      _ ← call_closing os "extract_file" (WriteFile target (h_size h));
      _ ← call os "close_file" CloseFile;
      mret {| x_root := x_root x; x_files := files; x_total := total |}
  | _ => io_fail "unsupported_entry"
  end.
Definition extract_header (output : string) (h : header) (x : extraction) : IO extraction :=
  if metadata (h_type h) then mret x else
  let name := trim_slash (h_name h) in
  _ ← require (safeArchivePath name) "unsafe_path";
  let parts := match cut slash name with Some (a, b) => (a, Some b) | None => (name, None) end in
  let root := if bool_decide (x_root x = "") then parts.1 else x_root x in
  _ ← require (bool_decide (parts.1 = root)) "multiple_roots";
  let x := {| x_root := root; x_files := x_files x; x_total := x_total x |} in
  match parts.2 with
  | None =>
      _ ← require (negb (negb (bool_decide (h_type h = TypeDir)) && negb (Address.has_suffix "/" (h_name h) && (h_size h =? 0)))) "root_not_directory";
      mret x
  | Some relative => extract_entry output relative h x
  end.
Fixpoint extract_headers (output : string) (hs : tar_stream) (x : extraction) : IO extraction :=
  match hs with
  | [] => mret x
  | None :: _ => io_fail "read_archive"
  | Some h :: hs => x ← extract_header output h x; extract_headers output hs x
  end.
Definition ExtractSourceArchive (archive : option string) (output : string) : IO () :=
  _ ← call os "create_source_directory" (Mkdir output);
  match archive with
  | None => io_fail "open_archive"
  | Some bytes =>
      match gunzip bytes with
      | None => io_fail "open_gzip"
      | Some data =>
          x ← extract_headers output (untar data) empty_extraction;
          require (negb (bool_decide (x_root x = "") || (x_files x =? 0))) "empty"
      end
  end.
End release.

(** ** Clean paths *)

Definition slashless (c : component) : Prop := Forall (λ a, a ≠ slash) c.
(** A component that names an entry of its directory. *)
Definition ordinary (c : component) : Prop := slashless c ∧ c ≠ [] ∧ c ≠ dot ∧ c ≠ dotdot.

Lemma components_slashless_chars cur l : slashless (reverse cur) → Forall slashless (split_chars slash cur l).
Proof.
  revert cur. induction l as [|c l IH]; intros cur Hc; cbn [split_chars]; [by constructor|].
  destruct (Ascii.eqb_spec c slash); [constructor; [done|apply IH; constructor]|]. apply IH. rewrite reverse_cons. unfold slashless in *.
  apply Forall_app. by split; [|constructor].
Qed.
Lemma components_slashless s : Forall slashless (components s).
Proof. apply components_slashless_chars. constructor. Qed.
Lemma split_nonempty cur l : split_chars slash cur l ≠ [].
Proof. revert cur. induction l as [|c l IH]; intros cur; cbn; [done|]. by destruct (Ascii.eqb c slash). Qed.
Lemma split_join l : l ≠ [] → Forall slashless l → split_chars slash [] (join_path l) = l.
Proof.
  intros Hn Hl. induction Hl as [|c l Hc Hl IH]; [done|]. destruct l as [|d l]; [cbn; by rewrite split_chars_end|].
  change (join_path (c :: d :: l)) with (c ++ slash :: join_path (d :: l)). rewrite split_chars_sep by done. cbn [reverse]. by rewrite IH.
Qed.
Lemma split_app cur a b : split_chars slash cur (a ++ slash :: b) = split_chars slash cur a ++ split_chars slash [] b.
Proof.
  revert cur. induction a as [|c a IH]; intros cur; cbn [app split_chars]; [by rewrite Ascii.eqb_refl|].
  destruct (Ascii.eqb c slash); [cbn; by rewrite IH|apply IH].
Qed.

(** The stack is a number of parent steps, then ordinary components. *)
Definition stack_ok (rooted : bool) (stack : list component) : Prop :=
  ∃ ps k, stack = ps ++ replicate k dotdot ∧ Forall ordinary ps ∧ (rooted = true → k = 0%nat).
Lemma clean_onto_ok rooted stack l : Forall slashless l → stack_ok rooted stack → stack_ok rooted (reverse (clean_onto rooted stack l)).
Proof.
  intros Hl. revert stack. induction Hl as [|c l Hc Hl IH]; intros stack Hs; cbn [clean_onto]; [by rewrite reverse_involutive|].
  destruct (bool_decide (c = []) || bool_decide (c = dot)) eqn:E0; [by apply IH|]. apply orb_false_elim in E0 as [E1%bool_decide_eq_false E2%bool_decide_eq_false].
  destruct Hs as (ps&k&->&Hps&Hk). case_bool_decide as Ed.
  - destruct ps as [|p ps]; cbn [app].
    + destruct k as [|k]; cbn [replicate].
      * destruct rooted; [by apply IH; exists [], 0%nat|]. apply IH. exists [], 1%nat. subst c. by split_and!.
      * rewrite bool_decide_true by done. apply IH. exists [], (S (S k)). subst c. split_and!; [done|done|]. intros Hr. specialize (Hk Hr). lia.
    + apply Forall_cons in Hps as [(_&_&_&Hne) Hps]. rewrite bool_decide_false by done. apply IH. by exists ps, k.
  - apply IH. exists (c :: ps), k. split_and!; [done| |done]. by constructor.
Qed.
Lemma clean_onto_ordinary rooted stack l : Forall ordinary l → clean_onto rooted stack l = reverse stack ++ l.
Proof.
  intros Hl. revert stack. induction Hl as [|c l (_&H1&H2&H3) _ IH]; intros stack; cbn [clean_onto]; [by rewrite app_nil_r|].
  rewrite !bool_decide_false by done. cbn. rewrite IH, reverse_cons, <-app_assoc. done.
Qed.
Lemma clean_onto_app rooted stack l l' : clean_onto rooted stack (l ++ l') = clean_onto rooted (reverse (clean_onto rooted stack l)) l'.
Proof.
  revert stack. induction l as [|c l IH]; intros stack; cbn [app clean_onto]; [by rewrite reverse_involutive|]. by repeat case_match.
Qed.

(** What [safeArchivePath] admits: ordinary components only, but for the two
    paths of a single dot or a pair of dots. *)
Lemma safe_path_components v : safeArchivePath v = true → let t := trim_slash v in t = "." ∨ t = ".." ∨ Forall ordinary (components t) ∧ components t ≠ [].
Proof.
  unfold safeArchivePath. cbv zeta. set (t := trim_slash v). intros Hs. apply andb_prop in Hs as [Hs Hpar%negb_true_iff]. apply andb_prop in Hs as [Hs Hcl%bool_decide_eq_true].
  apply andb_prop in Hs as [Hne%negb_true_iff Hroot%negb_true_iff]. unfold path_Clean in Hcl. unfold is_rooted in Hcl. rewrite Hroot in Hcl. cbn [app] in Hcl.
  destruct (clean_onto_ok (is_rooted t) [] (components t)) as (ps&k&E&Hps&_); [apply components_slashless|by exists [], 0%nat|].
  assert (clean_stack t = replicate k dotdot ++ reverse ps) as Est.
  { unfold clean_stack. rewrite <-(reverse_involutive (clean_onto _ _ _)), E, reverse_app, reverse_replicate. done. }
  case_bool_decide as Eo; [by left|]. right.
  assert (clean_stack t ≠ []) as Hst. { intros E0. apply Eo. by rewrite E0. }
  assert (components t = clean_stack t) as Ec.
  { unfold components. rewrite <-Hcl, chars_of_chars at 1. apply split_join; [done|]. rewrite Est. apply Forall_app. split.
    - apply Forall_replicate. repeat constructor; done.
    - apply Forall_reverse. eapply Forall_impl; [exact Hps|]. by intros c [? _]. }
  rewrite Ec, Est. destruct k as [|k].
  - right. cbn. split; [by apply Forall_reverse|]. by rewrite Est in Hst.
  - left. rewrite <-Hcl, Est. destruct (replicate k dotdot ++ reverse ps) as [|d r] eqn:Er; cbn [replicate app]; [by rewrite Er|].
    exfalso. rewrite <-Hcl, Est in Hpar. cbn [replicate app] in Hpar. rewrite Er in Hpar. cbn in Hpar. done.
Qed.

(** ** Extraction stays below its directory *)

(** A path of one or more ordinary components below a directory. *)
Definition below (output path : string) : Prop := ∃ cs, cs ≠ [] ∧ Forall ordinary cs ∧
  path = of_chars ((if is_rooted output then [slash] else []) ++ join_path (clean_stack output ++ cs)).
Definition confined (output : string) (e : effect) : Prop :=
  match e with
  | Mkdir p => p = output
  | MkdirAll p | MakeParents p | CreateExclusive p _ | WriteFile p _ => below output p
  | CloseFile => True
  | _ => False
  end.
Definition effect_bytes (e : effect) : Z := match e with WriteFile _ n => n | _ => 0 end.
Definition effect_entries (e : effect) : Z := match e with MkdirAll _ | CreateExclusive _ _ => 1 | _ => 0 end.
Definition sum_of (f : effect → Z) (log : list effect) : Z := foldr (λ e n, f e + n) 0 log.
Lemma sum_of_app f l l' : sum_of f (l ++ l') = sum_of f l + sum_of f l'.
Proof. unfold sum_of. induction l as [|e l IH]; cbn; [done|]. rewrite IH. lia. Qed.

Lemma string_snoc (b : string) : b ≠ "" → ∃ t c, b = t +:+ String c "".
Proof.
  intros Hb. rewrite <-(of_chars_chars b) in *. destruct (chars b) as [|c l _] using rev_ind; [done|].
  exists (of_chars l), c. by rewrite of_chars_app.
Qed.
Lemma trim_slash_snoc t c : trim_slash (t +:+ String c "") = if Ascii.eqb slash c then t else t +:+ String c "".
Proof.
  unfold trim_slash. assert (Address.has_suffix "/" (t +:+ String c "") = Ascii.eqb slash c) as ->.
  { unfold Address.has_suffix. rewrite chars_app, reverse_app. change (reverse (chars "/")) with [slash]. change (reverse (chars (String c ""))) with [c].
    cbn [app of_chars has_prefix]. apply andb_true_r. }
  destruct (Ascii.eqb slash c); [|done].
  unfold take_first. rewrite slen_app, chars_app. cbn. replace (String.length t + 1 - 1)%nat with (length (chars t)) by (rewrite length_chars; lia).
  by rewrite take_app_length, of_chars_chars.
Qed.
Lemma trim_slash_app a b : b ≠ "" → trim_slash (a +:+ b) = a +:+ trim_slash b.
Proof.
  intros (t&c&->)%string_snoc. rewrite <-sapp_assoc, !trim_slash_snoc. destruct (Ascii.eqb slash c); [done|]. by rewrite sapp_assoc.
Qed.
Lemma trim_slash_cases b : trim_slash b = b ∨ b = trim_slash b +:+ "/".
Proof.
  destruct (decide (b = "")) as [-> |(t&c&->)%string_snoc]; [by left|]. rewrite trim_slash_snoc. destruct (Ascii.eqb_spec slash c) as [<-|]; [by right|by left].
Qed.

Lemma components_app a b : components (a +:+ "/" +:+ b) = components a ++ components b.
Proof. unfold components. rewrite !chars_app. apply split_app. Qed.
Lemma clean_relative rooted stack r : Forall ordinary (components (trim_slash r)) → clean_onto rooted stack (components r) = reverse stack ++ components (trim_slash r).
Proof.
  intros Ho. destruct (trim_slash_cases r) as [E|E]; [rewrite <-E at 1; by apply clean_onto_ordinary|].
  rewrite E at 1. replace (trim_slash r +:+ "/") with (trim_slash r +:+ "/" +:+ "") by (by rewrite sapp_nil_r). rewrite components_app, clean_onto_app, (clean_onto_ordinary _ stack) by done.
  cbn. by rewrite reverse_involutive.
Qed.
Lemma join_below output r : output ≠ "" → components (trim_slash r) ≠ [] → Forall ordinary (components (trim_slash r)) → below output (path_Join output r).
Proof.
  intros Ho Hn Hr. exists (components (trim_slash r)). split_and!; [done..|]. unfold path_Join. rewrite bool_decide_false by done.
  assert (clean_stack (output +:+ "/" +:+ r) = clean_stack output ++ components (trim_slash r)) as E.
  { unfold clean_stack. rewrite components_app, clean_onto_app, clean_relative by done. rewrite reverse_involutive. by replace (is_rooted (output +:+ "/" +:+ r)) with (is_rooted output) by (by destruct output). }
  unfold path_Clean. rewrite E. replace (is_rooted (output +:+ "/" +:+ r)) with (is_rooted output) by (by destruct output).
  case_bool_decide as Eo; [|done]. exfalso. apply (f_equal chars) in Eo. rewrite chars_of_chars in Eo. apply app_eq_nil in Eo as [_ Eo].
  destruct (clean_stack output ++ components (trim_slash r)) as [|c [|d l]] eqn:El.
  - by apply app_eq_nil in El as [_ ?].
  - cbn in Eo. subst c. destruct (clean_stack output) as [|x l]; cbn in El.
    + rewrite El in Hr. apply Forall_cons in Hr as [(_&?&_) _]. done.
    + injection El as _ El. by apply app_eq_nil in El as [_ ?].
  - cbn in Eo. by apply app_eq_nil in Eo as [_ ?].
Qed.
(** The relative path of an admitted name has ordinary components only. *)
Lemma relative_ordinary name a r : safeArchivePath name = true → safeArchivePath r = true → cut slash name = Some (a, r) →
  Forall ordinary (components (trim_slash r)) ∧ components (trim_slash r) ≠ [].
Proof.
  intros Hn Hr [Hcut _]%cut_Some. assert (r ≠ "") as Hne by (by intros ->).
  assert (trim_slash name = a +:+ "/" +:+ trim_slash r) as Et.
  { rewrite Hcut. change (String slash r) with ("/" +:+ r). by rewrite !trim_slash_app. }
  assert (slash ∈ chars (trim_slash name)) as Hin by (rewrite Et, !chars_app; set_solver).
  destruct (safe_path_components _ Hn) as [E|[E|[Ho _]]]; [rewrite E in Hin; set_solver..|].
  rewrite Et, components_app in Ho. apply Forall_app in Ho as [_ Ho]. split; [done|].
  apply split_nonempty.
Qed.

(** ** The limits of an extraction *)

Section limits.
Context `{Digest}.
Context (gunzip : string → option string) (untar : string → tar_stream) (os : nat → bool) (output : string).

(** The counters bound what the log says. *)
Definition counted (x : extraction) (log : list effect) : Prop :=
  sum_of effect_entries log ≤ x_files x ≤ 50000 ∧ sum_of effect_bytes log = x_total x ∧ 0 ≤ x_total x ≤ 2 ^ 30 ∧ Forall (confined output) log.
Definition within (log : list effect) : Prop :=
  sum_of effect_entries log ≤ 50000 ∧ sum_of effect_bytes log ≤ 2 ^ 30 ∧ Forall (confined output) log.
Lemma counted_within x log : counted x log → within log.
Proof. intros (?&?&?&?). split_and!; [lia|lia|done]. Qed.
Ltac log_solve Hb :=
  unfold within, counted in *; rewrite ?sum_of_app; cbn [sum_of foldr effect_entries effect_bytes x_files x_total x_root] in *;
  split_and?; try lia; repeat apply Forall_app_2; repeat constructor; try done; try apply Hb.
Definition settled (m : IO extraction) (log : list effect) : Prop :=
  let '(r, log') := m log in within log' ∧ ∀ x', r = Ok x' → counted x' log'.

Lemma extract_entry_settled r h x log : counted x log → Forall ordinary (components (trim_slash r)) → components (trim_slash r) ≠ [] → output ≠ "" →
  settled (extract_entry os output r h x) log.
Proof.
  intros (?&?&?&?) Ho Hn Hne. pose proof (join_below output r Hne Hn Ho) as Hb. unfold settled, extract_entry, mbind, io_bind, require, call, call_closing, mret, io_ret, io_fail.
  assert (within log) as Hw by log_solve Hb. destruct (safeArchivePath r); [|by split]. destruct (_ <=? 50000) eqn:Ef; [|by split]. apply Z.leb_le in Ef.
  destruct (h_type h); [|destruct (os _); (split; [log_solve Hb|intros x' [= <-]; log_solve Hb])|by split..].
  destruct (negb _) eqn:El; [|by split]. apply negb_true_iff in El. assert (0 ≤ h_size h ≤ 256 * 2 ^ 20 ∧ wrap64 (x_total x + h_size h) = x_total x + h_size h ∧ x_total x + h_size h ≤ 2 ^ 30) as (Hh&Ew&Ht).
  { assert (0 ≤ h_size h ≤ 256 * 2 ^ 20) as Hh by lia. assert (wrap64 (x_total x + h_size h) = x_total x + h_size h) as Ew.
    { apply wrap64_id. unfold in_int64, int64_min, int64_max. lia. }
    rewrite Ew in El. split_and!; lia. }
  rewrite Ew. destruct (os _); [|split; [log_solve Hb|done]]. destruct (os _); [|split; [log_solve Hb|done]].
  destruct (os _); [|split; [log_solve Hb|done]]. destruct (os _); (split; [log_solve Hb|intros x' [= <-]; log_solve Hb]).
Qed.
Lemma extract_header_settled h x log : counted x log → output ≠ "" → settled (extract_header os output h x) log.
Proof.
  intros Hx Hne. pose proof (counted_within _ _ Hx) as Hw. unfold extract_header.
  destruct (metadata _); [split; [done|by intros x' [= <-]]|]. cbv zeta. set (name := trim_slash (h_name h)).
  unfold settled, mbind, io_bind, require. destruct (safeArchivePath name) eqn:Es; [|by split].
  set (parts := match cut slash name with Some _ => _ | None => _ end). set (root := if bool_decide (x_root x = "") then parts.1 else x_root x).
  destruct (bool_decide (parts.1 = root)); [|by split]. assert (counted {| x_root := root; x_files := x_files x; x_total := x_total x |} log) as Hx' by done.
  destruct parts as [a [r|]] eqn:Ep; cbn [fst snd].
  - assert (cut slash name = Some (a, r)) as Ec.
    { unfold parts in Ep. destruct (cut slash name) as [[a' r']|]; [by injection Ep as <- <-|done]. }
    destruct (safeArchivePath r) eqn:Er.
    + destruct (relative_ordinary _ _ _ Es Er Ec) as [Ho Hn]. by apply (extract_entry_settled r h _ log Hx' Ho Hn Hne).
    + unfold extract_entry, mbind, io_bind, require. rewrite Er. by split.
  - destruct (negb _); [|by split]. split; [done|]. by intros x' [= <-].
Qed.
Lemma extract_headers_settled hs x log : counted x log → output ≠ "" → settled (extract_headers os output hs x) log.
Proof.
  intros Hx Hne. revert x log Hx. induction hs as [|[h|] hs IH]; intros x log Hx; cbn [extract_headers].
  - split; [by eapply counted_within|]. by intros x' [= <-].
  - unfold settled, mbind, io_bind. pose proof (extract_header_settled h x log Hx Hne) as Hs. unfold settled in Hs.
    destruct (extract_header os output h x log) as [[x1|e] log1]; [|by split; [apply Hs|]]. apply IH. by apply Hs.
  - split; [by eapply counted_within|done].
Qed.

(** Unpacking a source archive writes only below its directory.  Whatever the archive holds and whichever calls
    fail, each directory that is created and each file that is opened lies below the fresh output directory, at a
    path of ordinary names (never empty, a dot or a pair of dots); at most 50,000 entries are created and at most a
    gigabyte is written, in files opened exclusively. *)
Theorem extraction_confined archive r log : output ≠ "" → ExtractSourceArchive gunzip untar os archive output [] = (r, log) →
  Forall (confined output) log ∧ sum_of effect_entries log ≤ 50000 ∧ sum_of effect_bytes log ≤ 2 ^ 30.
Proof.
  intros Hne. assert (counted empty_extraction [Mkdir output]) as H0 by (unfold counted; cbn; split_and!; [lia|lia|lia|lia|lia|by repeat constructor]).
  unfold ExtractSourceArchive, mbind, io_bind, call, io_fail. cbn [app]. pose proof (counted_within _ _ H0) as Hw.
  assert (∀ log, within log → Forall (confined output) log ∧ sum_of effect_entries log ≤ 50000 ∧ sum_of effect_bytes log ≤ 2 ^ 30) as Hfin by (by intros l (?&?&?)).
  destruct (os _); [|intros [= <- <-]; by apply Hfin]. destruct archive as [bytes|]; [|intros [= <- <-]; by apply Hfin].
  destruct (gunzip bytes) as [data|]; [|intros [= <- <-]; by apply Hfin].
  pose proof (extract_headers_settled (untar data) _ _ H0 Hne) as Hs. unfold settled in Hs. destruct (extract_headers _ _ _ _ _) as [[x|e] log1];
    intros [= <- <-]; by apply Hfin, Hs.
Qed.
End limits.

(** ** Installed bytes are pinned *)

Definition installs (e : effect) : option (string * string) := match e with Rename p data => Some (p, data) | _ => None end.
Section pinned.
Context `{Digest}.
Context (gunzip : string → option string) (untar : string → tar_stream) (os : nat → bool).

Lemma writeAtomic_installs output data mode log r log' : writeAtomic os output data mode log = (r, log') →
  ∃ l, log' = log ++ l ∧ (omap installs l = [] ∧ r ≠ Ok () ∨ omap installs l = [(output, data)]).
Proof.
  unfold writeAtomic, mbind, io_bind, call, call_closing. repeat (destruct (os _)); intros [= <- <-]; eexists; (split; [rewrite <-?app_assoc; reflexivity|]); cbn; naive_solver.
Qed.

(** A download is installed only when its bytes are the pinned ones.  Whatever the server answers and whichever
    calls fail, a file is put in place at most once, at the output, and only when the bytes received hash to the
    digest of the manifest; it holds exactly what these bytes unpack to.  Success means that it was put in place. *)
Theorem fetch_pinned response d output executable r log : Fetch gunzip untar os response d output executable [] = (r, log) →
  omap installs log = [] ∧ r ≠ Ok () ∨
  ∃ body data, response = Some (200, body) ∧ hex_string (sha256 (limit_bytes maxDownload body)) = SHA256 d ∧
    unpacked gunzip untar d (limit_bytes maxDownload body) = Ok data ∧ omap installs log = [(output, data)].
Proof.
  unfold Fetch. destruct response as [[status body]|]; [|intros [= <- <-]; by left]. set (bytes := limit_bytes maxDownload body).
  unfold materialize, mbind, io_bind, require, call, call_closing, io_fail. destruct (status =? 200) eqn:Es; [apply Z.eqb_eq in Es as ->|intros [= <- <-]; by left].
  repeat (destruct (os _); [|intros [= <- <-]; by left]). case_bool_decide as Eh; [|intros [= <- <-]; by left].
  destruct (os _); [|intros [= <- <-]; by left]. destruct (unpacked gunzip untar d bytes) as [data|e] eqn:Eu; [|intros [= <- <-]; by left].
  intros (l&->&Hl)%writeAtomic_installs. destruct Hl as [[Hl Hr]|Hl]; rewrite omap_app, Hl; cbn; [by left|right]. by exists body, data.
Qed.
End pinned.

(** ** A concrete archive *)

Module ArchiveSample.
Definition entry (name : string) (t : tar_type) (size : Z) : option header := Some {| h_name := name; h_type := t; h_size := size; h_mode := 420; h_body := "" |}.
Definition stream : tar_stream := [entry "pax" TypeXGlobalHeader 0; entry "engine-1.0/" TypeDir 0; entry "engine-1.0/cmd/main.go" TypeReg 120; entry "engine-1.0/docs/" TypeDir 0].
Definition escaping : tar_stream := [entry "engine-1.0/" TypeDir 0; entry "engine-1.0/../../etc/passwd" TypeReg 1].
Definition run (s : tar_stream) : result string () * list effect := ExtractSourceArchive Some (λ _, s) (λ _, true) (Some "gz") "out/src" [].
Example escaping_refused : run escaping = (Err "unsafe_path", [Mkdir "out/src"]).
Proof. vm_compute. reflexivity. Qed.
Definition written : list effect :=
  [Mkdir "out/src"; MakeParents "out/src/cmd/main.go"; CreateExclusive "out/src/cmd/main.go" 420; WriteFile "out/src/cmd/main.go" 120; CloseFile; MkdirAll "out/src/docs"].
Lemma run_writes : run stream = (Ok (), written).
Proof. vm_compute. reflexivity. Qed.
End ArchiveSample.

(** The check admits the parent directory itself: no path with more than one
    component can use it, but a single name can, such as the binary name and
    the overlay directory of an engine. *)
Theorem parent_directory_admitted : safeArchivePath ".." = true ∧ safeArchivePath "../" = true ∧ safeArchivePath "../x" = false.
Proof. vm_compute. auto. Qed.

Lemma extraction_confined_witness : ArchiveSample.run ArchiveSample.stream = (Ok (), ArchiveSample.written) ∧
  Forall (confined "out/src") ArchiveSample.written ∧ sum_of effect_entries ArchiveSample.written ≤ 50000.
Proof.
  split; [exact ArchiveSample.run_writes|].
  destruct (extraction_confined Some (λ _, ArchiveSample.stream) (λ _, true) "out/src" (Some "gz") (Ok ()) ArchiveSample.written) as (Hc&He&_);
    [discriminate|exact ArchiveSample.run_writes|]. split; [exact Hc|exact He].
Defined.
