(* ===== verification/Manifest.v ===== *)
(** * The release manifest (internal/releasemanifest/manifest.go)

    What a manifest pins and when it is valid: versions, provenance and the
    digest of every download.  Decoding the JSON file is not part of this
    file; [url.Parse] is the interface [UrlParser]. *)
From S2P Require Import Prelude Order Bytes Encoding Netip Endpoint Text Url Artifact Archive.
From Stdlib Require Import Ascii.
From Stdlib Require String.
Open Scope Z_scope.

(** ** Data *)

Definition SchemaVersion : Z := 1.
Record KubernetesProfile := { Minor : string; EnvtestVersion : string; EnvtestSHA512 : gomap string; KindNodeImage : string }.
Record KubernetesCompatibility := { MinimumSupported : string; ReleaseValidation : list string; kc_profiles : list KubernetesProfile }.
Record Release := { DevelopmentVersion : string; Platforms : list string; rl_kubernetes : KubernetesCompatibility }.
Record EngineBuild := {
  build_revision : Z; GoVersion : string; Package : string; BinaryName : string; OverlayDirectory : string; Tags : list string;
  DependencyOverrides : list string }.
Record SourceRef := { Repository : string; Tag : string; Commit : string; Archive : Download }.
Record EngineEntry := {
  en_name : string; en_version : string; en_profile : string; License : string; en_build : EngineBuild; en_source : SourceRef;
  LicenseFile : Download; UpstreamAssets : gomap Download }.
Record Tool := { tl_name : string; tl_version : string; Assets : gomap Download }.
Record Manifest := { schemaVersion : Z; rl : Release; Engines : list EngineEntry; Tools : list Tool }.

(** ** Texts *)

Fixpoint span_digits (l : list ascii) : list ascii * list ascii :=
  match l with
  | c :: l' => if is_digit c then let '(a, b) := span_digits l' in (c :: a, b) else ([], l)
  | [] => ([], [])
  end.
(** [0-9]+ and [1-9][0-9]* and (0|[1-9][0-9]* ). *)
Definition some_digits (l : list ascii) : bool := negb (bool_decide (l = [])) && forallb is_digit l.
Definition positive_digits (l : list ascii) : bool := some_digits l && negb (bool_decide (head l = Some "0"%char)).
Definition canonical_digits (l : list ascii) : bool := bool_decide (l = ["0"%char]) || positive_digits l.
(** Text after a prefix. *)
Definition strip (p : string) (l : list ascii) : option (list ascii) :=
  if has_prefix p (of_chars l) then Some (drop (String.length p) l) else None.
Definition validDevelopmentVersion (value : string) : bool :=
  match
    l ← strip "v0." (chars value); let '(minor, l) := span_digits l in
    l ← strip "." l; let '(patch, l) := span_digits l in
    l ← strip "-dev." l; Some (positive_digits minor && some_digits patch && positive_digits l)
  with Some b => b | None => false end.
Definition validKubernetesMinor (value : string) : bool := match strip "1." (chars value) with Some l => some_digits l | None => false end.
(** [hex.DecodeString] gives that many bytes. *)
Definition decodes_to (s : string) (size : Z) : bool := match hex_pairs (chars s) with Some l => Z.of_nat (length l) =? size | None => false end.
Definition lower_text (s : string) : bool := bool_decide (to_lower s = s).
(** [strings.Split] at "@sha256:". *)
Fixpoint split_at (fuel : nat) (sep s : string) : list string :=
  match fuel with
  | O => [s]
  | S f => match index s sep with
           | Some i => take_first i s :: split_at f sep (drop_str (i + String.length sep) s)
           | None => [s]
           end
  end.
Definition validDigest (value separator : string) (size : Z) : bool :=
  match split_at (String.length value) separator value with
  | [image; digest] => negb (bool_decide (image = "")) && lower_text digest && decodes_to digest size
  | _ => false
  end.
Definition validCommit (value : string) : bool :=
  bool_decide (String.length value = 40%nat) && lower_text value && bool_decide (is_Some (hex_pairs (chars value))).
(** [slices.IsSorted]. *)
Fixpoint is_sorted (l : list string) : bool :=
  match l with x :: (y :: _) as l' => bool_decide (bytes_compare y x ≠ Lt) && is_sorted l' | _ => true end.

Section manifest.
Context `{UrlParser}.

Definition validHTTPS (raw : string) : bool :=
  match url_Parse raw with
  | Some u => bool_decide (Scheme u = "https") && negb (bool_decide (Host u = "")) && bool_decide (User u = None)
  | None => false
  end.
Definition pinned_sha256 (s : string) : bool := decodes_to s 32 && lower_text s.
Definition validateDownload (d : Download) (executable : bool) : result string () :=
  _ ← guard_err (bool_decide (FileName d = "") || negb (is_base_name (FileName d)) || negb (validHTTPS (dl_URL d))) "filename_or_url";
  _ ← guard_err (negb (pinned_sha256 (SHA256 d))) "sha256";
  _ ← guard_err (negb (bool_decide (dl_format d ∈ ["raw"; "gzip"; "tar.gz"]))) "format";
  _ ← guard_err (bool_decide (dl_format d = "tar.gz") && executable && negb (safeArchivePath (BinaryPath d))) "binary_path";
  guard_err (negb (bool_decide (dl_format d = "tar.gz")) && negb (bool_decide (BinaryPath d = ""))) "binary_path_unused".
(** One asset per platform, in order. *)
Fixpoint validate_assets (assets : gomap Download) (platforms : list string) : result string () :=
  match platforms with
  | [] => Ok ()
  | p :: ps =>
      match assets !! p with
      | None => Err "missing_platform"
      | Some d => _ ← validateDownload d true; validate_assets assets ps
      end
  end.

Definition expected (name : string) : option (Profile * Z) :=
  if bool_decide (name = "mihomo") then Some (Mihomo11931, 1)
  else if bool_decide (name = "sing-box") then Some (SingBox1141, 3) else None.
Definition valid_build (b : EngineBuild) (revision : Z) : bool :=
  (build_revision b =? revision) && bool_decide (GoVersion b = "1.27.2") && negb (bool_decide (Package b = "")) &&
  safeArchivePath (BinaryName b) && negb (char_elem slash (BinaryName b)) &&
  (bool_decide (OverlayDirectory b = "") || safeArchivePath (OverlayDirectory b)) && is_sorted (DependencyOverrides b).
Definition valid_override (o : string) : bool :=
  match split_on "@"%char o with [a; b] => negb (bool_decide (a = "")) && negb (bool_decide (b = "")) | _ => false end.
Definition validate_engine (platforms seen : list string) (e : EngineEntry) : result string () :=
  match expected (en_name e) with
  | None => Err "unexpected_engine"
  | Some (profile, revision) =>
      _ ← guard_err (bool_decide (en_name e ∈ seen)) "duplicate_engine";
      _ ← guard_err (negb (bool_decide (en_version e = pversion profile) && bool_decide (en_profile e = rendererSchema profile) && negb (bool_decide (License e = "")))) "profile";
      _ ← guard_err (negb (valid_build (en_build e) revision)) "build";
      _ ← guard_err (negb (forallb valid_override (DependencyOverrides (en_build e)))) "override";
      _ ← guard_err (negb (validHTTPS (Repository (en_source e)) && negb (bool_decide (Tag (en_source e) = "")) && validCommit (Commit (en_source e)))) "provenance";
      _ ← validateDownload (Archive (en_source e)) false;
      _ ← validateDownload (LicenseFile e) false;
      _ ← validate_assets (UpstreamAssets e) platforms;
      guard_err (negb (bool_decide (length (entries (UpstreamAssets e)) = length platforms))) "unsupported_platform"
  end.
Fixpoint validate_engines (platforms seen : list string) (es : list EngineEntry) : result string (list string) :=
  match es with
  | [] => Ok seen
  | e :: es => _ ← validate_engine platforms seen e; validate_engines platforms (en_name e :: seen) es
  end.
Definition tool_platforms : list string := ["darwin/amd64"; "darwin/arm64"; "linux/amd64"; "linux/arm64"].
Definition validate_tool (seen : list string) (t : Tool) : result string () :=
  _ ← guard_err (bool_decide (tl_name t = "") || bool_decide (tl_version t = "") || bool_decide (tl_name t ∈ seen)) "tool";
  _ ← validate_assets (Assets t) tool_platforms;
  guard_err (negb (bool_decide (length (entries (Assets t)) = 4%nat))) "unsupported_platform".
Fixpoint validate_tools (seen : list string) (ts : list Tool) : result string (list string) :=
  match ts with
  | [] => Ok seen
  | t :: ts => _ ← validate_tool seen t; validate_tools (tl_name t :: seen) ts
  end.

(** ** Kubernetes compatibility *)

Definition envtest_pinned (p : KubernetesProfile) (platform : string) : bool :=
  let digest := default "" (EnvtestSHA512 p !! platform) in decodes_to digest 64 && lower_text digest.
Definition validate_profile (seen : list string) (p : KubernetesProfile) : result string () :=
  _ ← guard_err (negb (validKubernetesMinor (Minor p)) || negb (bool_decide (EnvtestVersion p = Minor p +:+ ".0")) || bool_decide (Minor p ∈ seen)) "kubernetes_profile";
  _ ← guard_err (negb (validDigest (KindNodeImage p) "@sha256:" 32)) "kind_image";
  _ ← guard_err (negb (forallb (envtest_pinned p) tool_platforms)) "envtest";
  guard_err (negb (bool_decide (length (entries (EnvtestSHA512 p)) = 4%nat))) "envtest_platform".
Fixpoint validate_profiles (seen : list string) (ps : list KubernetesProfile) : result string (list string) :=
  match ps with
  | [] => Ok seen
  | p :: ps => _ ← validate_profile seen p; validate_profiles (Minor p :: seen) ps
  end.
Fixpoint validate_validation (minors seen : list string) (l : list string) : result string () :=
  match l with
  | [] => Ok ()
  | m :: l => _ ← guard_err (negb (bool_decide (m ∈ minors)) || bool_decide (m ∈ seen)) "release_validation"; validate_validation minors (m :: seen) l
  end.
Definition Compatibility_Validate (c : KubernetesCompatibility) : result string () :=
  _ ← guard_err (bool_decide (MinimumSupported c = "") || bool_decide (length (kc_profiles c) = 0%nat) || bool_decide (ReleaseValidation c = [])) "compatibility";
  minors ← validate_profiles [] (kc_profiles c);
  _ ← guard_err (negb (bool_decide (MinimumSupported c ∈ minors))) "minimum_supported";
  _ ← validate_validation minors [] (ReleaseValidation c);
  guard_err (negb (is_sorted (ReleaseValidation c))) "release_validation_order".
Definition Compatibility_Profile (c : KubernetesCompatibility) (minor : string) : option KubernetesProfile :=
  List.find (λ p, bool_decide (Minor p = minor)) (kc_profiles c).

(** ** The manifest *)

Definition release_platforms : list string := ["linux/amd64"; "linux/arm64"].
Definition Manifest_Validate (m : Manifest) : result string () :=
  _ ← guard_err (negb (schemaVersion m =? SchemaVersion)) "schema";
  _ ← guard_err (negb (validDevelopmentVersion (DevelopmentVersion (rl m))) || negb (bool_decide (Platforms (rl m) = release_platforms))) "platforms";
  _ ← Compatibility_Validate (rl_kubernetes (rl m));
  engines ← validate_engines (Platforms (rl m)) [] (Engines m);
  _ ← guard_err (negb (bool_decide (length engines = 2%nat))) "engines";
  tools ← validate_tools [] (Tools m);
  guard_err (negb (forallb (λ n, bool_decide (n ∈ tools)) ["syft"; "grype"; "cosign"; "helm"])) "missing_tool".
Definition Manifest_Engine (m : Manifest) (name : string) : option EngineEntry := List.find (λ e, bool_decide (en_name e = name)) (Engines m).
Definition Manifest_Tool (m : Manifest) (name : string) : option Tool := List.find (λ t, bool_decide (tl_name t = name)) (Tools m).
End manifest.

(** ** What a valid manifest pins *)

Section pinned.
Context `{UrlParser}.

Lemma hex_pairs_length l r : hex_pairs l = Some r → length l = (2 * length r)%nat.
Proof.
  revert r. induction l as [l IH] using (induction_ltof1 _ (@length ascii)); unfold ltof in IH. intros r.
  destruct l as [|a [|b l]]; cbn [hex_pairs]; [by intros [= <-]|done|]. destruct (hex_digit a), (hex_digit b); try done. cbn.
  destruct (hex_pairs l) as [r'|] eqn:E; [|done]. intros [= <-]. cbn. rewrite (IH l) with (r := r'); [lia|cbn; lia|done].
Qed.
(** A download that names its bytes: fetched over https without credentials in
    the URL, to a plain file name, with a SHA-256 of 64 lower-case digits. *)
Record pinned (d : Download) : Prop := {
  pin_url : ∃ u, url_Parse (dl_URL d) = Some u ∧ Scheme u = "https" ∧ Host u ≠ "" ∧ User u = None;
  pin_digest : String.length (SHA256 d) = 64%nat ∧ to_lower (SHA256 d) = SHA256 d ∧ is_Some (hex_pairs (chars (SHA256 d)));
  pin_name : FileName d ≠ "" ∧ (FileName d = "/" ∨ slash ∉ chars (FileName d));
  pin_format : dl_format d ∈ ["raw"; "gzip"; "tar.gz"];
}.
Lemma validHTTPS_spec raw : validHTTPS raw = true → ∃ u, url_Parse raw = Some u ∧ Scheme u = "https" ∧ Host u ≠ "" ∧ User u = None.
Proof. unfold validHTTPS. destruct (url_Parse raw) as [u|]; [|done]. intros Hu. bool_to_prop. exists u. naive_solver. Qed.
Lemma is_base_name_spec s : is_base_name s = true → s = "/" ∨ slash ∉ chars s.
Proof.
  unfold is_base_name, char_elem. intros [E%bool_decide_eq_true|E%negb_true_iff]%orb_prop; [by left|right]. intros Hin.
  rewrite <-not_true_iff_false in E. apply E, existsb_exists. exists slash. split; [by apply list_elem_of_In|apply Ascii.eqb_refl].
Qed.
Lemma validateDownload_pinned d x u : validateDownload d x = Ok u → pinned d.
Proof.
  unfold validateDownload. intros Hv. ok_inv. repeat match goal with E : _ || _ = false |- _ => apply orb_false_elim in E as [? ?] end.
  repeat match goal with E : negb _ = false |- _ => apply negb_false_iff in E end.
  match goal with E : pinned_sha256 _ = true |- _ => unfold pinned_sha256, decodes_to in E; apply andb_prop in E as [E El] end.
  destruct (hex_pairs (chars (SHA256 d))) as [r|] eqn:Eh; [|done]. split.
  - by apply validHTTPS_spec.
  - split_and!; [|exact (bool_decide_eq_true_1 _ El)|done]. apply hex_pairs_length in Eh. rewrite length_chars in Eh. lia.
  - split; [by eapply bool_decide_eq_false_1|by apply is_base_name_spec].
  - by eapply bool_decide_eq_true_1.
Qed.
Lemma validate_assets_pinned m ps u p : validate_assets m ps = Ok u → p ∈ ps → ∃ d, m !! p = Some d ∧ pinned d.
Proof.
  induction ps as [|q ps IH]; [set_solver|]. cbn [validate_assets]. destruct (m !! q) as [d|] eqn:E; [|done]. intros Hv. ok_inv.
  intros [->|Hp]%elem_of_cons; [|by apply IH]. exists d. split; [done|]. by eapply validateDownload_pinned.
Qed.

(** An engine of the manifest: the compiled profile, a commit, and pinned
    downloads for every platform. *)
Record engine_pinned (platforms : list string) (e : EngineEntry) : Prop := {
  ep_profile : ∃ p n, expected (en_name e) = Some (p, n) ∧ en_version e = pversion p ∧ en_profile e = rendererSchema p;
  ep_commit : String.length (Commit (en_source e)) = 40%nat;
  ep_source : pinned (Archive (en_source e)); ep_license : pinned (LicenseFile e);
  ep_assets : ∀ p, p ∈ platforms → ∃ d, UpstreamAssets e !! p = Some d ∧ pinned d;
}.
Lemma validate_engine_pinned ps seen e u : validate_engine ps seen e = Ok u → engine_pinned ps e ∧ en_name e ∉ seen.
Proof.
  unfold validate_engine. destruct (expected (en_name e)) as [[p n]|] eqn:Ee; [|done]. intros Hv. ok_inv. bool_to_prop. unfold validCommit in *. bool_to_prop.
  split; [|done]. split; [exists p, n; by split_and!|done|by eapply validateDownload_pinned..|]. intros q Hq. by eapply validate_assets_pinned.
Qed.
Lemma validate_engines_pinned ps seen es l : validate_engines ps seen es = Ok l → NoDup seen →
  Forall (engine_pinned ps) es ∧ NoDup l ∧ l = reverse (en_name <$> es) ++ seen.
Proof.
  revert seen. induction es as [|e es IH]; intros seen; cbn [validate_engines]; [intros [= <-] Hn; by split_and!|]. intros Hv Hn. ok_inv.
  match goal with E : validate_engine _ _ _ = Ok _ |- _ => apply validate_engine_pinned in E as [Hp Hs] end.
  match goal with E : validate_engines _ _ _ = Ok _ |- _ => apply IH in E as (He&Hl&->); [|by constructor] end.
  split_and!; [by constructor|done|]. by rewrite fmap_cons, reverse_cons, <-app_assoc.
Qed.
Lemma validate_tools_pinned seen ts l : validate_tools seen ts = Ok l →
  Forall (λ t, ∀ p, p ∈ tool_platforms → ∃ d, Assets t !! p = Some d ∧ pinned d) ts ∧ l = reverse (tl_name <$> ts) ++ seen.
Proof.
  revert seen. induction ts as [|t ts IH]; intros seen; cbn [validate_tools]; [intros [= <-]; by split|]. intros Hv. ok_inv.
  match goal with E : validate_tools _ _ = Ok _ |- _ => apply IH in E as (Ht&->) end. split; [|by rewrite fmap_cons, reverse_cons, <-app_assoc].
  constructor; [|done]. intros p Hp. match goal with E : validate_tool _ _ = Ok _ |- _ => unfold validate_tool in E end. ok_inv. by eapply validate_assets_pinned.
Qed.

(** A valid manifest pins everything a release uses: exactly the two supported engines, at the versions the renderers
    are written for, and the four tools; every source archive, license and platform asset is an https download with a
    full SHA-256, so that what is installed is determined by the manifest. *)
Theorem manifest_pins m : Manifest_Validate m = Ok () →
  en_name <$> Engines m ≡ₚ ["mihomo"; "sing-box"] ∧ Forall (engine_pinned ["linux/amd64"; "linux/arm64"]) (Engines m) ∧
  (∀ n, n ∈ ["syft"; "grype"; "cosign"; "helm"] → n ∈ tl_name <$> Tools m) ∧
  Forall (λ t, ∀ p, p ∈ tool_platforms → ∃ d, Assets t !! p = Some d ∧ pinned d) (Tools m).
Proof.
  unfold Manifest_Validate. intros Hv. ok_inv. bool_to_prop.
  match goal with E : validate_engines _ _ _ = Ok _ |- _ => apply validate_engines_pinned in E as (He&Hl&->); [|constructor] end.
  match goal with E : validate_tools _ _ = Ok _ |- _ => apply validate_tools_pinned in E as (Ht&->) end. rewrite !app_nil_r in *.
  match goal with E : Platforms _ = _ |- _ => rewrite E in He end. split_and!; [|done| |done].
  - apply submseteq_length_Permutation; [|rewrite length_reverse in *; cbn; lia]. apply NoDup_submseteq; [by rewrite reverse_Permutation in Hl|].
    intros n (e&->&He')%list_elem_of_fmap. rewrite Forall_forall in He. destruct (ep_profile _ _ (He e He')) as (p&k&Hx&_). unfold expected in Hx.
    repeat case_bool_decide; [set_solver|set_solver|done].
  - intros n Hn. match goal with E : forallb _ _ = true |- _ => rewrite forallb_forall in E; specialize (E n (proj1 (list_elem_of_In _ _) Hn)); apply bool_decide_eq_true in E; by rewrite elem_of_reverse in E end.
Qed.
End pinned.

(** ** A concrete manifest *)

Module ManifestSample.
Definition parse (raw : string) : option URL :=
  if has_prefix "https://" raw then
    Some {| Scheme := "https"; Opaque := ""; User := None; Host := "example.com"; Path := ""; RawPath := ""; RawQuery := ""; ForceQuery := false; Fragment := "" |}
  else None.
#[local] Instance parser : UrlParser := parse.
Definition hex64 : string := "00112233445566778899aabbccddeeff00112233445566778899aabbccddeeff".
Definition dl : Download := {| FileName := "engine"; dl_URL := "https://example.com/engine"; SHA256 := hex64; dl_format := "raw"; BinaryPath := "" |}.
Definition engine (name : string) (p : Profile) (revision : Z) : EngineEntry :=
  {| en_name := name; en_version := pversion p; en_profile := rendererSchema p; License := "GPL-3.0";
     en_build := {| build_revision := revision; GoVersion := "1.27.2"; Package := "."; BinaryName := name; OverlayDirectory := ""; Tags := [];
                    DependencyOverrides := ["a@v1"; "b@v2"] |};
     en_source := {| Repository := "https://example.com/r"; Tag := "v1"; Commit := "0123456789abcdef0123456789abcdef01234567"; Archive := dl |};
     LicenseFile := dl; UpstreamAssets := GoMap [("linux/amd64", dl); ("linux/arm64", dl)] |}.
Definition tool (name : string) : Tool := {| tl_name := name; tl_version := "1.0"; Assets := GoMap ((λ p, (p, dl)) <$> tool_platforms) |}.
Definition kubernetes : KubernetesCompatibility :=
  {| MinimumSupported := "1.30"; ReleaseValidation := ["1.30"; "1.31"];
     kc_profiles := (λ m, {| Minor := m; EnvtestVersion := m +:+ ".0"; EnvtestSHA512 := GoMap ((λ p, (p, hex64 +:+ hex64)) <$> tool_platforms);
                             KindNodeImage := "kindest/node@sha256:" +:+ hex64 |}) <$> ["1.30"; "1.31"] |}.
Definition manifest (extra : string) : Manifest :=
  {| schemaVersion := 1; rl := {| DevelopmentVersion := "v0.3.0-dev.1"; Platforms := release_platforms; rl_kubernetes := kubernetes |};
     Engines := [engine "sing-box" SingBox1141 3; engine "mihomo" Mihomo11931 1]; Tools := tool <$> ["syft"; "grype"; "cosign"; "helm"; extra] |}.
Example manifest_valid : Manifest_Validate (manifest "kind") = Ok () ∧ Manifest_Validate (manifest "helm") = Err "tool".
Proof. vm_compute. auto. Qed.
End ManifestSample.
