(* ===== verification/BuildInfo.v ===== *)
(** * Build identities (internal/buildinfo/identity.go)

    Official versions and the identity of a source tree, from what Git
    answers: the status, the commit, its time and its tags. *)
From S2P Require Import Prelude Order Bytes Encoding Netip Endpoint Text Url Artifact Archive Manifest.
From Stdlib Require Import Ascii.
From Stdlib Require String.
Open Scope Z_scope.

Definition DirtySuffix : string := ".dirty".
Definition LocalSuffix : string := "+local".
Record Version := { Normalized : string; Class_ : string }.

(** ** Release tags *)

(** (0|[1-9][0-9]* ) and the rest. *)
Definition number (l : list ascii) : option (list ascii) := let '(n, l) := span_digits l in if canonical_digits n then Some l else None.
(** -(dev|alpha|beta).[1-9][0-9]* *)
Definition prerelease (l : list ascii) : option string :=
  List.find (λ c, match strip ("-" +:+ c +:+ ".") l with Some n => positive_digits n | None => false end) ["dev"; "alpha"; "beta"].
(** The class of a version that matches [releaseTag]. *)
Definition release_class (value : string) : option string :=
  l ← number (chars (trim_prefix "v" value));
  l ← strip "." l; l ← number l;
  l ← strip "." l; l ← number l;
  if bool_decide (l = []) then Some "stable" else prerelease l.
Definition ParseVersion (value : string) : option Version :=
  class ← release_class value;
  Some {| Normalized := trim_prefix "v" value; Class_ := class |}.
Example versions : release_class <$> ["v1.2.3"; "0.4.0-dev.1"; "v01.2.3"; "1.2.3-rc.1"; "1.2.3-beta.0"; "1.2.3+g0"] =
  [Some "stable"; Some "dev"; None; None; None; None].
Proof. vm_compute. reflexivity. Qed.

(** ** Identities *)

Record Identity_ := { id_version : string; Revision : string; Created : string; Tagged : bool; Dirty : bool }.
Definition EffectiveVersion (i : Identity_) : string := if Dirty i then id_version i +:+ DirtySuffix else id_version i.
(** The trimmed outputs of the Git commands; [None] is a command that fails. *)
Record git := { git_status : option string; git_head : option string; git_created : option string; git_tags : option string }.
Definition release_tags (tags : string) : list Version := omap ParseVersion (Fields tags).
Definition ResolveIdentity (g : git) (developmentVersion : string) : result string Identity_ :=
  match ParseVersion developmentVersion, git_status g with
  | None, _ => Err "version"
  | _, None => Err "git"
  | Some parsed, Some status =>
      let dirty := negb (bool_decide (status = "")) in
      match git_head g with
      | None =>
          if dirty then Err "dirty_without_git"
          else Ok {| id_version := Normalized parsed +:+ LocalSuffix; Revision := ""; Created := ""; Tagged := false; Dirty := false |}
      | Some revision =>
          let created := default "" (git_created g) in
          match git_tags g with
          | None => Err "git"
          | Some tags =>
              match release_tags tags with
              | [] =>
                  if (String.length revision <? 12)%nat then Err "short_revision"
                  else Ok {| id_version := Normalized parsed +:+ "+g" +:+ take_first 12 revision; Revision := revision; Created := created; Tagged := false; Dirty := dirty |}
              | [v] =>
                  if dirty then Err "tagged_dirty"
                  else Ok {| id_version := Normalized v; Revision := revision; Created := created; Tagged := true; Dirty := dirty |}
              | _ => Err "multiple_tags"
              end
          end
      end
  end.

(** ** An official identity is a clean release tag *)

Definition plus : ascii := "+"%char.
Lemma span_digits_app l a b : span_digits l = (a, b) → l = a ++ b ∧ Forall (λ c, is_digit c = true) a.
Proof.
  revert a b. induction l as [|c l IH]; intros a b; cbn; [by intros [= <- <-]|]. destruct (is_digit c) eqn:E; [|by intros [= <- <-]].
  destruct (span_digits l) as [x y]. intros [= <- <-]. destruct (IH x y eq_refl) as [-> Hx]. split; [done|by constructor].
Qed.
Lemma digits_no_plus l : Forall (λ c, is_digit c = true) l → plus ∉ l.
Proof. intros Hl Hin. rewrite Forall_forall in Hl. by specialize (Hl _ Hin). Qed.
Lemma has_prefix_split p l : has_prefix p (of_chars l) = true → l = chars p ++ drop (String.length p) l.
Proof.
  revert l. induction p as [|c p IH]; intros l; [done|]. destruct l as [|d l]; cbn; [done|]. intros [->%Ascii.eqb_eq Hp]%andb_prop. f_equal. by apply IH.
Qed.
Lemma strip_Some p l l' : strip p l = Some l' → l = chars p ++ l'.
Proof. unfold strip. destruct (has_prefix p (of_chars l)) eqn:E; [|done]. intros [= <-]. by apply has_prefix_split. Qed.
Lemma number_Some l l' : number l = Some l' → ∃ n, l = n ++ l' ∧ plus ∉ n.
Proof.
  unfold number. destruct (span_digits l) as [n r] eqn:E. destruct (canonical_digits n); [|done]. intros [= <-].
  apply span_digits_app in E as [-> Hn]. exists n. split; [done|]. by apply digits_no_plus.
Qed.
Lemma prerelease_no_plus l c : prerelease l = Some c → plus ∉ l.
Proof.
  unfold prerelease. intros [Hc Hs]%List.find_some. destruct (strip _ l) as [n|] eqn:E; [|done]. apply strip_Some in E as ->.
  unfold positive_digits, some_digits in Hs. apply andb_prop in Hs as [Hs _]. apply andb_prop in Hs as [_ Hn]. rewrite forallb_forall in Hn.
  assert (plus ∉ n) as Hp. { intros Hin%list_elem_of_In. by specialize (Hn _ Hin). }
  apply not_elem_of_app. split; [|done]. cbn in Hc. destruct_or! Hc; subst c; try done; cbn; set_solver.
Qed.
Lemma ParseVersion_no_plus v x : ParseVersion v = Some x → plus ∉ chars v ∧ Normalized x = trim_prefix "v" v.
Proof.
  unfold ParseVersion, release_class. intros Hv. destruct (number _) as [l1|] eqn:E1; [|done]. cbn [mbind option_bind] in Hv. destruct (strip "." l1) as [l2|] eqn:E2; [|done]. cbn [mbind option_bind] in Hv.
  destruct (number l2) as [l3|] eqn:E3; [|done]. cbn [mbind option_bind] in Hv. destruct (strip "." l3) as [l4|] eqn:E4; [|done]. cbn [mbind option_bind] in Hv. destruct (number l4) as [l5|] eqn:E5; [|done]. cbn [mbind option_bind] in Hv.
  apply number_Some in E1 as (n1&E1&H1), E3 as (n2&->&H3), E5 as (n3&->&H5). apply strip_Some in E2 as ->, E4 as ->.
  assert (plus ∉ l5 ∧ Normalized x = trim_prefix "v" v) as [H6 Hx].
  { case_bool_decide as El; [subst l5; injection Hv as <-; split; [apply not_elem_of_nil|done]|].
    destruct (prerelease l5) as [c|] eqn:Ep; [|discriminate Hv]. injection Hv as <-. split; [by eapply prerelease_no_plus|done]. }
  split; [|done]. assert (plus ∉ chars (trim_prefix "v" v)) as Hn by (rewrite E1; cbn; set_solver).
  unfold trim_prefix in Hn. destruct (has_prefix "v" v) eqn:Ev; [|done]. rewrite <-(of_chars_chars v) in Ev. apply has_prefix_split in Ev.
  rewrite Ev. unfold drop_str in Hn. rewrite chars_of_chars in Hn. cbn [chars]. set_solver.
Qed.

(** An official version is only ever claimed by a clean tree at the one release tag of its commit.  Every other
    identity, of a dirty tree or of an untagged or unversioned one, reports a version that is not a release version,
    so it can not be taken for one; and a dirty tree reports another version than the clean one. *)
Theorem identity_official g dev i : ResolveIdentity g dev = Ok i →
  if Tagged i then Dirty i = false ∧ git_status g = Some "" ∧
    ∃ tags v, git_tags g = Some tags ∧ release_tags tags = [v] ∧ EffectiveVersion i = Normalized v
  else ParseVersion (EffectiveVersion i) = None ∧ EffectiveVersion i ≠ dev ∧ (Dirty i = true → EffectiveVersion i = id_version i +:+ ".dirty").
Proof.
  assert (∀ s t, plus ∈ chars t → ParseVersion (s +:+ t) = None) as Hn.
  { intros s t Ht. destruct (ParseVersion (s +:+ t)) as [v|] eqn:E; [|done]. apply ParseVersion_no_plus in E as [E _]. rewrite chars_app in E. set_solver. }
  unfold ResolveIdentity. destruct (ParseVersion dev) as [p|] eqn:Ep; [|done]. destruct (git_status g) as [status|]; [|done].
  assert (∀ s, ParseVersion s = None → s ≠ dev) as Hd by (intros s Hs ->; congruence).
  destruct (git_head g) as [rev|].
  - destruct (git_tags g) as [tags|]; [|done]. destruct (release_tags tags) as [|v [|? ?]] eqn:Et; [| |done].
    + destruct (_ <? _)%nat; [done|]. intros [= <-]. cbn. unfold EffectiveVersion. cbn [Dirty id_version].
      destruct (negb _); [|split_and!; [apply Hn; cbn; set_solver|apply Hd, Hn; cbn; set_solver|done]].
      rewrite sapp_assoc. split_and!; [apply Hn; rewrite chars_app; cbn; set_solver|apply Hd, Hn; rewrite chars_app; cbn; set_solver|intros _; unfold DirtySuffix; by rewrite !sapp_assoc].
    + destruct (negb _) eqn:En; [done|]. intros [= <-]. cbn. apply negb_false_iff, bool_decide_eq_true in En as ->. split_and!; [done..|]. by exists tags, v.
  - destruct (negb _); [done|]. intros [= <-]. cbn. unfold EffectiveVersion. cbn. split_and!; [apply Hn; cbn; set_solver|apply Hd, Hn; cbn; set_solver|done].
Qed.
