(* ===== verification/Target.v ===== *)
(** * HTTP probe targets (internal/observation/target.go)

    A target is a URL in a canonical form with the status, time and size a
    probe expects; its revision is a digest of all of them. *)
From S2P Require Import Prelude Order Bytes Encoding Netip Endpoint Text Url Artifact Observation NetipPrint.
From Stdlib Require Import Ascii.
From Stdlib Require String.
Open Scope Z_scope.

(** ** net/url *)

(** [url.ParseRequestURI]: a fragment is not split off. *)
Definition ParseRequestURI (raw : string) : option URL :=
  if existsb ctl_byte (chars raw) then None
  else if bool_decide (raw = "") then None
  else if bool_decide (raw = "*") then with_path no_url "*"
  else
    '(scheme, rest) ← getScheme raw;
    let scheme := to_lower scheme in
    let '(rest, query, force) :=
      match cut "?" rest with
      | Some (before, after) => (before, after, bool_decide (after = ""))
      | None => (rest, "", false)
      end in
    if bool_decide (scheme = "") then
      if has_prefix "/" rest
      then with_path {| Scheme := ""; Opaque := ""; User := None; Host := ""; Path := ""; RawPath := ""; RawQuery := query;
                        ForceQuery := force; Fragment := "" |} rest
      else None
    else parse_rest scheme rest query force.

(** [validEncoded] of a path. *)
Definition validEncoded (s : string) : bool :=
  all_chars (λ c, char_elem c "!$&'()*+,;=:@[]%" || negb (shouldEscape c encodePath)) s.
Definition EscapedPath (u : URL) : string :=
  if bool_decide (RawPath u ≠ "") && validEncoded (RawPath u) && bool_decide (unescape (RawPath u) encodePath = Some (Path u))
  then RawPath u
  else if bool_decide (Path u = "*") then "*"
  else escape (Path u) encodePath.
(** [URL.String] of a URL with a scheme and a host and without a fragment. *)
Definition authority (u : URL) : string :=
  match User u with Some i => Userinfo_String i +:+ "@" | None => "" end +:+ escape (Host u) encodeHost.
Definition query_part (u : URL) : string :=
  if ForceQuery u || bool_decide (RawQuery u ≠ "") then "?" +:+ RawQuery u else "".
Definition URL_String (u : URL) : string :=
  let path := EscapedPath u in
  Scheme u +:+ "://" +:+ authority u +:+ (if has_prefix "/" path || bool_decide (path = "") then path else "/" +:+ path) +:+ query_part u.

(** [net.JoinHostPort]. *)
Definition JoinHostPort (host port : string) : string :=
  if char_elem ":" host then "[" +:+ host +:+ "]:" +:+ port else host +:+ ":" +:+ port.

(** ** Targets *)

Definition DefaultMaxResponseBytes : Z := 4096.
Definition MaxResponseBytes : Z := 1048576.

Record HTTPTargetOptions := { to_allowHTTP : bool; to_allowPrivate : bool; RevisionSalt : string; to_maxResponseBytes : Z }.
Record HTTPTarget := {
  t_id : string; t_revision : option string; requestURL : URL; expectedStatus : Z; t_timeout : Z; maxResponseBytes : Z;
  allowPrivateDestinations : bool;
}.
(** [HTTPTarget.Ref], and what the executor reads of [ExecutionURL]. *)
Definition t_ref (t : HTTPTarget) : TargetRef := {| tid := t_id t; trev := t_revision t |}.
Definition t_scheme (t : HTTPTarget) : string := Scheme (requestURL t).
Definition t_hostname (t : HTTPTarget) : string := Hostname (requestURL t).
Definition t_port (t : HTTPTarget) : string := Port (requestURL t).

Definition label_ok (label : string) : bool :=
  (0 <? slen label) && (slen label <=? 63) && negb (has_prefix "-" label) && negb (Address.has_suffix "-" label) &&
  all_chars (λ c, is_lower c || is_digit c || Ascii.eqb c "-") label.
Definition validHostname (host : string) : bool :=
  match parse_addr host with
  | Some a => bool_decide (addr_zone a = "")
  | None => (0 <? slen host) && (slen host <=? 253) && forallb label_ok (split_on "." host)
  end.

(** What [targetDigest] hashes. *)
Definition target_input (canonicalURL : string) (status timeout maxBytes : Z) (salt : string) : string :=
  "egressfox.target/http-get/v1" +:+ enc_string canonicalURL +:+ u64 status +:+ u64 timeout +:+ u64 maxBytes +:+
  (if bool_decide (salt ≠ "") then enc_string salt else "").
Definition targetDigest `{Digest} (canonicalURL : string) (status timeout maxBytes : Z) (salt : string) : string :=
  sha256 (target_input canonicalURL status timeout maxBytes salt).

(** [strconv.ParseUint] with 16 bits. *)
Definition parse_port (s : string) : option Z :=
  if bool_decide (s = "") then None else z ← parse_digits 0 (chars s); if z <=? 65535 then Some z else None.
Definition canonical_host (scheme hostname port : string) : string :=
  if bool_decide (port = "") || bool_decide (scheme = "https") && bool_decide (port = "443") ||
     bool_decide (scheme = "http") && bool_decide (port = "80")
  then if char_elem ":" hostname then "[" +:+ hostname +:+ "]" else hostname
  else JoinHostPort hostname port.
Definition canonical_url (u : URL) (hostname : string) : URL :=
  {| Scheme := to_lower (Scheme u); Opaque := Opaque u; User := User u; Host := canonical_host (to_lower (Scheme u)) hostname (Port u);
     Path := if bool_decide (Path u = "") then "/" else Path u; RawPath := RawPath u; RawQuery := RawQuery u;
     ForceQuery := ForceQuery u; Fragment := Fragment u |}.

Definition NewHTTPTarget `{Digest} (id rawURL : string) (expected timeout : Z) (o : HTTPTargetOptions) : result string HTTPTarget :=
  match ParseRequestURI rawURL with
  | None => Err "invalid HTTP probe target URL"
  | Some u =>
      _ ← guard_err (bool_decide (Scheme u = "") || bool_decide (Opaque u ≠ "") || bool_decide (Host u = "") || bool_decide (Fragment u ≠ ""))
            "invalid HTTP probe target URL";
      let scheme := to_lower (Scheme u) in
      _ ← guard_err (bool_decide (scheme ≠ "https") && negb (bool_decide (scheme = "http") && to_allowHTTP o))
            "HTTP probe target scheme is not authorized";
      let hostname := Address.trim_dot (to_lower (Hostname u)) in
      _ ← guard_err (negb (validHostname hostname)) "invalid HTTP probe target host";
      _ ← guard_err (bool_decide (Port u ≠ "") && match parse_port (Port u) with Some z => z =? 0 | None => true end)
            "invalid HTTP probe target port";
      let u := canonical_url u hostname in
      _ ← guard_err ((expected <? 200) || (599 <? expected)) "invalid HTTP probe expected status";
      _ ← guard_err ((timeout <? 100 * millisecond) || (2 * minute <? timeout)) "invalid HTTP probe timeout";
      let maxBytes := if to_maxResponseBytes o =? 0 then DefaultMaxResponseBytes else to_maxResponseBytes o in
      _ ← guard_err ((maxBytes <? 1) || (MaxResponseBytes <? maxBytes)) "invalid HTTP probe response bound";
      Ok {| t_id := id; t_revision := Some (targetDigest (URL_String u) expected timeout maxBytes (RevisionSalt o)); requestURL := u;
            expectedStatus := expected; t_timeout := timeout; maxResponseBytes := maxBytes; allowPrivateDestinations := to_allowPrivate o |}
  end.

Definition sample_options : HTTPTargetOptions := {| to_allowHTTP := true; to_allowPrivate := false; RevisionSalt := ""; to_maxResponseBytes := 0 |}.
Example target_example : let _ := toy_digest in
  (URL_String ∘ requestURL <$> match NewHTTPTarget "t" "HTTP://u:p@Example.COM.:80?q=1" 204 second sample_options with Ok t => Some t | Err _ => None end)
  = Some "http://u:p@example.com/?q=1" ∧
  (URL_String ∘ requestURL <$> match NewHTTPTarget "t" "https://[2001:DB8::1]:8443/a%2Fb#f" 204 second sample_options with Ok t => Some t | Err _ => None end)
  = Some "https://[2001:db8::1]:8443/a/b%23f".
Proof. vm_compute. split; reflexivity. Qed.

(** ** Escaping *)

Definition bytes : list ascii := ascii_of_N <$> (N.of_nat <$> seq 0 256).
Lemma every_byte (p : ascii → bool) c : forallb p bytes = true → p c = true.
Proof.
  rewrite forallb_forall. intros H. apply H, list_elem_of_In. unfold bytes. rewrite <-(ascii_N_embedding c).
  apply list_elem_of_fmap_2. pose proof (code_range c) as Hc. unfold code in Hc.
  rewrite <-(N2Nat.id (N_of_ascii c)). apply list_elem_of_fmap_2, elem_of_seq. lia.
Qed.
Definition percent_mode (mode : encoding) : bool := match mode with encodeQueryComponent => false | _ => true end.
Lemma escape_byte mode c : percent_mode mode = true →
  escape_char mode c = [c] ∧ c ≠ "%"%char ∨
  ∃ h1 h2, escape_char mode c = ["%"%char; h1; h2] ∧ percent_byte h1 h2 = Some c.
Proof.
  intros Hm. set (p := λ c, if shouldEscape c mode
    then bool_decide (percent_byte (hex_upper (code c / 16)) (hex_upper (code c `mod` 16)) = Some c) else negb (Ascii.eqb c "%")).
  assert (p c = true) as Hp by (apply every_byte; destruct mode; vm_compute; done).
  unfold escape_char. subst p. simpl in Hp. destruct (shouldEscape c mode).
  - bool_to_prop. right. destruct mode; try discriminate Hm; eauto.
  - left. split; [done|]. intros ->. done.
Qed.
Lemma unescape_escape_chars mode l : percent_mode mode = true → unescape_chars encodePath (l ≫= escape_char mode) = Some l.
Proof.
  intros Hm. induction l as [|c l IH]; [done|]. rewrite bind_cons.
  destruct (escape_byte mode c Hm) as [[-> Hc]|(h1&h2&->&Hb)]; cbn [app unescape_chars].
  - destruct (Ascii.eqb_spec c "%"); [done|]. by rewrite IH.
  - rewrite Hb. cbn. by rewrite IH.
Qed.
Lemma unescape_escape mode s : percent_mode mode = true → unescape (escape s mode) encodePath = Some s.
Proof. intros Hm. unfold unescape, escape. rewrite chars_of_chars, unescape_escape_chars by done. simpl. by rewrite of_chars_chars. Qed.
Lemma escape_inj mode s t : percent_mode mode = true → escape s mode = escape t mode → s = t.
Proof. intros Hm E. apply (f_equal (λ x, unescape x encodePath)) in E. rewrite !unescape_escape in E by done. by injection E. Qed.
(** A byte that no escaped byte contains. *)
Definition avoids (mode : encoding) (x : ascii) : bool := forallb (λ c, negb (existsb (Ascii.eqb x) (escape_char mode c))) bytes.
Lemma escape_avoids mode x s : avoids mode x = true → x ∉ chars (escape s mode).
Proof.
  intros H Hx. unfold escape in Hx. rewrite chars_of_chars in Hx. apply list_elem_of_bind in Hx as (c&Hc&_).
  pose proof (every_byte _ c H) as Hn. cbv beta in Hn. apply negb_true_iff, not_true_iff_false in Hn. apply Hn, existsb_exists.
  exists x. split; [by apply list_elem_of_In|apply Ascii.eqb_refl].
Qed.
Lemma avoided : forallb (λ mx, avoids mx.1 mx.2)
  [(encodeUserPassword, ":"); (encodeUserPassword, "@"); (encodeUserPassword, "/"); (encodeUserPassword, "?"); (encodeHost, "@");
   (encodeHost, "/"); (encodeHost, "?"); (encodePath, "?")]%char = true.
Proof. vm_compute. reflexivity. Qed.
Ltac avoid := apply (proj1 (forallb_forall _ _) avoided (_, _)), list_elem_of_In; repeat constructor.

(** ** Splitting at a separator *)

Lemma split_sep (x : ascii) (a b r s : list ascii) : x ∉ a → x ∉ b → a ++ x :: r = b ++ x :: s → a = b ∧ r = s.
Proof.
  revert b. induction a as [|c a IH]; intros [|d b] Ha Hb E; simplify_eq/=; [done|set_solver..|].
  apply not_elem_of_cons in Ha as [_ Ha], Hb as [_ Hb]. by destruct (IH b Ha Hb) as [-> ->].
Qed.
Lemma split_sep_end (x : ascii) (a b s : list ascii) : x ∉ a → a = b ++ x :: s → False.
Proof. intros Ha ->. set_solver. Qed.
Lemma split_str (x : ascii) (a b r s : string) : x ∉ chars a → x ∉ chars b → a +:+ String x r = b +:+ String x s → a = b ∧ r = s.
Proof.
  intros Ha Hb E. apply (f_equal chars) in E. rewrite !chars_app in E. cbn [chars] in E. apply split_sep in E as [E1 E2]; [|done..].
  split; [rewrite <-(of_chars_chars a), E1|rewrite <-(of_chars_chars r), E2]; apply of_chars_chars.
Qed.
Lemma not_in_app (x : ascii) (a b : string) : x ∉ chars a → x ∉ chars b → x ∉ chars (a +:+ b).
Proof. rewrite chars_app. set_solver. Qed.

Lemma Userinfo_avoids x i : avoids encodeUserPassword x = true → x ≠ ":"%char →
  x ∉ chars (Userinfo_String i).
Proof.
  intros H Hx. unfold Userinfo_String. apply not_in_app; [by apply escape_avoids|]. destruct (Password i); [|by apply not_elem_of_nil].
  apply not_in_app; [|by apply escape_avoids]. simpl. set_solver.
Qed.
Lemma Userinfo_inj i j : Userinfo_String i = Userinfo_String j → i = j.
Proof.
  destruct i as [u p], j as [v q]. unfold Userinfo_String. cbn [Username Password].
  assert (∀ s, ":"%char ∉ chars (escape s encodeUserPassword)) as Hc by (intros; apply escape_avoids; avoid).
  destruct p as [p|], q as [q|]; intros E.
  - apply split_str in E as [E1%escape_inj E2%escape_inj]; by subst.
  - rewrite sapp_nil_r in E. destruct (Hc v). rewrite <-E, chars_app. cbn. set_solver.
  - rewrite sapp_nil_r in E. destruct (Hc u). rewrite E, chars_app. cbn. set_solver.
  - rewrite !sapp_nil_r in E. apply escape_inj in E; by subst.
Qed.
Lemma authority_avoids x u : x ≠ ":"%char → x ≠ "@"%char →
  avoids encodeUserPassword x = true → avoids encodeHost x = true →
  x ∉ chars (authority u).
Proof.
  intros H1 H2 H3 H4. unfold authority. apply not_in_app; [|by apply escape_avoids].
  destruct (User u); [|by apply not_elem_of_nil]. apply not_in_app; [by apply Userinfo_avoids|simpl; set_solver].
Qed.
Lemma authority_inj u v : authority u = authority v → User u = User v ∧ Host u = Host v.
Proof.
  unfold authority. assert (∀ s, "@"%char ∉ chars (escape s encodeHost)) as Hh by (intros; apply escape_avoids; avoid).
  assert (∀ i, "@"%char ∉ chars (Userinfo_String i)) as Hi by (intros; apply Userinfo_avoids; [avoid|done]).
  destruct (User u) as [i|], (User v) as [j|]; rewrite ?sapp_assoc; intros E.
  - apply split_str in E as [E1%Userinfo_inj E2%escape_inj]; by subst.
  - destruct (Hh (Host v)). apply (f_equal chars) in E. rewrite !chars_app in E. cbn [chars app] in E. rewrite <-E. set_solver.
  - destruct (Hh (Host u)). apply (f_equal chars) in E. rewrite !chars_app in E. cbn [chars app] in E. rewrite E. set_solver.
  - by apply escape_inj in E.
Qed.

(** ** Paths *)

Definition rooted (s : string) : Prop := ∃ r, s = String "/" r.
Lemma with_path_rooted u p v : rooted p → with_path u p = Some v → rooted (Path v).
Proof.
  intros [r ->]. unfold with_path, unescape. cbn [chars unescape_chars]. change (Ascii.eqb "/" "%") with false. cbv iota.
  destruct (unescape_chars encodePath (chars r)) as [l|]; [|done]. cbn. intros [= <-]. cbn. by exists (of_chars l).
Qed.
Lemma escape_rooted s : rooted s → rooted (escape s encodePath).
Proof. intros [r ->]. unfold escape. cbn [chars]. rewrite bind_cons. by exists (of_chars (chars r ≫= escape_char encodePath)). Qed.
(** The path of a target as it is requested determines the path. *)
Lemma EscapedPath_Path u : rooted (Path u) → unescape (EscapedPath u) encodePath = Some (Path u) ∧ "?"%char ∉ chars (EscapedPath u).
Proof.
  intros Hr. unfold EscapedPath. destruct (_ && _ && _) eqn:E.
  - bool_to_prop. split; [done|]. intros Hq. unfold validEncoded, all_chars in *. rename select (forallb _ _ = true) into Hv.
    rewrite forallb_forall in Hv. specialize (Hv "?"%char ltac:(by apply list_elem_of_In)). by vm_compute in Hv.
  - rewrite bool_decide_false by (destruct Hr as [r ->]; done). split; [by apply unescape_escape|]. apply escape_avoids. avoid.
Qed.
Lemma index_from_Some n sub l i : index_from n sub l = Some i → ∃ k, i = (n + k)%nat ∧ has_prefix sub (of_chars (drop k l)) = true.
Proof.
  revert n. induction l as [|c l IH]; intros n; cbn [index_from]; destruct (has_prefix sub _) eqn:E; try done.
  - intros [= <-]. exists 0%nat. split; [lia|]. by rewrite drop_nil.
  - intros [= <-]. exists 0%nat. split; [lia|done].
  - intros (k&->&Hk)%IH. exists (S k). split; [lia|done].
Qed.
Lemma index_rooted s i : index s "/" = Some i → rooted (drop_str i s).
Proof.
  intros (k&->&Hk)%index_from_Some. unfold drop_str. cbn [Nat.add]. destruct (drop k (chars s)) as [|c l]; [done|].
  cbn [of_chars has_prefix] in Hk. apply andb_true_iff in Hk as [Hc _]. apply Ascii.eqb_eq in Hc as <-. by exists (of_chars l).
Qed.
(** The path of a URL with a host. *)
Definition path_ok (u : URL) : Prop := (Path u = "" ∧ RawPath u = "") ∨ (rooted (Path u) ∧ (RawPath u = "" ∨ rooted (RawPath u))).
Lemma with_path_ok u p v : p = "" ∨ rooted p → with_path u p = Some v → path_ok v ∧ Opaque v = Opaque u ∧ Fragment v = Fragment u.
Proof.
  intros Hp Hv. split_and!; [|unfold with_path in Hv; by destruct (unescape p encodePath); simplify_eq/=..].
  destruct Hp as [-> |Hp].
  - left. cbn in Hv. by simplify_eq/=.
  - right. split; [by eapply with_path_rooted|]. unfold with_path in Hv. destruct (unescape p encodePath) as [q|]; [|done].
    cbn in Hv. injection Hv as <-. cbn. case_bool_decide; [by left|by right].
Qed.
Lemma parse_rest_path scheme rest query force u : scheme ≠ "" → parse_rest scheme rest query force = Some u → Host u ≠ "" →
  path_ok u ∧ Opaque u = "" ∧ Fragment u = "".
Proof.
  intros Hs. unfold parse_rest. rewrite (bool_decide_true (scheme ≠ "")) by done. destruct (has_prefix "/" rest) eqn:Er; cbn [negb andb orb].
  - destruct (has_prefix "//" rest).
    + intros H Hh. destruct (match index _ _ with Some _ => _ | None => _ end) as [auth p] eqn:E.
      assert (p = "" ∨ rooted p) as Hp by (destruct (index _ _) eqn:Ei; simplify_eq/=; [right; by apply index_rooted|by left]).
      destruct (parseAuthority auth) as [[user host]|]; [|done]. cbn in H. by apply with_path_ok in H.
    + intros H Hh. unfold with_path in H. destruct (unescape rest encodePath); simplify_eq/=.
  - by intros [= <-].
Qed.
Lemma ParseRequestURI_path raw u : ParseRequestURI raw = Some u → Host u ≠ "" → path_ok u ∧ Opaque u = "" ∧ Fragment u = "".
Proof.
  unfold ParseRequestURI. destruct (existsb _ _); [done|]. destruct (bool_decide (raw = "")); [done|].
  destruct (bool_decide (raw = "*")); [by vm_compute; intros [= <-]|]. destruct (getScheme raw) as [[scheme rest]|]; [|done]. cbn [mbind option_bind].
  destruct (match cut "?" rest with Some _ => _ | None => _ end) as [[p q] f]. case_bool_decide as Hs.
  - destruct (has_prefix "/" p); [|done]. unfold with_path. destruct (unescape p encodePath); [|done]. by intros [= <-].
  - by apply parse_rest_path.
Qed.

(** ** What the text of a target URL determines *)

Record target_url (u : URL) : Prop := {
  tu_scheme : Scheme u = "https" ∨ Scheme u = "http";
  tu_host : Host u ≠ "";
  tu_path : rooted (Path u);
  tu_raw : RawPath u = "" ∨ rooted (RawPath u);
  tu_opaque : Opaque u = "";
  tu_fragment : Fragment u = "";
}.
Lemma EscapedPath_rooted u : target_url u → rooted (EscapedPath u).
Proof.
  intros [_ _ Hp Hr _ _]. unfold EscapedPath. destruct (_ && _ && _) eqn:E.
  - bool_to_prop. by destruct Hr.
  - rewrite bool_decide_false by (destruct Hp as [r ->]; done). by apply escape_rooted.
Qed.
Lemma split_query p q u v : "?"%char ∉ chars p → "?"%char ∉ chars q → p +:+ query_part u = q +:+ query_part v →
  p = q ∧ query_part u = query_part v.
Proof.
  intros Hp Hq. assert (∀ s t v, "?"%char ∉ chars s → s +:+ "" = t +:+ String "?" (RawQuery v) → False) as Hno.
  { intros s t w Hs E. apply Hs. apply (f_equal chars) in E. rewrite !chars_app in E. cbn [chars] in E. rewrite app_nil_r in E. rewrite E. set_solver. }
  unfold query_part. destruct (ForceQuery u || _), (ForceQuery v || _); intros E.
  - by apply split_str in E as [-> ->].
  - symmetry in E. exfalso. by eapply (Hno q p u).
  - exfalso. by eapply (Hno p q v).
  - rewrite !sapp_nil_r in E. by subst.
Qed.
Lemma URL_String_inj u v : target_url u → target_url v → URL_String u = URL_String v →
  Scheme u = Scheme v ∧ User u = User v ∧ Host u = Host v ∧ Path u = Path v ∧ EscapedPath u = EscapedPath v ∧ query_part u = query_part v.
Proof.
  intros Hu Hv. unfold URL_String. destruct (EscapedPath_rooted u Hu) as [ru Eu], (EscapedPath_rooted v Hv) as [rv Ev].
  pose proof (EscapedPath_Path u (tu_path u Hu)) as [Pu Qu]. pose proof (EscapedPath_Path v (tu_path v Hv)) as [Pv Qv].
  rewrite Eu, Ev in *. cbn [has_prefix orb]. change (Ascii.eqb "/" "/") with true. cbn [andb orb]. intros E.
  assert (Scheme u = Scheme v) as Hs.
  { destruct (tu_scheme u Hu) as [Su|Su], (tu_scheme v Hv) as [Sv|Sv]; rewrite Su, Sv in *; [done|discriminate E|discriminate E|done]. }
  rewrite Hs in E. apply sapp_inj_len in E as [_ E]; [|done]. apply sapp_inj_len in E as [_ E]; [|done].
  assert (∀ u, "/"%char ∉ chars (authority u)) as Ha by (intros w; apply authority_avoids; [done|done|avoid|avoid]).
  rewrite !sapp_cons in E. apply split_str in E as [E1 E2]; [|done..]. apply authority_inj in E1 as [? ?].
  apply split_query in E2 as [-> E3]; [|cbn [chars] in *; set_solver..]. rewrite Pu in Pv. by injection Pv as <-.
Qed.

(** ** The host of the canonical URL *)

Lemma find_from_none n p l : (∀ c, c ∈ l → p c = false) → find_from n p l = None.
Proof. revert n. induction l as [|c l IH]; intros n H; [done|]. cbn. rewrite (H c) by left. apply IH. intros d Hd. apply H. by right. Qed.
Lemma find_from_here n p l c r : (∀ d, d ∈ l → p d = false) → p c = true → find_from n p (l ++ c :: r) = Some (n + length l)%nat.
Proof.
  revert n. induction l as [|d l IH]; intros n H Hc; cbn; [rewrite Hc; f_equal; lia|]. rewrite (H d) by left.
  rewrite IH; [f_equal; lia| |done]. intros e He. apply H. by right.
Qed.
Lemma eqb_not_in (c : ascii) (l : list ascii) : c ∉ l → ∀ d, d ∈ l → Ascii.eqb c d = false.
Proof. intros Hc d Hd. apply Ascii.eqb_neq. by intros <-. Qed.
Lemma last_index_none s c : c ∉ chars s → last_index s c = None.
Proof. intros Hc. unfold last_index. rewrite find_from_none; [done|]. apply eqb_not_in. set_solver. Qed.
Lemma last_index_app a b c : c ∉ chars b → last_index (a +:+ String c b) c = Some (String.length a).
Proof.
  intros Hc. unfold last_index. rewrite chars_app. cbn [chars]. rewrite reverse_app, reverse_cons, <-app_assoc. cbn [app].
  rewrite find_from_here; [|apply eqb_not_in; set_solver|apply Ascii.eqb_refl]. cbn. f_equal.
  rewrite length_reverse, length_chars, slen_app. cbn. lia.
Qed.
Lemma last_index_some s c i : last_index s c = Some i → ∃ a b, s = a +:+ String c b ∧ c ∉ chars b ∧ i = String.length a.
Proof.
  intros H. destruct (decide (c ∈ chars s)) as [Hin|Hn]; [|by rewrite last_index_none in H].
  apply list_elem_of_split_r in Hin as (l1&l2&E&Hl2). assert (s = of_chars l1 +:+ String c (of_chars l2)) as ->.
  { rewrite <-(of_chars_chars s), E, of_chars_app. done. }
  rewrite last_index_app in H by (by rewrite chars_of_chars). injection H as <-. exists (of_chars l1), (of_chars l2).
  by rewrite chars_of_chars.
Qed.
Lemma take_first_app a b : take_first (String.length a) (a +:+ b) = a.
Proof. unfold take_first. rewrite chars_app, <-length_chars, take_app_length. apply of_chars_chars. Qed.
Lemma drop_str_tail a c b : drop_str (S (String.length a)) (a +:+ String c b) = b.
Proof.
  unfold drop_str. rewrite chars_app, <-length_chars. cbn [chars]. replace (chars a ++ c :: chars b) with ((chars a ++ [c]) ++ chars b) by (by rewrite <-app_assoc).
  rewrite drop_app_length'; [apply of_chars_chars|]. rewrite length_app. cbn. lia.
Qed.
Definition digits (s : string) : Prop := Forall (λ c, is_digit c = true) (chars s).
Lemma digits_no_colon s : digits s → ":"%char ∉ chars s.
Proof. intros Hd Hc. unfold digits in Hd. rewrite Forall_forall in Hd. by apply Hd in Hc. Qed.
Lemma unbracket h : of_chars (removelast (tail (chars ("[" +:+ h +:+ "]")))) = h.
Proof. rewrite !chars_app. cbn [chars app tail]. rewrite removelast_last. apply of_chars_chars. Qed.
Lemma suffix_snoc c s : Address.has_suffix (String c "") (s +:+ String c "") = true.
Proof. unfold Address.has_suffix. rewrite chars_app, reverse_app. cbn. by rewrite Ascii.eqb_refl. Qed.

Definition bare (h : string) : bool := has_prefix "[" h && Address.has_suffix "]" h.
Lemma split_plain h : ":"%char ∉ chars h → bare h = false → splitHostPort h = (h, "").
Proof. intros Hc Hb. unfold splitHostPort. rewrite last_index_none by done. fold (bare h). by rewrite Hb. Qed.
Lemma split_port h p : digits p → splitHostPort (h +:+ ":" +:+ p) = (if bare h then of_chars (removelast (tail (chars h))) else h, p).
Proof.
  intros Hp. change (":" +:+ p) with (String ":" p). unfold splitHostPort. rewrite last_index_app by by apply digits_no_colon.
  rewrite drop_str_app, take_first_app, drop_str_tail. unfold validOptionalPort. cbn [chars]. rewrite Ascii.eqb_refl, (proj2 (forallb_forall _ _)).
  - done.
  - intros c Hc. unfold digits in Hp. rewrite Forall_forall in Hp. by apply Hp, list_elem_of_In.
Qed.
Lemma bare_bracketed h : bare ("[" +:+ h +:+ "]") = true.
Proof. unfold bare. by rewrite <-sapp_assoc, suffix_snoc. Qed.
Lemma split_bracketed h : splitHostPort ("[" +:+ h +:+ "]") = (h, "").
Proof.
  unfold splitHostPort. pose proof (bare_bracketed h) as Hb.
  assert (match last_index ("[" +:+ h +:+ "]") ":" with
          | Some colon => if validOptionalPort (drop_str colon ("[" +:+ h +:+ "]"))
                          then (take_first colon ("[" +:+ h +:+ "]"), drop_str (S colon) ("[" +:+ h +:+ "]")) else ("[" +:+ h +:+ "]", "")
          | None => ("[" +:+ h +:+ "]", "") end = ("[" +:+ h +:+ "]", "")) as ->.
  { destruct (last_index _ _) as [i|] eqn:E; [|done]. apply last_index_some in E as (a&b&E&Hb'&->). rewrite E, drop_str_app.
    assert (validOptionalPort (String ":" b) = false) as ->; [|done].
    assert ("]"%char ∈ chars b) as Hin.
    { apply (f_equal (λ s, last (chars s))) in E. rewrite !chars_app in E. cbn [chars] in E.
      destruct (chars b) as [|c l] eqn:Eb.
      - exfalso. rewrite app_assoc, !last_snoc in E. discriminate E.
      - rewrite app_assoc, last_snoc in E. rewrite last_app_cons, last_cons_cons in E. symmetry in E.
        apply last_Some in E as [l' ->]. set_solver. }
    unfold validOptionalPort. cbn [chars]. apply not_true_iff_false. intros [_ Hd]%andb_true_iff. rewrite forallb_forall in Hd.
    apply list_elem_of_In, Hd in Hin. done. }
  unfold bare in Hb. rewrite Hb. by rewrite unbracket.
Qed.

Lemma split_chars_head sep cur c l : c ≠ sep → ∃ r rest, split_chars sep cur (c :: l) = (reverse cur ++ c :: r) :: rest.
Proof.
  revert cur c. induction l as [|d l IH]; intros cur c Hc; cbn [split_chars]; destruct (Ascii.eqb_spec c sep); try done.
  - exists [], []. by rewrite reverse_cons.
  - destruct (Ascii.eqb_spec d sep) as [-> |Hd].
    + exists [], (split_chars sep [] l). by rewrite reverse_cons.
    + destruct (IH (c :: cur) d Hd) as (r&rest&E). cbn [split_chars] in E. destruct (Ascii.eqb_spec d sep); [done|]. rewrite E.
      exists (d :: r), rest. by rewrite reverse_cons, <-app_assoc.
Qed.
Lemma bracket_not_valid h : ":"%char ∉ chars h → has_prefix "[" h = true → validHostname h = false.
Proof.
  destruct h as [|c h]; [done|]. intros Hc Hp. cbn [has_prefix] in Hp. apply andb_true_iff in Hp as [E%Ascii.eqb_eq _]. subst c.
  destruct (split_chars_head "." [] "[" (chars h) ltac:(done)) as (r&rest&E).
  assert (split_on "." (String "[" h) = of_chars ("["%char :: r) :: (of_chars <$> rest)) as Es by (unfold split_on; cbn [chars]; by rewrite E).
  unfold validHostname. assert (parse_addr (String "[" h) = None) as ->.
  { unfold parse_addr. destruct (List.find _ _) as [d|] eqn:Ef; [|done]. apply List.find_some in Ef as [Hd _].
    assert (parse_ipv4 (String "[" h) = None) as H4.
    { unfold parse_ipv4. rewrite Es. cbn [of_chars]. destruct rest as [|x [|y [|z [|]]]]; reflexivity. }
    rewrite H4. assert (d ≠ ":"%char) as Hn by (intros ->; by apply Hc, list_elem_of_In). clear -Hn.
    destruct d as [[] [] [] [] [] [] [] []]; try reflexivity. by destruct Hn. }
  rewrite Es. cbn [forallb]. assert (label_ok (of_chars ("["%char :: r)) = false) as ->; [|by rewrite andb_false_l, andb_false_r].
  unfold label_ok, all_chars. rewrite chars_of_chars. cbn [forallb]. change (is_lower "[" || is_digit "[" || Ascii.eqb "[" "-") with false.
  by rewrite andb_false_r.
Qed.
Lemma valid_bare h : validHostname h = true → ":"%char ∉ chars h → bare h = false.
Proof.
  intros Hv Hc. unfold bare. destruct (has_prefix "[" h) eqn:E; [|done]. by rewrite bracket_not_valid in Hv.
Qed.
Lemma char_elem_in c s : char_elem c s = true ↔ c ∈ chars s.
Proof.
  unfold char_elem. rewrite existsb_exists. split; [|intros H; exists c; split; [by apply list_elem_of_In|apply Ascii.eqb_refl]].
  intros (d&Hd&->%Ascii.eqb_eq). by apply list_elem_of_In.
Qed.
(** The port of a target, empty when it is the default of the scheme. *)
Definition kept_port (scheme port : string) : string :=
  if bool_decide (scheme = "https") && bool_decide (port = "443") || bool_decide (scheme = "http") && bool_decide (port = "80") then "" else port.
Lemma canonical_host_split scheme h port : validHostname h = true → port = "" ∨ digits port →
  splitHostPort (canonical_host scheme h port) = (h, kept_port scheme port).
Proof.
  intros Hv Hp. unfold canonical_host, kept_port.
  assert (splitHostPort (if char_elem ":" h then "[" +:+ h +:+ "]" else h) = (h, "")) as Hplain.
  { destruct (char_elem ":" h) eqn:Ec; [apply split_bracketed|]. apply not_true_iff_false in Ec. rewrite char_elem_in in Ec.
    apply split_plain; [done|by apply valid_bare]. }
  destruct (bool_decide (port = "")) eqn:Ep; cbn [orb].
  { bool_to_prop. subst port. rewrite Hplain. by destruct (_ || _). }
  destruct (_ || _); [done|]. destruct Hp as [-> |Hp]; [done|]. unfold JoinHostPort. destruct (char_elem ":" h) eqn:Ec.
  - replace ("[" +:+ h +:+ "]:" +:+ port) with (("[" +:+ h +:+ "]") +:+ ":" +:+ port) by (by rewrite !sapp_assoc).
    rewrite split_port by done. by rewrite bare_bracketed, unbracket.
  - apply not_true_iff_false in Ec. rewrite char_elem_in in Ec. rewrite split_port by done. by rewrite valid_bare.
Qed.

(** ** Properties *)

Section properties.
Context `{Digest}.
(** What a target was made from. *)
Record made_target (id raw : string) (expected timeout : Z) (o : HTTPTargetOptions) (t : HTTPTarget) (u : URL) : Prop := {
  mt_parsed : ParseRequestURI raw = Some u;
  mt_id : t_id t = id;
  mt_url : requestURL t = canonical_url u (Address.trim_dot (to_lower (Hostname u)));
  mt_host : validHostname (Address.trim_dot (to_lower (Hostname u))) = true;
  mt_port : Port u = "" ∨ ∃ z, parse_port (Port u) = Some z ∧ 0 < z;
  mt_scheme : to_lower (Scheme u) = "https" ∨ to_lower (Scheme u) = "http" ∧ to_allowHTTP o = true;
  mt_target_url : target_url (requestURL t);
  mt_status : expectedStatus t = expected ∧ 200 ≤ expected ≤ 599;
  mt_timeout : t_timeout t = timeout ∧ 100 * millisecond ≤ timeout ≤ 2 * minute;
  mt_bytes : 1 ≤ maxResponseBytes t ≤ MaxResponseBytes ∧ maxResponseBytes t = (if to_maxResponseBytes o =? 0 then DefaultMaxResponseBytes else to_maxResponseBytes o);
  mt_private : allowPrivateDestinations t = to_allowPrivate o;
  mt_revision : t_revision t = Some (sha256 (target_input (URL_String (requestURL t)) expected timeout (maxResponseBytes t) (RevisionSalt o)));
}.
Lemma canonical_host_nonempty scheme h port : h ≠ "" → canonical_host scheme h port ≠ "".
Proof. intros Hh. unfold canonical_host, JoinHostPort. destruct (_ || _), (char_elem ":" h); try done. by destruct h. Qed.
Lemma NewHTTPTarget_made id raw expected timeout o t : NewHTTPTarget id raw expected timeout o = Ok t →
  ∃ u, made_target id raw expected timeout o t u.
Proof.
  unfold NewHTTPTarget. destruct (ParseRequestURI raw) as [u|] eqn:Eu; [|done]. intros Hok. ok_inv. exists u.
  repeat match goal with H : (_ || _) = false |- _ => apply orb_false_iff in H; destruct H end. bool_to_prop.
  assert (validHostname (Address.trim_dot (to_lower (Hostname u))) = true) as Hv by done.
  assert (to_lower (Scheme u) = "https" ∨ to_lower (Scheme u) = "http" ∧ to_allowHTTP o = true) as Hs.
  { rename select (_ && negb _ = false) into Hx. apply andb_false_iff in Hx as [Hx|Hx]; [left; apply bool_decide_eq_false_1 in Hx; by apply dec_stable|].
    right. apply negb_false_iff in Hx. by bool_to_prop. }
  assert (Host u ≠ "") as Hh by done.
  destruct (ParseRequestURI_path raw u Eu Hh) as (Hp&Ho&Hf).
  split; cbn [t_id t_revision requestURL expectedStatus t_timeout maxResponseBytes allowPrivateDestinations]; try done.
  - rename select (_ && match _ with _ => _ end = false) into Hx. apply andb_false_iff in Hx as [Hx|Hx].
    + left. apply bool_decide_eq_false_1 in Hx. by apply dec_stable.
    + right. destruct (parse_port (Port u)) as [z|] eqn:Ez; [|done]. exists z. split; [done|]. apply Z.eqb_neq in Hx.
      unfold parse_port in Ez. destruct (bool_decide (Port u = "")); [done|]. destruct (parse_digits 0 (chars (Port u))) as [y|] eqn:Ey; [|done].
      cbn in Ez. destruct (y <=? 65535); [|done]. injection Ez as <-. apply parse_digits_nonneg in Ey; lia.
  - split; cbn [canonical_url Scheme Host Path RawPath Opaque Fragment]; try done.
    + by destruct Hs as [->|[-> _]]; auto.
    + apply canonical_host_nonempty. intros E. rewrite E in Hv. by vm_compute in Hv.
    + destruct Hp as [[-> _]|[Hp _]]; [rewrite bool_decide_true by done; by exists ""|]. destruct Hp as [r ->]. by exists r.
    + by destruct Hp as [[_ ->]|[_ Hp]]; [left|].
Qed.
Lemma parse_port_digits s z : parse_port s = Some z → digits s ∧ 0 ≤ z ≤ 65535.
Proof.
  unfold parse_port. destruct (bool_decide (s = "")); [done|]. destruct (parse_digits 0 (chars s)) as [y|] eqn:E; [|done]. cbn.
  destruct (y <=? 65535) eqn:Ey; [|done]. intros [= <-]. bool_to_prop. split; [by eapply parse_digits_digits|].
  apply parse_digits_nonneg in E; lia.
Qed.
(** A target has the scheme, host and port that were configured, in one
    spelling: HTTP only where it is allowed, the host in lower case, without
    a final dot, a literal address without zone or a DNS name, the port
    between 1 and 65535 and left out when it is the default. *)
Lemma target_canonical id raw expected timeout o t : NewHTTPTarget id raw expected timeout o = Ok t →
  ∃ u, ParseRequestURI raw = Some u ∧ t_scheme t = to_lower (Scheme u) ∧
    (t_scheme t = "https" ∨ t_scheme t = "http" ∧ to_allowHTTP o = true) ∧
    t_hostname t = Address.trim_dot (to_lower (Hostname u)) ∧ validHostname (t_hostname t) = true ∧
    t_port t = kept_port (t_scheme t) (Port u) ∧ (Port u = "" ∨ ∃ z, parse_port (Port u) = Some z ∧ 0 < z ≤ 65535).
Proof.
  intros (u&[])%NewHTTPTarget_made. exists u.
  assert (Port u = "" ∨ digits (Port u)) as Hd by (destruct mt_port0 as [?|(z&Hz&_)]; [by left|right; by eapply parse_port_digits]).
  assert (splitHostPort (Host (requestURL t)) = (Address.trim_dot (to_lower (Hostname u)), kept_port (to_lower (Scheme u)) (Port u))) as E
    by (rewrite mt_url0; by apply canonical_host_split).
  assert (t_scheme t = to_lower (Scheme u)) as Es by (unfold t_scheme; by rewrite mt_url0).
  assert (t_hostname t = Address.trim_dot (to_lower (Hostname u))) as Eh by (unfold t_hostname, Hostname at 1; by rewrite E).
  assert (t_port t = kept_port (t_scheme t) (Port u)) as Ep by (unfold t_port, Port at 1; by rewrite E, Es).
  rewrite Eh, Es. split_and!; try done; [by rewrite <-Es|]. destruct mt_port0 as [?|(z&Hz&Hz0)]; [by left|right].
  exists z. apply parse_port_digits in Hz as Hz'. split; [done|lia].
Qed.

Lemma target_input_inj url st to mx salt url' st' to' mx' salt' : fits32 url → fits32 url' → fits32 salt → fits32 salt' →
  in_int64 st → in_int64 st' → in_int64 to → in_int64 to' → in_int64 mx → in_int64 mx' →
  target_input url st to mx salt = target_input url' st' to' mx' salt' → url = url' ∧ st = st' ∧ to = to' ∧ mx = mx' ∧ salt = salt'.
Proof.
  intros Hu Hu' Hs Hs' H1 H1' H2 H2' H3 H3' E. unfold target_input in E. apply sapp_inj_len in E as [_ E]; [|done].
  apply enc_string_inj in E as [-> E]; [|done..]. apply u64_inj in E as [-> E]; [|done..]. apply u64_inj in E as [-> E]; [|done..].
  apply u64_inj in E as [-> E]; [|done..]. split_and!; try done.
  destruct (bool_decide (salt ≠ "")) eqn:B, (bool_decide (salt' ≠ "")) eqn:B'; bool_to_prop; [|done|done|].
  - apply (f_equal (λ x, x +:+ "")) in E. by apply enc_string_inj in E as [-> _].
  - apply dec_stable in B, B'. congruence.
Qed.
(** The bytes the revision of a target is the digest of. *)
Definition revision_input (t : HTTPTarget) (o : HTTPTargetOptions) : string :=
  target_input (URL_String (requestURL t)) (expectedStatus t) (t_timeout t) (maxResponseBytes t) (RevisionSalt o).
Lemma same_revision id raw st to o t id' raw' st' to' o' t' :
  NewHTTPTarget id raw st to o = Ok t → NewHTTPTarget id' raw' st' to' o' = Ok t' →
  fits32 (URL_String (requestURL t)) → fits32 (URL_String (requestURL t')) → fits32 (RevisionSalt o) → fits32 (RevisionSalt o') →
  coll_free sha256 [revision_input t o; revision_input t' o'] → t_revision t = t_revision t' →
  (let u := requestURL t in let u' := requestURL t' in
   Scheme u = Scheme u' ∧ User u = User u' ∧ Host u = Host u' ∧ Path u = Path u' ∧ EscapedPath u = EscapedPath u' ∧ query_part u = query_part u') ∧
  expectedStatus t = expectedStatus t' ∧ t_timeout t = t_timeout t' ∧ maxResponseBytes t = maxResponseBytes t' ∧ RevisionSalt o = RevisionSalt o'.
Proof.
  intros (u&M)%NewHTTPTarget_made (u'&M')%NewHTTPTarget_made Hu Hu' Hs Hs' Hfree Hr.
  rewrite (mt_revision _ _ _ _ _ _ _ M), (mt_revision _ _ _ _ _ _ _ M') in Hr. injection Hr as Hr.
  destruct (mt_status _ _ _ _ _ _ _ M) as [S1 B1], (mt_status _ _ _ _ _ _ _ M') as [S1' B1'].
  destruct (mt_timeout _ _ _ _ _ _ _ M) as [S2 B2], (mt_timeout _ _ _ _ _ _ _ M') as [S2' B2'].
  destruct (mt_bytes _ _ _ _ _ _ _ M) as [B3 _], (mt_bytes _ _ _ _ _ _ _ M') as [B3' _].
  unfold revision_input in Hfree. rewrite S1, S1', S2, S2' in *. apply Hfree in Hr as E; [|by rewrite !elem_of_cons; auto..].
  unfold MaxResponseBytes, minute, second, millisecond in *.
  apply target_input_inj in E as (E&->&->&->&->); try done; try (unfold in_int64, int64_min, int64_max; lia).
  destruct (URL_String_inj _ _ (mt_target_url _ _ _ _ _ _ _ M) (mt_target_url _ _ _ _ _ _ _ M') E) as (?&?&?&?&?&?). by split_and!.
Qed.
(** A target revision identifies what is probed: targets with the same
    revision, whose digested descriptions do not collide, have the same
    scheme, user information, host, path and query of their request, expect
    the same status within the same time and size, and were made with the
    same salt. *)
Theorem target_revision_identifies id raw st to o t id' raw' st' to' o' t' :
  NewHTTPTarget id raw st to o = Ok t → NewHTTPTarget id' raw' st' to' o' = Ok t' →
  fits32 (URL_String (requestURL t)) → fits32 (URL_String (requestURL t')) → fits32 (RevisionSalt o) → fits32 (RevisionSalt o') →
  coll_free sha256 [revision_input t o; revision_input t' o'] → t_revision t = t_revision t' →
  (let u := requestURL t in let u' := requestURL t' in
   Scheme u = Scheme u' ∧ User u = User u' ∧ Host u = Host u' ∧ Path u = Path u' ∧ EscapedPath u = EscapedPath u' ∧ query_part u = query_part u') ∧
  expectedStatus t = expectedStatus t' ∧ t_timeout t = t_timeout t' ∧ maxResponseBytes t = maxResponseBytes t' ∧ RevisionSalt o = RevisionSalt o'.
Proof. apply same_revision. Qed.
End properties.

(** A URL with a fragment is accepted, and the fragment is requested as part
    of the path. *)
Theorem target_fragment_requested `{Digest} id : ∃ t,
  NewHTTPTarget id "https://h.example/p#f" 204 second sample_options = Ok t ∧ URL_String (requestURL t) = "https://h.example/p%23f".
Proof. eexists. split; [reflexivity|]. vm_compute. reflexivity. Qed.

Module TargetSample.
#[local] Existing Instance toy_digest.
Definition options (salt : string) : HTTPTargetOptions := {| to_allowHTTP := false; to_allowPrivate := false; RevisionSalt := salt; to_maxResponseBytes := 0 |}.
Definition url (host : string) : URL :=
  {| Scheme := "https"; Opaque := ""; User := None; Host := host; Path := "/p"; RawPath := ""; RawQuery := ""; ForceQuery := false; Fragment := "" |}.
Definition made : HTTPTarget :=
  {| t_id := "t"; t_revision := Some (targetDigest "https://h.example/p" 204 second 4096 "s"); requestURL := url "h.example"; expectedStatus := 204;
     t_timeout := second; maxResponseBytes := 4096; allowPrivateDestinations := false |}.
Lemma made1 : NewHTTPTarget "t" "https://h.example/p" 204 second (options "s") = Ok made.
Proof. reflexivity. Qed.
Lemma made2 : NewHTTPTarget "t" "HTTPS://H.example.:443/p" 204 second (options "s") = Ok made.
Proof. reflexivity. Qed.
Lemma target_revision_identifies_witness : Host (requestURL made) = "h.example".
Proof.
  assert (∀ s, (slen s <? 2 ^ 32) = true → fits32 s) as Hf by (intros s Hs; apply Z.ltb_lt; exact Hs).
  assert (fits32 (URL_String (requestURL made))) as H1 by (apply Hf; reflexivity). assert (fits32 "s") as H2 by (apply Hf; reflexivity).
  assert (coll_free sha256 [revision_input made (options "s"); revision_input made (options "s")]) as H3 by (apply (bool_decide_unpack _); vm_compute; exact I).
  destruct (target_revision_identifies _ _ _ _ _ _ _ _ _ _ _ _ made1 made2 H1 H1 H2 H2 H3 eq_refl) as ((_&_&E&_)&_). exact E.
Defined.
End TargetSample.
