(* ===== verification/Executor.v ===== *)
(** * Probe execution (internal/probe/executor.go)

    [Executor.Execute]: authorize the target and the endpoint, pin the
    endpoint to the authorized address, render and validate a one-record
    gateway on a loopback listener, start the engine on it and classify one
    HTTP request through it.  The operating system, the resolver, the engine
    process and the HTTP client answer through the record [answers]; how the
    process is stopped is not modelled. *)
From S2P Require Import Prelude Order Bytes Encoding Netip Endpoint Configuration Identity Provenance Inventory Artifact Observation Engine Render Authorize NetipPrint Target.
From Stdlib Require Import Ascii.
From Stdlib Require String.
Import Configuration.
Open Scope Z_scope.

Inductive execution_error :=
| ExecutionError (code : string)
| ExecutionCapability (e : engine_error)
| ExecutionObservation (e : observation_error).

Record executor := {
  ex_profile : Profile;
  ex_render : Gateway → result render_error Candidate;
  ex_checker : Candidate → string + string;
  ex_vantage : string;
  ex_allowPrivateEndpoints : bool;
}.

(** ** Answers of the environment *)

(** Which case a [select] of [waitReady] takes; [Tick] is the ticker, or the
    stabilize timer once the port answered. *)
Inductive ready_event := ReadyContext (ctx : context_err) | ReadyExit | ReadyDeadline | ReadyTick.
(** How reading the body ends: the number of bytes it has, or an error. *)
Inductive body_answer := BodyRead (available : Z) | BodyFailed (ctx : context_err) (timeout : bool).
Inductive http_answer :=
| Unsent (code : string)   (* no SOCKS client or no request *)
| DoFailed (response : option Z) (processDone : bool) (ctx : context_err) (timeout tls : bool)
| DoResponse (status : Z) (body : body_answer).

Record answers := {
  a_target_ctx : context_err; a_target_lookup : string → option (list (option ipaddr));
  a_endpoint_ctx : context_err; a_endpoint_lookup : string → option (list (option ipaddr));
  a_reserve : option Z;             (* the reserved loopback port *)
  a_check_ctx : context_err;
  a_mkdir : bool; a_chmod : bool; a_write : bool; a_close : bool; a_start : bool;
  a_ready : list (bool * ready_event);   (* each dial of waitReady and the select after it *)
  a_http : http_answer;
  a_started : Z; a_duration : Z;
}.

(** ** Waiting for the engine *)

Definition ready_failure (e : ready_event) : option string :=
  match e with
  | ReadyContext ctx => Some (contextCode ctx "engine_readiness")
  | ReadyExit => Some "engine_exit"
  | ReadyDeadline => Some "engine_readiness_timeout"
  | ReadyTick => None
  end.
(** [None] while it still waits. *)
Fixpoint waitReady (l : list (bool * ready_event)) : option (result string ()) :=
  match l with
  | [] => None
  | (dialed, e) :: l' =>
      match ready_failure e with
      | Some code => Some (Err code)
      | None => if dialed : bool then Some (Ok ()) else waitReady l'
      end
  end.

(** ** The request *)

Definition wantedPort (t : HTTPTarget) : string :=
  if bool_decide (t_port t = "") then if bool_decide (t_scheme t = "https") then "443" else "80" else t_port t.
(** The DialContext of the transport, on the parts of the address it is
    asked for: the address it makes the SOCKS proxy connect to. *)
Definition dialContext (t : HTTPTarget) (authorized : ipaddr) (split : option (string * string)) : result string string :=
  match split with
  | None => Err "target_mismatch"
  | Some (host, port) =>
      if bool_decide (to_lower (Address.trim_dot host) ≠ to_lower (t_hostname t)) || bool_decide (port ≠ wantedPort t)
      then Err "target_mismatch"
      else Ok (JoinHostPort (print_addr authorized) (wantedPort t))
  end.

(** [response.Body] is read up to one byte past the limit. *)
Definition consumeResponse (status : Z) (body : body_answer) (t : HTTPTarget) : result string (Outcome * Z) :=
  match body with
  | BodyFailed Canceled _ => Err "cancelled"
  | BodyFailed DeadlineExceeded _ | BodyFailed ContextLive true => Ok (OutcomeTimeout, 0)
  | BodyFailed ContextLive false => Ok (OutcomeConnectionFailure, 0)
  | BodyRead available =>
      let read := Z.min available (maxResponseBytes t + 1) in
      if maxResponseBytes t <? read then Ok (OutcomeResponseTooLarge, 0)
      else if negb (status =? expectedStatus t) then Ok (OutcomeUnexpectedResponse, status)
      else Ok (OutcomeSuccess, status)
  end.
Definition measureHTTP (t : HTTPTarget) (a : http_answer) : result string (Outcome * Z) :=
  match a with
  | Unsent code => Err code
  | DoFailed (Some status) _ _ _ _ => Ok (OutcomeUnexpectedResponse, status)
  | DoFailed None true _ _ _ => Err "engine_exit"
  | DoFailed None false Canceled _ _ => Err "cancelled"
  | DoFailed None false ctx timeout tls =>
      if bool_decide (ctx = DeadlineExceeded) || timeout then Ok (OutcomeTimeout, 0)
      else if tls then Ok (OutcomeTLSFailure, 0) else Ok (OutcomeConnectionFailure, 0)
  | DoResponse status body => consumeResponse status body t
  end.

(** ** Execute *)

Section execute.
Context `{Digest}.
Context (ex : executor) (ans : answers).

Definition coded {E A} (code : string) (r : result E A) : result execution_error A :=
  match r with Ok a => Ok a | Err _ => Err (ExecutionError code) end.
Definition coded_option {A} (code : string) (o : option A) : result execution_error A :=
  match o with Some a => Ok a | None => Err (ExecutionError code) end.
Definition as_code {A} (r : result string A) : result execution_error A :=
  match r with Ok a => Ok a | Err code => Err (ExecutionError code) end.

Definition authorizeTarget (t : HTTPTarget) : result execution_error ipaddr :=
  as_code (authorizeHost (a_target_ctx ans) (a_target_lookup ans) (t_hostname t) (allowPrivateDestinations t) "target").

(** The record to execute: the same connection, at the authorized address. *)
Definition authorizeEndpoint (r : Record_) : result execution_error Record_ :=
  let c := configuration r in
  a ← as_code (authorizeHost (a_endpoint_ctx ans) (a_endpoint_lookup ans) (Address.host (address c))
                 (ex_allowPrivateEndpoints ex) "endpoint");
  executionAddress ← coded "endpoint_address" (Address.NewAddress (print_addr a) (Address.port (address c)));
  executionConfiguration ← coded "endpoint_configuration" (WithAddress c executionAddress);
  coded "endpoint_record" (NewRecord executionConfiguration (provenance r)).

Definition wantValidator (p : Profile) : string := "native/" +:+ Engine_String (engine p) +:+ "/" +:+ pversion p.

(** The gateway that the engine is started with. *)
Definition probe_artifact (executionRecord : Record_) (port : Z) : result execution_error Validated :=
  inventory ← coded "inventory" (Deduplicate [executionRecord]);
  listener ← coded "listener_policy" (NewSOCKSListener "127.0.0.1" port);
  gateway ← coded "gateway_policy" (NewGateway inventory listener);
  candidate ← coded "render" (ex_render ex gateway);
  v ← coded (contextCode (a_check_ctx ans) "validation") (Artifact.Validate (Some (ex_checker ex)) candidate);
  if bool_decide (validatorID v ≠ wantValidator (profile (Artifact.candidate v)))
  then Err (ExecutionError "native_validation_required") else Ok v.

(** [Execute] up to the native validation. *)
Definition prepare (r : Record_) (t : HTTPTarget) : result execution_error (ipaddr * Key * Validated) :=
  _ ← match CheckEndpoint (ex_profile ex) (configuration r) with Ok u => Ok u | Err e => Err (ExecutionCapability e) end;
  authorized ← authorizeTarget t;
  connection ← coded_option "endpoint" (NewConnectionRef (record_identity r));
  key ← coded_option "evidence_key" (NewKey connection (t_ref t) (ex_vantage ex) KindHTTPGet (ex_profile ex));
  executionRecord ← authorizeEndpoint r;
  port ← coded_option "listener" (a_reserve ans);
  v ← probe_artifact executionRecord port;
  Ok (authorized, key, v).

Definition check (code : string) (ok : bool) : result execution_error () :=
  if ok then Ok () else Err (ExecutionError code).
(** The private workspace and the start of the engine. *)
Definition start_engine : result execution_error () :=
  _ ← check "workspace" (a_mkdir ans);
  _ ← check "workspace" (a_chmod ans);
  _ ← check "workspace" (a_write ans);
  _ ← check "listener_release" (a_close ans);
  check "engine_start" (a_start ans).

(** The measurement once the engine runs. *)
Definition measure (t : HTTPTarget) (k : Key) : result execution_error Observation :=
  '(o, status) ← as_code (measureHTTP t (a_http ans));
  match New k (a_started ans) (a_started ans + a_duration ans) (a_duration ans) o status with
  | Ok v => Ok v
  | Err e => Err (ExecutionObservation e)
  end.

(** What [Execute] did: the artifact the engine was started with and the
    address requests are pinned to, if it got that far, and its result;
    [None] is an engine that is still awaited. *)
Record execution := { launched : option (Validated * ipaddr); outcome_ : option (result execution_error Observation) }.
Definition Execute (r : Record_) (t : HTTPTarget) : execution :=
  match prepare r t with
  | Err e => {| launched := None; outcome_ := Some (Err e) |}
  | Ok (authorized, k, v) =>
      match start_engine with
      | Err e => {| launched := None; outcome_ := Some (Err e) |}
      | Ok _ =>
          {| launched := Some (v, authorized);
             outcome_ := match waitReady (a_ready ans) with
                         | None => None
                         | Some (Err code) => Some (Err (ExecutionError code))
                         | Some (Ok _) => Some (measure t k)
                         end |}
      end
  end.
End execute.

(** ** An authorized address as an endpoint address *)

(** The characters of printed addresses. *)
Definition text_char (c : ascii) : bool := bool_decide (is_Some (hex_digit c)) || char_elem c ":.".
Definition text (s : string) : Prop := Forall (λ c, text_char c = true) (chars s).
Lemma text_app s u : text s → text u → text (s +:+ u).
Proof. unfold text. rewrite chars_app, Forall_app. done. Qed.
Lemma digit_text c : is_digit c = true → text_char c = true.
Proof. by destruct c as [[] [] [] [] [] [] [] []]. Qed.
Lemma octet_text z : 0 ≤ z < 256 → text (itoa z).
Proof. intros [_ Hc]%octet_chars. eapply Forall_impl; [exact Hc|]. apply digit_text. Qed.
Lemma print_text a : addr_zone a = "" → addr_ok a → Unmap a = a → text (print_addr a).
Proof.
  destruct a as [v|v z]; unfold addr_ok; cbn [addr_zone addr_value bit_len Unmap print_addr].
  - intros _ Hv _. unfold print_ipv4. change (2 ^ 32) with 4294967296 in Hv.
    assert (text ".") as Hd by by repeat constructor.
    repeat apply text_app; try exact Hd; apply octet_text; try (apply Z.mod_pos_bound; lia).
    split; [apply Z.div_pos; lia|apply Z.div_lt_upper_bound; lia].
  - intros -> Hv Hu. destruct (is4_in6 v) eqn:E; [done|]. rewrite bool_decide_true, sapp_nil_r by done.
    destruct (print_ipv6_chars v) as [Hc _]. eapply Forall_impl; [exact Hc|]. intros c Hh; destruct_or! Hh; [|by rewrite Hh].
    unfold text_char. by rewrite bool_decide_true.
Qed.

Lemma prefix_text c p s : text_char c = false → text s → has_prefix (String c p) s = false.
Proof.
  destruct s as [|d s]; [done|]. intros Hc Hs. inversion Hs as [|?? Hd _]; subst. simpl.
  destruct (Ascii.eqb_spec c d); [congruence|done].
Qed.
Lemma suffix_text c p s : text_char c = false → text s → reverse (chars p) = c :: tail (reverse (chars p)) →
  Address.has_suffix p s = false.
Proof.
  intros Hc Hs E. unfold Address.has_suffix. rewrite E. apply (prefix_text c (of_chars (tail (reverse (chars p))))); [done|].
  unfold text. rewrite chars_of_chars. by apply Forall_reverse.
Qed.
Lemma text_no_space s : text s → Address.outer_space s = false.
Proof.
  intros Hs. unfold Address.outer_space.
  assert (forallb (λ sp, match chars sp, reverse (chars sp) with
                         | c :: _, d :: _ => negb (text_char c) && negb (text_char d)
                         | _, _ => false end) Address.space_spellings = true) as Hsp by (vm_compute; reflexivity).
  apply not_true_iff_false. intros (sp&Hin&Hb)%existsb_exists. rewrite forallb_forall in Hsp. specialize (Hsp sp Hin).
  destruct sp as [|c sp]; [done|]. change (chars (String c sp)) with (c :: chars sp) in Hsp.
  destruct (reverse (c :: chars sp)) as [|d l] eqn:Er; [done|]. bool_to_prop.
  rewrite prefix_text, (suffix_text d) in Hb; try done. change (chars (String c sp)) with (c :: chars sp). by rewrite Er.
Qed.

Lemma NewAddress_print a p : addr_zone a = "" → addr_ok a → Unmap a = a → 1 ≤ p ≤ 65535 →
  Address.NewAddress (print_addr a) p = Ok {| Address.host := print_addr a; Address.port := p; Address.kind := Address.addr_kind a |}.
Proof.
  intros Hz Hok Hu Hp. pose proof (print_text a Hz Hok Hu) as Ht. unfold Address.NewAddress, Address.normalizeHost.
  rewrite bool_decide_false by (intros E; pose proof (print_addr_length a Hz) as Hl; rewrite E in Hl; simpl in Hl; lia).
  rewrite text_no_space, (prefix_text "["), (suffix_text "]") by done. cbn [orb]. unfold Address.normalize_unbracketed.
  rewrite parse_print_addr.
  - rewrite bool_decide_false by naive_solver. simpl. rewrite (proj2 (Z.ltb_ge p 1)), (proj2 (Z.ltb_ge 65535 p)) by lia. done.
  - done.
  - destruct a as [v|v z]; [exact Hok|]. split; [exact Hok|]. simpl in Hu. by destruct (is4_in6 v).
Qed.

(** ** Pinning *)

(** The resolver returns addresses of their family's width. *)
Definition widths_ok (lookup : string → option (list (option ipaddr))) : Prop :=
  ∀ h l x, lookup h = Some l → Some x ∈ l → addr_ok x.

Lemma authorizeHost_literal ctx lookup host allow subject a : widths_ok lookup →
  authorizeHost ctx lookup host allow subject = Ok a →
  addr_ok a ∧ Unmap a = a ∧ addr_zone a = "" ∧ permitted allow a.
Proof.
  intros Hw (l&El&Hall&(x&Hx&->)&_&Ha)%authorizeHost_pinned.
  assert (addr_ok x) as Hok.
  { unfold addresses_of in El. destruct (parse_addr host) as [b|] eqn:Ep; [|by eapply Hw]. injection El as <-.
    apply list_elem_of_singleton in Hx as [= ->]. apply parse_addr_range in Ep. by destruct b. }
  pose proof (authorized_permitted (Unmap x) allow (Unmap_ok _ Hok)) as Hp. rewrite Unmap_idem in Hp.
  split_and!; [by apply Unmap_ok|apply Unmap_idem| |by apply Hp].
  apply authorizedAddress_split in Ha as [Hd _]. rewrite Unmap_idem in Hd.
  destruct (decide (addr_zone (Unmap x) = "")); [done|]. destruct Hd. right. by left.
Qed.

Section properties.
Context `{Digest}.
Context (ex : executor) (ans : answers).

Lemma coded_Ok {E A} code (r : result E A) a : coded code r = Ok a → r = Ok a.
Proof. by destruct r; simpl; [intros [= ->]|]. Qed.
Lemma as_code_Ok {A} (r : result string A) a : as_code r = Ok a → r = Ok a.
Proof. by destruct r; simpl; [intros [= ->]|]. Qed.
Lemma coded_option_Ok {A} code (o : option A) a : coded_option code o = Ok a → o = Some a.
Proof. by destruct o; simpl; [intros [= ->]|]. Qed.

(** The same connection at another address. *)
Definition at_address (c : Configuration) (a : Address.Address) : Configuration :=
  {| protocol := protocol c; address := a; credential := credential c; transport := transport c;
     tls := tls c; method := method c; advanced := advanced c |}.
Definition literal (a : ipaddr) (p : Z) : Address.Address :=
  {| Address.host := print_addr a; Address.port := p; Address.kind := Address.addr_kind a |}.

Lemma authorizeEndpoint_Ok r r' : wf_record r → widths_ok (a_endpoint_lookup ans) → authorizeEndpoint ex ans r = Ok r' →
  ∃ a, authorizeHost (a_endpoint_ctx ans) (a_endpoint_lookup ans) (Address.host (address (configuration r)))
         (ex_allowPrivateEndpoints ex) "endpoint" = Ok a ∧
    r' = {| configuration := at_address (configuration r) (literal a (Address.port (address (configuration r))));
            provenance := provenance r |} ∧ wf_record r'.
Proof.
  intros [Wc Wn Wp Wm] Hw. unfold authorizeEndpoint. intros (a&Ha%as_code_Ok&Hr)%result_bind_Ok. exists a. split; [done|].
  destruct (authorizeHost_literal _ _ _ _ _ _ Hw Ha) as (Hok&Hu&Hz&_).
  apply result_bind_Ok in Hr as (ad&Had%coded_Ok&Hr). apply result_bind_Ok in Hr as (c&Hc%coded_Ok&Hr%coded_Ok).
  pose proof (Address.NewAddress_wf _ _ _ Had) as Wa.
  rewrite NewAddress_print in Had by (try done; apply Wc). injection Had as <-.
  destruct (WithAddress_wf _ _ _ Wc Wa Hc) as [Wc' _]. unfold WithAddress in Hc. destruct (_ || _) in Hc; [done|].
  injection Hc as <-. split; [|by eapply NewRecord_wf; [exact Wc'|exact Wp|exact Hr]].
  unfold NewRecord in Hr. repeat case_match; try done. injection Hr as <-. by rewrite Wm.
Qed.

Lemma Deduplicate_one r : wf_record r → Deduplicate [r] = Ok [r].
Proof. intros Hr%wf_record_valid. unfold Deduplicate. cbn [forallb]. rewrite Hr. reflexivity. Qed.

Lemma probe_artifact_Ok r port v : wf_record r → probe_artifact ex ans r port = Ok v →
  ∃ l g, NewSOCKSListener "127.0.0.1" port = Ok l ∧ NewGateway [r] l = Ok g ∧ ex_render ex g = Ok (candidate v) ∧
    ex_checker ex (candidate v) = inl (wantValidator (profile (candidate v))).
Proof.
  intros Hr. unfold probe_artifact. rewrite Deduplicate_one by done. cbn [coded mbind result_bind].
  intros (l&Hl%coded_Ok&(g&Hg%coded_Ok&(c&Hc%coded_Ok&(v'&Hv%coded_Ok&Hi)%result_bind_Ok)%result_bind_Ok)%result_bind_Ok)%result_bind_Ok.
  case_bool_decide as E; [done|]. injection Hi as ->. unfold Artifact.Validate in Hv.
  destruct (ex_checker ex c) as [evidence|] eqn:Ec; [|done]. destruct (negb _); [done|]. injection Hv as <-. simpl in *.
  exists l, g. split_and!; try done. rewrite Ec. by f_equal.
Qed.
Lemma prepare_Ok r t a k v : prepare ex ans r t = Ok (a, k, v) →
  CheckEndpoint (ex_profile ex) (configuration r) = Ok () ∧
  authorizeHost (a_target_ctx ans) (a_target_lookup ans) (t_hostname t) (allowPrivateDestinations t) "target" = Ok a ∧
  (∃ c, NewConnectionRef (record_identity r) = Some c ∧ NewKey c (t_ref t) (ex_vantage ex) KindHTTPGet (ex_profile ex) = Some k) ∧
  ∃ r' port, authorizeEndpoint ex ans r = Ok r' ∧ a_reserve ans = Some port ∧ probe_artifact ex ans r' port = Ok v.
Proof.
  unfold prepare, authorizeTarget. destruct (CheckEndpoint _ _) as [[]|]; [|done]. cbn [mbind result_bind].
  intros (b&Ha%as_code_Ok&(c&Hc%coded_option_Ok&(k'&Hk%coded_option_Ok&(r'&Hr&(port&Hp%coded_option_Ok&
    (v'&Hv&[= -> -> ->])%result_bind_Ok)%result_bind_Ok)%result_bind_Ok)%result_bind_Ok)%result_bind_Ok)%result_bind_Ok.
  eauto 10.
Qed.
Lemma Execute_launched r t v a : launched (Execute ex ans r t) = Some (v, a) →
  ∃ k, prepare ex ans r t = Ok (a, k, v).
Proof.
  unfold Execute. destruct (prepare ex ans r t) as [[[b k] v']|]; [|done]. destruct (start_engine ans); [|done].
  simpl. intros [= -> ->]. by exists k.
Qed.

(** C35: An engine is only ever started on the record under test with its address replaced by one literal address that
    is permitted for endpoints and is what the endpoint's host resolved to, behind a loopback listener, after the
    capability check, on an artifact the native engine validated; and every connection of the request goes to one
    literal address permitted for the target, or is refused. *)
Theorem probe_pinned r t v a : wf_record r → widths_ok (a_endpoint_lookup ans) → widths_ok (a_target_lookup ans) →
  launched (Execute ex ans r t) = Some (v, a) →
  (∃ e port l g, permitted (ex_allowPrivateEndpoints ex) e ∧
    (∃ ips x, addresses_of (a_endpoint_lookup ans) (Address.host (address (configuration r))) = Some ips ∧
      Some x ∈ ips ∧ e = Unmap x) ∧
    parse_addr (print_addr e) = Some e ∧
    NewSOCKSListener "127.0.0.1" port = Ok l ∧
    NewGateway [{| configuration := at_address (configuration r) (literal e (Address.port (address (configuration r))));
                   provenance := provenance r |}] l = Ok g ∧
    ex_render ex g = Ok (candidate v) ∧ ex_checker ex (candidate v) = inl (wantValidator (profile (candidate v)))) ∧
  CheckEndpoint (ex_profile ex) (configuration r) = Ok () ∧
  permitted (allowPrivateDestinations t) a ∧ parse_addr (print_addr a) = Some a ∧
  (∀ split d, dialContext t a split = Ok d → d = JoinHostPort (print_addr a) (wantedPort t)).
Proof.
  intros Wr We Wt (k&(Hc&Ht&_&r'&port&He&_&Hv)%prepare_Ok)%Execute_launched.
  destruct (authorizeEndpoint_Ok _ _ Wr We He) as (e&Hh&->&Wr'). destruct (probe_artifact_Ok _ _ _ Wr' Hv) as (l&g&Hl&Hg&Hr&Hn).
  destruct (authorizeHost_literal _ _ _ _ _ _ We Hh) as (Ok1&U1&Z1&P1).
  destruct (authorizeHost_literal _ _ _ _ _ _ Wt Ht) as (Ok2&U2&Z2&P2).
  assert (∀ b, addr_ok b → Unmap b = b → addr_zone b = "" → parse_addr (print_addr b) = Some b) as Hpp.
  { intros b Hok Hu Hz. apply parse_print_addr; [done|]. destruct b as [x|x z]; [exact Hok|]. split; [exact Hok|].
    simpl in Hu. by destruct (is4_in6 x). }
  split_and!; try done; [| |].
  - exists e, port, l, g. split_and!; try done; [|by apply Hpp].
    apply authorizeHost_pinned in Hh as (ips&Hi&_&(x&Hx&->)&_). by exists ips, x.
  - by apply Hpp.
  - intros [[h p]|] d; simpl; [|done]. destruct (_ || _); [done|]. by intros [= <-].
Qed.

(** An observation is about the record under test, not the pinned one, and says what happened: it is a success
    exactly if the response had the expected status and its whole body fit the limit. *)
Theorem observation_truthful r t o : wf_record r → outcome_ (Execute ex ans r t) = Some (Ok o) →
  key o = {| connection := {| cid := id (record_identity r); crev := revision (record_identity r) |}; target := t_ref t;
             vantage := ex_vantage ex; kind := KindHTTPGet; kprofile := ex_profile ex |} ∧
  startedAt o = a_started ans ∧ duration o = a_duration ans ∧
  (Successful o = true ↔ ∃ n, a_http ans = DoResponse (expectedStatus t) (BodyRead n) ∧ n ≤ maxResponseBytes t).
Proof.
  intros Wr. unfold Execute. destruct (prepare ex ans r t) as [[[b k] v]|] eqn:Ep; [|done].
  destruct (start_engine ans); [|done]. simpl. destruct (waitReady _) as [[[]|]|]; try done. intros [= Hm].
  apply prepare_Ok in Ep as (_&_&(c&Hc&Hk)&_). unfold measure in Hm.
  apply result_bind_Ok in Hm as ([oc st]&Ho%as_code_Ok&Hm). destruct (New _ _ _ _ _ _) as [o'|] eqn:En; [|done]. injection Hm as ->.
  unfold New in En. ok_inv. unfold NewKey in Hk. destruct (valid_key _) eqn:Ev in Hk; [|done]. injection Hk as <-.
  unfold NewConnectionRef in Hc. destruct (_ || _) in Hc; [done|]. injection Hc as <-. simpl. split_and!; try done.
  unfold Successful. simpl. rewrite bool_decide_eq_true. revert Ho. unfold measureHTTP, consumeResponse.
  destruct (a_http ans) as [code|[s|] [] [] [] []|s [n|[] []]]; simpl; intros Ho; try done.
  all: try (injection Ho as <- <-; split; [done|by intros (?&?&?)]).
  destruct (maxResponseBytes t <? _) eqn:El in Ho; [injection Ho as <- <-; split; [done|intros (m&[= -> ->]&?); bool_to_prop; lia]|].
  destruct (negb _) eqn:Es in Ho; injection Ho as <- <-; bool_to_prop.
  - split; [done|]. by intros (m&[= -> ->]&?).
  - subst s. split; [|done]. intros _. exists n. split; [done|lia].
Qed.
End properties.

(** ** A concrete probe *)

Module ExecutorSample.
#[local] Existing Instance toy_digest.
Definition record : Record_ := InventorySample.rec Sample.uuid1 "a" ["x"].
Definition lookup (host : string) : option (list (option ipaddr)) := Some [Some (IPv4 0x08080808)].
Definition target_ : HTTPTarget :=
  {| t_id := "probe"; t_revision := Some "r";
     requestURL := {| Url.Scheme := "https"; Url.Opaque := ""; Url.User := None; Url.Host := "example.org"; Url.Path := "/"; Url.RawPath := "";
                      Url.RawQuery := ""; Url.ForceQuery := false; Url.Fragment := "" |};
     expectedStatus := 204; t_timeout := 5 * second; maxResponseBytes := 4096; allowPrivateDestinations := false |}.
Definition ex : executor :=
  {| ex_profile := Mihomo11931; ex_render := Mihomo.Render (λ _, Some "proxies"); ex_checker := λ _, inl "native/mihomo/1.19.31";
     ex_vantage := "here"; ex_allowPrivateEndpoints := false |}.
Definition ans : answers :=
  {| a_target_ctx := ContextLive; a_target_lookup := lookup; a_endpoint_ctx := ContextLive; a_endpoint_lookup := lookup;
     a_reserve := Some 20000; a_check_ctx := ContextLive; a_mkdir := true; a_chmod := true; a_write := true; a_close := true;
     a_start := true; a_ready := [(false, ReadyTick); (true, ReadyTick)]; a_http := DoResponse 204 (BodyRead 0);
     a_started := unix_epoch + second; a_duration := 5 |}.
Lemma probed_wf : wf_record record.
Proof. apply InventorySample.rec_wf; [by left|apply InventorySample.prov_wf; set_solver]. Qed.
Lemma lookup_ok : widths_ok lookup.
Proof. intros h l x [= <-] Hx. apply list_elem_of_singleton in Hx as [= ->]. unfold addr_ok. simpl. lia. Qed.
Definition artifact_ : Validated :=
  match launched (Execute ex ans record target_) with Some (v, _) => v | None => ArtifactSample.validated end.
Lemma launches : launched (Execute ex ans record target_) = Some (artifact_, IPv4 0x08080808).
Proof. vm_compute. reflexivity. Qed.
Lemma observes : ∃ o, outcome_ (Execute ex ans record target_) = Some (Ok o).
Proof. eexists. vm_compute. reflexivity. Qed.
End ExecutorSample.

Lemma probe_pinned_witness : permitted false (IPv4 0x08080808) ∧
  dialContext ExecutorSample.target_ (IPv4 0x08080808) (Some ("example.org.", "443")) = Ok "8.8.8.8:443" ∧
  dialContext ExecutorSample.target_ (IPv4 0x08080808) (Some ("internal", "443")) = Err "target_mismatch".
Proof.
  destruct (@probe_pinned toy_digest ExecutorSample.ex ExecutorSample.ans ExecutorSample.record ExecutorSample.target_ _ _
    ExecutorSample.probed_wf ExecutorSample.lookup_ok ExecutorSample.lookup_ok ExecutorSample.launches) as (_&_&Hp&_).
  split_and!; [exact Hp|vm_compute; reflexivity|vm_compute; reflexivity].
Defined.
Lemma observation_truthful_witness : ∃ o,
  outcome_ (@Execute toy_digest ExecutorSample.ex ExecutorSample.ans ExecutorSample.record ExecutorSample.target_) = Some (Ok o) ∧
  Successful o = true.
Proof.
  destruct ExecutorSample.observes as [o Ho]. exists o. split; [exact Ho|].
  destruct (@observation_truthful toy_digest ExecutorSample.ex ExecutorSample.ans ExecutorSample.record ExecutorSample.target_ o
    ExecutorSample.probed_wf Ho) as (_&_&_&Hs). apply Hs. exists 0. split; [reflexivity|vm_compute; discriminate].
Defined.
