(* ===== verification/Scheduling.v ===== *)
(** * Probe scheduling and shared demand (internal/operator/pipeline.go)

    The scheduling state the gateways of a pool share: per probe context a
    round window, an exploration cursor, the bounded cohort of maintained
    endpoints and every gateway's demand.  Each method of the source holds
    the pipeline's mutex, so a method is one atomic function of the state;
    [resolveUncertain] reads the output between two critical sections and is
    two functions. *)
From S2P Require Import Prelude Order Bytes Encoding Endpoint Configuration Identity Provenance Inventory Artifact Observation Float64 Selection Engine.
From Stdlib Require Import Ascii.
From Stdlib Require String.
Open Scope Z_scope.

Definition maxProbeBatch : Z := 64.
Definition namedProbeBatch : Z := 30.
Definition exploreMin : Z := 2.
Definition probeStateTTL : Z := 24 * hour.
Definition minProbeCadence : Z := 30 * second.
Definition RequeueJitterPermille : Z := 100.

(** ** Contexts, demand and state *)

Record probeContextKey := { kpool : string; kname : string; kengine : Profile; ktarget : string; krevision : string }.
#[global] Instance probeContextKey_eq_dec : EqDecision probeContextKey.
Proof. solve_decision. Defined.
#[global] Instance probeContextKey_countable : Countable probeContextKey.
Proof.
  apply (inj_countable'
    (λ k, (kpool k, kname k, (Engine_code (engine (kengine k)), pversion (kengine k), rendererSchema (kengine k), mediaType (kengine k)),
           ktarget k, krevision k))
    (λ '(p, n, (e, v, s, m), t, r),
       {| kpool := p; kname := n; ktarget := t; krevision := r;
          kengine := {| engine := if e =? 1 then EngineMihomo else if e =? 2 then EngineSingBox else EngineUnknown;
                        pversion := v; rendererSchema := s; mediaType := m |} |})).
  by intros [? ? [[] ? ? ?] ? ?].
Defined.
Definition newProbeContextKey (pool name : string) (p : Profile) (target revision : string) : probeContextKey :=
  {| kpool := pool; kname := if bool_decide (name = "") then "default" else name; kengine := p; ktarget := target; krevision := revision |}.

(** [uncertain = None] is the nil slice. *)
Record probeDemand := {
  dselected : list string; dseen : Z; pending : bool; uncertain : option (list string); intended : string; attempt : Z;
}.
Definition no_demand : probeDemand :=
  {| dselected := []; dseen := 0; pending := false; uncertain := None; intended := ""; attempt := 0 |}.
Record probeState := {
  puntil : Z; pround : Z; cursor : nat; cohort : list string; rejected : gset string; demand : gmap string probeDemand;
  overloaded : bool; attempts : Z; pseen : Z;
}.
Definition no_state : probeState :=
  {| puntil := 0; pround := 0; cursor := 0; cohort := []; rejected := ∅; demand := ∅; overloaded := false; attempts := 0; pseen := 0 |}.
Abbreviation probes := (gmap probeContextKey probeState).

Definition with_cohort (c : list string) (r : gset string) (d : gmap string probeDemand) (s : probeState) : probeState :=
  {| puntil := puntil s; pround := pround s; cursor := cursor s; cohort := c; rejected := r; demand := d;
     overloaded := overloaded s; attempts := attempts s; pseen := pseen s |}.
Definition with_demand (d : gmap string probeDemand) (s : probeState) : probeState := with_cohort (cohort s) (rejected s) d s.
Definition claims (d : probeDemand) (id : string) : bool :=
  bool_decide (id ∈ dselected d) || bool_decide (id ∈ default [] (uncertain d)).

(** ** Policy arithmetic *)

Definition evidencePolicy : Policy := DefaultPolicy StrategyAdaptive.
Definition probeCadence (p : Policy) : Z :=
  let cadence := freshness p in
  let cadence := if 1 <? minSamples p then
      let spread := wrap64 (minSamples p * (1000 + RequeueJitterPermille)) in
      Z.min cadence (Z.quot (wrap64 (evidenceWindow p * 1000)) spread)
    else cadence in
  Z.max cadence minProbeCadence.
Definition explorationBudget (p : Policy) : Z := Z.quot (freshness p) 2.
Definition EvidenceCadence : Z := probeCadence evidencePolicy.
Definition roundBudget (k : probeContextKey) : Z := if bool_decide (kname k = "default") then maxProbeBatch else namedProbeBatch.
Definition cohortCapacity (k : probeContextKey) (p : Policy) : Z := roundBudget k - exploreMin * minSamples p.
Definition maintainableTopN (k : probeContextKey) (requested : Z) : Z := Z.max 1 (Z.min requested (cohortCapacity k evidencePolicy)).

(** ** The cohort *)

Definition protected (s : probeState) (id : string) : bool :=
  if bool_decide (id ∈ rejected s) then false
  else existsb (λ gd, claims gd.2 id) (map_to_list (demand s)).

Definition without (id : string) (ids : list string) : list string := filter (λ v, v ≠ id) ids.
Definition forget_demand (id : string) (d : probeDemand) : probeDemand :=
  {| dselected := without id (dselected d); dseen := dseen d; pending := pending d; uncertain := without id <$> uncertain d;
     intended := intended d; attempt := attempt d |}.
Definition forget (s : probeState) (id : string) : probeState := with_demand (forget_demand id <$> demand s) s.

(** [slices.IndexFunc] and [slices.Delete] of the first member with a
    property: the member, and the list without it. *)
Fixpoint take_first (f : string → bool) (l : list string) : option (string * list string) :=
  match l with
  | [] => None
  | x :: l => if f x then Some (x, l) else (λ '(y, l'), (y, x :: l')) <$> take_first f l
  end.
Definition is_rejected (s : probeState) (m : string) : bool := bool_decide (m ∈ rejected s).
Definition find_victim (s : probeState) (selected : bool) : option (string * list string) :=
  match take_first (is_rejected s) (cohort s) with
  | Some v => Some v
  | None => if selected then take_first (λ m, negb (protected s m)) (cohort s) else None
  end.
Definition admit_endpoint (s : probeState) (id : string) (capacity : Z) (selected : bool) : probeState :=
  if bool_decide (id ∈ cohort s) then s
  else if capacity <=? Z.of_nat (length (cohort s)) then
    match find_victim s selected with
    | None => s
    | Some (evicted, rest) =>
        let s := if is_rejected s evicted then forget s evicted else s in
        with_cohort (rest ++ [id]) (rejected s ∖ {[evicted]}) (demand s) s
    end
  else with_cohort (cohort s ++ [id]) (rejected s) (demand s) s.
Definition admit_all (s : probeState) (ids : list string) (capacity : Z) (selected : bool) : probeState :=
  foldl (λ s id, admit_endpoint s id capacity selected) s ids.

(** ** Rounds *)

Section rounds.
Context `{Digest}.

Definition compatible (p : Profile) (r : Record_) : bool := is_ok (CheckEndpoint p (configuration r)).
Definition compatible_map (p : Profile) (rs : list Record_) : gmap string Record_ :=
  foldl (λ m r, if compatible p r then <[record_id r := r]> m else m) ∅ rs.

(** The loop of [nextProbeBatch] from position [start]. *)
Fixpoint scan_batch (fuel : nat) (rs : list Record_) (p : Profile) (start : nat) (limit : Z) (skip : gset string)
    (scanned : nat) (jobs : list Record_) : list Record_ * nat :=
  match fuel with
  | O => (jobs, scanned)
  | S fuel =>
      if (scanned <? length rs)%nat && (Z.of_nat (length jobs) <? limit) then
        match rs !! ((start + scanned) `mod` length rs)%nat with
        | None => (jobs, scanned)
        | Some r =>
            let jobs := if negb (bool_decide (record_id r ∈ skip)) && compatible p r then jobs ++ [r] else jobs in
            scan_batch fuel rs p start limit skip (S scanned) jobs
        end
      else (jobs, scanned)
  end.
Definition nextProbeBatch (rs : list Record_) (p : Profile) (start : nat) (limit : Z) (skip : gset string) : list Record_ * nat :=
  let start := if (length rs <=? start)%nat then 0%nat else start in
  let '(jobs, scanned) := scan_batch (length rs) rs p start limit skip 0 [] in
  (jobs, if (0 <? length rs)%nat then ((start + scanned) `mod` length rs)%nat else 0%nat).

Record probeRound := { rkey : probeContextKey; rid : Z; explore : list Record_; maintain : list Record_; rcursor : nat }.

(** The cohort pass of [budgetedJobs]: the kept members, the unprotected jobs
    and the demanded ones. *)
Definition keep_members (s : probeState) (m : gmap string Record_) : list string := filter (λ id, is_Some (m !! id)) (cohort s).
Definition jobs_of (m : gmap string Record_) (ids : list string) : list Record_ := omap (m !!.) ids.
Definition maintain_jobs (s : probeState) (m : gmap string Record_) : list Record_ :=
  jobs_of m (filter (λ id, protected s id = false) (keep_members s m)) ++ jobs_of m (filter (λ id, protected s id = true) (keep_members s m)).

Definition expireProbeStatesLocked (ps : probes) (now : Z) : probes :=
  filter (λ ks, time_sub now (pseen ks.2) ≤ probeStateTTL) ps.

Definition budgetedJobs (ps : probes) (k : probeContextKey) (rs : list Record_) (p : Profile) (now refresh : Z) : option probeRound * probes :=
  let policy := evidencePolicy in
  let s0 := default no_state (ps !! k) in
  if now <? puntil s0 then
    let s := {| puntil := puntil s0; pround := pround s0; cursor := cursor s0; cohort := cohort s0; rejected := rejected s0;
                demand := demand s0; overloaded := overloaded s0; attempts := attempts s0; pseen := now |} in
    (None, expireProbeStatesLocked (<[k := s]> ps) now)
  else
    let window := if 0 <? refresh then Z.min (probeCadence policy) refresh else probeCadence policy in
    let m := compatible_map p rs in
    let maintain := maintain_jobs s0 m in
    let kept := keep_members s0 m in
    let limit := Z.max exploreMin (Z.quot (roundBudget k - Z.of_nat (length maintain)) (minSamples policy)) in
    let '(batch, next) := nextProbeBatch rs p (cursor s0) limit (list_to_set kept) in
    let id := (pround s0 + 1) `mod` 2 ^ 64 in
    let s := {| puntil := now + window; pround := id; cursor := next; cohort := kept; rejected := rejected s0;
                demand := demand s0; overloaded := overloaded s0; attempts := attempts s0; pseen := now |} in
    (Some {| rkey := k; rid := id; explore := concat (replicate (Z.to_nat (minSamples policy)) batch); maintain := maintain; rcursor := cursor s0 |},
     expireProbeStatesLocked (<[k := s]> ps) now).

Definition abandonRound (ps : probes) (r : probeRound) : probes :=
  match ps !! rkey r with
  | Some s => if pround s =? rid r then
      <[rkey r := {| puntil := 0; pround := pround s; cursor := rcursor r; cohort := cohort s; rejected := rejected s; demand := demand s;
                     overloaded := overloaded s; attempts := attempts s; pseen := pseen s |}]> ps
      else ps
  | None => ps
  end.
Definition completeRound (ps : probes) (r : probeRound) (over : bool) : probes :=
  match ps !! rkey r with
  | Some s => if pround s =? rid r then
      <[rkey r := {| puntil := puntil s; pround := pround s; cursor := cursor s; cohort := cohort s; rejected := rejected s; demand := demand s;
                     overloaded := over; attempts := attempts s; pseen := pseen s |}]> ps
      else ps
  | None => ps
  end.
Definition roundOverloaded (ps : probes) (k : probeContextKey) : bool :=
  match ps !! k with Some s => overloaded s | None => false end.
(** Results are paired with the jobs at their indices; only successful
    observations are admitted. *)
Definition recordProbeResults (ps : probes) (k : probeContextKey) (jobs : list Record_) (successes : list bool) : probes :=
  match ps !! k with
  | None => ps
  | Some s => <[k := admit_all s (record_id <$> (fst <$> filter (λ jr, jr.2 = true) (zip jobs successes)))
                               (cohortCapacity k evidencePolicy) false]> ps
  end.
End rounds.

(** ** Demand *)

Definition touchDemand (ps : probes) (k : probeContextKey) (gateway : string) (now : Z) : probes :=
  let ps := map_imap (λ k' s, Some (if bool_decide (k' = k) then s else with_demand (delete gateway (demand s)) s)) ps in
  match ps !! k with
  | None => ps
  | Some s =>
      let d := match demand s !! gateway with
               | Some d => if pending d then demand s else
                   <[gateway := {| dselected := dselected d; dseen := now; pending := pending d; uncertain := uncertain d;
                                   intended := intended d; attempt := attempt d |}]> (demand s)
               | None => demand s
               end in
      <[k := with_demand (filter (λ gd, pending gd.2 = true ∨ time_sub now (dseen gd.2) ≤ evidenceWindow evidencePolicy) d) s]> ps
  end.

Definition rejecting (r : Reason) : bool := bool_decide (r = ReasonFailureStreak) || bool_decide (r = ReasonUnreliable).
Definition observe_state (s : probeState) (d : Decision) : probeState :=
  with_cohort (cohort s) (list_to_set (endpointID <$> filter (λ x, endpointID x ∈ cohort s ∧ rejecting (reason x) = true) (explanations d)))
    (demand s) s.
Definition observeVerdicts (ps : probes) (k : probeContextKey) (d : Decision) : probes :=
  match ps !! k with Some s => <[k := observe_state s d]> ps | None => ps end.

Record selectionReservation := { vkey : probeContextKey; vgateway : string; vprevious : probeDemand; hadPrevious : bool }.
Inductive reserve_error := errProbeCapacity | errPublicationUnresolved.

(** What one gateway's demand needs when [gateway] reserves. *)
Definition needed_by (s : probeState) (gateway : string) (gd : string * probeDemand) : list string :=
  filter (λ id, (gd.1 ≠ gateway ∧ pending gd.2 = true) ∨ (id ∈ cohort s ∧ id ∉ rejected s)) (dselected gd.2) ++
  filter (λ id, id ∈ cohort s ∧ id ∉ rejected s) (default [] (uncertain gd.2)).
Definition needed (s : probeState) (gateway : string) (ids : list string) : gset string :=
  list_to_set ((map_to_list (demand s) ≫= needed_by s gateway) ++ ids).

Section selection.
Context `{Digest}.

Definition decision_ids (d : Decision) : list string := record_id <$> selected d.
Definition reserveSelection (ps : probes) (k : probeContextKey) (gateway : string) (d : Decision) (now : Z)
    : result reserve_error selectionReservation * probes :=
  match ps !! k with
  | None => (Err errProbeCapacity, ps)
  | Some s0 =>
      let s := observe_state s0 d in
      let ps := <[k := s]> ps in
      let ids := decision_ids d in
      let own := demand s !! gateway in
      if bool_decide (is_Some (own ≫= uncertain)) then (Err errPublicationUnresolved, ps)
      else if cohortCapacity k evidencePolicy <? Z.of_nat (size (needed s gateway ids)) then (Err errProbeCapacity, ps)
      else
        let previous := default no_demand own in
        let held := {| dselected := ids; dseen := now; pending := true; uncertain := uncertain previous;
                       intended := intended previous; attempt := attempt previous |} in
        (Ok {| vkey := k; vgateway := gateway; vprevious := previous; hadPrevious := bool_decide (is_Some own) |},
         <[k := with_demand (<[gateway := held]> (demand s)) s]> ps)
  end.

(** The membership test [maintained] returns. *)
Definition maintained (ps : probes) (k : probeContextKey) (r : Record_) : bool :=
  match ps !! k with Some s => bool_decide (record_id r ∈ cohort s) | None => false end.
End selection.

(** The pending demand of a reservation, when it is still there. *)
Definition pending_of (ps : probes) (v : selectionReservation) : option (probeState * probeDemand) :=
  s ← ps !! vkey v; d ← demand s !! vgateway v; if pending d then Some (s, d) else None.

Definition commitSelection (ps : probes) (v : selectionReservation) : probes :=
  match pending_of ps v with
  | None => ps
  | Some (s, d) =>
      let d' := {| dselected := dselected d; dseen := dseen d; pending := false; uncertain := None; intended := ""; attempt := attempt d |} in
      let s := with_demand (<[vgateway v := d']> (demand s)) s in
      <[vkey v := admit_all s (dselected d) (cohortCapacity (vkey v) evidencePolicy) true]> ps
  end.
Definition holdUncertain (ps : probes) (v : selectionReservation) (receipt : string) (now : Z) : probes :=
  match pending_of ps v with
  | None => ps
  | Some (s, d) =>
      let n := (attempts s + 1) `mod` 2 ^ 64 in
      let held := {| dselected := dselected (vprevious v); dseen := now; pending := false; uncertain := Some (dselected d);
                     intended := receipt; attempt := n |} in
      let s := {| puntil := puntil s; pround := pround s; cursor := cursor s; cohort := cohort s; rejected := rejected s;
                  demand := <[vgateway v := held]> (demand s); overloaded := overloaded s; attempts := n; pseen := pseen s |} in
      <[vkey v := admit_all s (dselected d) (cohortCapacity (vkey v) evidencePolicy) true]> ps
  end.
Definition releaseSelection (ps : probes) (v : selectionReservation) : probes :=
  match pending_of ps v with
  | None => ps
  | Some (s, _) =>
      <[vkey v := with_demand (if hadPrevious v then <[vgateway v := vprevious v]> (demand s) else delete (vgateway v) (demand s)) s]> ps
  end.

(** The two critical sections of [resolveUncertain], around the read of the
    output. *)
Definition unresolved (ps : probes) (k : probeContextKey) (gateway : string) : option (probeState * probeDemand * list string) :=
  s ← ps !! k; d ← demand s !! gateway; u ← uncertain d; if pending d then None else Some (s, d, u).
Definition resolve_begin (ps : probes) (k : probeContextKey) (gateway : string) : option (string * Z) :=
  (λ '(_, d, _), (intended d, attempt d)) <$> unresolved ps k gateway.
Definition resolve_end (ps : probes) (k : probeContextKey) (gateway : string) (a : Z) (written : bool) : probes :=
  match unresolved ps k gateway with
  | None => ps
  | Some (s, d, u) =>
      if negb (attempt d =? a) then ps else
      let d' := {| dselected := if written then u else dselected d; dseen := dseen d; pending := pending d; uncertain := None;
                   intended := ""; attempt := attempt d |} in
      <[k := with_demand (<[gateway := d']> (demand s)) s]> ps
  end.
(** [None] is an output that cannot be read. *)
Definition resolveUncertain (ps : probes) (k : probeContextKey) (gateway : string) (published : string → option bool) : probes :=
  match resolve_begin ps k gateway with
  | None => ps
  | Some (want, a) => match published want with None => ps | Some written => resolve_end ps k gateway a written end
  end.

(** ** The cohort invariant *)

(** The members are distinct and fit the capacity. *)
Record cohort_ok (capacity : Z) (s : probeState) : Prop := {
  cohort_nodup : NoDup (cohort s);
  cohort_fits : Z.of_nat (length (cohort s)) ≤ capacity;
}.

Lemma take_first_Some f l x l' : take_first f l = Some (x, l') → f x = true ∧ l ≡ₚ x :: l'.
Proof.
  revert l'. induction l as [|y l IH]; intros l'; simpl; [done|]. destruct (f y) eqn:E; [by intros [= <- <-]|].
  destruct (take_first f l) as [[z l0]|]; [|done]. simpl. intros [= <- <-]. destruct (IH l0 eq_refl) as [Hx Hp].
  split; [done|]. rewrite Hp. constructor.
Qed.
Lemma take_first_None f l x : take_first f l = None → x ∈ l → f x = false.
Proof.
  induction l as [|y l IH]; simpl; [by intros _ ?%not_elem_of_nil|]. destruct (f y) eqn:E; [done|].
  destruct (take_first f l) as [[z l0]|]; [done|]. intros _ [-> |Hx]%elem_of_cons; auto.
Qed.

Lemma protected_spec s id : protected s id = true ↔ id ∉ rejected s ∧ ∃ g d, demand s !! g = Some d ∧ claims d id = true.
Proof.
  unfold protected. case_bool_decide as Hr; [naive_solver|]. rewrite existsb_exists. split.
  - intros ([g d]&Hin%list_elem_of_In&Hc). apply elem_of_map_to_list in Hin. eauto.
  - intros [_ (g&d&Hd&Hc)]. exists (g, d). split; [apply list_elem_of_In, elem_of_map_to_list; done|done].
Qed.
Lemma claims_spec d id : claims d id = true ↔ id ∈ dselected d ∨ id ∈ default [] (uncertain d).
Proof. unfold claims. rewrite orb_true_iff, !bool_decide_eq_true. done. Qed.
Lemma claims_forget x d id : claims (forget_demand x d) id = true ↔ claims d id = true ∧ id ≠ x.
Proof.
  rewrite !claims_spec. simpl. unfold without. destruct (uncertain d) as [u|]; simpl; rewrite ?list_elem_of_filter; set_solver.
Qed.

(** A demand after [forget] claims what it claimed, the forgotten endpoint
    apart. *)
Lemma forget_claims s x id : id ≠ x → (∃ g d, demand (forget s x) !! g = Some d ∧ claims d id = true) ↔
  ∃ g d, demand s !! g = Some d ∧ claims d id = true.
Proof.
  intros Hne. unfold forget, with_demand, with_cohort. simpl. split.
  - intros (g&d&Hd&Hc). rewrite lookup_fmap in Hd. destruct (demand s !! g) as [d0|] eqn:E; [|done]. injection Hd as <-.
    exists g, d0. split; [done|]. by apply claims_forget in Hc as [? _].
  - intros (g&d&Hd&Hc). exists g, (forget_demand x d). rewrite lookup_fmap, Hd. split; [done|]. by apply claims_forget.
Qed.

Section admission.
Context (capacity : Z).

Lemma find_victim_spec s sel x rest : NoDup (cohort s) → find_victim s sel = Some (x, rest) →
  cohort s ≡ₚ x :: rest ∧ protected s x = false ∧ x ∉ rest.
Proof.
  intros Hn Hv. assert (cohort s ≡ₚ x :: rest ∧ protected s x = false) as [Hp Hx].
  { unfold find_victim in Hv. destruct (take_first (is_rejected s) (cohort s)) as [[y l]|] eqn:E.
    - injection Hv as -> ->. apply take_first_Some in E as [Hr Hp]. split; [done|]. unfold is_rejected in Hr. bool_to_prop.
      unfold protected. by rewrite bool_decide_true.
    - destruct sel; [|done]. apply take_first_Some in Hv as [Hr Hp]. by bool_to_prop. }
  split_and!; [done|done|]. rewrite Hp in Hn. by apply NoDup_cons in Hn as [? _].
Qed.

(** The shape of an admission. *)
Inductive admitted_as (s : probeState) (id : string) : probeState → Prop :=
| already : id ∈ cohort s → admitted_as s id s
| refused : id ∉ cohort s → admitted_as s id s
| appended : id ∉ cohort s → Z.of_nat (length (cohort s)) < capacity →
    admitted_as s id (with_cohort (cohort s ++ [id]) (rejected s) (demand s) s)
| displaced x rest s' : id ∉ cohort s → cohort s ≡ₚ x :: rest → protected s x = false → x ∉ rest →
    s' = (if is_rejected s x then forget s x else s) →
    admitted_as s id (with_cohort (rest ++ [id]) (rejected s ∖ {[x]}) (demand s') s).

Lemma admit_as s id sel : NoDup (cohort s) → admitted_as s id (admit_endpoint s id capacity sel).
Proof.
  intros Hn. unfold admit_endpoint. case_bool_decide; [by constructor|]. destruct (capacity <=? _) eqn:E; bool_to_prop; [|by constructor].
  destruct (find_victim s sel) as [[x rest]|] eqn:Ev; [|by constructor].
  apply find_victim_spec in Ev as (?&?&?); [|done].
  replace (rejected _ ∖ {[x]}) with (rejected s ∖ {[x]}) by (by destruct (is_rejected s x)).
  match goal with |- admitted_as _ _ (with_cohort _ _ _ ?t) => replace (with_cohort (rest ++ [id]) (rejected s ∖ {[x]}) (demand t) t)
    with (with_cohort (rest ++ [id]) (rejected s ∖ {[x]}) (demand t) s) by (by destruct (is_rejected s x)) end.
  by eapply displaced.
Qed.

Lemma admit_cohort_ok s id sel : cohort_ok capacity s → cohort_ok capacity (admit_endpoint s id capacity sel).
Proof.
  intros [Hn Hc]. destruct (admit_as s id sel Hn) as [| |Hni Hlt|x rest s' Hni Hp _ _ _]; [by split..| |]; simpl.
  - split; simpl; [apply NoDup_app; split_and!; [done|set_solver|apply NoDup_singleton]|rewrite length_app; simpl; lia].
  - rewrite Hp in Hn, Hc. apply NoDup_cons in Hn as [? Hn]. assert (id ∉ rest) by (rewrite Hp in Hni; set_solver).
    split; simpl; [apply NoDup_app; split_and!; [done|set_solver|apply NoDup_singleton]|rewrite length_app; simpl in *; lia].
Qed.

(** [admit_endpoint] displaces only endpoints nobody may still rely on. *)
Lemma admit_protected s id sel y : NoDup (cohort s) → protected s y = true → protected (admit_endpoint s id capacity sel) y = true.
Proof.
  intros Hn Hp. destruct (admit_as s id sel Hn) as [| | |x rest s' _ _ Hx _ ->]; [done..|].
  assert (y ≠ x) as Hne by congruence. apply protected_spec in Hp as [Hr Hd]. apply protected_spec. simpl.
  split; [set_solver|]. destruct (is_rejected s x); [|done]. by apply forget_claims.
Qed.
Lemma admit_keeps s id sel m : NoDup (cohort s) → m ∈ cohort s → protected s m = true → m ∈ cohort (admit_endpoint s id capacity sel).
Proof.
  intros Hn Hm Hp. destruct (admit_as s id sel Hn) as [| | |x rest s' Hni Hperm Hx _ ->]; [done|done|set_solver|].
  simpl. assert (m ≠ x) by congruence. rewrite Hperm in Hm. set_solver.
Qed.
(** Who is protected after an admission was, or is the newcomer. *)
Lemma admit_protected_back s id sel m : NoDup (cohort s) → m ∈ cohort (admit_endpoint s id capacity sel) →
  protected (admit_endpoint s id capacity sel) m = true → m = id ∨ (m ∈ cohort s ∧ protected s m = true).
Proof.
  intros Hn. destruct (admit_as s id sel Hn) as [| | |x rest s' Hni Hperm Hx Hxr ->]; [auto|auto| |]; simpl.
  - intros [Hm|Hm%list_elem_of_singleton]%elem_of_app; [|by left]. rewrite !protected_spec. auto.
  - intros [Hm|Hm%list_elem_of_singleton]%elem_of_app; [|by left]. assert (m ≠ x) as Hne by (intros ->; done).
    rewrite !protected_spec. simpl. intros [Hr Hd]. right. split; [rewrite Hperm; set_solver|]. split; [set_solver|].
    destruct (is_rejected s x); [|done]. by apply forget_claims in Hd.
Qed.

(** A selected endpoint always finds a slot while the protected ones and the
    newcomers fit together. *)
Lemma admit_selected s id (N : gset string) : cohort_ok capacity s → Z.of_nat (size N) ≤ capacity →
  (∀ m, m ∈ cohort s → protected s m = true → m ∈ N) → id ∈ N → id ∈ cohort (admit_endpoint s id capacity true).
Proof.
  intros [Hn Hc] HN Hin Hid. unfold admit_endpoint. case_bool_decide as Hm; [done|].
  destruct (capacity <=? _) eqn:E; bool_to_prop; [|simpl; set_solver].
  destruct (find_victim s true) as [[x rest]|] eqn:Ev; [by simpl; set_solver|].
  exfalso. unfold find_victim in Ev. destruct (take_first (is_rejected s) (cohort s)); [done|].
  assert (list_to_set (cohort s) ∪ {[id]} ⊆ N) as Hsub.
  { intros m [Hm'%elem_of_list_to_set|Hm'%elem_of_singleton]%elem_of_union; [|by subst].
    apply Hin; [done|]. apply (take_first_None _ _ m) in Ev; [|done]. by apply negb_false_iff in Ev. }
  apply subseteq_size in Hsub. rewrite size_union, size_list_to_set, size_singleton in Hsub by (done || set_solver). lia.
Qed.

Lemma admit_all_selected s ids (N : gset string) : cohort_ok capacity s → Z.of_nat (size N) ≤ capacity →
  (∀ m, m ∈ cohort s → protected s m = true → m ∈ N) → (∀ id, id ∈ ids → id ∈ N) →
  (∀ id, id ∈ ids → protected s id = true → id ∈ cohort (admit_all s ids capacity true)) ∧
  (∀ m, m ∈ cohort s → protected s m = true → m ∈ cohort (admit_all s ids capacity true)).
Proof.
  unfold admit_all. revert s. induction ids as [|id ids IH]; intros s Hok HN Hin Hids; simpl; [by split; [set_solver|]|].
  pose proof (Hids id ltac:(by left)) as Hid. pose proof (cohort_nodup _ _ Hok) as Hn.
  pose proof (admit_selected s id N Hok HN Hin Hid) as Hnew.
  destruct (IH (admit_endpoint s id capacity true)) as [IH1 IH2].
  - by apply admit_cohort_ok.
  - done.
  - intros m Hm Hp. destruct (admit_protected_back s id true m Hn Hm Hp) as [-> |[? ?]]; auto.
  - intros y Hy. apply Hids. by right.
  - split.
    + intros y [-> |Hy]%elem_of_cons Hp; [apply IH2|apply IH1]; [done|by apply admit_protected|done|by apply admit_protected].
    + intros m Hm Hp. apply IH2; [by apply admit_keeps|by apply admit_protected].
Qed.
Lemma admit_all_protected s ids sel y : cohort_ok capacity s → protected s y = true → protected (admit_all s ids capacity sel) y = true.
Proof.
  unfold admit_all. revert s. induction ids as [|id ids IH]; intros s Hok Hp; simpl; [done|].
  apply IH; [by apply admit_cohort_ok|]. apply admit_protected; [apply Hok|done].
Qed.
Lemma admit_all_cohort_ok s ids sel : cohort_ok capacity s → cohort_ok capacity (admit_all s ids capacity sel).
Proof. unfold admit_all. revert s. induction ids as [|id ids IH]; intros s Hok; simpl; [done|]. by apply IH, admit_cohort_ok. Qed.
End admission.

(** ** Reservations *)

Section reservations.
Context `{Digest}.

(** A reservation that was granted. *)
Lemma reserve_Ok ps k g d now v ps1 : reserveSelection ps k g d now = (Ok v, ps1) → ∃ s0, ps !! k = Some s0 ∧
  let s := observe_state s0 d in let previous := default no_demand (demand s0 !! g) in
  v = {| vkey := k; vgateway := g; vprevious := previous; hadPrevious := bool_decide (is_Some (demand s0 !! g)) |} ∧
  uncertain previous = None ∧ Z.of_nat (size (needed s g (decision_ids d))) ≤ cohortCapacity k evidencePolicy ∧
  ps1 = <[k := with_demand (<[g := {| dselected := decision_ids d; dseen := now; pending := true; uncertain := None;
                                      intended := intended previous; attempt := attempt previous |}]> (demand s0)) s]> ps.
Proof.
  unfold reserveSelection. destruct (ps !! k) as [s0|] eqn:Ek; [|done]. cbv zeta.
  case_bool_decide as Hu; [done|]. destruct (_ <? _) eqn:E; [done|]. intros [= <- <-]. exists s0. split; [done|]. bool_to_prop.
  assert (uncertain (default no_demand (demand s0 !! g)) = None) as Hun.
  { simpl in Hu. destruct (demand s0 !! g) as [d0|]; [|done]. simpl in *. destruct (uncertain d0); [|done]. by destruct Hu. }
  simpl. split_and!; [done|done|done|]. by rewrite Hun, insert_insert_eq.
Qed.

Lemma in_needed s g ids g' d' id : demand s !! g' = Some d' → claims d' id = true → id ∈ cohort s → id ∉ rejected s → id ∈ needed s g ids.
Proof.
  intros Hd Hc Hm Hr. unfold needed. apply elem_of_list_to_set, elem_of_app. left. apply list_elem_of_bind.
  exists (g', d'). split; [|by apply elem_of_map_to_list]. unfold needed_by. simpl. apply claims_spec in Hc.
  rewrite elem_of_app, !list_elem_of_filter. naive_solver.
Qed.
Lemma ids_needed s g ids id : id ∈ ids → id ∈ needed s g ids.
Proof. intros Hi. unfold needed. apply elem_of_list_to_set, elem_of_app. by right. Qed.

(** Settling a granted reservation: every demand [D] that keeps the other
    gateways' and claims only what was counted is maintained. *)
Lemma settle s g ids capacity (D : gmap string probeDemand) sx : cohort_ok capacity s →
  Z.of_nat (size (needed s g ids)) ≤ capacity → cohort sx = cohort s → rejected sx = rejected s → demand sx = D →
  (∀ g' d' id, D !! g' = Some d' → claims d' id = true → id ∈ ids ∨ ∃ g0 d0, demand s !! g0 = Some d0 ∧ claims d0 id = true) →
  (∀ id, id ∈ ids → ∃ d', D !! g = Some d' ∧ claims d' id = true) →
  let s2 := admit_all sx ids capacity true in
  cohort_ok capacity s2 ∧ (∀ id, id ∈ ids → id ∉ rejected s → id ∈ cohort s2 ∧ protected s2 id = true) ∧
  (∀ g' d' id, D !! g' = Some d' → claims d' id = true → id ∈ cohort s → id ∉ rejected s → id ∈ cohort s2 ∧ protected s2 id = true).
Proof.
  intros Hok HN Hc Hr HD Hcl Hids s2.
  assert (cohort_ok capacity sx) as Hokx by (destruct Hok; split; by rewrite Hc).
  assert (∀ id, id ∈ ids → id ∉ rejected s → protected sx id = true) as Hp.
  { intros id Hi Hni. destruct (Hids id Hi) as (d'&?&?). apply protected_spec. rewrite Hr, HD. eauto. }
  assert (∀ g' d' id, D !! g' = Some d' → claims d' id = true → id ∉ rejected s → protected sx id = true) as Hp'.
  { intros g' d' id ???. apply protected_spec. rewrite Hr, HD. eauto. }
  destruct (admit_all_selected capacity sx ids (needed s g ids)) as [H1 H2]; [done|done| |auto using ids_needed|].
  { intros m Hm [Hmr (g'&d'&Hd&Hdc)]%protected_spec. rewrite Hc in Hm. rewrite Hr in Hmr. rewrite HD in Hd.
    destruct (Hcl g' d' m Hd Hdc) as [?|(g0&d0&?&?)]; [by apply ids_needed|by eapply in_needed]. }
  split_and!; [by apply admit_all_cohort_ok|intros; split; [by apply H1; auto|apply admit_all_protected; auto]|].
  intros g' d' id Hd Hdc Hm Hmr. split; [|apply admit_all_protected; eauto]. apply H2; [by rewrite Hc|]. eauto.
Qed.

Lemma pending_of_reserved ps k g s D d : D !! g = Some d → pending d = true → ∀ prev had,
  pending_of (<[k := with_demand D s]> ps) {| vkey := k; vgateway := g; vprevious := prev; hadPrevious := had |} = Some (with_demand D s, d).
Proof. intros Hd Hp prev had. unfold pending_of. simpl. rewrite lookup_insert_eq. simpl. rewrite Hd. simpl. by rewrite Hp. Qed.

(** When a reservation is granted and its publication commits, every endpoint of the published decision is in the
    maintained cohort, except one whose identifier the verdicts of the same decision reject, and so is every
    endpoint other gateways rely on that was maintained and is not rejected by the verdicts of the decision; the cohort stays within its capacity. *)
Theorem committed_selection_maintained ps k g d now v ps1 s0 : ps !! k = Some s0 → cohort_ok (cohortCapacity k evidencePolicy) s0 →
  reserveSelection ps k g d now = (Ok v, ps1) →
  ∃ s2, commitSelection ps1 v !! k = Some s2 ∧ cohort_ok (cohortCapacity k evidencePolicy) s2 ∧
    (∀ id, id ∈ decision_ids d → id ∉ rejected (observe_state s0 d) → id ∈ cohort s2 ∧ protected s2 id = true) ∧
    ∀ g' d' id, g' ≠ g → demand s0 !! g' = Some d' → claims d' id = true → id ∈ cohort s0 → id ∉ rejected (observe_state s0 d) →
      id ∈ cohort s2 ∧ protected s2 id = true.
Proof.
  intros Hk Hok (s&Hk'&->&Hun&HN&->)%reserve_Ok. rewrite Hk in Hk'. injection Hk' as <-.
  unfold commitSelection. erewrite pending_of_reserved; [|apply lookup_insert_eq|done]. simpl. rewrite !lookup_insert_eq.
  eexists. split; [done|]. rewrite insert_insert_eq. match goal with |- context [admit_all ?x _ _ _] => set (sx := x) end.
  destruct (settle (observe_state s0 d) g (decision_ids d) (cohortCapacity k evidencePolicy) (demand sx) sx) as (H1&H2&H3);
    [by destruct Hok; split|done..| | |].
  - intros g' d' id Hd' Hc. destruct (decide (g' = g)) as [-> |Hne]; unfold sx in Hd'; simpl in Hd'.
    + rewrite lookup_insert_eq in Hd'. injection Hd' as <-. left. apply claims_spec in Hc. simpl in Hc. set_solver.
    + rewrite lookup_insert_ne in Hd' by done. eauto.
  - intros id Hi. unfold sx. simpl. rewrite lookup_insert_eq. eexists. split; [done|]. apply claims_spec. by left.
  - split_and!; [done|done|]. intros g' d' id Hne Hd' Hc Hm Hr. apply (H3 g' d'); [|done..].
    unfold sx. simpl. by rewrite lookup_insert_ne.
Qed.

(** When a write's outcome is uncertain, both the selection the gateway published before and the attempted one
    are maintained (what was maintained and is not rejected), and so is every other gateway's; the output that turns
    out to be current never loses its observations. *)
Theorem uncertain_selections_maintained ps k g d now v ps1 s0 receipt now' : ps !! k = Some s0 →
  cohort_ok (cohortCapacity k evidencePolicy) s0 →
  reserveSelection ps k g d now = (Ok v, ps1) →
  ∃ s2, holdUncertain ps1 v receipt now' !! k = Some s2 ∧ cohort_ok (cohortCapacity k evidencePolicy) s2 ∧
    (∀ id, id ∈ decision_ids d → id ∉ rejected (observe_state s0 d) → id ∈ cohort s2 ∧ protected s2 id = true) ∧
    ∀ g' d' id, demand s0 !! g' = Some d' → claims d' id = true → id ∈ cohort s0 → id ∉ rejected (observe_state s0 d) →
      id ∈ cohort s2 ∧ protected s2 id = true.
Proof.
  intros Hk Hok (s&Hk'&->&Hun&HN&->)%reserve_Ok. rewrite Hk in Hk'. injection Hk' as <-.
  unfold holdUncertain. erewrite pending_of_reserved; [|apply lookup_insert_eq|done]. simpl. rewrite !lookup_insert_eq.
  eexists. split; [done|]. rewrite insert_insert_eq. match goal with |- context [admit_all ?x _ _ _] => set (sx := x) end.
  destruct (settle (observe_state s0 d) g (decision_ids d) (cohortCapacity k evidencePolicy) (demand sx) sx) as (H1&H2&H3);
    [by destruct Hok; split|done..| | |].
  - intros g' d' id Hd' Hc. destruct (decide (g' = g)) as [-> |Hne]; unfold sx in Hd'; simpl in Hd'.
    + rewrite lookup_insert_eq in Hd'. injection Hd' as <-. apply claims_spec in Hc. simpl in Hc.
      destruct Hc as [Hc|Hc]; [right|by left]. destruct (demand s0 !! g) as [d0|] eqn:Ed; simpl in Hc; [|set_solver].
      exists g, d0. split; [done|]. apply claims_spec. by left.
    + rewrite lookup_insert_ne in Hd' by done. eauto.
  - intros id Hi. unfold sx. simpl. rewrite lookup_insert_eq. eexists. split; [done|]. apply claims_spec. by right.
  - split_and!; [done|done|]. intros g' d' id Hd' Hc Hm Hr.
    destruct (decide (g' = g)) as [-> |Hne].
    + eapply (H3 g); [unfold sx; simpl; apply lookup_insert_eq| |done|done]. apply claims_spec. simpl. left.
      rewrite Hd' in Hun |- *. simpl in *. apply claims_spec in Hc. rewrite Hun in Hc. simpl in Hc. set_solver.
    + apply (H3 g' d'); [|done..]. unfold sx. simpl. by rewrite lookup_insert_ne.
Qed.

(** Releasing a reservation puts the demand of the context back exactly as it was before the reservation, and
    leaves the cohort alone: an attempt that failed before any write leaves no pin behind. *)
Theorem released_reservation_restores ps k g d now v ps1 s0 : ps !! k = Some s0 →
  reserveSelection ps k g d now = (Ok v, ps1) →
  ∃ s2, releaseSelection ps1 v !! k = Some s2 ∧ demand s2 = demand s0 ∧ cohort s2 = cohort s0 ∧
    ∀ k', k' ≠ k → releaseSelection ps1 v !! k' = ps !! k'.
Proof.
  intros Hk (s&Hk'&->&Hun&HN&->)%reserve_Ok. rewrite Hk in Hk'. injection Hk' as <-.
  unfold releaseSelection. erewrite pending_of_reserved; [|apply lookup_insert_eq|done]. simpl. rewrite !lookup_insert_eq.
  eexists. split; [done|]. split_and!; [|done|intros k' Hne; by rewrite !lookup_insert_ne].
  case_bool_decide as Hs; simpl.
  - destruct Hs as [d0 Hd0]. rewrite insert_insert_eq, Hd0. simpl. by apply insert_id.
  - apply eq_None_not_Some in Hs. by rewrite delete_insert_id.
Qed.
End reservations.

(** ** All interleavings *)

Definition all_cohorts_ok (ps : probes) : Prop := map_Forall (λ k s, cohort_ok (cohortCapacity k evidencePolicy) s) ps.

(** Every critical section of the pipeline, in any order and for any
    gateway. *)
Inductive step `{Digest} (ps : probes) : probes → Prop :=
| step_round k rs p now refresh : step ps (budgetedJobs ps k rs p now refresh).2
| step_abandon r : step ps (abandonRound ps r)
| step_complete r over : step ps (completeRound ps r over)
| step_results k jobs successes : step ps (recordProbeResults ps k jobs successes)
| step_touch k g now : step ps (touchDemand ps k g now)
| step_observe k d : step ps (observeVerdicts ps k d)
| step_reserve k g d now : step ps (reserveSelection ps k g d now).2
| step_commit v : step ps (commitSelection ps v)
| step_hold v receipt now : step ps (holdUncertain ps v receipt now)
| step_release v : step ps (releaseSelection ps v)
| step_resolve k g a written : step ps (resolve_end ps k g a written).

Section interleavings.
Context `{Digest}.

Lemma capacity_nonneg k : 0 ≤ cohortCapacity k evidencePolicy.
Proof. unfold cohortCapacity, roundBudget. case_bool_decide; vm_compute; discriminate. Qed.

Lemma all_ok_lookup ps k s : all_cohorts_ok ps → ps !! k = Some s → cohort_ok (cohortCapacity k evidencePolicy) s.
Proof. intros Ha Hk. by apply (Ha k s). Qed.
Lemma all_ok_default ps k : all_cohorts_ok ps → cohort_ok (cohortCapacity k evidencePolicy) (default no_state (ps !! k)).
Proof.
  intros Ha. destruct (ps !! k) as [s|] eqn:E; simpl; [by eapply all_ok_lookup|].
  split; simpl; [constructor|apply capacity_nonneg].
Qed.
Lemma all_ok_insert ps k s : all_cohorts_ok ps → cohort_ok (cohortCapacity k evidencePolicy) s → all_cohorts_ok (<[k := s]> ps).
Proof. intros Ha Hs. by apply map_Forall_insert_2. Qed.
(** Replacing everything but the cohort keeps the invariant. *)
Lemma cohort_ok_eq c s s' : cohort s' = cohort s → cohort_ok c s → cohort_ok c s'.
Proof. intros E [??]. by split; rewrite E. Qed.
Lemma all_ok_filter (P : probeContextKey * probeState → Prop) `{!∀ x, base.Decision (P x)} ps : all_cohorts_ok ps → all_cohorts_ok (filter P ps).
Proof. intros Ha k s [Hk _]%map_lookup_filter_Some. by apply Ha. Qed.

Lemma all_ok_update ps k s s' : all_cohorts_ok ps → ps !! k = Some s → cohort s' = cohort s → all_cohorts_ok (<[k := s']> ps).
Proof. intros Ha Hk E. apply all_ok_insert; [done|]. eapply cohort_ok_eq; [exact E|]. by apply (Ha k s). Qed.
Lemma all_ok_admit ps k s s' ids sel : all_cohorts_ok ps → ps !! k = Some s → cohort s' = cohort s →
  all_cohorts_ok (<[k := admit_all s' ids (cohortCapacity k evidencePolicy) sel]> ps).
Proof.
  intros Ha Hk E. apply all_ok_insert; [done|]. apply admit_all_cohort_ok. eapply cohort_ok_eq; [exact E|]. by apply (Ha k s).
Qed.
#[local] Hint Resolve all_ok_update all_ok_admit : egress.

Lemma keep_members_ok c s m : cohort_ok c s → NoDup (keep_members s m) ∧ Z.of_nat (length (keep_members s m)) ≤ c.
Proof.
  intros [Hn Hc]. unfold keep_members. split; [by apply NoDup_filter|]. pose proof (length_filter (λ id, is_Some (m !! id)) (cohort s)). lia.
Qed.

Lemma step_cohorts_ok ps ps' : step ps ps' → all_cohorts_ok ps → all_cohorts_ok ps'.
Proof.
  intros Hs Ha. destruct Hs.
  - pose proof (all_ok_default ps k Ha) as Hd. unfold budgetedJobs. destruct (_ <? _); simpl;
      [apply all_ok_filter, all_ok_insert; [done|]; by eapply cohort_ok_eq; [|exact Hd]|].
    match goal with |- context [nextProbeBatch ?a ?b ?c ?d ?e] => destruct (nextProbeBatch a b c d e) as [batch next] end. simpl.
    apply all_ok_filter, all_ok_insert; [done|]. by destruct (keep_members_ok _ _ (compatible_map p rs) Hd); split.
  - unfold abandonRound. destruct (ps !! rkey r) eqn:E; [|done]. destruct (_ =? _); eauto with egress.
  - unfold completeRound. destruct (ps !! rkey r) eqn:E; [|done]. destruct (_ =? _); eauto with egress.
  - unfold recordProbeResults. destruct (ps !! k) eqn:E; eauto with egress.
  - unfold touchDemand. set (ps0 := map_imap _ ps).
    assert (all_cohorts_ok ps0) as Ha0.
    { intros k' s' Hk'. unfold ps0 in Hk'. rewrite map_lookup_imap in Hk'. destruct (ps !! k') as [s0|] eqn:E; [|done].
      simpl in Hk'. injection Hk' as <-. pose proof (all_ok_lookup _ _ _ Ha E). case_bool_decide; [done|].
      by eapply cohort_ok_eq; [|eassumption]. }
    destruct (ps0 !! k) eqn:E; eauto with egress.
  - unfold observeVerdicts. destruct (ps !! k) eqn:E; eauto with egress.
  - unfold reserveSelection. destruct (ps !! k) eqn:E; [|done]. cbv zeta. case_bool_decide; [simpl; eauto with egress|].
    destruct (_ <? _); simpl; rewrite ?insert_insert_eq; eauto with egress.
  - unfold commitSelection, pending_of. destruct (ps !! vkey v) as [s|] eqn:E; [|done]. csimpl. destruct (demand s !! _) as [d|]; [|done].
    csimpl. destruct (pending d); eauto 6 with egress.
  - unfold holdUncertain, pending_of. destruct (ps !! vkey v) as [s|] eqn:E; [|done]. csimpl. destruct (demand s !! _) as [d|]; [|done].
    csimpl. destruct (pending d); eauto 6 with egress.
  - unfold releaseSelection, pending_of. destruct (ps !! vkey v) as [s|] eqn:E; [|done]. csimpl. destruct (demand s !! _) as [d|]; [|done].
    csimpl. destruct (pending d); eauto with egress.
  - unfold resolve_end, unresolved. destruct (ps !! k) as [s|] eqn:E; [|done]. csimpl. destruct (demand s !! _) as [d|]; [|done].
    csimpl. destruct (uncertain d) as [u|]; [|done]. csimpl. destruct (pending d); [done|]. destruct (negb _); eauto with egress.
Qed.
End interleavings.

Section reachable.
Context `{Digest}.

Lemma reachable_ok ps : rtc step ∅ ps → all_cohorts_ok ps.
Proof.
  intros Hr. assert (∀ qs, rtc step qs ps → all_cohorts_ok qs → all_cohorts_ok ps) as Hstep.
  { intros qs. induction 1 as [|x y z Hxy _ IH]; [done|]. intros Hx. by eapply IH, step_cohorts_ok. }
  eapply Hstep; [done|]. apply map_Forall_empty.
Qed.

(** Whatever the gateways do and however their critical sections interleave, every cohort of maintained endpoints
    has no duplicates and stays within the capacity of its context. *)
Theorem cohorts_bounded ps k s : rtc step ∅ ps → ps !! k = Some s →
  NoDup (cohort s) ∧ Z.of_nat (length (cohort s)) ≤ cohortCapacity k evidencePolicy.
Proof. intros Hr Hk. destruct (reachable_ok ps Hr k s Hk). done. Qed.

(** ** Rounds fit their budget *)

Lemma jobs_of_length m ids : Forall (λ id, is_Some (m !! id)) ids → length (jobs_of m ids) = length ids.
Proof.
  unfold jobs_of. induction 1 as [|id ids [r Hr] _ IH]; [done|]. cbn. rewrite Hr. cbn. by f_equal.
Qed.
Lemma filter_partition_length (s : probeState) l :
  (length (filter (λ id, protected s id = false) l) + length (filter (λ id, protected s id = true) l) = length l)%nat.
Proof.
  induction l as [|x l IH]; [done|]. rewrite !filter_cons. destruct (protected s x) eqn:E; simpl; lia.
Qed.
Lemma maintain_jobs_length s m : length (maintain_jobs s m) = length (keep_members s m).
Proof.
  assert (∀ b, Forall (λ id, is_Some (m !! id)) (filter (λ id, protected s id = b) (keep_members s m))) as Hk.
  { intros b. apply Forall_forall. intros id [_ Hid]%list_elem_of_filter. unfold keep_members in Hid.
    by apply list_elem_of_filter in Hid as [? _]. }
  unfold maintain_jobs. rewrite length_app, !jobs_of_length by apply Hk. apply filter_partition_length.
Qed.
Lemma scan_batch_spec fuel rs p start limit skip scanned jobs :
  Z.of_nat (length jobs) ≤ limit → Forall (λ r, record_id r ∉ skip ∧ compatible p r = true ∧ r ∈ rs) jobs →
  let '(out, n) := scan_batch fuel rs p start limit skip scanned jobs in
  Z.of_nat (length out) ≤ limit ∧ Forall (λ r, record_id r ∉ skip ∧ compatible p r = true ∧ r ∈ rs) out.
Proof.
  revert scanned jobs. induction fuel as [|fuel IH]; intros scanned jobs Hl Hj; simpl; [done|].
  destruct (_ && _) eqn:E; [|done]. bool_to_prop. destruct (rs !! _) as [r|] eqn:Er; [|done].
  apply IH; destruct (negb _ && _) eqn:Ec; bool_to_prop; try done.
  - rewrite length_app. simpl. lia.
  - apply Forall_app. split; [done|]. constructor; [|constructor]. split_and!; [done|done|]. by eapply list_elem_of_lookup_2.
Qed.
Lemma nextProbeBatch_spec rs p start limit skip : 0 ≤ limit →
  let '(out, n) := nextProbeBatch rs p start limit skip in
  Z.of_nat (length out) ≤ limit ∧ Forall (λ r, record_id r ∉ skip ∧ compatible p r = true ∧ r ∈ rs) out ∧ (rs ≠ [] → (n < length rs)%nat).
Proof.
  intros Hl. unfold nextProbeBatch. set (st := if (length rs <=? start)%nat then 0%nat else start).
  pose proof (scan_batch_spec (length rs) rs p st limit skip 0 [] ltac:(simpl; lia) ltac:(constructor)) as Hs.
  destruct (scan_batch _ _ _ _ _ _ _ _) as [out n]. destruct Hs as [H1 H2]. split_and!; [done|done|].
  intros Hne. assert (length rs ≠ 0%nat) by (by destruct rs).
  replace (0 <? length rs)%nat with true by (symmetry; apply Nat.ltb_lt; lia). by apply Nat.mod_upper_bound.
Qed.

(** A round never exceeds the job budget of its context (64 probes for the default profile, 30 for a named one): it
    probes every maintained endpoint that is still in the inventory and compatible exactly once, and explores only
    compatible endpoints outside the cohort. *)
Theorem round_within_budget ps k rs p now refresh r ps' : rtc step ∅ ps → budgetedJobs ps k rs p now refresh = (Some r, ps') →
  Z.of_nat (length (explore r) + length (maintain r)) ≤ roundBudget k ∧
  length (maintain r) = length (keep_members (default no_state (ps !! k)) (compatible_map p rs)) ∧
  ∀ x, x ∈ explore r → x ∈ rs ∧ compatible p x = true ∧ record_id x ∉ keep_members (default no_state (ps !! k)) (compatible_map p rs).
Proof.
  intros Hr Hb. pose proof (all_ok_default ps k (reachable_ok ps Hr)) as Hok.
  destruct (keep_members_ok _ _ (compatible_map p rs) Hok) as [_ Hk]. rewrite <-maintain_jobs_length in Hk.
  unfold budgetedJobs in Hb. destruct (_ <? _); [done|].
  set (s0 := default no_state (ps !! k)) in *. set (m := compatible_map p rs) in *. set (limit := Z.max _ _) in Hb.
  assert (0 ≤ limit ∧ 3 * limit ≤ roundBudget k - Z.of_nat (length (maintain_jobs s0 m))) as [Hl0 Hl].
  { subst limit. change (minSamples evidencePolicy) with 3. change exploreMin with 2.
    unfold cohortCapacity in Hk. change (exploreMin * minSamples evidencePolicy) with 6 in Hk.
    Z.to_euclidean_division_equations. lia. }
  clearbody limit. pose proof (nextProbeBatch_spec rs p (cursor s0) limit (list_to_set (keep_members s0 m)) Hl0) as Hn.
  destruct (nextProbeBatch _ _ _ _ _) as [batch next]. destruct Hn as (Hn1&Hn2&_). injection Hb as <- _. cbn [explore maintain].
  split_and!.
  - rewrite !length_app. simpl. lia.
  - apply maintain_jobs_length.
  - intros x Hx. rewrite Forall_forall in Hn2. destruct (Hn2 x) as (?&?&?).
    { rewrite !elem_of_app in Hx. set_solver. }
    set_solver.
Qed.
End reachable.

(** The evidence cadence keeps its documented bounds for every valid policy it can serve: rounds are no further
    apart than the freshness limit, MinSamples rounds fit the evidence window even when every requeue is late by the
    full jitter, and rounds are never closer than thirty seconds; nothing overflows. *)
Theorem cadence_bounds p : policy_valid p = true → 1 < minSamples p → minProbeCadence ≤ freshness p →
  minProbeCadence * (minSamples p * (1000 + RequeueJitterPermille)) ≤ evidenceWindow p * 1000 →
  minProbeCadence ≤ probeCadence p ≤ freshness p ∧
  minSamples p * probeCadence p * (1000 + RequeueJitterPermille) ≤ evidenceWindow p * 1000.
Proof.
  unfold policy_valid, outside. intros Hv Hm Hf He. rewrite !negb_orb in Hv. bool_to_prop. unfold probeCadence.
  replace (1 <? minSamples p) with true by lia. unfold RequeueJitterPermille, minProbeCadence, second, hour, minute, second in *.
  rewrite !wrap64_id by (unfold in_int64, int64_min, int64_max, second in *; lia).
  set (q := Z.quot _ _). assert (30000000000 ≤ q ∧ q * (minSamples p * 1100) ≤ evidenceWindow p * 1000) as [Hq1 Hq2].
  { subst q. change (1000 + 100) with 1100 in *. set (w := evidenceWindow p * 1000) in *. set (n := minSamples p * 1100) in *.
    assert (0 < n) by lia. Z.to_euclidean_division_equations. nia. }
  clearbody q. nia.
Qed.

(** ** Concrete schedules *)

Module SchedulingSample.
#[local] Existing Instance toy_digest.
Definition key : probeContextKey := newProbeContextKey "pool" "named" Mihomo11931 "target" "revision".
Definition record (port : Z) : Record_ :=
  {| configuration := {| Configuration.protocol := ProtocolVLESS;
       Configuration.address := {| Address.host := "example.com"; Address.port := port; Address.kind := Address.hostDNS |};
       Configuration.credential := Sample.credential Sample.uuid1; Configuration.transport := Transport.NewTCPTransport;
       Configuration.tls := Sample.tls; Configuration.method := ""; Configuration.advanced := None |}; provenance := [] |}.
Definition state0 : State :=
  {| scope := "gateway"; scontext := {| ctarget := {| tid := "t"; trev := Some "r" |}; cvantage := "v"; ckind := KindHTTPGet; cprofile := Mihomo11931 |};
     fingerprint := ""; evaluatedAt := 1; members := []; cooldowns := [] |}.
Definition decide_for (rs : list Record_) : Decision :=
  {| selected := rs; explanations := []; next := state0; changed := true; degraded := false; transition := TransitionOptimized; eligible := 1; requested := 1 |}.
Definition demand_of (ids : list string) : probeDemand :=
  {| dselected := ids; dseen := 0; pending := false; uncertain := None; intended := ""; attempt := 0 |}.
Definition context (c : list string) (d : gmap string probeDemand) : probeState :=
  {| puntil := 0; pround := 0; cursor := 0; cohort := c; rejected := ∅; demand := d; overloaded := false; attempts := 0; pseen := 0 |}.
Definition shared : probes := {[key := context ["ours"; "theirs"] {["gateway" := demand_of ["ours"]; "other" := demand_of ["theirs"]]}]}.
Lemma shared_ok : cohort_ok (cohortCapacity key evidencePolicy) (context ["ours"; "theirs"] {["gateway" := demand_of ["ours"]; "other" := demand_of ["theirs"]]}).
Proof. split; [by apply (bool_decide_unpack _)|vm_compute; discriminate]. Qed.
Definition reservation (p : result reserve_error selectionReservation * probes) : selectionReservation :=
  match p.1 with Ok v => v | Err _ => {| vkey := key; vgateway := ""; vprevious := no_demand; hadPrevious := false |} end.
Definition reserved : result reserve_error selectionReservation * probes :=
  reserveSelection shared key "gateway" (decide_for [record 443]) 5.
Lemma granted p : is_ok p.1 = true → p = (Ok (reservation p), p.2).
Proof. destruct p as [[v|e] ps]; [done|discriminate]. Qed.
Lemma reserved_ok : is_ok reserved.1 = true.
Proof. vm_compute. reflexivity. Qed.
Definition s0 : probeState := context ["ours"; "theirs"] {["gateway" := demand_of ["ours"]; "other" := demand_of ["theirs"]]}.
Lemma nothing_rejected rs id : id ∉ rejected (observe_state s0 (decide_for rs)).
Proof. simpl. apply not_elem_of_empty. Qed.
(** A full cohort of a named profile, with the current output of [gateway]
    as its oldest member. *)
Definition full : list string :=
  ["ours"; "m01"; "m02"; "m03"; "m04"; "m05"; "m06"; "m07"; "m08"; "m09"; "m10"; "m11"; "m12"; "m13"; "m14"; "m15"; "m16"; "m17";
   "m18"; "m19"; "m20"; "m21"; "m22"; "m23"].
Definition crowded : probes := {[key := context full {["gateway" := demand_of ["ours"]]}]}.
(** Two gateways reserve; the second commits before the first reports that
    its write is uncertain. *)
Definition first_ : result reserve_error selectionReservation * probes := reserveSelection crowded key "gateway" (decide_for [record 443]) 5.
Definition second_ : result reserve_error selectionReservation * probes := reserveSelection first_.2 key "other" (decide_for [record 8443]) 6.
Definition after : probes := holdUncertain (commitSelection second_.2 (reservation second_)) (reservation first_) "receipt" 7.
(** A decision over two revisions of one endpoint, a member of the full
    cohort: one revision is selected together with a newcomer, the other one
    is rejected as unreliable. *)
Definition verdict_on (i : string) (why : Reason) : Explanation :=
  {| xconnection := {| cid := i; crev := None |}; endpointID := i; reason := why; xsamples := 0; xsuccesses := 0; successPermille := 0; xmean := 0;
     confidencePPM := 0; adaptiveCostNanos := 0; incumbent := false; residenceActive := false |}.
Definition revised : string := record_id (record 443).
Definition two_revisions : Decision :=
  {| selected := [record 443; record 8443]; explanations := [verdict_on revised ReasonEligible; verdict_on revised ReasonUnreliable]; next := state0;
     changed := true; degraded := false; transition := TransitionOptimized; eligible := 2; requested := 2 |}.
Definition full_with : probes := {[key := context (revised :: tail full) {["gateway" := demand_of [revised]]}]}.
Definition granted_two : result reserve_error selectionReservation * probes := reserveSelection full_with key "gateway" two_revisions 5.
End SchedulingSample.

(** Verdicts are kept by endpoint identifier, not by revision: committing a
    selection can evict an endpoint that it has just published, because
    another revision of it was rejected. *)
Theorem rejected_revision_evicts_output :
  is_ok SchedulingSample.granted_two.1 = true ∧
  SchedulingSample.revised ∈ @decision_ids toy_digest SchedulingSample.two_revisions ∧
  (λ s, bool_decide (SchedulingSample.revised ∈ cohort s)) <$>
    commitSelection SchedulingSample.granted_two.2 (SchedulingSample.reservation SchedulingSample.granted_two) !! SchedulingSample.key = Some false.
Proof. split_and!; [vm_compute; reflexivity|by left|vm_compute; reflexivity]. Qed.

(** The mutex alone does not keep the promise of [holdUncertain]: while a
    reservation is pending, the selection the gateway published before is
    not part of the shared state, and a commit of another gateway in between
    evicts it.  The selection is still the gateway's demand and no longer
    maintained. *)
Theorem interleaved_commit_evicts_current_output :
  is_ok SchedulingSample.first_.1 = true ∧ is_ok SchedulingSample.second_.1 = true ∧
  (λ s, (bool_decide ("ours" ∈ cohort s), protected s "ours", dselected <$> demand s !! "gateway")) <$>
    SchedulingSample.after !! SchedulingSample.key = Some (false, true, Some ["ours"]).
Proof. vm_compute. auto. Qed.

Lemma committed_selection_maintained_witness :
  ∃ s2, commitSelection SchedulingSample.reserved.2 (SchedulingSample.reservation SchedulingSample.reserved) !! SchedulingSample.key = Some s2 ∧
    cohort_ok (cohortCapacity SchedulingSample.key evidencePolicy) s2 ∧
    (∀ id, id ∈ @decision_ids toy_digest (SchedulingSample.decide_for [SchedulingSample.record 443]) → id ∈ cohort s2 ∧ protected s2 id = true) ∧
    ∀ g' d' id, g' ≠ "gateway" → demand SchedulingSample.s0 !! g' = Some d' → claims d' id = true → id ∈ cohort SchedulingSample.s0 →
      id ∉ rejected (observe_state SchedulingSample.s0 (SchedulingSample.decide_for [SchedulingSample.record 443])) →
      id ∈ cohort s2 ∧ protected s2 id = true.
Proof.
  destruct (@committed_selection_maintained toy_digest SchedulingSample.shared SchedulingSample.key "gateway"
    (SchedulingSample.decide_for [SchedulingSample.record 443]) 5 (SchedulingSample.reservation SchedulingSample.reserved)
    SchedulingSample.reserved.2 SchedulingSample.s0) as (s2&Hs&Hok&H1&H2).
  - apply lookup_singleton_eq.
  - apply SchedulingSample.shared_ok.
  - apply SchedulingSample.granted, SchedulingSample.reserved_ok.
  - exists s2. split_and!; [exact Hs|exact Hok| |exact H2]. intros id Hi. exact (H1 id Hi (SchedulingSample.nothing_rejected _ _)).
Defined.
Lemma uncertain_selections_maintained_witness :
  ∃ s2, holdUncertain SchedulingSample.reserved.2 (SchedulingSample.reservation SchedulingSample.reserved) "receipt" 9 !! SchedulingSample.key = Some s2 ∧
    cohort_ok (cohortCapacity SchedulingSample.key evidencePolicy) s2 ∧
    (∀ id, id ∈ @decision_ids toy_digest (SchedulingSample.decide_for [SchedulingSample.record 443]) → id ∈ cohort s2 ∧ protected s2 id = true) ∧
    ∀ g' d' id, demand SchedulingSample.s0 !! g' = Some d' → claims d' id = true → id ∈ cohort SchedulingSample.s0 →
      id ∉ rejected (observe_state SchedulingSample.s0 (SchedulingSample.decide_for [SchedulingSample.record 443])) →
      id ∈ cohort s2 ∧ protected s2 id = true.
Proof.
  destruct (@uncertain_selections_maintained toy_digest SchedulingSample.shared SchedulingSample.key "gateway"
    (SchedulingSample.decide_for [SchedulingSample.record 443]) 5 (SchedulingSample.reservation SchedulingSample.reserved)
    SchedulingSample.reserved.2 SchedulingSample.s0 "receipt" 9) as (s2&Hs&Hok&H1&H2).
  - apply lookup_singleton_eq.
  - apply SchedulingSample.shared_ok.
  - apply SchedulingSample.granted, SchedulingSample.reserved_ok.
  - exists s2. split_and!; [exact Hs|exact Hok| |exact H2]. intros id Hi. exact (H1 id Hi (SchedulingSample.nothing_rejected _ _)).
Defined.
Lemma released_reservation_restores_witness :
  ∃ s2, releaseSelection SchedulingSample.reserved.2 (SchedulingSample.reservation SchedulingSample.reserved) !! SchedulingSample.key = Some s2 ∧
    demand s2 = demand SchedulingSample.s0 ∧ cohort s2 = cohort SchedulingSample.s0 ∧
    ∀ k', k' ≠ SchedulingSample.key →
      releaseSelection SchedulingSample.reserved.2 (SchedulingSample.reservation SchedulingSample.reserved) !! k' = SchedulingSample.shared !! k'.
Proof.
  apply (@released_reservation_restores toy_digest SchedulingSample.shared SchedulingSample.key "gateway"
    (SchedulingSample.decide_for [SchedulingSample.record 443]) 5 _ _ SchedulingSample.s0).
  - apply lookup_singleton_eq.
  - apply SchedulingSample.granted, SchedulingSample.reserved_ok.
Defined.

Definition sample_round : option (probeRound) * probes :=
  @budgetedJobs toy_digest ∅ SchedulingSample.key [SchedulingSample.record 443] Mihomo11931 100 0.
Lemma cohorts_bounded_witness :
  NoDup (cohort (default no_state (sample_round.2 !! SchedulingSample.key))) ∧
  Z.of_nat (length (cohort (default no_state (sample_round.2 !! SchedulingSample.key)))) ≤ cohortCapacity SchedulingSample.key evidencePolicy.
Proof.
  apply (@cohorts_bounded toy_digest sample_round.2).
  - eapply rtc_once, (@step_round toy_digest ∅ SchedulingSample.key [SchedulingSample.record 443] Mihomo11931 100 0).
  - vm_compute. reflexivity.
Defined.
Lemma sample_round_claimed : is_Some sample_round.1.
Proof. vm_compute. by eexists. Qed.
Lemma round_within_budget_witness : ∃ r, sample_round.1 = Some r ∧
  Z.of_nat (length (explore r) + length (maintain r)) ≤ roundBudget SchedulingSample.key ∧
  length (maintain r) = length (keep_members (default no_state ((∅ : probes) !! SchedulingSample.key))
    (@compatible_map toy_digest Mihomo11931 [SchedulingSample.record 443])) ∧
  ∀ x, x ∈ explore r → x ∈ [SchedulingSample.record 443] ∧ compatible Mihomo11931 x = true ∧
    @record_id toy_digest x ∉ keep_members (default no_state ((∅ : probes) !! SchedulingSample.key))
      (@compatible_map toy_digest Mihomo11931 [SchedulingSample.record 443]).
Proof.
  destruct sample_round_claimed as [r Hr]. exists r. split; [exact Hr|].
  apply (@round_within_budget toy_digest ∅ SchedulingSample.key [SchedulingSample.record 443] Mihomo11931 100 0 r sample_round.2);
    [apply rtc_refl|]. rewrite <-Hr. apply surjective_pairing.
Defined.
Lemma cadence_bounds_witness :
  minProbeCadence ≤ probeCadence evidencePolicy ≤ freshness evidencePolicy ∧
  minSamples evidencePolicy * probeCadence evidencePolicy * (1000 + RequeueJitterPermille) ≤ evidenceWindow evidencePolicy * 1000.
Proof. apply (cadence_bounds evidencePolicy); [reflexivity|vm_compute; reflexivity|vm_compute; discriminate|vm_compute; discriminate]. Defined.
