(* ===== verification/ProbeScheduler.v ===== *)
(** * The probe scheduler (internal/probe/scheduler.go)

    [Scheduler.Run] is a dispatcher, a bounded queue and a group of workers
    that share semaphores, counters and the result slice.  The state machine
    below has one event per atomic action of the goroutines on shared state; the
    environment decides which event comes next, when [Execute] returns and
    whether the context is cancelled.  The compare-and-swap loop of
    [updatePeak] is one event, its last comparison or swap: it takes effect
    there, as a maximum. *)
From S2P Require Import Prelude Order.
From Stdlib Require String.
Open Scope Z_scope.

Definition MaxSchedulerConcurrency : Z := 64.
Definition MaxSchedulerQueue : Z := 4096.
Definition MaxSchedulerJobs : Z := 10000.

Record ScheduleConfig := { concurrency : Z; queue_size : Z; perEndpoint : Z; perTarget : Z; maxJobs : Z }.
Definition DefaultScheduleConfig : ScheduleConfig :=
  {| concurrency := 4; queue_size := 256; perEndpoint := 1; perTarget := 2; maxJobs := MaxSchedulerJobs |}.
(** [ScheduleConfig.valid]. *)
Definition schedule_valid (c : ScheduleConfig) : bool :=
  (1 <=? concurrency c) && (concurrency c <=? MaxSchedulerConcurrency) &&
  (1 <=? queue_size c) && (queue_size c <=? MaxSchedulerQueue) &&
  (1 <=? perEndpoint c) && (perEndpoint c <=? concurrency c) &&
  (1 <=? perTarget c) && (perTarget c <=? concurrency c) &&
  (1 <=? maxJobs c) && (maxJobs c <=? MaxSchedulerJobs).

(** A job, by the keys of its endpoint and its target. *)
Record Job := { job_endpoint : string; job_target : string }.

(** ** State *)

(** Where a worker is in its loop body, with the index of its job. *)
Inductive worker :=
| Idle
| HasJob (i : nat)                       (* received from the queue *)
| HasEndpoint (i : nat)                  (* holds the endpoint semaphore *)
| HasBoth (i : nat)                      (* holds both semaphores *)
| RunningAdded (i : nat) (now : Z)       (* running incremented, with the value seen *)
| RunningPeaked (i : nat)                (* peakRunning updated *)
| EndpointAdded (i : nat) (e : Z)        (* endpointCounter.current incremented *)
| BothAdded (i : nat) (e t : Z)          (* targetCounter.current incremented *)
| EndpointPeaked (i : nat) (t : Z)       (* endpointCounter.peak updated *)
| Executing (i : nat)                    (* targetCounter.peak updated, inside Execute *)
| Executed (i : nat)                     (* result stored *)
| TargetSubtracted (i : nat)             (* targetCounter.current decremented *)
| EndpointSubtracted (i : nat)           (* endpointCounter.current decremented *)
| Uncounted (i : nat)                    (* running decremented *)
| ReleasedTarget (i : nat)               (* target semaphore released *)
| Exited.                                (* the range over the closed queue ended *)

#[global] Instance worker_eq_dec : EqDecision worker.
Proof. solve_decision. Defined.

Section scheduler.
(** What [Execute] returns: an observation or an error. *)
Context {A : Type}.
Inductive slot := Unset | Returned (a : A) | CancelledJob.

Record counters := { current : gmap string Z; peak : gmap string Z }.
Definition at_key (m : gmap string Z) (k : string) : Z := default 0 (m !! k).
Definition bump (k : string) (d : Z) (m : gmap string Z) : gmap string Z := <[k := at_key m k + d]> m.
(** [updatePeak]. *)
Definition raise_peak (k : string) (v : Z) (m : gmap string Z) : gmap string Z := <[k := Z.max (at_key m k) v]> m.

Record sched := {
  next_job : nat; queue : list nat; closed : bool; cancelled : bool; workers : list worker; slots_ : list slot;
  endpoint_tokens : gmap string Z; target_tokens : gmap string Z; running : Z; peak_running : Z;
  endpoints : counters; targets : counters;
}.

Inductive event :=
| Dispatch               (* the dispatcher sends a job, or closes the queue after the last *)
| DispatchCancelled      (* it selects ctx.Done *)
| Step (j : nat)         (* worker j takes its next action *)
| Return (j : nat) (a : A)   (* Execute of worker j returns *)
| StepCancelled (j : nat)    (* worker j selects ctx.Done in acquire *)
| Cancel.                (* the context is cancelled *)

Context (cfg : ScheduleConfig) (jobs : list Job).
Definition endpoint_of (i : nat) : string := default "" (job_endpoint <$> jobs !! i).
Definition target_of (i : nat) : string := default "" (job_target <$> jobs !! i).

Definition initial : sched :=
  {| next_job := 0; queue := []; closed := false; cancelled := false;
     workers := replicate (Z.to_nat (Z.min (concurrency cfg) (Z.of_nat (length jobs)))) Idle;
     slots_ := replicate (length jobs) Unset; endpoint_tokens := ∅; target_tokens := ∅; running := 0; peak_running := 0;
     endpoints := {| current := ∅; peak := ∅ |}; targets := {| current := ∅; peak := ∅ |} |}.

(** *** Updates *)
Definition set_worker (j : nat) (w : worker) (s : sched) : sched :=
  {| next_job := next_job s; queue := queue s; closed := closed s; cancelled := cancelled s; workers := <[j := w]> (workers s);
     slots_ := slots_ s; endpoint_tokens := endpoint_tokens s; target_tokens := target_tokens s; running := running s;
     peak_running := peak_running s; endpoints := endpoints s; targets := targets s |}.
Definition set_queue (n : nat) (q : list nat) (c : bool) (s : sched) : sched :=
  {| next_job := n; queue := q; closed := c; cancelled := cancelled s; workers := workers s;
     slots_ := slots_ s; endpoint_tokens := endpoint_tokens s; target_tokens := target_tokens s; running := running s;
     peak_running := peak_running s; endpoints := endpoints s; targets := targets s |}.
Definition set_slots (l : list slot) (s : sched) : sched :=
  {| next_job := next_job s; queue := queue s; closed := closed s; cancelled := cancelled s; workers := workers s;
     slots_ := l; endpoint_tokens := endpoint_tokens s; target_tokens := target_tokens s; running := running s;
     peak_running := peak_running s; endpoints := endpoints s; targets := targets s |}.
Definition set_cancelled (s : sched) : sched :=
  {| next_job := next_job s; queue := queue s; closed := closed s; cancelled := true; workers := workers s;
     slots_ := slots_ s; endpoint_tokens := endpoint_tokens s; target_tokens := target_tokens s; running := running s;
     peak_running := peak_running s; endpoints := endpoints s; targets := targets s |}.
Definition set_tokens (e t : gmap string Z) (s : sched) : sched :=
  {| next_job := next_job s; queue := queue s; closed := closed s; cancelled := cancelled s; workers := workers s;
     slots_ := slots_ s; endpoint_tokens := e; target_tokens := t; running := running s;
     peak_running := peak_running s; endpoints := endpoints s; targets := targets s |}.
Definition set_running (r p : Z) (s : sched) : sched :=
  {| next_job := next_job s; queue := queue s; closed := closed s; cancelled := cancelled s; workers := workers s;
     slots_ := slots_ s; endpoint_tokens := endpoint_tokens s; target_tokens := target_tokens s; running := r;
     peak_running := p; endpoints := endpoints s; targets := targets s |}.
Definition set_counters (e t : counters) (s : sched) : sched :=
  {| next_job := next_job s; queue := queue s; closed := closed s; cancelled := cancelled s; workers := workers s;
     slots_ := slots_ s; endpoint_tokens := endpoint_tokens s; target_tokens := target_tokens s; running := running s;
     peak_running := peak_running s; endpoints := e; targets := t |}.

(** ** Events *)

(** The dispatcher's loop. *)
Definition dispatch (s : sched) : option sched :=
  if closed s then None
  else if Nat.ltb (next_job s) (length jobs) then
    if Z.of_nat (length (queue s)) <? queue_size cfg
    then Some (set_queue (S (next_job s)) (queue s ++ [next_job s]) false s) else None
  else Some (set_queue (next_job s) (queue s) true s).
(** [ctx.Done] in the dispatcher: the job at hand and the rest are cancelled. *)
Definition dispatch_cancelled (s : sched) : option sched :=
  if cancelled s && negb (closed s) && Nat.ltb (next_job s) (length jobs)
  then Some (set_queue (length jobs) (queue s) true
               (set_slots (take (next_job s) (slots_ s) ++ replicate (length jobs - next_job s) CancelledJob) s))
  else None.

(** One action of a worker. *)
Definition work (j : nat) (s : sched) : option sched :=
  w ← workers s !! j;
  match w with
  | Idle =>
      match queue s with
      | i :: q => Some (set_worker j (HasJob i) (set_queue (next_job s) q (closed s) s))
      | [] => if closed s then Some (set_worker j Exited s) else None
      end
  | HasJob i =>
      if at_key (endpoint_tokens s) (endpoint_of i) <? perEndpoint cfg
      then Some (set_worker j (HasEndpoint i) (set_tokens (bump (endpoint_of i) 1 (endpoint_tokens s)) (target_tokens s) s))
      else None
  | HasEndpoint i =>
      if at_key (target_tokens s) (target_of i) <? perTarget cfg
      then Some (set_worker j (HasBoth i) (set_tokens (endpoint_tokens s) (bump (target_of i) 1 (target_tokens s)) s))
      else None
  | HasBoth i =>
      Some (set_worker j (RunningAdded i (running s + 1)) (set_running (running s + 1) (peak_running s) s))
  | RunningAdded i now => Some (set_worker j (RunningPeaked i) (set_running (running s) (Z.max (peak_running s) now) s))
  | RunningPeaked i =>
      let c := bump (endpoint_of i) 1 (current (endpoints s)) in
      Some (set_worker j (EndpointAdded i (at_key c (endpoint_of i)))
              (set_counters {| current := c; peak := peak (endpoints s) |} (targets s) s))
  | EndpointAdded i e =>
      let c := bump (target_of i) 1 (current (targets s)) in
      Some (set_worker j (BothAdded i e (at_key c (target_of i)))
              (set_counters (endpoints s) {| current := c; peak := peak (targets s) |} s))
  | BothAdded i e t =>
      Some (set_worker j (EndpointPeaked i t) (set_counters
              {| current := current (endpoints s); peak := raise_peak (endpoint_of i) e (peak (endpoints s)) |} (targets s) s))
  | EndpointPeaked i t =>
      Some (set_worker j (Executing i) (set_counters (endpoints s)
              {| current := current (targets s); peak := raise_peak (target_of i) t (peak (targets s)) |} s))
  | Executing _ => None
  | Executed i =>
      Some (set_worker j (TargetSubtracted i) (set_counters (endpoints s)
              {| current := bump (target_of i) (-1) (current (targets s)); peak := peak (targets s) |} s))
  | TargetSubtracted i =>
      Some (set_worker j (EndpointSubtracted i) (set_counters
              {| current := bump (endpoint_of i) (-1) (current (endpoints s)); peak := peak (endpoints s) |} (targets s) s))
  | EndpointSubtracted i => Some (set_worker j (Uncounted i) (set_running (running s - 1) (peak_running s) s))
  | Uncounted i => Some (set_worker j (ReleasedTarget i) (set_tokens (endpoint_tokens s) (bump (target_of i) (-1) (target_tokens s)) s))
  | ReleasedTarget i => Some (set_worker j Idle (set_tokens (bump (endpoint_of i) (-1) (endpoint_tokens s)) (target_tokens s) s))
  | Exited => None
  end.

Definition return_ (j : nat) (a : A) (s : sched) : option sched :=
  w ← workers s !! j;
  match w with
  | Executing i => Some (set_worker j (Executed i) (set_slots (<[i := Returned a]> (slots_ s)) s))
  | _ => None
  end.
(** [acquire] returns false. *)
Definition work_cancelled (j : nat) (s : sched) : option sched :=
  w ← workers s !! j;
  if negb (cancelled s) then None else
  match w with
  | HasJob i => Some (set_worker j Idle (set_slots (<[i := CancelledJob]> (slots_ s)) s))
  | HasEndpoint i =>
      Some (set_worker j Idle (set_slots (<[i := CancelledJob]> (slots_ s))
              (set_tokens (bump (endpoint_of i) (-1) (endpoint_tokens s)) (target_tokens s) s)))
  | _ => None
  end.

Definition handle (e : event) (s : sched) : option sched :=
  match e with
  | Dispatch => dispatch s
  | DispatchCancelled => dispatch_cancelled s
  | Step j => work j s
  | Return j a => return_ j a s
  | StepCancelled j => work_cancelled j s
  | Cancel => if cancelled s then None else Some (set_cancelled s)
  end.

(** [wait.Wait] returned. *)
Definition finished (s : sched) : Prop := closed s = true ∧ Forall (eq Exited) (workers s).

(** [Run] before the goroutines start. *)
Inductive schedule_error := JobLimit | InvalidJob.
Definition check_jobs : result schedule_error () :=
  if maxJobs cfg <? Z.of_nat (length jobs) then Err JobLimit
  else if existsb (λ x, bool_decide (job_endpoint x = "<invalid-endpoint-id>") || bool_decide (job_target x = "")) jobs
  then Err InvalidJob else Ok ().

(** The states a run goes through, and how many events it took. *)
Inductive runs_to : nat → sched → Prop :=
| runs_initial : runs_to 0 initial
| runs_event n s e s' : runs_to n s → handle e s = Some s' → runs_to (S n) s'.

(** [maxPeak]. *)
Definition maxPeak (c : counters) : Z := map_fold (λ _ v m, Z.max v m) 0 (peak c).
Record Stats := { stat_jobs : Z; peakRunning : Z; peakEndpointRunning : Z; peakTargetRunning : Z }.
Definition stats (s : sched) : Stats :=
  {| stat_jobs := Z.of_nat (length jobs); peakRunning := peak_running s; peakEndpointRunning := maxPeak (endpoints s);
     peakTargetRunning := maxPeak (targets s) |}.

(** ** Counting workers *)

Definition cnt (p : worker → bool) (ws : list worker) : Z := Z.of_nat (length (filter (λ w, p w = true) ws)).
Definition b2z (b : bool) : Z := if b then 1 else 0.

Lemma cnt_cons p w ws : cnt p (w :: ws) = b2z (p w) + cnt p ws.
Proof.
  unfold cnt, b2z. destruct (p w) eqn:E.
  - rewrite filter_cons_True by done. simpl length. lia.
  - rewrite filter_cons_False by congruence. lia.
Qed.
Lemma cnt_insert p ws j w w' : ws !! j = Some w → cnt p (<[j := w']> ws) = cnt p ws - b2z (p w) + b2z (p w').
Proof.
  revert j. induction ws as [|x ws IH]; intros [|j]; simpl; [done..| |].
  - intros [= ->]. rewrite !cnt_cons. lia.
  - intros E. rewrite !cnt_cons, IH by done. lia.
Qed.
Lemma cnt_pos p ws : 0 ≤ cnt p ws.
Proof. unfold cnt. lia. Qed.
Lemma cnt_le_length p ws : cnt p ws ≤ Z.of_nat (length ws).
Proof. apply inj_le, length_filter. Qed.
Lemma cnt_mono p q ws : (∀ w, p w = true → q w = true) → cnt p ws ≤ cnt q ws.
Proof.
  intros Hpq. induction ws as [|w ws IH]; [done|]. rewrite !cnt_cons.
  pose proof (Hpq w). unfold b2z. destruct (p w), (q w); [lia|naive_solver|lia|lia].
Qed.
Lemma cnt_zero p ws : (∀ w, w ∈ ws → p w = false) → cnt p ws = 0.
Proof.
  intros Hp. induction ws as [|w ws IH]; [done|]. rewrite cnt_cons, IH by (intros x Hx; apply Hp; by right).
  by rewrite Hp by by left.
Qed.

Lemma at_key_bump k d m k' : at_key (bump k d m) k' = at_key m k' + if bool_decide (k = k') then d else 0.
Proof.
  unfold at_key, bump. case_bool_decide as E.
  - subst k'. by rewrite lookup_insert_eq.
  - rewrite lookup_insert_ne by done. unfold at_key. lia.
Qed.

Definition isRunning (w : worker) : bool :=
  match w with
  | RunningAdded _ _ | RunningPeaked _ | EndpointAdded _ _ | BothAdded _ _ _ | EndpointPeaked _ _ | Executing _ | Executed _
  | TargetSubtracted _ | EndpointSubtracted _ => true
  | _ => false
  end.
(** The job whose semaphores, or whose counters, a worker has taken. *)
Definition holds_target_of (w : worker) : option nat :=
  match w with
  | HasBoth i | RunningAdded i _ | RunningPeaked i | EndpointAdded i _ | BothAdded i _ _ | EndpointPeaked i _ | Executing i
  | Executed i | TargetSubtracted i | EndpointSubtracted i | Uncounted i => Some i
  | _ => None
  end.
Definition holds_endpoint_of (w : worker) : option nat :=
  match w with HasEndpoint i | ReleasedTarget i => Some i | _ => holds_target_of w end.
Definition counts_target_of (w : worker) : option nat :=
  match w with BothAdded i _ _ | EndpointPeaked i _ | Executing i | Executed i => Some i | _ => None end.
Definition counts_endpoint_of (w : worker) : option nat :=
  match w with EndpointAdded i _ | TargetSubtracted i => Some i | _ => counts_target_of w end.
Definition has_key (key : nat → string) (k : string) (i : option nat) : bool :=
  match i with Some i => bool_decide (key i = k) | None => false end.
Definition holdsEndpoint (k : string) (w : worker) : bool := has_key endpoint_of k (holds_endpoint_of w).
Definition holdsTarget (k : string) (w : worker) : bool := has_key target_of k (holds_target_of w).
Definition countsEndpoint (k : string) (w : worker) : bool := has_key endpoint_of k (counts_endpoint_of w).
Definition countsTarget (k : string) (w : worker) : bool := has_key target_of k (counts_target_of w).
(** What is counted is held. *)
Lemma countsEndpoint_holds k w : countsEndpoint k w = true → holdsEndpoint k w = true.
Proof. by destruct w. Qed.
Lemma countsTarget_holds k w : countsTarget k w = true → holdsTarget k w = true.
Proof. by destruct w. Qed.
(** A worker inside [Execute]. *)
Definition executing (w : worker) : bool := match w with Executing _ => true | _ => false end.

(** The semaphores and counters are what the workers hold. *)
Record counts_ok (s : sched) : Prop := {
  co_endpoint k : at_key (endpoint_tokens s) k = cnt (holdsEndpoint k) (workers s) ∧
    (cnt (holdsEndpoint k) (workers s) ≤ perEndpoint cfg);
  co_target k : at_key (target_tokens s) k = cnt (holdsTarget k) (workers s) ∧
    (cnt (holdsTarget k) (workers s) ≤ perTarget cfg);
  co_running : running s = cnt isRunning (workers s);
  co_endpoints k : at_key (current (endpoints s)) k = cnt (countsEndpoint k) (workers s);
  co_targets k : at_key (current (targets s)) k = cnt (countsTarget k) (workers s);
}.

Ltac split_handle H :=
  repeat match type of H with
  | (_ ≫= _) = Some _ => apply bind_Some in H as (?&?&H)
  | match ?x with _ => _ end = Some _ => destruct x eqn:?; try discriminate H
  | (if ?x then _ else _) = Some _ => destruct x eqn:?; try discriminate H
  end; try (injection H as <-).

(** A worker moves from [w] to [w']: the semaphores and counters change by
    what it holds more or less. *)
Record moves (s s' : sched) (j : nat) (w w' : worker) : Prop := {
  mv_worker : workers s !! j = Some w;
  mv_workers : workers s' = <[j := w']> (workers s);
  mv_endpoint k : at_key (endpoint_tokens s') k =
    at_key (endpoint_tokens s) k - b2z (holdsEndpoint k w) + b2z (holdsEndpoint k w');
  mv_endpoint_le k : at_key (endpoint_tokens s) k ≤ perEndpoint cfg → at_key (endpoint_tokens s') k ≤ perEndpoint cfg;
  mv_target k : at_key (target_tokens s') k = at_key (target_tokens s) k - b2z (holdsTarget k w) + b2z (holdsTarget k w');
  mv_target_le k : at_key (target_tokens s) k ≤ perTarget cfg → at_key (target_tokens s') k ≤ perTarget cfg;
  mv_running : running s' = running s - b2z (isRunning w) + b2z (isRunning w');
  mv_endpoints k : at_key (current (endpoints s')) k =
    at_key (current (endpoints s)) k - b2z (countsEndpoint k w) + b2z (countsEndpoint k w');
  mv_targets k : at_key (current (targets s')) k =
    at_key (current (targets s)) k - b2z (countsTarget k w) + b2z (countsTarget k w');
}.

(** No worker moves. *)
Definition stays (s s' : sched) : Prop :=
  workers s' = workers s ∧ endpoint_tokens s' = endpoint_tokens s ∧ target_tokens s' = target_tokens s ∧
  running s' = running s ∧ endpoints s' = endpoints s ∧ targets s' = targets s ∧ peak_running s' = peak_running s.

Lemma handle_moves e s s' : handle e s = Some s' → stays s s' ∨ ∃ j w w', moves s s' j w w'.
Proof.
  intros E. destruct e; simpl in E; unfold dispatch, dispatch_cancelled, work, return_, work_cancelled in E; split_handle E;
    first [left; by repeat split|right; eexists j, _, _; split; [eassumption|reflexivity|..]]; simpl; intros;
    unfold holdsEndpoint, holdsTarget, countsEndpoint, countsTarget; simpl; rewrite ?at_key_bump; bool_to_prop; unfold b2z; repeat case_bool_decide; subst;
    simpl; lia.
Qed.

Lemma counts_step e s s' : handle e s = Some s' → counts_ok s → counts_ok s'.
Proof.
  intros [(E1&E2&E3&E4&E5&E6&_)|(j&w&w'&[]) ]%handle_moves [].
  { split; intros; rewrite ?E1, ?E2, ?E3, ?E4, ?E5, ?E6; auto. }
  split; intros; rewrite ?mv_workers0; rewrite !(cnt_insert _ _ _ w) by done.
  - specialize (mv_endpoint0 k). specialize (mv_endpoint_le0 k). destruct (co_endpoint0 k). lia.
  - specialize (mv_target0 k). specialize (mv_target_le0 k). destruct (co_target0 k). lia.
  - lia.
  - rewrite mv_endpoints0, co_endpoints0. lia.
  - rewrite mv_targets0, co_targets0. lia.
Qed.

Lemma counts_initial : schedule_valid cfg = true → counts_ok initial.
Proof.
  intros Hv. unfold schedule_valid in Hv. bool_to_prop.
  assert (∀ p : worker → bool, p Idle = false → cnt p (workers initial) = 0) as Hc.
  { intros p Hp. apply cnt_zero. simpl. intros w Hw. apply elem_of_replicate in Hw as [-> _]. done. }
  split; intros; simpl; rewrite ?Hc by done; unfold at_key; rewrite ?lookup_empty; simpl; lia.
Qed.

(** ** Peaks *)

Definition worker_count : nat := Z.to_nat (Z.min (concurrency cfg) (Z.of_nat (length jobs))).
(** The values a worker saw when it incremented the counters. *)
Definition seen_ok (w : worker) : Prop :=
  match w with
  | RunningAdded _ now => now ≤ Z.of_nat worker_count
  | EndpointAdded _ e => e ≤ perEndpoint cfg
  | BothAdded _ e t => e ≤ perEndpoint cfg ∧ t ≤ perTarget cfg
  | EndpointPeaked _ t => t ≤ perTarget cfg
  | _ => True
  end.
Record peaks_ok (s : sched) : Prop := {
  po_length : length (workers s) = worker_count;
  po_seen : Forall seen_ok (workers s);
  po_running : 0 ≤ peak_running s ≤ Z.of_nat worker_count;
  po_endpoints k v : peak (endpoints s) !! k = Some v → v ≤ perEndpoint cfg;
  po_targets k v : peak (targets s) !! k = Some v → v ≤ perTarget cfg;
}.

Lemma raise_peak_le k v m b : 0 ≤ b → v ≤ b → (∀ k x, m !! k = Some x → x ≤ b) →
  ∀ k' x, raise_peak k v m !! k' = Some x → x ≤ b.
Proof.
  intros Hb Hv Hm k' x. unfold raise_peak, at_key. destruct (decide (k = k')) as [->|Hk].
  - rewrite lookup_insert_eq. intros [= <-]. destruct (m !! k') as [y|] eqn:E; simpl; [specialize (Hm _ _ E)|]; lia.
  - rewrite lookup_insert_ne by done. apply Hm.
Qed.

Lemma cnt_next p ws j w : ws !! j = Some w → p w = false → cnt p ws + 1 ≤ Z.of_nat (length ws).
Proof.
  revert j. induction ws as [|x ws IH]; intros [|j]; simpl length; [done..| |].
  - intros [= ->] Hp. rewrite cnt_cons, Hp. pose proof (cnt_le_length p ws). simpl. lia.
  - intros Hj Hp. specialize (IH j Hj Hp). rewrite cnt_cons. unfold b2z. destruct (p x); lia.
Qed.

Lemma peaks_step e s s' : schedule_valid cfg = true → handle e s = Some s' → counts_ok s → peaks_ok s → peaks_ok s'.
Proof.
  intros Hv E Hc [P1 P2 P3 P4 P5]. pose proof (counts_step _ _ _ E Hc) as Hc'.
  unfold schedule_valid in Hv. bool_to_prop.
  destruct e; simpl in E; unfold dispatch, dispatch_cancelled, work, return_, work_cancelled in E; split_handle E;
    try (split; simpl; [by rewrite ?length_insert|try (apply Forall_insert; [done|]); done|done|done|done]).
  all: match goal with Hw : workers _ !! _ = Some _ |- _ => pose proof (Forall_lookup_1 _ _ _ _ P2 Hw) as Hseen; simpl in Hseen end.
  all: split; simpl; [by rewrite length_insert|apply Forall_insert; [done|simpl]|..]; try done; try lia.
  - rewrite (co_running _ Hc), <-P1. by eapply cnt_next.
  - pose proof (co_endpoints _ Hc' (endpoint_of i)) as He. simpl in He. rewrite He.
    etrans; [apply cnt_mono, countsEndpoint_holds|apply (co_endpoint _ Hc' (endpoint_of i))].
  - split; [done|]. pose proof (co_targets _ Hc' (target_of i)) as Ht. simpl in Ht. rewrite Ht.
    etrans; [apply cnt_mono, countsTarget_holds|apply (co_target _ Hc' (target_of i))].
  - apply raise_peak_le; [lia|apply Hseen|done].
  - apply raise_peak_le; [lia|done|done].
Qed.

Lemma peaks_initial : peaks_ok initial.
Proof.
  split; simpl; [apply length_replicate|by apply Forall_replicate|lia|by intros k v; rewrite lookup_empty..].
Qed.

(** ** Every job is somewhere *)

Definition pending_job (w : worker) : option nat :=
  match w with
  | HasJob i | HasEndpoint i | HasBoth i | RunningAdded i _ | RunningPeaked i | EndpointAdded i _ | BothAdded i _ _
  | EndpointPeaked i _ | Executing i => Some i
  | _ => None
  end.
Definition pending_jobs (ws : list worker) : list nat := ws ≫= λ w, option_list (pending_job w).
(** The jobs without a result: not yet dispatched, queued, or with a worker. *)
Definition unresolved (s : sched) : list nat :=
  seq (next_job s) (length jobs - next_job s) ++ queue s ++ pending_jobs (workers s).

(** The unresolved jobs are distinct and are those whose slot is unset. *)
Definition tracked (l : list nat) (sl : list slot) : Prop :=
  length sl = length jobs ∧ NoDup l ∧ ∀ i, i ∈ l ↔ sl !! i = Some Unset.
Record jobs_ok (s : sched) : Prop := {
  jo_tracked : tracked (unresolved s) (slots_ s);
  jo_next : (next_job s ≤ length jobs)%nat;
  jo_closed : closed s = true → next_job s = length jobs;
  jo_cancel i : slots_ s !! i = Some CancelledJob → cancelled s = true;
  jo_exited : Exited ∈ workers s → closed s = true ∧ queue s = [];
}.

Lemma tracked_perm l l' sl : l ≡ₚ l' → tracked l sl → tracked l' sl.
Proof. intros Hp (?&?&Hi). split_and!; [done|by rewrite <-Hp|]. intros i. by rewrite <-Hp. Qed.
Lemma tracked_resolve l l' sl i v : l ≡ₚ i :: l' → v ≠ Unset → tracked l sl → tracked l' (<[i := v]> sl).
Proof.
  intros Hp Hv (Hl&Hn&Hi). rewrite Hp, NoDup_cons in Hn. destruct Hn as [Hni Hn]. split_and!; [by rewrite length_insert|done|].
  intros k. assert (i < length sl)%nat as Hlt.
  { apply lookup_lt_is_Some. exists Unset. apply Hi. rewrite Hp. by left. }
  destruct (decide (k = i)) as [->|Hk].
  - rewrite list_lookup_insert_eq by done. split; [done|]. by intros [=].
  - rewrite list_lookup_insert_ne by done. rewrite <-Hi, Hp, elem_of_cons. naive_solver.
Qed.

Lemma pending_split ws j w w' : ws !! j = Some w → ∃ rest,
  pending_jobs ws ≡ₚ option_list (pending_job w) ++ rest ∧
  pending_jobs (<[j := w']> ws) ≡ₚ option_list (pending_job w') ++ rest.
Proof.
  intros Hj. pose proof (lookup_lt_Some _ _ _ Hj) as Hlt. exists (pending_jobs (take j ws ++ drop (S j) ws)).
  unfold pending_jobs. split.
  - rewrite <-(take_drop_middle ws j w Hj) at 1. rewrite !bind_app, bind_cons, Permutation_app_swap_app. done.
  - rewrite insert_take_drop by done. rewrite !bind_app, bind_cons, Permutation_app_swap_app. done.
Qed.

(** A move that keeps the job, and one that resolves it. *)
Lemma unresolved_keep s j w w' q : workers s !! j = Some w →
  option_list (pending_job w) ++ queue s ≡ₚ option_list (pending_job w') ++ q →
  seq (next_job s) (length jobs - next_job s) ++ q ++ pending_jobs (<[j := w']> (workers s)) ≡ₚ unresolved s.
Proof.
  intros Hj Hq. destruct (pending_split _ j w w' Hj) as (rest&E1&E2). unfold unresolved. rewrite E1, E2.
  apply Permutation_app_head. rewrite (Permutation_app_swap_app q), (Permutation_app_swap_app (queue s)).
  rewrite !(assoc (++)). by rewrite Hq.
Qed.
Lemma unresolved_done s j w w' i : workers s !! j = Some w → pending_job w = Some i → pending_job w' = None →
  unresolved s ≡ₚ i :: seq (next_job s) (length jobs - next_job s) ++ queue s ++ pending_jobs (<[j := w']> (workers s)).
Proof.
  intros Hj Hw Hw'. destruct (pending_split _ j w w' Hj) as (rest&E1&E2). unfold unresolved. rewrite E1, E2, Hw, Hw'. simpl.
  rewrite <-Permutation_middle, <-Permutation_middle. done.
Qed.

Lemma exited_insert (j : nat) w (ws : list worker) : w ≠ Exited → Exited ∈ <[j := w]> ws → Exited ∈ ws.
Proof.
  intros Hw [k Hk]%list_elem_of_lookup. destruct (decide (j = k)) as [->|Hjk].
  - destruct (decide (k < length ws)%nat); [rewrite list_lookup_insert_eq in Hk by done; congruence|].
    rewrite list_insert_ge in Hk by lia. by eapply list_elem_of_lookup_2.
  - rewrite list_lookup_insert_ne in Hk by done. by eapply list_elem_of_lookup_2.
Qed.

Lemma cancel_insert (sl : list slot) i v : v ≠ CancelledJob → ∀ k, <[i := v]> sl !! k = Some CancelledJob → sl !! k = Some CancelledJob.
Proof.
  intros Hv k. destruct (decide (i = k)) as [->|Hk]; [|by rewrite list_lookup_insert_ne].
  destruct (decide (k < length sl)%nat); [rewrite list_lookup_insert_eq by done; congruence|].
  by rewrite list_insert_ge by lia.
Qed.

Lemma dispatch_cancelled_tracked s : jobs_ok s → (next_job s < length jobs)%nat →
  tracked (queue s ++ pending_jobs (workers s))
    (take (next_job s) (slots_ s) ++ replicate (length jobs - next_job s) CancelledJob).
Proof.
  intros [(Hl&Hn&Hi) Hnx _ _ _] Hlt. unfold unresolved in Hn, Hi. apply NoDup_app in Hn as (_&Hdis&Hn).
  split_and!; [rewrite length_app, length_take, length_replicate; lia|done|]. intros i.
  assert (i ∈ queue s ++ pending_jobs (workers s) → (i < next_job s)%nat) as Hsmall.
  { intros Hin. assert (slots_ s !! i = Some Unset) as Hs by (apply Hi; rewrite elem_of_app; by right).
    apply lookup_lt_Some in Hs. destruct (decide (i < next_job s)%nat); [done|].
    exfalso. apply (Hdis i); [|done]. apply elem_of_seq. lia. }
  destruct (decide (i < next_job s)%nat) as [Hs|Hs].
  - rewrite lookup_app_l by (rewrite length_take; lia). rewrite lookup_take_lt by done.
    rewrite <-Hi, (elem_of_app (seq _ _)), elem_of_seq. split; [by right|intros [|]; [lia|done]].
  - split; [intros Hin; specialize (Hsmall Hin); lia|].
    rewrite lookup_app_r by (rewrite length_take; lia). intros [[=] _]%lookup_replicate_1.
Qed.

Lemma jobs_keep s s' j w w' : jobs_ok s → workers s !! j = Some w → w' ≠ Exited →
  pending_job w' = pending_job w → workers s' = <[j := w']> (workers s) → next_job s' = next_job s → queue s' = queue s →
  closed s' = closed s → cancelled s' = cancelled s → slots_ s' = slots_ s → jobs_ok s'.
Proof.
  intros [J1 J2 J3 J4 J5] Hj Hw Hp E1 E2 E3 E4 E5 E6. split; rewrite ?E1, ?E2, ?E3, ?E4, ?E5, ?E6; auto.
  - eapply tracked_perm; [|exact J1]. unfold unresolved. rewrite E1, E2, E3. symmetry.
    apply unresolved_keep with w; [done|by rewrite Hp].
  - intros Hin%exited_insert; auto.
Qed.
Lemma jobs_done s s' j w w' i v : jobs_ok s → workers s !! j = Some w → w' ≠ Exited →
  pending_job w = Some i → pending_job w' = None → v ≠ Unset → (v = CancelledJob → cancelled s = true) →
  workers s' = <[j := w']> (workers s) → next_job s' = next_job s → queue s' = queue s →
  closed s' = closed s → cancelled s' = cancelled s → slots_ s' = <[i := v]> (slots_ s) → jobs_ok s'.
Proof.
  intros [J1 J2 J3 J4 J5] Hj Hw Hp Hp' Hv Hc E1 E2 E3 E4 E5 E6. split; rewrite ?E1, ?E2, ?E3, ?E4, ?E5, ?E6; auto.
  - eapply tracked_resolve; [|done|exact J1]. unfold unresolved at 2. rewrite E1, E2, E3. by apply unresolved_done with w.
  - intros k Hk. destruct v; [done| |auto]. apply cancel_insert in Hk; [eauto|done].
  - intros Hin%exited_insert; auto.
Qed.

Lemma jobs_dispatch s s' : handle Dispatch s = Some s' ∨ handle DispatchCancelled s = Some s' → jobs_ok s → jobs_ok s'.
Proof.
  intros E HJ. pose proof HJ as [J1 J2 J3 J4 J5]. destruct E as [E|E]; simpl in E;
    unfold dispatch, dispatch_cancelled in E; split_handle E; bool_to_prop; split; simpl; auto; try (intros; congruence).
  - eapply tracked_perm; [|exact J1]. unfold unresolved. simpl.
    destruct (length jobs - next_job s)%nat as [|d] eqn:Ed; [lia|].
    replace (length jobs - S (next_job s))%nat with d by lia. simpl.
    rewrite <-(assoc (++)). simpl. rewrite <-!Permutation_middle. done.
  - intros Hx. destruct (J5 Hx). congruence.
  - lia.
  - intros Hx. destruct (J5 Hx). congruence.
  - unfold unresolved. simpl. rewrite Nat.sub_diag. simpl. by apply dispatch_cancelled_tracked.
  - intros Hx. destruct (J5 Hx). congruence.
Qed.

Lemma jobs_step e s s' : handle e s = Some s' → jobs_ok s → jobs_ok s'.
Proof.
  intros E HJ. pose proof HJ as [J1 J2 J3 J4 J5]. destruct e; [by apply (jobs_dispatch s); auto..| | | |].
  - simpl in E. unfold work in E. split_handle E; bool_to_prop; try (eapply (jobs_keep s); [done|eassumption| | |reflexivity..]; done).
    + (* the queue is drained: the worker exits *)
      split; simpl; auto. eapply tracked_perm; [|exact J1]. unfold unresolved at 2. simpl. symmetry.
      by apply unresolved_keep with Idle.
    + (* a job is received *)
      split; simpl; auto.
      * eapply tracked_perm; [|exact J1]. unfold unresolved at 2. simpl. symmetry. apply unresolved_keep with Idle; [done|].
        simpl. by rewrite Heql.
      * intros Hin%exited_insert; [|done]. destruct (J5 Hin). congruence.
  - simpl in E. unfold return_ in E. split_handle E.
    eapply (jobs_done s); [done|eassumption| | | | | |reflexivity..]; done.
  - simpl in E. unfold work_cancelled in E. split_handle E; bool_to_prop;
      (eapply (jobs_done s); [done|eassumption| | | | | |reflexivity..]; done).
  - simpl in E. split_handle E. split; simpl; auto.
Qed.

Lemma jobs_initial : jobs_ok initial.
Proof.
  assert (pending_jobs (workers initial) = []) as Hp.
  { simpl. generalize (Z.to_nat (Z.min (concurrency cfg) (Z.of_nat (length jobs)))) as n.
    induction n as [|n IH]; [done|]. simpl. exact IH. }
  split; simpl; [|lia|done| |].
  - unfold unresolved. rewrite Hp. simpl. rewrite Nat.sub_0_r, app_nil_r. split_and!; [apply length_replicate|apply NoDup_seq|].
    intros i. rewrite elem_of_seq, lookup_replicate. naive_solver lia.
  - intros i [[=] _]%lookup_replicate_1.
  - intros [[=] _]%elem_of_replicate.
Qed.

(** ** Termination *)

Definition weight (w : worker) : nat :=
  match w with
  | Exited => 0 | Idle => 1 | ReleasedTarget _ => 2 | Uncounted _ => 3 | EndpointSubtracted _ => 4
  | TargetSubtracted _ => 5 | Executed _ => 6 | Executing _ => 7 | EndpointPeaked _ _ => 8 | BothAdded _ _ _ => 9
  | EndpointAdded _ _ => 10 | RunningPeaked _ => 11 | RunningAdded _ _ => 12 | HasBoth _ => 13 | HasEndpoint _ => 14 | HasJob _ => 15
  end.
Definition total_weight (ws : list worker) : nat := sum_list (weight <$> ws).
Definition fuel (s : sched) : nat :=
  17 * (length jobs - next_job s) + 16 * length (queue s) + total_weight (workers s) +
  (if closed s then 0 else 1) + (if cancelled s then 0 else 1).

Lemma total_weight_insert ws j w w' : ws !! j = Some w →
  (total_weight (<[j := w']> ws) + weight w = total_weight ws + weight w')%nat.
Proof.
  revert j. unfold total_weight. induction ws as [|x ws IH]; intros [|j]; csimpl; [done..| |].
  - intros [= ->]. lia.
  - intros E. specialize (IH j E). lia.
Qed.

(** Every event uses fuel, so no run is infinite. *)
Lemma handle_fuel e s s' : handle e s = Some s' → jobs_ok s → (fuel s' < fuel s)%nat.
Proof.
  intros E [_ J2 _ _ _]. unfold fuel.
  destruct e; simpl in E; unfold dispatch, dispatch_cancelled, work, return_, work_cancelled in E; split_handle E; bool_to_prop;
    simpl; repeat match goal with Hb : ?b = _ |- context [if ?b then _ else _] => rewrite Hb end;
    try match goal with Hw : workers s !! ?j = Some _ |- context [total_weight (<[?j := ?w']> _)] =>
      pose proof (total_weight_insert _ _ _ w' Hw) as Ht; simpl in Ht end;
    repeat match goal with Hq : queue s = _ |- _ => rewrite Hq; clear Hq end; rewrite ?length_app; simpl; try lia.
Qed.

(** ** Progress *)

Lemma not_all_exited ws : ¬ Forall (eq Exited) ws → ∃ j w, ws !! j = Some w ∧ w ≠ Exited.
Proof.
  induction ws as [|w ws IH]; intros Hn; [by destruct Hn|]. destruct w; try (by exists 0%nat; eexists; split).
  destruct IH as (j&w&Hj&Hw); [intros Hf; apply Hn; by constructor|]. by exists (S j), w.
Qed.
(** A worker that holds a semaphore can go on, unless it waits for a target. *)
Definition waiting (w : worker) : bool := match w with HasJob _ | HasEndpoint _ | Idle | Exited => true | _ => false end.
Lemma busy_steps (a : A) s j w : workers s !! j = Some w → waiting w = false → ∃ e, is_Some (handle e s) ∧ e ≠ Cancel.
Proof.
  intros Hj Hw. destruct w; try done;
    try (exists (Step j); split; [simpl; unfold work; rewrite Hj; by eexists|done]).
  exists (Return j a). split; [|done]. simpl. unfold return_. rewrite Hj. by eexists.
Qed.
Lemma cnt_zero_lookup p ws : (∀ j w, ws !! j = Some w → p w = false) → cnt p ws = 0.
Proof. intros Hp. apply cnt_zero. intros w [j Hj]%list_elem_of_lookup. eauto. Qed.

Lemma idle_steps s j : 1 ≤ queue_size cfg → workers s !! j = Some Idle → ∃ e, is_Some (handle e s) ∧ e ≠ Cancel.
Proof.
  intros Hq Hj. destruct (queue s) as [|i q] eqn:Eq.
  - destruct (closed s) eqn:Ecl.
    + exists (Step j). split; [|done]. simpl. unfold work. rewrite Hj. simpl. rewrite Eq, Ecl. by eexists.
    + exists Dispatch. split; [|done]. simpl. unfold dispatch. rewrite Ecl, Eq. simpl.
      rewrite (proj2 (Z.ltb_lt 0 _)) by lia. by destruct (Nat.ltb _ _); eexists.
  - exists (Step j). split; [|done]. simpl. unfold work. rewrite Hj. simpl. rewrite Eq. by eexists.
Qed.
(** If nobody holds the semaphore a worker waits for, it can take it. *)
Lemma endpoint_steps s j i : 1 ≤ perEndpoint cfg → counts_ok s → workers s !! j = Some (HasJob i) →
  (∀ j w k, workers s !! j = Some w → holdsEndpoint k w = false) → ∃ e, is_Some (handle e s) ∧ e ≠ Cancel.
Proof.
  intros Hp Hc Hj Hne. exists (Step j). split; [|done]. simpl. unfold work. rewrite Hj. simpl.
  destruct (co_endpoint _ Hc (endpoint_of i)) as [-> _]. rewrite cnt_zero_lookup by eauto.
  rewrite (proj2 (Z.ltb_lt 0 _)) by lia. by eexists.
Qed.
Lemma target_steps s j i : 1 ≤ perTarget cfg → counts_ok s → workers s !! j = Some (HasEndpoint i) →
  (∀ j w k, workers s !! j = Some w → holdsTarget k w = false) → ∃ e, is_Some (handle e s) ∧ e ≠ Cancel.
Proof.
  intros Hp Hc Hj Hne. exists (Step j). split; [|done]. simpl. unfold work. rewrite Hj. simpl.
  destruct (co_target _ Hc (target_of i)) as [-> _]. rewrite cnt_zero_lookup by eauto.
  rewrite (proj2 (Z.ltb_lt 0 _)) by lia. by eexists.
Qed.
Definition wants_target (w : worker) : bool := match w with HasEndpoint _ => true | _ => false end.
Lemma all_or_one (p : worker → bool) (ws : list worker) : (∃ j w, ws !! j = Some w ∧ p w = true) ∨ ∀ j w, ws !! j = Some w → p w = false.
Proof.
  destruct (decide (Exists (λ w, p w = true) ws)) as [He|He].
  - left. apply Exists_exists in He as (w&[j Hj]%list_elem_of_lookup&Hw). eauto.
  - right. intros j w Hj. destruct (p w) eqn:E; [|done]. destruct He. apply Exists_exists. exists w.
    split; [by eapply list_elem_of_lookup_2|done].
Qed.

(** No reachable state is a deadlock: if [Run] is not over, some goroutine
    can go on without the context being cancelled. *)
Lemma progress (a : A) s : schedule_valid cfg = true → counts_ok s → peaks_ok s → jobs_ok s → ¬ finished s →
  ∃ e, is_Some (handle e s) ∧ e ≠ Cancel.
Proof.
  intros Hv Hc HP HJ Hf. unfold schedule_valid in Hv. bool_to_prop.
  destruct (all_or_one (λ w, negb (waiting w)) (workers s)) as [(j&w&Hj&Hw)|Hall].
  { apply negb_true_iff in Hw. by eapply busy_steps. }
  assert (∀ j w k, workers s !! j = Some w → holdsTarget k w = false) as Hnt.
  { intros j w k Hj%Hall. by destruct w. }
  destruct (all_or_one wants_target (workers s)) as [(j&w&Hj&Hw)|Hne].
  { destruct w; try done. by eapply target_steps. }
  assert (∀ j w k, workers s !! j = Some w → holdsEndpoint k w = false) as Hnh.
  { intros j w k Hj. specialize (Hall j w Hj). specialize (Hne j w Hj). by destruct w. }
  destruct (decide (Forall (eq Exited) (workers s))) as [Hx|Hx].
  - destruct (closed s) eqn:Ecl; [by destruct Hf|]. exists Dispatch. split; [|done]. simpl. unfold dispatch. rewrite Ecl.
    destruct (Nat.ltb (next_job s) (length jobs)) eqn:En; [|by eexists]. exfalso.
    (* a worker exits only after the queue is closed, and without workers there is no job *)
    pose proof (po_length _ HP) as Hlen. unfold worker_count in Hlen. bool_to_prop.
    destruct (workers s) as [|w ws] eqn:Ews; [simpl in Hlen; lia|]. inversion Hx; subst.
    destruct (jo_exited _ HJ) as [? _]; [rewrite Ews; by left|congruence].
  - apply not_all_exited in Hx as (j&w&Hj&Hwx). pose proof (Hall j w Hj). pose proof (Hne j w Hj).
    destruct w; try done; [by eapply idle_steps|by eapply endpoint_steps].
Qed.

(** ** Theorems *)

Lemma runs_invariant n s : schedule_valid cfg = true → runs_to n s → counts_ok s ∧ peaks_ok s ∧ jobs_ok s ∧ (n + fuel s ≤ fuel initial)%nat.
Proof.
  intros Hv. induction 1 as [|n s e s' _ (Hc&Hp&HJ&Hf) E].
  - split_and!; [by apply counts_initial|apply peaks_initial|apply jobs_initial|lia].
  - pose proof (handle_fuel _ _ _ E HJ). split_and!; [by eapply counts_step|by eapply peaks_step|by eapply jobs_step|lia].
Qed.

Lemma maxPeak_le c b : 0 ≤ b → (∀ k v, peak c !! k = Some v → v ≤ b) → 0 ≤ maxPeak c ≤ b.
Proof.
  intros Hb. unfold maxPeak. induction (peak c) as [|k v m Hk Hfirst IH] using map_first_key_ind.
  - intros _. rewrite map_fold_empty. lia.
  - intros Hm. rewrite map_fold_insert_first_key by done.
    assert (v ≤ b) by (apply (Hm k); by rewrite lookup_insert_eq).
    destruct IH as [? ?]; [|lia]. intros k' v' Hk'. apply (Hm k'). rewrite lookup_insert_ne; [done|congruence].
Qed.

(** C39: At every moment of a run, under every interleaving and cancellation, at most Concurrency executions are
    running, at most PerEndpoint of any endpoint and at most PerTarget of any target, and the peaks in the statistics
    stay within these limits. *)
Theorem schedule_limits n s : schedule_valid cfg = true → runs_to n s →
  cnt executing (workers s) ≤ concurrency cfg ∧
  (∀ k, cnt (λ w, executing w && holdsEndpoint k w) (workers s) ≤ perEndpoint cfg) ∧
  (∀ k, cnt (λ w, executing w && holdsTarget k w) (workers s) ≤ perTarget cfg) ∧
  0 ≤ peakRunning (stats s) ≤ concurrency cfg ∧ 0 ≤ peakEndpointRunning (stats s) ≤ perEndpoint cfg ∧
  0 ≤ peakTargetRunning (stats s) ≤ perTarget cfg.
Proof.
  intros Hv (Hc&Hp&_&_)%runs_invariant; [|done]. pose proof Hv as Hv'. unfold schedule_valid in Hv'. bool_to_prop.
  assert (Z.of_nat worker_count ≤ concurrency cfg) as Hw by (unfold worker_count; lia).
  pose proof (cnt_le_length executing (workers s)) as Hl. rewrite (po_length _ Hp) in Hl.
  pose proof (po_running _ Hp). split_and!; simpl; try lia.
  - intros k. etrans; [|apply (co_endpoint _ Hc k)]. apply cnt_mono. intros w [_ ?]%andb_true_iff. done.
  - intros k. etrans; [|apply (co_target _ Hc k)]. apply cnt_mono. intros w [_ ?]%andb_true_iff. done.
  - by apply (maxPeak_le (endpoints s) (perEndpoint cfg)); [lia|apply Hp].
  - by apply (maxPeak_le (endpoints s) (perEndpoint cfg)); [lia|apply Hp].
  - by apply (maxPeak_le (targets s) (perTarget cfg)); [lia|apply Hp].
  - by apply (maxPeak_le (targets s) (perTarget cfg)); [lia|apply Hp].
Qed.

(** C38: Every run ends, without deadlock and with every job accounted for: a run has a bounded number of events;
    while it is not over some goroutine can go on even if nothing is cancelled; and when it is over every job has a
    result, which is what its execution returned unless the context was cancelled. *)
Theorem schedule_terminates (a : A) n s : schedule_valid cfg = true → runs_to n s →
  (n ≤ 17 * length jobs + Z.to_nat (concurrency cfg) + 2)%nat ∧
  (¬ finished s → ∃ e, is_Some (handle e s) ∧ e ≠ Cancel) ∧
  (finished s → ∀ i, (i < length jobs)%nat → ∃ v, slots_ s !! i = Some v ∧ v ≠ Unset ∧
    (cancelled s = false → ∃ r, v = Returned r)).
Proof.
  intros Hv Hrun. destruct (runs_invariant n s Hv Hrun) as (Hc&Hp&HJ&Hf). split_and!.
  - assert (fuel initial ≤ 17 * length jobs + Z.to_nat (concurrency cfg) + 2)%nat; [|lia].
    unfold fuel, total_weight. simpl. rewrite fmap_replicate. simpl.
    assert (∀ k, sum_list (replicate k 1%nat) = k) as Hs by (induction k as [|k IH]; simpl; [done|by rewrite IH]).
    rewrite Hs. lia.
  - intros Hnf. by apply progress.
  - intros [Hcl Hx] i Hi. destruct (jo_tracked _ HJ) as (Hlen&_&Ht).
    destruct (lookup_lt_is_Some_2 (slots_ s) i ltac:(lia)) as [v Hslot]. exists v. split; [done|].
    assert (v ≠ Unset) as Hset.
    { intros ->. apply Ht in Hslot. unfold unresolved in Hslot. rewrite (jo_closed _ HJ Hcl), Nat.sub_diag in Hslot. simpl in Hslot.
      assert (pending_jobs (workers s) = []) as Hpj.
      { clear -Hx. induction Hx as [|w ws <- _ IH]; [done|]. unfold pending_jobs in *. simpl. exact IH. }
      rewrite Hpj, app_nil_r in Hslot. destruct (workers s) as [|w ws] eqn:Ews.
      - pose proof (po_length _ Hp) as Hl. rewrite Ews in Hl. unfold worker_count in Hl. unfold schedule_valid in Hv. bool_to_prop.
        simpl in Hl. lia.
      - inversion Hx; subst. destruct (jo_exited _ HJ) as [_ Hq]; [rewrite Ews; by left|]. rewrite Hq in Hslot.
        by apply not_elem_of_nil in Hslot. }
    split; [done|]. intros Hnc. destruct v as [|r|]; [done|by exists r|]. apply (jo_cancel _ HJ) in Hslot. congruence.
Qed.
End scheduler.

(** ** A concrete run *)

Module ScheduleSample.
Definition cfg : ScheduleConfig := {| concurrency := 2; queue_size := 1; perEndpoint := 1; perTarget := 2; maxJobs := 10 |}.
Definition jobs : list Job := [{| job_endpoint := "a"; job_target := "t" |}; {| job_endpoint := "b"; job_target := "t" |}].
Fixpoint run (l : list (event (A:=nat))) (s : sched) : option sched :=
  match l with [] => Some s | e :: l' => s' ← handle cfg jobs e s; run l' s' end.
Lemma run_runs l n s s' : runs_to cfg jobs n s → run l s = Some s' → runs_to cfg jobs (n + length l) s'.
Proof.
  revert n s. induction l as [|e l IH]; intros n s Hs; simpl.
  - intros [= <-]. by rewrite Nat.add_0_r.
  - intros (s1&E1&E2)%bind_Some. rewrite Nat.add_succ_r, <-Nat.add_succ_l. eapply IH; [|done]. by eapply runs_event.
Qed.
(** Both jobs run at once, return, and the workers leave. *)
Definition to_both : list (event (A:=nat)) :=
  [Dispatch; Step 0; Dispatch; Step 1; Step 0; Step 0; Step 1; Step 1; Step 0; Step 1; Step 0; Step 1;
   Step 0; Step 1; Step 0; Step 1; Step 0; Step 1; Step 0; Step 1].
Definition to_end : list (event (A:=nat)) :=
  to_both ++ [Return 0 7%nat; Return 1 8%nat; Dispatch; Step 0; Step 0; Step 0; Step 0; Step 0; Step 0;
   Step 1; Step 1; Step 1; Step 1; Step 1; Step 1].
Definition both : sched := default (initial cfg jobs) (run to_both (initial cfg jobs)).
Definition end_ : sched := default (initial cfg jobs) (run to_end (initial cfg jobs)).
Lemma both_runs : runs_to cfg jobs 20 both.
Proof. apply (run_runs to_both 0 (initial cfg jobs)); [apply runs_initial|vm_compute; reflexivity]. Qed.
Lemma end_runs : runs_to cfg jobs 35 end_.
Proof. apply (run_runs to_end 0 (initial cfg jobs)); [apply runs_initial|vm_compute; reflexivity]. Qed.
Lemma end_finished : finished end_.
Proof.
  assert (workers end_ = [Exited; Exited]) as Hw by (vm_compute; reflexivity).
  split; [vm_compute; reflexivity|rewrite Hw; by repeat constructor].
Qed.
End ScheduleSample.

Lemma schedule_limits_witness :
  cnt executing (workers ScheduleSample.both) = 2 ∧ peakRunning (stats ScheduleSample.jobs ScheduleSample.both) = 2 ∧
  cnt executing (workers ScheduleSample.both) ≤ 2 ∧ peakRunning (stats ScheduleSample.jobs ScheduleSample.both) ≤ 2.
Proof.
  destruct (schedule_limits ScheduleSample.cfg ScheduleSample.jobs 20 ScheduleSample.both eq_refl ScheduleSample.both_runs)
    as (H1&_&_&H2&_). split_and!; [vm_compute; reflexivity|vm_compute; reflexivity|exact H1|apply H2].
Defined.

Lemma schedule_terminates_witness : finished ScheduleSample.end_ ∧
  ∃ v, slots_ ScheduleSample.end_ !! 1%nat = Some v ∧ v ≠ Unset ∧ ∃ r, v = Returned r.
Proof.
  destruct (schedule_terminates ScheduleSample.cfg ScheduleSample.jobs 0%nat 35 ScheduleSample.end_ eq_refl ScheduleSample.end_runs)
    as (_&_&Hf).
  split; [exact ScheduleSample.end_finished|]. destruct (Hf ScheduleSample.end_finished 1%nat) as (v&Hv&Hs&Hr); [simpl; lia|].
  exists v. split_and!; [exact Hv|exact Hs|]. apply Hr. vm_compute. reflexivity.
Defined.
