(* ===== verification/Store.v ===== *)
(** * The history store (internal/state/sqlite.go): observations

    The SQLite database is a record of tables; a statement applies its
    documented effect or fails without one, as a list of events decides, and
    a transaction that does not commit leaves the tables as they were.  This
    file has the observations table: appending with retention, loading and
    summarizing.  The rows are related to an abstract history, a list of
    observations. *)
From S2P Require Import Prelude Order Bytes Encoding Identity Artifact Observation.
From Stdlib Require Import Ascii.
From Stdlib Require String.
Open Scope Z_scope.

(** ** Failures *)

Inductive failure_kind := ErrOpen | ErrSchema | ErrPersistence.
Record Failure := failure { fkind : failure_kind; fcode : string }.
Inductive context_error := Canceled | DeadlineExceeded.
Definition contextCode (ctx : option context_error) (fallback : string) : string :=
  match ctx with Some Canceled => "cancelled" | Some DeadlineExceeded => "timeout" | None => fallback end.

(** ** Retention *)

Record Retention := { maxAge : Z; maxPerKey : Z; maxRows : Z }.
Definition DefaultRetention : Retention := {| maxAge := 30 * 24 * hour; maxPerKey := 512; maxRows := 100000 |}.
Definition retention_valid (r : Retention) : bool :=
  (minute <=? maxAge r) && (maxAge r <=? 365 * 24 * hour) && (1 <=? maxPerKey r) && (maxPerKey r <=? 10000) &&
  (1 <=? maxRows r) && (maxRows r <=? 1000000).

(** ** Tables *)

Record keyFields := {
  kf_endpointID : string; kf_connectionRevision : string; kf_targetID : string; kf_targetRevision : string;
  kf_vantageID : string; kf_kind : Kind; kf_profile : Profile;
}.
#[global] Instance keyFields_eq_dec : EqDecision keyFields.
Proof. solve_decision. Defined.
(** [ID.String]. *)
Definition ID_String (i : string) : string := if bool_decide (i = "") then "<invalid-endpoint-id>" else i.
Definition persistenceFields (k : Key) : option keyFields :=
  cr ← crev (connection k);
  tr ← trev (target k);
  Some {| kf_endpointID := ID_String (cid (connection k)); kf_connectionRevision := cr; kf_targetID := tid (target k);
          kf_targetRevision := tr; kf_vantageID := vantage k; kf_kind := kind k; kf_profile := kprofile k |}.

(** A row of [observations]; the ten key columns are [rfields]. *)
Record row := {
  sample_id : string; rfields : keyFields; started_at_ns : Z; completed_at_ns : Z; duration_ns : Z;
  outcome_code : Z; status_code : Z;
}.
#[global] Instance row_eq_dec : EqDecision row.
Proof. solve_decision. Defined.

(** A row of [selection_checkpoints], by its scope and slot. *)
Record checkpoint_row := { cpayload : string; updated_at_ns : Z }.
(** A row of [http_source_cache], by its key. *)
Record cache_row := {
  cfingerprint : string; cbody : string; cbody_digest : string; ccontent_type : string; cetag : string;
  clast_modified : string; accepted_at_ns : Z; validated_at_ns : Z;
}.
Record db := {
  observations : list row; checkpoints : gmap (string * Z) checkpoint_row; caches : gmap string cache_row;
}.
Definition with_observations (f : list row → list row) (d : db) : db :=
  {| observations := f (observations d); checkpoints := checkpoints d; caches := caches d |}.
Definition with_checkpoints (f : gmap (string * Z) checkpoint_row → gmap (string * Z) checkpoint_row) (d : db) : db :=
  {| observations := observations d; checkpoints := f (checkpoints d); caches := caches d |}.
Definition with_caches (f : gmap string cache_row → gmap string cache_row) (d : db) : db :=
  {| observations := observations d; checkpoints := checkpoints d; caches := f (caches d) |}.

(** ** Statements and transactions *)

(** What the driver answers; a failed call may have a cancelled context. *)
Inductive event := EvDone | EvFailed (ctx : option context_error).
Record sql := { tables : db; events : list event }.
Definition DB (A : Type) : Type := sql → result Failure A * sql.
#[global] Instance DB_ret : MRet DB := λ A a w, (Ok a, w).
#[global] Instance DB_bind : MBind DB := λ A B k m w,
  match m w with (Ok a, w') => k a w' | (Err e, w') => (Err e, w') end.

Definition refuse {A} (code : string) : DB A := λ w, (Err (failure ErrPersistence code), w).
Definition lift_opt {A} (code : string) (o : option A) : DB A :=
  match o with Some a => mret a | None => refuse code end.

(** One call: its value in the current tables and its effect, or the error
    that [code] makes of the state of the context. *)
Definition statement {A} (code : option context_error → string) (f : db → A * db) : DB A := λ w,
  match events w with
  | EvFailed ctx :: s => (Err (failure ErrPersistence (code ctx)), {| tables := tables w; events := s |})
  | EvDone :: s => (Ok (f (tables w)).1, {| tables := (f (tables w)).2; events := s |})
  | [] => (Ok (f (tables w)).1, {| tables := (f (tables w)).2; events := [] |})
  end.
Definition exec (code : string) (f : db → db) : DB () := statement (λ ctx, contextCode ctx code) (λ d, ((), f d)).
Definition query {A} (code : string) (f : db → A) : DB A := statement (λ ctx, contextCode ctx code) (λ d, (f d, d)).
(** Calls whose error does not look at the context. *)
Definition exec_raw (code : string) (f : db → db) : DB () := statement (λ _, code) (λ d, ((), f d)).
Definition query_raw {A} (code : string) (f : db → A) : DB A := statement (λ _, code) (λ d, (f d, d)).

(** [BeginTx], the body, [Commit]; [defer Rollback] undoes the rest. *)
Definition transaction {A} (begin_code commit_code : string) (body : DB A) : DB A := λ w,
  match (_ ← exec begin_code (λ d, d); a ← body; _ ← exec commit_code (λ d, d); mret a) w with
  | (Ok a, w') => (Ok a, w')
  | (Err e, w') => (Err e, {| tables := tables w; events := events w' |})
  end.

(** ** Appending *)

(** The column constraints of the table. *)
Definition row_allowed (r : row) : bool :=
  (slen (sample_id r) =? 32) && (slen (kf_connectionRevision (rfields r)) =? 32) &&
  (slen (kf_targetRevision (rfields r)) =? 32).
(** [INSERT OR IGNORE]: a row that breaks a constraint is skipped. *)
Definition insert_or_ignore (r : row) (l : list row) : list row :=
  if negb (row_allowed r) || bool_decide (sample_id r ∈ sample_id <$> l) then l else l ++ [r].

(** [ORDER BY completed_at_ns, sample_id]. *)
Definition row_cmp : row → row → comparison :=
  cmp_lex (cmp_on completed_at_ns Z.compare) (cmp_on sample_id bytes_compare).
(** The sample IDs [ORDER BY ... DESC LIMIT -1 OFFSET n] selects. *)
Definition beyond (n : Z) (l : list row) : list string :=
  sample_id <$> drop (Z.to_nat n) (go_sort (cmp_rev row_cmp) l).
Definition delete_samples (ids : list string) (l : list row) : list row := filter (λ r, sample_id r ∉ ids) l.

Definition prune (rt : Retention) (f : keyFields) (now : Z) : DB () :=
  let cutoff := unix_nano (now - maxAge rt) in
  _ ← exec "retention_age" (with_observations (filter (λ r, ¬ completed_at_ns r < cutoff)));
  _ ← exec "retention_checkpoints" (with_checkpoints (filter (λ kv, ¬ updated_at_ns kv.2 < cutoff)));
  _ ← exec "retention_key" (with_observations (λ l,
        delete_samples (beyond (maxPerKey rt) (filter (λ r, rfields r = f) l)) l));
  exec "retention_global" (with_observations (λ l, delete_samples (beyond (maxRows rt) l) l)).

Definition row_of (f : keyFields) (v : Observation) : row :=
  {| sample_id := sampleID v; rfields := f; started_at_ns := unix_nano (startedAt v);
     completed_at_ns := unix_nano (completedAt v); duration_ns := duration v;
     outcome_code := Outcome_code (outcome v); status_code := statusCode v |}.

Definition Append (rt : Retention) (v : Observation) (now : Z) : DB () :=
  if is_zero now then refuse "evaluation_time" else
  f ← lift_opt "key" (persistenceFields (key v));
  transaction "begin" "commit"
    (_ ← exec "insert" (with_observations (insert_or_ignore (row_of f v)));
     prune rt f now).

(** ** Loading *)

(** [observation.Outcome(int)]: the value modulo 256. *)
Definition Outcome_of_code (z : Z) : Outcome :=
  match z `mod` 256 with
  | 1 => OutcomeSuccess | 2 => OutcomeTimeout | 3 => OutcomeConnectionFailure | 4 => OutcomeTLSFailure
  | 5 => OutcomeUnexpectedResponse | 6 => OutcomeResponseTooLarge | _ => OutcomeUnknown
  end.

Section history.
Context `{Digest}.

(** One row of the scan: the observation is made anew and must have the
    stored digest. *)
Definition restore_row (k : Key) (r : row) : option Observation :=
  match New k (from_unix_nano (started_at_ns r)) (from_unix_nano (completed_at_ns r)) (duration_ns r)
            (Outcome_of_code (outcome_code r)) (status_code r) with
  | Ok v => if bool_decide (sample_id r = sampleID v) then Some v else None
  | Err _ => None
  end.

Definition Load (k : Key) (from through : Z) : DB (list Observation) :=
  if is_zero from || is_zero through || (through <? from) then refuse "query_window" else
  f ← lift_opt "key" (persistenceFields k);
  rows ← query "query" (λ d,
    go_sort row_cmp (filter (λ r, rfields r = f ∧ unix_nano from ≤ completed_at_ns r ≤ unix_nano through)
                       (observations d)));
  values ← lift_opt "corrupt_row" (mapM (restore_row k) rows);
  _ ← exec "query_rows" (λ d, d);
  mret values.

(** [Store.Summarize]. *)
Definition Store_Summarize (k : Key) (now window freshness : Z) : DB Summary :=
  values ← Load k (now - window) now;
  match Summarize k values now window freshness with
  | Ok s => mret s
  | Err _ => refuse "summary"
  end.

Definition Count : DB Z := query "count" (λ d, Z.of_nat (length (observations d))).
End history.

(** ** Statements, by their outcome *)

Lemma statement_Ok {A} code (f : db → A * db) w : events w = [] →
  statement code f w = (Ok (f (tables w)).1, {| tables := (f (tables w)).2; events := [] |}).
Proof. unfold statement. by intros ->. Qed.

Lemma statement_inv {A} code (f : db → A * db) w a w' : statement code f w = (Ok a, w') →
  a = (f (tables w)).1 ∧ tables w' = (f (tables w)).2.
Proof. unfold statement. destruct (events w) as [|[|ctx] s]; intros [= <- <-]; done. Qed.

Lemma DB_bind_inv {A B} (m : DB A) (k : A → DB B) w b w' : (m ≫= k) w = (Ok b, w') →
  ∃ a w1, m w = (Ok a, w1) ∧ k a w1 = (Ok b, w').
Proof. unfold mbind, DB_bind. destruct (m w) as [[a|e] w1] eqn:E; [eauto|done]. Qed.

Lemma DB_bind_Ok {A B} (m : DB A) (k : A → DB B) w a w1 : m w = (Ok a, w1) → (m ≫= k) w = k a w1.
Proof. unfold mbind, DB_bind. by intros ->. Qed.

(** Run through the statements of a computation that returned. *)
Ltac db_inv :=
  repeat match goal with
  | H : mbind (M:=DB) _ _ _ = (Ok _, _) |- _ => apply DB_bind_inv in H as (?&?&?&?)
  | H : exec _ _ _ = (Ok _, _) |- _ => unfold exec in H
  | H : exec_raw _ _ _ = (Ok _, _) |- _ => unfold exec_raw in H
  | H : query _ _ _ = (Ok _, _) |- _ => unfold query in H
  | H : query_raw _ _ _ = (Ok _, _) |- _ => unfold query_raw in H
  | H : statement _ _ _ = (Ok _, _) |- _ => apply statement_inv in H as [? ?]; simpl in *
  | H : mret _ _ = (Ok _, _) |- _ => injection H as ? ?; subst
  | H : refuse _ _ = (Ok _, _) |- _ => discriminate H
  | H : lift_opt _ ?o _ = (Ok _, _) |- _ => destruct o eqn:?; [simpl in H|discriminate H]
  end.

(** A transaction is all or nothing. *)
Lemma transaction_Err {A} b c (body : DB A) w e w' : transaction b c body w = (Err e, w') → tables w' = tables w.
Proof. unfold transaction. repeat case_match; intros [= <- <-]; done. Qed.
Lemma transaction_Ok_inv {A} b c (body : DB A) w a w' : transaction b c body w = (Ok a, w') →
  ∃ w1 w2, tables w1 = tables w ∧ body w1 = (Ok a, w2) ∧ tables w' = tables w2.
Proof.
  unfold transaction. case_match eqn:E. case_match; intros [= <- <-]; subst. db_inv.
  eexists _, _. split_and!; [|done|]; congruence.
Qed.

(** [m] succeeds from [w] when no statement fails. *)
Definition runs {A} (m : DB A) (w : sql) : Prop :=
  events w = [] → ∃ a w', m w = (Ok a, w') ∧ events w' = [].
Lemma runs_ret {A} (a : A) w : runs (mret a) w.
Proof. intros He. by exists a, w. Qed.
Lemma runs_statement {A} code (f : db → A * db) w : runs (statement code f) w.
Proof. intros He. rewrite statement_Ok by done. eauto. Qed.
Lemma runs_bind {A B} (m : DB A) (k : A → DB B) w :
  runs m w → (∀ a w', m w = (Ok a, w') → runs (k a) w') → runs (m ≫= k) w.
Proof. intros Hm Hk He. destruct (Hm He) as (a&w'&E&He'). rewrite (DB_bind_Ok _ _ _ _ _ E). by apply Hk. Qed.
Lemma runs_transaction {A} b c (body : DB A) w :
  (∀ w', tables w' = tables w → runs body w') → runs (transaction b c body) w.
Proof.
  intros Hb He. unfold transaction.
  edestruct (runs_bind (exec b (λ d, d)) (λ _, a ← body; _ ← exec c (λ d, d); mret a) w) as (a&w'&E&He'); [..|rewrite E; eauto].
  - apply runs_statement.
  - intros [] w' E. apply statement_inv in E as [_ T]. apply runs_bind; [by apply Hb|]. intros a w2 _.
    apply runs_bind; [apply runs_statement|]. intros. apply runs_ret.
  - done.
Qed.

(** ** The abstract history *)

(** [newer v w]: the order of retention, latest completion first. *)
Definition newer : Observation → Observation → comparison := cmp_rev observation_cmp.

(** What retention means: nothing older than [maxAge], of the appended key
    the [maxPerKey] newest, of all keys the [maxRows] newest. *)
Definition record_observation (v : Observation) (l : list Observation) : list Observation :=
  if bool_decide (sampleID v ∈ sampleID <$> l) then l else l ++ [v].
Definition young (rt : Retention) (now : Z) (l : list Observation) : list Observation :=
  filter (λ w, now - maxAge rt ≤ completedAt w) l.
Definition newest_of_key (n : Z) (k : Key) (l : list Observation) : list Observation :=
  filter (λ w, key w = k → (rank newer (filter (λ x, key x = k) l) w < Z.to_nat n)%nat) l.
Definition newest (n : Z) (l : list Observation) : list Observation :=
  filter (λ w, (rank newer l w < Z.to_nat n)%nat) l.
Definition history_append (rt : Retention) (v : Observation) (now : Z) (l : list Observation) : list Observation :=
  newest (maxRows rt) (newest_of_key (maxPerKey rt) (key v) (young rt now (record_observation v l))).

(** ** Rows represent observations *)

Definition no_fields : keyFields :=
  {| kf_endpointID := ""; kf_connectionRevision := ""; kf_targetID := ""; kf_targetRevision := ""; kf_vantageID := "";
     kf_kind := KindUnknown; kf_profile := Mihomo11931 |}.
Definition fields_of (k : Key) : keyFields := default no_fields (persistenceFields k).
Definition obs_row (v : Observation) : row := row_of (fields_of (key v)) v.

(** A key whose revisions are digests, as every constructed one. *)
Definition storable_key (k : Key) : Prop :=
  valid_key k = true ∧ (∃ c, crev (connection k) = Some c ∧ slen c = 32) ∧
  ∃ t, trev (target k) = Some t ∧ slen t = 32.

Lemma storable_fields k : storable_key k → persistenceFields k = Some (fields_of k).
Proof. intros (_&(c&Hc&_)&(t&Ht&_)). unfold fields_of, persistenceFields. by rewrite Hc, Ht. Qed.

Lemma fields_of_inj k k' : storable_key k → storable_key k' → fields_of k = fields_of k' → k = k'.
Proof.
  intros (Hv&(c&Hc&_)&(t&Ht&_)) (Hv'&(c'&Hc'&_)&(t'&Ht'&_)). unfold fields_of, persistenceFields.
  rewrite Hc, Ht, Hc', Ht'. simpl. unfold ID_String, valid_key in *. bool_to_prop.
  repeat rewrite bool_decide_false by done. intros [=].
  destruct k as [[] [] ? ? ?], k' as [[] [] ? ? ?]; simpl in *. by subst.
Qed.

Section refinement.
Context `{Digest}.

Definition storable (v : Observation) : Prop :=
  made_observation v ∧ representable (startedAt v) ∧ representable (completedAt v) ∧ storable_key (key v).

(** The observations table holds exactly the history [l]. *)
Definition represents (d : db) (l : list Observation) : Prop :=
  observations d = obs_row <$> l ∧ Forall storable l ∧ NoDup (sampleID <$> l).

#[local] Instance row_cmp_order : CmpOrder row_cmp := _.
#[local] Instance rev_row_order : CmpOrder (cmp_rev row_cmp) := cmp_rev_order row_cmp.
#[local] Instance newer_order : CmpOrder newer := cmp_rev_order observation_cmp.

Lemma unix_nano_compare t u : representable t → representable u → Z.compare (unix_nano t) (unix_nano u) = Z.compare t u.
Proof.
  unfold representable, unix_nano. intros. rewrite !wrap64_id by done.
  destruct (Z.compare_spec t u); [apply Z.compare_eq_iff|apply Z.compare_lt_iff|apply Z.compare_gt_iff]; lia.
Qed.
Lemma unix_nano_le t u : representable t → representable u → unix_nano t ≤ unix_nano u ↔ t ≤ u.
Proof. unfold representable, unix_nano. intros. rewrite !wrap64_id by done. lia. Qed.

Lemma obs_row_cmp v w : storable v → storable w → row_cmp (obs_row v) (obs_row w) = observation_cmp v w.
Proof.
  intros (_&_&Hv&_) (_&_&Hw&_). unfold row_cmp, observation_cmp, cmp_lex, cmp_on. simpl.
  by rewrite unix_nano_compare.
Qed.

Lemma NoDup_fmap_elem {A B} (f : A → B) l x y : NoDup (f <$> l) → x ∈ l → y ∈ l → f x = f y → x = y.
Proof.
  intros Hn [i Hi]%list_elem_of_lookup [j Hj]%list_elem_of_lookup E.
  assert (i = j) as ->; [|by rewrite Hi in Hj; injection Hj].
  eapply (NoDup_lookup _ _ _ (f x) Hn); rewrite list_lookup_fmap; [by rewrite Hi|by rewrite Hj, E].
Qed.
Lemma NoDup_fmap_filter {A B} (f : A → B) (P : A → Prop) `{!∀ x, base.Decision (P x)} l :
  NoDup (f <$> l) → NoDup (f <$> filter P l).
Proof. intros Hn. eapply sublist_NoDup; [done|]. apply fmap_sublist, sublist_filter. Qed.

Lemma Forall_filter {A} (P Q : A → Prop) `{!∀ x, base.Decision (Q x)} l : Forall P l → Forall P (filter Q l).
Proof. rewrite !Forall_forall. intros Hl x [_ Hx]%list_elem_of_filter. auto. Qed.
Lemma filter_True {A} (l : list A) : filter (λ _, True) l = l.
Proof. induction l as [|x l IH]; [done|]. rewrite filter_cons_True by done. by rewrite IH. Qed.

(** Deleting what lies beyond the first [n] of a selection keeps the rows
    with fewer than [n] newer ones in it. *)
Lemma delete_beyond (P : row → Prop) `{!∀ r, base.Decision (P r)} n l : NoDup (sample_id <$> l) →
  delete_samples (beyond n (filter P l)) l =
  filter (λ r, P r → (rank (cmp_rev row_cmp) (filter P l) r < Z.to_nat n)%nat) l.
Proof.
  intros Hn. apply filter_ext_on. intros r Hr. unfold beyond.
  assert (NoDup (sample_id <$> filter P l)) as Hn' by by apply NoDup_fmap_filter.
  assert (no_ties (cmp_rev row_cmp) (filter P l)) as Ht.
  { intros x y Hx Hy E. apply (NoDup_fmap_elem sample_id _ _ _ Hn' Hx Hy).
    unfold cmp_rev, row_cmp, cmp_lex, cmp_on, lex in E. destruct (Z.compare _ _); try done.
    symmetry. by apply (cmp_exact bytes_compare). }
  assert (NoDup (filter P l)) as Hd by by eapply NoDup_fmap_1.
  rewrite list_elem_of_fmap. split.
  - intros Hb Hp. destruct (decide (rank (cmp_rev row_cmp) (filter P l) r < Z.to_nat n)%nat) as [|Hge]; [done|].
    destruct Hb. exists r. split; [done|]. rewrite drop_go_sort_elem by (done || apply _).
    rewrite list_elem_of_filter. split; [done|lia].
  - intros Hlt (x&E&Hx). rewrite drop_go_sort_elem in Hx by (done || apply _). destruct Hx as [Hx Hge].
    apply list_elem_of_filter in Hx as [Hp Hx]. assert (r = x) as -> by by apply (NoDup_fmap_elem sample_id l).
    specialize (Hlt Hp). lia.
Qed.

Lemma rank_rows l v : Forall storable l → storable v →
  rank (cmp_rev row_cmp) (obs_row <$> l) (obs_row v) = rank newer l v.
Proof.
  intros Hl Hv. unfold rank. rewrite (filter_fmap_on _ _ (λ w, newer w v = Lt)); [by rewrite length_fmap|].
  intros w Hw. rewrite Forall_forall in Hl. unfold newer, cmp_rev. rewrite obs_row_cmp by auto. done.
Qed.

(** ** Each statement *)

Lemma obs_row_ids (l : list Observation) : sample_id <$> (obs_row <$> l) = sampleID <$> l.
Proof. rewrite <-list_fmap_compose. done. Qed.

Lemma represents_filter d l (P : Observation → Prop) `{!∀ v, base.Decision (P v)} g :
  represents d l → g (obs_row <$> l) = obs_row <$> filter P l → represents (with_observations g d) (filter P l).
Proof.
  intros (Ho&Hs&Hn) E. split_and!; [simpl; by rewrite Ho|by apply Forall_filter|by apply NoDup_fmap_filter].
Qed.

Lemma represents_record d l v : represents d l → storable v →
  represents (with_observations (insert_or_ignore (obs_row v)) d) (record_observation v l).
Proof.
  intros (Ho&Hs&Hn) Hv. unfold represents, insert_or_ignore, record_observation. simpl. rewrite Ho, obs_row_ids.
  assert (row_allowed (obs_row v) = true) as ->.
  { pose proof Hv as (Hm&_&_&Hk). unfold row_allowed, obs_row, fields_of, persistenceFields.
    destruct Hk as (_&(c&Hc&Lc)&(t&Ht&Lt)). rewrite Hc, Ht. simpl.
    apply made_observation_inv in Hm as (_&_&_&_&_&->).
    unfold slen at 1. rewrite sha256_length, Lc, Lt. done. }
  simpl. case_bool_decide as Hin; [done|]. split_and!.
  - by rewrite fmap_app.
  - by apply Forall_app_2, Forall_singleton.
  - rewrite fmap_app. apply NoDup_app. split_and!; [done| |apply NoDup_singleton].
    intros x Hx Hx'%list_elem_of_singleton. by subst.
Qed.

Lemma represents_young d l rt now : represents d l → representable (now - maxAge rt) →
  represents (with_observations (filter (λ r, ¬ completed_at_ns r < unix_nano (now - maxAge rt))) d) (young rt now l).
Proof.
  intros Hd Hr. apply represents_filter; [done|]. apply filter_fmap_on. intros v Hv. destruct Hd as (_&Hs&_).
  rewrite Forall_forall in Hs. destruct (Hs v Hv) as (_&_&Hc&_).
  rewrite <-(unix_nano_le (now - maxAge rt)) by done. simpl. lia.
Qed.

Lemma represents_newest_of_key d l n k : represents d l → storable_key k →
  represents (with_observations (λ t, delete_samples (beyond n (filter (λ r, rfields r = fields_of k) t)) t) d)
    (newest_of_key n k l).
Proof.
  intros Hd Hk. apply represents_filter; [done|]. destruct Hd as (_&Hs&Hn).
  rewrite delete_beyond by by rewrite obs_row_ids. apply filter_fmap_on. intros v Hv.
  rewrite Forall_forall in Hs.
  assert (∀ w, w ∈ l → fields_of (key w) = fields_of k ↔ key w = k) as Hf.
  { intros w Hw. destruct (Hs w Hw) as (_&_&_&Hkw). split; [by apply fields_of_inj|by intros ->]. }
  rewrite (filter_fmap_on obs_row (λ r, rfields r = fields_of k) (λ x, key x = k)) by done. simpl.
  rewrite Hf by done. rewrite rank_rows; [done|apply Forall_filter; by apply Forall_forall|auto].
Qed.

Lemma represents_newest d l n : represents d l →
  represents (with_observations (λ t, delete_samples (beyond n t) t) d) (newest n l).
Proof.
  intros Hd. apply represents_filter; [done|]. destruct Hd as (_&Hs&Hn).
  assert (beyond n (obs_row <$> l) = beyond n (filter (λ _ : row, True) (obs_row <$> l))) as ->.
  { f_equal. symmetry. apply filter_True. }
  rewrite delete_beyond by by rewrite obs_row_ids. apply filter_fmap_on. intros v Hv.
  rewrite filter_True.
  rewrite rank_rows; [tauto|done|]. rewrite Forall_forall in Hs. auto.
Qed.
(** ** Append *)

Lemma prune_inv rt k now w w' l : prune rt (fields_of k) now w = (Ok (), w') → storable_key k →
  representable (now - maxAge rt) → represents (tables w) l →
  represents (tables w') (newest (maxRows rt) (newest_of_key (maxPerKey rt) k (young rt now l))).
Proof.
  intros E Hk Hr Hd. unfold prune in E. db_inv.
  repeat match goal with T : tables _ = _ |- _ => rewrite T; clear T end.
  apply represents_newest, represents_newest_of_key; [|done]. by apply represents_young.
Qed.

Lemma Append_Ok rt v now w w' l : Append rt v now w = (Ok (), w') → storable v →
  representable (now - maxAge rt) → represents (tables w) l → represents (tables w') (history_append rt v now l).
Proof.
  intros E Hv Hr Hd. pose proof Hv as (_&_&_&Hk). unfold Append in E. rewrite storable_fields in E by done.
  destruct (is_zero now); [done|]. simpl in E. apply transaction_Ok_inv in E as (w1&w2&T1&E&T2).
  rewrite T2. db_inv. eapply prune_inv; [done..|].
  match goal with T : tables _ = with_observations _ _ |- _ => rewrite T, T1 end. by apply represents_record.
Qed.

Lemma Append_Err rt v now w e w' : Append rt v now w = (Err e, w') → tables w' = tables w.
Proof.
  unfold Append. destruct (is_zero now); [by intros [= _ <-]|]. destruct (persistenceFields _); simpl.
  - apply transaction_Err.
  - by intros [= _ <-].
Qed.

Lemma Append_total rt v now w : events w = [] → storable v → now ≠ 0 → is_ok (Append rt v now w).1 = true.
Proof.
  intros He (_&_&_&Hk) Hnow. unfold Append. rewrite storable_fields by done.
  unfold is_zero. rewrite (proj2 (Z.eqb_neq now 0)) by done. simpl. erewrite DB_bind_Ok by done. cbv beta.
  destruct (runs_transaction "begin" "commit" (_ ← exec "insert"
    (with_observations (insert_or_ignore (row_of (fields_of (key v)) v))); prune rt (fields_of (key v)) now) w)
    as ([]&w'&->&_); [|done|done].
  intros w' _. unfold prune, exec. repeat (apply runs_bind; [apply runs_statement|]; intros). apply runs_statement.
Qed.

(** ** Bounds *)

Definition bounded (rt : Retention) (l : list Observation) : Prop :=
  Z.of_nat (length l) ≤ maxRows rt ∧ ∀ k, Z.of_nat (length (filter (λ v, key v = k) l)) ≤ maxPerKey rt.

Lemma observation_ties l : NoDup (sampleID <$> l) → no_ties newer l.
Proof.
  intros Hn v w Hv Hw E. apply (NoDup_fmap_elem sampleID l); [done..|].
  unfold newer, cmp_rev, observation_cmp, cmp_lex, cmp_on, lex in E. destruct (Z.compare _ _); try done.
  symmetry. by apply (cmp_exact bytes_compare).
Qed.

Lemma newest_length n l : 0 ≤ n → NoDup (sampleID <$> l) → Z.of_nat (length (newest n l)) ≤ n.
Proof.
  intros Hn Hd. unfold newest.
  pose proof (keep_ranked_length newer (Z.to_nat n) l (observation_ties l Hd) (NoDup_fmap_1 _ _ Hd)). lia.
Qed.

Lemma filter_comm {A} (P Q : A → Prop) `{!∀ x, base.Decision (P x), !∀ x, base.Decision (Q x)} (l : list A) :
  filter P (filter Q l) = filter Q (filter P l).
Proof. rewrite !list_filter_filter. apply filter_ext_on. tauto. Qed.
Lemma filter_length_mono {A} (P Q : A → Prop) `{!∀ x, base.Decision (P x), !∀ x, base.Decision (Q x)} (l : list A) :
  (length (filter P (filter Q l)) ≤ length (filter P l))%nat.
Proof. rewrite filter_comm. apply length_filter. Qed.

Lemma record_other k v l : key v ≠ k → filter (λ w, key w = k) (record_observation v l) = filter (λ w, key w = k) l.
Proof.
  intros Hk. unfold record_observation. case_bool_decide; [done|].
  rewrite filter_app, filter_cons_False, filter_nil by done. apply app_nil_r.
Qed.

(** Appending keeps the bounds, whatever the key and the time. *)
Lemma history_append_bounded rt v now l : retention_valid rt = true → NoDup (sampleID <$> record_observation v l) →
  bounded rt l → bounded rt (history_append rt v now l).
Proof.
  intros Hrt Hn [_ Hb]. unfold retention_valid in Hrt. bool_to_prop.
  set (m := young rt now (record_observation v l)).
  assert (NoDup (sampleID <$> m)) as Hm by by apply NoDup_fmap_filter.
  split; [apply newest_length; [lia|]; by apply NoDup_fmap_filter|]. intros k.
  unfold history_append. fold m. transitivity (Z.of_nat (length (filter (λ w, key w = k) (newest_of_key (maxPerKey rt) (key v) m)))).
  { apply inj_le, filter_length_mono. }
  destruct (decide (k = key v)) as [->|Hk].
  - etrans; [|apply (newest_length (maxPerKey rt) (filter (λ w, key w = key v) m)); [lia|by apply NoDup_fmap_filter]].
    apply Nat2Z.inj_le. unfold newest, newest_of_key. rewrite !list_filter_filter.
    erewrite filter_ext_on; [done|]. intros w Hw. simpl. tauto.
  - etrans; [|apply (Hb k)]. rewrite <-(record_other k v l) by done. apply inj_le.
    etrans; [apply filter_length_mono|]. apply filter_length_mono.
Qed.
Lemma record_NoDup v l : NoDup (sampleID <$> l) → NoDup (sampleID <$> record_observation v l).
Proof.
  intros Hn. unfold record_observation. case_bool_decide as Hin; [done|]. rewrite fmap_app. apply NoDup_app.
  split_and!; [done| |apply NoDup_singleton]. intros x Hx Hx'%list_elem_of_singleton. by subst.
Qed.

(** ** Loading *)

Lemma Outcome_of_code_inv o : Outcome_of_code (Outcome_code o) = o.
Proof. by destruct o. Qed.

Lemma restore_obs_row v : storable v → restore_row (key v) (obs_row v) = Some v.
Proof.
  intros (Hm&Hs&Hc&_). unfold restore_row. simpl. rewrite !unix_nano_round_trip, Outcome_of_code_inv by done.
  assert (New (key v) (startedAt v) (completedAt v) (duration v) (outcome v) (statusCode v) = Ok v) as ->.
  { destruct Hm as (k&st&c&d&o&code&Hn). pose proof Hn as Hn'. unfold New in Hn. ok_inv. done. }
  by rewrite bool_decide_true.
Qed.

Lemma go_sort_rows l : Forall storable l → go_sort row_cmp (obs_row <$> l) = obs_row <$> go_sort observation_cmp l.
Proof.
  intros Hl. rewrite <-(go_sort_fmap obs_row row_cmp). f_equal.
  induction Hl as [|v l Hv Hl IH]; [done|]. simpl. rewrite IH.
  assert (Forall storable (go_sort observation_cmp l)) as Hs by by rewrite go_sort_perm.
  revert Hs. generalize (go_sort observation_cmp l) as m. induction 1 as [|w m Hw Hm IHm]; [done|]. simpl.
  unfold cmp_on at 1. rewrite obs_row_cmp by done. destruct (is_lt _); [by rewrite IHm|done].
Qed.

Lemma restore_rows k l : Forall storable l → Forall (λ v, key v = k) l → mapM (restore_row k) (obs_row <$> l) = Some l.
Proof.
  intros Hs Hk. apply mapM_Some_2, Forall2_fmap_l, Forall_Forall2_diag. rewrite Forall_forall in *.
  intros v Hv. rewrite <-(Hk v Hv). by apply restore_obs_row, Hs.
Qed.

Lemma Load_exact w l k from through : represents (tables w) l → storable_key k → events w = [] →
  from ≠ 0 → through ≠ 0 → from ≤ through → representable from → representable through →
  Load k from through w =
    (Ok (go_sort observation_cmp (filter (λ v, key v = k ∧ from ≤ completedAt v ≤ through) l)), w).
Proof.
  intros (Ho&Hs&Hn) Hk He Hf Ht Hle Rf Rt. unfold Load, is_zero.
  rewrite (proj2 (Z.eqb_neq from 0)), (proj2 (Z.eqb_neq through 0)), (proj2 (Z.ltb_ge through from)) by done. simpl.
  rewrite storable_fields by done. set (keep v := key v = k ∧ from ≤ completedAt v ≤ through).
  assert (w = {| tables := tables w; events := [] |}) as Ew by (destruct w; simpl in *; by subst).
  assert (filter (λ r, rfields r = fields_of k ∧ unix_nano from ≤ completed_at_ns r ≤ unix_nano through)
            (obs_row <$> l) = obs_row <$> filter keep l) as Er.
  { apply filter_fmap_on. intros v Hv. rewrite Forall_forall in Hs. destruct (Hs v Hv) as (_&_&Hc&Hkv).
    unfold keep. simpl. rewrite !unix_nano_le by done.
    split; intros [E ?]; (split; [|done]); [by apply fields_of_inj|by rewrite E]. }
  erewrite DB_bind_Ok by done. cbv beta. unfold query, exec. erewrite DB_bind_Ok by by apply statement_Ok. cbv beta. simpl.
  assert (Forall storable (filter keep l)) as Hs' by by apply Forall_filter.
  rewrite Ho, Er, go_sort_rows, restore_rows; [| |rewrite go_sort_perm|done].
  - clear -He. destruct w as [tb ev]. simpl in *. by subst ev.
  - by rewrite go_sort_perm.
  - apply Forall_forall. by intros v [[? _] _]%list_elem_of_filter.
Qed.

Lemma sameKey_refl k : storable_key k → sameKey k k = true.
Proof.
  intros (_&(c&Hc&_)&(t&Ht&_)). unfold sameKey, revision_equal. rewrite Hc, Ht. by rewrite !bool_decide_true.
Qed.
Lemma filter_window_exact k cutoff now l : storable_key k → Forall (λ v, key v = k) l →
  filter_window k cutoff now l = Ok (filter (λ v, cutoff ≤ completedAt v ≤ now) l).
Proof.
  intros Hk Hl. assert (Forall (λ v, sameKey k (key v) = true) l) as Hl'.
  { eapply Forall_impl; [done|]. intros v ->. by apply sameKey_refl. }
  pose proof (filter_window_total k cutoff now l Hl') as Ht.
  destruct (filter_window _ _ _ _) eqn:E; [|done]. by apply filter_window_ok in E as [-> _].
Qed.

(** Summarizing what the query returned is summarizing every observation of
    the key. *)
Lemma summary_of_loaded k l now window freshness : storable_key k → NoDup (sampleID <$> l) →
  Summarize k (go_sort observation_cmp (filter (λ v, key v = k ∧ now - window ≤ completedAt v ≤ now) l)) now window freshness =
  Summarize k (filter (λ v, key v = k) l) now window freshness.
Proof.
  intros Hk Hn. unfold Summarize. destruct (guard_err _ _); [simpl|done]. destruct (guard_err _ _); [simpl|done].
  set (m := filter (λ v, key v = k ∧ now - window ≤ completedAt v ≤ now) l).
  rewrite !filter_window_exact; [|done| |done|].
  - simpl. do 2 f_equal.
    assert (filter (λ v, now - window ≤ completedAt v ≤ now) (filter (λ v, key v = k) l) = m) as ->.
    { rewrite list_filter_filter. apply filter_ext_on. tauto. }
    assert (filter (λ v, now - window ≤ completedAt v ≤ now) (go_sort observation_cmp m) ≡ₚ m) as Hp.
    { rewrite go_sort_perm. unfold m. rewrite list_filter_filter.
      erewrite filter_ext_on; [done|]. simpl. tauto. }
    symmetry. apply go_sort_perm_eq; [apply _| |done].
    intros x y Hx Hy E. apply (observation_ties m); [by apply NoDup_fmap_filter|done..|].
    unfold newer, cmp_rev. rewrite (cmp_antisym observation_cmp x y), E. done.
  - apply Forall_forall. by intros v [? _]%list_elem_of_filter.
  - rewrite go_sort_perm. apply Forall_forall. by intros v [[? _] _]%list_elem_of_filter.
Qed.

(** ** Theorems *)

(** C6: [Append] refines the abstract history: when it succeeds, the table holds the history with the observation
    recorded once and exactly the retained observations kept (not older than MaxAge, the MaxPerKey newest of the key,
    the MaxRows newest of all); when any statement fails, the table is unchanged; with no failing statement it succeeds. *)
Theorem append_refines_history rt v now w l : represents (tables w) l → storable v → now ≠ 0 →
  representable (now - maxAge rt) →
  match Append rt v now w with
  | (Ok _, w') => represents (tables w') (history_append rt v now l)
  | (Err _, w') => tables w' = tables w ∧ events w ≠ []
  end.
Proof.
  intros Hd Hv Hnow Hr. pose proof (Append_total rt v now w) as Ht.
  destruct (Append rt v now w) as [[[]|e] w'] eqn:E; [by eapply Append_Ok|].
  split; [by eapply Append_Err|]. intros He. by specialize (Ht He Hv Hnow).
Qed.

(** The stored summary is the summary of the history: [Store.Summarize], which selects rows by key and time in
    SQL and rebuilds and re-hashes each observation, returns what [observation.Summarize] computes from all recorded
    observations of the key, and never reports a corrupt row. *)
Theorem stored_summary_exact w l k now window freshness : represents (tables w) l → storable_key k → events w = [] →
  0 < window < now → representable now → representable (now - window) →
  Store_Summarize k now window freshness w =
    (match Summarize k (filter (λ v, key v = k) l) now window freshness with
     | Ok s => Ok s
     | Err _ => Err (failure ErrPersistence "summary")
     end, w).
Proof.
  intros Hd Hk He Hw Hn Hn'. unfold Store_Summarize.
  erewrite DB_bind_Ok; [|eapply Load_exact; [done..|lia|lia|lia|done|done]]. cbv beta.
  rewrite summary_of_loaded by (done || apply Hd). by destruct (Summarize _ _ _ _ _).
Qed.

(** The databases [Append] can reach from an empty table. *)
Inductive store_reachable (rt : Retention) : db → Prop :=
| reach_empty d : observations d = [] → store_reachable rt d
| reach_append d v now evs r w' : store_reachable rt d → storable v → representable (now - maxAge rt) →
    Append rt v now {| tables := d; events := evs |} = (r, w') → store_reachable rt (tables w').

(** Whatever is appended and whichever statements fail, the store holds a history of well-formed observations
    with distinct sample IDs, at most MaxRows in all and at most MaxPerKey of every key. *)
Theorem history_bounded rt d : retention_valid rt = true → store_reachable rt d →
  ∃ l, represents d l ∧ bounded rt l.
Proof.
  intros Hrt. induction 1 as [d Ho|d v now evs r w' _ (l&Hd&Hb) Hv Hr E].
  - exists []. unfold retention_valid in Hrt. bool_to_prop.
    split; [split_and!; [done|constructor|constructor]|]. split; [simpl; lia|]. intros k. rewrite filter_nil. simpl. lia.
  - destruct r as [[]|e].
    + exists (history_append rt v now l). split; [by eapply (Append_Ok rt v now {| tables := d; events := evs |})|].
      apply history_append_bounded; [done|apply record_NoDup, Hd|done].
    + apply Append_Err in E. simpl in E. rewrite E. eauto.
Qed.
End refinement.

(** ** A concrete store *)

Module StoreSample.
#[local] Existing Instance toy_digest.
Definition rev32 : string := "0123456789abcdef0123456789abcdef".
Definition k : Key :=
  {| connection := {| cid := "ef1_x"; crev := Some rev32 |}; target := {| tid := "t"; trev := Some rev32 |};
     vantage := "v"; kind := KindHTTPGet; kprofile := Mihomo11931 |}.
Definition t0 : Z := ObservationSample.t0.
Definition obs (at_ : Z) (o : Outcome) (status : Z) : Observation :=
  {| key := k; startedAt := t0 + at_; completedAt := t0 + at_ + second; duration := second; outcome := o;
     statusCode := status; sampleID := sha256 (observation_input k (t0 + at_) (t0 + at_ + second) second o status) |}.
Definition v0 : Observation := obs 0 OutcomeSuccess 204.
Definition v1 : Observation := obs minute OutcomeTimeout 0.
(** One observation per key. *)
Definition rt : Retention := {| maxAge := hour; maxPerKey := 1; maxRows := 10 |}.
Definition now : Z := t0 + 2 * minute.
Definition d0 : db := {| observations := [obs_row v0]; checkpoints := ∅; caches := ∅ |}.
Definition w0 : sql := {| tables := d0; events := [] |}.

Lemma k_storable : storable_key k.
Proof. split_and!; [done|by exists rev32|by exists rev32]. Qed.
Lemma storable_obs v : v = v0 ∨ v = v1 → storable v.
Proof.
  intros Hv. assert (representable (startedAt v) ∧ representable (completedAt v) ∧ key v = k ∧
    New k (startedAt v) (completedAt v) (duration v) (outcome v) (statusCode v) = Ok v) as (Hs&Hc&Hk&Hn).
  { destruct_or! Hv; subst v; (split_and!; [split; vm_compute; discriminate|split; vm_compute; discriminate|done|reflexivity]). }
  split_and!; [by eexists _, _, _, _, _, _|done|done|rewrite Hk; exact k_storable].
Qed.
Lemma d0_represents : represents d0 [v0].
Proof.
  split_and!; [done|apply Forall_singleton; by apply storable_obs; left|apply NoDup_singleton].
Qed.
Lemma cutoff_representable : representable (now - maxAge rt).
Proof. split; vm_compute; discriminate. Qed.
Lemma retained : history_append rt v1 now [v0] = [v1].
Proof. vm_compute. reflexivity. Qed.
End StoreSample.

Lemma append_refines_history_witness : ∃ w', Append StoreSample.rt StoreSample.v1 StoreSample.now StoreSample.w0 = (Ok (), w') ∧
  @represents toy_digest (tables w') [StoreSample.v1].
Proof.
  pose proof (@append_refines_history toy_digest StoreSample.rt StoreSample.v1 StoreSample.now StoreSample.w0 [StoreSample.v0]
    StoreSample.d0_represents (StoreSample.storable_obs _ (or_intror eq_refl)) ltac:(vm_compute; discriminate)
    StoreSample.cutoff_representable) as Ha.
  destruct (Append _ _ _ _) as [[[]|e] w']; [|by destruct Ha].
  exists w'. split; [done|]. rewrite StoreSample.retained in Ha. exact Ha.
Defined.

Lemma stored_summary_exact_witness : ∃ s,
  @Store_Summarize toy_digest StoreSample.k StoreSample.now (30 * minute) (5 * minute) StoreSample.w0 = (Ok s, StoreSample.w0) ∧
  samples s = 1 ∧ successes s = 1 ∧ meanSuccessDuration s = second.
Proof.
  rewrite (@stored_summary_exact toy_digest StoreSample.w0 [StoreSample.v0] StoreSample.k);
    [|exact StoreSample.d0_represents|exact StoreSample.k_storable|reflexivity|split; vm_compute; reflexivity
     |split; vm_compute; discriminate|split; vm_compute; discriminate].
  eexists. split; [vm_compute; reflexivity|]. split_and!; reflexivity.
Defined.

Lemma history_bounded_witness : ∃ w' l,
  Append StoreSample.rt StoreSample.v1 StoreSample.now StoreSample.w0 = (Ok (), w') ∧
  @represents toy_digest (tables w') l ∧ bounded StoreSample.rt l.
Proof.
  destruct (Append StoreSample.rt StoreSample.v0 StoreSample.now
    {| tables := {| observations := []; checkpoints := ∅; caches := ∅ |}; events := [] |}) as [r w1] eqn:E1.
  assert (tables w1 = StoreSample.d0) as T1 by (injection E1 as _ <-; vm_compute; reflexivity).
  destruct (Append StoreSample.rt StoreSample.v1 StoreSample.now StoreSample.w0) as [r' w'] eqn:E2.
  destruct (@history_bounded toy_digest StoreSample.rt (tables w')) as (l&Hl&Hb); [reflexivity| |].
  - eapply (@reach_append toy_digest _ StoreSample.d0 StoreSample.v1 StoreSample.now [] r');
      [|apply StoreSample.storable_obs; by right|exact StoreSample.cutoff_representable|exact E2].
    rewrite <-T1. eapply (@reach_append toy_digest _ _ StoreSample.v0 StoreSample.now [] r);
      [apply (@reach_empty toy_digest StoreSample.rt {| observations := []; checkpoints := ∅; caches := ∅ |} eq_refl)|apply StoreSample.storable_obs; by left|exact StoreSample.cutoff_representable|exact E1].
  - exists w', l. split_and!; [|exact Hl|exact Hb]. f_equal. pose proof (f_equal fst E2) as E. simpl in E.
    rewrite <-E. vm_compute. reflexivity.
Defined.
