(* ===== verification/Rounds.v ===== *)
(** * Probe rounds (internal/operator/pipeline.go, [runRound] and its caller)

    A gateway's run claims a round of its probe context, executes it, admits
    the endpoints that answered, stores the observations and closes the round;
    a round that fails on the way is given back.  The schedulers' answers and
    the clock are arguments, the store is the one of Store.v. *)
From S2P Require Import Prelude Order Bytes Encoding Identity Provenance Inventory Artifact Observation Selection SelectionFacts Engine Scheduling Store.
Open Scope Z_scope.

(** ** Executing a round *)

Inductive probe_failure := errExplorationDeferred | errProbeFailed.
Abbreviation probe_result := (result probe_failure Observation).
(** A job of the scheduler: started at a time, with the answer of the inner
    runner, or never started because the context ended. *)
Inductive job_outcome := Started (at_ : Z) (r : probe_result) | NeverStarted.
Definition deadline_execute (notAfter : Z) (now : Z) (inner : probe_result) : probe_result :=
  if notAfter <? now then Err errExplorationDeferred else inner.
Definition explored_result (notAfter : Z) (o : job_outcome) : probe_result :=
  match o with Started at_ r => deadline_execute notAfter at_ r | NeverStarted => Err errProbeFailed end.
Definition maintained_result (o : job_outcome) : probe_result := match o with Started _ r => r | NeverStarted => Err errProbeFailed end.

(** What happens while a round runs; [None] is a scheduler that refuses the
    jobs. *)
Record round_answers := {
  ra_start : Z; ra_explored : option (list job_outcome); ra_maintenance : Z; ra_maintained : option (list job_outcome);
  ra_received : Z; ra_cancelled : bool }.
Record roundResult := { rr_jobs : list Record_; rr_results : list probe_result; maintenanceStart : Z }.
(** The results of both phases, in the order of the jobs. *)
Definition round_results (a : round_answers) : option (list probe_result) :=
  explored ← ra_explored a;
  maintained ← ra_maintained a;
  Some ((explored_result (ra_start a + explorationBudget evidencePolicy) <$> explored) ++ (maintained_result <$> maintained)).
Definition runRound (r : probeRound) (a : round_answers) : option roundResult :=
  results ← round_results a;
  Some {| rr_jobs := explore r ++ maintain r; rr_results := results; maintenanceStart := ra_maintenance a |}.

Definition succeeded (r : probe_result) : bool := match r with Ok v => Successful v | Err _ => false end.
Definition observed (l : list probe_result) : list Observation := omap (λ r : probe_result, match r with Ok v => Some v | Err _ => None end) l.
Fixpoint store_results (rt : Retention) (l : list probe_result) (received : Z) : DB () :=
  match l with
  | [] => mret ()
  | Ok v :: l => _ ← Append rt v received; store_results rt l received
  | Err _ :: l => store_results rt l received
  end.

(** The round of a run: the code of its failure, and the states it leaves. *)
Definition probe_phase `{Digest} (rt : Retention) (k : probeContextKey) (rs : list Record_) (p : Profile) (now refresh : Z) (a : round_answers)
    (ps : probes) (w : sql) : option string * probes * sql :=
  match budgetedJobs ps k rs p now refresh with
  | (None, ps) => (None, ps, w)
  | (Some round, ps) =>
      match runRound round a with
      | None => (Some "probe_schedule", abandonRound ps round, w)
      | Some x =>
          let ps := recordProbeResults ps k (rr_jobs x) (succeeded <$> rr_results x) in
          match store_results rt (rr_results x) (ra_received a) w with
          | (Err _, w) => (Some "evidence_store", abandonRound ps round, w)
          | (Ok _, w) =>
              if ra_cancelled a then (Some "probe_schedule", abandonRound ps round, w)
              else (None, completeRound ps round (freshness evidencePolicy <? time_sub (ra_received a) (maintenanceStart x)), w)
          end
      end
  end.

(** The output that is current, for [resolveUncertain]: the reads of the
    Secret or of the recorded generation answer [current]. *)
Definition currentOutput {E} (current : result E (option string)) (intended : string) : option bool :=
  match current with
  | Err _ => None
  | Ok (Some c) => Some (Receipt_Equal c intended)
  | Ok None => Some false
  end.

(** ** What a round leaves *)

(** The schedule of a context: its window, round and cursor. *)
Definition schedule_of (s : probeState) : Z * Z * nat * bool := (puntil s, pround s, cursor s, overloaded s).

Section phase.
Context `{Digest}.

Lemma admit_schedule s i c b : schedule_of (admit_endpoint s i c b) = schedule_of s.
Proof.
  unfold admit_endpoint. case_bool_decide; [done|]. destruct (_ <=? _); [|done]. destruct (find_victim s b) as [[x rest]|]; [|done].
  by destruct (is_rejected s x).
Qed.
Lemma admit_all_schedule s ids c b : schedule_of (admit_all s ids c b) = schedule_of s.
Proof. revert s. induction ids as [|i ids IH]; intros s; [done|]. cbn. fold (admit_all (admit_endpoint s i c b) ids c b). by rewrite IH, admit_schedule. Qed.
Lemma record_schedule ps k jobs l s : ps !! k = Some s → ∃ s', recordProbeResults ps k jobs l !! k = Some s' ∧ schedule_of s' = schedule_of s.
Proof. intros Hk. unfold recordProbeResults. rewrite Hk, lookup_insert_eq. eexists. split; [done|]. apply admit_all_schedule. Qed.

(** The claim of a round. *)
Lemma budgeted_claim ps k rs p now refresh r ps1 : budgetedJobs ps k rs p now refresh = (r, ps1) →
  let s0 := default no_state (ps !! k) in
  ∃ s1, ps1 !! k = Some s1 ∧ overloaded s1 = overloaded s0 ∧
  match r with
  | None => now < puntil s0 ∧ puntil s1 = puntil s0 ∧ cursor s1 = cursor s0
  | Some r => puntil s0 ≤ now ∧ rkey r = k ∧ rid r = pround s1 ∧ rcursor r = cursor s0 ∧
      puntil s1 = now + (if 0 <? refresh then Z.min (probeCadence evidencePolicy) refresh else probeCadence evidencePolicy)
  end.
Proof.
  unfold budgetedJobs. assert (∀ s, pseen s = now → expireProbeStatesLocked (<[k := s]> ps) now !! k = Some s) as He.
  { intros s Hs. unfold expireProbeStatesLocked. apply map_lookup_filter_Some. rewrite lookup_insert_eq. split; [done|]. cbn. rewrite Hs.
    unfold time_sub. rewrite Z.sub_diag. vm_compute. discriminate. }
  destruct (now <? _) eqn:E; bool_to_prop.
  - intros [= <- <-]. eexists. split; [by apply He|]. by split_and!.
  - destruct (nextProbeBatch _ _ _ _ _) as [batch next]. intros [= <- <-]. eexists. split; [by apply He|]. split_and!; try done; lia.
Qed.
Lemma abandon_spec ps r s : ps !! rkey r = Some s → pround s = rid r →
  ∃ s', abandonRound ps r !! rkey r = Some s' ∧ puntil s' = 0 ∧ cursor s' = rcursor r.
Proof. intros Hk Hr. unfold abandonRound. rewrite Hk, (proj2 (Z.eqb_eq _ _) Hr), lookup_insert_eq. by eexists. Qed.
Lemma complete_spec ps r s over : ps !! rkey r = Some s → pround s = rid r →
  ∃ s', completeRound ps r over !! rkey r = Some s' ∧ puntil s' = puntil s ∧ overloaded s' = over.
Proof. intros Hk Hr. unfold completeRound. rewrite Hk, (proj2 (Z.eqb_eq _ _) Hr), lookup_insert_eq. by eexists. Qed.

(** The history after storing a list of observations. *)
Definition history_after (rt : Retention) (received : Z) (vs : list Observation) (l : list Observation) : list Observation :=
  foldl (λ l v, history_append rt v received l) l vs.
Lemma store_results_spec rt rs received w r w' l : represents (tables w) l → Forall storable (observed rs) → representable (received - maxAge rt) →
  store_results rt rs received w = (r, w') →
  ∃ vs, vs `prefix_of` observed rs ∧ represents (tables w') (history_after rt received vs l) ∧ (is_ok r = true → vs = observed rs).
Proof.
  intros Hl Hs Hr. revert w l Hl. induction rs as [|x rs IH]; intros w l Hl; cbn [store_results].
  { intros [= <- <-]. by exists []. }
  destruct x as [v|e]; [|by apply IH]. cbn in Hs. apply Forall_cons in Hs as [Hv Hs]. unfold mbind, DB_bind.
  destruct (Append rt v received w) as [[[]|e] w1] eqn:E.
  - intros Hrest. destruct (IH Hs w1 (history_append rt v received l)) as (vs&Hp&Hrep&Hok); [by eapply Append_Ok|done|].
    exists (v :: vs). split_and!; [by apply prefix_cons|done|]. intros ->%Hok. done.
  - intros [= <- <-]. exists []. split_and!; [apply prefix_nil|cbn; by rewrite (Append_Err _ _ _ _ _ _ E)|done].
Qed.

(** An observation of exploration belongs to a job that started within the
    budget of the round. *)
Lemma explored_in_budget notAfter (os : list job_outcome) v : Ok v ∈ explored_result notAfter <$> os → ∃ at_, Started at_ (Ok v) ∈ os ∧ at_ ≤ notAfter.
Proof.
  intros ([at_ r|]&E&Ho)%list_elem_of_fmap; [|done]. cbn in E. unfold deadline_execute in E. destruct (notAfter <? at_) eqn:El; [done|].
  bool_to_prop. exists at_. split; [by rewrite E|lia].
Qed.

(** C11: A probe round is either completed or given back, and its evidence is stored exactly when it completes.  If a
    run's round fails at any point (a scheduler refuses it, an observation cannot be stored, the context ends), the
    window of its probe context is open again and its exploration cursor is where it was, so the next run repeats the
    round at once; the store holds only the history extended by a prefix of the round's observations.  If it does not
    fail, then either the window was closed and nothing was probed, or the window is closed for the evidence cadence
    or the shorter refresh interval, every observation of the round is in the history, and the context is marked
    overloaded exactly if the maintenance phase outlasted the freshness period. *)
Theorem probe_phase_settles rt k rs p now refresh a ps w code ps' w' l : represents (tables w) l →
  Forall storable (observed (default [] (round_results a))) → representable (ra_received a - maxAge rt) →
  probe_phase rt k rs p now refresh a ps w = (code, ps', w') →
  let s0 := default no_state (ps !! k) in
  ∃ s' vs, ps' !! k = Some s' ∧ represents (tables w') (history_after rt (ra_received a) vs l) ∧
    vs `prefix_of` observed (default [] (round_results a)) ∧
  match code with
  | Some _ => puntil s' = 0 ∧ cursor s' = cursor s0
  | None =>
      now < puntil s0 ∧ puntil s' = puntil s0 ∧ w' = w ∧ vs = [] ∨
      puntil s0 ≤ now ∧ puntil s' = now + (if 0 <? refresh then Z.min (probeCadence evidencePolicy) refresh else probeCadence evidencePolicy) ∧
      vs = observed (default [] (round_results a)) ∧ overloaded s' = (freshness evidencePolicy <? time_sub (ra_received a) (ra_maintenance a))
  end.
Proof.
  intros Hl Hs Hr. unfold probe_phase. destruct (budgetedJobs ps k rs p now refresh) as [[round|] ps1] eqn:Eb; apply budgeted_claim in Eb as (s1&Hs1&_&Hb).
  2: { intros [= <- <- <-]. exists s1, []. destruct Hb as (?&?&?). split_and!; [done|done|apply prefix_nil|left; by split_and!]. }
  destruct Hb as (Hd&Ek&Hid&Hc&Hu). unfold runRound. destruct (round_results a) as [x|]; cbn [mbind option_bind default].
  2: { destruct (abandon_spec ps1 round s1) as (s'&Hs'&Hp'&Hc'); [by rewrite Ek|done|]. intros [= <- <- <-]. rewrite Ek in Hs'. exists s', [].
    split_and!; [done|done|apply prefix_nil|done|congruence]. }
  cbn [rr_jobs rr_results maintenanceStart]. set (ps2 := recordProbeResults ps1 k _ _).
  assert (∃ s2, ps2 !! k = Some s2 ∧ schedule_of s2 = schedule_of s1) as (s2&Hs2&Esch) by by apply record_schedule. injection Esch as Eu Er _ _.
  destruct (store_results rt x (ra_received a) w) as [r w1] eqn:Est.
  destruct (store_results_spec _ _ _ _ _ _ _ Hl Hs Hr Est) as (vs&Hpre&Hrep&Hall).
  destruct (abandon_spec ps2 round s2) as (sa&Hsa&Hpa&Hca); [by rewrite Ek|congruence|]. rewrite Ek in Hsa.
  destruct r as [[]|e]; [|intros [= <- <- <-]; exists sa, vs; split_and!; [done..|congruence]].
  destruct (ra_cancelled a); [intros [= <- <- <-]; exists sa, vs; split_and!; [done..|congruence]|].
  destruct (complete_spec ps2 round s2 (freshness evidencePolicy <? time_sub (ra_received a) (ra_maintenance a))) as (s'&Hs'&Hp'&Ho'); [by rewrite Ek|congruence|].
  intros [= <- <- <-]. rewrite Ek in Hs'. exists s', vs. split_and!; [done..|right]. split_and!; [done|congruence|by apply Hall|done].
Qed.
End phase.

(** ** A concrete round *)

Module RoundSample.
#[local] Existing Instance toy_digest.
Definition key : probeContextKey := SchedulingSample.key.
Definition start : Z := StoreSample.t0 + minute.
(** Three samples of one endpoint: one is observed, one starts after the
    budget and one never. *)
Definition answers : round_answers :=
  {| ra_start := start; ra_explored := Some [Started (start + second) (Ok StoreSample.v1); Started (start + hour) (Ok StoreSample.v0); NeverStarted];
     ra_maintenance := start + 2 * second; ra_maintained := Some []; ra_received := StoreSample.now; ra_cancelled := false |}.
Definition phase : option string * probes * sql :=
  probe_phase StoreSample.rt key [SchedulingSample.record 443] Mihomo11931 start 0 answers ∅ StoreSample.w0.
Lemma phase_completes : phase.1.1 = None.
Proof. vm_compute. reflexivity. Qed.
Lemma phase_observes : observed (default [] (round_results answers)) = [StoreSample.v1].
Proof. vm_compute. reflexivity. Qed.
End RoundSample.
#[local] Existing Instance toy_digest.

Lemma probe_phase_settles_witness : ∃ s', RoundSample.phase.1.2 !! RoundSample.key = Some s' ∧ RoundSample.phase.1.1 = None ∧
  represents (tables RoundSample.phase.2) [StoreSample.v1] ∧ puntil s' = RoundSample.start + probeCadence evidencePolicy ∧ overloaded s' = false.
Proof.
  destruct (probe_phase_settles StoreSample.rt RoundSample.key [SchedulingSample.record 443] Mihomo11931 RoundSample.start 0 RoundSample.answers ∅ StoreSample.w0
    RoundSample.phase.1.1 RoundSample.phase.1.2 RoundSample.phase.2 [StoreSample.v0]) as (s'&vs&Hs&Hrep&_&Hm).
  - apply StoreSample.d0_represents.
  - rewrite RoundSample.phase_observes. apply Forall_singleton, StoreSample.storable_obs. by right.
  - apply StoreSample.cutoff_representable.
  - change (RoundSample.phase = (RoundSample.phase.1.1, RoundSample.phase.1.2, RoundSample.phase.2)). by destruct RoundSample.phase as [[]].
  - rewrite RoundSample.phase_completes in Hm. rewrite lookup_empty in Hm. destruct Hm as [(Hlt&_)|(_&Hu&Hv&Ho)]; [vm_compute in Hlt; discriminate Hlt|].
    exists s'. split_and!; [exact Hs|exact RoundSample.phase_completes| |exact Hu|exact Ho].
    rewrite RoundSample.phase_observes in Hv. rewrite Hv in Hrep. exact Hrep.
Defined.
