(* ===== verification/SourceCache.v ===== *)
(** * The HTTP source cache (internal/state/source_cache.go)

    One row per source key with the last accepted body and its validators.
    The table is the [caches] map of the store; each operation is one
    statement, and pruning is a query followed by deletions. *)
From S2P Require Import Prelude Order Bytes Encoding Store.
From Stdlib Require String.
Open Scope Z_scope.

Definition maxCachedBody : Z := 4 * 1024 * 1024.

Record SourceCache := {
  sc_key : string; sc_fingerprint : string; sc_body : string; sc_contentType : string; sc_eTag : string;
  sc_lastModified : string; acceptedAt : Z; validatedAt : Z;
}.

Section cache.
Context `{Digest}.

(** [sql.ErrNoRows] is an answer, not a failure. *)
Definition LoadSourceCache (key fingerprint : string) : DB (option SourceCache) :=
  found ← query_raw "cache_read" (λ d, caches d !! key);
  match found with
  | None => mret None
  | Some r =>
      if negb (slen (cfingerprint r) =? 32) || bool_decide (cfingerprint r ≠ fingerprint) then mret None
      else if (maxCachedBody <? slen (cbody r)) || negb (slen (cbody_digest r) =? 32) ||
              bool_decide (sha256 (cbody r) ≠ cbody_digest r) || (accepted_at_ns r <=? 0) ||
              (validated_at_ns r <? accepted_at_ns r) || (1024 <? slen (cetag r)) || (1024 <? slen (clast_modified r))
      then refuse "cache_corrupt"
      else mret (Some {| sc_key := key; sc_fingerprint := fingerprint; sc_body := cbody r; sc_contentType := ccontent_type r;
                         sc_eTag := cetag r; sc_lastModified := clast_modified r;
                         acceptedAt := from_unix_nano (accepted_at_ns r); validatedAt := from_unix_nano (validated_at_ns r) |})
  end.

(** The upsert; its columns satisfy the constraints of the table by the guard. *)
Definition SaveSourceCache (e : SourceCache) : DB () :=
  if bool_decide (sc_key e = "") || (maxCachedBody <? slen (sc_body e)) || is_zero (acceptedAt e) ||
     (validatedAt e <? acceptedAt e) || (1024 <? slen (sc_eTag e)) || (1024 <? slen (sc_lastModified e))
  then refuse "cache_invalid"
  else exec_raw "cache_write" (with_caches <[sc_key e :=
    {| cfingerprint := sc_fingerprint e; cbody := sc_body e; cbody_digest := sha256 (sc_body e);
       ccontent_type := sc_contentType e; cetag := sc_eTag e; clast_modified := sc_lastModified e;
       accepted_at_ns := unix_nano (acceptedAt e); validated_at_ns := unix_nano (validatedAt e) |}]>).

Definition keep_nonempty (new old : string) : string := if bool_decide (new = "") then old else new.
Definition revalidated (at_ : Z) (etag lastModified : string) (r : cache_row) : cache_row :=
  {| cfingerprint := cfingerprint r; cbody := cbody r; cbody_digest := cbody_digest r; ccontent_type := ccontent_type r;
     cetag := keep_nonempty etag (cetag r); clast_modified := keep_nonempty lastModified (clast_modified r);
     accepted_at_ns := accepted_at_ns r; validated_at_ns := unix_nano at_ |}.
(** The update and how many rows it affected. *)
Definition update_matching (key fingerprint : string) (f : cache_row → cache_row) (d : db) : bool * db :=
  match caches d !! key with
  | Some r => if bool_decide (cfingerprint r = fingerprint) then (true, with_caches <[key := f r]> d) else (false, d)
  | None => (false, d)
  end.
Definition ValidateSourceCache (key fingerprint : string) (at_ : Z) (etag lastModified : string) : DB () :=
  if (1024 <? slen etag) || (1024 <? slen lastModified) then refuse "cache_invalid_validator"
  else affected ← statement (λ _, "cache_validate") (update_matching key fingerprint (revalidated at_ etag lastModified));
       if affected : bool then mret () else refuse "cache_missing".

(** The digest and the validation time of a row, if there is one. *)
Definition SourceCacheVersion (key : string) : DB (option (string * Z)) :=
  found ← query_raw "cache_version" (λ d, caches d !! key);
  match found with
  | None => mret None
  | Some r =>
      if (maxCachedBody <? slen (cbody r)) || negb (slen (cbody_digest r) =? 32) || (validated_at_ns r <=? 0)
      then refuse "cache_version"
      else if bool_decide (sha256 (cbody r) ≠ cbody_digest r) then refuse "cache_corrupt"
      else mret (Some (cbody_digest r, from_unix_nano (validated_at_ns r)))
  end.

Definition DeleteSourceCache (key : string) : DB () := exec_raw "cache_delete" (with_caches (delete key)).

Definition cacheLifetime : Z := 8 * 24 * hour.
Definition is_stale (live : gset string) (now : Z) (key : string) (r : cache_row) : bool :=
  bool_decide (key ∉ live) || negb (now <? from_unix_nano (validated_at_ns r) + cacheLifetime).
Fixpoint delete_all (keys : list string) : DB () :=
  match keys with [] => mret () | k :: rest => _ ← DeleteSourceCache k; delete_all rest end.
(** The rows are read one by one, and reading, iterating and closing may fail. *)
Definition PruneSourceCache (live : gset string) (now : Z) : DB () :=
  rows ← query_raw "cache_prune_read" (λ d, map_to_list (caches d));
  _ ← exec_raw "cache_prune_scan" (λ d, d);
  _ ← exec_raw "cache_prune_iterate" (λ d, d);
  _ ← exec_raw "cache_prune_close" (λ d, d);
  delete_all (filter (λ kr, is_stale live now kr.1 kr.2 = true) rows).*1.
End cache.

(** ** The abstract cache *)

Definition fits (t : Z) : Prop := in_int64 (t - unix_epoch).
(** The entry a row stands for. *)
Definition entry_of (key : string) (r : cache_row) : SourceCache :=
  {| sc_key := key; sc_fingerprint := cfingerprint r; sc_body := cbody r; sc_contentType := ccontent_type r; sc_eTag := cetag r;
     sc_lastModified := clast_modified r; acceptedAt := from_unix_nano (accepted_at_ns r);
     validatedAt := from_unix_nano (validated_at_ns r) |}.
Definition cached (d : db) : gmap string SourceCache := map_imap (λ k r, Some (entry_of k r)) (caches d).
Lemma cached_lookup d k : cached d !! k = entry_of k <$> caches d !! k.
Proof. unfold cached. rewrite map_lookup_imap. by destruct (caches d !! k). Qed.

Inductive cache_op :=
| OpSave (e : SourceCache)
| OpValidate (key fingerprint : string) (at_ : Z) (etag lastModified : string)
| OpDelete (key : string)
| OpPrune (live : gset string) (now : Z).

Definition revalidated_entry (at_ : Z) (etag lastModified : string) (e : SourceCache) : SourceCache :=
  {| sc_key := sc_key e; sc_fingerprint := sc_fingerprint e; sc_body := sc_body e; sc_contentType := sc_contentType e;
     sc_eTag := keep_nonempty etag (sc_eTag e); sc_lastModified := keep_nonempty lastModified (sc_lastModified e);
     acceptedAt := acceptedAt e; validatedAt := at_ |}.
Definition stale_entry (live : gset string) (now : Z) (k : string) (e : SourceCache) : Prop :=
  k ∉ live ∨ validatedAt e + cacheLifetime ≤ now.

(** What an operation that succeeds does to the cache. *)
Definition op_done (o : cache_op) (m m' : gmap string SourceCache) : Prop :=
  match o with
  | OpSave e => m' = <[sc_key e := e]> m
  | OpValidate k fp at_ etag lm => ∃ e, m !! k = Some e ∧ sc_fingerprint e = fp ∧ m' = <[k := revalidated_entry at_ etag lm e]> m
  | OpDelete k => m' = delete k m
  | OpPrune live now => ∀ k e, m' !! k = Some e ↔ m !! k = Some e ∧ ¬ stale_entry live now k e
  end.
(** What one that fails may have done: only pruning deletes more than one row. *)
Definition op_failed (o : cache_op) (m m' : gmap string SourceCache) : Prop :=
  match o with
  | OpPrune live now => ∀ k, m' !! k = m !! k ∨ m' !! k = None ∧ ∃ e, m !! k = Some e ∧ stale_entry live now k e
  | _ => m' = m
  end.

Section refinement.
Context `{Digest}.

Definition run_op (o : cache_op) : DB () :=
  match o with
  | OpSave e => SaveSourceCache e
  | OpValidate k fp at_ etag lm => ValidateSourceCache k fp at_ etag lm
  | OpDelete k => DeleteSourceCache k
  | OpPrune live now => PruneSourceCache live now
  end.

(** The rows [LoadSourceCache] accepts. *)
Record row_ok (k : string) (r : cache_row) : Prop := {
  ro_fingerprint : slen (cfingerprint r) = 32;
  ro_body : slen (cbody r) ≤ maxCachedBody;
  ro_digest : cbody_digest r = sha256 (cbody r);
  ro_accepted : 0 < accepted_at_ns r;
  ro_validated : accepted_at_ns r ≤ validated_at_ns r;
  ro_etag : slen (cetag r) ≤ 1024;
  ro_modified : slen (clast_modified r) ≤ 1024;
}.
Definition cache_ok (d : db) : Prop := map_Forall row_ok (caches d).

(** The clock readings the callers pass: representable, after 1970, and not
    before the acceptance of the entry that is revalidated. *)
Definition op_ok (o : cache_op) (m : gmap string SourceCache) : Prop :=
  match o with
  | OpSave e => slen (sc_fingerprint e) = 32 ∧ fits (acceptedAt e) ∧ fits (validatedAt e) ∧ unix_epoch < acceptedAt e
  | OpValidate k _ at_ _ _ => fits at_ ∧ ∀ e, m !! k = Some e → acceptedAt e ≤ at_
  | _ => True
  end.
Lemma statement_cases {A} code (f : db → A * db) w r w' : statement code f w = (r, w') →
  r = Ok (f (tables w)).1 ∧ tables w' = (f (tables w)).2 ∨ (∃ ctx, r = Err (failure ErrPersistence (code ctx))) ∧ tables w' = tables w.
Proof. unfold statement. destruct (events w) as [|[|ctx] s]; intros [= <- <-]; eauto. Qed.
Lemma DB_bind_cases {A B} (m : DB A) (k : A → DB B) w r w' : (m ≫= k) w = (r, w') →
  (∃ e, m w = (Err e, w') ∧ r = Err e) ∨ ∃ a w1, m w = (Ok a, w1) ∧ k a w1 = (r, w').
Proof. unfold mbind, DB_bind. destruct (m w) as [[a|e] w1] eqn:E; [eauto|]. intros [= <- <-]. eauto. Qed.

(** Only the cache changes. *)
Definition frame (d d' : db) : Prop := observations d' = observations d ∧ checkpoints d' = checkpoints d.
Lemma frame_refl d : frame d d.
Proof. done. Qed.

Lemma delete_all_cases keys w r w' : delete_all keys w = (r, w') →
  frame (tables w) (tables w') ∧
  (∀ k, caches (tables w') !! k = caches (tables w) !! k ∨ k ∈ keys ∧ caches (tables w') !! k = None) ∧
  (r = Ok () → ∀ k, k ∈ keys → caches (tables w') !! k = None).
Proof.
  revert w. induction keys as [|x keys IH]; intros w; cbn [delete_all].
  { intros [= <- <-]. split_and!; [apply frame_refl|by left|by intros _ k ?%not_elem_of_nil]. }
  intros [(e&Hd&->)|([]&w1&Hd&Hr)]%DB_bind_cases; apply statement_cases in Hd as [[Hv Ht]|[[ctx Hv] Ht]]; try done.
  - rewrite Ht. split_and!; [apply frame_refl|by left|done].
  - apply IH in Hr as ([Hf1 Hf2]&Hk&Ho). rewrite Ht in Hf1, Hf2, Hk. simpl in Hf1, Hf2, Hk. split_and!; [done| |].
    + intros k. destruct (decide (k = x)) as [->|Hne].
      * right. split; [by left|]. destruct (Hk x) as [E|[_ E]]; rewrite E; [by rewrite lookup_delete_eq|done].
      * destruct (Hk k) as [E|[Hin E]]; [left; by rewrite E, lookup_delete_ne|right; split; [by right|done]].
    + intros HOk k Hin. destruct (decide (k ∈ keys)) as [Hk'|Hk']; [by apply Ho|].
      apply elem_of_cons in Hin as [->|?]; [|done]. destruct (Hk x) as [E|[_ E]]; rewrite E; [by rewrite lookup_delete_eq|done].
Qed.
(** ** Each operation *)

Lemma cached_insert d k r : cached (with_caches <[k := r]> d) = <[k := entry_of k r]> (cached d).
Proof.
  apply map_eq. intros k'. rewrite cached_lookup. simpl. destruct (decide (k = k')) as [->|Hne].
  - by rewrite !lookup_insert_eq.
  - by rewrite !lookup_insert_ne, cached_lookup by done.
Qed.
Lemma cached_delete d k : cached (with_caches (delete k) d) = delete k (cached d).
Proof.
  apply map_eq. intros k'. rewrite cached_lookup. simpl. destruct (decide (k = k')) as [->|Hne].
  - by rewrite !lookup_delete_eq.
  - by rewrite !lookup_delete_ne, cached_lookup by done.
Qed.

Definition refines (o : cache_op) (w : sql) (r : result Failure ()) (w' : sql) : Prop :=
  cache_ok (tables w') ∧ frame (tables w) (tables w') ∧
  match r with
  | Ok _ => op_done o (cached (tables w)) (cached (tables w'))
  | Err _ => op_failed o (cached (tables w)) (cached (tables w'))
  end.
(** An operation that fails without an effect. *)
Lemma refines_unchanged o w e w' : cache_ok (tables w) → tables w' = tables w → refines o w (Err e) w'.
Proof. intros Hok Ht. unfold refines. rewrite Ht. split_and!; [done|apply frame_refl|]. destruct o; simpl; auto. Qed.

Lemma save_refines e w r w' : cache_ok (tables w) → op_ok (OpSave e) (cached (tables w)) →
  SaveSourceCache e w = (r, w') → refines (OpSave e) w r w'.
Proof.
  intros Hok (Hf&Ha&Hv&He). unfold SaveSourceCache. destruct (_ || _) eqn:Eg.
  { intros [= <- <-]. by apply refines_unchanged. }
  intros [[-> Ht]|[[ctx ->] Ht]]%statement_cases; [|by apply refines_unchanged]. unfold refines. rewrite Ht. simpl.
  bool_to_prop. split_and!; [|done|].
  - apply map_Forall_insert_2; [|done]. unfold fits, unix_nano in *. split; simpl; rewrite ?wrap64_id by done; try done; lia.
  - rewrite cached_insert. f_equal. unfold entry_of. simpl. rewrite !unix_nano_round_trip by done. by destruct e.
Qed.

Lemma keep_nonempty_bound new old n : slen new ≤ n → slen old ≤ n → slen (keep_nonempty new old) ≤ n.
Proof. unfold keep_nonempty. by case_bool_decide. Qed.
Lemma validate_refines k fp at_ etag lm w r w' : cache_ok (tables w) → op_ok (OpValidate k fp at_ etag lm) (cached (tables w)) →
  ValidateSourceCache k fp at_ etag lm w = (r, w') → refines (OpValidate k fp at_ etag lm) w r w'.
Proof.
  intros Hok (Hfit&Hat). unfold ValidateSourceCache. destruct (_ || _) eqn:Eg; [intros [= <- <-]; by apply refines_unchanged|].
  bool_to_prop. intros [(e&Hs&->)|(ok&w1&Hs&Hr)]%DB_bind_cases; apply statement_cases in Hs as [[Hv Ht]|[[ctx Hv] Ht]]; try done.
  { by apply refines_unchanged. }
  unfold update_matching in *. destruct (caches (tables w) !! k) as [row|] eqn:Ek.
  2: { injection Hv as ->. injection Hr as <- <-. by apply refines_unchanged. }
  case_bool_decide as Ef; injection Hv as ->; injection Hr as <- <-; [|by apply refines_unchanged].
  pose proof (map_Forall_lookup_1 _ _ _ _ Hok Ek) as [R1 R2 R3 R4 R5 R6 R7].
  pose proof (cached_lookup (tables w) k) as Hc. rewrite Ek in Hc. simpl in Hc.
  specialize (Hat _ Hc). simpl in Hat. unfold refines. rewrite Ht. simpl. split_and!; [|done|].
  - apply map_Forall_insert_2; [|done]. split; simpl; auto using keep_nonempty_bound.
    unfold from_unix_nano in Hat. unfold unix_nano, fits in *. rewrite wrap64_id by done. lia.
  - exists (entry_of k row). split_and!; [done|done|]. rewrite cached_insert. f_equal.
    unfold entry_of, revalidated_entry. simpl. by rewrite unix_nano_round_trip.
Qed.

Lemma delete_refines k w r w' : cache_ok (tables w) → DeleteSourceCache k w = (r, w') → refines (OpDelete k) w r w'.
Proof.
  intros Hok [[-> Ht]|[[ctx ->] Ht]]%statement_cases; [|by apply refines_unchanged]. unfold refines. rewrite Ht. simpl.
  split_and!; [by apply map_Forall_delete|done|apply cached_delete].
Qed.

Lemma is_stale_spec live now k r : is_stale live now k r = true ↔ stale_entry live now k (entry_of k r).
Proof.
  unfold is_stale, stale_entry. simpl. rewrite orb_true_iff, bool_decide_eq_true, negb_true_iff, Z.ltb_ge. done.
Qed.
Lemma prune_refines live now w r w' : cache_ok (tables w) → PruneSourceCache live now w = (r, w') →
  refines (OpPrune live now) w r w'.
Proof.
  intros Hok. unfold PruneSourceCache.
  intros [(e&Hs&->)|(rows&w1&Hs&Hr)]%DB_bind_cases; apply statement_cases in Hs as [[Hv T1]|[[ctx Hv] T1]]; try done;
    [by apply refines_unchanged|]. injection Hv as ->. simpl in T1.
  apply DB_bind_cases in Hr as [(e&Hs&->)|([]&w2&Hs&Hr)]; apply statement_cases in Hs as [[Hv T2]|[[ctx Hv] T2]]; try done;
    [apply refines_unchanged; [done|congruence]|]. simpl in T2.
  apply DB_bind_cases in Hr as [(e&Hs&->)|([]&w3&Hs&Hr)]; apply statement_cases in Hs as [[Hv' T3]|[[ctx Hv'] T3]]; try done;
    [apply refines_unchanged; [done|congruence]|]. simpl in T3.
  apply DB_bind_cases in Hr as [(e&Hs&->)|([]&w4&Hs&Hr)]; apply statement_cases in Hs as [[Hv'' T4]|[[ctx Hv''] T4]]; try done;
    [apply refines_unchanged; [done|congruence]|]. simpl in T4.
  apply delete_all_cases in Hr as (Hf&Hk&Ho). rewrite T4, T3, T2, T1 in Hf, Hk. set (keys := (filter _ _).*1) in *.
  assert (∀ k, k ∈ keys ↔ ∃ row, caches (tables w) !! k = Some row ∧ is_stale live now k row = true) as Hkeys.
  { intros k. unfold keys. rewrite list_elem_of_fmap. setoid_rewrite list_elem_of_filter. split.
    - intros ([k' row]&->&Hst&Hin%elem_of_map_to_list). eauto.
    - intros (row&Hin&Hst). exists (k, row). rewrite elem_of_map_to_list. done. }
  assert (cache_ok (tables w')) as Hok'.
  { intros k row Hrow. destruct (Hk k) as [E|[_ E]]; rewrite E in Hrow; [by apply (Hok k)|done]. }
  split_and!; [done|exact Hf|]. destruct r as [[]|e]; simpl.
  - intros k en. rewrite !cached_lookup. specialize (Ho eq_refl k). destruct (caches (tables w) !! k) as [row|] eqn:Ek; simpl.
    + destruct (is_stale live now k row) eqn:Est.
      * rewrite Ho by (apply Hkeys; eauto). simpl. apply is_stale_spec in Est. split; [done|]. by intros [[= <-] ?].
      * assert (¬ stale_entry live now k (entry_of k row)) as Hns by (rewrite <-is_stale_spec; congruence).
        destruct (Hk k) as [E|[Hin _]].
        -- rewrite E, Ek. simpl. split; [by intros [= <-]|by intros [? _]].
        -- apply Hkeys in Hin as (row'&Ek'&Est'). congruence.
    + destruct (Hk k) as [E|[_ E]]; rewrite E, ?Ek; simpl; naive_solver.
  - intros k. rewrite !cached_lookup. destruct (Hk k) as [E|[Hin E]]; rewrite E; [by left|]. right. split; [done|].
    apply Hkeys in Hin as (row&->&Hst). eexists. split; [done|]. by apply is_stale_spec.
Qed.
Lemma run_op_refines o w r w' : cache_ok (tables w) → op_ok o (cached (tables w)) → run_op o w = (r, w') → refines o w r w'.
Proof. destruct o; simpl; intros; eauto using save_refines, validate_refines, delete_refines, prune_refines. Qed.

(** What a load of [key] for a configuration with [fingerprint] should find. *)
Definition matching (fingerprint : string) (o : option SourceCache) : option SourceCache :=
  e ← o; if bool_decide (sc_fingerprint e = fingerprint) then Some e else None.
Lemma load_cases key fp w r w' : cache_ok (tables w) → LoadSourceCache key fp w = (r, w') →
  tables w' = tables w ∧ (r = Err (failure ErrPersistence "cache_read") ∨ r = Ok (matching fp (cached (tables w) !! key))).
Proof.
  intros Hok. unfold LoadSourceCache.
  intros [(e&Hs&->)|(row&w1&Hs&Hr)]%DB_bind_cases; apply statement_cases in Hs as [[Hv T1]|[[ctx Hv] T1]]; try done.
  { split; [done|]. left. congruence. }
  injection Hv as ->. simpl in *. rewrite cached_lookup. destruct (caches (tables w) !! key) as [row|] eqn:Ek.
  2: { injection Hr as <- <-. auto. }
  destruct (map_Forall_lookup_1 _ _ _ _ Hok Ek) as [R1 R2 R3 R4 R5 R6 R7]. simpl.
  assert (slen (cbody_digest row) = 32) as Hd by (rewrite R3; unfold slen; by rewrite sha256_length).
  rewrite R1, Hd in Hr. simpl in Hr. unfold matching. simpl. destruct (decide (cfingerprint row = fp)) as [Ef|Ef]; [|rewrite bool_decide_true in Hr by done; rewrite bool_decide_false by done].
  2: { injection Hr as <- <-. auto. }
  rewrite (bool_decide_true (_ = fp)) by done. rewrite (bool_decide_false (_ ≠ fp)) in Hr by naive_solver. simpl in Hr. rewrite (proj2 (Z.ltb_ge _ _)), bool_decide_false in Hr; [|congruence|done].
  rewrite (proj2 (Z.leb_gt _ _)), !(proj2 (Z.ltb_ge _ _)) in Hr by lia. simpl in Hr. injection Hr as <- <-.
  split; [done|]. right. rewrite <-Ef. done.
Qed.

(** The states of a store whose cache is used through the operations. *)
Inductive reaches : sql → Prop :=
| reaches_empty w : caches (tables w) = ∅ → reaches w
| reaches_op o w r w' : reaches w → op_ok o (cached (tables w)) → run_op o w = (r, w') → reaches w'
| reaches_load key fp w r w' : reaches w → LoadSourceCache key fp w = (r, w') → reaches w'.
Lemma reaches_ok w : reaches w → cache_ok (tables w).
Proof.
  induction 1 as [w E|o w r w' _ IH Hop Hr|key fp w r w' _ IH Hr].
  - unfold cache_ok. rewrite E. apply map_Forall_empty.
  - by apply (run_op_refines _ _ _ _ IH Hop Hr).
  - apply load_cases in Hr as [-> _]; done.
Qed.

(** C37: The cache table implements a map from source keys to entries, under any failing statements: an operation that
    succeeds has its effect on the map, one that fails has none (a failed pruning may have removed some stale
    entries), the other tables are untouched, and a load, unless its query fails, returns the entry saved for the key
    when the fingerprint matches and nothing otherwise, and never reports corruption. *)
Theorem source_cache_refines w : reaches w →
  (∀ o r w', op_ok o (cached (tables w)) → run_op o w = (r, w') → frame (tables w) (tables w') ∧
    match r with
    | Ok _ => op_done o (cached (tables w)) (cached (tables w'))
    | Err _ => op_failed o (cached (tables w)) (cached (tables w'))
    end) ∧
  (∀ key fp r w', LoadSourceCache key fp w = (r, w') → tables w' = tables w ∧
    (r = Err (failure ErrPersistence "cache_read") ∨ r = Ok (matching fp (cached (tables w) !! key)))).
Proof.
  intros Hw%reaches_ok. split.
  - intros o r w' Hop Hr. by apply (run_op_refines _ _ _ _ Hw Hop Hr).
  - intros key fp r w' Hr. by apply load_cases in Hr.
Qed.
End refinement.

(** ** A concrete cache *)

Module CacheSample.
#[local] Existing Instance toy_digest.
Definition fp : string := sha256 "configuration".
Definition entry : SourceCache :=
  {| sc_key := "pool/a"; sc_fingerprint := fp; sc_body := "vless://x"; sc_contentType := ""; sc_eTag := "e"; sc_lastModified := "";
     acceptedAt := unix_epoch + hour; validatedAt := unix_epoch + hour |}.
Definition start (l : list event) : sql := {| tables := {| observations := []; checkpoints := ∅; caches := ∅ |}; events := l |}.
Definition saved : sql := (SaveSourceCache entry (start [])).2.
Lemma entry_ok : op_ok (OpSave entry) ∅.
Proof.
  split_and!; [reflexivity|unfold fits, in_int64; simpl; unfold hour, minute, second, int64_min, int64_max; lia..|].
  unfold entry, acceptedAt, hour, minute, second. lia.
Qed.
Lemma saved_reached : reaches saved.
Proof. eapply (reaches_op (OpSave entry) (start [])); [by apply reaches_empty|apply entry_ok|]. vm_compute. reflexivity. Qed.

(** A validation at a time before the acceptance, as after the clock was set
    back, leaves a row that no load accepts until it is overwritten. *)
Lemma backdated_validation_corrupts :
  let w := (ValidateSourceCache "pool/a" fp (unix_epoch + hour - minute) "" "" saved).2 in
  (ValidateSourceCache "pool/a" fp (unix_epoch + hour - minute) "" "" saved).1 = Ok () ∧
  (LoadSourceCache "pool/a" fp w).1 = Err (failure ErrPersistence "cache_corrupt").
Proof. split; vm_compute; reflexivity. Qed.
End CacheSample.

Lemma source_cache_refines_witness :
  (@LoadSourceCache toy_digest "pool/a" CacheSample.fp CacheSample.saved).1 = Ok (Some CacheSample.entry) ∧
  (@LoadSourceCache toy_digest "pool/a" CacheSample.fp CacheSample.saved).1 =
    Ok (matching CacheSample.fp (cached (tables CacheSample.saved) !! "pool/a")).
Proof.
  split; [vm_compute; reflexivity|].
  destruct (@source_cache_refines toy_digest CacheSample.saved CacheSample.saved_reached) as [_ Hl].
  destruct (@LoadSourceCache toy_digest "pool/a" CacheSample.fp CacheSample.saved) as [r w'] eqn:E.
  destruct (Hl "pool/a" CacheSample.fp r w' E) as [_ [Hr|Hr]]; [|exact Hr].
  apply (f_equal fst) in E. vm_compute in E. subst r. discriminate Hr.
Defined.
