(* ===== verification/SnapshotGuard.v ===== *)
(** * The snapshot guard (internal/operator/snapshot_guard.go)

    Before publishing, the guard reads again every Kubernetes object and
    every cached source that the work was computed from.  What the API server
    answers is a parameter; the cache is read through [SourceCacheVersion]. *)
From S2P Require Import Prelude Order Bytes Encoding Provenance Inventory Store SourceCache.
From Stdlib Require String.
Open Scope Z_scope.

(** types.NamespacedName *)
Record NamespacedName := { nn_namespace : string; nn_name : string }.
#[global] Instance NamespacedName_eq_dec : EqDecision NamespacedName.
Proof. solve_decision. Defined.
#[global] Instance NamespacedName_countable : Countable NamespacedName.
Proof.
  refine (inj_countable' (λ n, (nn_namespace n, nn_name n)) (λ p, {| nn_namespace := p.1; nn_name := p.2 |}) _).
  by intros [].
Defined.

(** pool.go: the versions of the objects and cache entries that were read. *)
Record ResourceRevision := { rr_uid : string; rr_resourceVersion : string }.
#[global] Instance ResourceRevision_eq_dec : EqDecision ResourceRevision.
Proof. solve_decision. Defined.
Record CacheVersion := { cv_digest : string; cv_validatedAt : Z; cv_present : bool; cv_sourceID : string; cv_expiresAt : Z }.

Record objectRevision := { or_name : NamespacedName; or_uid : string; or_generation : Z; or_resourceVersion : string }.
Record SnapshotGuard := {
  g_gateway : objectRevision; g_pool : objectRevision; g_secrets : gmap NamespacedName ResourceRevision;
  g_cacheVersions : gmap string CacheVersion;
}.

(** An object as the reader returns it. *)
Record object := { o_uid : string; o_generation : Z; o_resourceVersion : string }.
Inductive answer A := Found (a : A) | NotFound | ReadFailed.
Arguments Found {A} a.
Arguments NotFound {A}.
Arguments ReadFailed {A}.
Record reader := {
  get_gateway : NamespacedName → answer object;
  get_pool : NamespacedName → answer object;
  get_secret : NamespacedName → answer ResourceRevision;
}.

Definition NewSnapshotGuard (gateway pool : NamespacedName * object) (secrets : gmap NamespacedName ResourceRevision)
    : option SnapshotGuard :=
  if bool_decide (o_uid gateway.2 = "") || bool_decide (o_uid pool.2 = "") then None
  else let revision (x : NamespacedName * object) :=
         {| or_name := x.1; or_uid := o_uid x.2; or_generation := o_generation x.2; or_resourceVersion := o_resourceVersion x.2 |} in
       Some {| g_gateway := revision gateway; g_pool := revision pool; g_secrets := secrets; g_cacheVersions := ∅ |}.

Definition BindCache (versions : gmap string CacheVersion) (g : SnapshotGuard) : SnapshotGuard :=
  {| g_gateway := g_gateway g; g_pool := g_pool g; g_secrets := g_secrets g; g_cacheVersions := versions |}.

(** The loop rewrites the entries of the map it ranges over, each once. *)
Definition without_expiry (v : CacheVersion) : CacheVersion :=
  {| cv_digest := cv_digest v; cv_validatedAt := cv_validatedAt v; cv_present := cv_present v; cv_sourceID := cv_sourceID v; cv_expiresAt := 0 |}.
Definition selected_sources (records : list Record_) : list string :=
  records ≫= λ r, source_String ∘ source <$> provenance r.
Definition BindSelected (records : list Record_) (g : SnapshotGuard) : SnapshotGuard :=
  BindCache ((λ v, if bool_decide (cv_sourceID v ∈ selected_sources records) then v else without_expiry v) <$> g_cacheVersions g) g.

Definition sameRevision (e : objectRevision) (o : object) : bool :=
  bool_decide (o_uid o = or_uid e) && (o_generation o =? or_generation e) && bool_decide (o_resourceVersion o = or_resourceVersion e).

Definition object_unchanged (e : objectRevision) (a : answer object) : bool :=
  match a with Found o => sameRevision e o | _ => false end.
Definition secret_unchanged (e : ResourceRevision) (a : answer ResourceRevision) : bool :=
  if bool_decide (rr_uid e = "") && bool_decide (rr_resourceVersion e = "")
  then match a with NotFound => true | _ => false end
  else match a with Found r => bool_decide (rr_uid r = rr_uid e) && bool_decide (rr_resourceVersion r = rr_resourceVersion e) | _ => false end.
(** [found != expected.Present || found && ...] is false. *)
Definition version_unchanged (e : CacheVersion) (actual : option (string * Z)) : bool :=
  match actual with
  | None => negb (cv_present e)
  | Some (digest, validated) => cv_present e && bool_decide (digest = cv_digest e) && (validated =? cv_validatedAt e)
  end.

Section guard.
Context `{Digest}.

(** The loop over the cache versions; [clock key] is what the clock says
    when the entry [key] is looked at. *)
Fixpoint check_caches (clock : string → Z) (l : list (string * CacheVersion)) : DB bool :=
  match l with
  | [] => mret true
  | (key, e) :: rest =>
      if negb (is_zero (cv_expiresAt e)) && negb (clock key <? cv_expiresAt e) then mret false
      else λ w, match SourceCacheVersion key w with
                | (Ok actual, w') => if version_unchanged e actual then check_caches clock rest w' else (Ok false, w')
                | (Err _, w') => (Ok false, w')
                end
  end.
(** [Check]; false is [ErrSnapshotObsolete]. *)
Definition Check_ (rd : reader) (clock : string → Z) (g : SnapshotGuard) : DB bool :=
  if negb (object_unchanged (g_gateway g) (get_gateway rd (or_name (g_gateway g)))) then mret false
  else if negb (object_unchanged (g_pool g) (get_pool rd (or_name (g_pool g)))) then mret false
  else if negb (forallb (λ ne, secret_unchanged ne.2 (get_secret rd ne.1)) (map_to_list (g_secrets g))) then mret false
  else check_caches clock (map_to_list (g_cacheVersions g)).

(** ** What passing the guard means *)

(** The expiry that counts when [records] are published: that of a source
    which contributed one of them. *)
Definition expired_for (records : list Record_) (now : Z) (e : CacheVersion) : Prop :=
  (∃ r p, r ∈ records ∧ p ∈ provenance r ∧ source_String (source p) = cv_sourceID e) ∧ cv_expiresAt e ≠ 0 ∧ cv_expiresAt e ≤ now.
(** The cache still holds, or still lacks, the entry that was read. *)
Definition same_version (e : CacheVersion) (o : option SourceCache) : Prop :=
  match o with
  | None => cv_present e = false
  | Some en => cv_present e = true ∧ sha256 (sc_body en) = cv_digest e ∧ validatedAt en = cv_validatedAt e
  end.
Record unchanged (rd : reader) (clock : string → Z) (records : list Record_) (g : SnapshotGuard) (d : db) : Prop := {
  un_gateway : ∃ o, get_gateway rd (or_name (g_gateway g)) = Found o ∧ o_uid o = or_uid (g_gateway g) ∧
    o_generation o = or_generation (g_gateway g) ∧ o_resourceVersion o = or_resourceVersion (g_gateway g);
  un_pool : ∃ o, get_pool rd (or_name (g_pool g)) = Found o ∧ o_uid o = or_uid (g_pool g) ∧
    o_generation o = or_generation (g_pool g) ∧ o_resourceVersion o = or_resourceVersion (g_pool g);
  un_secrets : ∀ n e, g_secrets g !! n = Some e →
    get_secret rd n = if decide (e = {| rr_uid := ""; rr_resourceVersion := "" |}) then NotFound else Found e;
  un_caches : ∀ k e, g_cacheVersions g !! k = Some e → same_version e (cached d !! k) ∧ ¬ expired_for records (clock k) e;
}.

Lemma object_unchanged_spec e a : object_unchanged e a = true ↔
  ∃ o, a = Found o ∧ o_uid o = or_uid e ∧ o_generation o = or_generation e ∧ o_resourceVersion o = or_resourceVersion e.
Proof.
  destruct a as [o| |]; simpl; [|naive_solver..]. unfold sameRevision.
  rewrite !andb_true_iff, !bool_decide_eq_true, Z.eqb_eq. naive_solver.
Qed.
Lemma secret_unchanged_spec e a : secret_unchanged e a = true ↔
  a = if decide (e = {| rr_uid := ""; rr_resourceVersion := "" |}) then NotFound else Found e.
Proof.
  unfold secret_unchanged. destruct e as [u v]. simpl.
  assert (bool_decide (u = "") && bool_decide (v = "") = bool_decide ({| rr_uid := u; rr_resourceVersion := v |} = {| rr_uid := ""; rr_resourceVersion := "" |})) as ->.
  { rewrite <-bool_decide_and. apply bool_decide_ext. naive_solver. }
  case_bool_decide as E; [rewrite decide_True by done|rewrite decide_False by done].
  - by destruct a.
  - destruct a as [[u' v']| |]; [|done..]. simpl. rewrite andb_true_iff, !bool_decide_eq_true. naive_solver.
Qed.

Lemma version_cases k w r w' : cache_ok (tables w) → SourceCacheVersion k w = (r, w') → tables w' = tables w ∧
  ((∃ f, r = Err f) ∨ r = Ok ((λ en, (sha256 (sc_body en), validatedAt en)) <$> cached (tables w) !! k)).
Proof.
  intros Hok. unfold SourceCacheVersion.
  intros [(e&Hs&->)|(row&w1&Hs&Hr)]%DB_bind_cases; apply statement_cases in Hs as [[Hv T1]|[[ctx Hv] T1]]; try done.
  { split; [done|]. left. eauto. }
  injection Hv as ->. simpl in *. rewrite cached_lookup. destruct (caches (tables w) !! k) as [row|] eqn:Ek.
  2: { injection Hr as <- <-. auto. }
  destruct (map_Forall_lookup_1 _ _ _ _ Hok Ek) as [R1 R2 R3 R4 R5 R6 R7]. simpl.
  assert (slen (cbody_digest row) = 32) as Hd by (rewrite R3; unfold slen; by rewrite sha256_length).
  rewrite Hd, (proj2 (Z.ltb_ge _ _)), (proj2 (Z.leb_gt _ _)), bool_decide_false in Hr by (congruence || lia). simpl in Hr.
  injection Hr as <- <-. rewrite R3. auto.
Qed.
Lemma version_unchanged_spec e (o : option SourceCache) :
  version_unchanged e ((λ en, (sha256 (sc_body en), validatedAt en)) <$> o) = true ↔ same_version e o.
Proof.
  destruct o as [en|]; simpl; [|apply negb_true_iff]. rewrite !andb_true_iff, bool_decide_eq_true, Z.eqb_eq. tauto.
Qed.

(** One entry of the loop. *)
Definition entry_passes (clock : string → Z) (d : db) (ke : string * CacheVersion) : Prop :=
  (cv_expiresAt ke.2 = 0 ∨ clock ke.1 < cv_expiresAt ke.2) ∧ same_version ke.2 (cached d !! ke.1).
Lemma expiry_guard (t e : Z) : negb (is_zero e) && negb (t <? e) = false ↔ e = 0 ∨ t < e.
Proof. unfold is_zero. rewrite andb_false_iff, !negb_false_iff, Z.eqb_eq, Z.ltb_lt. done. Qed.
Lemma check_caches_sound clock l w w' : cache_ok (tables w) → check_caches clock l w = (Ok true, w') →
  Forall (entry_passes clock (tables w)) l.
Proof.
  revert w. induction l as [|[k e] l IH]; intros w Hok Hc; [constructor|]. cbn [check_caches] in Hc.
  destruct (_ && _) eqn:Eg; [done|]. apply expiry_guard in Eg. destruct (SourceCacheVersion k w) as [r w1] eqn:Ev.
  apply version_cases in Ev as [Ht [[f ->]| ->]]; [done| |done]. destruct (version_unchanged _ _) eqn:Eu; [|done].
  apply version_unchanged_spec in Eu. constructor; [by split|]. rewrite <-Ht. apply IH; [by rewrite Ht|done].
Qed.
Lemma version_no_fault k w : events w = [] → cache_ok (tables w) →
  SourceCacheVersion k w = (Ok ((λ en, (sha256 (sc_body en), validatedAt en)) <$> cached (tables w) !! k), w).
Proof.
  intros He Hok. destruct (SourceCacheVersion k w) as [r w'] eqn:E. pose proof E as E'.
  apply version_cases in E' as [Ht Hr]; [|done]. unfold SourceCacheVersion in E.
  erewrite DB_bind_Ok in E by by apply statement_Ok. simpl in E.
  assert (w = {| tables := tables w; events := [] |}) as Hw by (destruct w; simpl in *; by subst).
  rewrite cached_lookup in *. destruct (caches (tables w) !! k) as [row|] eqn:Ek; [|injection E as <- <-; by rewrite <-Hw].
  destruct (map_Forall_lookup_1 _ _ _ _ Hok Ek) as [R1 R2 R3 R4 R5 R6 R7]. simpl in *.
  assert (slen (cbody_digest row) = 32) as Hd by (rewrite R3; unfold slen; by rewrite sha256_length).
  rewrite Hd, (proj2 (Z.ltb_ge _ _)), (proj2 (Z.leb_gt _ _)), bool_decide_false in E by (congruence || lia). simpl in E.
  injection E as <- <-. by rewrite <-Hw, R3.
Qed.
Lemma check_caches_complete clock l w : events w = [] → cache_ok (tables w) → Forall (entry_passes clock (tables w)) l →
  (check_caches clock l w).1 = Ok true.
Proof.
  intros He Hok. induction 1 as [|[k e] l [Hx Hs] _ IH]; [done|]. cbn [check_caches]. simpl in Hx, Hs.
  apply expiry_guard in Hx. rewrite Hx, version_no_fault by done. by rewrite (proj2 (version_unchanged_spec _ _) Hs).
Qed.
Lemma selected_spec records s : s ∈ selected_sources records ↔
  ∃ r p, r ∈ records ∧ p ∈ provenance r ∧ source_String (source p) = s.
Proof.
  unfold selected_sources. rewrite list_elem_of_bind. setoid_rewrite list_elem_of_fmap. simpl. naive_solver.
Qed.
Lemma entries_pass clock records g d :
  Forall (entry_passes clock d) (map_to_list (g_cacheVersions (BindSelected records g))) ↔
  ∀ k e, g_cacheVersions g !! k = Some e → same_version e (cached d !! k) ∧ ¬ expired_for records (clock k) e.
Proof.
  rewrite Forall_forall. simpl. split.
  - intros Hall k e Hk. specialize (Hall (k, if bool_decide (cv_sourceID e ∈ selected_sources records) then e else without_expiry e)).
    destruct Hall as [Hx Hs]; [apply elem_of_map_to_list; rewrite lookup_fmap, Hk; done|]. simpl in Hx, Hs. unfold expired_for.
    rewrite <-selected_spec. case_bool_decide as Hsel; [split; [done|]; intros (_&?&?); lia|]. split; [exact Hs|]. by intros (?&_&_).
  - intros Hall [k v] Hin%elem_of_map_to_list. rewrite lookup_fmap in Hin. apply fmap_Some in Hin as (e&Hk&->).
    destruct (Hall k e Hk) as [Hs Hx]. unfold expired_for in Hx. rewrite <-selected_spec in Hx. unfold entry_passes. simpl.
    case_bool_decide as Hsel; [|by split; [left|]]. split; [|done].
    destruct (decide (cv_expiresAt e = 0)) as [|Hne]; [by left|right]. apply Z.nle_gt. intros Hle. by apply Hx.
Qed.

Lemma secrets_pass rd (g : SnapshotGuard) :
  forallb (λ ne, secret_unchanged ne.2 (get_secret rd ne.1)) (map_to_list (g_secrets g)) = true ↔
  ∀ n e, g_secrets g !! n = Some e →
    get_secret rd n = if decide (e = {| rr_uid := ""; rr_resourceVersion := "" |}) then NotFound else Found e.
Proof.
  rewrite forallb_forall. setoid_rewrite <-list_elem_of_In. split.
  - intros Hall n e He. apply secret_unchanged_spec, (Hall (n, e)). by apply elem_of_map_to_list.
  - intros Hall [n e] Hin%elem_of_map_to_list. simpl. apply secret_unchanged_spec. eauto.
Qed.

(** C36: The guard passes only if nothing that the work was computed from has changed: gateway, pool and Secrets have
    the revisions that were read, Secrets that were missing still are, every cached source has the same content digest
    and validation time or is still absent, and no source of a record to be published has expired.  When that is so
    and the store answers, the guard passes: expiry of a source that contributes no published record does not stop
    it. *)
Theorem guard_exact rd clock records g w : cache_ok (tables w) →
  (∀ w', Check_ rd clock (BindSelected records g) w = (Ok true, w') → unchanged rd clock records g (tables w)) ∧
  (events w = [] → unchanged rd clock records g (tables w) → (Check_ rd clock (BindSelected records g) w).1 = Ok true).
Proof.
  intros Hok. unfold Check_. change (g_gateway (BindSelected records g)) with (g_gateway g).
  change (g_pool (BindSelected records g)) with (g_pool g). change (g_secrets (BindSelected records g)) with (g_secrets g).
  split.
  - intros w'. destruct (object_unchanged (g_gateway g) _) eqn:E1; [|done]. destruct (object_unchanged (g_pool g) _) eqn:E2; [|done].
    destruct (forallb _ _) eqn:E3; [|done]. simpl. intros Hc%check_caches_sound; [|done]. split.
    + by apply object_unchanged_spec.
    + by apply object_unchanged_spec.
    + by apply secrets_pass.
    + by apply entries_pass.
  - intros He [U1 U2 U3 U4]. rewrite (proj2 (object_unchanged_spec _ _) U1), (proj2 (object_unchanged_spec _ _) U2).
    rewrite (proj2 (secrets_pass _ _) U3). simpl. apply check_caches_complete; [done..|]. by apply entries_pass.
Qed.
End guard.

(** ** A concrete guard *)

Module GuardSample.
#[local] Existing Instance toy_digest.
Definition name : NamespacedName := {| nn_namespace := "default"; nn_name := "x" |}.
Definition obj : object := {| o_uid := "u"; o_generation := 3; o_resourceVersion := "7" |}.
Definition version_ : CacheVersion :=
  {| cv_digest := sha256 "vless://x"; cv_validatedAt := unix_epoch + hour; cv_present := true; cv_sourceID := "src";
     cv_expiresAt := unix_epoch + 25 * hour |}.
Definition guard : SnapshotGuard :=
  BindCache {[ "pool/a" := version_ ]}
    (default {| g_gateway := {| or_name := name; or_uid := ""; or_generation := 0; or_resourceVersion := "" |};
                g_pool := {| or_name := name; or_uid := ""; or_generation := 0; or_resourceVersion := "" |};
                g_secrets := ∅; g_cacheVersions := ∅ |}
       (NewSnapshotGuard (name, obj) (name, obj) {[ name := {| rr_uid := "s"; rr_resourceVersion := "1" |} ]})).
Definition rd (rv : string) : reader :=
  {| get_gateway := λ _, Found obj; get_pool := λ _, Found obj;
     get_secret := λ _, Found {| rr_uid := "s"; rr_resourceVersion := rv |} |}.
Definition published : list Record_ := InventorySample.l.
Lemma saved_ok : cache_ok (tables CacheSample.saved).
Proof. apply reaches_ok, CacheSample.saved_reached. Qed.
(** A Secret that changed, and an expired source with and without a published record. *)
Lemma guard_refuses :
  (Check_ (rd "2") (λ _, unix_epoch + 2 * hour) (BindSelected published guard) CacheSample.saved).1 = Ok false ∧
  (Check_ (rd "1") (λ _, unix_epoch + 26 * hour) (BindSelected published guard) CacheSample.saved).1 = Ok false ∧
  (Check_ (rd "1") (λ _, unix_epoch + 26 * hour) (BindSelected [] guard) CacheSample.saved).1 = Ok true.
Proof. split_and!; vm_compute; reflexivity. Qed.
End GuardSample.

Lemma guard_exact_witness :
  @unchanged toy_digest (GuardSample.rd "1") (λ _, unix_epoch + 2 * hour) GuardSample.published GuardSample.guard (tables CacheSample.saved).
Proof.
  destruct (@guard_exact toy_digest (GuardSample.rd "1") (λ _, unix_epoch + 2 * hour) GuardSample.published GuardSample.guard
    CacheSample.saved GuardSample.saved_ok) as [Hs _].
  apply (Hs CacheSample.saved). vm_compute. reflexivity.
Defined.
