(* ===== verification/Pool.v ===== *)
(** * Pool snapshots (internal/operator/pool.go)

    Resolving an HTTP source of a ProxyPool from the Secrets it names, and
    building the inventory of a pool from Secrets and from the source cache.
    The API server may change between two reads: [api n] is what the n-th
    read sees.  The store is the database of [Store], statement failures
    included. *)
From S2P Require Import Prelude Order Bytes Encoding Provenance Inventory Store SourceCache SnapshotGuard.
From S2P Require Import Endpoint Configuration Identity Text Json Url SourceUri SourceJson Parse Authorize HttpSource HttpProfile.
From Stdlib Require Import Ascii.
From Stdlib Require String.
Open Scope Z_scope.

(** ** The resources *)

Record SecretKeyReference := { ref_name : string; ref_key : string }.
Record HTTPSecretHeader := { sh_name : string; sh_secretRef : SecretKeyReference }.
Record HTTPSource := {
  URLSecretRef : SecretKeyReference; ClientIdentity : string; AuthorizationSecretRef : option SecretKeyReference;
  SecretHeaders : list HTTPSecretHeader; Profile : option HTTPClientProfile; hs_allowHTTP : bool; hs_allowPrivateNetworks : bool;
  hs_allowLoopback : bool; hs_allowInsecureTLS : bool; MaxStale : option Z;
}.
Record SubscriptionSource := {
  ss_id : string; SecretRef : option SecretKeyReference; ss_http : option HTTPSource; ss_format : string; AllowEmpty : bool;
  ss_allowPartial : bool;
}.
Record ProbeSpec := {
  TargetSecretRef : SecretKeyReference; ExpectedStatus : Z; pb_timeout : option Z; pb_allowHTTP : bool; AllowPrivateTargets : bool;
  AllowPrivateEndpoints : bool;
}.
Record SelectionSpec := { se_strategy : string; se_topN : Z }.
Record TargetProfile := { tp_name : string; tp_probe : ProbeSpec; tp_selection : SelectionSpec }.
Record ProfileStatus := { pf_name : string; FirstObservedGeneration : Z }.
Record SourceStatus := { ss_ID : string; ss_state : string; ss_reason : string; LastSuccessTime : option Z }.
(** [metav1.Condition]. *)
Record Condition := {
  c_type : string; c_status : string; c_reason : string; c_message : string; c_observedGeneration : Z; LastTransitionTime : Z;
}.
Record ProxyPoolStatus := {
  pp_observedGeneration : Z; AcceptedEndpoints : Z; RejectedRecords : Z; UnsupportedRecords : Z; LastInventoryChangeTime : option Z;
  pp_sources : list SourceStatus; pp_profiles : list ProfileStatus; pp_conditions : list Condition;
}.
Record ProxyPool := {
  pp_namespace : string; pp_name : string; pp_uid : string; pp_generation : Z; Sources : list SubscriptionSource;
  Probe : ProbeSpec; pp_selection : SelectionSpec; Profiles : list TargetProfile;
  RefreshInterval : option Z; pp_allowInsecureTLS : bool; pp_status : ProxyPoolStatus;
}.
Record Secret := { secret_uid : string; secret_resourceVersion : string; secret_data : gomap string }.
Definition secret_revision (s : Secret) : ResourceRevision := {| rr_uid := secret_uid s; rr_resourceVersion := secret_resourceVersion s |}.
Definition no_revision : ResourceRevision := {| rr_uid := ""; rr_resourceVersion := "" |}.
(** What the API server would answer at one instant. *)
Record cluster := { get_Secret : NamespacedName → answer Secret; get_Pool : NamespacedName → answer ProxyPool }.

(** ** Reads and effects *)

Record world := { reads : nat; store : sql }.
Definition M (A : Type) : Type := world → result pool_error A * world.
#[global] Instance M_ret : MRet M := λ A a w, (Ok a, w).
#[global] Instance M_bind : MBind M := λ A B k m w, match m w with (Ok a, w') => k a w' | (Err e, w') => (Err e, w') end.
Definition fail {A} (code : string) : M A := λ w, (Err (PoolError code), w).
Definition guard_pool (bad : bool) (code : string) : M () := if bad then fail code else mret ().
Definition lift {A} (r : result pool_error A) : M A := λ w, (r, w).
(** A database operation; its outcome is a value. *)
Definition query_store {A} (m : DB A) : M (result Store.Failure A) := λ w,
  let '(r, s) := m (store w) in (Ok r, {| reads := reads w; store := s |}).

(** ** Configuration *)

Definition sourceFormat (value : string) : option Format :=
  if bool_decide (value = "URIList") then Some FormatURIList
  else if bool_decide (value = "Base64URIList") then Some FormatBase64URIList
  else if bool_decide (value = "JSON") then Some FormatJSON
  else if bool_decide (value = "Auto") then Some FormatAuto
  else None.
Definition maxSourceStale (value : option Z) : Z :=
  match value with
  | None => 24 * hour
  | Some d => if (d <? minute) || (7 * 24 * hour <? d) then 24 * hour else d
  end.
Definition refreshDuration (value : option Z) : Z :=
  match value with
  | None => 5 * minute
  | Some d => if (d <? 30 * second) || (24 * hour <? d) then 5 * minute else d
  end.

Abbreviation Revisions := (gmap NamespacedName ResourceRevision).
Record HTTPConfig := { Key : string; Fingerprint : string; SourceID : string; hc_http : HTTP; hc_revisions : Revisions }.

Section resolve.
Context {digest : Digest} {order : MapOrder} {urls : UrlParser} (api : nat → cluster).

Definition read_Secret (name : NamespacedName) : M (answer Secret) := λ w,
  (Ok (get_Secret (api (reads w)) name), {| reads := S (reads w); store := store w |}).
Definition read_Pool (name : NamespacedName) : M (answer ProxyPool) := λ w,
  (Ok (get_Pool (api (reads w)) name), {| reads := S (reads w); store := store w |}).

(** The closure [read] of [ResolveHTTP], with the revisions it has recorded. *)
Definition read_key (namespace : string) (revisions : Revisions) (ref : SecretKeyReference) : M (string * Revisions) :=
  let name := {| nn_namespace := namespace; nn_name := ref_name ref |} in
  a ← read_Secret name;
  match a with
  | Found s =>
      match secret_data s !! ref_key ref with
      | Some value => mret (value, <[name := secret_revision s]> revisions)
      | None => fail "source_key_missing"
      end
  | _ => fail "source_unavailable"
  end.

(** The Authorization value, empty when it is not configured. *)
Definition read_optional (namespace : string) (revisions : Revisions) (ref : option SecretKeyReference) : M (string * Revisions) :=
  match ref with None => mret ("", revisions) | Some ref => read_key namespace revisions ref end.

(** The loop over the other sources: their identities differ. *)
Definition identity_conflict (pool : ProxyPool) (id clientID : string) : bool :=
  existsb (λ other,
    match ss_http other with
    | None => false
    | Some h =>
        negb (bool_decide (ss_id other = id)) &&
        match clientIdentity (pp_uid pool) (ss_id other) (ClientIdentity h) with
        | Ok other => bool_decide (other = clientID)
        | Err _ => true
        end
    end) (Sources pool).

Fixpoint secret_headers (namespace : string) (l : list HTTPSecretHeader) (h : Header) (revisions : Revisions) : M (Header * Revisions) :=
  match l with
  | [] => mret (h, revisions)
  | header :: rest =>
      _ ← guard_pool (negb (validHeaderName (sh_name header)) || reservedTransportOrProfileHeader (sh_name header) ||
                      equal_fold (sh_name header) "Authorization") "source_header_name";
      let name := CanonicalHeaderKey (sh_name header) in
      _ ← guard_pool (match h !! name with Some _ => true | None => false end) "source_header_duplicate";
      '(value, revisions) ← read_key namespace revisions (sh_secretRef header);
      _ ← guard_pool (negb (validHeaderValue value 8192)) "source_header_value";
      secret_headers namespace rest (Header_Set h name value) revisions
  end.

(** [json.Marshal] of the compatibility identity. *)
Definition marshal_header (h : Header) : string :=
  let member k := quoted k +:+ ":[" +:+ join "," (quoted <$> default [] (h !! k)) +:+ "]" in
  "{" +:+ join "," (member <$> go_sort bytes_compare (entries h).*1) +:+ "}".
Definition marshal_fields (l : list (string * string)) : string :=
  "{" +:+ join "," ((λ kv, quoted kv.1 +:+ ":" +:+ kv.2) <$> l) +:+ "}".
Definition identity_text (pool : ProxyPool) (d : SubscriptionSource) (h : HTTPSource) (url authorization : string) (headers : Header)
    (clientID : string) : string :=
  marshal_fields
    [("Variant", quoted "HTTP"); ("URL", quoted url); ("Authorization", quoted authorization); ("Headers", marshal_header headers);
     ("ClientIdentity", quoted clientID); ("Format", quoted (ss_format d)); ("AllowEmpty", marshal_bool (AllowEmpty d));
     ("AllowPartial", marshal_bool (ss_allowPartial d)); ("AllowInsecureTLS", marshal_bool (pp_allowInsecureTLS pool));
     ("AllowHTTP", marshal_bool (hs_allowHTTP h)); ("AllowPrivateNetworks", marshal_bool (hs_allowPrivateNetworks h));
     ("AllowLoopback", marshal_bool (hs_allowLoopback h)); ("SourceInsecureTLS", marshal_bool (hs_allowInsecureTLS h))].

Definition source_id (pool : ProxyPool) (d : SubscriptionSource) : string := "k8s-" +:+ pp_uid pool +:+ "-" +:+ ss_id d.

Definition ResolveHTTP (pool : ProxyPool) (d : SubscriptionSource) : M HTTPConfig :=
  match ss_http d with
  | None => fail "source_variant"
  | Some h =>
      _ ← guard_pool (match SecretRef d with Some _ => true | None => false end || empty (pp_uid pool)) "source_variant";
      id ← lift (match NewSourceID (source_id pool d) with Ok id => Ok id | Err _ => Err (PoolError "source_id") end);
      '(url, revisions) ← read_key (pp_namespace pool) ∅ (URLSecretRef h);
      '(authorization, revisions) ← read_optional (pp_namespace pool) revisions (AuthorizationSecretRef h);
      _ ← guard_pool (8192 <? slen authorization) "source_authorization";
      _ ← guard_pool (negb (all_chars (λ c, negb (ctl_byte c)) authorization)) "source_authorization";
      clientID ← lift (clientIdentity (pp_uid pool) (ss_id d) (ClientIdentity h));
      _ ← guard_pool (identity_conflict pool (ss_id d) clientID) "client_identity_conflict";
      headers ← lift (profileHeaders clientID (Profile h));
      let headers := if 0 <? slen authorization then Header_Set headers "Authorization" authorization else headers in
      _ ← guard_pool (8 <? Z.of_nat (length (SecretHeaders h))) "source_header_limit";
      '(headers, revisions) ← secret_headers (pp_namespace pool) (SecretHeaders h) headers revisions;
      s ← lift (match NewHTTP id url {| hlimits := no_limits; Timeout := 0; MaxRedirects := 0; AllowHTTP := hs_allowHTTP h;
                                         AllowPrivateNetworks := hs_allowPrivateNetworks h; AllowLoopback := hs_allowLoopback h;
                                         AllowInsecureTLS := hs_allowInsecureTLS h; Headers_ := headers |} with
                | Ok s => Ok s
                | Err _ => Err (PoolError "source_http")
                end);
      mret {| Key := pp_uid pool +:+ "/" +:+ ss_id d; Fingerprint := sha256 (identity_text pool d h url authorization headers clientID);
              SourceID := id; hc_http := s; hc_revisions := revisions |}
  end.
End resolve.

(** ** Building the inventory *)

Record SourceState := { st_id : string; st_state : string; st_reason : string; LastSuccess : option Z }.
Record PoolResult := {
  pool_inventory : list Record_; NextCacheExpiry : Z; pr_accepted : Z; pr_rejected : Z; pr_unsupported : Z; SourceRevisions : Revisions;
  pr_sources : list SourceState; CacheVersions : gmap string CacheVersion;
}.
#[local] Abbreviation Set_ := (gmap string Snapshot).
(** The locals [set] and [result] of the loop. *)
Record building := { b_set : Set_; b_result : PoolResult }.

Definition note_source (s : SourceState) (b : building) : building :=
  let r := b_result b in
  {| b_set := b_set b;
     b_result := {| pool_inventory := pool_inventory r; NextCacheExpiry := NextCacheExpiry r; pr_accepted := pr_accepted r;
                    pr_rejected := pr_rejected r; pr_unsupported := pr_unsupported r; SourceRevisions := SourceRevisions r;
                    pr_sources := pr_sources r ++ [s]; CacheVersions := CacheVersions r |} |}.
Definition with_revisions (revisions : Revisions) (b : building) : building :=
  let r := b_result b in
  {| b_set := b_set b;
     b_result := {| pool_inventory := pool_inventory r; NextCacheExpiry := NextCacheExpiry r; pr_accepted := pr_accepted r;
                    pr_rejected := pr_rejected r; pr_unsupported := pr_unsupported r; SourceRevisions := revisions;
                    pr_sources := pr_sources r; CacheVersions := CacheVersions r |} |}.
Definition with_version (key : string) (v : CacheVersion) (b : building) : building :=
  let r := b_result b in
  {| b_set := b_set b;
     b_result := {| pool_inventory := pool_inventory r; NextCacheExpiry := NextCacheExpiry r; pr_accepted := pr_accepted r;
                    pr_rejected := pr_rejected r; pr_unsupported := pr_unsupported r; SourceRevisions := SourceRevisions r;
                    pr_sources := pr_sources r; CacheVersions := <[key := v]> (CacheVersions r) |} |}.
Definition with_expiry (expires : Z) (b : building) : building :=
  let r := b_result b in
  {| b_set := b_set b;
     b_result := {| pool_inventory := pool_inventory r;
                    NextCacheExpiry := if is_zero (NextCacheExpiry r) || (expires <? NextCacheExpiry r) then expires else NextCacheExpiry r;
                    pr_accepted := pr_accepted r; pr_rejected := pr_rejected r; pr_unsupported := pr_unsupported r;
                    SourceRevisions := SourceRevisions r; pr_sources := pr_sources r; CacheVersions := CacheVersions r |} |}.
(** The set after [Replace], and the counts of the report. *)
Definition with_snapshot (set : Set_) (report : Report) (b : building) : building :=
  let r := b_result b in
  {| b_set := set;
     b_result := {| pool_inventory := pool_inventory r; NextCacheExpiry := NextCacheExpiry r;
                    pr_accepted := pr_accepted r + Accepted report; pr_rejected := pr_rejected r + Rejected report;
                    pr_unsupported := pr_unsupported r + Unsupported report; SourceRevisions := SourceRevisions r;
                    pr_sources := pr_sources r; CacheVersions := CacheVersions r |} |}.
Definition unavailable (id reason : string) : SourceState :=
  {| st_id := id; st_state := "Unavailable"; st_reason := reason; LastSuccess := None |}.
Definition absent_version : CacheVersion := {| cv_digest := ""; cv_validatedAt := 0; cv_present := false; cv_sourceID := ""; cv_expiresAt := 0 |}.

Section build.
Context {digest : Digest} {order : MapOrder} {urls : UrlParser} (api : nat → cluster).

Definition pool_protocols : list Protocol :=
  [ProtocolVLESS; ProtocolTrojan; ProtocolVMess; ProtocolShadowsocks; ProtocolSOCKS5; ProtocolHTTPProxy; ProtocolHysteria2].
Definition pool_admission (d : SubscriptionSource) (pool : ProxyPool) : Admission :=
  {| AllowPartial := ss_allowPartial d; AllowedProtocol := pool_protocols; DenyInsecureTLS := negb (pp_allowInsecureTLS pool) |}.
Definition parseSource (p : Payload) (d : SubscriptionSource) (pool : ProxyPool) : option (Report * Snapshot) :=
  f ← sourceFormat (ss_format d);
  match Parse p {| format := f; limits := DefaultLimits; admission := pool_admission d pool |} with
  | (report, Ok s) => Some (report, s)
  | (_, Err _) => None
  end.

Definition http_references (h : HTTPSource) : list SecretKeyReference :=
  URLSecretRef h :: match AuthorizationSecretRef h with Some ref => [ref] | None => [] end ++ (sh_secretRef <$> SecretHeaders h).
Fixpoint record_references (namespace : string) (refs : list SecretKeyReference) (revisions : Revisions) : M Revisions :=
  match refs with
  | [] => mret revisions
  | ref :: rest =>
      let name := {| nn_namespace := namespace; nn_name := ref_name ref |} in
      a ← read_Secret api name;
      match a with
      | Found s => record_references namespace rest (<[name := secret_revision s]> revisions)
      | NotFound => record_references namespace rest (<[name := no_revision]> revisions)
      | ReadFailed => fail "source_unavailable"
      end
  end.
Definition recordHTTPReferences (pool : ProxyPool) (h : HTTPSource) (revisions : Revisions) : M Revisions :=
  record_references (pp_namespace pool) (http_references h) revisions.

(** A body is parsed as an inline source; [over] says whether the context is
    over when it is acquired. *)
Definition admit_body (over : bool) (source body : string) (d : SubscriptionSource) (pool : ProxyPool) (set : Set_)
    : option (Report * Snapshot * Set_) :=
  inline ← match NewInline source body DefaultLimits with Ok i => Some i | Err _ => None end;
  payload ← match Inline_Acquire inline over with Ok p => Some p | Err _ => None end;
  '(report, snapshot) ← parseSource payload d pool;
  set ← match Set_Replace set snapshot (AllowEmpty d) with Ok s => Some s | Err _ => None end;
  Some (report, snapshot, set).

(** The entry found for an HTTP source. *)
Definition use_entry (over : bool) (now : Z) (pool : ProxyPool) (d : SubscriptionSource) (h : HTTPSource) (c : HTTPConfig) (e : SourceCache)
    (b : building) : building :=
  let version expires := {| cv_digest := sha256 (sc_body e); cv_validatedAt := validatedAt e; cv_present := true;
                            cv_sourceID := source_String (SourceID c); cv_expiresAt := expires |} in
  let b := with_version (Key c) (version 0) b in
  let maxStale := maxSourceStale (MaxStale h) in
  if now <? validatedAt e - 5 * minute then note_source (unavailable (ss_id d) "CacheClockInvalid") b
  else if negb (now <? validatedAt e + maxStale) then
    note_source {| st_id := ss_id d; st_state := "Expired"; st_reason := "CacheExpired"; LastSuccess := Some (validatedAt e) |} b
  else match admit_body over (SourceID c) (sc_body e) d pool (b_set b) with
       | None => note_source (unavailable (ss_id d) "CacheCorrupt") b
       | Some (report, snapshot, set) =>
           let b := with_snapshot set report b in
           let expires := validatedAt e + maxStale in
           let b := if (0 <? Z.of_nat (length (records snapshot))) then with_version (Key c) (version expires) b else b in
           let b := with_expiry expires b in
           let '(state, reason) := if (3 * refreshDuration (RefreshInterval pool)) `quot` 2 <? time_sub now (validatedAt e)
                                   then ("Cached", "CacheFallback") else ("Fresh", "RecentlyValidated") in
           note_source {| st_id := ss_id d; st_state := state; st_reason := reason; LastSuccess := Some (validatedAt e) |} b
       end.
(** An error of [ResolveHTTP] makes the source unavailable; a panic is not
    recovered. *)
Definition try_resolve (pool : ProxyPool) (d : SubscriptionSource) : M (option HTTPConfig) := λ w,
  match ResolveHTTP api pool d w with
  | (Ok c, w') => (Ok (Some c), w')
  | (Err (PoolError _), w') => (Ok None, w')
  | (Err IndexOutOfRange, w') => (Err IndexOutOfRange, w')
  end.
Definition build_http (cache : bool) (over : bool) (now : Z) (pool : ProxyPool) (d : SubscriptionSource) (h : HTTPSource) (b : building)
    : M building :=
  _ ← guard_pool (match SecretRef d with Some _ => true | None => false end || negb cache) "source_variant";
  revisions ← recordHTTPReferences pool h (SourceRevisions (b_result b));
  let b := with_revisions revisions b in
  config ← try_resolve pool d;
  match config with
  | None => mret (note_source (unavailable (ss_id d) "Configuration") b)
  | Some c =>
      let b := with_version (Key c) absent_version (with_revisions (hc_revisions c ∪ SourceRevisions (b_result b)) b) in
      found ← query_store (LoadSourceCache (Key c) (Fingerprint c));
      match found with
      | Err _ => mret (note_source (unavailable (ss_id d) "CacheCorrupt") b)
      | Ok None => mret (note_source (unavailable (ss_id d) "CacheMissing") b)
      | Ok (Some e) => mret (use_entry over now pool d h c e b)
      end
  end.

Definition build_secret (over : bool) (pool : ProxyPool) (d : SubscriptionSource) (b : building) : M building :=
  match SecretRef d with
  | None => fail "source_variant"
  | Some ref =>
      let name := {| nn_namespace := pp_namespace pool; nn_name := ref_name ref |} in
      a ← read_Secret api name;
      match a with
      | Found s =>
          let b := with_revisions (<[name := secret_revision s]> (SourceRevisions (b_result b))) b in
          match secret_data s !! ref_key ref with
          | None => fail "source_key_missing"
          | Some data =>
              source ← lift (match NewSourceID (source_id pool d) with Ok id => Ok id | Err _ => Err (PoolError "source_id") end);
              inline ← lift (match NewInline source data DefaultLimits with Ok i => Ok i | Err _ => Err (PoolError "source_limits") end);
              payload ← lift (match Inline_Acquire inline over with Ok p => Ok p | Err _ => Err (PoolError "source_acquire") end);
              '(report, snapshot) ← lift (match parseSource payload d pool with Some x => Ok x | None => Err (PoolError "source_rejected") end);
              set ← lift (match Set_Replace (b_set b) snapshot (AllowEmpty d) with Ok s => Ok s | Err _ => Err (PoolError "snapshot_rejected") end);
              mret (note_source {| st_id := ss_id d; st_state := "Fresh"; st_reason := "SecretAdmitted"; LastSuccess := None |}
                      (with_snapshot set report b))
          end
      | _ => fail "source_unavailable"
      end
  end.

Fixpoint build_loop (cache : bool) (over : string → bool) (now : Z) (pool : ProxyPool) (l : list SubscriptionSource) (b : building) : M building :=
  match l with
  | [] => mret b
  | d :: rest =>
      b ← match ss_http d with
          | Some h => build_http cache (over (ss_id d)) now pool d h b
          | None => build_secret (over (ss_id d)) pool d b
          end;
      build_loop cache over now pool rest b
  end.
Definition no_building : building :=
  {| b_set := ∅;
     b_result := {| pool_inventory := []; NextCacheExpiry := 0; pr_accepted := 0; pr_rejected := 0; pr_unsupported := 0;
                    SourceRevisions := ∅; pr_sources := []; CacheVersions := ∅ |} |}.
(** [cache] is whether a store is given; an inventory conflict leaves the
    inventory empty. *)
Definition BuildPoolWithCache (cache : bool) (over : string → bool) (now : Z) (pool : ProxyPool) : M PoolResult :=
  _ ← guard_pool (empty (pp_namespace pool) || empty (pp_uid pool) || bool_decide (length (Sources pool) = O)) "request";
  b ← build_loop cache over now pool (Sources pool) no_building;
  let r := b_result b in
  mret {| pool_inventory := match Set_Inventory (b_set b) with Ok l => l | Err _ => [] end;
          NextCacheExpiry := NextCacheExpiry r; pr_accepted := pr_accepted r; pr_rejected := pr_rejected r;
          pr_unsupported := pr_unsupported r; SourceRevisions := SourceRevisions r; pr_sources := pr_sources r;
          CacheVersions := CacheVersions r |}.
Definition BuildPool (over : string → bool) (now : Z) (pool : ProxyPool) : M PoolResult := BuildPoolWithCache false over now pool.
End build.

(** ** Inverting effects *)

Lemma M_bind_Ok {A B} (m : M A) (k : A → M B) w b w' : (m ≫= k) w = (Ok b, w') → ∃ a w1, m w = (Ok a, w1) ∧ k a w1 = (Ok b, w').
Proof. unfold mbind, M_bind. destruct (m w) as [[a|e] w1] eqn:E; [eauto|done]. Qed.
Lemma guard_pool_Ok b c w u w' : guard_pool b c w = (Ok u, w') → b = false ∧ w' = w.
Proof. destruct b; [done|]. by intros [= _ <-]. Qed.
Lemma lift_Ok {A} (r : result pool_error A) w a w' : lift r w = (Ok a, w') → r = Ok a ∧ w' = w.
Proof. by intros [= -> <-]. Qed.
Lemma mret_Ok {A} (a b : A) w w' : mret (M := M) a w = (Ok b, w') → b = a ∧ w' = w.
Proof. by intros [= -> <-]. Qed.
Lemma fail_Ok {A} c w (a : A) w' : fail c w = (Ok a, w') → False.
Proof. done. Qed.
Ltac m_inv :=
  repeat match goal with
  | H : mbind (M:=M) _ _ _ = (Ok _, _) |- _ => apply M_bind_Ok in H as (?&?&?&?)
  | H : guard_pool _ _ _ = (Ok _, _) |- _ => apply guard_pool_Ok in H as [? ->]
  | H : lift _ _ = (Ok _, _) |- _ => apply lift_Ok in H as [? ->]
  | H : mret _ _ = (Ok _, _) |- _ => apply mret_Ok in H as [H ->]; simplify_eq
  | H : fail _ _ = (Ok _, _) |- _ => destruct (fail_Ok _ _ _ _ H)
  | H : (match ?x with (_, _) => _ end) _ = (Ok _, _) |- _ => destruct x
  end.

(** ** What is resolved *)

Section resolved.
Context {digest : Digest} {order : MapOrder} {urls : UrlParser} (api : nat → cluster).

(** Every revision comes from a read of the interval. *)
Definition read_between (m n : nat) (name : NamespacedName) (r : ResourceRevision) : Prop :=
  ∃ i s, (m ≤ i < n)%nat ∧ get_Secret (api i) name = Found s ∧ r = secret_revision s.
Definition revisions_read (m n : nat) (revisions : Revisions) : Prop := map_Forall (read_between m n) revisions.
Lemma revisions_read_mono m m' n n' r : (m' ≤ m)%nat → (n ≤ n')%nat → revisions_read m n r → revisions_read m' n' r.
Proof. intros Hm Hn Hr name x Hx. destruct (Hr name x Hx) as (i & s & ? & ?). exists i, s. split; [lia|done]. Qed.

(** A value of a Secret, as a read of the interval saw it. *)
Definition value_read (m n : nat) (ns : string) (ref : SecretKeyReference) (v : string) : Prop :=
  ∃ i s, (m ≤ i < n)%nat ∧ get_Secret (api i) {| nn_namespace := ns; nn_name := ref_name ref |} = Found s ∧ secret_data s !! ref_key ref = Some v.
Lemma value_read_mono m m' n n' ns ref v : (m' ≤ m)%nat → (n ≤ n')%nat → value_read m n ns ref v → value_read m' n' ns ref v.
Proof. intros Hm Hn (i & s & ? & ?). exists i, s. split; [lia|done]. Qed.

Lemma read_key_Ok ns revs ref w v revs' w' : read_key api ns revs ref w = (Ok (v, revs'), w') →
  store w' = store w ∧ reads w' = S (reads w) ∧ ∃ s, get_Secret (api (reads w)) {| nn_namespace := ns; nn_name := ref_name ref |} = Found s ∧
    secret_data s !! ref_key ref = Some v ∧ revs' = <[{| nn_namespace := ns; nn_name := ref_name ref |} := secret_revision s]> revs.
Proof.
  unfold read_key, read_Secret. intros H. m_inv. simplify_eq. destruct (get_Secret _ _) as [s| |] eqn:E; m_inv.
  destruct (secret_data s !! ref_key ref) eqn:Ev; m_inv. simplify_eq. simpl. eauto 10.
Qed.
Lemma read_key_revisions m ns revs ref w v revs' w' : (m ≤ reads w)%nat → revisions_read m (reads w) revs →
  read_key api ns revs ref w = (Ok (v, revs'), w') →
  store w' = store w ∧ (reads w ≤ reads w')%nat ∧ revisions_read m (reads w') revs' ∧ value_read m (reads w') ns ref v.
Proof.
  intros Hm Hr (Hs & -> & s & Hg & Hv & ->)%read_key_Ok. split_and!; [done|lia| |exists (reads w), s; split; [lia|done]].
  apply map_Forall_insert_2; [exists (reads w), s; split; [lia|done]|]. eapply revisions_read_mono; [| |done]; lia.
Qed.

(** A header of a resolved source. *)
Definition source_header (k : string) (vs : list string) : Prop :=
  sendable 8192 k vs ∧ (reservedTransportOrProfileHeader k = true → k ∈ profile_names).
Lemma profile_source_header k vs : profile_header k vs → source_header k vs.
Proof. intros [Hs Hk]. split; [eapply sendable_mono; [|done]; lia|]. intros Hr. destruct Hk as [?|[? _]]; [done|congruence]. Qed.
Lemma reserved_lower k k' : to_lower k = to_lower k' → reservedTransportOrProfileHeader k = reservedTransportOrProfileHeader k'.
Proof. unfold reservedTransportOrProfileHeader. by intros ->. Qed.

(** What the loop over the secret headers adds: every one of them with the
    value read for it, and nothing else; nothing is replaced. *)
Record added (m n : nat) (ns : string) (l : list HTTPSecretHeader) (h h' : Header) : Prop := {
  add_keep : ∀ k vs, h !! k = Some vs → h' !! k = Some vs;
  add_each : ∀ x, x ∈ l → ∃ v, value_read m n ns (sh_secretRef x) v ∧ h' !! CanonicalHeaderKey (sh_name x) = Some [v];
  add_only : ∀ k vs, h' !! k = Some vs → h !! k = Some vs ∨ ∃ x, x ∈ l ∧ k = CanonicalHeaderKey (sh_name x);
}.
Lemma added_cons m n n1 ns x v l h h' : (n1 ≤ n)%nat → value_read m n1 ns (sh_secretRef x) v → h !! CanonicalHeaderKey (sh_name x) = None →
  added m n ns l (header_set h (CanonicalHeaderKey (sh_name x)) v) h' → added m n ns (x :: l) h h'.
Proof.
  intros Hn Hv Hx [Hkeep Heach Honly]. set (k := CanonicalHeaderKey (sh_name x)) in *.
  assert (∀ j, header_set h k v !! j = if bool_decide (j = k) then Some [v] else h !! j) as Hset.
  { intros j. unfold header_set. rewrite gomap_lookup_insert. repeat case_bool_decide; congruence. }
  split.
  - intros j vs Hj. apply Hkeep. rewrite Hset, bool_decide_false; [done|congruence].
  - intros y [-> |Hy]%elem_of_cons; [|by apply Heach]. exists v. split; [by eapply value_read_mono|].
    apply Hkeep. by rewrite Hset, bool_decide_true.
  - intros j vs Hj. destruct (Honly j vs Hj) as [Hj'|(y & Hy & ->)]; [|right; exists y; split; [by right|done]].
    rewrite Hset in Hj'. case_bool_decide as E; [right; exists x; split; [by left|done]|by left].
Qed.
Lemma secret_headers_ok m ns l h revs w h' revs' w' : (m ≤ reads w)%nat → revisions_read m (reads w) revs →
  all_headers source_header h → secret_headers api ns l h revs w = (Ok (h', revs'), w') →
  store w' = store w ∧ (reads w ≤ reads w')%nat ∧ revisions_read m (reads w') revs' ∧ all_headers source_header h' ∧
  added m (reads w') ns l h h'.
Proof.
  revert h revs w. induction l as [|x l IH]; intros h revs w Hm Hr Hh H; cbn [secret_headers] in H; m_inv.
  { simplify_eq. split_and!; auto. split; [done|by intros x ?%elem_of_nil|auto]. }
  match goal with E : read_key _ _ _ _ _ = _ |- _ => apply (read_key_revisions m) in E as (Hs & Hle & Hr' & Hv); [|done|done] end.
  rename select (match _ with Some _ => true | None => false end = false) into Hnew.
  bool_to_prop. destruct (canonical_spec (sh_name x) ltac:(done)) as (Hn & Hc & Hlow).
  match goal with E : secret_headers _ _ _ _ _ _ = _ |- _ => unfold Header_Set in E; rewrite Hc in E; apply IH in E as (? & ? & ? & ? & ?); [|lia|done|] end.
  { split_and!; [congruence|lia|done|done|]. eapply added_cons; [| |by destruct (h !! _)|done]; [|done]. done. }
  apply all_headers_set; [done|]. split; [split; eauto|].
  rewrite (reserved_lower _ _ Hlow). congruence.
Qed.

(** What is asked of the server: the URL and the credentials are values of
    the Secrets the source names, as read; the client identity is this
    source's and of no other source of the pool; the headers are those of the
    client profile for that identity, the Authorization value and the secret
    headers, and no others; where the profile derives a device identifier, it
    is the one of that identity.  The fingerprint is the digest of all of it. *)
Record requested (pool : ProxyPool) (d : SubscriptionSource) (h : HTTPSource) (m n : nat) (c : HTTPConfig)
    (url authorization clientID : string) (profile : Header) : Prop := {
  rq_url : value_read m n (pp_namespace pool) (URLSecretRef h) url ∧ url_Parse url = Some (location (hc_http c));
  rq_authorization : match AuthorizationSecretRef h with
                     | Some ref => value_read m n (pp_namespace pool) ref authorization
                     | None => authorization = ""
                     end;
  rq_identity : clientIdentity (pp_uid pool) (ss_id d) (ClientIdentity h) = Ok clientID;
  rq_own : ∀ other oh, other ∈ Sources pool → ss_http other = Some oh → ss_id other ≠ ss_id d →
    ∃ otherID, clientIdentity (pp_uid pool) (ss_id other) (ClientIdentity oh) = Ok otherID ∧ otherID ≠ clientID;
  rq_profile : profileHeaders clientID (Profile h) = Ok profile ∧
    ∀ k vs, profile !! k = Some vs → k ≠ "Authorization" → Headers_ (hoptions (hc_http c)) !! k = Some vs;
  rq_hwid : derives_hwid (Profile h) →
    ∃ v, stableHWID clientID = Ok v ∧ Headers_ (hoptions (hc_http c)) !! "X-Hwid" = Some [v];
  rq_sent : authorization ≠ "" → Headers_ (hoptions (hc_http c)) !! "Authorization" = Some [authorization];
  rq_secrets : ∀ x, x ∈ SecretHeaders h → ∃ v, value_read m n (pp_namespace pool) (sh_secretRef x) v ∧
    Headers_ (hoptions (hc_http c)) !! CanonicalHeaderKey (sh_name x) = Some [v];
  rq_only : ∀ k vs, Headers_ (hoptions (hc_http c)) !! k = Some vs →
    profile !! k = Some vs ∨ k = "Authorization" ∧ authorization ≠ "" ∨ ∃ x, x ∈ SecretHeaders h ∧ k = CanonicalHeaderKey (sh_name x);
  rq_fingerprint : Fingerprint c =
    sha256 (identity_text pool d h url authorization (Headers_ (hoptions (hc_http c))) clientID);
}.
(** What [ResolveHTTP] returns. *)
Record resolved (pool : ProxyPool) (d : SubscriptionSource) (m n : nat) (c : HTTPConfig) : Prop := {
  res_http : ∃ h, ss_http d = Some h ∧ SecretRef d = None ∧
    AllowPrivateNetworks (hoptions (hc_http c)) = hs_allowPrivateNetworks h ∧ AllowLoopback (hoptions (hc_http c)) = hs_allowLoopback h ∧
    AllowInsecureTLS (hoptions (hc_http c)) = hs_allowInsecureTLS h ∧
    (Scheme (location (hc_http c)) = "https" ∨ hs_allowHTTP h = true ∧ Scheme (location (hc_http c)) = "http") ∧
    ∃ url authorization clientID profile, requested pool d h m n c url authorization clientID profile;
  res_key : Key c = pp_uid pool +:+ "/" +:+ ss_id d;
  res_source : SourceID c = source_id pool d ∧ hsource (hc_http c) = source_id pool d ∧ safe_id (source_id pool d);
  res_headers : all_headers source_header (Headers_ (hoptions (hc_http c)));
  res_limits : hlimits (hoptions (hc_http c)) = DefaultLimits;
  res_revisions : revisions_read m n (hc_revisions c);
}.
Lemma res_fingerprint pool d m n c : resolved pool d m n c → slen (Fingerprint c) = 32.
Proof. intros []. destruct res_http0 as (h & _ & _ & _ & _ & _ & _ & url & auth & id & prof & []). by rewrite rq_fingerprint0, sha256_length. Qed.
Lemma requested_mono pool d h m m' n n' c u a i pr : (m' ≤ m)%nat → (n ≤ n')%nat →
  requested pool d h m n c u a i pr → requested pool d h m' n' c u a i pr.
Proof.
  intros Hm Hn []. split; try done.
  - destruct rq_url0. split; [by eapply value_read_mono|done].
  - destruct (AuthorizationSecretRef h); [by eapply value_read_mono|done].
  - intros x (v & ? & ?)%rq_secrets0. exists v. split; [by eapply value_read_mono|done].
Qed.
Lemma NewHTTP_options source raw o s : NewHTTP source raw o = Ok s → AllowPrivateNetworks (hoptions s) = AllowPrivateNetworks o ∧
  AllowLoopback (hoptions s) = AllowLoopback o ∧ AllowInsecureTLS (hoptions s) = AllowInsecureTLS o ∧ Headers_ (hoptions s) = Headers_ o ∧
  normalized (hlimits o) = Some (hlimits (hoptions s)) ∧ url_Parse raw = Some (location s).
Proof. unfold NewHTTP. intros Hs. parse_inv. done. Qed.
Lemma identity_conflict_false pool id clientID : identity_conflict pool id clientID = false →
  ∀ other oh, other ∈ Sources pool → ss_http other = Some oh → ss_id other ≠ id →
    ∃ otherID, clientIdentity (pp_uid pool) (ss_id other) (ClientIdentity oh) = Ok otherID ∧ otherID ≠ clientID.
Proof.
  unfold identity_conflict. intros Hc other oh Hin Hh Hid. apply not_true_iff_false in Hc.
  destruct (clientIdentity (pp_uid pool) (ss_id other) (ClientIdentity oh)) as [oid|e] eqn:E.
  - exists oid. split; [done|]. intros ->. apply Hc. apply existsb_exists. exists other. split; [by apply list_elem_of_In|].
    rewrite Hh, E, bool_decide_false, bool_decide_true by done. done.
  - destruct Hc. apply existsb_exists. exists other. split; [by apply list_elem_of_In|]. by rewrite Hh, E, bool_decide_false.
Qed.
Lemma authorization_revisions m ns revs o w v revs' w' : (m ≤ reads w)%nat → revisions_read m (reads w) revs →
  read_optional api ns revs o w = (Ok (v, revs'), w') →
  store w' = store w ∧ (reads w ≤ reads w')%nat ∧ revisions_read m (reads w') revs' ∧
  match o with Some ref => value_read m (reads w') ns ref v | None => v = "" end.
Proof. intros Hm Hr. destruct o; [by apply read_key_revisions|]. unfold read_optional. intros H. m_inv. auto. Qed.
Lemma authorization_header v : (8192 <? slen v) = false → negb (all_chars (λ c, negb (ctl_byte c)) v) = false →
  source_header (CanonicalHeaderKey "Authorization") [v].
Proof.
  intros Hl Hc. bool_to_prop. split; [split; [by vm_compute..|]|by vm_compute]. exists v. split; [done|].
  unfold validHeaderValue. by replace (8192 <? slen v) with false by lia.
Qed.
Lemma authorization_added base v : let h := if 0 <? slen v then Header_Set base "Authorization" v else base in
  (∀ k vs, base !! k = Some vs → k ≠ "Authorization" → h !! k = Some vs) ∧ (v ≠ "" → h !! "Authorization" = Some [v]) ∧
  (∀ k vs, h !! k = Some vs → base !! k = Some vs ∨ k = "Authorization" ∧ v ≠ "").
Proof.
  cbv zeta. unfold Header_Set, header_set. assert (CanonicalHeaderKey "Authorization" = "Authorization") as -> by reflexivity.
  destruct (0 <? slen v) eqn:E; bool_to_prop.
  - assert (v ≠ "") as Hv by (by intros ->). setoid_rewrite gomap_lookup_insert. split_and!.
    + intros k vs Hk Hne. by rewrite bool_decide_false by congruence.
    + intros _. by rewrite bool_decide_true.
    + intros k vs. case_bool_decide; [auto|by left].
  - assert (v = "") as -> by (destruct v; [done|simpl in *; lia]). split_and!; auto. done.
Qed.
Lemma ResolveHTTP_Ok pool d w c w' : ResolveHTTP api pool d w = (Ok c, w') →
  store w' = store w ∧ (reads w ≤ reads w')%nat ∧ resolved pool d (reads w) (reads w') c.
Proof.
  unfold ResolveHTTP. destruct (ss_http d) as [h|] eqn:Eh; [|done]. intros H. m_inv.
  rename select (secret_headers _ _ _ _ _ _ = _) into Hsec. rename select (profileHeaders _ _ = _) into Hprof.
  rename select (identity_conflict _ _ _ = _) into Hconf. rename select (clientIdentity _ _ _ = _) into Hid.
  rename select (read_optional _ _ _ _ _ = _) into Hauth.
  rename select (read_key _ _ ∅ _ _ = _) into Hurl. rename select (negb (all_chars _ _) = _) into Hctl.
  destruct (NewSourceID _) as [id|] eqn:Es; [|done]. destruct (NewHTTP _ _ _) as [src|] eqn:En; [|done]. simplify_eq.
  apply (read_key_revisions (reads w)) in Hurl as (S1 & L1 & R1 & V1); [|done|apply map_Forall_empty].
  apply authorization_revisions with (m := reads w) in Hauth as (S2 & L2 & R2 & V2); [|lia|done].
  apply (secret_headers_ok (reads w)) in Hsec as (S3 & L3 & R3 & Hh & [A1 A2 A3]); [|lia|done|].
  2: { apply profileHeaders_ok in Hprof. eapply all_headers_mono in Hprof; [|apply profile_source_header].
       destruct (0 <? _); [|done]. apply all_headers_set; [done|]. by apply authorization_header. }
  split_and!; [congruence|lia|]. pose proof (NewHTTP_ok _ _ _ _ En) as (Hsrc & _ & _ & _ & Hscheme).
  apply NewHTTP_options in En as (O1 & O2 & O3 & O4 & O5 & O6). unfold NewSourceID in Es. ok_inv.
  cbn [AllowPrivateNetworks AllowLoopback AllowInsecureTLS Headers_ AllowHTTP] in O1, O2, O3, O4, Hscheme.
  match type of Hprof with _ = Ok ?b => match goal with _ : (8192 <? slen ?v) = false |- _ => destruct (authorization_added b v) as (B1 & B2 & B3) end end.
  split; simpl; [|done| |by rewrite O4| |done].
  - exists h. bool_to_prop. destruct (SecretRef d); [done|]. split_and!; try done. do 4 eexists. split; cbn [hc_http Fingerprint]; rewrite ?O4.
    + split; [eapply value_read_mono, V1; lia|exact O6].
    + destruct (AuthorizationSecretRef h); [eapply value_read_mono, V2; lia|exact V2].
    + exact Hid.
    + by apply identity_conflict_false.
    + split; [exact Hprof|]. intros k vs Hk Hne. by apply A1, B1.
    + intros Hd. destruct (profileHeaders_hwid _ _ _ Hprof Hd) as (v & Hv & Hx). exists v. split; [done|]. by apply A1, B1.
    + intros Hne. by apply A1, B2.
    + intros y Hy. by apply A2.
    + intros k vs Hk. destruct (A3 k vs Hk) as [Hk'|Hk']; [|by auto]. destruct (B3 k vs Hk') as [?|?]; auto.
    + done.
  - rename select (validateProvenanceID _ _ = _) into Hv. apply validateProvenanceID_safe in Hv. auto.
  - symmetry. by apply (inj Some).
Qed.

(** Effects that only read: the store is kept and nothing panics. *)
Definition reading {A} (m : M A) : Prop := ∀ w, store (m w).2 = store w ∧ (m w).1 ≠ Err IndexOutOfRange ∧ (reads w ≤ reads (m w).2)%nat.
Lemma reading_bind {A B} (m : M A) (k : A → M B) : reading m → (∀ a w w', m w = (Ok a, w') → reading (k a)) → reading (m ≫= k).
Proof.
  intros Hm Hk w. unfold mbind, M_bind. destruct (Hm w) as (Hs & Hp & Hr). destruct (m w) as [[a|e] w1] eqn:E; simpl in *; [|split_and!; [congruence..|lia]].
  destruct (Hk a w w1 E w1) as (? & ? & ?). split_and!; [congruence..|lia].
Qed.
Lemma reading_lift {A} (r : result pool_error A) : r ≠ Err IndexOutOfRange → reading (lift r).
Proof. by intros Hr w. Qed.
Lemma reading_ret {A} (a : A) : reading (mret a).
Proof. done. Qed.
Lemma reading_fail {A} c : reading (fail (A:=A) c).
Proof. done. Qed.
Lemma reading_guard b c : reading (guard_pool b c).
Proof. by destruct b. Qed.
Lemma reading_secret name : reading (read_Secret api name).
Proof. intros w. simpl. split_and!; [done..|lia]. Qed.
Lemma reading_key ns revs ref : reading (read_key api ns revs ref).
Proof.
  apply reading_bind; [apply reading_secret|]. intros [s| |] _ _ _; [|apply reading_fail..].
  destruct (secret_data s !! _); [apply reading_ret|apply reading_fail].
Qed.
Lemma reading_optional ns revs o : reading (read_optional api ns revs o).
Proof. destruct o; [apply reading_key|apply reading_ret]. Qed.
Lemma reading_secret_headers ns l h revs : reading (secret_headers api ns l h revs).
Proof.
  revert h revs. induction l as [|x l IH]; intros h revs; cbn [secret_headers]; [apply reading_ret|].
  do 2 (apply reading_bind; [apply reading_guard|intros _ _ _ _]). apply reading_bind; [apply reading_key|intros [v r] _ _ _].
  apply reading_bind; [apply reading_guard|intros _ _ _ _]. apply IH.
Qed.
Lemma lift_mapped {A E} (r : result E A) c : reading (lift (match r with Ok a => Ok a | Err _ => Err (PoolError c) end)).
Proof. apply reading_lift. by destruct r. Qed.
Lemma clientIdentity_no_panic u i e : clientIdentity u i e ≠ Err IndexOutOfRange.
Proof. unfold clientIdentity. repeat case_match; done. Qed.
Lemma reading_resolve pool d : reading (ResolveHTTP api pool d).
Proof.
  unfold ResolveHTTP. destruct (ss_http d) as [h|]; [|apply reading_fail].
  apply reading_bind; [apply reading_guard|intros _ _ _ _]. apply reading_bind; [apply lift_mapped|intros id _ _ _].
  apply reading_bind; [apply reading_key|intros [url r0] _ _ _]. apply reading_bind; [apply reading_optional|intros [auth r1] _ _ _].
  do 2 (apply reading_bind; [apply reading_guard|intros _ _ _ _]).
  apply reading_bind; [apply reading_lift, clientIdentity_no_panic|intros clientID w w' [Hid _]%lift_Ok].
  apply reading_bind; [apply reading_guard|intros _ _ _ _].
  apply reading_bind; [by eapply reading_lift, profileHeaders_no_panic|intros headers _ _ _].
  apply reading_bind; [apply reading_guard|intros _ _ _ _]. apply reading_bind; [apply reading_secret_headers|intros [hs r2] _ _ _].
  apply reading_bind; [apply lift_mapped|intros s _ _ _]. apply reading_ret.
Qed.

End resolved.

(** ** What a pool is built from *)

Lemma Forall2_impl_elem {A B} (P Q : A → B → Prop) l k : Forall2 P l k → (∀ x y, x ∈ l → P x y → Q x y) → Forall2 Q l k.
Proof.
  induction 1 as [|x y l k Hxy _ IH]; intros H; constructor; [apply H; [by left|done]|]. apply IH. intros. apply H; [by right|done].
Qed.

(** Every record of an inventory stands for records of the set. *)
Lemma inventory_record `{Digest} set out r : wf_set set → Set_Inventory set = Ok out → r ∈ out →
  (∃ k s y, set !! k = Some s ∧ y ∈ records s ∧ configuration y = configuration r) ∧
  ∀ p, p ∈ provenance r → ∃ k s y q, set !! k = Some s ∧ y ∈ records s ∧ q ∈ provenance y ∧ source q = source p.
Proof.
  intros Hset Hout Hr. pose proof (Deduplicate_spec _ (wf_set_records _ Hset)) as Hd. unfold Set_Inventory in Hout. rewrite Hout in Hd.
  destruct (inv_sound _ _ Hd r Hr) as (Hw & Hne & Hc & Hp).
  assert (∀ y, y ∈ class (record_identity r) (Set_records set) → (∃ k s, set !! k = Some s ∧ y ∈ records s) ∧ configuration y = configuration r) as Hy.
  { intros y [Hin Hid]%class_elem. split; [by apply Set_records_elem|by apply Hc]. }
  split.
  - destruct (class (record_identity r) _) as [|y l] eqn:E; [done|]. destruct (Hy y) as ((k & s & ? & ?) & ?); [by left|]. by exists k, s, y.
  - intros p Hpr. rewrite Hp in Hpr.
    assert (Forall wf_provenance (class (record_identity r) (Set_records set) ≫= provenance)) as Hwf by (apply class_provenance_wf, wf_set_records; done).
    destruct (proj1 (merge_keys _ (provenance_key p) Hwf) ltac:(eauto)) as (q & Hq & Hk).
    assert (wf_provenance q) as Hwq by (by eapply Forall_forall in Hwf).
    rewrite list_elem_of_bind in Hq. destruct Hq as (y & Hqy & Hin). destruct (Hy y Hin) as ((k & s & ? & ?) & _).
    apply provenance_key_inj in Hk as [? _]; [by exists k, s, y, q|done|].
    pose proof (mergeProvenance_wf _ Hwf) as Hm. by eapply Forall_forall in Hm.
Qed.

Section built.
Context {digest : Digest} {order : MapOrder} {urls : UrlParser} (api : nat → cluster) (pool : ProxyPool) (now : Z).
Context (cache : gmap string SourceCache).

(** The snapshot is what parsing the body under the source's options gives,
    and it may be used: it is not empty unless the source allows that. *)
Record admits (src : SubscriptionSource) (body : string) (s : Snapshot) : Prop := {
  ad_format : ∃ f report, sourceFormat (ss_format src) = Some f ∧
    Parse {| psource := source_id pool src; pdata := body; pcontentType := "" |}
      {| format := f; limits := DefaultLimits; admission := pool_admission src pool |} = (report, Ok s);
  ad_nonempty : records s = [] → AllowEmpty src = true;
  ad_id : safe_id (source_id pool src);
  ad_bound : slen body ≤ MaxSourceBytes DefaultLimits;
}.
(** The entry is current for a source: it was validated at most five minutes
    in the future and less than the allowed staleness ago. *)
Definition current (h : HTTPSource) (e : SourceCache) : Prop :=
  validatedAt e - 5 * minute ≤ now < validatedAt e + maxSourceStale (MaxStale h).

(** Where the body of a source came from, and what is recorded of it, when
    the reads [m] to [n] were made. *)
Definition from_secret (m n : nat) (src : SubscriptionSource) (body : string) : Prop :=
  ss_http src = None ∧ ∃ ref i s, SecretRef src = Some ref ∧ (m ≤ i < n)%nat ∧
    get_Secret (api i) {| nn_namespace := pp_namespace pool; nn_name := ref_name ref |} = Found s ∧ secret_data s !! ref_key ref = Some body.
Definition from_cache (m n : nat) (r : PoolResult) (src : SubscriptionSource) (body : string) (s : Snapshot) : Prop :=
  ∃ h c e, ss_http src = Some h ∧ resolved api pool src m n c ∧ cache !! Key c = Some e ∧ sc_fingerprint e = Fingerprint c ∧
    sc_body e = body ∧ current h e ∧ 0 < NextCacheExpiry r ≤ validatedAt e + maxSourceStale (MaxStale h) ∧
    CacheVersions r !! Key c =
      Some {| cv_digest := sha256 body; cv_validatedAt := validatedAt e; cv_present := true; cv_sourceID := source_id pool src;
              cv_expiresAt := if bool_decide (records s = []) then 0 else validatedAt e + maxSourceStale (MaxStale h) |}.
Definition contributes (m n : nat) (r : PoolResult) (src : SubscriptionSource) (s : Snapshot) : Prop :=
  ∃ body, admits src body s ∧ (from_secret m n src body ∨ from_cache m n r src body s).

Definition live_state (st : SourceState) : Prop := st_state st = "Fresh" ∨ st_state st = "Cached".
(** The invariant of the loop after the sources [done]. *)
Record building_ok (m n : nat) (done : list SubscriptionSource) (b : building) : Prop := {
  bo_states : Forall2 (λ src st, st_id st = ss_id src ∧
    (live_state st ∧ (∃ s, b_set b !! source_id pool src = Some s ∧ contributes m n (b_result b) src s) ∨
     ¬ live_state st ∧ b_set b !! source_id pool src = None)) done (pr_sources (b_result b));
  bo_set : ∀ k, is_Some (b_set b !! k) → ∃ src, src ∈ done ∧ k = source_id pool src;
  bo_expiry : NextCacheExpiry (b_result b) = 0 ∨ 0 < NextCacheExpiry (b_result b) ∧ now < NextCacheExpiry (b_result b);
}.

Lemma source_id_inj src src' : source_id pool src = source_id pool src' → ss_id src = ss_id src'.
Proof. unfold source_id. intros H. by do 3 apply (inj (String.append _)) in H. Qed.
Definition key_of (src : SubscriptionSource) : string := pp_uid pool +:+ "/" +:+ ss_id src.
Lemma key_of_inj src src' : key_of src = key_of src' → ss_id src = ss_id src'.
Proof. unfold key_of. intros H. by do 2 apply (inj (String.append _)) in H. Qed.

(** The next expiry is kept, or set to an earlier instant after [now]. *)
Definition expiry_step (old new : Z) : Prop := new = old ∨ 0 < new ∧ now < new ∧ (old = 0 ∨ new ≤ old).
Lemma resolved_mono src m m' n n' c : (m' ≤ m)%nat → (n ≤ n')%nat → resolved api pool src m n c → resolved api pool src m' n' c.
Proof.
  intros Hm Hn []. split; try done; [|by eapply revisions_read_mono].
  destruct res_http0 as (h & ? & ? & ? & ? & ? & ? & url & auth & id & prof & Hr). exists h. split_and!; try done.
  exists url, auth, id, prof. by eapply requested_mono.
Qed.
Lemma contributes_mono m n n' r r' src s : (n ≤ n')%nat → expiry_step (NextCacheExpiry r) (NextCacheExpiry r') →
  CacheVersions r' !! key_of src = CacheVersions r !! key_of src → contributes m n r src s → contributes m n' r' src s.
Proof.
  intros Hn He Hv (body & Ha & Hb). exists body. split; [done|]. destruct Hb as [[Hh (ref & i & x & ? & ? & ? & ?)] | (h & c & e & Hb)]; [left|right].
  - split; [done|]. exists ref, i, x. split_and!; try done; lia.
  - destruct Hb as (? & Hres & ? & ? & ? & ? & ? & Hver). exists h, c, e. split_and!; try done; [by eapply resolved_mono| | |].
    1,2: destruct He as [-> |(? & ? & [?|?])]; lia.
    rewrite (res_key _ _ _ _ _ _ Hres) in *. fold (key_of src) in *. congruence.
Qed.

(** One more source: it contributes a snapshot, or leaves the set alone. *)
Lemma building_step m n n' done d b b' st : building_ok m n done b → (n ≤ n')%nat → ss_id d ∉ ss_id <$> done →
  pr_sources (b_result b') = pr_sources (b_result b) ++ [st] → st_id st = ss_id d →
  (live_state st ∧ (∃ s, b_set b' = <[source_id pool d := s]> (b_set b) ∧ contributes m n' (b_result b') d s) ∨
   ¬ live_state st ∧ b_set b' = b_set b) →
  (∀ k, k ≠ key_of d → CacheVersions (b_result b') !! k = CacheVersions (b_result b) !! k) →
  expiry_step (NextCacheExpiry (b_result b)) (NextCacheExpiry (b_result b')) →
  building_ok m n' (done ++ [d]) b'.
Proof.
  intros [Hst Hset Hexp] Hn Hd Hsrc Hid Hcase Hver Hstep.
  assert (∀ src, src ∈ done → source_id pool src ≠ source_id pool d ∧ key_of src ≠ key_of d) as Hne.
  { intros src Hin. assert (ss_id src ≠ ss_id d) by (intros E; apply Hd; rewrite <-E; by apply list_elem_of_fmap_2).
    split; [by intros ?%source_id_inj|by intros ?%key_of_inj]. }
  assert (∀ src, src ∈ done → b_set b' !! source_id pool src = b_set b !! source_id pool src) as Hkeep.
  { intros src Hin. destruct Hcase as [[_ (s & -> & _)] |[_ ->]]; [|done]. apply lookup_insert_ne. intros E. by destruct (Hne src Hin). }
  split.
  - rewrite Hsrc. apply Forall2_app.
    + eapply Forall2_impl_elem; [exact Hst|]. intros src x Hin (? & Hx). split; [done|]. rewrite Hkeep by done.
      destruct Hx as [[? (s & ? & ?)] |?]; [left|by right]. split; [done|]. exists s. split; [done|].
      eapply contributes_mono; try done. apply Hver. by apply Hne.
    + constructor; [|constructor]. split; [done|]. destruct Hcase as [[? (s & -> & ?)] |[? ->]]; [left|right].
      * split; [done|]. exists s. by rewrite lookup_insert_eq.
      * split; [done|]. destruct (b_set b !! source_id pool d) eqn:E; [|done]. destruct (Hset (source_id pool d)) as (src & Hin & Heq); [by rewrite E|].
        destruct (Hne src Hin). congruence.
  - intros k Hk. destruct (decide (k = source_id pool d)) as [-> |Hkd]; [exists d; split; [|done]; apply elem_of_app; right; by left|].
    assert (is_Some (b_set b !! k)) as (src & Hin & ->)%Hset; [|exists src; split; [|done]; apply elem_of_app; by left].
    destruct Hcase as [[_ (s & Hs & _)] |[_ Hs]]; rewrite Hs in Hk; [by rewrite lookup_insert_ne in Hk|done].
  - destruct Hstep as [-> |(? & ? & _)]; auto.
Qed.

Lemma accept_body over src body i p report s set set' : safe_id (source_id pool src) →
  NewInline (source_id pool src) body DefaultLimits = Ok i → Inline_Acquire i over = Ok p → parseSource p src pool = Some (report, s) →
  Set_Replace set s (AllowEmpty src) = Ok set' → admits src body s ∧ set' = <[source_id pool src := s]> set.
Proof.
  intros Hid Hi Hp Hs Hset. unfold NewInline in Hi. destruct (bool_decide _); [done|].
  assert (normalized DefaultLimits = Some DefaultLimits) as Hn by reflexivity. rewrite Hn in Hi. injection Hi as <-.
  unfold Inline_Acquire in Hp. cbn [isource idata ilimits] in Hp. destruct over; [done|]. destruct (_ <? _) eqn:El; [done|]. bool_to_prop. injection Hp as <-.
  unfold parseSource in Hs. destruct (sourceFormat (ss_format src)) as [f|] eqn:Ef; [|done]. cbn [mbind option_bind] in Hs.
  destruct (Parse _ _) as [rep [s'|]] eqn:Ep; [|done]. simplify_eq.
  pose proof (parse_admits _ _ _ _ (Hid : safe_id (psource {| psource := source_id pool src; pdata := body; pcontentType := EmptyString |})) Ep) as (Hsrc & _). unfold Set_Replace in Hset. rewrite Hsrc in Hset. cbn [psource] in Hset.
  destruct (bool_decide _); [done|]. destruct (_ && _) eqn:Ea; [done|]. injection Hset as <-. split.
  - split; [eauto| |done|done]. intros Hnil. rewrite bool_decide_true in Ea by done. by destruct (AllowEmpty src).
  - unfold source_String. rewrite bool_decide_false; [done|]. by destruct Hid.
Qed.
Lemma admit_body_Some over src body set report s set' : safe_id (source_id pool src) →
  admit_body over (source_id pool src) body src pool set = Some (report, s, set') → admits src body s ∧ set' = <[source_id pool src := s]> set.
Proof.
  intros Hid. unfold admit_body. destruct (NewInline _ _ _) as [i|] eqn:Ei; [|done]. simpl.
  destruct (Inline_Acquire i over) as [p|] eqn:Ea; [|done]. simpl. destruct (parseSource p src pool) as [[rep s']|] eqn:Ep; [|done]. simpl.
  destruct (Set_Replace _ _ _) as [set0|] eqn:Er; [|done]. simpl. intros [= <- <- <-]. by eapply accept_body.
Qed.

Lemma stale_positive h : 0 < maxSourceStale (MaxStale h).
Proof. unfold maxSourceStale, hour, minute, second. repeat case_match; bool_to_prop; unfold minute, second in *; lia. Qed.

(** Recording revisions, or the version of another source's entry. *)
Lemma building_frame m n done d b b' : building_ok m n done b → ss_id d ∉ ss_id <$> done → b_set b' = b_set b →
  pr_sources (b_result b') = pr_sources (b_result b) → NextCacheExpiry (b_result b') = NextCacheExpiry (b_result b) →
  (∀ k, k ≠ key_of d → CacheVersions (b_result b') !! k = CacheVersions (b_result b) !! k) → building_ok m n done b'.
Proof.
  intros [Hst Hset Hexp] Hd Es Ep En Hv. split; rewrite ?Es, ?En; [|done|done]. rewrite Ep.
  eapply Forall2_impl_elem; [done|]. intros src st Hin (? & Hx). split; [done|].
  destruct Hx as [(? & s & ? & ?) |?]; [left|by right]. split; [done|]. exists s. split; [done|].
  eapply contributes_mono; [done|by left| |done]. apply Hv. intros E%key_of_inj. apply Hd. rewrite <-E. by apply list_elem_of_fmap_2.
Qed.
(** A source that contributes nothing. *)
Lemma building_skip m n n' done d b b' st : building_ok m n done b → (n ≤ n')%nat → ss_id d ∉ ss_id <$> done →
  pr_sources (b_result b') = pr_sources (b_result b) ++ [st] → st_id st = ss_id d → ¬ live_state st → b_set b' = b_set b →
  (∀ k, k ≠ key_of d → CacheVersions (b_result b') !! k = CacheVersions (b_result b) !! k) →
  NextCacheExpiry (b_result b') = NextCacheExpiry (b_result b) → building_ok m n' (done ++ [d]) b'.
Proof. intros. eapply building_step; eauto. by left. Qed.
Lemma next_expiry old expires : 0 < expires → now < expires → old = 0 ∨ 0 < old ∧ now < old →
  let new := if is_zero old || (expires <? old) then expires else old in expiry_step old new ∧ 0 < new ≤ expires.
Proof. unfold expiry_step, is_zero. intros ? ? ?. destruct (_ || _) eqn:E; [apply orb_true_iff in E as [E|E]|]; bool_to_prop; lia. Qed.

(** The entry of a source is used exactly as far as it is current. *)
Lemma use_entry_ok over m n n' done d h c e b : building_ok m n done b → (n ≤ n')%nat → ss_id d ∉ ss_id <$> done →
  ss_http d = Some h → resolved api pool d m n' c → cache !! Key c = Some e → sc_fingerprint e = Fingerprint c → 0 < validatedAt e →
  building_ok m n' (done ++ [d]) (use_entry over now pool d h c e b).
Proof.
  intros Hb Hn Hd Hh Hres He Hfp Hval. pose proof (res_key _ _ _ _ _ _ Hres) as Hkey. destruct (res_source _ _ _ _ _ _ Hres) as (Hsid & _ & Hsafe).
  fold (key_of d) in Hkey. pose proof (stale_positive h) as Hpos.
  assert (source_String (SourceID c) = source_id pool d) as Hss.
  { rewrite Hsid. unfold source_String. rewrite bool_decide_false; [done|]. by destruct Hsafe. }
  assert (∀ v (x : gmap string CacheVersion) k, k ≠ key_of d → <[Key c := v]> x !! k = x !! k) as Hother.
  { intros v x k Hk. apply lookup_insert_ne. congruence. }
  unfold use_entry. cbv zeta. rewrite Hss. destruct (now <? _) eqn:E1; bool_to_prop.
  { eapply building_skip; try done; [by intros [|]|intros k Hk; by apply Hother]. }
  destruct (now <? validatedAt e + _) eqn:E2; bool_to_prop; cbn [negb].
  2: { eapply building_skip; try done; [by intros [|]|intros k Hk; by apply Hother]. }
  destruct (admit_body _ _ _ _ _ _) as [[[report s] set]|] eqn:Ea.
  2: { eapply building_skip; try done; [by intros [|]|intros k Hk; by apply Hother]. }
  rewrite Hsid in Ea. apply admit_body_Some in Ea as [Had ->]; [|done].
  destruct (next_expiry (NextCacheExpiry (b_result b)) (validatedAt e + maxSourceStale (MaxStale h))) as [Hstep Hnew]; [lia|done|apply Hb|].
  destruct (if _ <? time_sub _ _ then _ else _) as [state reason] eqn:Est.
  assert (state = "Fresh" ∨ state = "Cached") as Hlive by (destruct (_ <? time_sub _ _); simplify_eq; auto).
  assert ((0 <? Z.of_nat (length (records s))) = negb (bool_decide (records s = []))) as -> by (by destruct (records s)).
  destruct (bool_decide (records s = [])) eqn:El; cbn [negb];
    (eapply building_step; try done; [left; split; [done|]; exists s; split; [done|]|intros k Hk; simpl; by rewrite !Hother]).
  all: exists (sc_body e); split; [done|]; right; exists h, c, e; split_and!; try done; try apply Hnew; try lia.
  all: simpl; by rewrite El, lookup_insert_eq.
Qed.

(** The state of the store during the build. *)
Definition holds_cache (w : world) : Prop := cache_ok (tables (store w)) ∧ cached (tables (store w)) = cache.

Lemma reading_references ns refs revs : reading (record_references api ns refs revs).
Proof.
  revert revs. induction refs as [|ref refs IH]; intros revs; cbn [record_references]; [apply reading_ret|].
  apply reading_bind; [apply reading_secret|]. intros [s| |] _ _ _; [apply IH..|apply reading_fail].
Qed.
Lemma reading_Ok {A} (m : M A) w a w' : reading m → m w = (Ok a, w') → store w' = store w ∧ (reads w ≤ reads w')%nat.
Proof. intros Hm E. destruct (Hm w) as (Hs & _ & Hr). rewrite E in *. done. Qed.
Lemma cached_positive w k e : holds_cache w → cache !! k = Some e → 0 < validatedAt e.
Proof.
  intros [Hok <-]. rewrite cached_lookup. destruct (caches _ !! k) as [row|] eqn:Ek; [|done]. intros [= <-].
  destruct (map_Forall_lookup_1 _ _ _ _ Hok Ek). simpl. unfold from_unix_nano, unix_epoch, second. lia.
Qed.
Lemma matching_Some fp o e : matching fp o = Some e → o = Some e ∧ sc_fingerprint e = fp.
Proof. unfold matching. destruct o as [x|]; [|done]. simpl. case_bool_decide; [|done]. intros [= <-]. auto. Qed.

Lemma try_resolve_Ok d w o w' : try_resolve api pool d w = (Ok o, w') →
  store w' = store w ∧ (reads w ≤ reads w')%nat ∧ ∀ c, o = Some c → resolved api pool d (reads w) (reads w') c.
Proof.
  unfold try_resolve. pose proof (reading_resolve api pool d w) as (Hs & _ & Hr).
  destruct (ResolveHTTP api pool d w) as [[cf|[]] w2] eqn:Er; intros [= <- <-]; simpl in *; split_and!; try done.
  intros c [= ->]. by apply ResolveHTTP_Ok in Er as (_ & _ & ?).
Qed.
Lemma query_load k fp w r w' : holds_cache w → query_store (LoadSourceCache k fp) w = (Ok r, w') →
  holds_cache w' ∧ reads w' = reads w ∧ ∀ e, r = Ok (Some e) → cache !! k = Some e ∧ sc_fingerprint e = fp.
Proof.
  intros [Hok Hc]. unfold query_store. destruct (LoadSourceCache k fp (store w)) as [found s] eqn:El. intros [= -> <-].
  apply load_cases in El as [Ht Hr]; [|done]. unfold holds_cache. simpl. rewrite Ht. split_and!; [done..|].
  intros e ->. destruct Hr as [?|Hr]; [done|]. injection Hr as Hr. symmetry in Hr. rewrite Hc in Hr. by apply matching_Some.
Qed.
Lemma build_http_ok c over m done d h b w b' w' : holds_cache w → building_ok m (reads w) done b → (m ≤ reads w)%nat → ss_id d ∉ ss_id <$> done →
  ss_http d = Some h → build_http api c over now pool d h b w = (Ok b', w') →
  holds_cache w' ∧ (reads w ≤ reads w')%nat ∧ building_ok m (reads w') (done ++ [d]) b'.
Proof.
  intros Hw Hb Hm Hd Hh H. unfold build_http, recordHTTPReferences in H. m_inv.
  rename select (record_references _ _ _ _ _ = _) into Hrec. apply reading_Ok in Hrec as [S1 R1]; [|apply reading_references].
  rename select (try_resolve _ _ _ _ = _) into Hres. apply try_resolve_Ok in Hres as (S2 & R2 & Hres).
  rename select (option HTTPConfig) into oc. destruct oc as [cf|].
  2: { m_inv. unfold holds_cache. rewrite S2, S1. split_and!; [apply Hw..|lia|]. eapply building_skip; try done; [lia|by intros [|]]. }
  m_inv. rename select (query_store _ _ = _) into Hq. specialize (Hres cf eq_refl).
  apply query_load in Hq as (Hw' & R3 & Hload); [|unfold holds_cache; rewrite S2, S1; apply Hw].
  pose proof (res_key _ _ _ _ _ _ Hres) as Hkey. fold (key_of d) in Hkey.
  rename select (result Store.Failure (option SourceCache)) into found.
  assert (∀ v (y : gmap string CacheVersion) k, k ≠ key_of d → <[Key cf := v]> y !! k = y !! k) as Hother.
  { intros v y k Hk. apply lookup_insert_ne. congruence. }
  destruct found as [[e|]|f]; m_inv; (split_and!; [done|lia|]).
  2,3: eapply building_skip; try done; [lia|by intros [|]|intros k Hk; by apply Hother].
  destruct (Hload e eq_refl) as [He Hfp]. apply (use_entry_ok over m (reads w)); try done; [|lia| |by eapply cached_positive].
  - eapply building_frame; try done. intros k Hk. by apply Hother.
  - eapply resolved_mono; [| |done]; lia.
Qed.
Lemma build_secret_ok over m done d b w b' w' : holds_cache w → building_ok m (reads w) done b → (m ≤ reads w)%nat → ss_id d ∉ ss_id <$> done →
  ss_http d = None → build_secret api over pool d b w = (Ok b', w') →
  holds_cache w' ∧ (reads w ≤ reads w')%nat ∧ building_ok m (reads w') (done ++ [d]) b'.
Proof.
  intros Hw Hb Hm Hd Hh H. unfold build_secret in H. destruct (SecretRef d) as [ref|] eqn:Eref; [|done]. m_inv.
  rename select (read_Secret _ _ _ = _) into Hrd. unfold read_Secret in Hrd. injection Hrd as Ha <-.
  rename select (answer Secret) into a. destruct a as [s| |]; [|done..].
  destruct (secret_data s !! ref_key ref) as [data|] eqn:Edata; [|done]. m_inv.
  destruct (NewSourceID _) as [id|] eqn:Eid; [|done]. simplify_eq. destruct (NewInline _ _ _) as [i|] eqn:Ei; [|done]. simplify_eq.
  destruct (Inline_Acquire _ over) as [p|] eqn:Ep; [|done]. simplify_eq. destruct (parseSource _ d pool) as [[rep sn]|] eqn:Eps; [|done].
  destruct (Set_Replace _ _ _) as [set|] eqn:Er; [|done]. simplify_eq. simpl.
  unfold NewSourceID in Eid. ok_inv. assert (safe_id (source_id pool d)) as Hsafe by by eapply validateProvenanceID_safe.
  destruct (accept_body over d data _ _ _ _ _ _ Hsafe Ei Ep Eps Er) as [Had ->].
  split_and!; [apply Hw..|lia|]. eapply building_step; try done; [lia| |by left].
  left. split; [by left|]. eexists. split; [done|]. exists data. split; [done|]. left. split; [done|].
  exists ref, (reads w), s. split_and!; try done; lia.
Qed.
Lemma build_loop_ok c over l m done b w b' w' : NoDup (ss_id <$> (done ++ l)) → holds_cache w → building_ok m (reads w) done b → (m ≤ reads w)%nat →
  build_loop api c over now pool l b w = (Ok b', w') →
  holds_cache w' ∧ (reads w ≤ reads w')%nat ∧ building_ok m (reads w') (done ++ l) b'.
Proof.
  revert done b w. induction l as [|d l IH]; intros done b w Hnd Hw Hb Hm H; cbn [build_loop] in H.
  { m_inv. rewrite app_nil_r. auto. }
  apply M_bind_Ok in H as (b1 & w1 & H1 & H).
  assert (ss_id d ∉ ss_id <$> done) as Hd.
  { rewrite fmap_app, NoDup_app in Hnd. destruct Hnd as (_ & Hdis & _). intros Hin. apply (Hdis _ Hin). by left. }
  assert (holds_cache w1 ∧ (reads w ≤ reads w1)%nat ∧ building_ok m (reads w1) (done ++ [d]) b1) as (Hw1 & R1 & Hb1).
  { destruct (ss_http d) as [h|] eqn:Eh; [by eapply build_http_ok|by eapply build_secret_ok]. }
  apply (IH (done ++ [d])) in H as (? & ? & ?); [|by rewrite <-app_assoc|done|done|lia].
  rewrite <-app_assoc in *. split_and!; [done|lia|done].
Qed.

Lemma no_building_ok m n : building_ok m n [] no_building.
Proof. split; [constructor| |by left]. intros k Hk. change (is_Some ((∅ : gmap string Snapshot) !! k)) in Hk. rewrite lookup_empty in Hk. by destruct Hk. Qed.
Lemma contributes_admitted m n r src s : contributes m n r src s →
  snapshot_source s = source_id pool src ∧ Forall (admitted (source_id pool src) (pool_admission src pool)) (records s).
Proof.
  intros (body & [(f & report & _ & Hp) _ Hid _] & _).
  destruct (parse_admits _ _ _ _ (Hid : safe_id (psource {| psource := source_id pool src; pdata := body; pcontentType := EmptyString |})) Hp) as (? & ? & _).
  done.
Qed.
(** Which source a snapshot of the set belongs to. *)
Lemma building_source m n done b k s : building_ok m n done b → b_set b !! k = Some s →
  ∃ src st, k = source_id pool src ∧ (src, st) ∈ zip done (pr_sources (b_result b)) ∧ live_state st ∧ contributes m n (b_result b) src s.
Proof.
  intros [Hst Hset _] Hk. destruct (Hset k) as (src & Hin & ->); [by rewrite Hk|].
  apply list_elem_of_lookup in Hin as [i Hi]. destruct (Forall2_lookup_l _ _ _ _ _ Hst Hi) as (st & Hi' & _ & Hcase).
  exists src, st. split; [done|]. split; [apply list_elem_of_lookup; exists i; by apply lookup_zip_with_Some; eauto 6|].
  destruct Hcase as [(Hl & s' & Hs' & Hc) |[_ Hn]]; [|congruence]. split; [done|]. congruence.
Qed.
Lemma building_wf m n done b : building_ok m n done b → wf_set (b_set b).
Proof.
  intros Hb k s Hk. destruct (building_source _ _ _ _ _ _ Hb Hk) as (src & st & _ & _ & _ & Hc).
  apply contributes_admitted in Hc as [_ Hc]. eapply Forall_impl; [done|]. by intros x [].
Qed.

(** The snapshots [used] by a build that reads from [m] to [n] and answers
    [r]: every source is reported once, in order; a source reported live has
    the snapshot it contributes, another one none, and no other is used. *)
Definition made_from (m n : nat) (r : PoolResult) (used : gmap string Snapshot) : Prop :=
  Forall2 (λ src st, st_id st = ss_id src ∧
    (live_state st ∧ (∃ s, used !! source_id pool src = Some s ∧ contributes m n r src s) ∨
     ¬ live_state st ∧ used !! source_id pool src = None)) (Sources pool) (pr_sources r) ∧
  (∀ k, is_Some (used !! k) → ∃ src, src ∈ Sources pool ∧ k = source_id pool src).
Lemma build_exact c over w r w' : holds_cache w → NoDup (ss_id <$> Sources pool) →
  BuildPoolWithCache api c over now pool w = (Ok r, w') →
  let m := reads w in let n := reads w' in
  holds_cache w' ∧ (NextCacheExpiry r = 0 ∨ now < NextCacheExpiry r) ∧
  ∃ used : gmap string Snapshot,
    made_from m n r used ∧
    (∀ e, e ∈ pool_inventory r →
      (Security.insecureSkipVerify (Configuration.tls (configuration e)) = true → pp_allowInsecureTLS pool = true) ∧
      ∀ p, p ∈ provenance e → ∃ src, src ∈ Sources pool ∧ is_Some (used !! source_id pool src) ∧ source p = source_id pool src) ∧
    (pool_inventory r = [] ∨ merged (Set_records used) (pool_inventory r)) ∧
    (coll_free sha256 (hashed (Set_records used)) → merged (Set_records used) (pool_inventory r)).
Proof.
  intros Hw Hnd H. unfold BuildPoolWithCache in H. apply M_bind_Ok in H as (u & w0 & Hg & H). apply guard_pool_Ok in Hg as [_ ->].
  apply M_bind_Ok in H as (b & w1 & Hl & H). apply mret_Ok in H as [-> <-].
  apply (build_loop_ok c over (Sources pool) (reads w) []) in Hl as (Hw' & _ & Hb); [|done|done|apply no_building_ok|done].
  simpl app in Hb. pose proof (building_wf _ _ _ _ Hb) as Hwf. cbv zeta. set (r := {| pool_inventory := _ |}).
  pose proof (wf_set_records _ Hwf) as Hwr. pose proof (Deduplicate_spec _ Hwr) as Hd.
  split; [done|]. split; [destruct (bo_expiry _ _ _ _ Hb) as [?|[_ ?]]; auto|]. exists (b_set b). split_and!.
  - split; [|apply Hb]. eapply Forall2_impl; [apply Hb|]. intros src st (? & [(? & s & ? & ?) |?]); (split; [done|]); [left|by right].
    split; [done|]. exists s. split; [done|]. by eapply contributes_mono; [|left| |].
  - intros e He. simpl in He. destruct (Set_Inventory (b_set b)) as [out|] eqn:Eo; [|by apply elem_of_nil in He].
    destruct (inventory_record _ _ _ Hwf Eo He) as [(k & s & y & Hk & Hy & Hcy) Hprov]. split.
    + destruct (building_source _ _ _ _ _ _ Hb Hk) as (src & st & _ & _ & _ & [_ Hc]%contributes_admitted).
      rewrite Forall_forall in Hc. destruct (Hc y Hy) as [_ Hf _ _]. rewrite <-Hcy. intros Hi. unfold filtered in Hf. rewrite Hi in Hf.
      destruct (_ && _) eqn:E1 in Hf; [done|]. simpl in Hf. by destruct (pp_allowInsecureTLS pool).
    + intros p Hp. destruct (Hprov p Hp) as (k' & s' & y' & q & Hk' & Hy' & Hq & <-).
      destruct (building_source _ _ _ _ _ _ Hb Hk') as (src & st & -> & Hz & Hls & Hc). exists src.
      split; [by apply elem_of_zip_l in Hz|]. split; [by rewrite Hk'|].
      apply contributes_admitted in Hc as [_ Hc]. rewrite Forall_forall in Hc. destruct (Hc y' Hy') as [_ _ _ Hpr].
      rewrite Forall_forall in Hpr. by destruct (Hpr q Hq).
  - simpl. unfold Set_Inventory. destruct (Deduplicate _) as [out|]; [right; by apply inventory_merged|by left].
  - intros Hfree. simpl. unfold Set_Inventory. destruct (Deduplicate _) as [out|]; [by apply inventory_merged|].
    by apply no_collision_no_conflict in Hd.
Qed.
End built.

(** Enough for a Secret source to be admitted. *)
Lemma build_secret_runs `{Digest, MapOrder, UrlParser} api pool d ref b w s data report sn : SecretRef d = Some ref →
  get_Secret (api (reads w)) {| nn_namespace := pp_namespace pool; nn_name := ref_name ref |} = Found s → secret_data s !! ref_key ref = Some data →
  NewSourceID (source_id pool d) = Ok (source_id pool d) → slen data ≤ MaxSourceBytes DefaultLimits →
  parseSource {| psource := source_id pool d; pdata := data; pcontentType := "" |} d pool = Some (report, sn) →
  snapshot_source sn = source_id pool d → (records sn = [] → AllowEmpty d = true) →
  ∃ b', build_secret api false pool d b w = (Ok b', {| reads := S (reads w); store := store w |}) ∧
    pr_sources (b_result b') = pr_sources (b_result b) ++ [{| st_id := ss_id d; st_state := "Fresh"; st_reason := "SecretAdmitted"; LastSuccess := None |}].
Proof.
  intros Er Eg Ed Eid Hl Ep Es Hne. assert (safe_id (source_id pool d)) as Hsafe.
  { unfold NewSourceID in Eid. ok_inv. by eapply validateProvenanceID_safe. }
  assert (source_String (source_id pool d) = source_id pool d) as Hss by (unfold source_String; rewrite bool_decide_false by apply Hsafe; done).
  assert (source_id pool d ≠ "<invalid-source-id>") as Hinv by (intros E; rewrite E in Hsafe; by destruct Hsafe).
  unfold build_secret, read_Secret, NewInline. rewrite Er. unfold mbind, M_bind. rewrite Eg, Ed, Eid. unfold lift. rewrite Hss, bool_decide_false by done.
  assert (normalized DefaultLimits = Some DefaultLimits) as -> by reflexivity. cbn [Inline_Acquire isource idata ilimits].
  rewrite (proj2 (Z.ltb_ge _ _)) by done. rewrite Ep. unfold Set_Replace. rewrite Es, Hss, bool_decide_false by done.
  destruct (bool_decide (records sn = [])) eqn:En; [rewrite Hne by (by bool_to_prop)|]; cbn [andb negb]; eauto.
Qed.

(** ** Two defects *)

Section defects.
Context {digest : Digest} {order : MapOrder} {urls : UrlParser} (api : nat → cluster).

(** Two sources of one Secret are two reads.  When the Secret changes in
    between, the first source's records come from the old version, but only
    the new version is recorded for the guard. *)
Theorem shared_secret_revision_lost pool over1 over2 d1 d2 ref1 ref2 b b1 b2 w w1 w2 :
  SecretRef d1 = Some ref1 → SecretRef d2 = Some ref2 → ref_name ref1 = ref_name ref2 →
  build_secret api over1 pool d1 b w = (Ok b1, w1) → build_secret api over2 pool d2 b1 w1 = (Ok b2, w2) →
  let name := {| nn_namespace := pp_namespace pool; nn_name := ref_name ref1 |} in
  ∃ s1 s2, get_Secret (api (reads w)) name = Found s1 ∧ get_Secret (api (S (reads w))) name = Found s2 ∧
    SourceRevisions (b_result b1) !! name = Some (secret_revision s1) ∧
    SourceRevisions (b_result b2) !! name = Some (secret_revision s2).
Proof.
  intros E1 E2 En H1 H2. assert (∀ over d ref b w b' w', SecretRef d = Some ref → build_secret api over pool d b w = (Ok b', w') →
    reads w' = S (reads w) ∧ ∃ s, get_Secret (api (reads w)) {| nn_namespace := pp_namespace pool; nn_name := ref_name ref |} = Found s ∧
      SourceRevisions (b_result b') !! {| nn_namespace := pp_namespace pool; nn_name := ref_name ref |} = Some (secret_revision s)) as Hone.
  { clear. intros over d ref b w b' w' Er H. unfold build_secret in H. rewrite Er in H. m_inv. rename select (read_Secret _ _ _ = _) into Hrd.
    unfold read_Secret in Hrd. injection Hrd as Ha <-. rename select (answer Secret) into a. destruct a as [s| |]; [|done..].
    destruct (secret_data s !! _); m_inv. split; [done|]. exists s. split; [done|]. simpl. apply lookup_insert_eq. }
  destruct (Hone _ _ _ _ _ _ _ E1 H1) as (Hr & s1 & Hg1 & Hv1). destruct (Hone _ _ _ _ _ _ _ E2 H2) as (_ & s2 & Hg2 & Hv2).
  rewrite <-En, Hr in Hg2. rewrite <-En in Hv2. by exists s1, s2.
Qed.

(** JSON replaces bytes that are not UTF-8, so Authorization values that
    differ only there have the same fingerprint: rotating one into the other
    keeps the old cache entry. *)
Definition replaced : string := Eval vm_compute in json_text "'Bearer \ufffd'".
Definition invalid_value (b : Z) : string := "Bearer " +:+ String (byte_of b) "".
Lemma set_key_keys {A} k (v v' : A) l : (set_key k v l).*1 = (set_key k v' l).*1.
Proof. induction l as [|[x y] l IH]; simpl; [done|]. destruct (String.eqb k x); [done|]. rewrite !fmap_cons. by rewrite IH. Qed.
Theorem fingerprint_ignores_invalid_utf8 pool d h url headers clientID :
  let fingerprint v := sha256 (identity_text pool d h url v (Header_Set headers "Authorization" v) clientID) in
  invalid_value 128 ≠ invalid_value 129 ∧ fingerprint (invalid_value 128) = fingerprint (invalid_value 129).
Proof.
  cbv zeta. split; [vm_compute; discriminate|]. f_equal.
  assert (quoted (invalid_value 128) = quoted (invalid_value 129)) as Hq by (transitivity replaced; [|symmetry]; vm_compute; reflexivity).
  generalize dependent (invalid_value 128). generalize dependent (invalid_value 129). intros v' v Hq.
  assert (marshal_header (Header_Set headers "Authorization" v) = marshal_header (Header_Set headers "Authorization" v')) as Hh.
  { unfold marshal_header, Header_Set, header_set. set (k := CanonicalHeaderKey _).
    assert ((entries (<[k := [v]]> headers)).*1 = (entries (<[k := [v']]> headers)).*1) as -> by apply set_key_keys.
    do 3 f_equal. apply list_fmap_ext. intros _ x _. rewrite !gomap_lookup_insert. case_bool_decide; [|done].
    unfold default, from_option, Datatypes.id. rewrite !list_fmap_singleton. by rewrite Hq. }
  unfold identity_text. by rewrite Hq, Hh.
Qed.
End defects.

(** ** A concrete pool *)

Module PoolSample.
#[local] Existing Instance toy_digest.
Definition ref (key : string) : SecretKeyReference := {| ref_name := "sources"; ref_key := key |}.
Definition local_source : SubscriptionSource :=
  {| ss_id := "local"; SecretRef := Some (ref "list"); ss_http := None; ss_format := "URIList"; AllowEmpty := false; ss_allowPartial := true |}.
Definition feed : HTTPSource :=
  {| URLSecretRef := ref "url"; ClientIdentity := ""; AuthorizationSecretRef := Some (ref "token"); SecretHeaders := []; Profile := None;
     hs_allowHTTP := false; hs_allowPrivateNetworks := false; hs_allowLoopback := false; hs_allowInsecureTLS := false; MaxStale := None |}.
Definition feed_source : SubscriptionSource :=
  {| ss_id := "feed"; SecretRef := None; ss_http := Some feed; ss_format := "URIList"; AllowEmpty := true; ss_allowPartial := true |}.
Definition pool : ProxyPool :=
  {| pp_namespace := "ns"; pp_name := "p"; pp_uid := "u"; pp_generation := 1; Sources := [local_source; feed_source];
     Probe := {| TargetSecretRef := ref "target"; ExpectedStatus := 0; pb_timeout := None; pb_allowHTTP := false;
                 AllowPrivateTargets := false; AllowPrivateEndpoints := false |};
     pp_selection := {| se_strategy := ""; se_topN := 0 |}; Profiles := []; RefreshInterval := None; pp_allowInsecureTLS := false;
     pp_status := {| pp_observedGeneration := 0; AcceptedEndpoints := 0; RejectedRecords := 0; UnsupportedRecords := 0;
                     LastInventoryChangeTime := None; pp_sources := []; pp_profiles := []; pp_conditions := [] |} |}.
Definition sources : Secret :=
  {| secret_uid := "s"; secret_resourceVersion := "1";
     secret_data := <["list" := "trojan://pw@h.example:443#n"]> (<["url" := "https://feed.example/list"]> (<["token" := "Bearer t"]> ∅)) |}.
Definition api (_ : nat) : cluster := {| get_Secret _ := Found sources; get_Pool _ := Found pool |}.
Definition start : world := {| reads := 0; store := CacheSample.start [] |}.
Definition is_ok {A} (r : result pool_error A) : bool := match r with Ok _ => true | Err _ => false end.
Lemma resolves : is_ok (ResolveHTTP api pool feed_source start).1 = true.
Proof. reflexivity. Qed.

Definition payload : Payload := {| psource := "k8s-u-local"; pdata := "trojan://pw@h.example:443#n"; pcontentType := "" |}.
Definition options : ParseOptions := {| format := FormatURIList; limits := DefaultLimits; admission := pool_admission local_source pool |}.
Lemma payload_safe : safe_id (psource payload).
Proof. split; [done|reflexivity]. Qed.
Lemma local_parses : ∃ report s, parseSource payload local_source pool = Some (report, s) ∧ records s ≠ [] ∧ snapshot_source s = "k8s-u-local".
Proof.
  destruct (parse_one payload options DefaultLimits FormatURIList (line_inputs (pdata payload)) payload_safe) as (report & s & Hp & Hne).
  1, 2, 5: reflexivity.
  { lazy. discriminate. }
  { lazy. reflexivity. }
  exists report, s. split; [|split; [done|by apply (parse_admits _ _ _ _ payload_safe Hp)]]. unfold parseSource. change (sourceFormat _) with (Some FormatURIList). cbn [mbind option_bind].
  fold options. by rewrite Hp.
Qed.
Definition after_local : world := {| reads := 1; store := CacheSample.start [] |}.
Lemma builds_local : ∃ b, build_secret api false pool local_source no_building start = (Ok b, after_local) ∧
  st_state <$> pr_sources (b_result b) = ["Fresh"].
Proof.
  destruct local_parses as (report & s & Hp & Hne & Hs).
  assert (source_id pool local_source = psource payload) as E by reflexivity.
  destruct (build_secret_runs api pool local_source (ref "list") no_building start sources (pdata payload) report s) as (b & Hb & Hst).
  1-3: reflexivity.
  - rewrite E. reflexivity.
  - lazy. discriminate.
  - rewrite E. exact Hp.
  - rewrite E. exact Hs.
  - intros Hn. contradiction (Hne Hn).
  - exists b. split; [exact Hb|]. rewrite Hst. reflexivity.
Qed.
Definition sources_after (r : result pool_error building) : option (list SourceState) :=
  match r with Ok b => Some (pr_sources (b_result b)) | Err _ => None end.
Lemma feed_missing b : sources_after (build_http api true false (unix_epoch + hour) pool feed_source feed b after_local).1 =
  Some (pr_sources (b_result b) ++ [unavailable "feed" "CacheMissing"]).
Proof. reflexivity. Qed.
Lemma builds_feed b : ∃ b' w', build_http api true false (unix_epoch + hour) pool feed_source feed b after_local = (Ok b', w') ∧
  pr_sources (b_result b') = pr_sources (b_result b) ++ [unavailable "feed" "CacheMissing"].
Proof.
  pose proof (feed_missing b) as H. destruct (build_http _ _ _ _ _ _ _ _ _) as [[b'|e] w']; [|discriminate H]. injection H as H. eauto.
Qed.
Lemma builds : ∃ r w', BuildPoolWithCache api true (λ _, false) (unix_epoch + hour) pool start = (Ok r, w') ∧
  st_state <$> pr_sources r = ["Fresh"; "Unavailable"].
Proof.
  destruct builds_local as (b & Hb & Hst). destruct (builds_feed b) as (b' & w' & Hf & Hst').
  unfold BuildPoolWithCache, mbind, M_bind. change (guard_pool _ _ start) with (@Ok pool_error _ (), start). cbn iota. 
  change (Sources pool) with [local_source; feed_source]. cbn [build_loop ss_http local_source feed_source ss_id]. unfold mbind, M_bind. rewrite Hb, Hf.
  eexists _, _. split; [reflexivity|]. simpl. rewrite Hst', fmap_app, Hst. reflexivity.
Qed.
(** Every snapshot of this Secret source has one record. *)
Lemma local_one m n r s : contributes api pool (unix_epoch + hour) ∅ m n r local_source s → ∃ y, records s = [y].
Proof.
  intros (body & [(f & report & Hf & Hp) Hne Hid _] & Hfrom). destruct Hfrom as [(_ & rf & i & sec & Hr & _ & Hg & Hb)|(h & c & e & Hh & _)]; [|done].
  injection Hr as <-. injection Hg as <-. assert (body = pdata payload) as -> by (cbv in Hb; by injection Hb as <-). injection Hf as <-.
  destruct (parse_admits _ _ _ _ (Hid : safe_id (psource payload)) Hp) as (_ & _ & _ & _ & Hlen & _).
  assert (Accepted report = 1) as E.
  { change report with (report, Ok s : result Failure Snapshot).1. rewrite <-Hp. lazy. reflexivity. }
  rewrite E in Hlen. destruct (records s) as [|y [|]]; [|by exists y|simpl in Hlen; lia]. specialize (Hne eq_refl). discriminate Hne.
Qed.
End PoolSample.
