(* ===== verification/Refresh.v ===== *)
(** * Refreshing an HTTP source (internal/operator/http_refresh.go)

    A refresh resolves the source, asks the server conditionally when a
    usable entry is cached, reads the resource and its Secrets again, and
    only then replaces or revalidates the entry.  It composes [Pool],
    [HttpSource] and [SourceCache]; the network is a parameter, and like the
    API server it may behave differently at every instant: [net n] is the
    network while the next API read is the n-th, so that what was downloaded
    is placed between the reads before and after it. *)
From S2P Require Import Prelude Order Bytes Encoding Provenance Inventory Store SourceCache SnapshotGuard.
From S2P Require Import Endpoint Configuration Identity Text Json Url SourceUri SourceJson Parse Authorize HttpSource HttpProfile Pool.
From Stdlib Require String.
Open Scope Z_scope.

(** What happens on the network: the server, the clock and the context at
    each attempt, and the waits between attempts.  Attempt 0 is the
    unconditional request after a 304 that nothing is cached for. *)
Record network := {
  answers : nat → Header → URL → exchange; parse_time : string → option Z; clocks : nat → Z; contexts : nat → context_err;
  contexts_after : nat → context_err; jitters : nat → Z; interruptions : nat → option context_err;
}.
Definition attempt (net : network) (s : HTTP) (etag lastModified : string) (n : nat) : result Failure FetchResult :=
  (Fetch s (answers net n) (parse_time net) (clocks net n) (contexts net n) etag lastModified).2.
Definition attempts (net : network) (s : HTTP) (etag lastModified : string) : retry_world :=
  {| fetches n := match attempt net s etag lastModified n with Ok f => Ok f | Err e => Err (FetchFailure e) end;
     after := contexts_after net; delays := jitters net; interrupts := interruptions net |}.

Section refresh.
Context {digest : Digest} {order : MapOrder} {urls : UrlParser} (api : nat → cluster).

Definition usable_entry (now : Z) (d : SubscriptionSource) (e : SourceCache) : bool :=
  match ss_http d with
  | Some h => negb (now <? validatedAt e - 5 * minute) && (now <? validatedAt e + maxSourceStale (MaxStale h))
  | None => false
  end.
(** The entry, when it was found and is usable; a cache error counts as not
    found. *)
Definition usable_of (now : Z) (d : SubscriptionSource) (loaded : result Store.Failure (option SourceCache)) : option SourceCache :=
  match loaded with
  | Ok (Some e) => if usable_entry now d e then Some e else None
  | _ => None
  end.
Definition acquire (net : network) (s : HTTP) (usable : option SourceCache) : M FetchResult :=
  let etag := match usable with Some e => sc_eTag e | None => "" end in
  let modified := match usable with Some e => sc_lastModified e | None => "" end in
  match (RetryFetch (attempts net s etag modified)).2 with
  | Err _ => fail "source_acquire"
  | Ok result =>
      if NotModified result && match usable with None => true | Some _ => false end then
        match attempt net s "" "" 0 with
        | Ok result => if NotModified result then fail "source_not_modified_without_cache" else mret result
        | Err _ => fail "source_not_modified_without_cache"
        end
      else mret result
  end.
(** The resource and its Secrets are read again. *)
Definition still_desired (pool : ProxyPool) (d : SubscriptionSource) (fingerprint : string) : M () :=
  current ← read_Pool api {| nn_namespace := pp_namespace pool; nn_name := pp_name pool |};
  match current with
  | Found cur =>
      _ ← guard_pool (bool_decide (pp_uid cur ≠ pp_uid pool) || negb (pp_generation cur =? pp_generation pool)) "source_obsolete";
      match List.find (λ x, bool_decide (ss_id x = ss_id d)) (Sources cur) with
      | None => fail "source_obsolete"
      | Some x =>
          _ ← guard_pool (match ss_http x with None => true | Some _ => false end) "source_obsolete";
          latest ← try_resolve api cur x;
          match latest with
          | Some c => guard_pool (bool_decide (Fingerprint c ≠ fingerprint)) "source_obsolete"
          | None => fail "source_obsolete"
          end
      end
  | _ => fail "source_obsolete"
  end.
Definition store_body (now : Z) (pool : ProxyPool) (d : SubscriptionSource) (c : HTTPConfig) (usable : option SourceCache) (result : FetchResult)
    : M bool :=
  match parseSource (fpayload result) d pool with
  | None => fail "source_rejected"
  | Some (_, snapshot) =>
      match Set_Replace ∅ snapshot (AllowEmpty d) with
      | Err _ => fail "snapshot_rejected"
      | Ok _ =>
          saved ← query_store (SaveSourceCache
            {| sc_key := Key c; sc_fingerprint := Fingerprint c; sc_body := pdata (fpayload result);
               sc_contentType := pcontentType (fpayload result); sc_eTag := ETag result; sc_lastModified := LastModified result;
               acceptedAt := now; validatedAt := now |});
          match saved with
          | Err _ => fail "cache_write"
          | Ok _ => mret (match usable with None => true | Some e => negb (bool_decide (sc_body e = pdata (fpayload result))) end)
          end
      end
  end.
(** The write that ends a refresh. *)
Definition commit_result (now : Z) (pool : ProxyPool) (d : SubscriptionSource) (c : HTTPConfig) (usable : option SourceCache) (result : FetchResult)
    : M bool :=
  if NotModified result then
    match usable with
    | None => fail "source_not_modified_without_cache"
    | Some _ =>
        validated ← query_store (ValidateSourceCache (Key c) (Fingerprint c) now (ETag result) (LastModified result));
        match validated with Err _ => fail "cache_validate" | Ok _ => mret false end
    end
  else store_body now pool d c usable result.
(** What is done on the network happens after the reads made so far. *)
Definition at_network {A} (net : nat → network) (k : network → M A) : M A := λ w, k (net (reads w)) w.
Definition RefreshHTTP (net : nat → network) (now : Z) (pool : ProxyPool) (d : SubscriptionSource) : M bool :=
  c ← ResolveHTTP api pool d;
  loaded ← query_store (LoadSourceCache (Key c) (Fingerprint c));
  let usable := usable_of now d loaded in
  result ← at_network net (λ net, acquire net (hc_http c) usable);
  _ ← still_desired pool d (Fingerprint c);
  commit_result now pool d c usable result.

(** ** The parts *)

(** The resource was read again after [m] reads, with the same identity and
    generation, and its source resolves to the same fingerprint. *)
Definition reread (pool : ProxyPool) (d : SubscriptionSource) (fingerprint : string) (m n : nat) : Prop :=
  ∃ i cur x c, (m ≤ i < n)%nat ∧ get_Pool (api i) {| nn_namespace := pp_namespace pool; nn_name := pp_name pool |} = Found cur ∧
    pp_uid cur = pp_uid pool ∧ pp_generation cur = pp_generation pool ∧ x ∈ Sources cur ∧ ss_id x = ss_id d ∧
    resolved api cur x (S i) n c ∧ Fingerprint c = fingerprint.

Lemma reading_pool name : reading (read_Pool api name).
Proof. intros w. simpl. split_and!; [done..|lia]. Qed.
Lemma reading_try_resolve pool d : reading (try_resolve api pool d).
Proof.
  intros w. unfold try_resolve. destruct (reading_resolve api pool d w) as (Hs & Hp & Hr).
  destruct (ResolveHTTP api pool d w) as [[c|[]] w']; simpl in *; done.
Qed.
Lemma reading_still_desired pool d fp : reading (still_desired pool d fp).
Proof.
  apply reading_bind; [apply reading_pool|]. intros [cur| |] _ _ _; [|apply reading_fail..].
  apply reading_bind; [apply reading_guard|intros _ _ _ _]. destruct (List.find _ _) as [x|]; [|apply reading_fail].
  apply reading_bind; [apply reading_guard|intros _ _ _ _]. apply reading_bind; [apply reading_try_resolve|].
  intros [c|] _ _ _; [apply reading_guard|apply reading_fail].
Qed.
Lemma still_desired_Ok pool d fp w u w' : still_desired pool d fp w = (Ok u, w') → reread pool d fp (reads w) (reads w').
Proof.
  unfold still_desired. intros H. apply M_bind_Ok in H as (a & w1 & Hp & H). unfold read_Pool in Hp. injection Hp as Ha <-.
  destruct a as [cur| |]; [|done..]. apply M_bind_Ok in H as (u1 & w2 & Hg & H). apply guard_pool_Ok in Hg as [Hg ->].
  destruct (List.find _ _) as [x|] eqn:Ef; [|done]. apply M_bind_Ok in H as (u2 & w3 & Hh & H). apply guard_pool_Ok in Hh as [_ ->].
  apply M_bind_Ok in H as (o & w4 & Hr & H). apply try_resolve_Ok in Hr as (_ & Hle & Hres).
  destruct o as [c|]; [|done]. apply guard_pool_Ok in H as [Hfp ->]. apply List.find_some in Ef as [Hin Hid]. apply list_elem_of_In in Hin.
  bool_to_prop. simpl in Hle. exists (reads w), cur, x, c. split_and!; try done; try lia; [by apply dec_stable|by apply (Hres c)|by apply dec_stable].
Qed.

Lemma RetryFetch_Ok rw f : (RetryFetch rw).2 = Ok f → ∃ n, (1 ≤ n ≤ 3)%nat ∧ fetches rw n = Ok f.
Proof.
  pose proof (retry_loop_spec rw 2 1 []) as H. unfold RetryFetch. destruct (retry_loop _ _ _ _) as [[k ws] r]. simpl. intros ->.
  destruct H as (Hk & _ & new & _ & _ & [(Hr & _)|(c & ? & _)]); [|done]. exists k. split; [lia|done].
Qed.
(** The result was fetched with the validators of the usable entry, or, when
    there is none, without any; only in the first case it may be that nothing
    was modified. *)
Definition downloaded (net : network) (s : HTTP) (usable : option SourceCache) (f : FetchResult) : Prop :=
  (NotModified f = true → usable ≠ None) ∧
  ∃ n, attempt net s (match usable with Some e => sc_eTag e | None => "" end) (match usable with Some e => sc_lastModified e | None => "" end) n = Ok f.
Lemma acquire_cases net s usable w r w' : acquire net s usable w = (r, w') → w' = w ∧ r ≠ Err IndexOutOfRange ∧
  ∀ f, r = Ok f → downloaded net s usable f.
Proof.
  unfold acquire, downloaded. destruct (RetryFetch _).2 as [f|e] eqn:Er; [|by intros [= <- <-]].
  apply RetryFetch_Ok in Er as (n & _ & Hn). unfold attempts in Hn. cbn [fetches] in Hn. destruct (attempt _ _ _ _ n) as [f'|] eqn:Ea; [|done].
  injection Hn as ->. destruct (NotModified f) eqn:Em; simpl; [destruct usable as [e|]|].
  - intros [= <- <-]. split_and!; [done|done|]. intros ? [= <-]. split; eauto.
  - destruct (attempt net s "" "" 0) as [f'|] eqn:E0; [|by intros [= <- <-]]. destruct (NotModified f') eqn:Em'; [by intros [= <- <-]|].
    intros [= <- <-]. split_and!; [done|done|]. intros ? [= <-]. split; [congruence|eauto].
  - intros [= <- <-]. split_and!; [done|done|]. intros ? [= <-]. split; [congruence|eauto].
Qed.

(** ** The whole refresh *)

Definition new_entry (now : Z) (c : HTTPConfig) (f : FetchResult) : SourceCache :=
  {| sc_key := Key c; sc_fingerprint := Fingerprint c; sc_body := pdata (fpayload f); sc_contentType := pcontentType (fpayload f);
     sc_eTag := ETag f; sc_lastModified := LastModified f; acceptedAt := now; validatedAt := now |}.
(** The entry a conditional request may be made for. *)
Definition usable_in (now : Z) (d : SubscriptionSource) (c : HTTPConfig) (before : gmap string SourceCache) (e : SourceCache) : Prop :=
  before !! Key c = Some e ∧ sc_fingerprint e = Fingerprint c ∧ usable_entry now d e = true.
(** What a successful refresh did to the cache. *)
Definition committed (now : Z) (pool : ProxyPool) (d : SubscriptionSource) (c : HTTPConfig) (f : FetchResult)
    (before after : gmap string SourceCache) (changed : bool) : Prop :=
  if NotModified f then
    changed = false ∧ ∃ e, usable_in now d c before e ∧ after = <[Key c := revalidated_entry now (ETag f) (LastModified f) e]> before
  else
    (∃ report s, parseSource (fpayload f) d pool = Some (report, s) ∧ (records s = [] → AllowEmpty d = true)) ∧
    after = <[Key c := new_entry now c f]> before ∧
    (changed = false → ∃ e, usable_in now d c before e ∧ sc_body e = pdata (fpayload f)).

Lemma query_store_Ok {A} (m : DB A) w r w' : query_store m w = (r, w') → ∃ x, r = Ok x ∧ m (store w) = (x, store w') ∧ reads w' = reads w.
Proof. unfold query_store. destruct (m (store w)) as [x s] eqn:E. intros [= <- <-]. eauto. Qed.
Lemma usable_of_Some now d loaded e : usable_of now d loaded = Some e → loaded = Ok (Some e) ∧ usable_entry now d e = true.
Proof. unfold usable_of. destruct loaded as [[x|]|]; [|done..]. destruct (usable_entry now d x) eqn:E; [|done]. by intros [= ->]. Qed.

(** A failed step leaves the tables as they were. *)
Definition kept (w w' : world) : Prop :=
  cache_ok (tables (store w')) ∧ frame (tables (store w)) (tables (store w')) ∧ cached (tables (store w')) = cached (tables (store w)).
Lemma kept_tables w w' : cache_ok (tables (store w)) → tables (store w') = tables (store w) → kept w w'.
Proof. intros Hok E. unfold kept. rewrite E. split_and!; [done|apply frame_refl|done]. Qed.

Lemma store_body_cases now pool d c usable f w r w' : cache_ok (tables (store w)) → fits now → unix_epoch < now → slen (Fingerprint c) = 32 →
  NotModified f = false → (∀ e, usable = Some e → usable_in now d c (cached (tables (store w))) e) →
  store_body now pool d c usable f w = (r, w') → cache_ok (tables (store w')) ∧ frame (tables (store w)) (tables (store w')) ∧ reads w' = reads w ∧
  match r with
  | Err e => e ≠ IndexOutOfRange ∧ cached (tables (store w')) = cached (tables (store w))
  | Ok changed => committed now pool d c f (cached (tables (store w))) (cached (tables (store w'))) changed
  end.
Proof.
  intros Hok Hfit Hnow Hfp Hm Hu H. unfold store_body in H.
  destruct (parseSource _ d pool) as [[report s]|] eqn:Ep; [|by injection H as <- <-].
  destruct (Set_Replace ∅ s _) as [set|] eqn:Es; [|by injection H as <- <-].
  unfold mbind, M_bind in H. destruct (query_store _ w) as [x w1] eqn:Eq.
  apply query_store_Ok in Eq as (saved & -> & Hsave & Hr). apply save_refines in Hsave as (Hok' & Hf & Hd); [|done|].
  2: { by split_and!. }
  destruct saved as [[]|e]; injection H as <- <-; [|by split_and!].
  split_and!; try done; try apply Hf. unfold committed. rewrite Hm. split_and!; [| exact Hd|].
  - exists report, s. split; [done|]. intros Hn. unfold Set_Replace in Es. destruct (bool_decide (source_String _ = _)); [done|].
    rewrite (bool_decide_true _ Hn) in Es. by destruct (AllowEmpty d).
  - destruct usable as [e|]; [|done]. intros Hb%negb_false_iff%bool_decide_eq_true_1. exists e. split; [by apply Hu|done].
Qed.

Lemma commit_cases now pool d c usable f w r w' : cache_ok (tables (store w)) → fits now → unix_epoch < now → slen (Fingerprint c) = 32 →
  (∀ e, cached (tables (store w)) !! Key c = Some e → acceptedAt e ≤ now) →
  (∀ e, usable = Some e → usable_in now d c (cached (tables (store w))) e) →
  commit_result now pool d c usable f w = (r, w') →
  cache_ok (tables (store w')) ∧ frame (tables (store w)) (tables (store w')) ∧ reads w' = reads w ∧
  match r with
  | Err e => e ≠ IndexOutOfRange ∧ cached (tables (store w')) = cached (tables (store w))
  | Ok changed => committed now pool d c f (cached (tables (store w))) (cached (tables (store w'))) changed
  end.
Proof.
  intros Hok Hfit Hnow Hfp Hacc Hu H. unfold commit_result in H. destruct (NotModified f) eqn:Hm; [|by eapply store_body_cases].
  destruct usable as [e|]; [|by injection H as <- <-]. destruct (Hu e eq_refl) as (He & Hef & Hue).
  unfold mbind, M_bind in H. destruct (query_store _ w) as [x w1] eqn:Eq.
  apply query_store_Ok in Eq as (v & -> & Hv & Hr). apply validate_refines in Hv as (Hok' & Hf & Hd); [|done|by split].
  destruct v as [[]|e']; injection H as <- <-; [|by split_and!]. split_and!; try done; try apply Hf.
  unfold committed. rewrite Hm. split; [done|]. destruct Hd as (e' & He' & _ & Hd). exists e. split; [done|]. congruence.
Qed.
(** Up to the commit nothing is written. *)
Lemma prepare_cases net now pool d w : cache_ok (tables (store w)) →
  let '(r, w') := RefreshHTTP net now pool d w in
  (∃ e, r = Err e ∧ e ≠ IndexOutOfRange ∧ tables (store w') = tables (store w)) ∨
  ∃ k c usable f w1, tables (store w1) = tables (store w) ∧ (reads w ≤ k ≤ reads w1)%nat ∧
    (∃ w0, ResolveHTTP api pool d w = (Ok c, w0)) ∧ resolved api pool d (reads w) k c ∧ downloaded (net k) (hc_http c) usable f ∧ reread pool d (Fingerprint c) k (reads w1) ∧
    (∀ e, usable = Some e → usable_in now d c (cached (tables (store w))) e) ∧
    commit_result now pool d c usable f w1 = (r, w').
Proof.
  intros Hok. unfold RefreshHTTP, mbind at 1, M_bind at 1.
  pose proof (reading_resolve api pool d w) as (Hs1 & Hp1 & Hr1). destruct (ResolveHTTP api pool d w) as [[c|e] w1] eqn:Er; simpl in Hs1, Hp1, Hr1.
  2: { left. exists e. split_and!; congruence. }
  pose proof Er as Hfirst. apply ResolveHTTP_Ok in Er as (_ & _ & Hres).
  unfold mbind at 1, M_bind at 1. destruct (query_store _ w1) as [x w2] eqn:Eq. apply query_store_Ok in Eq as (loaded & -> & Hl & Hr2).
  apply load_cases in Hl as [Ht2 Hl]; [|by rewrite Hs1]. rewrite Hs1 in Ht2, Hl.
  assert (∀ e, usable_of now d loaded = Some e → usable_in now d c (cached (tables (store w))) e) as Hus.
  { intros e [-> Hue]%usable_of_Some. destruct Hl as [Hl|Hl]; [done|]. injection Hl as Hl. symmetry in Hl. apply matching_Some in Hl as [? ?]. done. }
  unfold mbind at 1, M_bind at 1. unfold at_network at 1. destruct (acquire _ _ _ w2) as [ra w3] eqn:Ea. apply acquire_cases in Ea as (-> & Hpa & Ha).
  destruct ra as [f|e]; [|left; exists e; split_and!; congruence]. specialize (Ha f eq_refl).
  unfold mbind at 1, M_bind at 1. destruct (reading_still_desired pool d (Fingerprint c) w2) as (Hs3 & Hp3 & Hr3).
  destruct (still_desired pool d (Fingerprint c) w2) as [[u|e] w3] eqn:Esd; simpl in Hs3, Hp3, Hr3; [|left; exists e; split_and!; congruence].
  apply still_desired_Ok in Esd as Hre. destruct (commit_result _ _ _ _ _ _ w3) as [r w'] eqn:Ec.
  right. exists (reads w2), c, (usable_of now d loaded), f, w3. split_and!; try done; [congruence|lia|by eexists|by rewrite Hr2].
Qed.

Lemma refresh_cases net now pool d w : cache_ok (tables (store w)) → fits now → unix_epoch < now →
  (∀ e, cached (tables (store w)) !! key_of pool d = Some e → acceptedAt e ≤ now) →
  let '(r, w') := RefreshHTTP net now pool d w in
  let before := cached (tables (store w)) in let after := cached (tables (store w')) in
  cache_ok (tables (store w')) ∧ frame (tables (store w)) (tables (store w')) ∧
  match r with
  | Err e => e ≠ IndexOutOfRange ∧ after = before
  | Ok changed => ∃ k c usable f, resolved api pool d (reads w) k c ∧
      (∀ e, usable = Some e → usable_in now d c before e) ∧ downloaded (net k) (hc_http c) usable f ∧
      reread pool d (Fingerprint c) k (reads w') ∧ committed now pool d c f before after changed
  end.
Proof.
  intros Hok Hfit Hnow Hacc. pose proof (prepare_cases net now pool d w Hok) as H. destruct (RefreshHTTP net now pool d w) as [r w'].
  destruct H as [(e & -> & Hp & Ht) | (k & c & usable & f & w1 & Ht & Hr1 & _ & Hres & Hatt & Hre & Hus & Hc)].
  { rewrite Ht. split_and!; [done|apply frame_refl|done|done]. }
  apply commit_cases in Hc as (? & ? & Hrd & Hcase); rewrite ?Ht in *; try done; [|by eapply res_fingerprint|].
  - split_and!; [done|done|]. destruct r as [changed|e]; [|done]. exists k, c, usable, f. by rewrite Hrd.
  - by rewrite (res_key _ _ _ _ _ _ Hres).
Qed.
(** C16: A refresh commits only what is current, and all or nothing.  For an
    intact cache, and a clock reading that is not before the acceptance of
    the entry, [RefreshHTTP] keeps the cache intact and never touches the
    other tables.  When it fails, the cache is unchanged.  When it succeeds,
    then at some instant [k] of the sequence of API reads the server was
    asked, with the URL, headers and options resolved from the reads before
    [k] and with the validators of a usable entry; after [k] the pool was
    read again, with the same UID and generation, and the Secrets of its
    source were read again and gave the same fingerprint, the digest of URL,
    credentials, headers and options; then either the server confirmed that
    entry, which is revalidated in place, or it sent a body that the source's
    own options admit, which replaces the entry under that fingerprint.  No
    other key changes, and a refresh that reports no change kept the same
    body. *)
Theorem refresh_commits_current net now pool d w : cache_ok (tables (store w)) → fits now → unix_epoch < now →
  (∀ e, cached (tables (store w)) !! key_of pool d = Some e → acceptedAt e ≤ now) →
  let '(r, w') := RefreshHTTP net now pool d w in
  let before := cached (tables (store w)) in let after := cached (tables (store w')) in
  cache_ok (tables (store w')) ∧ frame (tables (store w)) (tables (store w')) ∧
  match r with
  | Err e => e ≠ IndexOutOfRange ∧ after = before
  | Ok changed => ∃ k c usable f, resolved api pool d (reads w) k c ∧
      (∀ e, usable = Some e → usable_in now d c before e) ∧ downloaded (net k) (hc_http c) usable f ∧
      reread pool d (Fingerprint c) k (reads w') ∧ committed now pool d c f before after changed
  end.
Proof. apply refresh_cases. Qed.
End refresh.

(** ** From the refresh to the pool *)

Section served.
Context {digest : Digest} {order : MapOrder} {urls : UrlParser} (api : nat → cluster).

(** The content type plays no part in parsing. *)
Lemma Parse_content source data t t' o :
  Parse {| psource := source; pdata := data; pcontentType := t |} o = Parse {| psource := source; pdata := data; pcontentType := t' |} o.
Proof. reflexivity. Qed.
Lemma fetched_payload net s etag modified n f : attempt net s etag modified n = Ok f → NotModified f = false →
  0 ≤ MaxSourceBytes (hlimits (hoptions s)) → psource (fpayload f) = hsource s ∧ slen (pdata (fpayload f)) ≤ MaxSourceBytes (hlimits (hoptions s)).
Proof.
  unfold attempt, Fetch. destruct (do_request _ _ _) as [made e]. simpl. intros H Hm Hb. destruct e; try done.
  apply read_response_Ok in H as (_ & _ & H); [|done]. rewrite Hm in H. destruct H as (_ & _ & ? & ? & _). done.
Qed.
(** The entry of a committed body passes the admission of the pool again. *)
Lemma admit_committed net now pool d m n c f before after changed etag modified k set : resolved api pool d m n c →
  attempt net (hc_http c) etag modified k = Ok f → NotModified f = false → committed now pool d c f before after changed →
  ∃ report s, parseSource (fpayload f) d pool = Some (report, s) ∧
    admit_body false (SourceID c) (pdata (fpayload f)) d pool set = Some (report, s, <[source_id pool d := s]> set).
Proof.
  intros Hres Hatt Hm Hc. unfold committed in Hc. rewrite Hm in Hc. destruct Hc as ((report & s & Hp & Hne) & _). exists report, s. split; [done|].
  destruct (res_source _ _ _ _ _ _ Hres) as (Hid & Hsrc & Hsafe). pose proof (res_limits _ _ _ _ _ _ Hres) as Hlim.
  destruct (fetched_payload _ _ _ _ _ _ Hatt Hm) as [Hps Hlen]; [by rewrite Hlim|]. rewrite Hsrc in Hps. rewrite Hlim in Hlen.
  destruct (fpayload f) as [ps data ct]. cbn [psource pdata] in *. subst ps. rewrite Hid.
  assert (source_String (source_id pool d) = source_id pool d) as Hss by (unfold source_String; rewrite bool_decide_false by apply Hsafe; done).
  assert (source_id pool d ≠ "<invalid-source-id>") as Hinv by (intros E; rewrite E in Hsafe; by destruct Hsafe).
  unfold admit_body, NewInline. rewrite Hss, bool_decide_false by done.
  assert (normalized DefaultLimits = Some DefaultLimits) as -> by reflexivity. cbn [mbind option_bind Inline_Acquire isource idata ilimits].
  rewrite (proj2 (Z.ltb_ge _ _)) by done. cbn [mbind option_bind]. unfold parseSource in *. destruct (sourceFormat _) as [fmt|]; [|done].
  cbn [mbind option_bind] in *. rewrite (Parse_content _ _ "" ct). destruct (Parse _ _) as [rep [s'|]] eqn:Ep; [|done]. injection Hp as -> ->.
  cbn [mbind option_bind].
  destruct (parse_admits _ _ _ _ (Hsafe : safe_id (psource {| psource := source_id pool d; pdata := data; pcontentType := ct |})) Ep) as (Hs & _).
  unfold Set_Replace. rewrite Hs. cbn [psource]. rewrite Hss, bool_decide_false by done.
  destruct (bool_decide (records s = [])) eqn:En; [rewrite Hne by (by bool_to_prop)|]; done.
Qed.

Lemma admits_parse net pool d m n c f etag modified k report s s' : resolved api pool d m n c →
  attempt net (hc_http c) etag modified k = Ok f → NotModified f = false →
  parseSource (fpayload f) d pool = Some (report, s) → admits pool d (pdata (fpayload f)) s' → s' = s.
Proof.
  intros Hres Hatt Hm Hp [(fm & rep & Hfm & Hpp) _ _ _]. destruct (res_source _ _ _ _ _ _ Hres) as (_ & Hsrc & _).
  destruct (fetched_payload _ _ _ _ _ _ Hatt Hm) as [Hps _]; [by rewrite (res_limits _ _ _ _ _ _ Hres)|].
  destruct (fpayload f) as [ps data ct]. cbn [psource pdata] in *. subst ps.
  unfold parseSource in Hp. rewrite Hfm in Hp. cbn [mbind option_bind] in Hp. rewrite Hsrc in Hp.
  rewrite (Parse_content _ _ "" ct) in Hpp. rewrite Hpp in Hp. by injection Hp as _ <-.
Qed.

(** ** An unchanged cluster *)

(** The result of reading does not depend on when it is done. *)
Definition steady {A} (base : nat) (m : M A) : Prop := ∀ w w', (base ≤ reads w)%nat → (base ≤ reads w')%nat → (m w).1 = (m w').1.
Lemma steady_bind {A B} base (m : M A) (k : A → M B) : (∀ w, (reads w ≤ reads (m w).2)%nat) → steady base m → (∀ a, steady base (k a)) →
  steady base (m ≫= k).
Proof.
  intros Hr Hm Hk w w' Hw Hw'. unfold mbind, M_bind. specialize (Hm w w' Hw Hw').
  pose proof (Hr w) as R. pose proof (Hr w') as R'.
  destruct (m w) as [r w1], (m w') as [r' w1']; simpl in *. subst r'. destruct r as [a|e]; [|done]. apply Hk; lia.
Qed.
Lemma reading_reads {A} (m : M A) : reading m → ∀ w, (reads w ≤ reads (m w).2)%nat.
Proof. intros Hm w. apply Hm. Qed.
Lemma steady_then_guard {A} base b c (k : () → M A) : steady base (k ()) → steady base (guard_pool b c ≫= k).
Proof. intros Hk. destruct b; [done|]. exact Hk. Qed.
Lemma steady_then_lift {A B} base (r : result pool_error A) (k : A → M B) : (∀ a, steady base (k a)) → steady base (lift r ≫= k).
Proof. intros Hk. destruct r as [a|]; [apply Hk|done]. Qed.
Lemma steady_ret {A} base (a : A) : steady base (mret a).
Proof. done. Qed.
Lemma steady_fail {A} base c : steady base (fail (A:=A) c).
Proof. done. Qed.
Section unchanged.
Context (base : nat) (Hsame : ∀ i, (base ≤ i)%nat → api i = api base).
Lemma steady_key ns revs ref : steady base (read_key api ns revs ref).
Proof.
  apply steady_bind; [apply reading_reads, reading_secret| |].
  - intros w w' Hw Hw'. simpl. by rewrite (Hsame _ Hw), (Hsame _ Hw').
  - intros [x| |]; [|apply steady_fail..]. destruct (secret_data x !! _); [apply steady_ret|apply steady_fail].
Qed.
Lemma steady_optional ns revs o : steady base (read_optional api ns revs o).
Proof. destruct o; [apply steady_key|apply steady_ret]. Qed.
Lemma steady_secret_headers ns l h revs : steady base (secret_headers api ns l h revs).
Proof.
  revert h revs. induction l as [|x l IH]; intros h revs; cbn [secret_headers]; [apply steady_ret|].
  do 2 apply steady_then_guard. apply steady_bind; [apply reading_reads, reading_key|apply steady_key|intros [v r]].
  apply steady_then_guard. apply IH.
Qed.
Lemma steady_resolve pool d : steady base (ResolveHTTP api pool d).
Proof.
  unfold ResolveHTTP. destruct (ss_http d) as [h|]; [|apply steady_fail].
  apply steady_then_guard, steady_then_lift. intros id.
  apply steady_bind; [apply reading_reads, reading_key|apply steady_key|intros [url r0]].
  apply steady_bind; [apply reading_reads, reading_optional|apply steady_optional|intros [auth r1]].
  do 2 apply steady_then_guard. apply steady_then_lift. intros clientID. apply steady_then_guard, steady_then_lift. intros headers.
  apply steady_then_guard. apply steady_bind; [apply reading_reads, reading_secret_headers|apply steady_secret_headers|intros [hs r2]].
  apply steady_then_lift. intros x. apply steady_ret.
Qed.
End unchanged.
(** ** A build after it *)

Definition quiet (w : world) : Prop := events (store w) = [].
Lemma load_quiet k fp s : events s = [] → cache_ok (tables s) → ∃ s',
  LoadSourceCache k fp s = (Ok (matching fp (cached (tables s) !! k)), s') ∧ tables s' = tables s ∧ events s' = [].
Proof.
  intros He Hok. destruct (LoadSourceCache k fp s) as [r s'] eqn:El. pose proof El as El'. apply load_cases in El' as [Ht Hr]; [|done].
  unfold LoadSourceCache, query_raw, mbind, DB_bind in El. rewrite statement_Ok in El by done. simpl in El.
  exists s'. split; [|split; [done|]].
  - destruct Hr as [-> | ->]; [|done]. repeat (case_match; try discriminate El).
  - repeat (case_match; try (by injection El as <- <-)).
Qed.
Lemma use_entry_adds over later pool d h c e b : ∃ st, pr_sources (b_result (use_entry over later pool d h c e b)) = pr_sources (b_result b) ++ [st].
Proof.
  unfold use_entry. destruct (later <? _); [by eexists|]. destruct (negb _); [by eexists|].
  destruct (admit_body _ _ _ _ _ _) as [[[report s] set]|]; [|by eexists]. destruct (if _ <? time_sub _ _ then _ else _) as [state reason].
  destruct (0 <? _); by eexists.
Qed.
Lemma query_quiet k fp w r w' : quiet w → cache_ok (tables (store w)) → query_store (LoadSourceCache k fp) w = (Ok r, w') →
  quiet w' ∧ tables (store w') = tables (store w) ∧ r = Ok (matching fp (cached (tables (store w)) !! k)).
Proof.
  intros Hq Hok. unfold query_store. destruct (load_quiet k fp (store w) Hq Hok) as (s' & -> & Ht & He). by intros [= <- <-].
Qed.
Section later.
Context (later : Z) (pool : ProxyPool).

(** A source adds one state, and statements keep succeeding. *)
Definition steps_on (b : building) (w : world) (b' : building) (w' : world) : Prop :=
  quiet w' ∧ tables (store w') = tables (store w) ∧ (reads w ≤ reads w')%nat ∧ ∃ st, pr_sources (b_result b') = pr_sources (b_result b) ++ [st].
Lemma build_secret_steps over d b w b' w' : quiet w → build_secret api over pool d b w = (Ok b', w') → steps_on b w b' w'.
Proof.
  intros Hq H. unfold build_secret in H. destruct (SecretRef d) as [ref|]; [|done]. m_inv.
  rename select (read_Secret _ _ _ = _) into Hrd. unfold read_Secret in Hrd. injection Hrd as Ha <-.
  rename select (answer Secret) into x. destruct x as [x| |]; [|done..]. destruct (secret_data x !! _); m_inv.
  split_and!; [done|done|simpl; lia|by eexists].
Qed.
(** The part of [build_http] before the cache is asked. *)
Lemma build_http_inv cache over d h b w b' w' : build_http api cache over later pool d h b w = (Ok b', w') →
  ∃ b1 w1 oc, store w1 = store w ∧ (reads w ≤ reads w1)%nat ∧ pr_sources (b_result b1) = pr_sources (b_result b) ∧
    (∃ w0, (reads w ≤ reads w0)%nat ∧ try_resolve api pool d w0 = (Ok oc, w1)) ∧
    match oc with
    | None => w' = w1 ∧ ∃ st, pr_sources (b_result b') = pr_sources (b_result b) ++ [st]
    | Some c => ∃ found, query_store (LoadSourceCache (Key c) (Fingerprint c)) w1 = (Ok found, w') ∧
        match found with
        | Ok (Some e) => ∃ b2, pr_sources (b_result b2) = pr_sources (b_result b) ∧ b' = use_entry over later pool d h c e b2
        | _ => ∃ st, pr_sources (b_result b') = pr_sources (b_result b) ++ [st]
        end
    end.
Proof.
  intros H. unfold build_http, recordHTTPReferences in H. m_inv.
  rename select (record_references _ _ _ _ _ = _) into Hrec. apply reading_Ok in Hrec as [S1 R1]; [|apply reading_references].
  rename select (try_resolve _ _ _ _ = _) into Hres. pose proof Hres as Hres'. apply reading_Ok in Hres' as [S2 R2]; [|apply reading_try_resolve].
  rename select (option HTTPConfig) into oc. exists b. eexists _, oc. split_and!; [by rewrite S2, S1|lia|done|eexists; split; [|exact Hres]; lia|].
  destruct oc as [c|]; m_inv; [|split; [done|by eexists]].
  rename select (query_store _ _ = _) into Hq. rename select (result Store.Failure (option SourceCache)) into found.
  exists found. destruct found as [[e|]|]; m_inv; (split; [exact Hq|]); [|by eexists..]. eexists. split; [|reflexivity]. done.
Qed.
Lemma build_http_steps cache over d h b w b' w' : quiet w → cache_ok (tables (store w)) →
  build_http api cache over later pool d h b w = (Ok b', w') → steps_on b w b' w'.
Proof.
  intros Hq Hok H. apply build_http_inv in H as (b1 & w1 & oc & S1 & R1 & _ & _ & H). unfold steps_on, quiet in *.
  destruct oc as [c|]; [|destruct H as [-> ?]; by rewrite S1].
  destruct H as (found & Hf & H). pose proof Hf as Hf'. apply query_store_Ok in Hf' as (_ & _ & _ & R2).
  apply query_quiet in Hf as (Q & T & _); [|unfold quiet; by rewrite S1|by rewrite S1].
  rewrite S1 in T. split_and!; [done|done|lia|].
  destruct found as [[e|]|]; [|done..]. destruct H as (b2 & <- & ->). apply use_entry_adds.
Qed.
(** The source whose entry is current and parses is served from it. *)
Lemma build_http_served base c d h b w b' w' w0 w0' e : (∀ i, (base ≤ i)%nat → api i = api base) → (base ≤ reads w0)%nat → (base ≤ reads w)%nat →
  ResolveHTTP api pool d w0 = (Ok c, w0') → quiet w → cache_ok (tables (store w)) →
  cached (tables (store w)) !! Key c = Some e → sc_fingerprint e = Fingerprint c →
  validatedAt e - 5 * minute ≤ later < validatedAt e + maxSourceStale (MaxStale h) →
  (∀ set, is_Some (admit_body false (SourceID c) (sc_body e) d pool set)) →
  build_http api true false later pool d h b w = (Ok b', w') →
  ∃ st, pr_sources (b_result b') = pr_sources (b_result b) ++ [st] ∧ live_state st ∧ LastSuccess st = Some (validatedAt e).
Proof.
  intros Hsame B0 B1 Hres Hq Hok He Hfp Hl Hadm H. apply build_http_inv in H as (b1 & w1 & oc & S1 & R1 & _ & (w2 & R2 & Ht) & H).
  assert (oc = Some c) as ->.
  { pose proof (steady_resolve base Hsame pool d w0 w2 B0 ltac:(lia)) as E. rewrite Hres in E. unfold try_resolve in Ht.
    destruct (ResolveHTTP api pool d w2) as [rr w3]; simpl in E. subst rr. by injection Ht as <- <-. }
  destruct H as (found & Hf & H). apply query_quiet in Hf as (_ & _ & ->); [|unfold quiet; by rewrite S1|by rewrite S1].
  rewrite S1, He in H. unfold matching in H. simpl in H. rewrite bool_decide_true in H by done. destruct H as (b2 & <- & ->).
  unfold use_entry. rewrite (proj2 (Z.ltb_ge later _)), (proj2 (Z.ltb_lt later _)) by lia. cbn [negb].
  destruct (Hadm (b_set (with_version (Key c) {| cv_digest := sha256 (sc_body e); cv_validatedAt := validatedAt e; cv_present := true;
    cv_sourceID := source_String (SourceID c); cv_expiresAt := 0 |} b2))) as [[[report s] set] ->].
  destruct (if _ <? time_sub _ _ then _ else _) as [state reason] eqn:Est.
  assert (state = "Fresh" ∨ state = "Cached") as Hlive by (destruct (_ <? time_sub _ _); simplify_eq; auto).
  eexists. destruct (0 <? _); split_and!; done.
Qed.
(** The loop reaches the source whatever the others are. *)
Lemma loop_served base c over d h e w0 w0' l b w b' w' : (∀ i, (base ≤ i)%nat → api i = api base) → (base ≤ reads w0)%nat → (base ≤ reads w)%nat →
  ResolveHTTP api pool d w0 = (Ok c, w0') → ss_http d = Some h → over (ss_id d) = false → quiet w → cache_ok (tables (store w)) →
  cached (tables (store w)) !! Key c = Some e → sc_fingerprint e = Fingerprint c →
  validatedAt e - 5 * minute ≤ later < validatedAt e + maxSourceStale (MaxStale h) →
  (∀ set, is_Some (admit_body false (SourceID c) (sc_body e) d pool set)) →
  build_loop api true over later pool l b w = (Ok b', w') →
  ∃ sts, pr_sources (b_result b') = pr_sources (b_result b) ++ sts ∧
    (d ∈ l → ∃ st, (d, st) ∈ zip l sts ∧ live_state st ∧ LastSuccess st = Some (validatedAt e)).
Proof.
  intros Hsame B0 B1 Hres Hh Hover Hq Hok He Hfp Hl Hadm. revert b w Hq Hok He B1. induction l as [|x l IH]; intros b w Hq Hok He B1 H; cbn [build_loop] in H.
  { m_inv. exists []. rewrite app_nil_r. split; [done|]. by intros ?%elem_of_nil. }
  apply M_bind_Ok in H as (b1 & w1 & H1 & H).
  assert (steps_on b w b1 w1) as (Q1 & T1 & R1 & st0 & Hst0).
  { destruct (ss_http x) as [hx|]; [by eapply build_http_steps|by eapply build_secret_steps]. }
  apply IH in H as (sts & Hs & Hin); [|done|by rewrite T1|by rewrite T1|lia]. exists (st0 :: sts). split; [rewrite Hs, Hst0, <-app_assoc; done|].
  intros [<- |Hd]%elem_of_cons; [|destruct (Hin Hd) as (st & ? & ?); exists st; split; [by right|done]].
  rewrite Hh, Hover in H1. apply (build_http_served base c d h b w b1 w1 w0 w0' e) in H1 as (st & Hst & Hlive); try done.
  rewrite Hst0 in Hst. apply app_inj_tail in Hst as [_ ->]. exists st. split; [by left|done].
Qed.
End later.

(** C23: What a refresh accepted, the pool serves.  Suppose a refresh of an
    HTTP source of the pool reports a change, at [now], and after it pools
    are built while the cluster stays as it was, the entry of the source is
    not overwritten and the database answers.  Then every build at a time
    [later], not more than five minutes earlier and within the allowed
    staleness, whose context is alive when it reaches the source and which
    succeeds (another source may make it fail) reports the source Fresh or
    Cached, as last successful at [now], and serves exactly the snapshot the
    refresh parsed from the downloaded body, one of the snapshots the build
    is made from: unless their configurations collide under SHA-256, each of
    its endpoints is in the inventory. *)
Theorem refreshed_source_served net now later pool d h over w w1 w2 r w3 :
  cache_ok (tables (store w)) → fits now → unix_epoch < now →
  (∀ e, cached (tables (store w)) !! key_of pool d = Some e → acceptedAt e ≤ now) →
  (∀ i, (reads w ≤ i)%nat → api i = api (reads w)) →
  RefreshHTTP api net now pool d w = (Ok true, w1) →
  (reads w1 ≤ reads w2)%nat → quiet w2 → cache_ok (tables (store w2)) →
  cached (tables (store w2)) !! key_of pool d = cached (tables (store w1)) !! key_of pool d →
  d ∈ Sources pool → NoDup (ss_id <$> Sources pool) → ss_http d = Some h → over (ss_id d) = false →
  now - 5 * minute ≤ later < now + maxSourceStale (MaxStale h) →
  BuildPoolWithCache api true over later pool w2 = (Ok r, w3) →
  ∃ st k c usable f report s used, (d, st) ∈ zip (Sources pool) (pr_sources r) ∧ live_state st ∧ LastSuccess st = Some now ∧
    downloaded (net k) (hc_http c) usable f ∧ parseSource (fpayload f) d pool = Some (report, s) ∧
    made_from api pool later (cached (tables (store w2))) (reads w2) (reads w3) r used ∧ used !! source_id pool d = Some s ∧ (coll_free sha256 (hashed (Set_records used)) →
      ∀ y, y ∈ records s → configuration y ∈ configuration <$> pool_inventory r).
Proof.
  intros Hok Hfit Hnow Hacc Hsame Href Hr2 Hq Hok2 Hkept Hd Hnd Hh Hover Hl Hb.
  pose proof (prepare_cases api net now pool d w Hok) as Hp. rewrite Href in Hp.
  destruct Hp as [(e & ? & _) | (k & c & usable & f & wc & Ht & Hk & (w0 & Hw0) & Hres & Hatt & _ & Hus & Hc)]; [done|].
  apply commit_cases in Hc as (_ & _ & Hrd & Hc); rewrite ?Ht in *; try done; [|by eapply res_fingerprint|by rewrite (res_key _ _ _ _ _ _ Hres)].
  assert (NotModified f = false) as Hm by (unfold committed in Hc; destruct (NotModified f); [by destruct Hc|done]).
  pose proof (res_key _ _ _ _ _ _ Hres) as Hkey. fold (key_of pool d) in Hkey.
  assert (cached (tables (store w2)) !! Key c = Some (new_entry now c f)) as He.
  { unfold committed in Hc. rewrite Hm in Hc. destruct Hc as (_ & Ha & _). rewrite Hkey, Hkept, Ha, Hkey. apply lookup_insert_eq. }
  destruct Hatt as [_ [n Hatt]]. pose proof (λ set, admit_committed _ _ _ _ _ _ _ _ _ _ _ _ _ _ set Hres Hatt Hm Hc) as Hadm.
  pose proof Hb as Hb'. unfold BuildPoolWithCache in Hb'. apply M_bind_Ok in Hb' as (u & wg & Hg & Hb'). apply guard_pool_Ok in Hg as [_ ->].
  apply M_bind_Ok in Hb' as (b & wl & Hloop & Hb'). apply mret_Ok in Hb' as [Hr ->].
  apply (loop_served later pool (reads w) c over d h (new_entry now c f) w w0) in Hloop as (sts & Hsts & Hserved); try done; [|lia|].
  2: { intros set. destruct (Hadm set) as (report & s & _ & E). eexists. exact E. }
  destruct (Hserved Hd) as (st & Hzip & Hlive & Hlast). simpl in Hsts. destruct (Hadm ∅) as (report & s & Hparse & _).
  destruct (build_exact api pool later (cached (tables (store w2))) true over w2 r wl (conj Hok2 eq_refl) Hnd Hb) as (_ & _ & used & Hmade & _ & _ & Hm'). pose proof (proj1 Hmade) as Hst.
  assert (pr_sources r = sts) as Hrs by (rewrite Hr; exact Hsts). rewrite Hrs in *.
  assert (used !! source_id pool d = Some s) as Hused.
  { apply list_elem_of_lookup in Hzip as [i Hi]. apply lookup_zip_with_Some in Hi as (x & y & [= <- <-] & Hx & Hy).
    destruct (Forall2_lookup_lr _ _ _ _ _ _ Hst Hx Hy) as (_ & [(_ & s' & Hs' & Hcon) |[? _]]); [|done]. rewrite Hs'. f_equal.
    destruct Hcon as (body & Ha & [[? _]|(h' & c' & e & _ & Hres' & Hce & _ & Hbody & _)]); [congruence|].
    rewrite (res_key _ _ _ _ _ _ Hres') in Hce. fold (key_of pool d) in Hce. rewrite <-Hkey, He in Hce. injection Hce as <-. simpl in Hbody. subst body.
    eapply (admits_parse _ pool d _ _ c f); [exact Hres|exact Hatt|done|exact Hparse|exact Ha]. }
  exists st, k, c, usable, f, report, s, used. split_and!; try done; [split; [congruence|by eexists]|].
  intros Hfree y Hy. apply (mg_configurations _ _ (Hm' Hfree)), list_elem_of_fmap_2, Set_records_elem. eauto.
Qed.
End served.

(** ** A concrete refresh *)

Module RefreshSample.
#[local] Existing Instance toy_digest.
Import PoolSample.
(** The pool with the HTTP source alone. *)
Definition pool : ProxyPool :=
  {| pp_namespace := "ns"; pp_name := "p"; pp_uid := "u"; pp_generation := 1; Sources := [feed_source];
     Probe := Probe PoolSample.pool; pp_selection := pp_selection PoolSample.pool; Profiles := []; RefreshInterval := None;
     pp_allowInsecureTLS := false; pp_status := pp_status PoolSample.pool |}.
Definition api (_ : nat) : cluster := {| get_Secret _ := Found sources; get_Pool _ := Found pool |}.
Definition answer_ : Response := {| StatusCode := 200; rheader := ∅; rbody := Some "trojan://pw@h.example:443#n" |}.
Definition net (_ : nat) : network :=
  {| answers _ _ _ := Answer answer_; parse_time _ := None; clocks _ := 0; contexts _ := ContextLive; contexts_after _ := ContextLive;
     jitters _ := 0; interruptions _ := None |}.
Definition now : Z := unix_epoch + hour.
Lemma now_fits : fits now ∧ unix_epoch < now.
Proof. unfold fits, in_int64, now, hour, minute, second, int64_min, int64_max. lia. Qed.
Lemma start_ok : cache_ok (tables (store start)).
Proof. apply map_Forall_empty. Qed.
Lemma start_empty e : cached (tables (store start)) !! key_of pool feed_source = Some e → acceptedAt e ≤ now.
Proof. change (cached (tables (store start))) with (∅ : gmap string SourceCache). rewrite lookup_empty. discriminate. Qed.
Definition changes (r : result pool_error bool) : bool := match r with Ok changed => changed | Err _ => false end.
Lemma refreshes : changes (RefreshHTTP api net now pool feed_source start).1 = true.
Proof. reflexivity. Qed.
Definition after : world := (RefreshHTTP api net now pool feed_source start).2.
Lemma after_quiet : quiet after.
Proof. reflexivity. Qed.
Lemma after_builds : is_ok (BuildPoolWithCache api true (λ _, false) now pool after).1 = true.
Proof. reflexivity. Qed.
Lemma refresh_runs : RefreshHTTP api net now pool feed_source start = (Ok true, after).
Proof.
  pose proof refreshes as H. unfold after. destruct (RefreshHTTP api net now pool feed_source start) as [[changed|e] w']; [|discriminate H].
  simpl in H. by rewrite H.
Qed.
Lemma after_ok : cache_ok (tables (store after)).
Proof.
  pose proof (refresh_cases api net now pool feed_source start start_ok (proj1 now_fits) (proj2 now_fits) start_empty) as H.
  rewrite refresh_runs in H. apply H.
Qed.
Lemma build_runs : ∃ r w3, BuildPoolWithCache api true (λ _, false) now pool after = (Ok r, w3).
Proof. pose proof after_builds as H. destruct (BuildPoolWithCache api true (λ _, false) now pool after) as [[r|e] w3]; [eauto|discriminate H]. Qed.

Lemma refresh_commits_current_witness : RefreshHTTP api net now pool feed_source start = (Ok true, after) ∧
  ∃ k c, resolved api pool feed_source 0 k c ∧ Key c = "u/feed" ∧ reread api pool feed_source (Fingerprint c) k (reads after).
Proof.
  split; [exact refresh_runs|].
  pose proof (refresh_commits_current api net now pool feed_source start start_ok (proj1 now_fits) (proj2 now_fits) start_empty) as H.
  rewrite refresh_runs in H. destruct H as (_ & _ & k & c & usable & f & Hres & _ & _ & Hre & _). exists k, c.
  split; [exact Hres|]. split; [apply (res_key _ _ _ _ _ _ Hres)|exact Hre].
Defined.
Lemma refreshed_source_served_witness : ∃ r w3, BuildPoolWithCache api true (λ _, false) now pool after = (Ok r, w3) ∧
  ∃ st, pr_sources r = [st] ∧ live_state st ∧ LastSuccess st = Some now.
Proof.
  destruct build_runs as (r & w3 & Hb). exists r, w3. split; [exact Hb|].
  assert (NoDup (ss_id <$> Sources pool)) as Hnd by (apply (bool_decide_unpack _); reflexivity).
  destruct (refreshed_source_served api net now now pool feed_source feed (λ _, false) start after after r w3 start_ok (proj1 now_fits) (proj2 now_fits)
    start_empty (λ _ _, eq_refl) refresh_runs (le_n _) after_quiet after_ok eq_refl ltac:(by left) Hnd eq_refl eq_refl) as (st & _ & _ & _ & _ & _ & _ & _ & Hz & Hl & Hs & _).
  - unfold maxSourceStale, feed, MaxStale, hour, minute, second. lia.
  - exact Hb.
  - exists st. split; [|split; [exact Hl|exact Hs]].
    assert (length (pr_sources r) = 1%nat) as Hlen.
    { change r with (match (@Ok pool_error _ r, w3).1 with Ok r => r | Err _ => r end). rewrite <-Hb. reflexivity. }
    destruct (pr_sources r) as [|x [|]]; try discriminate Hlen. apply list_elem_of_singleton in Hz. by injection Hz as <-.
Defined.
End RefreshSample.
