(* ===== verification/Refresher.v ===== *)
(** * The refresh scheduler (internal/controller/http_refresher.go)

    One dispatcher goroutine, four workers and a mutex over the map of slots.
    Every critical section is one step, so any interleaving of scans,
    notifications, dispatches and workers is a sequence of steps. *)
From S2P Require Import Prelude Order Bytes Encoding Provenance Inventory Store SourceCache SnapshotGuard.
From S2P Require Import Endpoint Configuration Identity Text Json Url SourceUri SourceJson Parse Authorize HttpSource HttpProfile Pool Refresh.
From Stdlib Require Import Ascii.
From Stdlib Require String.
Open Scope Z_scope.

Definition maxHTTPRefreshWorkers : nat := 4.

(** [slot.pool] and [slot.source] are set together. *)
Record refreshSlot := {
  sl_fingerprint : string; sl_next : Z; sl_active : bool; sl_failure : string; sl_lastChange : Z;
  sl_target : option (ProxyPool * SubscriptionSource);
}.
Record refreshJob := { job_pool : ProxyPool; job_source : SubscriptionSource; job_key : string; job_fingerprint : string }.
Abbreviation slots_map := (gmap string refreshSlot).

(** ** Intervals *)

Definition durationValue (value : option Z) : Z := default 0 value.
Definition refreshInterval (value : Z) : Z := if (value <? 30 * second) || (24 * hour <? value) then 5 * minute else value.
(** [fnv.New32a]. *)
Fixpoint fnv32a (h : Z) (l : list ascii) : Z :=
  match l with [] => h | c :: l => fnv32a ((Z.lxor h (code c) * 16777619) `mod` 2 ^ 32) l end.
Definition Sum32 (key : string) : Z := fnv32a 2166136261 (chars key).
Definition spread (key : string) (window : Z) : Z := ((window * (Sum32 key `mod` 1000)) `mod` 2 ^ 64) / 1000.
Definition interval_of (pool : ProxyPool) : Z := refreshInterval (durationValue (RefreshInterval pool)).
(** The time between two refreshes of a key. *)
Definition period (key : string) (pool : ProxyPool) : Z := interval_of pool + spread key (interval_of pool / 10).

(** ** The critical sections *)

Definition with_target (t : ProxyPool * SubscriptionSource) (s : refreshSlot) : refreshSlot :=
  {| sl_fingerprint := sl_fingerprint s; sl_next := sl_next s; sl_active := sl_active s; sl_failure := sl_failure s;
     sl_lastChange := sl_lastChange s; sl_target := Some t |}.
Definition new_slot (fingerprint : string) (next : Z) : refreshSlot :=
  {| sl_fingerprint := fingerprint; sl_next := next; sl_active := false; sl_failure := ""; sl_lastChange := 0; sl_target := None |}.
Definition refingerprinted (fingerprint : string) (now : Z) (s : refreshSlot) : refreshSlot :=
  {| sl_fingerprint := fingerprint; sl_next := now; sl_active := sl_active s; sl_failure := ""; sl_lastChange := sl_lastChange s;
     sl_target := sl_target s |}.
(** When a new slot is due; [found] is the cached entry. *)
Definition first_due (now : Z) (key : string) (pool : ProxyPool) (found : option SourceCache) : Z :=
  match found with
  | Some e =>
      let due := validatedAt e + period key pool in
      if due <=? now then now + spread key (10 * second)
      else if due <? now + period key pool then due else now + period key pool
  | None => now + spread key (10 * second)
  end.
(** The slot of a resolved source after [enqueue]. *)
Definition enqueue_slot (now : Z) (pool : ProxyPool) (d : SubscriptionSource) (key fingerprint : string) (found : option SourceCache)
    (slots : slots_map) : slots_map :=
  let slot := match slots !! key with
              | None => new_slot fingerprint (first_due now key pool found)
              | Some s => if bool_decide (sl_fingerprint s ≠ fingerprint) then refingerprinted fingerprint now s else s
              end in
  <[key := with_target (pool, d) slot]> slots.

Definition dispatched (now : Z) (key : string) (pool : ProxyPool) (s : refreshSlot) : refreshSlot :=
  {| sl_fingerprint := sl_fingerprint s; sl_next := now + period key pool; sl_active := true; sl_failure := sl_failure s;
     sl_lastChange := sl_lastChange s; sl_target := sl_target s |}.
(** [room] is how many sends the channel accepts without blocking. *)
Fixpoint dispatch_loop (now : Z) (room : nat) (keys : list string) (slots : slots_map) : slots_map * list refreshJob :=
  match keys with
  | [] => (slots, [])
  | key :: rest =>
      match slots !! key with
      | None => dispatch_loop now room rest slots
      | Some s =>
          match sl_target s with
          | Some (pool, d) =>
              if sl_active s || (now <? sl_next s) then dispatch_loop now room rest slots
              else match room with
                   | O => (slots, [])
                   | S room =>
                       let '(slots, jobs) := dispatch_loop now room rest (<[key := dispatched now key pool s]> slots) in
                       (slots, {| job_pool := pool; job_source := d; job_key := key; job_fingerprint := sl_fingerprint s |} :: jobs)
                   end
          | None => dispatch_loop now room rest slots
          end
      end
  end.
Definition dispatch_slots (now : Z) (room : nat) (slots : slots_map) : slots_map * list refreshJob :=
  dispatch_loop now room (go_sort bytes_compare (map_to_list slots).*1) slots.

(** [runJob]: the result is recorded, unless the configuration has changed. *)
Definition truncate_second (t : Z) : Z := t - t `mod` second.
Definition report (now : Z) (job : refreshJob) (failed changed : bool) (slots : slots_map) : slots_map :=
  match slots !! job_key job with
  | Some s =>
      if bool_decide (sl_fingerprint s = job_fingerprint job) then
        <[job_key job :=
          {| sl_fingerprint := sl_fingerprint s; sl_next := sl_next s; sl_active := sl_active s;
             sl_failure := if failed then "RefreshFailed" else "";
             sl_lastChange := if negb failed && changed then truncate_second now else sl_lastChange s; sl_target := sl_target s |}]> slots
      else slots
  | None => slots
  end.
Definition previousFailure (job : refreshJob) (slots : slots_map) : string :=
  match slots !! job_key job with
  | Some s => if bool_decide (sl_fingerprint s = job_fingerprint job) then sl_failure s else ""
  | None => ""
  end.
(** The deferred function of [runJob]. *)
Definition release (now : Z) (job : refreshJob) (slots : slots_map) : slots_map :=
  match slots !! job_key job with
  | Some s =>
      let next := match sl_target s with
                  | Some (pool, _) =>
                      if bool_decide (sl_fingerprint s = job_fingerprint job)
                      then Z.max (sl_next s) (now + period (job_key job) pool) else sl_next s
                  | None => sl_next s
                  end in
      <[job_key job :=
        {| sl_fingerprint := sl_fingerprint s; sl_next := next; sl_active := false; sl_failure := sl_failure s;
           sl_lastChange := sl_lastChange s; sl_target := sl_target s |}]> slots
  | None => slots
  end.

(** [LastChange] and [Failure]. *)
Definition LastChange (uid : string) (slots : slots_map) : Z :=
  foldr Z.max 0 ((λ kv, sl_lastChange kv.2) <$> filter (λ kv, has_prefix (uid +:+ "/") kv.1 = true) (map_to_list slots)).
Definition slot_failure (key : string) (slots : slots_map) : string := match slots !! key with Some s => sl_failure s | None => "" end.

(** ** Whole operations over the API server and the store *)

Section operations.
Context {digest : Digest} {order : MapOrder} {urls : UrlParser} (api : nat → cluster).

(** A database operation whose error is ignored. *)
Definition ignore_store {A} (m : DB A) : M () := _ ← query_store m; mret ().
Definition enqueue_source (now : Z) (pool : ProxyPool) (d : SubscriptionSource) (slots : slots_map) : M slots_map :=
  match ss_http d with
  | None => mret slots
  | Some _ =>
      config ← try_resolve api pool d;
      match config with
      | None => mret slots
      | Some c =>
          match slots !! Key c with
          | None =>
              loaded ← query_store (LoadSourceCache (Key c) (Fingerprint c));
              let found := match loaded with Ok found => found | Err _ => None end in
              _ ← match found with Some _ => mret () | None => ignore_store (DeleteSourceCache (Key c)) end;
              mret (enqueue_slot now pool d (Key c) (Fingerprint c) found slots)
          | Some s =>
              _ ← (if bool_decide (sl_fingerprint s ≠ Fingerprint c) then ignore_store (DeleteSourceCache (Key c)) else mret ());
              mret (enqueue_slot now pool d (Key c) (Fingerprint c) None slots)
          end
      end
  end.
Fixpoint enqueue_sources (now : Z) (pool : ProxyPool) (l : list SubscriptionSource) (slots : slots_map) : M slots_map :=
  match l with [] => mret slots | d :: rest => slots ← enqueue_source now pool d slots; enqueue_sources now pool rest slots end.
Definition enqueue (now : Z) (pool : ProxyPool) (slots : slots_map) : M slots_map := enqueue_sources now pool (Sources pool) slots.

Definition live_keys (pool : ProxyPool) : gset string :=
  list_to_set ((λ d, pp_uid pool +:+ "/" +:+ ss_id d) <$> filter (λ d, is_Some (ss_http d)) (Sources pool)).
Fixpoint enqueue_pools (now : Z) (pools : list ProxyPool) (slots : slots_map) : M slots_map :=
  match pools with [] => mret slots | p :: rest => slots ← enqueue now p slots; enqueue_pools now rest slots end.
(** [scan]; [pools] is what the list request returns. *)
Definition scan (now : Z) (pools : option (list ProxyPool)) (slots : slots_map) : M slots_map :=
  match pools with
  | None => mret slots
  | Some pools =>
      let live := ⋃ (live_keys <$> pools) in
      slots ← enqueue_pools now pools slots;
      let slots := filter (λ kv, kv.1 ∈ live) slots in
      _ ← ignore_store (PruneSourceCache live now);
      mret slots
  end.
Fixpoint delete_caches (keys : list string) : M () :=
  match keys with [] => mret () | k :: rest => _ ← ignore_store (DeleteSourceCache k); delete_caches rest end.
(** [inspect] after a notification for [name]. *)
Definition inspect (now : Z) (name : NamespacedName) (slots : slots_map) : M slots_map :=
  a ← read_Pool api name;
  match a with
  | ReadFailed => mret slots
  | NotFound =>
      let gone := λ kv : string * refreshSlot,
        match sl_target kv.2 with
        | Some (pool, _) => bool_decide (pp_namespace pool = nn_namespace name) && bool_decide (pp_name pool = nn_name name)
        | None => false
        end in
      _ ← delete_caches (map_to_list (filter (λ kv, gone kv = true) slots)).*1;
      mret (filter (λ kv, gone kv = false) slots)
  | Found pool =>
      slots ← enqueue now pool slots;
      let stale := λ kv : string * refreshSlot, has_prefix (pp_uid pool +:+ "/") kv.1 && negb (bool_decide (kv.1 ∈ live_keys pool)) in
      _ ← delete_caches (map_to_list (filter (λ kv, stale kv = true) slots)).*1;
      mret (filter (λ kv, stale kv = false) slots)
  end.
End operations.

(** ** The interleavings *)

Record refresher := { slots : slots_map; queue : list refreshJob; running : list refreshJob }.
Definition outstanding (c : refresher) : list refreshJob := queue c ++ running c.

Inductive event :=
| EvEnqueue (now : Z) (pool : ProxyPool) (d : SubscriptionSource) (key fingerprint : string) (found : option SourceCache)
| EvDrop (key : string)
| EvDispatch (now : Z) (jobs : list refreshJob)
| EvTake
| EvReport (now : Z) (job : refreshJob) (failed changed : bool)
| EvRelease (now : Z) (job : refreshJob).

(** A dispatch may hand a job to each waiting worker and fill the channel,
    whose capacity is the number of workers. *)
Inductive step : refresher → event → refresher → Prop :=
| step_enqueue c now pool d key fingerprint found :
    step c (EvEnqueue now pool d key fingerprint found)
      {| slots := enqueue_slot now pool d key fingerprint found (slots c); queue := queue c; running := running c |}
| step_drop c key : step c (EvDrop key) {| slots := delete key (slots c); queue := queue c; running := running c |}
| step_dispatch c now room slots' jobs :
    (length (outstanding c) + room ≤ 2 * maxHTTPRefreshWorkers)%nat → dispatch_slots now room (slots c) = (slots', jobs) →
    step c (EvDispatch now jobs) {| slots := slots'; queue := queue c ++ jobs; running := running c |}
| step_take c job rest : queue c = job :: rest → (length (running c) < maxHTTPRefreshWorkers)%nat →
    step c EvTake {| slots := slots c; queue := rest; running := running c ++ [job] |}
| step_report c now job failed changed : job ∈ running c →
    step c (EvReport now job failed changed) {| slots := report now job failed changed (slots c); queue := queue c; running := running c |}
| step_release c now job before after : running c = before ++ job :: after →
    step c (EvRelease now job) {| slots := release now job (slots c); queue := queue c; running := before ++ after |}.

(** Executions whose every event satisfies [P] where it happens. *)
Inductive run (P : refresher → event → Prop) : refresher → list event → refresher → Prop :=
| run_nil c : run P c [] c
| run_cons c e c1 es c2 : P c e → step c e c1 → run P c1 es c2 → run P c (e :: es) c2.
Definition any_event (_ : refresher) (_ : event) : Prop := True.
Definition idle : refresher := {| slots := ∅; queue := []; running := [] |}.

(** ** What a dispatch sends *)

Record sent (now : Z) (before after : slots_map) (j : refreshJob) (s : refreshSlot) : Prop := {
  sent_before : before !! job_key j = Some s;
  sent_inactive : sl_active s = false;
  sent_due : sl_next s ≤ now;
  sent_target : sl_target s = Some (job_pool j, job_source j);
  sent_fingerprint : sl_fingerprint s = job_fingerprint j;
  sent_after : after !! job_key j = Some (dispatched now (job_key j) (job_pool j) s);
}.
(** A slot that a dispatch must send. *)
Definition due (now : Z) (s : refreshSlot) : Prop := sl_active s = false ∧ sl_next s ≤ now ∧ is_Some (sl_target s).
Record dispatches (now : Z) (room : nat) (keys : list string) (before after : slots_map) (jobs : list refreshJob) : Prop := {
  di_nodup : NoDup (job_key <$> jobs);
  di_room : (length jobs ≤ room)%nat;
  di_keys : ∀ k, k ∈ job_key <$> jobs → k ∈ keys;
  di_sent : ∀ j, j ∈ jobs → ∃ s, sent now before after j s;
  di_kept : ∀ k, k ∉ job_key <$> jobs → after !! k = before !! k;
  di_all : length jobs = room ∨ ∀ k s, k ∈ keys → before !! k = Some s → due now s → k ∈ job_key <$> jobs;
}.
Lemma dispatches_skip now room key keys before after jobs : (∀ s, before !! key = Some s → ¬ due now s) →
  dispatches now room keys before after jobs → dispatches now room (key :: keys) before after jobs.
Proof.
  intros Hpass [H1 H2 H3 H4 H5 H6]. split; try done; [intros k Hk; right; by apply H3|]. destruct H6 as [?|H6]; [by left|right].
  intros k s [-> |Hk]%elem_of_cons Hs Hd; [|by eapply H6]. by destruct (Hpass s Hs).
Qed.
Lemma dispatches_send now room key keys before after jobs s pool d : key ∉ keys → before !! key = Some s → sl_active s = false → sl_next s ≤ now →
  sl_target s = Some (pool, d) → dispatches now room keys (<[key := dispatched now key pool s]> before) after jobs →
  dispatches now (S room) (key :: keys) before after
    ({| job_pool := pool; job_source := d; job_key := key; job_fingerprint := sl_fingerprint s |} :: jobs).
Proof.
  intros Hkey Hs Ha Hd Ht [H1 H2 H3 H4 H5 H6]. set (j := {| job_key := key |}).
  assert (key ∉ job_key <$> jobs) as Hfresh by (intros Hk; by apply Hkey, H3).
  split; simpl.
  - by constructor.
  - lia.
  - intros k [-> |Hk]%elem_of_cons; [by left|right; by apply H3].
  - intros j' [-> |Hj]%elem_of_cons.
    + exists s. split; try done. simpl. by rewrite H5, lookup_insert_eq by done.
    + destruct (H4 j' Hj) as [s' [Hb ? ? ? ? ?]]. exists s'. split; try done. rewrite lookup_insert_ne in Hb; [done|].
      intros E. apply Hfresh. rewrite E. by apply list_elem_of_fmap_2.
  - intros k [Hne Hk]%not_elem_of_cons. rewrite H5 by done. by rewrite lookup_insert_ne.
  - destruct H6 as [?|H6]; [left; congruence|right]. intros k s' [-> |Hk]%elem_of_cons Hs' Hd'; [by left|right]. eapply H6; try done.
    rewrite lookup_insert_ne; [done|]. intros <-. done.
Qed.
Lemma dispatch_loop_spec now room keys before after jobs : NoDup keys → dispatch_loop now room keys before = (after, jobs) →
  dispatches now room keys before after jobs.
Proof.
  revert room before after jobs. induction keys as [|key keys IH]; intros room before after jobs Hnd; cbn [dispatch_loop].
  { intros [= <- <-]. split; [constructor|simpl; lia|done|by intros j ?%elem_of_nil|done|]. right. by intros k s ?%elem_of_nil. }
  apply NoDup_cons in Hnd as [Hkey Hnd].
  destruct (before !! key) as [s|] eqn:Es; [|intros; apply dispatches_skip; [congruence|by apply IH]].
  destruct (sl_target s) as [[pool d]|] eqn:Et.
  2: { intros. apply dispatches_skip; [|by apply IH]. intros s' Hs' (_ & _ & [t ?]). congruence. }
  destruct (sl_active s || (now <? sl_next s)) eqn:Eg.
  { intros. apply dispatches_skip; [|by apply IH]. intros s' Hs' (Ha & Hn & _). assert (s' = s) as -> by congruence.
    rewrite Ha in Eg. simpl in Eg. bool_to_prop. lia. }
  bool_to_prop. destruct room as [|room].
  - intros [= <- <-]. split; [constructor|simpl; lia|by intros k ?%elem_of_nil|by intros j ?%elem_of_nil|done|by left].
  - destruct (dispatch_loop now room keys _) as [after' jobs'] eqn:El. intros [= -> <-]. by apply dispatches_send, IH.
Qed.
Lemma dispatch_slots_spec now room before after jobs : dispatch_slots now room before = (after, jobs) →
  ∃ keys, (∀ k, is_Some (before !! k) → k ∈ keys) ∧ dispatches now room keys before after jobs.
Proof.
  intros H. eexists. split; [|eapply dispatch_loop_spec; [|exact H]].
  - intros k [s Hs]. rewrite go_sort_elem_of. apply list_elem_of_fmap. exists (k, s). by rewrite elem_of_map_to_list.
  - rewrite go_sort_perm. apply NoDup_fst_map_to_list.
Qed.

(** ** At most one job per source *)

(** Slots are dropped only while no job of theirs is out. *)
Definition drops_idle (c : refresher) (e : event) : Prop :=
  match e with EvDrop key => ∀ s, slots c !! key = Some s → sl_active s = false | _ => True end.
Definition slot_active (m : slots_map) (j : refreshJob) : Prop := ∃ s, m !! job_key j = Some s ∧ sl_active s = true.
Record tracked (c : refresher) : Prop := {
  tr_one : NoDup (job_key <$> outstanding c);
  tr_active : Forall (slot_active (slots c)) (outstanding c);
}.

Lemma enqueue_slot_active now pool d key fp found m j : slot_active m j → slot_active (enqueue_slot now pool d key fp found m) j.
Proof.
  intros (s & Hs & Ha). unfold enqueue_slot, slot_active. destruct (decide (job_key j = key)) as [<- |Hne].
  - rewrite lookup_insert_eq, Hs. eexists. split; [done|]. by case_bool_decide.
  - rewrite lookup_insert_ne by done. eauto.
Qed.
Lemma report_active now job failed changed m j : slot_active m j → slot_active (report now job failed changed m) j.
Proof.
  intros (s & Hs & Ha). unfold report, slot_active. destruct (m !! job_key job) as [s'|] eqn:E; [|eauto]. case_bool_decide; [|eauto].
  destruct (decide (job_key j = job_key job)) as [Hk|Hne]; [rewrite Hk in *; rewrite lookup_insert_eq|rewrite lookup_insert_ne by done; eauto].
  eexists. split; [done|]. simpl. congruence.
Qed.
Lemma release_other now job m k : k ≠ job_key job → release now job m !! k = m !! k.
Proof. intros Hk. unfold release. destruct (m !! job_key job); [|done]. by rewrite lookup_insert_ne. Qed.

Lemma tracked_step c e c' : tracked c → drops_idle c e → step c e c' → tracked c'.
Proof.
  intros [Hone Hact] Hdrop Hs. destruct Hs as [c now pool d key fp found|c key|c now room slots' jobs Hroom Hd|c job rest Hq Hw|c now job failed changed Hin|c now job before after Hr];
    unfold outstanding in *; simpl in *.
  - split; [done|]. eapply Forall_impl; [done|]. intros j. apply enqueue_slot_active.
  - split; [done|]. eapply Forall_impl; [done|]. intros j (s & Hs & Ha). exists s. split; [|done]. simpl. rewrite lookup_delete_ne; [done|].
    intros ->. by rewrite (Hdrop s Hs) in Ha.
  - apply dispatch_slots_spec in Hd as (keys & _ & Hd). destruct Hd as [H1 _ _ H4 H5 _].
    assert (∀ j k, j ∈ outstanding c → k ∈ jobs → job_key j ≠ job_key k) as Hnew.
    { intros j k Hj Hk E. rewrite Forall_forall in Hact. destruct (Hact j Hj) as (s & Hs & Ha). destruct (H4 k Hk) as [s' [Hb Hi _ _ _ _]].
      rewrite E in Hs. congruence. }
    assert ((queue c ++ jobs) ++ running c ≡ₚ outstanding c ++ jobs) as Hp by (unfold outstanding; solve_Permutation).
    split; unfold outstanding; simpl; rewrite Hp.
    + rewrite fmap_app. apply NoDup_app. split_and!; [done| |done]. intros k (j & -> & Hj)%list_elem_of_fmap (j' & E & Hj')%list_elem_of_fmap. by eapply Hnew.
    + apply Forall_app. split; apply Forall_forall; intros j Hj.
      * rewrite Forall_forall in Hact. destruct (Hact j Hj) as (s & Hs & Ha). exists s. split; [|done]. simpl. rewrite H5; [done|].
        intros (j' & E & Hj')%list_elem_of_fmap. by eapply Hnew.
      * destruct (H4 j Hj) as [s' [_ _ _ _ _ Ha]]. by eexists.
  - assert (rest ++ running c ++ [job] ≡ₚ queue c ++ running c) as Hp by (rewrite Hq; solve_Permutation).
    split; unfold outstanding; simpl; by rewrite Hp.
  - split; [done|]. eapply Forall_impl; [done|]. intros j. apply report_active.
  - assert (queue c ++ running c ≡ₚ job :: queue c ++ before ++ after) as Hp by (rewrite Hr; solve_Permutation).
    rewrite Hp in Hone, Hact. rewrite fmap_cons in Hone. apply NoDup_cons in Hone as [Hj Hone]. apply Forall_cons in Hact as [_ Hact].
    split; [done|]. apply Forall_forall. intros j Hin. rewrite Forall_forall in Hact. destruct (Hact j Hin) as (s & Hs & Ha). exists s.
    split; [|done]. simpl. rewrite release_other; [done|]. intros E. apply Hj. rewrite <-E. by apply list_elem_of_fmap_2.
Qed.

Definition within_budget (c : refresher) : Prop :=
  (length (running c) ≤ maxHTTPRefreshWorkers)%nat ∧ (length (outstanding c) ≤ 2 * maxHTTPRefreshWorkers)%nat.
Lemma within_budget_step c e c' : within_budget c → step c e c' → within_budget c'.
Proof.
  intros [Hr Ho] Hs. unfold within_budget, outstanding in *.
  destruct Hs as [c now pool d key fp found|c key|c now room slots' jobs Hroom Hd|c job rest Hq Hw|c now job failed changed Hin|c now job before after Hb]; simpl in *; try done.
  - apply dispatch_slots_spec in Hd as (keys & _ & Hd). pose proof (di_room _ _ _ _ _ _ Hd). unfold outstanding in Hroom.
    rewrite !length_app in *. lia.
  - rewrite Hq in Ho. simpl in Ho. rewrite !length_app in *. simpl. lia.
  - rewrite Hb in *. rewrite !length_app in *. simpl in *. lia.
Qed.
Lemma run_invariant (P : refresher → event → Prop) (I : refresher → Prop) c es c' :
  (∀ c e c', I c → P c e → step c e c' → I c') → I c → run P c es c' → I c'.
Proof. intros Hstep Hc. induction 1; eauto. Qed.
Lemma idle_tracked : tracked idle ∧ within_budget idle.
Proof. split; [split; constructor|]. unfold within_budget, maxHTTPRefreshWorkers. simpl. lia. Qed.

(** C24: Refreshes are bounded, in every interleaving of the dispatcher and the
    workers: never more than four jobs run and never more than eight are
    out.  As long as slots are removed only while no job of theirs is out, no
    source has two jobs out at once, and the slot of every job that is out is
    marked active. *)
Theorem refresh_jobs_bounded es c : run any_event idle es c →
  (length (running c) ≤ 4)%nat ∧ (length (outstanding c) ≤ 8)%nat ∧
  (run drops_idle idle es c → NoDup (job_key <$> outstanding c) ∧ Forall (slot_active (slots c)) (outstanding c)).
Proof.
  intros Hrun. destruct idle_tracked as [Ht Hw].
  assert (within_budget c) as [? ?] by (eapply run_invariant; [|exact Hw|exact Hrun]; intros; by eapply within_budget_step).
  split_and!; [done|done|]. intros Hd. assert (tracked c) as []; [|done].
  eapply run_invariant; [|exact Ht|exact Hd]. intros. by eapply tracked_step.
Qed.

(** ** How often a source is refreshed *)

(** Nothing happened to the slot that would make it due early: it was not
    removed, and its configuration did not change. *)
Definition undisturbed (key : string) (c : refresher) (e : event) : Prop :=
  match e with
  | EvDrop k => k ≠ key
  | EvEnqueue _ _ _ k fp _ => k = key → ∃ s, slots c !! key = Some s ∧ sl_fingerprint s = fp
  | _ => True
  end.

Lemma spread_nonneg key window : 0 ≤ window → 0 ≤ spread key window.
Proof. intros Hw. unfold spread. apply Z.div_pos; [|lia]. apply Z.mod_pos_bound. lia. Qed.
Lemma interval_bounds pool : 30 * second ≤ interval_of pool ≤ 24 * hour.
Proof. unfold interval_of, refreshInterval. destruct (_ || _) eqn:E; [unfold hour, minute, second; lia|]. bool_to_prop. lia. Qed.
Lemma period_bounds key pool : interval_of pool ≤ period key pool.
Proof.
  unfold period. pose proof (interval_bounds pool). assert (0 ≤ spread key (interval_of pool / 10)); [|lia].
  apply spread_nonneg, Z.div_pos; [|lia]. unfold second in *. lia.
Qed.
(** The slot is kept: not due earlier, with the same configuration, and still
    with something to refresh. *)
Definition kept_slot (s s' : refreshSlot) : Prop :=
  sl_next s ≤ sl_next s' ∧ sl_fingerprint s' = sl_fingerprint s ∧ (is_Some (sl_target s) → is_Some (sl_target s')).
Lemma kept_slot_refl s : kept_slot s s.
Proof. done. Qed.
#[local] Hint Resolve kept_slot_refl : core.
Lemma undisturbed_step key c e c' s : undisturbed key c e → step c e c' → slots c !! key = Some s →
  ∃ s', slots c' !! key = Some s' ∧ kept_slot s s'.
Proof.
  intros Hu Hs Hk. destruct Hs as [c now pool d k fp found|c k|c now room slots' jobs Hroom Hd|c job rest Hq Hw|c now job failed changed Hin|c now job before after Hr];
    simpl in *; [| | |by eauto| |].
  - unfold enqueue_slot. destruct (decide (k = key)) as [-> |Hne].
    + destruct (Hu eq_refl) as (s' & Hs' & <-). rewrite lookup_insert_eq, Hk. rewrite bool_decide_false by (intros Hne; congruence).
      eexists. split; [done|]. split_and!; [done|done|by eexists].
    + rewrite lookup_insert_ne by done. eauto.
  - rewrite lookup_delete_ne by done. eauto.
  - apply dispatch_slots_spec in Hd as (keys & _ & [_ _ _ H4 H5 _]). destruct (decide (key ∈ job_key <$> jobs)) as [Hin|Hout].
    + apply list_elem_of_fmap in Hin as (j & -> & Hj). destruct (H4 j Hj) as [s' [Hb _ Hd _ _ Ha]]. eexists. split; [done|].
      assert (s' = s) as -> by congruence. pose proof (period_bounds (job_key j) (job_pool j)). pose proof (interval_bounds (job_pool j)).
      unfold second in *. split_and!; simpl; [lia|done|done].
    + rewrite H5 by done. eauto.
  - unfold report. destruct (slots c !! job_key job) as [s'|] eqn:E; [|eauto]. case_bool_decide; [|eauto].
    destruct (decide (job_key job = key)) as [<- |Hne]; [rewrite lookup_insert_eq|rewrite lookup_insert_ne by done; eauto].
    eexists. split; [done|]. assert (s' = s) as -> by congruence. done.
  - unfold release. destruct (slots c !! job_key job) as [s'|] eqn:E; [|eauto].
    destruct (decide (job_key job = key)) as [<- |Hne]; [rewrite lookup_insert_eq|rewrite lookup_insert_ne by done; eauto].
    eexists. split; [done|]. assert (s' = s) as -> by congruence. split_and!; simpl; [|done|done].
    destruct (sl_target s) as [[]|]; [case_bool_decide|]; lia.
Qed.
Lemma undisturbed_run key c es c' s : run (undisturbed key) c es c' → slots c !! key = Some s →
  ∃ s', slots c' !! key = Some s' ∧ kept_slot s s'.
Proof.
  intros Hrun. revert s. induction Hrun as [c|c e c1 es c2 Hu Hs _ IH]; intros s Hk; [by exists s|].
  destruct (undisturbed_step _ _ _ _ _ Hu Hs Hk) as (s1 & H1 & A1 & A2 & A3). destruct (IH s1 H1) as (s2 & H2 & B1 & B2 & B3). exists s2.
  split; [done|]. split_and!; [lia|congruence|auto].
Qed.
Lemma dispatch_sent c t jobs c' j : step c (EvDispatch t jobs) c' → j ∈ jobs → ∃ s, sent t (slots c) (slots c') j s.
Proof.
  intros H Hj. inversion H as [| |? ? room slots1 ? _ Hd| | |]; subst. apply dispatch_slots_spec in Hd as (? & _ & Hd). by apply (di_sent _ _ _ _ _ _ Hd).
Qed.

(** C25: A source is refreshed at most once per interval, and not again right
    after a refresh that was late.  If a job of a source is dispatched at
    [t1] and its refresh ends at [te], and another job of the source is
    dispatched at [t2], the slot being neither removed nor given another
    configuration in between, then [t2] is at least the refresh interval
    after [t1] and at least the refresh interval after [te], however long the
    job waited in the queue or took; the interval is that of the pool the
    slot names when the job ends, and never less than thirty seconds. *)
Theorem refresh_rate_limited c1 t1 jobs1 c2 es c3 te c4 es' c5 t2 jobs2 c6 j1 j2 :
  step c1 (EvDispatch t1 jobs1) c2 → j1 ∈ jobs1 → run (undisturbed (job_key j1)) c2 es c3 → step c3 (EvRelease te j1) c4 →
  run (undisturbed (job_key j1)) c4 es' c5 → step c5 (EvDispatch t2 jobs2) c6 → j2 ∈ jobs2 → job_key j2 = job_key j1 →
  t1 + interval_of (job_pool j1) ≤ t2 ∧
  ∃ s pool d, slots c3 !! job_key j1 = Some s ∧ sl_target s = Some (pool, d) ∧
    te + interval_of pool ≤ t2 ∧ 30 * second ≤ interval_of pool.
Proof.
  intros H1 Hj1 Hrun1 Hrel Hrun2 H2 Hj2 Hk.
  destruct (dispatch_sent _ _ _ _ _ H1 Hj1) as [s1 S1]. destruct (dispatch_sent _ _ _ _ _ H2 Hj2) as [s2 S2].
  destruct (undisturbed_run _ _ _ _ _ Hrun1 (sent_after _ _ _ _ _ S1)) as (s3 & H3 & Hn3 & Hf3 & Ht3).
  simpl in Hn3, Hf3. destruct Ht3 as [[pool d] Ht3]; [simpl; rewrite (sent_target _ _ _ _ _ S1); by eexists|].
  inversion Hrel as [| | | | |? ? ? before after Hr]; subst.
  assert (release te j1 (slots c3) !! job_key j1 = Some {| sl_fingerprint := sl_fingerprint s3; sl_next := Z.max (sl_next s3) (te + period (job_key j1) pool);
    sl_active := false; sl_failure := sl_failure s3; sl_lastChange := sl_lastChange s3; sl_target := sl_target s3 |}) as H4.
  { unfold release. rewrite H3, Ht3, bool_decide_true, lookup_insert_eq; [done|]. rewrite Hf3. apply S1. }
  destruct (undisturbed_run _ _ _ _ _ Hrun2 H4) as (s5 & H5 & Hn5 & _).
  pose proof (sent_before _ _ _ _ _ S2) as Hb. rewrite Hk, H5 in Hb. injection Hb as ->.
  pose proof (sent_due _ _ _ _ _ S2). pose proof (period_bounds (job_key j1) (job_pool j1)). pose proof (interval_bounds (job_pool j1)).
  pose proof (period_bounds (job_key j1) pool). pose proof (interval_bounds pool). simpl in Hn5.
  split; [lia|]. exists s3, pool, d. split_and!; [done|done|lia|lia].
Qed.

(** ** The operations as steps *)

Lemma run_app P c es c' es' c'' : run P c es c' → run P c' es' c'' → run P c (es ++ es') c''.
Proof. induction 1; [done|]. intros. econstructor; eauto. Qed.
Section as_steps.
Context {digest : Digest} {order : MapOrder} {urls : UrlParser} (api : nat → cluster) (q r : list refreshJob).
#[local] Abbreviation at_ m := {| slots := m; queue := q; running := r |}.
(** The slots change by steps of the dispatcher. *)
Definition by_steps (m m' : slots_map) : Prop := ∃ es, run any_event (at_ m) es (at_ m').
Lemma by_steps_refl m : by_steps m m.
Proof. exists []. constructor. Qed.
Lemma by_steps_trans m1 m2 m3 : by_steps m1 m2 → by_steps m2 m3 → by_steps m1 m3.
Proof. intros [e1 H1] [e2 H2]. exists (e1 ++ e2). by eapply run_app. Qed.
Lemma by_steps_one m e m' : step (at_ m) e (at_ m') → by_steps m m'.
Proof. intros H. exists [e]. econstructor; [done|exact H|constructor]. Qed.
Lemma by_steps_delete keys m : by_steps m (foldr delete m keys).
Proof.
  induction keys as [|k keys IH]; simpl; [apply by_steps_refl|]. eapply by_steps_trans; [exact IH|]. eapply by_steps_one.
  apply (step_drop (at_ (foldr delete m keys)) k).
Qed.
Lemma by_steps_filter (P : string * refreshSlot → Prop) `{∀ x, base.Decision (P x)} m : by_steps m (filter P m).
Proof.
  assert (filter P m = foldr delete m (map_to_list (filter (λ kv, ¬ P kv) m)).*1) as ->; [|apply by_steps_delete].
  apply map_eq. intros k.
  assert (∀ keys, foldr delete m keys !! k = if decide (k ∈ keys) then None else m !! k) as ->.
  { intros keys. induction keys as [|x keys IH]; cbn [foldr]; [by destruct (decide (k ∈ [])) as [?%elem_of_nil|]|].
    destruct (decide (x = k)) as [-> |Hne]; [rewrite lookup_delete_eq, decide_True by (by left); done|].
    rewrite lookup_delete_ne by done. rewrite IH. destruct (decide (k ∈ keys)); [by rewrite decide_True by (by right)|].
    rewrite decide_False; [done|]. rewrite elem_of_cons. naive_solver. }
  destruct (m !! k) as [s|] eqn:Es.
  - destruct (decide (P (k, s))) as [HP|HP].
    + rewrite (proj2 (map_lookup_filter_Some _ _ _ _)) by done. rewrite decide_False; [done|].
      intros ([k' s'] & -> & Hin)%list_elem_of_fmap. apply elem_of_map_to_list, map_lookup_filter_Some in Hin as [Hs Hn]. simpl in *. congruence.
    + rewrite (proj2 (map_lookup_filter_None _ _ _)) by (right; intros s' Hs'; congruence). rewrite decide_True; [done|].
      apply list_elem_of_fmap. exists (k, s). split; [done|]. by apply elem_of_map_to_list, map_lookup_filter_Some.
  - rewrite (proj2 (map_lookup_filter_None _ _ _)) by (by left). by destruct (decide _).
Qed.
Lemma enqueue_source_steps now pool d m w m' w' : enqueue_source api now pool d m w = (Ok m', w') → by_steps m m'.
Proof.
  unfold enqueue_source. destruct (ss_http d); [|intros H; m_inv; apply by_steps_refl]. intros H. m_inv.
  rename select (option HTTPConfig) into oc. destruct oc as [c|]; [|m_inv; apply by_steps_refl].
  destruct (m !! Key c); m_inv; (eapply by_steps_one; apply (step_enqueue (at_ m))).
Qed.
Lemma enqueue_steps now pool m w m' w' : enqueue api now pool m w = (Ok m', w') → by_steps m m'.
Proof.
  unfold enqueue. generalize (Sources pool) as l. intros l. revert m w.
  induction l as [|d l IH]; intros m w H; cbn [enqueue_sources] in H; m_inv; [apply by_steps_refl|].
  eapply by_steps_trans; [by eapply enqueue_source_steps|by eapply IH].
Qed.
Lemma enqueue_pools_steps now pools m w m' w' : enqueue_pools api now pools m w = (Ok m', w') → by_steps m m'.
Proof.
  revert m w. induction pools as [|p pools IH]; intros m w H; cbn [enqueue_pools] in H; m_inv; [apply by_steps_refl|].
  eapply by_steps_trans; [by eapply enqueue_steps|by eapply IH].
Qed.
(** A scan and an inspection only take such steps. *)
Lemma scan_steps now pools m w m' w' : scan api now pools m w = (Ok m', w') → by_steps m m'.
Proof.
  unfold scan. destruct pools as [pools|]; intros H; m_inv; [|apply by_steps_refl].
  eapply by_steps_trans; [by eapply enqueue_pools_steps|apply by_steps_filter].
Qed.
Lemma inspect_steps now name m w m' w' : inspect api now name m w = (Ok m', w') → by_steps m m'.
Proof.
  unfold inspect. intros H. m_inv. rename select (answer ProxyPool) into a. destruct a as [pool| |]; m_inv.
  - eapply by_steps_trans; [by eapply enqueue_steps|apply by_steps_filter].
  - apply by_steps_filter.
  - apply by_steps_refl.
Qed.
End as_steps.

(** ** A slot that is dropped under a running job *)

Lemma dispatch_single now room key s pool d : sl_active s = false → sl_next s ≤ now → sl_target s = Some (pool, d) →
  dispatch_slots now (S room) {[key := s]} =
  ({[key := dispatched now key pool s]}, [{| job_pool := pool; job_source := d; job_key := key; job_fingerprint := sl_fingerprint s |}]).
Proof.
  intros Ha Hn Ht. unfold dispatch_slots. rewrite map_to_list_singleton. cbn [fmap list_fmap fst go_sort sort_insert foldr dispatch_loop].
  rewrite lookup_singleton_eq, Ht, Ha. cbn [orb]. rewrite (proj2 (Z.ltb_ge _ _)) by done. by rewrite insert_singleton_eq.
Qed.
(** Removing a source and adding it again while its job runs lets a second
    job of the same source start. *)
Theorem dropped_slot_doubles_jobs (pool : ProxyPool) (d : SubscriptionSource) (key fp : string) : ∃ es c, run any_event idle es c ∧ job_key <$> running c = [key; key].
Proof.
  set (t1 := first_due 0 key pool None). set (s1 := with_target (pool, d) (new_slot fp t1)).
  set (t2 := first_due t1 key pool None). set (s2 := with_target (pool, d) (new_slot fp t2)).
  set (job := {| job_pool := pool; job_source := d; job_key := key; job_fingerprint := fp |}).
  assert (enqueue_slot 0 pool d key fp None ∅ = {[key := s1]}) as E1 by (unfold enqueue_slot; by rewrite lookup_empty).
  assert (enqueue_slot t1 pool d key fp None ∅ = {[key := s2]}) as E2 by (unfold enqueue_slot; by rewrite lookup_empty).
  exists [EvEnqueue 0 pool d key fp None; EvDispatch t1 [job]; EvTake; EvDrop key; EvEnqueue t1 pool d key fp None; EvDispatch t2 [job]; EvTake].
  eexists. split; [|].
  - econstructor; [done|apply step_enqueue|]. cbn [slots queue running idle]. rewrite E1.
    econstructor; [done|eapply (step_dispatch _ _ 1); [|by apply dispatch_single]; unfold maxHTTPRefreshWorkers; simpl; lia|].
    econstructor; [done|by eapply step_take; [done|unfold maxHTTPRefreshWorkers; simpl; lia]|].
    econstructor; [done|apply step_drop|]. cbn [slots queue running]. rewrite delete_singleton_eq.
    econstructor; [done|apply step_enqueue|]. cbn [slots queue running]. rewrite E2.
    econstructor; [done|eapply (step_dispatch _ _ 1); [|by apply dispatch_single]; unfold maxHTTPRefreshWorkers; simpl; lia|].
    econstructor; [done|by eapply step_take; [done|unfold maxHTTPRefreshWorkers; simpl; lia]|]. constructor.
  - done.
Qed.

(** ** Concrete executions *)

Module RefresherSample.
Import PoolSample.
Definition key : string := "u/feed".
Definition t1 : Z := first_due 0 key pool None.
Definition slot0 : refreshSlot := with_target (pool, feed_source) (new_slot "f" t1).
Definition job : refreshJob := {| job_pool := pool; job_source := feed_source; job_key := key; job_fingerprint := "f" |}.
Definition slot1 : refreshSlot := dispatched t1 key pool slot0.
Definition ready : refresher := {| slots := {[key := slot0]}; queue := []; running := [] |}.
Definition busy : refresher := {| slots := {[key := slot1]}; queue := [job]; running := [] |}.
Lemma gets_ready : run any_event idle [EvEnqueue 0 pool feed_source key "f" None] ready.
Proof.
  econstructor; [exact I| |constructor]. assert (enqueue_slot 0 pool feed_source key "f" None ∅ = {[key := slot0]}) as E by (unfold enqueue_slot; by rewrite lookup_empty).
  pose proof (step_enqueue idle 0 pool feed_source key "f" None) as H. cbn [slots queue running idle] in H. rewrite E in H. exact H.
Qed.
Lemma gets_busy : step ready (EvDispatch t1 [job]) busy.
Proof.
  apply (step_dispatch ready t1 1 {[key := slot1]} [job]); [unfold maxHTTPRefreshWorkers; simpl; lia|]. by apply dispatch_single.
Qed.
Lemma refresh_jobs_bounded_witness : (length (running busy) ≤ 4)%nat ∧ job_key <$> outstanding busy = [key].
Proof.
  assert (run any_event idle [EvEnqueue 0 pool feed_source key "f" None; EvDispatch t1 [job]] busy) as H.
  { apply (run_app _ _ _ ready _ _ gets_ready). econstructor; [exact I|exact gets_busy|constructor]. }
  destruct (refresh_jobs_bounded _ _ H) as (H4 & _ & _). split; [exact H4|reflexivity].
Defined.

(** The job waits a while and then runs; the next one is due a period after
    its end. *)
Definition te : Z := t1 + 90 * minute.
Definition t2 : Z := te + period key pool.
Definition slot2 : refreshSlot :=
  {| sl_fingerprint := "f"; sl_next := Z.max (t1 + period key pool) t2; sl_active := false; sl_failure := ""; sl_lastChange := 0; sl_target := Some (pool, feed_source) |}.
Definition waiting : refresher := {| slots := {[key := slot1]}; queue := []; running := [job] |}.
Definition done_ : refresher := {| slots := {[key := slot2]}; queue := []; running := [] |}.
Lemma gets_running : run (undisturbed key) busy [EvTake] waiting.
Proof. econstructor; [exact I|eapply (step_take busy job []); [reflexivity|unfold maxHTTPRefreshWorkers; simpl; lia]|constructor]. Qed.
Lemma gets_done : step waiting (EvRelease te job) done_.
Proof.
  assert (release te job {[key := slot1]} = {[key := slot2]}) as E.
  { unfold release. cbn [job_key job]. rewrite lookup_singleton_eq. by rewrite insert_singleton_eq. }
  pose proof (step_release waiting te job [] [] eq_refl) as H. cbn [slots queue running app waiting] in H. rewrite E in H. exact H.
Qed.
Definition slot3 : refreshSlot := dispatched t2 key pool slot2.
Lemma again : step done_ (EvDispatch t2 [job]) {| slots := {[key := slot3]}; queue := [job]; running := [] |}.
Proof.
  apply (step_dispatch done_ t2 1 {[key := slot3]} [job]); [unfold maxHTTPRefreshWorkers; simpl; lia|]. apply dispatch_single; [done| |done].
  cbn [sl_next slot2]. apply Z.eq_le_incl. vm_compute. reflexivity.
Qed.
Lemma refresh_rate_limited_witness : te + interval_of pool ≤ t2 ∧ t1 + interval_of pool < te.
Proof.
  assert (job ∈ [job]) as Hj by (apply list_elem_of_singleton; reflexivity).
  destruct (refresh_rate_limited _ _ _ _ _ _ _ _ _ _ _ _ _ job job gets_busy Hj gets_running gets_done (run_nil _ _) again Hj eq_refl)
    as (_ & s & p & d & Hs & Ht & H & _).
  split; [|vm_compute; reflexivity].
  cbn [slots waiting job_key job] in Hs. rewrite lookup_singleton_eq in Hs. injection Hs as <-. injection Ht as <- _. exact H.
Defined.
End RefresherSample.
