(* ===== verification/Profiles.v ===== *)
(** * Profiles and probe contexts (internal/operator/profiles.go, pipeline.go)

    A gateway names a profile of its pool; the profile's probe target is read
    from a Secret, and the probe context that evidence is filed under is
    derived from it. *)
From S2P Require Import Prelude Order Bytes Encoding Netip Endpoint Artifact Observation Selection Scheduling.
From S2P Require Import Text Url NetipPrint Target SnapshotGuard Pool.
From Stdlib Require Import Ascii.
From Stdlib Require String.
Open Scope Z_scope.

Inductive pipeline_error := PipelineError (code : string).
Definition pipelineFailure {A} (code : string) : result pipeline_error A := Err (PipelineError code).

(** ** Profiles *)

Definition validProfileName (name : string) : bool :=
  match chars name with
  | [] => false
  | c :: rest =>
      (slen name <=? 63) && is_lower c && negb (Address.has_suffix "-" name) &&
      forallb (λ c, is_lower c || is_digit c || Ascii.eqb c "-") rest
  end.
Definition strategies : list string := [""; "Adaptive"; "Static"; "LowestLatency"].
(** The checks of one profile of the loop. *)
Definition profile_ok (p : TargetProfile) : bool :=
  validProfileName (tp_name p) && negb (bool_decide (tp_name p = "default")) &&
  negb (bool_decide (ref_name (TargetSecretRef (tp_probe p)) = "") || bool_decide (ref_key (TargetSecretRef (tp_probe p)) = "") ||
        (se_topN (tp_selection p) <? 0) || (10000 <? se_topN (tp_selection p)) ||
        negb (bool_decide (se_strategy (tp_selection p) ∈ strategies))).
Fixpoint find_profile (name : string) (seen : list string) (selected : option TargetProfile) (l : list TargetProfile)
    : result pipeline_error (option TargetProfile) :=
  match l with
  | [] => Ok selected
  | p :: rest =>
      if negb (profile_ok p) || bool_decide (tp_name p ∈ seen) then pipelineFailure "profile_invalid"
      else find_profile name (tp_name p :: seen) (if bool_decide (tp_name p = name) then Some p else selected) rest
  end.
Definition ResolveProfile (pool : ProxyPool) (name : string) : result pipeline_error (ProbeSpec * SelectionSpec) :=
  if 8 <? Z.of_nat (length (Profiles pool)) then pipelineFailure "profile_invalid" else
  let name := if bool_decide (name = "") then "default" else name in
  if negb (bool_decide (name = "default")) && negb (validProfileName name) then pipelineFailure "profile_invalid" else
  selected ← find_profile name [] None (Profiles pool);
  match selected with
  | Some p => Ok (tp_probe p, tp_selection p)
  | None => if bool_decide (name = "default") then Ok (Probe pool, pp_selection pool) else pipelineFailure "profile_missing"
  end.

Definition selectionStrategy (value : string) : Strategy :=
  if bool_decide (value = "Static") then StrategyStatic
  else if bool_decide (value = "LowestLatency") then StrategyLowestLatency else StrategyAdaptive.

(** ** Targets *)

Definition named (profileName : string) : bool := negb (bool_decide (profileName = "")) && negb (bool_decide (profileName = "default")).
(** The loop over the profile statuses; 0 when there is none. *)
Definition profile_epoch (pool : ProxyPool) (profileName : string) : Z :=
  match List.find (λ s, bool_decide (pf_name s = profileName)) (pp_profiles (pp_status pool)) with
  | Some s => FirstObservedGeneration s
  | None => 0
  end.
Definition incarnation (profileName : string) (epoch : Z) : string := profileName +:+ "/" +:+ itoa epoch.
Definition hex_bytes (s : string) : string := hex_encode (code <$> chars s).
Definition format_bool (b : bool) : string := if b then "true" else "false".
Definition permission_salt (spec : ProbeSpec) : string :=
  "m9-probe-permissions/http=" +:+ format_bool (pb_allowHTTP spec) +:+ "/private-target=" +:+ format_bool (AllowPrivateTargets spec) +:+
  "/private-endpoint=" +:+ format_bool (AllowPrivateEndpoints spec).

Section target.
Context `{Digest}.
Definition profile_suffix (profileName : string) (epoch : Z) : string :=
  "profile-" +:+ hex_bytes (take_first 12 (sha256 (incarnation profileName epoch))).
Definition target_suffix (pool : ProxyPool) (profileName : string) : result pipeline_error string :=
  if named profileName then
    if negb (pp_observedGeneration (pp_status pool) =? pp_generation pool) then pipelineFailure "profile_pending"
    else if profile_epoch pool profileName <=? 0 then pipelineFailure "profile_pending"
    else Ok (profile_suffix profileName (profile_epoch pool profileName))
  else Ok "probe".
(** [Pipeline.target]; [a] is the answer to its read of the Secret. *)
Definition target (pool : ProxyPool) (profileName : string) (spec : ProbeSpec) (a : answer Secret)
    : result pipeline_error (HTTPTarget * NamespacedName * ResourceRevision) :=
  let ref := TargetSecretRef spec in
  let name := {| nn_namespace := pp_namespace pool; nn_name := ref_name ref |} in
  match a with
  | Found s =>
      match secret_data s !! ref_key ref with
      | None => pipelineFailure "target_key_missing"
      | Some raw =>
          suffix ← target_suffix pool profileName;
          match NewTargetID ("k8s-" +:+ pp_uid pool +:+ "-" +:+ suffix) with
          | None => pipelineFailure "target_id"
          | Some id =>
              let timeout := default 0 (pb_timeout spec) in
              let timeout := if timeout =? 0 then 5 * second else timeout in
              let expected := if ExpectedStatus spec =? 0 then 204 else ExpectedStatus spec in
              let options := {| to_allowHTTP := pb_allowHTTP spec; to_allowPrivate := AllowPrivateTargets spec;
                                RevisionSalt := if named profileName then permission_salt spec else ""; to_maxResponseBytes := 0 |} in
              match NewHTTPTarget id raw expected timeout options with
              | Ok t => Ok (t, name, secret_revision s)
              | Err _ => pipelineFailure "target_invalid"
              end
          end
      end
  | _ => pipelineFailure "target_unavailable"
  end.
(** The key of the probe context of a target. *)
Definition probe_key (pool : ProxyPool) (profileName : string) (p : Artifact.Profile) (t : HTTPTarget) : probeContextKey :=
  newProbeContextKey (pp_uid pool) profileName p (t_id t) (default "" (t_revision t)).
End target.

(** ** Resolution *)

Lemma find_profile_Ok name seen sel l r : find_profile name seen sel l = Ok r →
  Forall (λ p, profile_ok p = true) l ∧ NoDup (tp_name <$> l) ∧ (∀ p, p ∈ l → tp_name p ∉ seen) ∧
  (r = sel ∧ (∀ p, p ∈ l → tp_name p ≠ name) ∨ ∃ p, r = Some p ∧ p ∈ l ∧ tp_name p = name).
Proof.
  revert seen sel. induction l as [|p l IH]; intros seen sel; cbn [find_profile].
  - intros [= <-]. split_and!; [constructor|constructor|set_solver|]. left. split; [done|set_solver].
  - destruct (_ || _) eqn:E; [done|]. apply orb_false_iff in E as [E1 E2]. apply negb_false_iff in E1. bool_to_prop.
    intros (H1&H2&H3&H4)%IH. split_and!.
    + by constructor.
    + cbn. constructor; [|done]. intros (q&Eq&Hq)%list_elem_of_fmap. apply (H3 q Hq). rewrite <-Eq. left.
    + intros q [-> |Hq]%elem_of_cons; [done|]. intros Hs. apply (H3 q Hq). by right.
    + destruct H4 as [[-> H4]|(q&->&Hq&En)]; [|right; exists q; split_and!; [done|by right|done]].
      case_bool_decide as En; [right; exists p; split_and!; [done|by left|done]|left]. split; [done|].
      intros q [-> |Hq]%elem_of_cons; [done|by apply H4].
Qed.
Lemma find_profile_total name seen sel l : Forall (λ p, profile_ok p = true) l → NoDup (tp_name <$> l) → (∀ p, p ∈ l → tp_name p ∉ seen) →
  ∃ r, find_profile name seen sel l = Ok r.
Proof.
  revert seen sel. induction l as [|p l IH]; intros seen sel H1 H2 H3; cbn [find_profile]; [by eexists|].
  inversion H1 as [|? ? Hp Hl]; subst. cbn in H2. inversion H2 as [|? ? Hn Hd]; subst.
  rewrite Hp, bool_decide_false by (apply H3; left). cbn [negb orb]. apply IH; [done|done|].
  intros q Hq [E|Hs]%elem_of_cons; [apply Hn; rewrite <-E; by apply list_elem_of_fmap_2|]. eapply H3; [by right|done].
Qed.
(** The profile definitions of a pool are usable. *)
Record profiles_valid (pool : ProxyPool) : Prop := {
  pv_length : (length (Profiles pool) ≤ 8)%nat;
  pv_ok : Forall (λ p, profile_ok p = true) (Profiles pool);
  pv_nodup : NoDup (tp_name <$> Profiles pool);
}.
Lemma default_reserved p : profile_ok p = true → tp_name p ≠ "default".
Proof. unfold profile_ok. intros. by bool_to_prop. Qed.
(** A profile reference resolves exactly when the definitions of the pool are
    valid and the reference is to the top level or to the one profile of that
    name; named profiles never supply the default and never inherit from it. *)
Lemma resolve_profile_exact pool name probe sel : ResolveProfile pool name = Ok (probe, sel) ↔
  profiles_valid pool ∧
  (named name = false ∧ (probe, sel) = (Probe pool, pp_selection pool) ∨
   named name = true ∧ validProfileName name = true ∧
     ∃ p, p ∈ Profiles pool ∧ tp_name p = name ∧ (probe, sel) = (tp_probe p, tp_selection p)).
Proof.
  unfold ResolveProfile, named. set (nm := if bool_decide (name = "") then "default" else name).
  assert (negb (bool_decide (name = "")) && negb (bool_decide (name = "default")) = negb (bool_decide (nm = "default"))) as ->.
  { subst nm. by destruct (bool_decide (name = "")). }
  split.
  - destruct (8 <? _) eqn:E8; [done|]. destruct (_ && _) eqn:En; [done|]. intros Hr. apply result_bind_Ok in Hr as (r&Hf&Hr).
    apply find_profile_Ok in Hf as (H1&H2&_&H4). bool_to_prop. split; [split; [lia|done..]|].
    destruct H4 as [[-> H4]|(p&->&Hp&Ep)].
    + case_bool_decide; [|done]. left. injection Hr as <- <-. done.
    + injection Hr as <- <-. right. rewrite Forall_forall in H1. pose proof (default_reserved p (H1 p Hp)) as Hd. rewrite Ep in Hd.
      rewrite bool_decide_false in * by done. cbn [negb andb] in En. apply negb_false_iff in En. split; [done|].
      assert (nm = name) as Enm by (subst nm; by case_bool_decide). rewrite <-Enm. split; [done|]. by exists p.
  - intros [[H1 H2 H3] Hc]. rewrite (proj2 (Z.ltb_ge _ _)) by lia.
    destruct (find_profile_total nm [] None (Profiles pool) H2 H3 ltac:(set_solver)) as [r Hr].
    assert (negb (bool_decide (nm = "default")) && negb (validProfileName nm) = false) as ->.
    { destruct Hc as [[Hn _]|(Hn&Hv&_)]; [by rewrite Hn|]. bool_to_prop. replace nm with name; [by rewrite Hv, andb_false_r|].
      subst nm. case_bool_decide; [by subst|done]. }
    rewrite Hr. cbn [mbind result_bind]. apply find_profile_Ok in Hr as (_&_&_&H4). destruct Hc as [[Hn Eq]|(Hn&Hv&p&Hp&Ep&Eq)]; bool_to_prop.
    + destruct H4 as [[-> _]|(p&->&Hp&Ep)]; [rewrite bool_decide_true by done; by rewrite Eq|].
      exfalso. rewrite Forall_forall in H2. apply (default_reserved p (H2 p Hp)). congruence.
    + assert (nm = name) as Enm by (subst nm; case_bool_decide; [by subst|done]). destruct H4 as [[_ H4]|(q&->&Hq&Eqn)]; [by destruct (H4 p Hp); congruence|].
      assert (p = q) as <-; [|by rewrite Eq].
      apply list_elem_of_lookup in Hp as [i Hi], Hq as [j Hj]. assert (i = j) as <-; [|congruence].
      apply (NoDup_lookup (tp_name <$> Profiles pool) i j name H3); rewrite list_lookup_fmap; [rewrite Hi|rewrite Hj]; cbn; congruence.
Qed.

(** ** Probe contexts *)

Lemma hex_byte_inj x y l l' : 0 ≤ x < 256 → 0 ≤ y < 256 →
  hex_symbol (x / 16) :: hex_symbol (x `mod` 16) :: l = hex_symbol (y / 16) :: hex_symbol (y `mod` 16) :: l' → x = y ∧ l = l'.
Proof.
  intros Hx Hy [= E1 E2 ->]. split; [|done]. apply (f_equal hex_digit) in E1, E2.
  assert (∀ z, 0 ≤ z < 256 → 0 ≤ z / 16 < 16) as Hd by (intros z Hz; split; [apply Z.div_pos; lia|apply Z.div_lt_upper_bound; lia]).
  rewrite !hex_digit_symbol in E1 by auto. rewrite !hex_digit_symbol in E2 by (apply Z.mod_pos_bound; lia).
  rewrite (Z.div_mod x 16), (Z.div_mod y 16) by lia. congruence.
Qed.
Lemma hex_encode_cons x l : chars (hex_encode (x :: l)) = hex_symbol (x / 16) :: hex_symbol (x `mod` 16) :: chars (hex_encode l).
Proof. unfold hex_encode. rewrite !chars_of_chars. done. Qed.
Lemma hex_bytes_inj s t : hex_bytes s = hex_bytes t → s = t.
Proof.
  unfold hex_bytes. intros E%(f_equal chars). rewrite <-(of_chars_chars s), <-(of_chars_chars t). f_equal. revert E.
  generalize (chars t). induction (chars s) as [|c l IH]; intros [|d l'] E; rewrite ?fmap_cons, ?hex_encode_cons in E; try done.
  apply hex_byte_inj in E as [E1 E2]; [|apply code_range..]. apply IH in E2 as ->. f_equal.
  unfold code in E1. rewrite <-(ascii_N_embedding c), <-(ascii_N_embedding d). f_equal. lia.
Qed.
Lemma incarnation_inj n e e' : 0 < e → 0 < e' → in_int64 e → in_int64 e' → incarnation n e = incarnation n e' → e = e'.
Proof.
  unfold in_int64, int64_max. intros He He' Hi Hi' E. apply sapp_inj_len in E as [_ E]; [|done]. apply sapp_inj_len in E as [_ E]; [|done].
  apply (f_equal (λ s, parse_digits 0 (chars s))) in E. rewrite !itoa_parse in E by lia. by injection E.
Qed.
Lemma permission_salt_inj a b : permission_salt a = permission_salt b →
  pb_allowHTTP a = pb_allowHTTP b ∧ AllowPrivateTargets a = AllowPrivateTargets b ∧ AllowPrivateEndpoints a = AllowPrivateEndpoints b.
Proof.
  unfold permission_salt. destruct (pb_allowHTTP a), (pb_allowHTTP b), (AllowPrivateTargets a), (AllowPrivateTargets b),
    (AllowPrivateEndpoints a), (AllowPrivateEndpoints b); cbn; intros E; first [done|discriminate E].
Qed.

Section contexts.
Context `{Digest}.
(** The options [target] passes on. *)
Definition target_options (n : string) (spec : ProbeSpec) : HTTPTargetOptions :=
  {| to_allowHTTP := pb_allowHTTP spec; to_allowPrivate := AllowPrivateTargets spec;
     RevisionSalt := if named n then permission_salt spec else ""; to_maxResponseBytes := 0 |}.
Lemma target_Ok pool n spec a t nm rv : target pool n spec a = Ok (t, nm, rv) →
  ∃ s raw suffix expected timeout, a = Found s ∧ secret_data s !! ref_key (TargetSecretRef spec) = Some raw ∧
    nm = {| nn_namespace := pp_namespace pool; nn_name := ref_name (TargetSecretRef spec) |} ∧ rv = secret_revision s ∧
    target_suffix pool n = Ok suffix ∧ t_id t = "k8s-" +:+ pp_uid pool +:+ "-" +:+ suffix ∧
    NewHTTPTarget (t_id t) raw expected timeout (target_options n spec) = Ok t.
Proof.
  unfold target. destruct a as [s| |]; try done. destruct (secret_data s !! _) as [raw|] eqn:Es; [|done].
  intros Ht. apply result_bind_Ok in Ht as (suffix&Hs&Ht). destruct (NewTargetID _) as [i|] eqn:Ei; [|done].
  unfold NewTargetID in Ei. destruct (safeID _); [|done]. injection Ei as <-.
  destruct (NewHTTPTarget _ _ _ _ _) as [t'|] eqn:Et; [|done]. injection Ht as -> <- <-.
  pose proof Et as Et'. apply NewHTTPTarget_made in Et' as (u&M). pose proof (mt_id _ _ _ _ _ _ _ M) as Eid. rewrite <-Eid in Et.
  exists s, raw, suffix. eexists _, _. split_and!; try done.
Qed.
(** C27: Evidence of a named profile is never mixed.  Two targets of named
    profiles that are filed under the same probe context belong to the same
    pool and profile, to the same incarnation of that profile and to the same
    engine, request the same URL with the same expectations, and were
    permitted the same destinations.  What the context keeps as digests are
    the incarnation, as the first twelve bytes of a SHA-256, and the target
    description: these inputs of the two targets are supposed not to
    collide. *)
Theorem probe_context_identifies pool n spec a t nm rv prof pool' n' spec' a' t' nm' rv' prof' :
  target pool n spec a = Ok (t, nm, rv) → target pool' n' spec' a' = Ok (t', nm', rv') → named n = true →
  in_int64 (profile_epoch pool n) → in_int64 (profile_epoch pool' n') →
  fits32 (URL_String (requestURL t)) → fits32 (URL_String (requestURL t')) →
  coll_free (λ x, take_first 12 (sha256 x)) [incarnation n (profile_epoch pool n); incarnation n' (profile_epoch pool' n')] →
  coll_free sha256 [revision_input t (target_options n spec); revision_input t' (target_options n' spec')] →
  probe_key pool n prof t = probe_key pool' n' prof' t' →
  n = n' ∧ pp_uid pool = pp_uid pool' ∧ prof = prof' ∧ profile_epoch pool n = profile_epoch pool' n' ∧
  (let u := requestURL t in let u' := requestURL t' in
   Scheme u = Scheme u' ∧ User u = User u' ∧ Host u = Host u' ∧ EscapedPath u = EscapedPath u' ∧ query_part u = query_part u') ∧
  expectedStatus t = expectedStatus t' ∧ t_timeout t = t_timeout t' ∧
  pb_allowHTTP spec = pb_allowHTTP spec' ∧ AllowPrivateTargets spec = AllowPrivateTargets spec' ∧
  AllowPrivateEndpoints spec = AllowPrivateEndpoints spec'.
Proof.
  intros Ht Ht' Hn He He' Hf Hf' Hci Hct Ek. unfold probe_key, newProbeContextKey in Ek. injection Ek as Eu En Ep Eid Erev.
  assert (n = n') as <-. { unfold named in Hn. bool_to_prop. repeat case_bool_decide; congruence. }
  apply target_Ok in Ht as (s&raw&suf&ex&to&_&_&_&_&Hsuf&Hid&Hnew), Ht' as (s'&raw'&suf'&ex'&to'&_&_&_&_&Hsuf'&Hid'&Hnew').
  unfold target_suffix in Hsuf, Hsuf'. rewrite Hn in *.
  destruct (negb _); [done|]. destruct (profile_epoch pool n <=? 0) eqn:E0; [done|].
  destruct (negb _); [done|]. destruct (profile_epoch pool' n <=? 0) eqn:E0'; [done|]. bool_to_prop.
  injection Hsuf as <-. injection Hsuf' as <-. rewrite Hid, Hid', Eu in Eid. do 3 (apply sapp_inj_len in Eid as [_ Eid]; [|done]).
  apply sapp_inj_len in Eid as [_ Eid%hex_bytes_inj]; [|done].
  pose proof (proj1 (coll_free_pair _ _ _) Hci Eid) as Hci2. apply incarnation_inj in Hci2 as Ei; [|done..].
  assert (t_revision t = t_revision t') as Er.
  { destruct (NewHTTPTarget_made _ _ _ _ _ _ Hnew) as [? M], (NewHTTPTarget_made _ _ _ _ _ _ Hnew') as [? M'].
    rewrite (mt_revision _ _ _ _ _ _ _ M), (mt_revision _ _ _ _ _ _ _ M') in *. cbn [default from_option] in Erev. unfold Datatypes.id in Erev. congruence. }
  assert (∀ sp, fits32 (RevisionSalt (target_options n sp))) as Hsalt.
  { intros sp. unfold target_options. cbn [RevisionSalt]. rewrite Hn. unfold fits32, permission_salt.
    by destruct (pb_allowHTTP sp), (AllowPrivateTargets sp), (AllowPrivateEndpoints sp). }
  destruct (same_revision _ _ _ _ _ _ _ _ _ _ _ _ Hnew Hnew' Hf Hf' (Hsalt _) (Hsalt _) Hct Er) as ((?&?&?&?&?&?)&?&?&?&Es).
  unfold target_options in Es. cbn [RevisionSalt] in Es. rewrite Hn in Es. apply permission_salt_inj in Es as (?&?&?). by split_and!.
Qed.
End contexts.

(** ** A concrete profile *)

Module ProfileSample.
#[local] Existing Instance toy_digest.
Definition spec (key : string) : ProbeSpec :=
  {| TargetSecretRef := {| ref_name := "targets"; ref_key := key |}; ExpectedStatus := 0; pb_timeout := None; pb_allowHTTP := false;
     AllowPrivateTargets := false; AllowPrivateEndpoints := false |}.
Definition video : TargetProfile := {| tp_name := "video"; tp_probe := spec "a"; tp_selection := {| se_strategy := "Static"; se_topN := 3 |} |}.
Definition pool : ProxyPool :=
  {| pp_namespace := "ns"; pp_name := "p"; pp_uid := "u"; pp_generation := 2; Sources := []; Probe := spec "b";
     pp_selection := {| se_strategy := ""; se_topN := 0 |}; Profiles := [video]; RefreshInterval := None; pp_allowInsecureTLS := false;
     pp_status := {| pp_observedGeneration := 2; AcceptedEndpoints := 0; RejectedRecords := 0; UnsupportedRecords := 0;
                     LastInventoryChangeTime := None; pp_sources := []; pp_profiles := [{| pf_name := "video"; FirstObservedGeneration := 1 |}];
                     pp_conditions := [] |} |}.
Definition secret : Secret :=
  {| secret_uid := "s"; secret_resourceVersion := "1"; secret_data := <["a" := "https://H.example./x"]> (<["b" := "https://h.example/x"]> ∅) |}.
Example resolves_profile : ResolveProfile pool "video" = Ok (spec "a", tp_selection video) ∧ ResolveProfile pool "" = Ok (spec "b", pp_selection pool) ∧
  ResolveProfile pool "other" = Err (PipelineError "profile_missing").
Proof. vm_compute. repeat split. Qed.
Definition of_ok {E A} (d : A) (r : result E A) : A := match r with Ok a => a | Err _ => d end.
Definition no_target : HTTPTarget :=
  {| t_id := ""; t_revision := None; requestURL := no_url; expectedStatus := 0; t_timeout := 0; maxResponseBytes := 0; allowPrivateDestinations := false |}.
Definition made (key : string) : HTTPTarget := (of_ok (no_target, {| nn_namespace := ""; nn_name := "" |}, no_revision) (target pool "video" (spec key) (Found secret))).1.1.
Definition name : NamespacedName := {| nn_namespace := "ns"; nn_name := "targets" |}.
Lemma made_a : target pool "video" (spec "a") (Found secret) = Ok (made "a", name, secret_revision secret).
Proof. reflexivity. Qed.
Lemma made_b : target pool "video" (spec "b") (Found secret) = Ok (made "b", name, secret_revision secret).
Proof. reflexivity. Qed.
Lemma probe_context_identifies_witness : Host (requestURL (made "a")) = Host (requestURL (made "b")).
Proof.
  assert (in_int64 (profile_epoch pool "video")) as He by (unfold in_int64, int64_min, int64_max; split; vm_compute; discriminate).
  assert (∀ k, k = "a" ∨ k = "b" → fits32 (URL_String (requestURL (made k)))) as Hf by (intros k [-> | ->]; reflexivity).
  assert (probe_key pool "video" Mihomo11931 (made "a") = probe_key pool "video" Mihomo11931 (made "b")) as Ek by reflexivity.
  destruct (probe_context_identifies _ _ _ _ _ _ _ Mihomo11931 _ _ _ _ _ _ _ Mihomo11931 made_a made_b eq_refl He He
              (Hf _ (or_introl eq_refl)) (Hf _ (or_intror eq_refl))) as (_&_&_&_&(_&_&E&_)&_);
    [apply (bool_decide_unpack _); vm_compute; exact I..|exact Ek|exact E].
Defined.
End ProfileSample.
