(* ===== verification/Conditions.v ===== *)
(** * Status conditions (internal/controller/conditions.go)

    The kinds of condition the controllers report, and what they rely on of
    [apimeta.SetStatusCondition]: a condition replaces the one of its type,
    keeping the transition time while the status stays the same. *)
From S2P Require Import Prelude Pool.
Open Scope Z_scope.

Definition ConditionReady : string := "Ready".
Definition ConditionSourcesReady : string := "SourcesReady".
Definition ConditionSelectionReady : string := "SelectionReady".
Definition ConditionConfigurationValid : string := "ConfigurationValid".
Definition ConditionPublished : string := "Published".
Definition ConditionActivated : string := "Activated".
Definition ConditionRuntimeReady : string := "RuntimeReady".
Definition ConditionDegraded : string := "Degraded".
Definition ConditionTrue : string := "True".
Definition ConditionFalse : string := "False".
Definition ConditionUnknown : string := "Unknown".

Definition condition (kind status reason message : string) (generation now : Z) : Condition :=
  {| c_type := kind; c_status := status; c_reason := reason; c_message := message; c_observedGeneration := generation; LastTransitionTime := now |}.

#[global] Instance Condition_eq_dec : EqDecision Condition.
Proof. solve_decision. Defined.
#[global] Instance SourceStatus_eq_dec : EqDecision SourceStatus.
Proof. solve_decision. Defined.
#[global] Instance ProfileStatus_eq_dec : EqDecision ProfileStatus.
Proof. solve_decision. Defined.
#[global] Instance ProxyPoolStatus_eq_dec : EqDecision ProxyPoolStatus.
Proof. solve_decision. Defined.
(** [reflect.DeepEqual] of two statuses. *)
Definition sameStatus {A} `{EqDecision A} (left right : A) : bool := bool_decide (left = right).

(** What a status update may answer. *)
Inductive update_answer := Updated | UpdateConflict | UpdateFailed.

(** ** Setting a condition *)

Definition find_condition (kind : string) (l : list Condition) : option Condition := List.find (λ c, bool_decide (c_type c = kind)) l.
(** The new condition over the old one of its type. *)
Definition merge_condition (old : option Condition) (c : Condition) : Condition :=
  match old with
  | Some o => if bool_decide (c_status o = c_status c)
              then condition (c_type c) (c_status c) (c_reason c) (c_message c) (c_observedGeneration c) (LastTransitionTime o) else c
  | None => c
  end.
Class StatusConditions := {
  SetStatusCondition : list Condition → Condition → list Condition;
  set_condition_find kind l c : find_condition kind (SetStatusCondition l c) =
    if bool_decide (kind = c_type c) then Some (merge_condition (find_condition kind l) c) else find_condition kind l;
  set_condition_unchanged l c : find_condition (c_type c) l = Some (merge_condition (find_condition (c_type c) l) c) → SetStatusCondition l c = l;
}.
(** A list with the conditions set one after the other. *)
Definition set_conditions `{StatusConditions} (l : list Condition) (cs : list Condition) : list Condition := foldl SetStatusCondition l cs.
(** The status of a condition, empty when there is none. *)
Definition verdict (kind : string) (l : list Condition) : string := match find_condition kind l with Some c => c_status c | None => "" end.
Definition verdict_reason (kind : string) (l : list Condition) : string := match find_condition kind l with Some c => c_reason c | None => "" end.

(** An implementation: replace in place, or append. *)
Fixpoint put_condition (l : list Condition) (c : Condition) : list Condition :=
  match l with
  | [] => [c]
  | o :: rest => if bool_decide (c_type o = c_type c) then merge_condition (Some o) c :: rest else o :: put_condition rest c
  end.
Lemma merge_type o c : c_type (merge_condition o c) = c_type c.
Proof. destruct o; cbn; [|done]. by case_bool_decide. Qed.
Lemma merge_status o c : c_status (merge_condition o c) = c_status c.
Proof. destruct o; cbn; [|done]. by case_bool_decide. Qed.
Lemma merge_reason o c : c_reason (merge_condition o c) = c_reason c.
Proof. destruct o; cbn; [|done]. by case_bool_decide. Qed.
Lemma find_condition_cons kind o l : find_condition kind (o :: l) = if bool_decide (c_type o = kind) then Some o else find_condition kind l.
Proof. done. Qed.
Definition plain_conditions : StatusConditions.
Proof.
  refine {| SetStatusCondition := put_condition |}.
  - intros kind l c. induction l as [|o l IH]; cbn [put_condition]; rewrite ?find_condition_cons.
    + destruct (decide (kind = c_type c)) as [-> |Hk]; [by rewrite !bool_decide_true|]. rewrite !bool_decide_false; [done|congruence..].
    + destruct (decide (c_type o = c_type c)) as [E|E].
      * rewrite (bool_decide_true (c_type o = c_type c)), find_condition_cons, merge_type, E by done.
        destruct (decide (kind = c_type c)) as [-> |Hk]; [by rewrite !bool_decide_true|]. rewrite !bool_decide_false; [done|congruence..].
      * rewrite (bool_decide_false (c_type o = c_type c)), find_condition_cons by done.
        destruct (decide (c_type o = kind)) as [<-|Ho]; [by rewrite (bool_decide_true (c_type o = c_type o)), (bool_decide_false (c_type o = c_type c))|].
        rewrite (bool_decide_false (c_type o = kind)) by done. apply IH.
  - intros l c. induction l as [|o l IH]; [done|]. cbn [put_condition]. rewrite find_condition_cons. destruct (decide (c_type o = c_type c)) as [E|E].
    + rewrite !bool_decide_true by done. intros [= Hm]. cbn. by rewrite <-Hm.
    + rewrite !bool_decide_false by done. intros H. by rewrite IH.
Defined.

(** ** Lemmas *)

Section facts.
Context `{StatusConditions}.

Lemma set_conditions_other kind l cs : Forall (λ c, c_type c ≠ kind) cs → find_condition kind (set_conditions l cs) = find_condition kind l.
Proof.
  revert l. induction cs as [|c cs IH]; intros l Hc; [done|]. apply Forall_cons in Hc as [Hc Hcs].
  change (set_conditions l (c :: cs)) with (set_conditions (SetStatusCondition l c) cs). rewrite IH by done.
  rewrite set_condition_find. by rewrite bool_decide_false by done.
Qed.
(** The last one set of a type counts. *)
Lemma set_conditions_last l cs c cs' : Forall (λ x, c_type x ≠ c_type c) cs' →
  find_condition (c_type c) (set_conditions l (cs ++ c :: cs')) = Some (merge_condition (find_condition (c_type c) (set_conditions l cs)) c).
Proof.
  intros Hc. replace (set_conditions l (cs ++ c :: cs')) with (set_conditions (SetStatusCondition (set_conditions l cs) c) cs')
    by (unfold set_conditions; by rewrite foldl_app).
  rewrite set_conditions_other by done. rewrite set_condition_find. by rewrite bool_decide_true.
Qed.
Lemma verdict_last l cs c cs' : Forall (λ x, c_type x ≠ c_type c) cs' → verdict (c_type c) (set_conditions l (cs ++ c :: cs')) = c_status c.
Proof. intros Hc. unfold verdict. by rewrite set_conditions_last, merge_status by done. Qed.

(** The status of a type is that of the last condition set of it. *)
Definition last_set (kind : string) (cs : list Condition) : option Condition := List.find (λ c, bool_decide (c_type c = kind)) (reverse cs).
Lemma verdict_eval kind l cs : verdict kind (set_conditions l cs) = match last_set kind cs with Some c => c_status c | None => verdict kind l end.
Proof.
  induction cs as [|c cs IH] using rev_ind; [done|]. unfold last_set. rewrite reverse_snoc. cbn [List.find].
  replace (set_conditions l (cs ++ [c])) with (SetStatusCondition (set_conditions l cs) c) by (unfold set_conditions; by rewrite foldl_app).
  unfold verdict at 1. rewrite set_condition_find. destruct (decide (c_type c = kind)) as [<-|Hk].
  - rewrite !bool_decide_true by done. apply merge_status.
  - rewrite !bool_decide_false by congruence. apply IH.
Qed.

(** Conditions of the same verdict, whatever their time. *)
Definition same_verdict (c c' : Condition) : Prop :=
  c_type c = c_type c' ∧ c_status c = c_status c' ∧ c_reason c = c_reason c' ∧ c_message c = c_message c' ∧ c_observedGeneration c = c_observedGeneration c'.
Lemma merge_again o c c' : same_verdict c c' → merge_condition (Some (merge_condition o c)) c' = merge_condition o c.
Proof.
  intros (E1&E2&E3&E4&E5). unfold merge_condition at 1. rewrite merge_status, E2, bool_decide_true by done.
  destruct c, c'; cbn in *; subst. destruct o as [o|]; cbn; [|done]. by destruct (bool_decide _).
Qed.
(** Setting the same verdicts again, each type once, changes nothing. *)
Lemma set_conditions_idem l cs cs' : NoDup (c_type <$> cs) → Forall2 same_verdict cs cs' → set_conditions (set_conditions l cs) cs' = set_conditions l cs.
Proof.
  assert (∀ cs cs' l, Forall2 same_verdict cs cs' → (∀ c, c ∈ cs → ∃ o, find_condition (c_type c) l = Some (merge_condition o c)) → set_conditions l cs' = l) as Hgen.
  { clear. intros cs cs' l HF. induction HF as [|c c' cs cs' Hv HF IH]; intros Hl; [done|].
    change (set_conditions l (c' :: cs')) with (set_conditions (SetStatusCondition l c') cs').
    assert (SetStatusCondition l c' = l) as ->.
    { apply set_condition_unchanged. destruct (Hl c) as [o Ho]; [by left|]. replace (c_type c') with (c_type c) by apply Hv.
      rewrite Ho. by rewrite merge_again. }
    apply IH. intros x Hx. apply Hl. by right. }
  intros Hn HF. eapply Hgen; [done|]. clear HF Hgen cs'. intros c Hc. apply list_elem_of_split in Hc as (l1&l2&->).
  exists (find_condition (c_type c) (set_conditions l l1)). apply set_conditions_last.
  rewrite fmap_app, fmap_cons in Hn. apply NoDup_app in Hn as (_&_&Hn). apply NoDup_cons in Hn as [Hn _].
  apply Forall_forall. intros x Hx E. apply Hn. rewrite <-E. by apply list_elem_of_fmap_2.
Qed.
End facts.
