(* ===== verification/PoolController.v ===== *)
(** * The pool controller (internal/controller/proxypool_controller.go)

    A reconciliation builds the pool's inventory, writes what it found into
    the status of the pool and says when to look again.  The refresher is
    what it answers; the status update may be refused. *)
From S2P Require Import Prelude Order Bytes Encoding Endpoint Provenance Inventory Artifact Observation Selection Scheduling SnapshotGuard Text Store SourceCache.
From S2P Require Import Url Pool Profiles Refresh Refresher Conditions.
From Stdlib Require Import Ascii.
From Stdlib Require String.
Open Scope Z_scope.

(** [int32] of a Go [int]. *)
Definition wrap32 (z : Z) : Z := (z + 2 ^ 31) `mod` 2 ^ 32 - 2 ^ 31.

(** ** Parts of the status *)

(** A map built from a list: the last entry of a name counts. *)
Definition last_with {A} (name : A → string) (n : string) (l : list A) : option A := List.find (λ x, bool_decide (name x = n)) (reverse l).
Definition profile_name_cmp : ProfileStatus → ProfileStatus → comparison := cmp_on pf_name bytes_compare.
Definition profile_status (pool : ProxyPool) (p : TargetProfile) : ProfileStatus :=
  let epoch := match last_with pf_name (tp_name p) (pp_profiles (pp_status pool)) with Some s => FirstObservedGeneration s | None => 0 end in
  {| pf_name := tp_name p; FirstObservedGeneration := if epoch <=? 0 then pp_generation pool else epoch |}.
Definition profileStatuses (pool : ProxyPool) : list ProfileStatus := go_sort profile_name_cmp (profile_status pool <$> Profiles pool).

Definition sourceStatus (s : SourceState) : SourceStatus :=
  {| ss_ID := st_id s; ss_state := st_state s; ss_reason := st_reason s; LastSuccessTime := LastSuccess s |}.
(** The entry of one source: from the map of the updated ones, else the previous. *)
Definition source_choice (updated previous : list SourceStatus) (d : SubscriptionSource) : option SourceStatus :=
  match last_with ss_ID (ss_id d) updated with Some s => Some s | None => last_with ss_ID (ss_id d) previous end.
Definition mergeHTTPSourceStatus (pool : ProxyPool) (current : list SourceState) : list SourceStatus :=
  omap (source_choice (sourceStatus <$> current) (pp_sources (pp_status pool))) (Sources pool).

(** ** Requeueing *)

Definition cacheAwareRequeue (refresh expiry now : Z) : Z :=
  if (expiry =? 0) || negb (now <? expiry) then refresh else
  let until := expiry - now in
  if refresh <=? until then refresh else if until <? second then second else until.
Definition requeueAfter (value : Z) (uid : string) : Z :=
  let base := refreshInterval value in
  base + ((base * (Sum32 uid `mod` (RequeueJitterPermille * 10 + 1))) `mod` 2 ^ 64) / 10000.

(** ** Indexes *)

Fixpoint unique_from (seen : list string) (l : list string) : list string :=
  match l with
  | [] => []
  | v :: rest => if negb (bool_decide (v = "")) && negb (bool_decide (v ∈ seen)) then v :: unique_from (v :: seen) rest else unique_from seen rest
  end.
Definition unique : list string → list string := unique_from [].
Definition source_secrets (s : SubscriptionSource) : list string :=
  match SecretRef s with Some ref => [ref_name ref] | None => [] end ++
  match ss_http s with
  | Some h => ref_name (URLSecretRef h) :: match AuthorizationSecretRef h with Some ref => [ref_name ref] | None => [] end ++
              ((λ x, ref_name (sh_secretRef x)) <$> SecretHeaders h)
  | None => []
  end.
(** The value of the index [ProxyPoolSecretIndex] for a pool. *)
Definition pool_secrets (pool : ProxyPool) : list string :=
  unique ((Sources pool ≫= source_secrets) ++ [ref_name (TargetSecretRef (Probe pool))] ++ ((λ p, ref_name (TargetSecretRef (tp_probe p))) <$> Profiles pool)).
Definition name_text (n : NamespacedName) : string := nn_namespace n +:+ "/" +:+ nn_name n.
Definition request_cmp : NamespacedName → NamespacedName → comparison := cmp_on name_text bytes_compare.
Definition pool_request (p : ProxyPool) : NamespacedName := {| nn_namespace := pp_namespace p; nn_name := pp_name p |}.
(** The requests for a changed Secret; [pools] is the list of the cluster's
    pools, none when listing fails. *)
Definition poolsForSecret (pools : option (list ProxyPool)) (namespace secret : string) : list NamespacedName :=
  go_sort request_cmp (pool_request <$> List.filter (λ p, bool_decide (pp_namespace p = namespace) && bool_decide (secret ∈ pool_secrets p)) (default [] pools)).

(** ** Reconciliation *)

Definition with_status (s : ProxyPoolStatus) (pool : ProxyPool) : ProxyPool :=
  {| pp_namespace := pp_namespace pool; pp_name := pp_name pool; pp_uid := pp_uid pool; pp_generation := pp_generation pool; Sources := Sources pool;
     Probe := Probe pool; pp_selection := pp_selection pool; Profiles := Profiles pool; RefreshInterval := RefreshInterval pool;
     pp_allowInsecureTLS := pp_allowInsecureTLS pool; pp_status := s |}.
Definition with_sources (l : list SubscriptionSource) (pool : ProxyPool) : ProxyPool :=
  {| pp_namespace := pp_namespace pool; pp_name := pp_name pool; pp_uid := pp_uid pool; pp_generation := pp_generation pool; Sources := l;
     Probe := Probe pool; pp_selection := pp_selection pool; Profiles := Profiles pool; RefreshInterval := RefreshInterval pool;
     pp_allowInsecureTLS := pp_allowInsecureTLS pool; pp_status := pp_status pool |}.
(** What the refresher answers: [LastChange] and [Failure]. *)
Record refresher_view := { rv_lastChange : string → Z; rv_failure : string → string }.
Record ProxyPoolReconciler := { pr_store : bool; pr_refresher : option refresher_view }.

(** A fresh source whose last refresh failed is served from the cache. *)
Definition refreshed_state (r : option refresher_view) (uid : string) (s : SourceState) : SourceState :=
  match r with
  | Some v => if bool_decide (st_state s = "Fresh") && negb (bool_decide (rv_failure v (uid +:+ "/" +:+ st_id s) = ""))
              then {| st_id := st_id s; st_state := "Cached"; st_reason := "RefreshFailed"; LastSuccess := LastSuccess s |} else s
  | None => s
  end.
Definition all_fresh (l : list SourceState) : bool := forallb (λ s, bool_decide (st_state s = "Fresh")) l.

Section controller.
Context {digest : Digest} {order : MapOrder} {urls : UrlParser} {conditions : StatusConditions} (api : nat → cluster).

(** The status after a build that failed; [states] are those of the pool's
    HTTP sources, when there is a store. *)
Definition failed_status (pool : ProxyPool) (states : list SourceState) (now : Z) : ProxyPoolStatus :=
  let s := pp_status pool in
  {| pp_observedGeneration := pp_generation pool; AcceptedEndpoints := 0; RejectedRecords := 0; UnsupportedRecords := 0;
     LastInventoryChangeTime := if AcceptedEndpoints s =? 0 then LastInventoryChangeTime s else Some now;
     pp_sources := match states with [] => pp_sources s | _ => mergeHTTPSourceStatus pool states end;
     pp_profiles := profileStatuses pool;
     pp_conditions := set_conditions (pp_conditions s)
       [condition ConditionSourcesReady ConditionFalse "SnapshotRejected" "one or more source snapshots are unavailable or rejected" (pp_generation pool) now;
        condition ConditionReady ConditionFalse "SourcesNotReady" "the pool has no current admitted inventory" (pp_generation pool) now] |}.
Definition built_status (r : ProxyPoolReconciler) (pool : ProxyPool) (b : PoolResult) (now : Z) : ProxyPoolStatus :=
  let s := pp_status pool in
  let accepted := wrap32 (Z.of_nat (length (pool_inventory b))) in
  let rejected := wrap32 (pr_rejected b) in
  let unsupported := wrap32 (pr_unsupported b) in
  let countsChanged := negb (AcceptedEndpoints s =? accepted) || negb (RejectedRecords s =? rejected) || negb (UnsupportedRecords s =? unsupported) in
  let generationChanged := negb (pp_observedGeneration s =? pp_generation pool) in
  let httpChanged := match pr_refresher r with
                     | Some v => default 0 (LastInventoryChangeTime s) <? rv_lastChange v (pp_uid pool)
                     | None => false
                     end in
  let states := refreshed_state (pr_refresher r) (pp_uid pool) <$> pr_sources b in
  {| pp_observedGeneration := pp_generation pool; AcceptedEndpoints := accepted; RejectedRecords := rejected; UnsupportedRecords := unsupported;
     LastInventoryChangeTime :=
       if bool_decide (LastInventoryChangeTime s = None) || countsChanged || generationChanged || httpChanged then Some now else LastInventoryChangeTime s;
     pp_sources := sourceStatus <$> states;
     pp_profiles := profileStatuses pool;
     pp_conditions := set_conditions (pp_conditions s)
       [if all_fresh states
        then condition ConditionSourcesReady ConditionTrue "SnapshotsAdmitted" "all source snapshots were admitted" (pp_generation pool) now
        else condition ConditionSourcesReady ConditionFalse "SourceDegraded" "one or more managed sources use fallback or are unavailable" (pp_generation pool) now;
        if 0 <? Z.of_nat (length (pool_inventory b))
        then condition ConditionReady ConditionTrue "InventoryReady" "the current admitted inventory is available" (pp_generation pool) now
        else condition ConditionReady ConditionFalse "InventoryEmpty" "the pool has no current admitted inventory" (pp_generation pool) now] |}.

(** A build whose error is a value. *)
Definition try_build (store : bool) (over : string → bool) (now : Z) (pool : ProxyPool) : M (option PoolResult) := λ w,
  match BuildPoolWithCache api store over now pool w with (Ok r, w) => (Ok (Some r), w) | (Err _, w) => (Ok None, w) end.
Definition nearer (expiry next : Z) : Z := if negb (next =? 0) && ((expiry =? 0) || (next <? expiry)) then next else expiry.
(** The loop over the HTTP sources after a failed build. *)
Fixpoint cached_states (over : string → bool) (now : Z) (pool : ProxyPool) (l : list SubscriptionSource) (expiry : Z) : M (list SourceState * Z) :=
  match l with
  | [] => mret ([], expiry)
  | d :: rest =>
      match ss_http d with
      | None => cached_states over now pool rest expiry
      | Some _ =>
          b ← try_build true over now (with_sources [d] pool);
          let states := match b with Some b => pr_sources b | None => [unavailable (ss_id d) "SnapshotRejected"] end in
          let expiry := match b with Some b => nearer expiry (NextCacheExpiry b) | None => expiry end in
          '(more, expiry) ← cached_states over now pool rest expiry; mret (states ++ more, expiry)
      end
  end.
(** The status the pool gets, whether it is that of a build, and the next
    expiry of a cached source. *)
Definition next_status (r : ProxyPoolReconciler) (over : string → bool) (now : Z) (pool : ProxyPool) : M (ProxyPoolStatus * bool * Z) :=
  b ← try_build (pr_store r) over now pool;
  match b with
  | Some b => mret (built_status r pool b now, true, NextCacheExpiry b)
  | None =>
      if pr_store r then '(states, expiry) ← cached_states over now pool (Sources pool) 0; mret (failed_status pool states now, false, expiry)
      else mret (failed_status pool [] now, false, 0)
  end.
(** [sameStatus] of the status that was read and the new one.
    [reflect.DeepEqual] tells a nil slice from an empty one: an empty list is
    read as nil, since the fields are [omitempty], while [profileStatuses]
    and, after a build, the list of the sources never give nil. *)
Definition same_pool_status (built : bool) (before after : ProxyPoolStatus) : bool :=
  sameStatus before after && negb (bool_decide (pp_profiles after = [])) && negb (built && bool_decide (pp_sources after = [])).
(** What a reconciliation returns, with the status it asked to store. *)
Inductive reconcile_answer := ReconcileGone | ReconcileReadError | ReconcileUpdateError | RequeueAfter (d : Z).
Definition Reconcile (r : ProxyPoolReconciler) (over : string → bool) (now : Z) (name : NamespacedName) (update : update_answer)
    : M (reconcile_answer * option ProxyPoolStatus) :=
  a ← read_Pool api name;
  match a with
  | NotFound => mret (ReconcileGone, None)
  | ReadFailed => mret (ReconcileReadError, None)
  | Found pool =>
      '(s, built, expiry) ← next_status r over now pool;
      let written := if same_pool_status built (pp_status pool) s then None else Some s in
      let after := RequeueAfter (cacheAwareRequeue (requeueAfter (durationValue (RefreshInterval pool)) (pp_uid pool)) expiry now) in
      mret (match written, update with Some _, UpdateFailed => (ReconcileUpdateError, written) | _, _ => (after, written) end)
  end.
End controller.

(** ** Profile epochs *)

Lemma last_with_unique {A} (name : A → string) n l x : NoDup (name <$> l) → x ∈ l → name x = n → last_with name n l = Some x.
Proof.
  intros Hn Hx <-. unfold last_with. destruct (List.find _ (reverse l)) as [y|] eqn:E.
  - apply List.find_some in E as [Hy E]. bool_to_prop. apply list_elem_of_In in Hy. rewrite elem_of_reverse in Hy. f_equal.
    apply list_elem_of_lookup in Hx as [i Hi], Hy as [j Hj]. assert (i = j) as <-; [|congruence].
    apply (NoDup_lookup (name <$> l) i j (name x) Hn); rewrite list_lookup_fmap; [by rewrite Hi|by rewrite Hj; cbn; rewrite E].
  - rewrite <-elem_of_reverse, list_elem_of_In in Hx. apply (List.find_none _ _ E) in Hx.
    by rewrite bool_decide_true in Hx.
Qed.
Lemma last_with_Some {A} (name : A → string) n l x : last_with name n l = Some x → x ∈ l ∧ name x = n.
Proof. unfold last_with. intros [Hy E]%List.find_some. bool_to_prop. split; [by apply elem_of_reverse, list_elem_of_In|done]. Qed.
Lemma last_with_None {A} (name : A → string) n l : n ∉ name <$> l → last_with name n l = None.
Proof.
  intros Hn. destruct (last_with name n l) as [x|] eqn:E; [|done]. apply last_with_Some in E as [Hx <-]. destruct Hn. by apply list_elem_of_fmap_2.
Qed.
Lemma find_named_unique {A} (name : A → string) n l x : NoDup (name <$> l) → x ∈ l → name x = n → List.find (λ x, bool_decide (name x = n)) l = Some x.
Proof.
  intros Hn Hx E. rewrite <-(reverse_involutive l). apply last_with_unique; [|by apply elem_of_reverse|done].
  by rewrite reverse_Permutation.
Qed.

(** Observed versions of a pool's profiles: its generation and the names. *)
Definition pool_version : Type := Z * list string.
Definition observed_version (pool : ProxyPool) : pool_version := (pp_generation pool, tp_name <$> Profiles pool).
(** The reference: the epoch is the generation at which the name appeared,
    for as long as it stays. *)
Definition epoch_step (n : string) (cur : option Z) (v : pool_version) : option Z := if bool_decide (n ∈ v.2) then Some (default v.1 cur) else None.
Definition first_observed (n : string) (l : list pool_version) : option Z := foldl (epoch_step n) None l.
(** The profile statuses after the versions were reconciled one by one. *)
Definition with_profiles (l : list ProfileStatus) (pool : ProxyPool) : ProxyPool :=
  let s := pp_status pool in
  with_status {| pp_observedGeneration := pp_observedGeneration s; AcceptedEndpoints := AcceptedEndpoints s; RejectedRecords := RejectedRecords s;
                 UnsupportedRecords := UnsupportedRecords s; LastInventoryChangeTime := LastInventoryChangeTime s; pp_sources := pp_sources s;
                 pp_profiles := l; pp_conditions := pp_conditions s |} pool.
Definition reconciled_profiles (l : list ProxyPool) : list ProfileStatus := foldl (λ s pool, profileStatuses (with_profiles s pool)) [] l.
Definition epoch_in (n : string) (l : list ProfileStatus) : Z :=
  match List.find (λ s, bool_decide (pf_name s = n)) l with Some s => FirstObservedGeneration s | None => 0 end.

Lemma profileStatuses_names pool : pf_name <$> profileStatuses pool ≡ₚ tp_name <$> Profiles pool.
Proof. unfold profileStatuses. rewrite go_sort_perm. by rewrite <-list_fmap_compose. Qed.
Lemma profileStatuses_epoch pool n : NoDup (tp_name <$> Profiles pool) → n ∈ tp_name <$> Profiles pool →
  epoch_in n (profileStatuses pool) =
    let epoch := match last_with pf_name n (pp_profiles (pp_status pool)) with Some s => FirstObservedGeneration s | None => 0 end in
    if epoch <=? 0 then pp_generation pool else epoch.
Proof.
  intros Hn (p&->&Hp)%list_elem_of_fmap. unfold epoch_in. rewrite (find_named_unique pf_name (tp_name p) (profileStatuses pool) (profile_status pool p)); [done|..].
  - by rewrite profileStatuses_names.
  - unfold profileStatuses. apply go_sort_elem_of. by apply list_elem_of_fmap_2.
  - done.
Qed.
Lemma profileStatuses_absent pool n : n ∉ tp_name <$> Profiles pool → epoch_in n (profileStatuses pool) = 0.
Proof.
  intros Hn. unfold epoch_in. destruct (List.find _ _) as [s|] eqn:E; [|done]. apply List.find_some in E as [Hs E]. bool_to_prop.
  destruct Hn. rewrite <-profileStatuses_names, <-E. by apply list_elem_of_fmap_2, list_elem_of_In.
Qed.
Lemma epoch_in_last n l : NoDup (pf_name <$> l) → match last_with pf_name n l with Some s => FirstObservedGeneration s | None => 0 end = epoch_in n l.
Proof.
  intros Hn. unfold epoch_in. destruct (last_with pf_name n l) as [s|] eqn:E.
  - apply last_with_Some in E as [Hs En]. by rewrite (find_named_unique pf_name n l s).
  - destruct (List.find _ l) as [s|] eqn:F; [|done]. apply List.find_some in F as [Hs F]. bool_to_prop. apply list_elem_of_In in Hs.
    by rewrite (last_with_unique pf_name n l s) in E.
Qed.
Lemma reconciled_epochs l n : Forall (λ p, 0 < pp_generation p ∧ NoDup (tp_name <$> Profiles p)) l →
  NoDup (pf_name <$> reconciled_profiles l) ∧ epoch_in n (reconciled_profiles l) = default 0 (first_observed n (observed_version <$> l)) ∧
  (∀ e, first_observed n (observed_version <$> l) = Some e → 0 < e).
Proof.
  induction l as [|pool l IH] using rev_ind; [intros _; by split_and!; [constructor|..]|].
  intros [Hl [[Hg Hn] _]%Forall_cons]%Forall_app. destruct (IH Hl) as (Hnd&Hep&Hpos). clear IH.
  unfold reconciled_profiles, first_observed. rewrite fmap_app, !foldl_app. cbn [foldl fmap list_fmap].
  change (foldl _ [] l) with (reconciled_profiles l). change (foldl (epoch_step n) None _) with (first_observed n (observed_version <$> l)).
  set (pool' := with_profiles (reconciled_profiles l) pool). assert (tp_name <$> Profiles pool' = tp_name <$> Profiles pool) as En by done.
  unfold epoch_step. change (observed_version pool).2 with (tp_name <$> Profiles pool). change (observed_version pool).1 with (pp_generation pool).
  split; [by rewrite profileStatuses_names|]. destruct (decide (n ∈ tp_name <$> Profiles pool)) as [Hin|Hout].
  - rewrite bool_decide_true by done. rewrite profileStatuses_epoch by done. cbv zeta.
    change (pp_profiles (pp_status pool')) with (reconciled_profiles l). rewrite epoch_in_last, Hep by done.
    destruct (first_observed n (observed_version <$> l)) as [e|]; cbn.
    + specialize (Hpos e eq_refl). replace (e <=? 0) with false by lia. split; [done|]. by intros ? [= <-].
    + split; [done|]. by intros ? [= <-].
  - rewrite bool_decide_false by done. by rewrite profileStatuses_absent.
Qed.
Lemma first_observed_after n l g names l' : n ∉ names → Forall (λ v, g < v.1) l' →
  default 0 (first_observed n (l ++ (g, names) :: l')) = 0 ∨ g < default 0 (first_observed n (l ++ (g, names) :: l')).
Proof.
  intros Hn Hl. replace (first_observed n (l ++ (g, names) :: l')) with (foldl (epoch_step n) None l')
    by (unfold first_observed; rewrite foldl_app; cbn [foldl]; f_equal; unfold epoch_step; by rewrite bool_decide_false).
  assert (match foldl (epoch_step n) None l' with Some e => g < e | None => True end) as H; [|destruct (foldl (epoch_step n) None l'); [by right|by left]].
  induction l' as [|v l' IH] using rev_ind; [done|]. apply Forall_app in Hl as [Hl [Hv _]%Forall_cons]. specialize (IH Hl).
  rewrite foldl_app. cbn. unfold epoch_step at 1. case_bool_decide; [|done]. by destruct (foldl _ _ _).
Qed.
(** C29: Profile epochs identify incarnations.  However the versions of a
    pool's profiles followed each other, the epoch recorded for a name is the
    generation at which it appeared and has stayed since; and when a profile
    was removed and is there again, its epoch is newer than the version
    without it, so nothing filed under the old one is used. *)
Theorem profile_epochs_exact l n : Forall (λ p, 0 < pp_generation p ∧ NoDup (tp_name <$> Profiles p)) l →
  epoch_in n (reconciled_profiles l) = default 0 (first_observed n (observed_version <$> l)) ∧
  ∀ l1 pool l2, l = l1 ++ pool :: l2 → n ∉ tp_name <$> Profiles pool → Forall (λ p, pp_generation pool < pp_generation p) l2 →
    epoch_in n (reconciled_profiles l) = 0 ∨ pp_generation pool < epoch_in n (reconciled_profiles l).
Proof.
  intros Hl. destruct (reconciled_epochs l n Hl) as (_&E&_). split; [done|]. intros l1 pool l2 -> Hn Hg. rewrite E, fmap_app, fmap_cons.
  pose proof (first_observed_after n (observed_version <$> l1) (pp_generation pool) (tp_name <$> Profiles pool) (observed_version <$> l2) Hn) as H.
  change (observed_version pool) with (pp_generation pool, tp_name <$> Profiles pool).
  apply H. by apply Forall_fmap.
Qed.

(** ** What the status says *)

Section status.
Context {digest : Digest} {order : MapOrder} {urls : UrlParser} {conditions : StatusConditions} (api : nat → cluster).

Lemma verdict_set kind l cs c cs' : kind = c_type c → Forall (λ x, c_type x ≠ c_type c) cs' → verdict kind (set_conditions l (cs ++ c :: cs')) = c_status c.
Proof. intros ->. apply verdict_last. Qed.
Lemma failed_verdicts pool states now : verdict ConditionReady (pp_conditions (failed_status pool states now)) = ConditionFalse ∧
  verdict ConditionSourcesReady (pp_conditions (failed_status pool states now)) = ConditionFalse.
Proof.
  cbn [pp_conditions failed_status]. split.
  - by apply (verdict_set ConditionReady _ [_]); [|constructor].
  - by apply (verdict_set ConditionSourcesReady _ []); [|repeat constructor].
Qed.
Lemma built_verdicts r pool b now :
  verdict ConditionReady (pp_conditions (built_status r pool b now)) = (if 0 <? Z.of_nat (length (pool_inventory b)) then ConditionTrue else ConditionFalse) ∧
  verdict ConditionSourcesReady (pp_conditions (built_status r pool b now)) =
    (if all_fresh (refreshed_state (pr_refresher r) (pp_uid pool) <$> pr_sources b) then ConditionTrue else ConditionFalse).
Proof.
  cbn [pp_conditions built_status]. destruct (_ <? _), (all_fresh _); (split;
    [by apply (verdict_set ConditionReady _ [_]); [|constructor]|by apply (verdict_set ConditionSourcesReady _ []); [|repeat constructor]]).
Qed.
(** Setting the same status again at a later time. *)
Lemma profiles_again pool s : NoDup (tp_name <$> Profiles pool) → pp_profiles s = profileStatuses pool → 0 < pp_generation pool →
  profileStatuses (with_status s pool) = profileStatuses pool.
Proof.
  intros Hn Hs Hg. unfold profileStatuses. f_equal. change (Profiles (with_status s pool)) with (Profiles pool). apply list_fmap_ext. intros i p Hp.
  unfold profile_status. f_equal. cbn [pp_status with_status pp_generation]. rewrite Hs.
  assert (NoDup (pf_name <$> profileStatuses pool)) as Hn' by by rewrite profileStatuses_names.
  apply list_elem_of_lookup_2 in Hp. rewrite (last_with_unique pf_name (tp_name p) (profileStatuses pool) (profile_status pool p)); [|done| |done].
  - unfold profile_status. cbn [FirstObservedGeneration]. generalize (match last_with pf_name (tp_name p) (pp_profiles (pp_status pool)) with Some s => FirstObservedGeneration s | None => 0 end).
    intros e. destruct (e <=? 0) eqn:E; [by replace (pp_generation pool <=? 0) with false by lia|by rewrite E].
  - unfold profileStatuses. apply go_sort_elem_of. by apply list_elem_of_fmap_2.
Qed.
(** A partial image under distinct names has each name at most once. *)
Lemma last_with_omap {A B} (id : A → string) (name : B → string) (f : A → option B) l d : NoDup (id <$> l) → d ∈ l →
  (∀ x b, f x = Some b → name b = id x) → last_with name (id d) (omap f l) = f d.
Proof.
  intros Hn Hd Hf. assert (∀ b, b ∈ omap f l → name b = id d → f d = Some b) as Hu.
  { intros b (x&Hx&Eb)%list_elem_of_omap E. rewrite (Hf x b Eb) in E. assert (x = d) as ->; [|done].
    apply list_elem_of_lookup in Hx as [i Hi]. apply list_elem_of_lookup in Hd as [j Hj]. assert (i = j) as <-; [|congruence].
    apply (NoDup_lookup (id <$> l) i j (id d) Hn); rewrite list_lookup_fmap; [rewrite Hi; cbn; by rewrite E|by rewrite Hj]. }
  destruct (last_with name (id d) (omap f l)) as [b|] eqn:E.
  - apply last_with_Some in E as [Hb Eb]. symmetry. by apply Hu.
  - destruct (f d) as [b|] eqn:Ed; [|done]. assert (b ∈ omap f l) as Hb by (apply list_elem_of_omap; by exists d).
    exfalso. unfold last_with in E. rewrite <-elem_of_reverse, list_elem_of_In in Hb. apply (List.find_none _ _ E) in Hb.
    rewrite bool_decide_true in Hb by (by apply Hf). done.
Qed.
Lemma merge_again_sources pool states s : NoDup (ss_id <$> Sources pool) → pp_sources s = mergeHTTPSourceStatus pool states →
  mergeHTTPSourceStatus (with_status s pool) states = mergeHTTPSourceStatus pool states.
Proof.
  intros Hn Hs. unfold mergeHTTPSourceStatus at 1. change (Sources (with_status s pool)) with (Sources pool). cbn [pp_status with_status]. rewrite Hs.
  unfold mergeHTTPSourceStatus. set (u := sourceStatus <$> states). set (f := source_choice u (pp_sources (pp_status pool))).
  assert (∀ x b, f x = Some b → ss_ID b = ss_id x) as Hf.
  { intros x b. unfold f, source_choice. destruct (last_with _ _ u) eqn:E; [intros [= <-]|intros E']; by eapply last_with_Some. }
  assert (∀ l : list SubscriptionSource, (∀ d, d ∈ l → d ∈ Sources pool) → omap (source_choice u (omap f (Sources pool))) l = omap f l) as Hl; [|by apply Hl].
  induction l as [|d l IH]; intros Hl; [done|]. cbn. rewrite IH by (intros x Hx; apply Hl; by right).
  assert (source_choice u (omap f (Sources pool)) d = f d) as ->; [|done].
  unfold source_choice at 1. rewrite (last_with_omap ss_id ss_ID f (Sources pool) d Hn) by (done || (apply Hl; by left)).
  unfold f, source_choice. by destruct (last_with _ _ u).
Qed.

Lemma status_ext (a b : ProxyPoolStatus) : pp_observedGeneration a = pp_observedGeneration b → AcceptedEndpoints a = AcceptedEndpoints b →
  RejectedRecords a = RejectedRecords b → UnsupportedRecords a = UnsupportedRecords b → LastInventoryChangeTime a = LastInventoryChangeTime b →
  pp_sources a = pp_sources b → pp_profiles a = pp_profiles b → pp_conditions a = pp_conditions b → a = b.
Proof. destruct a, b. cbn. by intros -> -> -> -> -> -> -> ->. Qed.
Lemma change_time_again r pool b now now' : (∀ v, pr_refresher r = Some v → rv_lastChange v (pp_uid pool) ≤ now) →
  LastInventoryChangeTime (built_status r (with_status (built_status r pool b now) pool) b now') = LastInventoryChangeTime (built_status r pool b now).
Proof.
  intros Hr. set (s := built_status r pool b now).
  assert (∃ t, LastInventoryChangeTime s = Some t ∧ ∀ v, pr_refresher r = Some v → rv_lastChange v (pp_uid pool) ≤ t) as (t&Et&Ht).
  { unfold s, built_status. cbn [LastInventoryChangeTime]. destruct (_ || _) eqn:E; [by exists now|].
    apply orb_false_iff in E as [[[E1 _]%orb_false_iff _]%orb_false_iff E2]. destruct (LastInventoryChangeTime (pp_status pool)) as [t|]; [|by rewrite bool_decide_true in E1].
    exists t. split; [done|]. intros v Hv. rewrite Hv in E2. cbn in E2. lia. }
  unfold built_status. cbn [LastInventoryChangeTime pp_status with_status pp_generation pp_uid]. rewrite Et. cbn [default].
  unfold s, built_status. cbn [AcceptedEndpoints RejectedRecords UnsupportedRecords pp_observedGeneration]. rewrite !Z.eqb_refl. cbn [negb orb].
  destruct (pr_refresher r) as [v|]; [|done]. specialize (Ht v eq_refl).
  replace (id t <? rv_lastChange v (pp_uid pool)) with false by (unfold id; lia). done.
Qed.
(** A reconciliation that finds nothing new changes nothing.  Over the status
    that a reconciliation left, the same build and the same refresher answers
    give that status again at any later time, transition and change times
    included. *)
Theorem pool_status_stable r pool now now' : NoDup (tp_name <$> Profiles pool) → NoDup (ss_id <$> Sources pool) → 0 < pp_generation pool →
  (∀ v, pr_refresher r = Some v → rv_lastChange v (pp_uid pool) ≤ now) →
  (∀ b, let s := built_status r pool b now in built_status r (with_status s pool) b now' = s) ∧
  (∀ states, let s := failed_status pool states now in failed_status (with_status s pool) states now' = s).
Proof.
  intros Hp Hi Hg Hr. split; [intros b|intros states]; cbv zeta; apply status_ext; try reflexivity.
  - by apply change_time_again.
  - by apply profiles_again.
  - cbn [pp_conditions built_status]. apply set_conditions_idem; destruct (all_fresh _), (_ <? _); solve [repeat constructor; set_solver].
  - cbn [pp_sources failed_status]. destruct states as [|x states]; [done|]. by apply merge_again_sources.
  - by apply profiles_again.
  - cbn [pp_conditions failed_status]. apply set_conditions_idem; solve [repeat constructor; set_solver].
Qed.

(** ** When to look again *)

Lemma refreshInterval_bounds v : 30 * second ≤ refreshInterval v ≤ 24 * hour.
Proof. unfold refreshInterval, hour, minute, second. destruct (_ || _) eqn:E; lia. Qed.
Lemma Sum32_nonneg uid : 0 ≤ Sum32 uid.
Proof.
  unfold Sum32. assert (∀ l h, 0 ≤ h → 0 ≤ fnv32a h l) as H; [|by apply H].
  induction l as [|c l IH]; intros h Hh; [done|]. cbn [fnv32a]. apply IH. by apply Z.mod_pos_bound.
Qed.
(** A spread of at most a tenth. *)
Lemma requeueAfter_bounds v uid : let base := refreshInterval v in base ≤ requeueAfter v uid ∧ requeueAfter v uid * 1000 ≤ base * (1000 + RequeueJitterPermille).
Proof.
  cbv zeta. unfold requeueAfter, RequeueJitterPermille. pose proof (refreshInterval_bounds v) as Hb. set (base := refreshInterval v) in *.
  assert (0 ≤ Sum32 uid `mod` (100 * 10 + 1) ≤ 1000) as Hm by (change (100 * 10 + 1) with 1001; pose proof (Z.mod_pos_bound (Sum32 uid) 1001); lia).
  set (j := Sum32 uid `mod` (100 * 10 + 1)) in *. unfold hour, minute, second in Hb.
  rewrite (Z.mod_small (base * j)) by (split; nia).
  assert (0 ≤ base * j / 10000) by (apply Z.div_pos; nia). pose proof (Z.mul_div_le (base * j) 10000). nia.
Qed.
Lemma cacheAwareRequeue_bounds refresh expiry now : second ≤ refresh → second ≤ cacheAwareRequeue refresh expiry now ≤ refresh ∧
  (now < expiry → expiry ≠ 0 → cacheAwareRequeue refresh expiry now ≤ Z.max second (expiry - now)).
Proof. intros Hr. unfold cacheAwareRequeue. destruct (_ || _) eqn:E; [lia|]. destruct (refresh <=? _) eqn:E2; [lia|]. destruct (_ <? second) eqn:E3; lia. Qed.

(** ** The whole reconciliation *)

Lemma all_fresh_spec r uid l : all_fresh (refreshed_state r uid <$> l) = true ↔
  ∀ st, st ∈ l → st_state st = "Fresh" ∧ ∀ v, r = Some v → rv_failure v (uid +:+ "/" +:+ st_id st) = "".
Proof.
  unfold all_fresh. rewrite forallb_forall. split.
  - intros H st Hs. specialize (H (refreshed_state r uid st) ltac:(by apply list_elem_of_In, list_elem_of_fmap_2)).
    bool_to_prop. unfold refreshed_state in H. destruct r as [v|]; [|by split].
    destruct (bool_decide (st_state st = "Fresh")) eqn:E; cbn in H; bool_to_prop; [|done].
    destruct (bool_decide (rv_failure v _ = "")) eqn:E2; [|done]. bool_to_prop. split; [done|]. by intros ? [= <-].
  - intros H x (st&->&Hs)%list_elem_of_In%list_elem_of_fmap. destruct (H st Hs) as [Hf Hv]. apply bool_decide_true. unfold refreshed_state.
    destruct r as [v|]; [|done]. by rewrite (Hv v eq_refl), !bool_decide_true.
Qed.
(** The result [b] of the build is what the stored or unchanged status [s] reports. *)
Record reports (r : ProxyPoolReconciler) (pool : ProxyPool) (b : option PoolResult) (now : Z) (s : ProxyPoolStatus) : Prop := {
  rp_generation : pp_observedGeneration s = pp_generation pool;
  rp_ready : verdict ConditionReady (pp_conditions s) = ConditionTrue ↔ ∃ x, b = Some x ∧ pool_inventory x ≠ [];
  rp_sources : verdict ConditionSourcesReady (pp_conditions s) = ConditionTrue ↔ ∃ x, b = Some x ∧
    ∀ st, st ∈ pr_sources x → st_state st = "Fresh" ∧ ∀ v, pr_refresher r = Some v → rv_failure v (pp_uid pool +:+ "/" +:+ st_id st) = "";
  rp_accepted : match b with
                | Some x => Z.of_nat (length (pool_inventory x)) < 2 ^ 31 → AcceptedEndpoints s = Z.of_nat (length (pool_inventory x))
                | None => AcceptedEndpoints s = 0
                end;
  rp_change : AcceptedEndpoints s ≠ AcceptedEndpoints (pp_status pool) → LastInventoryChangeTime s = Some now;
}.
Lemma built_reports r pool x now : reports r pool (Some x) now (built_status r pool x now).
Proof.
  destruct (built_verdicts r pool x now) as [Hr Hs]. split.
  - done.
  - rewrite Hr. destruct (pool_inventory x) as [|y l] eqn:E; cbn; (split; [|naive_solver]).
    + by intros [=].
    + intros _. exists x. by rewrite E.
  - rewrite Hs. destruct (all_fresh _) eqn:E.
    + split; [|done]. intros _. exists x. split; [done|]. by apply all_fresh_spec.
    + split; [by intros [=]|]. intros (y&[= <-]&H). by rewrite (proj2 (all_fresh_spec _ _ _) H) in E.
  - intros Hl. cbn. unfold wrap32. rewrite Z.mod_small; lia.
  - cbn. intros Hne. destruct (_ =? _) eqn:E; [lia|]. by rewrite orb_true_r || (cbn; rewrite ?orb_true_r).
Qed.
Lemma failed_reports r pool states now : reports r pool None now (failed_status pool states now).
Proof.
  destruct (failed_verdicts pool states now) as [Hr Hs]. split; [done|rewrite Hr; split; [by intros [=]|naive_solver]|rewrite Hs; split; [by intros [=]|naive_solver]|done|].
  cbn. intros Hne. by destruct (AcceptedEndpoints (pp_status pool) =? 0) eqn:E; [lia|].
Qed.
Lemma M_bind_total {A B} (m : M A) (k : A → M B) w : (∃ a w1, m w = (Ok a, w1)) → (∀ a w1, ∃ b w2, k a w1 = (Ok b, w2)) → ∃ b w2, (m ≫= k) w = (Ok b, w2).
Proof. intros (a&w1&E) Hk. unfold mbind, M_bind. rewrite E. apply Hk. Qed.
Lemma try_build_total st over now pool w : ∃ b w', try_build api st over now pool w = (Ok b, w').
Proof. unfold try_build. destruct (BuildPoolWithCache _ _ _ _ _ _) as [[]]; eauto. Qed.
Lemma cached_states_total over now pool l e w : ∃ x w', cached_states api over now pool l e w = (Ok x, w').
Proof.
  revert e w. induction l as [|d l IH]; intros e w; cbn [cached_states]; [unfold mret, M_ret; eauto|]. destruct (ss_http d); [|apply IH].
  apply M_bind_total; [apply try_build_total|]. intros b w1. cbv zeta. apply M_bind_total; [apply IH|]. intros [] w2. unfold mret, M_ret. eauto.
Qed.
(** A reconciliation always comes to an answer. *)
Lemma Reconcile_total r over now name update w : ∃ ans written w', Reconcile api r over now name update w = (Ok (ans, written), w').
Proof.
  assert (∃ x w', Reconcile api r over now name update w = (Ok x, w')) as ([]&?&?); [|eauto].
  unfold Reconcile. apply M_bind_total; [unfold read_Pool; eauto|]. intros a w1. destruct a as [pool| |]; [|unfold mret, M_ret; eauto..].
  apply M_bind_total; [|intros [[] ] w2; unfold mret, M_ret; eauto]. unfold next_status. apply M_bind_total; [apply try_build_total|].
  intros [b|] w2; [unfold mret, M_ret; eauto|]. destruct (pr_store r); [|unfold mret, M_ret; eauto].
  apply M_bind_total; [apply cached_states_total|]. intros [] w3. unfold mret, M_ret. eauto.
Qed.
(** C30: A pool's status is the truth about its inventory.  The status left by
    a reconciliation is of the current generation, is ready exactly if the
    build gave a non-empty inventory, reports its size, and calls the sources
    ready exactly if every one is fresh and its last refresh did not fail;
    and the pool is looked at again between a second and 26.4 hours later. *)
Theorem pool_status_truthful r over now name update w pool : get_Pool (api (reads w)) name = Found pool →
  ∃ ans written w' b w1, Reconcile api r over now name update w = (Ok (ans, written), w') ∧
    try_build api (pr_store r) over now pool {| reads := S (reads w); store := store w |} = (Ok b, w1) ∧
    reports r pool b now (default (pp_status pool) written) ∧ (update ≠ UpdateFailed → ∃ d, ans = RequeueAfter d) ∧
    ∀ d, ans = RequeueAfter d → second ≤ d ≤ 24 * hour + 24 * hour / 10.
Proof.
  intros Hp. destruct (Reconcile_total r over now name update w) as (ans&written&w'&Hrun). exists ans, written, w'. revert Hrun.
  unfold Reconcile. intros Hrun. pose proof Hrun as (a&w1&Ha&H)%M_bind_Ok. unfold read_Pool in Ha. rewrite Hp in Ha. injection Ha as <- <-.
  apply M_bind_Ok in H as ([[s built] expiry]&w2&Hs&H). apply mret_Ok in H as [H ->]. unfold next_status in Hs.
  apply M_bind_Ok in Hs as (b&w3&Hb&Hs). exists b, w3. split; [done|]. split; [done|].
  assert (reports r pool b now s) as Hrep.
  { destruct b as [x|]; [apply mret_Ok in Hs as [[= -> -> ->] _]; apply built_reports|].
    destruct (pr_store r); [|apply mret_Ok in Hs as [[= -> -> ->] _]; apply failed_reports].
    apply M_bind_Ok in Hs as ([states e]&w4&_&Hs). apply mret_Ok in Hs as [[= -> -> ->] _]. apply failed_reports. }
  assert (default (pp_status pool) written = s) as ->.
  { destruct (same_pool_status built (pp_status pool) s) eqn:E; [|destruct update; by injection H as -> ->].
    apply andb_true_iff in E as [[E _]%andb_true_iff _]. apply bool_decide_eq_true in E. by injection H as -> ->. }
  split; [done|]. split.
  - intros Hu. destruct (same_pool_status _ _ _); [injection H as -> _; by eexists|]. destruct update; [..|done]; injection H as -> _; by eexists.
  - intros d ->. assert (d = cacheAwareRequeue (requeueAfter (durationValue (RefreshInterval pool)) (pp_uid pool)) expiry now) as ->.
    { destruct (same_pool_status _ _ _); [by injection H|]. destruct update; [by injection H..|done]. }
    destruct (requeueAfter_bounds (durationValue (RefreshInterval pool)) (pp_uid pool)) as [H1 H2].
    pose proof (refreshInterval_bounds (durationValue (RefreshInterval pool))) as Hi. unfold RequeueJitterPermille in H2.
    destruct (cacheAwareRequeue_bounds (requeueAfter (durationValue (RefreshInterval pool)) (pp_uid pool)) expiry now) as [Hc _];
      unfold hour, minute, second in *; [lia|]. change (24 * (60 * (60 * 1000000000)) / 10) with 8640000000000. lia.
Qed.
(** The comparison does not see through a nil slice: the status of a pool
    without named profiles is written at every reconciliation, also when
    nothing changed. *)
Theorem unprofiled_status_always_written r over now name update w pool : get_Pool (api (reads w)) name = Found pool → Profiles pool = [] →
  ∃ ans s w', Reconcile api r over now name update w = (Ok (ans, Some s), w').
Proof.
  intros Hp He. destruct (Reconcile_total r over now name update w) as (ans&written&w'&Hrun). rewrite Hrun.
  unfold Reconcile in Hrun. apply M_bind_Ok in Hrun as (a&w1&Ha&H). unfold read_Pool in Ha. rewrite Hp in Ha. injection Ha as <- <-.
  apply M_bind_Ok in H as ([[s built] expiry]&w2&Hs&H). apply mret_Ok in H as [H ->].
  assert (pp_profiles s = []) as E0.
  { unfold next_status in Hs. apply M_bind_Ok in Hs as (b&w3&_&Hs).
    assert (profileStatuses pool = []) as Ep by (unfold profileStatuses; by rewrite He).
    destruct b as [x|]; [apply mret_Ok in Hs as [[= -> -> ->] _]; exact Ep|].
    destruct (pr_store r); [|apply mret_Ok in Hs as [[= -> -> ->] _]; exact Ep].
    apply M_bind_Ok in Hs as ([states e]&w4&_&Hs). apply mret_Ok in Hs as [[= -> -> ->] _]. exact Ep. }
  assert (same_pool_status built (pp_status pool) s = false) as Es.
  { unfold same_pool_status. rewrite (bool_decide_true (pp_profiles s = [])) by done. by rewrite andb_false_r. }
  rewrite Es in H. destruct update; injection H as -> ->; eauto.
Qed.
End status.

(** ** Which Secrets a pool depends on *)

Section index.
Context {digest : Digest} {order : MapOrder} {urls : UrlParser} (api : nat → cluster).

Definition within (ns : string) (l : list string) (r : Revisions) : Prop := ∀ n, is_Some (r !! n) → nn_namespace n = ns ∧ nn_name n ∈ l.
Lemma within_empty ns l : within ns l ∅.
Proof. intros n [? H]. by rewrite lookup_empty in H. Qed.
Lemma within_insert ns l r name v : within ns l r → name ∈ l → within ns l (<[{| nn_namespace := ns; nn_name := name |} := v]> r).
Proof. intros Hr Hn n [y H]. apply lookup_insert_Some in H as [[<- _]|[_ H]]; [done|]. apply Hr. by exists y. Qed.
Lemma within_union ns l r r' : within ns l r → within ns l r' → within ns l (r ∪ r').
Proof. intros H1 H2 n [y [H|[_ H]]%lookup_union_Some_raw]; [apply H1|apply H2]; by exists y. Qed.
Lemma within_mono ns l l' r : within ns l r → l ⊆ l' → within ns l' r.
Proof. intros H Hl n Hn. destruct (H n Hn). split; [done|by apply Hl]. Qed.

Lemma read_key_within ns l r ref w v r' w' : within ns l r → ref_name ref ∈ l → read_key api ns r ref w = (Ok (v, r'), w') → within ns l r'.
Proof.
  intros Hr Hn. unfold read_key. intros H. m_inv. repeat case_match; m_inv; [|done..]. by apply within_insert.
Qed.
Lemma secret_headers_within ns l hs h r w h' r' w' : within ns l r → (∀ x, x ∈ hs → ref_name (sh_secretRef x) ∈ l) →
  secret_headers api ns hs h r w = (Ok (h', r'), w') → within ns l r'.
Proof.
  revert h r w. induction hs as [|x hs IH]; intros h r w Hr Hl H; cbn [secret_headers] in H; [m_inv; done|].
  m_inv. match goal with Hk : read_key _ _ _ _ _ = _ |- _ => apply read_key_within with (l:=l) in Hk; [|done|apply Hl; by left] end.
  eapply IH; [done| |done]. intros y Hy. apply Hl. by right.
Qed.
Lemma ResolveHTTP_within pool d w c w' : ResolveHTTP api pool d w = (Ok c, w') → within (pp_namespace pool) (source_secrets d) (hc_revisions c).
Proof.
  unfold ResolveHTTP, source_secrets. destruct (ss_http d) as [h|]; [|done]. intros H. m_inv. cbn [hc_revisions].
  set (l := _ ++ _).
  match goal with Hk : secret_headers _ _ _ _ _ _ = _ |- _ => apply secret_headers_within with (l:=l) in Hk; [done| |] end.
  - match goal with Hk : read_optional _ _ _ _ _ = (Ok (_, ?r), _) |- within _ _ ?r => unfold read_optional in Hk; destruct (AuthorizationSecretRef h) eqn:E; m_inv end.
    + eapply read_key_within; [| |eassumption]; [|unfold l; set_solver].
      eapply read_key_within; [| |eassumption]; [apply within_empty|unfold l; set_solver].
    + eapply read_key_within; [| |eassumption]; [apply within_empty|unfold l; set_solver].
  - intros y Hy. unfold l. apply elem_of_app. right. right. apply elem_of_app. right. by apply (list_elem_of_fmap_2 (λ x, ref_name (sh_secretRef x))).
Qed.
Lemma record_references_within ns l refs r w r' w' : within ns l r → (∀ x, x ∈ refs → ref_name x ∈ l) →
  record_references api ns refs r w = (Ok r', w') → within ns l r'.
Proof.
  revert r w. induction refs as [|x refs IH]; intros r w Hr Hl H; cbn [record_references] in H; [m_inv; done|].
  m_inv. case_match; m_inv; (eapply IH; [|by intros y Hy; apply Hl; right|done]); (apply within_insert; [done|apply Hl; left]).
Qed.
Definition within_sources (pool : ProxyPool) (r : Revisions) : Prop := within (pp_namespace pool) (Sources pool ≫= source_secrets) r.
Lemma source_secrets_in pool d : d ∈ Sources pool → source_secrets d ⊆ Sources pool ≫= source_secrets.
Proof. intros Hd x Hx. apply list_elem_of_bind. by exists d. Qed.
Lemma use_entry_revisions over now pool d h c e b : SourceRevisions (b_result (use_entry over now pool d h c e b)) = SourceRevisions (b_result b).
Proof. unfold use_entry. repeat case_match; done. Qed.
Lemma build_http_within cache over now pool d h b w b' w' : d ∈ Sources pool → ss_http d = Some h → within_sources pool (SourceRevisions (b_result b)) →
  build_http api cache over now pool d h b w = (Ok b', w') → within_sources pool (SourceRevisions (b_result b')).
Proof.
  intros Hd Hh Hb H. unfold build_http in H. m_inv. unfold recordHTTPReferences in *.
  match goal with Hk : record_references _ _ _ _ _ = _ |- _ => apply record_references_within with (l:=Sources pool ≫= source_secrets) in Hk; [|done|] end.
  2: { intros y Hy. apply (source_secrets_in pool d Hd). unfold source_secrets. rewrite Hh. apply elem_of_app. right. unfold http_references in Hy.
       destruct (AuthorizationSecretRef h); set_solver. }
  match goal with Hk : try_resolve _ _ _ _ = (Ok ?o, _) |- _ => unfold try_resolve in Hk; destruct o as [c|] end; m_inv; [|done].
  match goal with Hk : match ResolveHTTP ?a ?p ?d ?w with _ => _ end = _ |- _ => destruct (ResolveHTTP a p d w) as [[c'|[]] ?] eqn:E; simplify_eq end.
  apply ResolveHTTP_within in E. match goal with Hk : within _ (Sources pool ≫= source_secrets) ?x1 |- _ => assert (within_sources pool (hc_revisions c ∪ x1)) as Hw end.
  { apply within_union; [|done]. eapply within_mono; [done|]. by apply source_secrets_in. }
  repeat case_match; m_inv; rewrite ?use_entry_revisions; done.
Qed.
Lemma build_secret_within over pool d b w b' w' : d ∈ Sources pool → within_sources pool (SourceRevisions (b_result b)) →
  build_secret api over pool d b w = (Ok b', w') → within_sources pool (SourceRevisions (b_result b')).
Proof.
  intros Hd Hb H. unfold build_secret in H. destruct (SecretRef d) as [ref|] eqn:Er; [|done]. m_inv.
  repeat (case_match; m_inv; try done). cbn. apply within_insert; [done|]. apply (source_secrets_in pool d Hd). unfold source_secrets. rewrite Er. by left.
Qed.
Lemma build_loop_within cache over now pool l b w b' w' : (∀ d, d ∈ l → d ∈ Sources pool) → within_sources pool (SourceRevisions (b_result b)) →
  build_loop api cache over now pool l b w = (Ok b', w') → within_sources pool (SourceRevisions (b_result b')).
Proof.
  revert b w. induction l as [|d l IH]; intros b w Hl Hb H; cbn [build_loop] in H; [m_inv; done|]. apply M_bind_Ok in H as (b1&w1&H1&H2).
  eapply IH; [|..|exact H2]; [intros x Hx; apply Hl; by right|]. destruct (ss_http d) as [h|] eqn:Eh.
  - eapply build_http_within; [|..|exact H1]; [apply Hl; by left|done|done].
  - eapply build_secret_within; [|..|exact H1]; [apply Hl; by left|done].
Qed.
Lemma unique_from_elem seen l v : v ≠ "" → v ∈ l → v ∉ seen → v ∈ unique_from seen l.
Proof.
  intros Hv. revert seen. induction l as [|x l IH]; intros seen Hl Hs; [set_solver|]. cbn.
  apply elem_of_cons in Hl as [<-|Hl]; [rewrite !bool_decide_false by done; by left|].
  destruct (_ && _); [|by apply IH]. destruct (decide (v = x)) as [-> |Hx]; [by left|]. right. apply IH; [done|set_solver].
Qed.
Lemma find_profile_elem name seen sel l p : find_profile name seen sel l = Ok (Some p) → sel = Some p ∨ p ∈ l.
Proof.
  revert seen sel. induction l as [|x l IH]; intros seen sel; cbn; [by intros [= ->]; left|]. destruct (_ || _); [done|].
  intros [E|E]%IH; [|right; by right]. case_bool_decide; [injection E as ->; right; left|by left].
Qed.
Lemma poolsForSecret_elem pools pool secret : pool ∈ pools → secret ∈ pool_secrets pool →
  pool_request pool ∈ poolsForSecret (Some pools) (pp_namespace pool) secret.
Proof.
  intros Hp Hs. unfold poolsForSecret. apply go_sort_elem_of, list_elem_of_fmap_2, list_elem_of_In, filter_In. split; [by apply list_elem_of_In|].
  by rewrite !bool_decide_true.
Qed.
(** The index covers every Secret a build recorded and every target. *)
Lemma pool_secrets_cover cache over now pool w r w' : BuildPoolWithCache api cache over now pool w = (Ok r, w') →
  ∀ n, is_Some (SourceRevisions r !! n) → nn_name n ≠ "" → nn_namespace n = pp_namespace pool ∧ nn_name n ∈ pool_secrets pool.
Proof.
  intros H n Hn Hne. unfold BuildPoolWithCache in H. m_inv.
  match goal with Hl : build_loop _ _ _ _ _ _ _ _ = _ |- _ => apply build_loop_within in Hl as Hw; [|done|apply within_empty] end.
  destruct (Hw n Hn) as [-> Hin]. split; [done|]. apply unique_from_elem; set_solver.
Qed.
Lemma pool_secrets_target pool name spec sel : ResolveProfile pool name = Ok (spec, sel) → ref_name (TargetSecretRef spec) ≠ "" →
  ref_name (TargetSecretRef spec) ∈ pool_secrets pool.
Proof.
  intros Hr Hne. apply unique_from_elem; [done| |set_solver]. unfold ResolveProfile in Hr.
  destruct (8 <? _); [done|]. destruct (negb _ && _); [done|]. match type of Hr with context [find_profile ?nm _ _ _] => set (name' := nm) in Hr end.
  destruct (find_profile name' [] None (Profiles pool)) as [[p|]|] eqn:E; cbn in Hr; [| |done].
  - injection Hr as <- <-. apply find_profile_elem in E as [|Hin]; [done|]. apply elem_of_app. right. right.
    by apply (list_elem_of_fmap_2 (λ p, ref_name (TargetSecretRef (tp_probe p)))).
  - case_bool_decide; [|done]. injection Hr as <- <-. apply elem_of_app. right. left.
Qed.
End index.

(** ** A concrete pool *)

Module PoolControllerSample.
#[local] Existing Instance toy_digest.
#[local] Existing Instance plain_conditions.
Definition controller : ProxyPoolReconciler := {| pr_store := true; pr_refresher := None |}.
Definition name : NamespacedName := {| nn_namespace := "ns"; nn_name := "p" |}.
Lemma pool_status_truthful_witness : ∃ ans written w',
  Reconcile PoolSample.api controller (λ _, false) (unix_epoch + hour) name Updated PoolSample.start = (Ok (ans, written), w') ∧
  pp_observedGeneration (default (pp_status PoolSample.pool) written) = 1.
Proof.
  destruct (pool_status_truthful PoolSample.api controller (λ _, false) (unix_epoch + hour) name Updated PoolSample.start PoolSample.pool eq_refl)
    as (ans&written&w'&b&w1&E&_&Hr&_). exists ans, written, w'. split; [exact E|]. rewrite (rp_generation _ _ _ _ _ Hr). reflexivity.
Defined.
Lemma pool_status_stable_witness : ∀ states,
  failed_status (with_status (failed_status PoolSample.pool states 5) PoolSample.pool) states 9 = failed_status PoolSample.pool states 5.
Proof.
  apply (pool_status_stable controller PoolSample.pool 5 9); [constructor| |reflexivity|intros v [=]]. apply (bool_decide_unpack _). reflexivity.
Defined.
Definition version_of (generation : Z) (profiles : list string) : ProxyPool :=
  {| pp_namespace := "ns"; pp_name := "p"; pp_uid := "u"; pp_generation := generation; Sources := []; Probe := Probe PoolSample.pool;
     pp_selection := pp_selection PoolSample.pool;
     Profiles := (λ n, {| tp_name := n; tp_probe := Probe PoolSample.pool; tp_selection := pp_selection PoolSample.pool |}) <$> profiles;
     RefreshInterval := None; pp_allowInsecureTLS := false; pp_status := pp_status PoolSample.pool |}.
(** The profile "web" is removed at generation 3 and back at 4. *)
Definition versions : list ProxyPool := [version_of 1 ["api"]; version_of 2 ["api"; "web"]; version_of 3 ["api"]; version_of 4 ["api"; "web"]].
Lemma profile_epochs_exact_witness : epoch_in "web" (reconciled_profiles versions) = 4 ∧ epoch_in "api" (reconciled_profiles versions) = 1.
Proof.
  assert (Forall (λ p, 0 < pp_generation p ∧ NoDup (tp_name <$> Profiles p)) versions) as H.
  { repeat constructor; cbn; set_solver. }
  split; [rewrite (proj1 (profile_epochs_exact versions "web" H))|rewrite (proj1 (profile_epochs_exact versions "api" H))]; reflexivity.
Defined.
End PoolControllerSample.
