(* ===== verification/Contracts.v ===== *)
(** * What reconciliation relies on (interfaces of internal/reconcile/reconcile.go)

    [Decisions] and [Publisher] are Go interfaces.  Here each is a class: the
    operations over some world, an abstraction of the world to what the
    client may observe, and the laws of that abstraction.  The SQLite store
    (Checkpoint.v) and the Secret publisher (SecretPublisher.v) are instances;
    Reconcile.v is proved from the laws alone. *)
From S2P Require Import Prelude Order Bytes Encoding Identity Artifact Observation Selection.
Open Scope Z_scope.

(** ** Decisions *)

(** A decision with the receipt of the artifact made from it. *)
Definition decision_record : Type := State * string.
(** What a scope has stored: the committed decision and the staged one. *)
Record slots := { committed : option decision_record; pending : option decision_record }.

Definition stage_slot (c : decision_record) (x : slots) : slots := {| committed := committed x; pending := Some c |}.
Definition commit_slot (current : string) (x : slots) : option slots :=
  match pending x with
  | Some c => if Receipt_Equal c.2 current then Some {| committed := Some c; pending := None |} else None
  | None => None
  end.
(** The staged decision is settled by the receipt found at the publisher. *)
Definition settle_slots (current : option string) (x : slots) : slots :=
  match pending x with
  | None => x
  | Some c => if bool_decide (Some c.2 = current) then {| committed := Some c; pending := None |}
              else {| committed := committed x; pending := None |}
  end.
Definition decided (current : option string) (x : slots) : option State :=
  c ← committed x; if bool_decide (Some c.2 = current) then Some c.1 else None.
Definition stored_in (c : decision_record) (x : slots) : Prop := committed x = Some c ∨ pending x = Some c.
(** The decision that survives: what a recovery with that receipt returns. *)
Definition recovered (current : option string) (x : slots) : option State := decided current (settle_slots current x).

(** ** States that survive a round trip through the store *)

Definition persistable_time (t : Z) : Prop := representable t ∧ t ≠ unix_epoch.
Definition persistable_ref (r : ConnectionRef) : Prop :=
  ParseID (cid r) = Ok (cid r) ∧ cid r ≠ "" ∧ plain (cid r) = true ∧ ∃ v, crev r = Some v ∧ slen v = 32.
Definition persistable_context (c : Context) : Prop :=
  safeID (tid (ctarget c)) = true ∧ (∃ v, trev (ctarget c) = Some v ∧ slen v = 32) ∧ safeID (cvantage c) = true ∧
  context_valid c = true.
Record persistable (s : State) : Prop := {
  ps_valid : state_valid s = true;
  ps_context : persistable_context (scontext s);
  ps_fingerprint : slen (fingerprint s) = 32;
  ps_time : persistable_time (evaluatedAt s);
  ps_members : Forall (λ m, persistable_ref (mconnection m) ∧ persistable_time (selectedAt m)) (members s);
  ps_cooldowns : Forall (λ d, persistable_ref (dconnection d) ∧ persistable_time (until d)) (cooldowns s);
  ps_sizes : Z.of_nat (length (members s)) ≤ 10000 ∧ Z.of_nat (length (cooldowns s)) ≤ 10000;
}.
(** A receipt [RestoreReceipt] accepts unchanged. *)
Definition good_receipt `{ReceiptCodec} (r : string) : Prop := r ≠ "" ∧ RestoreReceipt r = Some r.

(** ** The interfaces *)

Class Decisions `{ReceiptCodec} (W E : Type) := {
  recover_decision : string → option string → W → result E (option State) * W;
  stage_decision : State → string → Z → W → result E () * W;
  commit_decision : string → string → W → result E () * W;
  (** the stored decisions, when the store is intact *)
  stored : W → string → slots;
  intact : W → Prop;
  recover_law sc current w r w' : intact w → (∀ c, current = Some c → good_receipt c) →
    recover_decision sc current w = (r, w') →
    intact w' ∧ (∀ sc', sc' ≠ sc → stored w' sc' = stored w sc') ∧
    match r with
    | Ok o => o = recovered current (stored w sc) ∧ stored w' sc = settle_slots current (stored w sc)
    | Err _ => stored w' sc = stored w sc
    end;
  stage_law s c now w r w' : intact w → persistable s → good_receipt c → stage_decision s c now w = (r, w') →
    intact w' ∧ (∀ sc', sc' ≠ scope s → stored w' sc' = stored w sc') ∧
    match r with
    | Ok _ => stored w' (scope s) = stage_slot (s, c) (stored w (scope s))
    | Err _ => stored w' (scope s) = stored w (scope s)
    end;
  commit_law sc current w r w' : intact w → good_receipt current → commit_decision sc current w = (r, w') →
    intact w' ∧ (∀ sc', sc' ≠ sc → stored w' sc' = stored w sc') ∧
    match r with
    | Ok _ => Some (stored w' sc) = commit_slot current (stored w sc)
    | Err _ => stored w' sc = stored w sc
    end;
  stored_persistable w sc c : intact w → stored_in c (stored w sc) → persistable c.1 ∧ good_receipt c.2;
}.

(** [Publisher]: an error says whether it implements [UncertainPublication]
    and reports an uncertain write. *)
Class Publisher `{Digest, ReceiptCodec} (W E : Type) := {
  current_receipt : W → result E (option string) * W;
  publish_artifact : Validated → W → result E bool * W;
  uncertain : E → bool;
  (** the receipt of the artifact in place *)
  in_place : W → option string;
  owned : W → Prop;
  in_place_good w c : owned w → in_place w = Some c → good_receipt c;
  current_law w r w' : owned w → current_receipt w = (r, w') →
    owned w' ∧ in_place w' = in_place w ∧ match r with Ok o => o = in_place w | Err _ => True end;
  publish_law a c w r w' : owned w → made_validated a → Validated_Receipt a = Some c → publish_artifact a w = (r, w') →
    owned w' ∧
    match r with
    | Ok _ => in_place w' = Some c
    | Err e => in_place w' = in_place w ∨ uncertain e = true ∧ in_place w' = Some c
    end;
}.
