(* ===== verification/Checkpoint.v ===== *)
(** * Decision checkpoints (internal/state/sqlite.go)

    A decision is staged with the receipt of the artifact that is about to
    be published, and promoted once that receipt is the published one.  A
    checkpoint is stored as JSON, behind the class [CheckpointCodec].  The
    two slots of a scope are related to an abstract pair of decisions. *)
From S2P Require Import Prelude Order Bytes Encoding Identity Artifact Observation Selection Store Contracts.
From Stdlib Require Import Ascii.
From Stdlib Require String.
Open Scope Z_scope.

(** ** The payload *)

Record checkpointMember := { cm_endpointID : string; cm_revision : string; cm_selectedAt : Z }.
#[global] Instance checkpointMember_eq_dec : EqDecision checkpointMember.
Proof. solve_decision. Defined.
Record checkpointCooldown := { cc_endpointID : string; cc_revision : string; cc_until : Z }.
#[global] Instance checkpointCooldown_eq_dec : EqDecision checkpointCooldown.
Proof. solve_decision. Defined.
Record checkpointPayload := {
  cp_scope : string; cp_targetID : string; cp_targetRevision : string; cp_vantage : string; cp_kind : Kind;
  cp_profile : Profile; cp_fingerprint : string; cp_evaluatedAt : Z; cp_members : list checkpointMember;
  cp_cooldowns : list checkpointCooldown; cp_receipt : string;
}.

(** The strings JSON carries as text; revisions, the fingerprint and the
    receipt are byte slices, which it carries in base64. *)
Definition plain_payload (p : checkpointPayload) : Prop :=
  plain (cp_scope p) = true ∧ plain (cp_targetID p) = true ∧ plain (cp_vantage p) = true ∧
  plain_profile (cp_profile p) ∧ Forall (λ m, plain (cm_endpointID m) = true) (cp_members p) ∧
  Forall (λ c, plain (cc_endpointID c) = true) (cp_cooldowns p).

Class CheckpointCodec := {
  cp_marshal : checkpointPayload → string;
  cp_unmarshal : string → option checkpointPayload;
  cp_marshal_nonempty p : cp_marshal p ≠ "";
  cp_unmarshal_marshal p : plain_payload p → cp_unmarshal (cp_marshal p) = Some p;
}.

Definition max_checkpoint : Z := 4 * 1024 * 1024.
Definition checkpointCommitted : Z := 0.
Definition checkpointPending : Z := 1.

Section checkpoints.
Context `{ReceiptCodec, CheckpointCodec}.

Definition encode_member (m : Member) : option checkpointMember :=
  revision ← crev (mconnection m);
  Some {| cm_endpointID := ID_String (cid (mconnection m)); cm_revision := revision;
          cm_selectedAt := unix_nano (selectedAt m) |}.
Definition encode_cooldown (d : Cooldown) : option checkpointCooldown :=
  revision ← crev (dconnection d);
  Some {| cc_endpointID := ID_String (cid (dconnection d)); cc_revision := revision; cc_until := unix_nano (until d) |}.

Definition encodeCheckpoint (value : State) (receipt : string) : option string :=
  targetRevision ← trev (ctarget (scontext value));
  receiptBytes ← Receipt_RevealForPersistence receipt;
  ms ← mapM encode_member (members value);
  cs ← mapM encode_cooldown (cooldowns value);
  Some (cp_marshal {|
    cp_scope := scope value; cp_targetID := tid (ctarget (scontext value)); cp_targetRevision := targetRevision;
    cp_vantage := cvantage (scontext value); cp_kind := ckind (scontext value); cp_profile := cprofile (scontext value);
    cp_fingerprint := fingerprint value; cp_evaluatedAt := unix_nano (evaluatedAt value); cp_members := ms;
    cp_cooldowns := cs; cp_receipt := receiptBytes |}).

Definition restoreConnection (rawID rawRevision : string) : option ConnectionRef :=
  match ParseID rawID with
  | Err _ => None
  | Ok i => revision ← RestoreRevision rawRevision; RestoreConnectionRef i (Some revision)
  end.
Definition decode_member (m : checkpointMember) : option Member :=
  c ← restoreConnection (cm_endpointID m) (cm_revision m);
  if cm_selectedAt m =? 0 then None else Some {| mconnection := c; selectedAt := from_unix_nano (cm_selectedAt m) |}.
Definition decode_cooldown (d : checkpointCooldown) : option Cooldown :=
  c ← restoreConnection (cc_endpointID d) (cc_revision d);
  if cc_until d =? 0 then None else Some {| dconnection := c; until := from_unix_nano (cc_until d) |}.

Definition decodeCheckpoint (encoded : string) : option decision_record :=
  if (slen encoded =? 0) || (max_checkpoint <? slen encoded) then None else
  p ← cp_unmarshal encoded;
  if negb (slen (cp_fingerprint p) =? 32) || (10000 <? Z.of_nat (length (cp_members p))) ||
     (10000 <? Z.of_nat (length (cp_cooldowns p))) then None else
  targetID ← NewTargetID (cp_targetID p);
  target ← RestoreTargetRef targetID (cp_targetRevision p);
  vantage ← NewVantageID (cp_vantage p);
  ctx ← NewContext target vantage (cp_kind p) (cp_profile p);
  if cp_evaluatedAt p =? 0 then None else
  ms ← mapM decode_member (cp_members p);
  cs ← mapM decode_cooldown (cp_cooldowns p);
  let value := {| scope := cp_scope p; scontext := ctx; fingerprint := cp_fingerprint p;
                  evaluatedAt := from_unix_nano (cp_evaluatedAt p); members := ms; cooldowns := cs |} in
  if negb (state_valid value) then None else
  receipt ← RestoreReceipt (cp_receipt p);
  Some (value, receipt).

(** ** Operations *)

Definition StageDecision (value : State) (receipt : string) (now : Z) : DB () :=
  if negb (state_valid value) || is_zero now then refuse "decision_state" else
  match encodeCheckpoint value receipt with
  | None => refuse "decision_encode"
  | Some payload =>
      if max_checkpoint <? slen payload then refuse "decision_encode" else
      exec "decision_stage" (with_checkpoints
        (<[(scope value, checkpointPending) := {| cpayload := payload; updated_at_ns := unix_nano now |}]>))
  end.

Definition loadCheckpoint (sc : string) (slot : Z) : DB (option decision_record) :=
  found ← query "decision_load" (λ d, checkpoints d !! (sc, slot));
  match found with
  | None => mret None
  | Some r => match decodeCheckpoint (cpayload r) with
              | None => refuse "decision_corrupt"
              | Some value => mret (Some value)
              end
  end.

(** [DELETE ... slot] and [UPDATE ... SET slot]. *)
Definition delete_slot (sc : string) (slot : Z) : gmap (string * Z) checkpoint_row → gmap (string * Z) checkpoint_row :=
  delete (sc, slot).
Definition promote (sc : string) (t : gmap (string * Z) checkpoint_row) : gmap (string * Z) checkpoint_row :=
  match t !! (sc, checkpointPending) with
  | Some r => <[(sc, checkpointCommitted) := r]> (delete (sc, checkpointPending) t)
  | None => t
  end.

(** A call whose error is replaced by the caller's. *)
Definition or_refuse {A} (code : string) (m : DB A) : DB A := λ w,
  match m w with (Ok a, w') => (Ok a, w') | (Err _, w') => (Err (failure ErrPersistence code), w') end.

Definition CommitDecision (sc current : string) : DB () :=
  transaction "decision_commit_begin" "decision_commit"
    (pending ← or_refuse "decision_commit_mismatch" (loadCheckpoint sc checkpointPending);
     match pending with
     | Some (_, receipt) =>
         if negb (Receipt_Equal receipt current) then refuse "decision_commit_mismatch" else
         _ ← exec "decision_commit_replace" (with_checkpoints (delete_slot sc checkpointCommitted));
         exec "decision_commit_promote" (with_checkpoints (promote sc))
     | None => refuse "decision_commit_mismatch"
     end).

Definition safeCheckpointScope : string → bool := safe_name.

(** The current receipt, when there is one. *)
Definition matches_current (current : option string) (c : decision_record) : bool :=
  match current with Some r => Receipt_Equal c.2 r | None => false end.

Definition RecoverDecision (sc : string) (current : option string) : DB (option State) :=
  if negb (safeCheckpointScope sc) then refuse "decision_scope" else
  committed ← transaction "decision_recover_begin" "decision_recover_commit"
    (pending ← loadCheckpoint sc checkpointPending;
     _ ← (match pending with
          | None => mret ()
          | Some c =>
              if matches_current current c then
                _ ← exec_raw "decision_recover_replace" (with_checkpoints (delete_slot sc checkpointCommitted));
                exec_raw "decision_recover_promote" (with_checkpoints (promote sc))
              else exec_raw "decision_recover_discard" (with_checkpoints (delete_slot sc checkpointPending))
          end);
     loadCheckpoint sc checkpointCommitted);
  mret (c ← committed; if matches_current current c then Some c.1 else None).

(** ** Round trip *)

Lemma nano_round_trip t : persistable_time t → from_unix_nano (unix_nano t) = t ∧ unix_nano t ≠ 0.
Proof.
  intros [Hr Hne]. pose proof (unix_nano_round_trip t Hr) as E. split; [done|]. intros E0. rewrite E0 in E.
  unfold from_unix_nano in E. lia.
Qed.

Lemma restore_persistable r : persistable_ref r → ∃ v, crev r = Some v ∧ restoreConnection (ID_String (cid r)) v = Some r.
Proof.
  intros (Hp&Hne&_&v&Hv&Hl). exists v. split; [done|]. unfold restoreConnection, ID_String.
  rewrite bool_decide_false by done. rewrite Hp. unfold RestoreRevision. rewrite Hl. simpl.
  unfold RestoreConnectionRef. simpl. rewrite bool_decide_false by done. destruct r; simpl in *. by subst.
Qed.

Lemma plain_id r : persistable_ref r → plain (ID_String (cid r)) = true.
Proof. intros (_&Hne&Hp&_). unfold ID_String. by rewrite bool_decide_false. Qed.

Lemma encode_members l : Forall (λ m, persistable_ref (mconnection m) ∧ persistable_time (selectedAt m)) l →
  ∃ k, mapM encode_member l = Some k ∧ mapM decode_member k = Some l ∧ length k = length l ∧
    Forall (λ m, plain (cm_endpointID m) = true) k.
Proof.
  intros Hl. apply mapM_round_trip. eapply Forall_impl; [done|]. intros m [Hr Ht].
  destruct (restore_persistable _ Hr) as (v&Hv&Hres). destruct (nano_round_trip _ Ht) as [Hn Hz].
  unfold encode_member, decode_member. rewrite Hv. simpl. eexists. split_and!; [done| |by apply plain_id]. simpl.
  rewrite Hres. simpl. rewrite (proj2 (Z.eqb_neq _ 0)), Hn by done. by destruct m.
Qed.
Lemma encode_cooldowns l : Forall (λ d, persistable_ref (dconnection d) ∧ persistable_time (until d)) l →
  ∃ k, mapM encode_cooldown l = Some k ∧ mapM decode_cooldown k = Some l ∧ length k = length l ∧
    Forall (λ d, plain (cc_endpointID d) = true) k.
Proof.
  intros Hl. apply mapM_round_trip. eapply Forall_impl; [done|]. intros d [Hr Ht].
  destruct (restore_persistable _ Hr) as (v&Hv&Hres). destruct (nano_round_trip _ Ht) as [Hn Hz].
  unfold encode_cooldown, decode_cooldown. rewrite Hv. simpl. eexists. split_and!; [done| |by apply plain_id]. simpl.
  rewrite Hres. simpl. rewrite (proj2 (Z.eqb_neq _ 0)), Hn by done. by destruct d.
Qed.

Lemma supported_plain p : supportedProfile p = true → plain_profile p.
Proof.
  unfold supportedProfile. intros [E|E]%orb_true_iff; apply bool_decide_eq_true_1 in E; subst p; by vm_compute.
Qed.

(** Encoding a persistable state gives a payload that decodes to it, when it
    is not too long. *)
Lemma checkpoint_round_trip_lemma s r : persistable s → good_receipt r →
  ∃ payload, encodeCheckpoint s r = Some payload ∧ payload ≠ "" ∧
    (slen payload ≤ max_checkpoint → decodeCheckpoint payload = Some (s, r)).
Proof.
  intros Hs [Hrne Hr]. pose proof (ps_context s Hs) as (Htid&(tv&Htv&Hlen)&Hvan&Hctx).
  destruct (encode_members _ (ps_members s Hs)) as (ms&Em&Dm&Lm&Pm).
  destruct (encode_cooldowns _ (ps_cooldowns s Hs)) as (cs&Ec&Dc&Lc&Pc).
  destruct (nano_round_trip _ (ps_time s Hs)) as [Hn Hz].
  unfold encodeCheckpoint. rewrite Htv, Em, Ec. unfold Receipt_RevealForPersistence. rewrite bool_decide_false by done.
  simpl. set (p := {| cp_scope := scope s |}). exists (cp_marshal p). split_and!; [done|apply cp_marshal_nonempty|].
  intros Hsize. assert (plain_payload p) as Hp.
  { pose proof (ps_valid s Hs) as Hv. unfold state_valid, safeScope in Hv. bool_to_prop.
    unfold context_valid in Hctx. bool_to_prop. split_and!; try done; try by apply safe_plain.
    by apply supported_plain. }
  unfold decodeCheckpoint. rewrite (proj2 (Z.eqb_neq (slen (cp_marshal p)) 0)).
  2: { intros E. apply (cp_marshal_nonempty p). unfold slen in E. destruct (cp_marshal p); [done|simpl in E; lia]. }
  rewrite (proj2 (Z.ltb_ge max_checkpoint _)) by done. simpl. rewrite cp_unmarshal_marshal by done. simpl.
  destruct (ps_sizes s Hs). rewrite (ps_fingerprint s Hs), Lm, Lc.
  rewrite !(proj2 (Z.ltb_ge 10000 _)) by done. simpl.
  unfold NewTargetID, NewVantageID, RestoreTargetRef. rewrite Htid. simpl. rewrite Hlen. simpl.
  assert (tid (ctarget (scontext s)) ≠ "") as Hne by by intros E; rewrite E in Htid.
  rewrite bool_decide_false by done. simpl. rewrite Hvan. simpl.
  assert ({| tid := tid (ctarget (scontext s)); trev := Some tv |} = ctarget (scontext s)) as ->
    by (destruct (ctarget (scontext s)); simpl in *; by subst).
  assert (NewContext (ctarget (scontext s)) (cvantage (scontext s)) (ckind (scontext s)) (cprofile (scontext s)) = Some (scontext s)) as ->.
  { unfold NewContext. destruct (scontext s). simpl in *. by rewrite Hctx. }
  simpl. rewrite (proj2 (Z.eqb_neq _ 0)) by done. rewrite Dm. simpl. rewrite Dc. simpl. rewrite Hn.
  assert ({| scope := scope s; scontext := scontext s; fingerprint := fingerprint s; evaluatedAt := evaluatedAt s;
             members := members s; cooldowns := cooldowns s |} = s) as -> by by destruct s.
  rewrite (ps_valid s Hs). simpl. by rewrite Hr.
Qed.

(** ** The slots of a scope *)

Definition slot_view (d : db) (sc : string) (slot : Z) : option decision_record :=
  r ← checkpoints d !! (sc, slot); decodeCheckpoint (cpayload r).
Definition slots_of (d : db) (sc : string) : slots :=
  {| committed := slot_view d sc checkpointCommitted; pending := slot_view d sc checkpointPending |}.
(** Every checkpoint decodes, and to a decision that was staged properly. *)
Definition checkpoints_intact (d : db) : Prop := ∀ k r, checkpoints d !! k = Some r →
  ∃ c, decodeCheckpoint (cpayload r) = Some c ∧ persistable c.1 ∧ good_receipt c.2.

Lemma load_spec sc slot w r w' : checkpoints_intact (tables w) → loadCheckpoint sc slot w = (r, w') →
  tables w' = tables w ∧ match r with Ok o => o = slot_view (tables w) sc slot | Err _ => True end.
Proof.
  intros Hi. unfold loadCheckpoint, query, statement, mbind, DB_bind, slot_view.
  assert (∀ o, o = checkpoints (tables w) !! (sc, slot) → ∀ w1, tables w1 = tables w → ∀ r w',
    match o with
    | None => mret None
    | Some r => match decodeCheckpoint (cpayload r) with None => refuse "decision_corrupt" | Some value => mret (Some value) end
    end w1 = (r, w') → tables w' = tables w ∧
    match r with Ok o' => o' = (r ← o; decodeCheckpoint (cpayload r)) | Err _ => True end) as Hmatch.
  { intros [x|] Ho w1 Hw1 r' w2; [|by intros [= <- <-]]. destruct (Hi _ x (eq_sym Ho)) as (c&Hc&_). simpl. rewrite Hc.
    by intros [= <- <-]. }
  destruct (events w) as [|[|ctx] s]; simpl; [by apply Hmatch..|by intros [= <- <-]].
Qed.

Lemma or_refuse_spec {A} code (m : DB A) w r w' : or_refuse code m w = (r, w') →
  ∃ r0, m w = (r0, w') ∧ match r with Ok a => r0 = Ok a | Err _ => is_ok r0 = false end.
Proof. unfold or_refuse. destruct (m w) as [[a|e] w1]; intros [= <- <-]; eauto. Qed.

(** The effect of a promotion and of a discarded slot. *)
Definition promoted (sc : string) (t : gmap (string * Z) checkpoint_row) : gmap (string * Z) checkpoint_row :=
  promote sc (delete_slot sc checkpointCommitted t).
Lemma promoted_lookup sc t r : t !! (sc, checkpointPending) = Some r →
  promoted sc t = <[(sc, checkpointCommitted) := r]> (delete (sc, checkpointPending) (delete (sc, checkpointCommitted) t)).
Proof.
  intros E. unfold promoted, promote, delete_slot. rewrite lookup_delete_ne by by intros [=]. by rewrite E.
Qed.
Lemma promoted_slots d sc c : slot_view d sc checkpointPending = Some c →
  slots_of (with_checkpoints (promoted sc) d) sc = {| committed := Some c; pending := None |} ∧
  ∀ sc', sc' ≠ sc → slots_of (with_checkpoints (promoted sc) d) sc' = slots_of d sc'.
Proof.
  unfold slot_view. intros (r&Er&Ec)%bind_Some. unfold slots_of, slot_view. simpl. rewrite (promoted_lookup _ _ _ Er).
  split.
  - rewrite lookup_insert_eq, lookup_insert_ne, lookup_delete_eq by by intros [=]. simpl. by rewrite Ec.
  - intros sc' Hne. by rewrite !lookup_insert_ne, !lookup_delete_ne by congruence.
Qed.
Lemma promoted_intact d sc c : slot_view d sc checkpointPending = Some c → checkpoints_intact d →
  checkpoints_intact (with_checkpoints (promoted sc) d).
Proof.
  unfold slot_view. intros (r&Er&Ec)%bind_Some Hi k x. simpl. rewrite (promoted_lookup _ _ _ Er).
  destruct (decide (k = (sc, checkpointCommitted))) as [->|Hk].
  - rewrite lookup_insert_eq. intros [= <-]. by eapply Hi.
  - rewrite lookup_insert_ne by done. intros [_ [_ Hx]%lookup_delete_Some]%lookup_delete_Some. by eapply Hi.
Qed.
Lemma discarded_slots d sc :
  slots_of (with_checkpoints (delete_slot sc checkpointPending) d) sc =
    {| committed := slot_view d sc checkpointCommitted; pending := None |} ∧
  (∀ sc', sc' ≠ sc → slots_of (with_checkpoints (delete_slot sc checkpointPending) d) sc' = slots_of d sc') ∧
  (checkpoints_intact d → checkpoints_intact (with_checkpoints (delete_slot sc checkpointPending) d)).
Proof.
  unfold slots_of, slot_view, delete_slot. simpl. split_and!.
  - rewrite lookup_delete_eq, lookup_delete_ne by by intros [=]. done.
  - intros sc' Hne. by rewrite !lookup_delete_ne by congruence.
  - intros Hi k x. simpl. intros [_ Hx]%lookup_delete_Some. by eapply Hi.
Qed.

(** ** The laws of [Decisions] *)

Ltac rewrite_tables := repeat match goal with T : tables ?w = _ |- context [tables ?w] => rewrite T end.

Lemma matches_good current c : good_receipt c.2 → matches_current current c = bool_decide (Some c.2 = current).
Proof.
  intros [Hne _]. unfold matches_current, Receipt_Equal. destruct current as [r|]; [|done].
  assert (0 <? slen c.2 = true) as ->.
  { unfold slen. destruct c.2; [done|]. simpl. apply Z.ltb_lt. lia. }
  simpl. destruct (decide (c.2 = r)) as [E|Hr].
  - rewrite E, Z.eqb_refl. by rewrite !bool_decide_true by congruence.
  - rewrite !(bool_decide_false) by congruence. apply andb_false_r.
Qed.

Lemma view_good d sc slot c : checkpoints_intact d → slot_view d sc slot = Some c → persistable c.1 ∧ good_receipt c.2.
Proof.
  intros Hi (r&Er&Ec)%bind_Some. destruct (Hi _ _ Er) as (c'&Ec'&Hc). rewrite Ec in Ec'. by injection Ec' as <-.
Qed.

Lemma stage_spec s c now w r w' : checkpoints_intact (tables w) → persistable s → good_receipt c →
  StageDecision s c now w = (r, w') →
  checkpoints_intact (tables w') ∧ (∀ sc', sc' ≠ scope s → slots_of (tables w') sc' = slots_of (tables w) sc') ∧
  slots_of (tables w') (scope s) =
    if is_ok r then stage_slot (s, c) (slots_of (tables w) (scope s)) else slots_of (tables w) (scope s).
Proof.
  intros Hi Hs Hc. destruct (checkpoint_round_trip_lemma s c Hs Hc) as (p&Ep&_&Hd). unfold StageDecision. rewrite Ep.
  destruct (_ || _); [by intros [= <- <-]|]. destruct (max_checkpoint <? slen p) eqn:Esz; [by intros [= <- <-]|].
  bool_to_prop. specialize (Hd ltac:(lia)).
  intros E. unfold exec, statement in E. assert (r = Ok () ∧ tables w' = with_checkpoints
      (<[(scope s, checkpointPending) := {| cpayload := p; updated_at_ns := unix_nano now |}]>) (tables w)
    ∨ is_ok r = false ∧ tables w' = tables w) as [[-> ->]|[-> ->]];
    [destruct (events w) as [|[|ctx] ev]; injection E as <- <-; auto| |done].
  split_and!.
  - intros k x. simpl. destruct (decide (k = (scope s, checkpointPending))) as [->|Hk].
    + rewrite lookup_insert_eq. intros [= <-]. by exists (s, c).
    + rewrite lookup_insert_ne by done. apply Hi.
  - intros sc' Hne. unfold slots_of, slot_view. simpl. by rewrite !lookup_insert_ne by congruence.
  - unfold slots_of, slot_view, stage_slot. simpl. rewrite lookup_insert_eq, lookup_insert_ne by by intros [=]. simpl.
    by rewrite Hd.
Qed.

Lemma transaction_cases {A} b c (body : DB A) w r w' : transaction b c body w = (r, w') →
  tables w' = tables w ∧ is_ok r = false ∨
  ∃ a w1 w2, r = Ok a ∧ tables w1 = tables w ∧ body w1 = (Ok a, w2) ∧ tables w' = tables w2.
Proof.
  intros E. destruct r as [a|e].
  - right. apply transaction_Ok_inv in E as (w1&w2&?&?&?). eauto 10.
  - left. split; [by eapply transaction_Err|done].
Qed.

Lemma commit_spec sc current w r w' : checkpoints_intact (tables w) → good_receipt current →
  CommitDecision sc current w = (r, w') →
  checkpoints_intact (tables w') ∧ (∀ sc', sc' ≠ sc → slots_of (tables w') sc' = slots_of (tables w) sc') ∧
  match r with
  | Ok _ => Some (slots_of (tables w') sc) = commit_slot current (slots_of (tables w) sc)
  | Err _ => slots_of (tables w') sc = slots_of (tables w) sc
  end.
Proof.
  intros Hi Hc [[-> Hr]|(a&w1&w2&->&T1&E&->)]%transaction_cases; [by destruct r|].
  apply DB_bind_inv in E as (p&w3&E1&E2). apply or_refuse_spec in E1 as (r0&E1&->).
  rewrite <-T1 in Hi. apply load_spec in E1 as [T3 ->]; [|done]. rewrite <-T1.
  destruct (slot_view (tables w1) sc checkpointPending) as [[s rc]|] eqn:Ev; [|done].
  destruct (Receipt_Equal rc current) eqn:Er; [|done]. simpl in E2. db_inv.
  assert (tables w2 = with_checkpoints (promoted sc) (tables w1)) as -> by by rewrite_tables.
  destruct (promoted_slots _ _ _ Ev) as [P1 P2].
  split_and!; [by eapply promoted_intact|done|]. rewrite P1. unfold commit_slot. simpl. rewrite Ev. simpl. by rewrite Er.
Qed.

Lemma recover_spec sc current w r w' : checkpoints_intact (tables w) →
  RecoverDecision sc current w = (r, w') →
  checkpoints_intact (tables w') ∧ (∀ sc', sc' ≠ sc → slots_of (tables w') sc' = slots_of (tables w) sc') ∧
  match r with
  | Ok o => o = recovered current (slots_of (tables w) sc) ∧
            slots_of (tables w') sc = settle_slots current (slots_of (tables w) sc)
  | Err _ => slots_of (tables w') sc = slots_of (tables w) sc
  end.
Proof.
  intros Hi. unfold RecoverDecision. destruct (safeCheckpointScope sc); [simpl|by intros [= <- <-]].
  unfold mbind at 1, DB_bind at 1. destruct (transaction _ _ _ w) as [r1 w1] eqn:E.
  apply transaction_cases in E as [[T Hr]|(a&w2&w3&->&T2&E&T3)].
  { destruct r1; [done|]. intros [= <- <-]. by rewrite T. }
  intros [= <- <-]. rewrite T3. clear T3 w1. rewrite <-T2 in Hi |- *. clear T2 w.
  apply DB_bind_inv in E as (p&w4&E1&E2). apply load_spec in E1 as [T4 ->]; [|done].
  apply DB_bind_inv in E2 as ([]&w5&E2&E3).
  assert (checkpoints_intact (tables w5) ∧ (∀ sc', sc' ≠ sc → slots_of (tables w5) sc' = slots_of (tables w2) sc') ∧
    slots_of (tables w5) sc = settle_slots current (slots_of (tables w2) sc)) as (I5&F5&S5).
  { unfold settle_slots. simpl. destruct (slot_view (tables w2) sc checkpointPending) as [c|] eqn:Ev.
    2: { injection E2 as <-. rewrite T4. split_and!; [done..|]. unfold slots_of. by rewrite Ev. }
    destruct (view_good _ _ _ _ Hi Ev) as [_ Hg]. rewrite matches_good in E2 by done.
    destruct (bool_decide _); db_inv.
    - assert (tables w5 = with_checkpoints (promoted sc) (tables w2)) as -> by by rewrite_tables.
      destruct (promoted_slots _ _ _ Ev) as [P1 P2]. split_and!; [by eapply promoted_intact|done|done].
    - assert (tables w5 = with_checkpoints (delete_slot sc checkpointPending) (tables w2)) as -> by congruence.
      destruct (discarded_slots (tables w2) sc) as (D1&D2&D3). auto. }
  apply load_spec in E3 as [-> ->]; [|done]. split_and!; [done..| |done].
  unfold recovered, decided. rewrite <-S5. simpl.
  destruct (slot_view (tables w5) sc checkpointCommitted) as [c|] eqn:Ec; [|done]. simpl.
  by rewrite matches_good by by eapply view_good.
Qed.

(** ** The operations succeed when no statement fails *)

Lemma runs_load sc slot w : checkpoints_intact (tables w) → runs (loadCheckpoint sc slot) w.
Proof.
  intros Hi. unfold loadCheckpoint, query. apply runs_bind; [apply runs_statement|]. intros o w' [-> _]%statement_inv.
  simpl. destruct (checkpoints (tables w) !! (sc, slot)) as [r|] eqn:Er; [|apply runs_ret].
  destruct (Hi _ _ Er) as (c&->&_). apply runs_ret.
Qed.

Lemma recover_total sc current w : checkpoints_intact (tables w) → safeCheckpointScope sc = true →
  runs (RecoverDecision sc current) w.
Proof.
  intros Hi Hsc. unfold RecoverDecision. rewrite Hsc. simpl. apply runs_bind; [|intros; apply runs_ret].
  apply runs_transaction. intros w1 T1. rewrite <-T1 in Hi. apply runs_bind; [by apply runs_load|].
  intros p w2 E. apply load_spec in E as [T2 ->]; [|done]. rewrite <-T2 in Hi. apply runs_bind.
  - case_match; [|apply runs_ret]. case_match; unfold exec_raw; [|apply runs_statement].
    apply runs_bind; [apply runs_statement|]. intros. apply runs_statement.
  - intros [] w3 E. apply runs_load. destruct (slot_view (tables w1) sc checkpointPending) as [c|] eqn:Ev.
    2: { by injection E as <-. }
    rewrite <-T2 in Ev. destruct (matches_current current c); db_inv.
    + assert (tables w3 = with_checkpoints (promoted sc) (tables w2)) as -> by by rewrite_tables.
      by eapply promoted_intact.
    + assert (tables w3 = with_checkpoints (delete_slot sc checkpointPending) (tables w2)) as -> by done.
      by apply discarded_slots.
Qed.

Lemma commit_total sc current w : checkpoints_intact (tables w) →
  is_Some (commit_slot current (slots_of (tables w) sc)) → runs (CommitDecision sc current) w.
Proof.
  intros Hi Hc. unfold CommitDecision. apply runs_transaction. intros w1 T1. rewrite <-T1 in Hi, Hc. apply runs_bind.
  - intros He. destruct (runs_load sc checkpointPending w1 Hi He) as (a&w2&E&He2). exists a, w2.
    unfold or_refuse. by rewrite E.
  - intros p w2 (r0&E&->)%or_refuse_spec. apply load_spec in E as [T2 ->]; [|done]. unfold commit_slot in Hc. simpl in Hc.
    destruct (slot_view (tables w1) sc checkpointPending) as [[s rc]|]; [|by destruct Hc]. simpl in Hc.
    destruct (Receipt_Equal rc current); [|by destruct Hc]. simpl. unfold exec.
    apply runs_bind; [apply runs_statement|]. intros. apply runs_statement.
Qed.

Lemma stage_total s c p now w : persistable s → encodeCheckpoint s c = Some p → slen p ≤ max_checkpoint → now ≠ 0 →
  runs (StageDecision s c now) w.
Proof.
  intros Hs Ep Hsz Hnow. unfold StageDecision, is_zero.
  rewrite (ps_valid s Hs), (proj2 (Z.eqb_neq now 0)), Ep, (proj2 (Z.ltb_ge max_checkpoint _)) by done.
  apply runs_statement.
Qed.

(** ** A decision the store accepts and cannot read

    [StageDecision] does not check the limit of ten thousand cooldowns that
    [decodeCheckpoint] enforces: a longer state, if its payload fits four
    megabytes, is staged, and every later recovery of the scope fails. *)
Lemma oversized_undecodable s r p : context_valid (scontext s) = true → safeScope (scope s) = true →
  safeID (tid (ctarget (scontext s))) = true → safeID (cvantage (scontext s)) = true →
  Forall (λ m, persistable_ref (mconnection m) ∧ persistable_time (selectedAt m)) (members s) →
  Forall (λ d, persistable_ref (dconnection d) ∧ persistable_time (until d)) (cooldowns s) →
  10000 < Z.of_nat (length (cooldowns s)) → encodeCheckpoint s r = Some p → decodeCheckpoint p = None.
Proof.
  intros Hctx Hsc Htid Hvan Hm Hc Hlen E. destruct (encode_members _ Hm) as (ms&Em&_&_&Pm).
  destruct (encode_cooldowns _ Hc) as (cs&Ec&_&Lc&Pc). unfold encodeCheckpoint in E. rewrite Em, Ec in E.
  apply bind_Some in E as (tv&_&E). apply bind_Some in E as (rb&_&E). simpl in E. injection E as <-.
  unfold decodeCheckpoint. destruct (_ || _); [done|]. unfold context_valid in Hctx. bool_to_prop.
  rewrite cp_unmarshal_marshal by (split_and!; try done; try (by apply safe_plain); by apply supported_plain).
  simpl. rewrite Lc, (proj2 (Z.ltb_lt 10000 (Z.of_nat (length (cooldowns s))))) by done. by rewrite orb_true_r.
Qed.
Theorem oversized_decision_wedges s r p now w : state_valid s = true → persistable_context (scontext s) →
  Forall (λ m, persistable_ref (mconnection m) ∧ persistable_time (selectedAt m)) (members s) →
  Forall (λ d, persistable_ref (dconnection d) ∧ persistable_time (until d)) (cooldowns s) →
  10000 < Z.of_nat (length (cooldowns s)) → encodeCheckpoint s r = Some p → slen p ≤ max_checkpoint → now ≠ 0 →
  events w = [] →
  ∃ w1, StageDecision s r now w = (Ok (), w1) ∧
    ∀ current evs, ∃ e w2, RecoverDecision (scope s) current {| tables := tables w1; events := evs |} = (Err e, w2) ∧
      tables w2 = tables w1.
Proof.
  intros Hv (Htid&_&Hvan&Hctx) Hm Hc Hlen Ep Hsz Hnow He. assert (safeScope (scope s) = true) as Hsc.
  { unfold state_valid in Hv. bool_to_prop. done. }
  pose proof (oversized_undecodable s r p Hctx Hsc Htid Hvan Hm Hc Hlen Ep) as Hd.
  unfold StageDecision, is_zero. rewrite Hv, (proj2 (Z.eqb_neq now 0)), Ep, (proj2 (Z.ltb_ge max_checkpoint _)) by done.
  simpl. unfold exec. rewrite statement_Ok by done. eexists. split; [done|]. intros current evs.
  set (d := (_ : db)). assert (checkpoints d !! (scope s, checkpointPending) = Some {| cpayload := p; updated_at_ns := unix_nano now |}) as Hl.
  { simpl. apply lookup_insert_eq. }
  destruct (RecoverDecision (scope s) current _) as [res w2] eqn:E. unfold RecoverDecision in E.
  unfold safeCheckpointScope in E. change (safe_name (scope s)) with (safeScope (scope s)) in E. rewrite Hsc in E. simpl in E.
  unfold mbind at 1, DB_bind at 1 in E. destruct (transaction _ _ _ _) as [r1 w1] eqn:Et.
  apply transaction_cases in Et as [[T Hr]|(a&w3&w4&->&T3&Eb&T4)].
  - destruct r1 as [|e]; [done|]. injection E as <- <-. eauto.
  - apply DB_bind_inv in Eb as (o&w5&Eb&_). exfalso. unfold loadCheckpoint in Eb. db_inv.
    match goal with Hx : match ?o with _ => _ end _ = (Ok _, _) |- _ => assert (o = Some {| cpayload := p; updated_at_ns := unix_nano now |}) as Eo end.
    { clear -T3 Hl H1. rewrite H1, T3. exact Hl. }
    rewrite Eo in *. simpl in *. rewrite Hd in *. done.
Qed.
End checkpoints.

(** The SQLite store is a decision store. *)
#[export] Instance sqlite_decisions `{RC : ReceiptCodec, CC : CheckpointCodec} : Decisions sql Failure.
Proof.
  refine {| recover_decision := RecoverDecision; stage_decision := StageDecision; commit_decision := CommitDecision;
            stored w := slots_of (tables w); intact w := checkpoints_intact (tables w) |}.
  - intros sc current w r w' Hi _. by apply recover_spec.
  - intros s c now w r w' Hi Hs Hc E. destruct (stage_spec _ _ _ _ _ _ Hi Hs Hc E) as (?&?&Hst). by destruct r.
  - apply commit_spec.
  - intros w sc c Hi [E|E]; [eapply (view_good _ sc checkpointCommitted)|eapply (view_good _ sc checkpointPending)]; [exact Hi|exact E|exact Hi|exact E].
Defined.

(** Decision checkpoints round-trip: a valid decision state with at most ten thousand members and cooldowns,
    restorable references and representable times encodes, and its payload, if it fits the four-megabyte limit,
    decodes to the same state and receipt. *)
Theorem checkpoint_round_trip `{ReceiptCodec, CheckpointCodec} s r : persistable s → good_receipt r →
  ∃ payload, encodeCheckpoint s r = Some payload ∧ payload ≠ "" ∧
    (slen payload ≤ max_checkpoint → decodeCheckpoint payload = Some (s, r)).
Proof. apply checkpoint_round_trip_lemma. Qed.

(** C5: The checkpoint table refines the two-slot decision record of its scope.  Whatever statements fail: staging
    sets the pending slot; committing moves it to the committed slot exactly when its receipt is the given one;
    recovery settles the pending slot by the published receipt and returns the committed decision only if that has
    the published receipt; an operation that fails changes nothing; and no operation touches another scope or leaves
    a checkpoint that does not decode.  With no failing statement recovery of a safe scope, and a commit of the
    pending receipt, succeed. *)
Theorem checkpoint_store_refines `{ReceiptCodec, CheckpointCodec} w r w' : checkpoints_intact (tables w) →
  (∀ s c now, persistable s → good_receipt c → StageDecision s c now w = (r, w') →
    checkpoints_intact (tables w') ∧ (∀ sc, sc ≠ scope s → slots_of (tables w') sc = slots_of (tables w) sc) ∧
    slots_of (tables w') (scope s) =
      if is_ok r then stage_slot (s, c) (slots_of (tables w) (scope s)) else slots_of (tables w) (scope s)) ∧
  (∀ sc current, good_receipt current → CommitDecision sc current w = (r, w') →
    checkpoints_intact (tables w') ∧ (∀ sc', sc' ≠ sc → slots_of (tables w') sc' = slots_of (tables w) sc') ∧
    match r with
    | Ok _ => Some (slots_of (tables w') sc) = commit_slot current (slots_of (tables w) sc)
    | Err _ => slots_of (tables w') sc = slots_of (tables w) sc
    end ∧
    (events w = [] → is_Some (commit_slot current (slots_of (tables w) sc)) → is_ok r = true)) ∧
  (∀ sc current o w', RecoverDecision sc current w = (o, w') →
    checkpoints_intact (tables w') ∧ (∀ sc', sc' ≠ sc → slots_of (tables w') sc' = slots_of (tables w) sc') ∧
    match o with
    | Ok d => d = recovered current (slots_of (tables w) sc) ∧
              slots_of (tables w') sc = settle_slots current (slots_of (tables w) sc)
    | Err _ => slots_of (tables w') sc = slots_of (tables w) sc
    end ∧
    (events w = [] → safeCheckpointScope sc = true → is_ok o = true)).
Proof.
  intros Hi. split_and!.
  - intros *. by apply stage_spec.
  - intros sc current Hc E. destruct (commit_spec _ _ _ _ _ Hi Hc E) as (?&?&?). split_and!; [done..|].
    intros He Hs. destruct (commit_total sc current w Hi Hs He) as (a&w1&E1&_). rewrite E in E1. by injection E1 as -> ->.
  - intros sc current o w1 E. destruct (recover_spec _ _ _ _ _ Hi E) as (?&?&?). split_and!; [done..|].
    intros He Hs. destruct (recover_total sc current w Hi Hs He) as (a&w2&E1&_). rewrite E in E1. by injection E1 as -> ->.
Qed.

(** ** A concrete codec

    Tokens separated by marks, for evaluating the model. *)
Fixpoint write_token (s rest : string) : string :=
  match s with EmptyString => String "." rest | String c s' => String "+" (String c (write_token s' rest)) end.
Fixpoint write_tokens (l : list string) : string :=
  match l with [] => "" | t :: l' => write_token t (write_tokens l') end.
Fixpoint read_tokens (s : string) : option (list string) :=
  match s with
  | EmptyString => Some []
  | String "." rest => l ← read_tokens rest; Some ("" :: l)
  | String "+" (String c rest) =>
      l ← read_tokens rest; match l with t :: l' => Some (String c t :: l') | [] => None end
  | _ => None
  end.
Lemma read_token t rest l : read_tokens rest = Some l → read_tokens (write_token t rest) = Some (t :: l).
Proof. intros Hr. induction t as [|c t IH]; simpl; [by rewrite Hr|]. rewrite IH. done. Qed.
Lemma read_write_tokens l : read_tokens (write_tokens l) = Some l.
Proof. induction l as [|t l IH]; [done|]. by apply read_token. Qed.

Definition z_text (z : Z) : string := pos_text (encode z).
Definition text_z (s : string) : option Z := text_pos s ≫= decode.
Lemma text_z_text z : text_z (z_text z) = Some z.
Proof. unfold text_z, z_text. rewrite text_pos_text. simpl. apply decode_encode. Qed.

Definition triple_tokens (l : list (string * string * Z)) : list string := l ≫= λ '(a, b, z), [a; b; z_text z].
Fixpoint read_triples (l : list string) : option (list (string * string * Z)) :=
  match l with
  | [] => Some []
  | a :: b :: z :: rest => n ← text_z z; k ← read_triples rest; Some ((a, b, n) :: k)
  | _ => None
  end.
Lemma read_triple_tokens l : read_triples (triple_tokens l) = Some l.
Proof.
  induction l as [|[[a b] z] l IH]; [done|]. change (triple_tokens _) with (a :: b :: z_text z :: triple_tokens l).
  simpl. rewrite text_z_text. simpl. by rewrite IH.
Qed.

Definition Kind_of_text (s : string) : Kind := if bool_decide (s = "http_get") then KindHTTPGet else KindUnknown.
Definition Kind_text (k : Kind) : string := match k with KindHTTPGet => "http_get" | KindUnknown => "unknown" end.
Definition Engine_of_text (s : string) : Engine :=
  if bool_decide (s = "mihomo") then EngineMihomo else if bool_decide (s = "sing-box") then EngineSingBox else EngineUnknown.

Definition payload_tokens (p : checkpointPayload) : list string :=
  let member m := (cm_endpointID m, cm_revision m, cm_selectedAt m) in
  let cooldown c := (cc_endpointID c, cc_revision c, cc_until c) in
  [cp_scope p; cp_targetID p; cp_targetRevision p; cp_vantage p; Kind_text (cp_kind p);
   Engine_String (engine (cp_profile p)); pversion (cp_profile p); rendererSchema (cp_profile p); mediaType (cp_profile p);
   cp_fingerprint p; z_text (cp_evaluatedAt p); cp_receipt p; write_tokens (triple_tokens (member <$> cp_members p));
   write_tokens (triple_tokens (cooldown <$> cp_cooldowns p))].
Definition read_payload (l : list string) : option checkpointPayload :=
  match l with
  | [sc; ti; tr; va; ki; en; ve; re; me; fp; ev; rc; ms; cs] =>
      ev ← text_z ev; ms ← read_tokens ms; ms ← read_triples ms; cs ← read_tokens cs; cs ← read_triples cs;
      Some {| cp_scope := sc; cp_targetID := ti; cp_targetRevision := tr; cp_vantage := va; cp_kind := Kind_of_text ki;
              cp_profile := {| engine := Engine_of_text en; pversion := ve; rendererSchema := re; mediaType := me |};
              cp_fingerprint := fp; cp_evaluatedAt := ev;
              cp_members := (λ '(a, b, z), {| cm_endpointID := a; cm_revision := b; cm_selectedAt := z |}) <$> ms;
              cp_cooldowns := (λ '(a, b, z), {| cc_endpointID := a; cc_revision := b; cc_until := z |}) <$> cs;
              cp_receipt := rc |}
  | _ => None
  end.
Lemma read_payload_tokens p : read_payload (payload_tokens p) = Some p.
Proof.
  destruct p as [sc ti tr va ki [en ve re me] fp ev ms cs rc]. unfold payload_tokens, read_payload. simpl.
  rewrite text_z_text. simpl. rewrite !read_write_tokens. simpl. rewrite !read_triple_tokens. simpl.
  rewrite <-!list_fmap_compose. f_equal. f_equal; [by destruct ki|by destruct en|..].
  - rewrite <-(list_fmap_id ms) at 2. apply list_fmap_ext. by intros i [].
  - rewrite <-(list_fmap_id cs) at 2. apply list_fmap_ext. by intros i [].
Qed.
Definition toy_checkpoints : CheckpointCodec.
Proof.
  refine {| cp_marshal p := write_tokens (payload_tokens p); cp_unmarshal s := read_tokens s ≫= read_payload |}.
  - intros p. simpl. by destruct (cp_scope p).
  - intros p _. rewrite read_write_tokens. simpl. apply read_payload_tokens.
Defined.

(** ** A concrete checkpoint *)

Module CheckpointSample.
Definition rev32 : string := StoreSample.rev32.
Definition ctx : Context :=
  {| ctarget := {| tid := "t"; trev := Some rev32 |}; cvantage := "v"; ckind := KindHTTPGet; cprofile := Mihomo11931 |}.
Definition ref : ConnectionRef :=
  {| cid := "ef1_aaaaaaaaaaaaaaaaaaaaaaaaaaaaaaaaaaaaaaaaaaaaaaaaaaaa"; crev := Some rev32 |}.
Definition t0 : Z := StoreSample.t0.
Definition state : State :=
  {| scope := "pool"; scontext := ctx; fingerprint := rev32; evaluatedAt := t0;
     members := [{| mconnection := ref; selectedAt := t0 |}]; cooldowns := [{| dconnection := ref; until := t0 + hour |}] |}.
Definition receipt : string :=
  @marshal toy_codec {| rd_profile := Mihomo11931; rd_generation := rev32; rd_validatorID := "mihomo/1.19.31" |}.
Definition empty : sql := {| tables := {| observations := []; checkpoints := ∅; caches := ∅ |}; events := [] |}.

Lemma time_persistable z : z = t0 ∨ z = t0 + hour → persistable_time z.
Proof. intros Hz. destruct_or! Hz; subst z; (split; [split|]; vm_compute; discriminate). Qed.
Lemma ref_persistable : persistable_ref ref.
Proof. split_and!; [vm_compute; reflexivity|done|vm_compute; reflexivity|by exists rev32]. Qed.
Lemma state_persistable : persistable state.
Proof.
  pose proof (time_persistable t0 (or_introl eq_refl)). pose proof (time_persistable (t0 + hour) (or_intror eq_refl)).
  split; [vm_compute; reflexivity| |done|done| | |done].
  - split_and!; [done|by exists rev32|done|done].
  - constructor; [|done]. split; [apply ref_persistable|done].
  - constructor; [|done]. split; [apply ref_persistable|done].
Qed.
Lemma receipt_good : @good_receipt toy_codec receipt.
Proof.
  split; [apply (@marshal_nonempty toy_codec)|]. unfold RestoreReceipt, receipt.
  by rewrite (@unmarshal_marshal toy_codec).
Qed.
Lemma empty_intact : @checkpoints_intact toy_codec toy_checkpoints (tables empty).
Proof. intros k r. simpl. by rewrite lookup_empty. Qed.
End CheckpointSample.

Lemma checkpoint_round_trip_witness : ∃ payload,
  @encodeCheckpoint toy_checkpoints CheckpointSample.state CheckpointSample.receipt = Some payload ∧ payload ≠ "" ∧
  (slen payload ≤ max_checkpoint →
   @decodeCheckpoint toy_codec toy_checkpoints payload = Some (CheckpointSample.state, CheckpointSample.receipt)).
Proof.
  apply (@checkpoint_round_trip toy_codec toy_checkpoints CheckpointSample.state CheckpointSample.receipt
    CheckpointSample.state_persistable CheckpointSample.receipt_good).
Defined.

Lemma checkpoint_store_refines_witness : ∃ r w',
  @StageDecision toy_checkpoints CheckpointSample.state CheckpointSample.receipt CheckpointSample.t0 CheckpointSample.empty = (r, w') ∧
  @checkpoints_intact toy_codec toy_checkpoints (tables w') ∧
  (is_ok r = true → @slots_of toy_codec toy_checkpoints (tables w') "pool" =
     {| committed := None; pending := Some (CheckpointSample.state, CheckpointSample.receipt) |}).
Proof.
  destruct (@StageDecision toy_checkpoints CheckpointSample.state CheckpointSample.receipt CheckpointSample.t0
    CheckpointSample.empty) as [r w'] eqn:E. exists r, w'. split; [reflexivity|].
  destruct (proj1 (@checkpoint_store_refines toy_codec toy_checkpoints CheckpointSample.empty r w' CheckpointSample.empty_intact)
    CheckpointSample.state CheckpointSample.receipt CheckpointSample.t0 CheckpointSample.state_persistable
    CheckpointSample.receipt_good E) as (Hi&_&Hs).
  split; [exact Hi|]. intros Hok. rewrite Hok in Hs. exact Hs.
Defined.
