(* ===== verification/Persistence.v ===== *)
(** * Decisions can be stored (selection/selection.go with state/sqlite.go)

    What [Select] returns satisfies the conditions under which a checkpoint
    decodes to what was encoded, so the states that reconciliation stages are
    exactly those it recovers. *)
From S2P Require Import Prelude Order Bytes Encoding Identity Provenance Inventory Artifact Observation Selection SelectionFacts Contracts.
From Stdlib Require Import Ascii.
From Stdlib Require String.
Open Scope Z_scope.

Lemma plain_cons c s : plain (String c s) = is_ascii c && plain s.
Proof. done. Qed.
Lemma plain_app s t : plain s = true → plain t = true → plain (s +:+ t) = true.
Proof.
  intros Hs Ht. induction s as [|c s IH]; [done|]. change (String c s +:+ t) with (String c (s +:+ t)).
  rewrite plain_cons in *. bool_to_prop. apply andb_true_iff. auto.
Qed.
Lemma plain_base32 s : plain (to_lower (base32_encode s)) = true.
Proof.
  assert (∀ c, c ∈ chars (base32_encode s) → c ∈ chars base32_alphabet) as Hs by (intros c; by apply (encode_symbols_chars 5)).
  revert Hs. generalize (base32_encode s) as u. induction u as [|c u IH]; intros Hall; [done|].
  assert (is_ascii c && is_ascii (lower_char c) = true) as Hc.
  { apply (alphabet_check (λ c, is_ascii c && is_ascii (lower_char c)) base32_alphabet); [done|].
    apply Hall. simpl. by left. }
  bool_to_prop. rewrite to_lower_cons, plain_cons by done. apply andb_true_iff. split; [done|].
  apply IH. intros d Hd. apply Hall. simpl. by right.
Qed.

Section persistence.
Context `{Digest}.

Lemma identity_persistable c r : Configuration.Configuration.wf c → NewConnectionRef (identity c) = Some r → persistable_ref r.
Proof.
  intros Hc Hr. pose proof (identity_ref_ok c r Hc Hr) as (Hne&_&b&Hb&Hlen).
  apply NewConnectionRef_Some in Hr as [Hi _]. unfold identity in Hi.
  destruct (Identity_of_wf c Hc) as (l&q&_&_&E). rewrite E in Hi. simpl in Hi. injection Hi as Hid _.
  split_and!; [rewrite <-Hid; apply ParseID_generated|done| |exists b; split; [done|]; unfold slen; by rewrite Hlen].
  rewrite <-Hid. apply plain_app; [|apply plain_base32]. unfold version. repeat case_match; done.
Qed.

Lemma findMember_since l r : (findMember l r).2 = 0 ∨ ∃ m, m ∈ l ∧ (findMember l r).2 = selectedAt m.
Proof.
  unfold findMember. destruct (List.find _ l) as [m|] eqn:E; [|by left]. right. exists m. split; [|done].
  apply find_some in E as [E _]. by apply list_elem_of_In.
Qed.

Lemma upsert_elem l d x : x ∈ upsertCooldown l d → x = d ∨ x ∈ l.
Proof.
  unfold upsertCooldown. destruct (list_find _ l) as [[i y]|].
  - intros [j Hj]%list_elem_of_lookup. destruct (decide (i = j)) as [->|Hij].
    + destruct (decide (j < length l)%nat); [|rewrite list_insert_ge in Hj by lia; right; by eapply list_elem_of_lookup_2].
      rewrite list_lookup_insert_eq in Hj by done. left. by injection Hj.
    + rewrite list_lookup_insert_ne in Hj by done. right. by eapply list_elem_of_lookup_2.
  - rewrite elem_of_app, list_elem_of_singleton. tauto.
Qed.

(** Every cooldown is a kept one, or new for a member whose failure has a
    recorded reason. *)
Lemma retain_elem p R reasons now prev sel em cds x : x ∈ (foldl (retain_step p R reasons now) (sel, em, cds) prev).2 →
  x ∈ cds ∨ ∃ m, m ∈ prev ∧ x = {| dconnection := mconnection m; until := now + cooldown p |} ∧
    is_Some (reasons !! refKey (mconnection m)).
Proof.
  revert sel em cds. induction prev as [|m prev IH]; intros sel em cds Hx; [by left|]. simpl in Hx.
  assert (∀ l : list Cooldown, (x ∈ l ∨ ∃ m0, m0 ∈ prev ∧ x = {| dconnection := mconnection m0; until := now + cooldown p |} ∧
      is_Some (reasons !! refKey (mconnection m0))) →
    (x ∈ l → x ∈ cds ∨ x = {| dconnection := mconnection m; until := now + cooldown p |} ∧
      is_Some (reasons !! refKey (mconnection m))) →
    x ∈ cds ∨ ∃ m0, m0 ∈ m :: prev ∧ x = {| dconnection := mconnection m0; until := now + cooldown p |} ∧
      is_Some (reasons !! refKey (mconnection m0))) as Hstep.
  { intros l [Hl|(m0&?&?)] Hin; [|right; exists m0; split; [by right|done]].
    destruct (Hin Hl) as [|[? ?]]; [by left|right; exists m; split; [by left|done]]. }
  destruct (findRanked R (mconnection m)); apply IH in Hx; apply (Hstep _ Hx); [auto|].
  destruct (_ || _) eqn:Er; [|auto]. intros [->|]%upsert_elem; [right|by left]. split; [done|].
  apply orb_true_iff in Er as [Er|Er]; apply bool_decide_eq_true_1 in Er; rewrite Er; by eexists.
Qed.

Lemma evaluated_length sc ctx p candidates previous now d ev R sel :
  selection_run sc ctx p candidates previous now d ev R sel → length ev = length candidates.
Proof.
  intros Hrun%run_evaluated. apply mapM_Some, Forall2_length in Hrun. by rewrite go_sort_length in Hrun.
Qed.

Lemma select_cooldowns_bounded sc ctx p candidates previous now d : state_ok (next d) →
  Select sc ctx p candidates previous now = Ok d →
  (length (cooldowns (next d)) ≤ length candidates)%nat.
Proof.
  intros (Hv&_&_) (ev&R&sel&Hrun)%Select_run. rewrite <-(evaluated_length _ _ _ _ _ _ _ _ _ _ Hrun).
  destruct (run_next _ _ _ _ _ _ _ _ _ _ Hrun) as (_&_&_&_&reasons&kept&_&Hcd&Hpres&Hreas).
  rewrite <-(length_fmap (refKey ∘ dconnection)), <-(length_fmap (refKey ∘ ref) ev).
  apply submseteq_length, NoDup_submseteq.
  - unfold state_valid in Hv. bool_to_prop.
    match goal with Hn : no_duplicate [] (_ <$> cooldowns _) = true |- _ => by apply no_duplicate_spec in Hn as [Hn _] end.
  - intros k (x&->&Hx)%list_elem_of_fmap. rewrite Hcd in Hx. destruct (_ && _); [|by apply Hpres].
    apply retain_elem in Hx as [Hx|(m&_&->&Hm)]; [by apply Hpres|]. by apply Hreas.
Qed.

Lemma persistable_ok s : persistable s → state_ok s.
Proof.
  intros Hs. assert (∀ r, persistable_ref r → ref_ok r) as Hr.
  { intros r (Hp&Hne&_&v&Hv&Hl). split_and!; [done|by intros E; rewrite E in Hp; vm_compute in Hp|].
    exists v. split; [done|]. unfold slen in Hl. apply Nat2Z.inj. exact Hl. }
  split_and!; [apply Hs|eapply Forall_impl; [apply Hs|]; naive_solver..].
Qed.

Lemma persistable_next_member prev now x : Forall (λ m, persistable_ref (mconnection m) ∧ persistable_time (selectedAt m)) prev →
  persistable_time now → persistable_time (selectedAt (next_member prev now x)).
Proof.
  intros Hp Hn. unfold next_member. simpl. destruct (findMember_since prev (ref x)) as [->|(m&Hm&->)]; [done|].
  destruct (is_zero (selectedAt m)); [done|]. rewrite Forall_forall in Hp. by apply Hp.
Qed.

Lemma persistable_previous sc ctx p previous : (∀ s, previous = Some s → persistable s) →
  Forall (λ m, persistable_ref (mconnection m) ∧ persistable_time (selectedAt m)) (prev_members sc ctx p previous) ∧
  Forall (λ d, persistable_ref (dconnection d) ∧ persistable_time (until d)) (prev_cooldowns sc ctx p previous).
Proof.
  intros Hp. unfold prev_members, prev_cooldowns. destruct (usable _ _ _ _); [|by split].
  destruct previous as [s|]; [|by split]. specialize (Hp s eq_refl). split; apply Hp.
Qed.

Lemma select_persistable_lemma sc ctx p candidates previous now d :
  Forall (λ c, wf_record (crecord c)) candidates → Z.of_nat (length candidates) ≤ 10000 → persistable_context ctx →
  fingerprint_zero (policyFingerprint p) = false → 0 < now → persistable_time now → persistable_time (now + cooldown p) →
  (∀ s, previous = Some s → persistable s) →
  Select sc ctx p candidates previous now = Ok d → persistable (next d).
Proof.
  intros Hc Hlen Hctx Hfp Hnow Ht Htc Hprev Hsel.
  assert (state_ok (next d)) as Hok.
  { eapply select_state_ok; [exact Hc|apply Hctx|done|done| |exact Hsel]. intros s Hs. by apply persistable_ok, Hprev. }
  pose proof (select_cooldowns_bounded _ _ _ _ _ _ _ Hok Hsel) as Hcl.
  apply Select_run in Hsel as (ev&R&sel&Hrun).
  destruct (persistable_previous sc ctx p previous Hprev) as [Pm Pc].
  destruct (run_next _ _ _ _ _ _ _ _ _ _ Hrun) as (_&E2&E3&E4&reasons&kept&Hkept&Hcd&_).
  destruct (run_decision _ _ _ _ _ _ _ _ _ _ Hrun) as (_&_&Hmem&_).
  assert (NoDup (mconnection <$> prev_members sc ctx p previous)) as Hnd
    by (apply prev_members_distinct; intros s Hs; by apply persistable_ok, Hprev).
  destruct (sel_good _ _ _ _ _ _ _ _ _ _ Hrun Hnd) as (_&_&Hsub&Hl&_).
  split; [apply Hok|by rewrite E2| |by rewrite E4|..].
  - rewrite E3. unfold policyFingerprint, slen. by rewrite sha256_length.
  - rewrite Hmem. apply Forall_forall. intros m (x&->&Hx)%list_elem_of_fmap.
    split; [|by apply persistable_next_member].
    apply Hsub, (R_elem _ _ _ _ _ _ _ _ _ _ Hrun) in Hx as [Hx _].
    destruct (evaluated_elem _ _ _ _ _ _ _ _ _ _ Hrun x Hx) as (Hin&Hr&_). rewrite Forall_forall in Hc.
    eapply identity_persistable; [apply (Hc _ Hin)|exact Hr].
  - apply Forall_forall. intros x Hx. rewrite Hcd in Hx.
    assert (x ∈ kept → persistable_ref (dconnection x) ∧ persistable_time (until x)) as Hk.
    { intros Hin. rewrite Forall_forall in Pc. apply Pc. by eapply sublist_subseteq. }
    destruct (_ && _); [|auto]. apply retain_elem in Hx as [Hx|(m&Hm&->&_)]; [auto|].
    rewrite Forall_forall in Pm. split; [apply (Pm m Hm)|done].
  - split; [|lia]. rewrite Hmem, length_fmap, Hl.
    pose proof (run_policy _ _ _ _ _ _ _ _ _ _ Hrun) as Hp. unfold policy_valid, outside in Hp. bool_to_prop. lia.
Qed.

(** Every decision [Select] makes from at most ten thousand well-formed records can be stored and read back: its
    state is valid, its members and cooldowns are restorable references with representable times and at most ten
    thousand each, provided the previous state was such a state and the time fits the range of stored times. *)
Theorem select_persistable sc ctx p candidates previous now d :
  Forall (λ c, wf_record (crecord c)) candidates → Z.of_nat (length candidates) ≤ 10000 → persistable_context ctx →
  fingerprint_zero (policyFingerprint p) = false → 0 < now → persistable_time now → persistable_time (now + cooldown p) →
  (∀ s, previous = Some s → persistable s) →
  Select sc ctx p candidates previous now = Ok d → persistable (next d).
Proof. apply select_persistable_lemma. Qed.
End persistence.
