(* ===== verification/SecretPublisher.v ===== *)
(** * The Secret publisher (internal/operator/secret_publisher.go)

    One Gateway's artifact in one Kubernetes Secret.  The API server answers
    each request as a list of events decides; a failed create or update may
    still have been applied.  The publisher is an instance of the [Publisher]
    contract. *)
From S2P Require Import Prelude Order Bytes Encoding Identity Artifact Observation Selection Contracts.
From Stdlib Require Import Ascii.
From Stdlib Require String.
Open Scope Z_scope.

Definition EngineSecretType : string := "egressfox.io/engine-config".
Definition ReceiptDataKey : string := ".egressfox-receipt".
Definition ManagedByLabel : string := "app.kubernetes.io/managed-by".
Definition EngineLabel : string := "egressfox.io/engine".
Definition MaxSecretDataBytes : Z := 900 * 1024.
Definition GroupVersion : string := "egressfox.io/v1alpha1".

Record OwnerReference := { or_apiVersion : string; or_kind : string; or_name : string; or_uid : string }.
(** What the publisher reads and writes of a Secret; [controller] is the
    owner reference with the controller flag. *)
Record Secret := {
  secret_type : string; controller : option OwnerReference; labels : gmap string string; data : gmap string string;
}.

(** [EngineType] of a Gateway's spec. *)
Inductive gateway_engine := GatewayMihomo | GatewaySingBox | GatewayOther.

Inductive api_event := ApiOk | ApiFailed | ApiFailedApplied.
(** The Secret of the publisher's name, and the answers to come. *)
Record kube := { secret : option Secret; answers : list api_event }.

Record SecretPublisher := {
  owner_name : string; owner_uid : string; owner_engine : gateway_engine; scheme_knows_owner : bool;
  guard : option (kube → bool);
}.
Record SecretPublicationError := { sp_code : string }.
Definition PublicationUncertain (e : SecretPublicationError) : bool :=
  bool_decide (sp_code e = "create") || bool_decide (sp_code e = "update").

Definition profileEngine (p : SecretPublisher) : string :=
  match owner_engine p with
  | GatewayMihomo => Engine_String EngineMihomo
  | GatewaySingBox => Engine_String EngineSingBox
  | GatewayOther => "unknown"
  end.
Definition configDataKey (p : Profile) : option string :=
  match engine p with EngineMihomo => Some "config.yaml" | EngineSingBox => Some "config.json" | EngineUnknown => None end.

Definition is_owner (p : SecretPublisher) (o : OwnerReference) : bool :=
  bool_decide (or_apiVersion o = GroupVersion) && bool_decide (or_kind o = "EgressGateway") &&
  bool_decide (or_name o = owner_name p) && bool_decide (or_uid o = owner_uid p).
(** [SecretPublisher.owned]. *)
Definition secret_owned (p : SecretPublisher) (s : Secret) : bool :=
  bool_decide (secret_type s = EngineSecretType) &&
  match controller s with Some o => is_owner p o | None => false end.

Definition setManagedLabels (p : SecretPublisher) (l : gmap string string) : gmap string string :=
  <[EngineLabel := profileEngine p]> (<[ManagedByLabel := "egressfox"]> l).

Definition owner_reference (p : SecretPublisher) : OwnerReference :=
  {| or_apiVersion := GroupVersion; or_kind := "EgressGateway"; or_name := owner_name p; or_uid := owner_uid p |}.

(** ** API requests *)

Definition next_answer (k : kube) : api_event * kube :=
  match answers k with
  | [] => (ApiOk, k)
  | e :: s => (e, {| secret := secret k; answers := s |})
  end.
(** [Get]: [None] when the request failed, else the object if it exists. *)
Definition get_secret (k : kube) : option (option Secret) * kube :=
  match next_answer k with (ApiOk, k') => (Some (secret k'), k') | (_, k') => (None, k') end.
(** [Create] and [Update]: [false] when the request failed. *)
Definition put_secret (s : Secret) (k : kube) : bool * kube :=
  match next_answer k with
  | (ApiOk, k') => (true, {| secret := Some s; answers := answers k' |})
  | (ApiFailed, k') => (false, k')
  | (ApiFailedApplied, k') => (false, {| secret := Some s; answers := answers k' |})
  end.

Section publisher.
Context `{Digest, ReceiptCodec}.

Definition fail_with {A} (code : string) (k : kube) : result SecretPublicationError A * kube :=
  (Err {| sp_code := code |}, k).

(** The loop of [CurrentReceipt] over the two data keys. *)
Fixpoint find_receipt (s : Secret) (keys : list string) : option string :=
  match keys with
  | [] => None
  | key :: rest =>
      let encoded := default "" (data s !! ReceiptDataKey) in
      match MatchesProtectedReceipt (default "" (data s !! key)) encoded with
      | Some profile =>
          receipt ← RestoreReceipt encoded;
          if bool_decide (Engine_String (engine profile) = default "" (labels s !! EngineLabel)) then Some receipt else None
      | None => find_receipt s rest
      end
  end.
Definition data_keys : list string := ["config.yaml"; "config.json"].
#[local] Arguments data_keys : simpl never.

Definition CurrentReceipt (p : SecretPublisher) (k : kube) : result SecretPublicationError (option string) * kube :=
  match get_secret k with
  | (None, k) => fail_with "read" k
  | (Some None, k) => (Ok None, k)
  | (Some (Some s), k) =>
      if negb (secret_owned p s) then fail_with "ownership" k else
      match find_receipt s data_keys with
      | Some receipt => (Ok (Some receipt), k)
      | None => fail_with "receipt" k
      end
  end.

(** [Publish]: whether the Secret changed. *)
Definition Publish (p : SecretPublisher) (a : Validated) (k : kube) : result SecretPublicationError bool * kube :=
  let prof := profile (candidate a) in
  if negb (bool_decide (Engine_String (engine prof) = profileEngine p)) then fail_with "profile" k else
  if match guard p with Some check => negb (check k) | None => false end then fail_with "snapshot_obsolete" k else
  match ProtectedReceipt a with
  | None => fail_with "artifact" k
  | Some receipt =>
      match configDataKey prof with
      | None => fail_with "profile" k
      | Some configKey =>
          let bytes := content (candidate a) in
          if MaxSecretDataBytes <? slen bytes + slen receipt then fail_with "payload_too_large" k else
          let desired : gmap string string := <[configKey := bytes]> {[ReceiptDataKey := receipt]} in
          match get_secret k with
          | (None, k) => fail_with "read" k
          | (Some None, k) =>
              if negb (scheme_knows_owner p) then fail_with "owner" k else
              match put_secret {| secret_type := EngineSecretType; controller := Some (owner_reference p);
                                  labels := setManagedLabels p ∅; data := desired |} k with
              | (true, k) => (Ok true, k)
              | (false, k) => fail_with "create" k
              end
          | (Some (Some s), k) =>
              if negb (secret_owned p s) then fail_with "ownership" k else
              if bool_decide (default "" (data s !! configKey) = bytes) &&
                 bool_decide (default "" (data s !! ReceiptDataKey) = receipt) && Nat.eqb (size (data s)) 2
              then (Ok false, k)
              else
                match put_secret {| secret_type := EngineSecretType; controller := controller s;
                                    labels := setManagedLabels p (labels s); data := desired |} k with
                | (true, k) => (Ok true, k)
                | (false, k) => fail_with "update" k
                end
          end
      end
  end.

(** ** The laws of [Publisher] *)

(** Either no Secret exists, or the publisher owns it and its receipt
    authenticates its content. *)
Definition secret_intact (p : SecretPublisher) (k : kube) : Prop :=
  ∀ s, secret k = Some s → secret_owned p s = true ∧ ∃ r, find_receipt s data_keys = Some r ∧ good_receipt r.
Definition secret_receipt (k : kube) : option string := secret k ≫= λ s, find_receipt s data_keys.

Lemma next_answer_secret k e k' : next_answer k = (e, k') → secret k' = secret k.
Proof. unfold next_answer. destruct (answers k); by intros [= <- <-]. Qed.
Lemma get_secret_spec k o k' : get_secret k = (o, k') → secret k' = secret k ∧ ∀ x, o = Some x → x = secret k.
Proof.
  unfold get_secret. destruct (next_answer k) as [e k1] eqn:E. apply next_answer_secret in E.
  destruct e; intros [= <- <-]; (split; [done|]); intros x [= <-]; done.
Qed.
Lemma put_secret_spec s k b k' : put_secret s k = (b, k') →
  secret k' = Some s ∨ b = false ∧ secret k' = secret k.
Proof.
  unfold put_secret. destruct (next_answer k) as [e k1] eqn:E. apply next_answer_secret in E.
  destruct e; intros [= <- <-]; auto.
Qed.

(** What [Publish] writes is what [CurrentReceipt] finds. *)
Lemma written_receipt a c k s : made_validated a → Validated_Receipt a = Some c →
  configDataKey (profile (candidate a)) = Some k → data s !! k = Some (content (candidate a)) →
  data s !! ReceiptDataKey = Some c → (∀ k', k' ∈ data_keys → k' ≠ k → data s !! k' = None) →
  find_receipt s data_keys =
    if bool_decide (Engine_String (engine (profile (candidate a))) = default "" (labels s !! EngineLabel)) then Some c else None.
Proof.
  intros Hm Hr Hk Hc Hd Hother. destruct (receipt_of_made a Hm) as (r&Hr'&Hp&_). rewrite Hr in Hr'. injection Hr' as <-.
  assert (RestoreReceipt c = Some c) as Hres by (unfold Validated_Receipt in Hr; by rewrite Hp in Hr).
  pose proof (receipt_matches a c Hm Hp) as Hmatch.
  assert (∀ rest, find_receipt s (k :: rest) = if bool_decide (Engine_String (engine (profile (candidate a))) =
    default "" (labels s !! EngineLabel)) then Some c else None) as Hfound.
  { intros rest. simpl. rewrite Hc, Hd. simpl. by rewrite Hmatch, Hres. }
  assert (k = "config.yaml" ∨ k = "config.json") as Hkk.
  { unfold configDataKey in Hk. destruct (engine (profile (candidate a))); [done| |]; injection Hk as <-; auto. }
  destruct Hkk as [Ek|Ek]; rewrite Ek in *; [apply Hfound|].
  change data_keys with ("config.yaml" :: ["config.json"]). simpl find_receipt at 1.
  rewrite (Hother "config.yaml") by (done || by left). simpl.
  assert (MatchesProtectedReceipt "" (default "" (data s !! ReceiptDataKey)) = None) as ->; [|exact (Hfound [])].
  unfold MatchesProtectedReceipt. destruct (unmarshal _); [simpl|done]. destruct (_ || _); [done|].
  destruct (NewCandidate _ "") as [cand|] eqn:En; [|done]. by apply NewCandidate_Some in En as [_ ?].
Qed.

Lemma current_spec p k r k' : secret_intact p k → CurrentReceipt p k = (r, k') →
  secret_intact p k' ∧ secret_receipt k' = secret_receipt k ∧ match r with Ok o => o = secret_receipt k | Err _ => True end.
Proof.
  intros Hi. unfold CurrentReceipt, secret_intact, secret_receipt. destruct (get_secret k) as [o k1] eqn:E.
  apply get_secret_spec in E as [Es Ho]. intros Hr. assert (k' = k1) as ->.
  { destruct o as [[s|]|]; [|by injection Hr..]. repeat case_match; by injection Hr. }
  rewrite Es. split_and!; [done..|]. destruct o as [[s|]|]; [|injection Hr as <-; by rewrite <-(Ho _ eq_refl)|by injection Hr as <-].
  rewrite <-(Ho _ eq_refl). specialize (Ho _ eq_refl). symmetry in Ho.
  destruct (Hi s Ho) as (Hown&x&Hx&_). rewrite Hown, Hx in Hr. injection Hr as <-. symmetry. exact Hx.
Qed.

Lemma size_two_other (m : gmap string string) k1 k2 k v1 v2 : k1 ≠ k2 → m !! k1 = Some v1 → m !! k2 = Some v2 →
  size m = 2%nat → k ≠ k1 → k ≠ k2 → m !! k = None.
Proof.
  intros Hne E1 E2 Hs Hk1 Hk2. destruct (m !! k) as [v|] eqn:E; [|done]. exfalso.
  assert (size ({[k; k1; k2]} : gset string) ≤ size (dom m))%nat as Hle.
  { apply subseteq_size. intros x Hx. rewrite elem_of_dom. set_unfold. destruct_or! Hx; subst x; by eexists. }
  rewrite !size_union, !size_singleton, size_dom, Hs in Hle by set_solver. lia.
Qed.

(** The outcome the contract allows. *)
Definition publish_ok (p : SecretPublisher) (c : string) (k : kube) (o : result SecretPublicationError bool * kube) : Prop :=
  secret_intact p o.2 ∧
  match o.1 with
  | Ok _ => secret_receipt o.2 = Some c
  | Err e => secret_receipt o.2 = secret_receipt k ∨ PublicationUncertain e = true ∧ secret_receipt o.2 = Some c
  end.

Lemma fail_ok p c k k1 code : secret_intact p k → secret k1 = secret k → publish_ok p c k (fail_with code k1).
Proof. intros Hi E. unfold publish_ok, secret_intact, secret_receipt. simpl. rewrite E. split; [done|by left]. Qed.

Section artifact_of.
Context (p : SecretPublisher) (a : Validated) (c ck : string).
Context (Hm : made_validated a) (Hr : Validated_Receipt a = Some c) (Hg : good_receipt c).
Context (He : Engine_String (engine (profile (candidate a))) = profileEngine p).
Context (Hk : configDataKey (profile (candidate a)) = Some ck).

Lemma config_key : ck ≠ ReceiptDataKey.
Proof using Hk. clear -Hk. unfold configDataKey in Hk. destruct (engine _); [done| |]; by injection Hk as <-. Qed.
Lemma receipt_key : ReceiptDataKey ∉ data_keys.
Proof. set_solver. Qed.

(** A created or updated Secret. *)
Lemma put_ok ctl lab k k1 b k2 code : secret_intact p k → secret k1 = secret k →
  match ctl with Some o => is_owner p o | None => false end = true → code = "create" ∨ code = "update" →
  put_secret {| secret_type := EngineSecretType; controller := ctl; labels := setManagedLabels p lab;
                data := <[ck := content (candidate a)]> {[ReceiptDataKey := c]} |} k1 = (b, k2) →
  publish_ok p c k (if b then (Ok true, k2) else fail_with code k2).
Proof using Hm Hr Hg He Hk.
  intros Hi E1 Hctl Hcode E2. set (s := {| secret_type := EngineSecretType |}) in E2. pose proof config_key as Hck.
  assert (find_receipt s data_keys = Some c) as Hs.
  { erewrite (written_receipt a c ck); [|done|done|exact Hk|apply lookup_insert_eq| |].
    - simpl. unfold setManagedLabels. rewrite lookup_insert_eq. simpl. by rewrite bool_decide_true.
    - simpl. rewrite lookup_insert_ne by done. apply lookup_singleton_eq.
    - intros k4 Hk4 Hk4'. simpl. rewrite lookup_insert_ne by done. apply lookup_singleton_ne.
      intros <-. by apply receipt_key. }
  apply put_secret_spec in E2 as [E2|[-> E2]]; [|apply fail_ok; [done|congruence]].
  assert (secret_intact p k2 ∧ secret_receipt k2 = Some c) as [Hi2 Hr2].
  { unfold secret_intact, secret_receipt. rewrite E2. split; [|done]. intros ? [= <-]. split; [|by exists c].
    unfold secret_owned. simpl. by rewrite Hctl. }
  destruct b; (split; [done|]); [done|]. right. split; [|done].
  unfold PublicationUncertain. simpl. by destruct Hcode as [->| ->].
Qed.

(** A Secret that already holds the artifact. *)
Lemma same_ok s x k k1 : secret_intact p k → secret k1 = secret k → secret k = Some s →
  find_receipt s data_keys = Some x → default "" (data s !! ck) = content (candidate a) →
  default "" (data s !! ReceiptDataKey) = c → size (data s) = 2%nat → publish_ok p c k (Ok false, k1).
Proof using Hm Hr Hg He Hk.
  intros Hi E1 Es Hx D1 D2 Hsize. assert (content (candidate a) ≠ "") as Hbytes by by apply made_validated_inv.
  destruct Hg as [Hne _].
  assert (data s !! ck = Some (content (candidate a))) as F1 by (destruct (data s !! ck); simpl in *; congruence).
  assert (data s !! ReceiptDataKey = Some c) as F2 by (destruct (data s !! ReceiptDataKey); simpl in *; congruence).
  assert (find_receipt s data_keys = Some c) as Hs.
  { rewrite (written_receipt a c ck) in Hx |- *; try done.
    - by destruct (bool_decide _).
    - intros k' Hk' Hne'. apply (size_two_other _ _ _ _ _ _ config_key F1 F2); [done|done|]. intros ->. by apply receipt_key.
    - intros k' Hk' Hne'. apply (size_two_other _ _ _ _ _ _ config_key F1 F2); [done|done|]. intros ->. by apply receipt_key. }
  unfold publish_ok, secret_intact, secret_receipt. simpl. rewrite E1, Es. split; [by rewrite <-Es|exact Hs].
Qed.
End artifact_of.

Lemma publish_lawful p a c k : secret_intact p k → made_validated a → Validated_Receipt a = Some c →
  publish_ok p c k (Publish p a k).
Proof.
  intros Hi Hm Hr. destruct (receipt_of_made a Hm) as (c'&Hr'&Hp&Hne). rewrite Hr in Hr'. injection Hr' as <-.
  assert (good_receipt c) as Hg by (split; [done|]; unfold Validated_Receipt in Hr; by rewrite Hp in Hr).
  unfold Publish. destruct (negb _) eqn:Ee; [by apply fail_ok|]. apply negb_false_iff, bool_decide_eq_true_1 in Ee.
  destruct (match guard p with Some _ => _ | None => _ end); [by apply fail_ok|]. rewrite Hp.
  destruct (configDataKey _) as [ck|] eqn:Ek; [|by apply fail_ok]. destruct (_ <? _); [by apply fail_ok|].
  destruct (get_secret k) as [o k1] eqn:Eg. apply get_secret_spec in Eg as [Es Ho].
  destruct o as [[s|]|]; [| |by apply fail_ok].
  - specialize (Ho _ eq_refl). symmetry in Ho. destruct (Hi s Ho) as (Hown&x&Hx&_). rewrite Hown. simpl negb. cbv iota.
    destruct (_ && _ && _) eqn:Eq; [bool_to_prop; by eapply same_ok|].
    destruct (put_secret _ k1) as [b k2] eqn:E2.
    assert (match controller s with Some o => is_owner p o | None => false end = true) as Hctl
      by (unfold secret_owned in Hown; by bool_to_prop).
    pose proof (put_ok p a c ck Hm Hr Hg Ee Ek _ _ k k1 b k2 "update" Hi Es Hctl (or_intror eq_refl) E2) as Hput. by destruct b.
  - destruct (negb _); [by apply fail_ok|]. destruct (put_secret _ k1) as [b k2] eqn:E2.
    assert (is_owner p (owner_reference p) = true) as Hctl by (unfold is_owner; simpl; by rewrite !bool_decide_true).
    pose proof (put_ok p a c ck Hm Hr Hg Ee Ek (Some _) _ k k1 b k2 "create" Hi Es Hctl (or_introl eq_refl) E2) as Hput. by destruct b.
Qed.
Lemma publish_spec p a c k r k' : secret_intact p k → made_validated a → Validated_Receipt a = Some c →
  Publish p a k = (r, k') → secret_intact p k' ∧
  match r with
  | Ok _ => secret_receipt k' = Some c
  | Err e => secret_receipt k' = secret_receipt k ∨ PublicationUncertain e = true ∧ secret_receipt k' = Some c
  end.
Proof. intros Hi Hm Hr E. pose proof (publish_lawful p a c k Hi Hm Hr) as Hl. by rewrite E in Hl. Qed.
End publisher.

(** The Secret publisher keeps the contract. *)
#[export] Instance secret_publisher `{DG : Digest, RC : ReceiptCodec} (p : SecretPublisher) :
  Publisher kube SecretPublicationError.
Proof.
  refine {| current_receipt := CurrentReceipt p; publish_artifact := Publish p; uncertain := PublicationUncertain;
            in_place := secret_receipt; owned := secret_intact p |}.
  - intros k c Hi Hc. unfold secret_receipt in Hc. apply bind_Some in Hc as (s&Hs&Hc).
    destruct (Hi s Hs) as (_&r&Hr&Hg). rewrite Hc in Hr. by injection Hr as <-.
  - apply current_spec.
  - intros a c k r k'. apply publish_spec.
Defined.

(** The Secret publisher keeps its contract whichever requests fail and whether failed writes were applied: a
    publication that succeeds leaves exactly its receipt in place, as a later read confirms; one that fails leaves the
    previous receipt, or its own when the error reports an uncertain write; and the Secret stays owned, with a receipt
    that authenticates its content. *)
Theorem secret_publication_contract `{Digest, ReceiptCodec} p a c k r k' o k'' : secret_intact p k → made_validated a →
  Validated_Receipt a = Some c → Publish p a k = (r, k') → CurrentReceipt p k' = (Ok o, k'') →
  secret_intact p k'' ∧
  match r with
  | Ok _ => o = Some c
  | Err e => o = secret_receipt k ∨ PublicationUncertain e = true ∧ o = Some c
  end.
Proof.
  intros Hi Hm Hr Hp Hc. destruct (publish_spec _ _ _ _ _ _ Hi Hm Hr Hp) as [Hi' Hres].
  destruct (current_spec _ _ _ _ Hi' Hc) as (Hi2&_&->). by split.
Qed.
