(* ===== verification/Managed.v ===== *)
(** * The managed runtime (internal/operator/managed_runtime.go)

    A managed gateway's artifacts are immutable generation Secrets; its
    engine runs as a Deployment behind a Service and a NetworkPolicy, with
    client credentials in a Secret of their own.  The objects of the
    gateway's namespace are one state, over which every request succeeds,
    fails, or fails after it was applied, as a list of events decides. *)
From S2P Require Import Prelude Order Bytes Encoding Endpoint Text Artifact SnapshotGuard Engine SecretPublisher Profiles.
From Stdlib Require Import Ascii.
From Stdlib Require String.
Open Scope Z_scope.

Definition ManagedSOCKSPort : Z := 1080.
Definition ManagedUsername : string := "egressfox".
Definition BasicAuthSecretType : string := "kubernetes.io/basic-auth".
Definition ComponentLabel : string := "egressfox.io/component".
Definition GatewayUIDLabel : string := "egressfox.io/gateway-uid".
Definition GenerationAnnotation : string := "egressfox.io/generation".
Definition ClientUsernameDataKey : string := ".egressfox-client-username".
Definition ClientPasswordDataKey : string := ".egressfox-client-password".
Definition componentAuthentication : string := "client-auth".
Definition componentGeneration : string := "runtime-generation".
Definition componentRuntime : string := "runtime".
Definition managedConfigMountPath : string := "/etc/egressfox/config".
Definition managedAuthenticationMountPath : string := "/etc/egressfox/auth".

(** ** Gateways (api/v1alpha1/egressgateway_types.go) *)

Record ListenerSpec := { ls_address : string; ls_port : Z }.
(** [Runtime] is a pointer to a struct with the pointer [Managed]. *)
Record EgressGatewaySpec := {
  PoolRef : string; ProfileRef : string; gw_engine : gateway_engine; gw_listener : option ListenerSpec; OutputSecretName : string;
  Runtime : option (option ());
}.
Record EgressGatewayStatus := {
  gs_observedGeneration : Z; gs_profile : string; EligibleEndpoints : Z; SelectedEndpoints : Z; LastPublishedTime : option Z;
  PublishedGeneration : string; ActiveGeneration : string; ServiceName : string; ClientAuthSecretName : string;
  gs_conditions : list Pool.Condition;
}.
Record EgressGateway := {
  gw_namespace : string; gw_name : string; gw_uid : string; gw_generation : Z; gw_resourceVersion : string; gw_deleting : bool;
  gw_spec : EgressGatewaySpec; gw_status : EgressGatewayStatus;
}.
Definition IsManaged (g : EgressGateway) : bool := match Runtime (gw_spec g) with Some (Some _) => true | _ => false end.

(** ** Objects *)

Abbreviation Labels := (gomap string).
Record Secret := {
  s_name : string; s_uid : string; s_resourceVersion : string; s_created : Z; s_controller : option OwnerReference; s_labels : Labels;
  s_type : string; s_immutable : option bool; s_data : gomap string;
}.
Record Volume := { v_name : string; v_secret : option (string * list (string * string)); v_sizeLimit : option string }.
Record Container := {
  ct_name : string; ct_image : string; ct_pullPolicy : string; ct_command : list string; ct_args : list string; ct_port : string * Z * string;
  ct_readiness : list string; ct_initialDelay : Z; ct_period : Z; ct_timeout : Z; ct_failures : Z; ct_successes : Z; ct_requests : list (string * string); ct_limits : list (string * string);
  ct_allowPrivilegeEscalation : bool; ct_readOnlyRootFilesystem : bool; ct_runAsNonRoot : bool; ct_runAsUser : Z; ct_runAsGroup : Z; ct_drop : list string;
  ct_mounts : list (string * string * bool);
}.
Record PodTemplate := {
  pt_labels : Labels; pt_annotations : Labels; pt_automountToken : bool; pt_termination : Z; pt_runAsNonRoot : bool; pt_runAsUser : Z;
  pt_runAsGroup : Z; pt_fsGroup : Z; pt_seccomp : string; pt_containers : list Container; pt_volumes : list Volume;
}.
Record DeploymentSpec := {
  dp_replicas : Z; dp_history : Z; dp_progressDeadline : Z; dp_minReady : Z; dp_strategy : string; dp_maxUnavailable : Z; dp_maxSurge : Z;
  dp_selector : Labels; dp_template : PodTemplate;
}.
#[global] Instance Volume_eq_dec : EqDecision Volume.
Proof. solve_decision. Defined.
#[global] Instance Container_eq_dec : EqDecision Container.
Proof. solve_decision. Defined.
#[global] Instance PodTemplate_eq_dec : EqDecision PodTemplate.
Proof. solve_decision. Defined.
#[global] Instance DeploymentSpec_eq_dec : EqDecision DeploymentSpec.
Proof. solve_decision. Defined.
#[global] Instance OwnerReference_eq_dec : EqDecision OwnerReference.
Proof. solve_decision. Defined.
Record DeploymentStatus := {
  ds_observedGeneration : Z; UpdatedReplicas : Z; ds_replicas : Z; ReadyReplicas : Z; AvailableReplicas : Z; UnavailableReplicas : Z;
  ds_conditions : list (string * string * string);   (* type, status, reason *)
}.
(** The part of an object's metadata that is compared and written. *)
Record ObjectMeta := { om_labels : Labels; om_controller : option OwnerReference }.
#[global] Instance ObjectMeta_eq_dec : EqDecision ObjectMeta.
Proof. solve_decision. Defined.
Record Deployment := { d_meta : ObjectMeta; d_generation : Z; d_spec : DeploymentSpec; d_status : DeploymentStatus }.
(** A Service keeps the fields of its spec that the runtime does not set. *)
Record ServiceSpec := { sv_type : string; sv_selector : Labels; sv_ports : list (string * string * Z * string); sv_other : string }.
#[global] Instance ServiceSpec_eq_dec : EqDecision ServiceSpec.
Proof. solve_decision. Defined.
Record ServiceObject := { sv_meta : ObjectMeta; sv_spec : ServiceSpec }.
Record NetworkPolicySpec := {
  np_podSelector : Labels; np_types : list string; np_from : list Labels; np_ports : list (string * Z);
}.
#[global] Instance NetworkPolicySpec_eq_dec : EqDecision NetworkPolicySpec.
Proof. solve_decision. Defined.
Record NetworkPolicy := { np_meta : ObjectMeta; np_spec : NetworkPolicySpec }.
Record Pod := { pod_labels : Labels; pod_phase : string; pod_volumes : list Volume }.

(** What the server gives the next object it creates. *)
Record server_stamp := { st_clock : Z; st_uid : string; st_version : string }.
(** What the runtime reads and writes: the Secrets of the namespace, the
    Deployment, Service and NetworkPolicy of the gateway's names and the
    Pods; the answers to come, the randomness to come and the server's
    stamp; and [currentName] of the publisher. *)
Record kcluster := {
  k_secrets : list Secret; k_deployment : option Deployment; k_service : option ServiceObject; k_policy : option NetworkPolicy; k_pods : list Pod;
  k_answers : list api_event; k_random : list (option string); k_stamp : server_stamp; currentName : string;
}.

(** ** Requests *)

Inductive runtime_error := ManagedRuntimeError (code : string) | PublicationError (e : SecretPublicationError).
Definition runtime_uncertain (e : runtime_error) : bool :=
  match e with
  | ManagedRuntimeError code => bool_decide (code = "generation_create")
  | PublicationError e => PublicationUncertain e
  end.
Definition K (A : Type) : Type := kcluster → result runtime_error A * kcluster.
#[global] Instance K_ret : MRet K := λ A a k, (Ok a, k).
#[global] Instance K_bind : MBind K := λ A B f m k, match m k with (Ok a, k') => f a k' | (Err e, k') => (Err e, k') end.
Definition managedRuntimeFailure {A} (code : string) : K A := λ k, (Err (ManagedRuntimeError code), k).
Definition secretPublicationFailure {A} (code : string) : K A := λ k, (Err (PublicationError {| sp_code := code |}), k).
Definition check (bad : bool) (code : string) : K () := if bad then managedRuntimeFailure code else mret ().

Definition with_answers (a : list api_event) (k : kcluster) : kcluster :=
  {| k_secrets := k_secrets k; k_deployment := k_deployment k; k_service := k_service k; k_policy := k_policy k; k_pods := k_pods k;
     k_answers := a; k_random := k_random k; k_stamp := k_stamp k; currentName := currentName k |}.
Definition with_random (r : list (option string)) (k : kcluster) : kcluster :=
  {| k_secrets := k_secrets k; k_deployment := k_deployment k; k_service := k_service k; k_policy := k_policy k; k_pods := k_pods k;
     k_answers := k_answers k; k_random := r; k_stamp := k_stamp k; currentName := currentName k |}.
Definition with_secrets (s : list Secret) (k : kcluster) : kcluster :=
  {| k_secrets := s; k_deployment := k_deployment k; k_service := k_service k; k_policy := k_policy k; k_pods := k_pods k;
     k_answers := k_answers k; k_random := k_random k; k_stamp := k_stamp k; currentName := currentName k |}.
Definition with_deployment (d : option Deployment) (k : kcluster) : kcluster :=
  {| k_secrets := k_secrets k; k_deployment := d; k_service := k_service k; k_policy := k_policy k; k_pods := k_pods k;
     k_answers := k_answers k; k_random := k_random k; k_stamp := k_stamp k; currentName := currentName k |}.
Definition with_service (s : option ServiceObject) (k : kcluster) : kcluster :=
  {| k_secrets := k_secrets k; k_deployment := k_deployment k; k_service := s; k_policy := k_policy k; k_pods := k_pods k;
     k_answers := k_answers k; k_random := k_random k; k_stamp := k_stamp k; currentName := currentName k |}.
Definition with_policy (p : option NetworkPolicy) (k : kcluster) : kcluster :=
  {| k_secrets := k_secrets k; k_deployment := k_deployment k; k_service := k_service k; k_policy := p; k_pods := k_pods k;
     k_answers := k_answers k; k_random := k_random k; k_stamp := k_stamp k; currentName := currentName k |}.
Definition with_current (n : string) (k : kcluster) : kcluster :=
  {| k_secrets := k_secrets k; k_deployment := k_deployment k; k_service := k_service k; k_policy := k_policy k; k_pods := k_pods k;
     k_answers := k_answers k; k_random := k_random k; k_stamp := k_stamp k; currentName := n |}.

(** The next answer; a request without one succeeds. *)
Definition next_event (k : kcluster) : api_event * kcluster :=
  match k_answers k with [] => (ApiOk, k) | e :: s => (e, with_answers s k) end.
(** A read: what the server holds, or a failure. *)
Definition read {A} (f : kcluster → option A) : K (answer A) := λ k,
  match next_event k with
  | (ApiOk, k) => (Ok (match f k with Some a => Found a | None => NotFound end), k)
  | (_, k) => (Ok ReadFailed, k)
  end.
(** A write of the state by [f]: whether the request succeeded. *)
Definition write (f : kcluster → kcluster) : K bool := λ k,
  match next_event k with
  | (ApiOk, k) => (Ok true, f k)
  | (ApiFailed, k) => (Ok false, k)
  | (ApiFailedApplied, k) => (Ok false, f k)
  end.
(** [io.ReadFull] of [n] bytes. *)
Definition read_random (n : Z) : K (option string) := λ k,
  match k_random k with
  | Some s :: r => (Ok (if slen s =? n then Some s else None), with_random r k)
  | None :: r => (Ok None, with_random r k)
  | [] => (Ok None, k)
  end.

Definition find_secret (name : string) (k : kcluster) : option Secret := List.find (λ s, bool_decide (s_name s = name)) (k_secrets k).
Definition get_secret (name : string) : K (answer Secret) := read (find_secret name).
Definition remove_secret (name : string) (k : kcluster) : kcluster :=
  with_secrets (filter (λ s, s_name s ≠ name) (k_secrets k)) k.
(** [Create] of a Secret: the server stamps it, and refuses a name in use. *)
Inductive created := Created (s : Secret) | AlreadyExists | CreateFailed.
Definition stamp (s : Secret) (k : kcluster) : Secret :=
  {| s_name := s_name s; s_uid := st_uid (k_stamp k); s_resourceVersion := st_version (k_stamp k); s_created := st_clock (k_stamp k);
     s_controller := s_controller s; s_labels := s_labels s; s_type := s_type s; s_immutable := s_immutable s; s_data := s_data s |}.
Definition create_secret (s : Secret) : K created := λ k,
  match find_secret (s_name s) k with
  | Some _ => match next_event k with (ApiOk, k) => (Ok AlreadyExists, k) | (_, k) => (Ok CreateFailed, k) end
  | None => (ok ← write (λ k, with_secrets (k_secrets k ++ [stamp s k]) k); mret (if ok : bool then Created (stamp s k) else CreateFailed)) k
  end.
Definition matches (want : Labels) (have : Labels) : bool :=
  forallb (λ kv, bool_decide (have !! kv.1 = Some kv.2)) (entries want).
Definition list_secrets (want : Labels) : K (option (list Secret)) := λ k,
  match read (λ k, Some (List.filter (λ s, matches want (s_labels s)) (k_secrets k))) k with
  | (Ok (Found l), k) => (Ok (Some l), k)
  | (_, k) => (Ok None, k)
  end.
Definition list_pods (want : Labels) : K (option (list Pod)) := λ k,
  match read (λ k, Some (List.filter (λ p, matches want (pod_labels p)) (k_pods k))) k with
  | (Ok (Found l), k) => (Ok (Some l), k)
  | (_, k) => (Ok None, k)
  end.

(** ** Names, labels and ownership *)

Definition ownedByGateway (controller : option OwnerReference) (g : EgressGateway) : bool :=
  match controller with
  | Some o => bool_decide (or_apiVersion o = GroupVersion) && bool_decide (or_kind o = "EgressGateway") &&
              bool_decide (or_name o = gw_name g) && bool_decide (or_uid o = gw_uid g)
  | None => false
  end.
(** [SetControllerReference]; the scheme may not know the gateway's kind. *)
Definition gateway_reference (g : EgressGateway) : OwnerReference :=
  {| or_apiVersion := GroupVersion; or_kind := "EgressGateway"; or_name := gw_name g; or_uid := gw_uid g |}.
Definition profileEngine (e : gateway_engine) : string :=
  match e with
  | GatewayMihomo => Engine_String EngineMihomo
  | GatewaySingBox => Engine_String EngineSingBox
  | GatewayOther => "unknown"
  end.
Definition managedLabels (g : EgressGateway) (component : string) : Labels :=
  GoMap [(ManagedByLabel, "egressfox"); (ComponentLabel, component); (GatewayUIDLabel, gw_uid g); (EngineLabel, profileEngine (gw_engine (gw_spec g)))].
Definition runtimeSelector (g : EgressGateway) : Labels :=
  GoMap [("app.kubernetes.io/name", "egressfox-gateway"); (GatewayUIDLabel, gw_uid g)].
Definition generation_selector (g : EgressGateway) : Labels :=
  GoMap [(ManagedByLabel, "egressfox"); (ComponentLabel, componentGeneration); (GatewayUIDLabel, gw_uid g)].

(** [strings.Trim] and [strings.TrimRight] with the cutset ["-."]. *)
Fixpoint trim_left_chars (l : list ascii) : list ascii :=
  match l with c :: l' => if char_elem c "-." then trim_left_chars l' else l | [] => [] end.
Definition trim_left (s : string) : string := of_chars (trim_left_chars (chars s)).
Definition trim_right (s : string) : string := of_chars (reverse (trim_left_chars (reverse (chars s)))).
Definition resource_base (name : string) : string :=
  let base := replace_byte "." "-" (trim_right (trim_left (to_lower name))) in
  let base := if 36 <? slen base then trim_right (take_first 36 base) else base in
  if bool_decide (base = "") then "gateway" else base.
Definition NUL : string := String (byte_of 0) "".

Section runtime.
Context `{Digest, ReceiptCodec}.

Definition managedResourceName (g : EgressGateway) (suffix : string) : string :=
  resource_base (gw_name g) +:+ "-" +:+ hex_bytes (take_first 4 (sha256 (gw_namespace g +:+ NUL +:+ gw_name g +:+ NUL +:+ gw_uid g))) +:+
  "-" +:+ suffix.

(** [ManagedRuntime]; [mr_scheme] says whether the scheme knows gateways. *)
Record ManagedRuntime := { mr_scheme : bool; mr_image : string }.
(** The client and the scheme may be missing. *)
Definition NewManagedRuntime (client : bool) (scheme : option bool) (image : string) : result runtime_error ManagedRuntime :=
  match scheme with
  | Some known => if client then Ok {| mr_scheme := known; mr_image := trim_space image |} else Err (ManagedRuntimeError "configuration")
  | None => Err (ManagedRuntimeError "configuration")
  end.
Definition controlled {A} (scheme : bool) (k : K A) : K A := if scheme then k else managedRuntimeFailure "owner".

(** ** Client authentication *)

Definition datum (s : Secret) (key : string) : string := default "" (s_data s !! key).
Definition credentials_ok (username password : string) : bool := is_ok (NewManagedSOCKSListener ManagedSOCKSPort username password).
Definition immutable (s : Secret) : bool := bool_decide (s_immutable s = Some true).
(** The loop of [recoverAuthentication] over the two recorded generations. *)
Fixpoint recover_from (g : EgressGateway) (names : list string) : K (option (string * string)) :=
  match names with
  | [] => mret None
  | name :: rest =>
      if bool_decide (name = "") then recover_from g rest else
      a ← get_secret name;
      match a with
      | Found s =>
          if ownedByGateway (s_controller s) g && bool_decide (s_type s = EngineSecretType) &&
             credentials_ok (datum s ClientUsernameDataKey) (datum s ClientPasswordDataKey)
          then mret (Some (datum s ClientUsernameDataKey, datum s ClientPasswordDataKey))
          else recover_from g rest
      | _ => recover_from g rest
      end
  end.
Definition recoverAuthentication (g : EgressGateway) : K (option (string * string)) :=
  recover_from g [ActiveGeneration (gw_status g); PublishedGeneration (gw_status g)].
Definition auth_secret (g : EgressGateway) (username password : string) : Secret :=
  {| s_name := managedResourceName g "client-auth"; s_uid := ""; s_resourceVersion := ""; s_created := 0;
     s_controller := Some (gateway_reference g); s_labels := managedLabels g componentAuthentication; s_type := BasicAuthSecretType;
     s_immutable := Some true; s_data := GoMap [("username", username); ("password", password)] |}.
Definition fresh_credentials : K (string * string) :=
  bytes ← read_random 32;
  match bytes with
  | None => managedRuntimeFailure "authentication_random"
  | Some bytes => mret (ManagedUsername, base64_encode RawURLEncoding bytes)
  end.
Definition ensureAuthentication (r : ManagedRuntime) (g : EgressGateway) : K Secret :=
  a ← get_secret (managedResourceName g "client-auth");
  match a with
  | Found s =>
      _ ← check (negb (ownedByGateway (s_controller s) g) || bool_decide (s_type s ≠ BasicAuthSecretType) || negb (immutable s) ||
                 bool_decide (length (entries (s_data s)) ≠ 2%nat)) "authentication_conflict";
      _ ← check (negb (credentials_ok (datum s "username") (datum s "password"))) "authentication_invalid";
      mret s
  | ReadFailed => managedRuntimeFailure "authentication_read"
  | NotFound =>
      recovered ← recoverAuthentication g;
      '(username, password) ← match recovered with Some c => mret c | None => fresh_credentials end;
      controlled (mr_scheme r) (
        c ← create_secret (auth_secret g username password);
        match c with
        | Created s => mret s
        | AlreadyExists => managedRuntimeFailure "authentication_conflict"
        | CreateFailed => managedRuntimeFailure "authentication_create"
        end)
  end.
Definition Prepare (r : ManagedRuntime) (g : EgressGateway) : K (Listener * NamespacedName * ResourceRevision) :=
  _ ← check (negb (IsManaged g)) "mode";
  s ← ensureAuthentication r g;
  match NewManagedSOCKSListener ManagedSOCKSPort (datum s "username") (datum s "password") with
  | Err _ => managedRuntimeFailure "authentication"
  | Ok l => mret (l, {| nn_namespace := gw_namespace g; nn_name := s_name s |},
                  {| rr_uid := s_uid s; rr_resourceVersion := s_resourceVersion s |})
  end.

(** ** Generations *)

Record GenerationPublisher := { gp_owner : EgressGateway; gp_scheme : bool; gp_guard : option (kcluster → bool) }.
Definition Publisher_ (r : ManagedRuntime) (g : EgressGateway) (guard : option (kcluster → bool)) : option GenerationPublisher :=
  if negb (IsManaged g) || bool_decide (¬ is_Some guard) then None
  else Some {| gp_owner := g; gp_scheme := mr_scheme r; gp_guard := guard |}.

Definition newer_cmp : Secret → Secret → comparison := cmp_lex (cmp_on s_created Z.compare) (cmp_on s_name bytes_compare).
Definition generation_owned (g : EgressGateway) (s : Secret) : bool :=
  ownedByGateway (s_controller s) g && bool_decide (s_type s = EngineSecretType) && immutable s.
Definition generations (g : EgressGateway) : K (list Secret) :=
  l ← list_secrets (generation_selector g);
  match l with
  | None => managedRuntimeFailure "generation_list"
  | Some l => if forallb (generation_owned g) l then mret (go_sort newer_cmp l) else managedRuntimeFailure "generation_ownership"
  end.
Fixpoint generation_receipt (s : Secret) (keys : list string) : option string :=
  match keys with
  | [] => None
  | key :: rest =>
      match MatchesProtectedReceipt (datum s key) (datum s ReceiptDataKey) with
      | Some _ => RestoreReceipt (datum s ReceiptDataKey)
      | None => generation_receipt s rest
      end
  end.
Definition generationReceipt (s : Secret) : option string := generation_receipt s ["config.yaml"; "config.json"].
Definition set_current (n : string) : K () := λ k, (Ok (), with_current n k).
(** The generation [CurrentReceipt] reads: the requested one, else the newest. *)
Definition current_of (requested : string) (l : list Secret) : option Secret :=
  match List.find (λ s, bool_decide (s_name s = requested)) (if bool_decide (requested = "") then [] else l) with
  | Some s => Some s
  | None => last l
  end.
Definition requested_name (p : GenerationPublisher) (k : kcluster) : string :=
  if bool_decide (currentName k = "") then PublishedGeneration (gw_status (gp_owner p)) else currentName k.
Definition CurrentReceipt (p : GenerationPublisher) : K (option string) := λ k,
  (l ← generations (gp_owner p);
   match current_of (requested_name p k) l with
   | None => mret None
   | Some s =>
       match generationReceipt s with
       | None => managedRuntimeFailure "generation_receipt"
       | Some receipt => _ ← set_current (s_name s); mret (Some receipt)
       end
   end) k.

Definition same_generation (configKey content receipt username password : string) (s : Secret) : bool :=
  bool_decide (datum s configKey = content) && bool_decide (datum s ReceiptDataKey = receipt) &&
  bool_decide (datum s ClientUsernameDataKey = username) && bool_decide (datum s ClientPasswordDataKey = password) &&
  bool_decide (length (entries (s_data s)) = 4%nat).
Definition generation_secret (g : EgressGateway) (p : Profile) (token configKey content receipt username password : string) : Secret :=
  {| s_name := managedResourceName g "gen" +:+ "-" +:+ token; s_uid := ""; s_resourceVersion := ""; s_created := 0;
     s_controller := Some (gateway_reference g);
     s_labels := <[EngineLabel := Engine_String (engine p)]> (managedLabels g componentGeneration); s_type := EngineSecretType;
     s_immutable := Some true;
     s_data := GoMap [(configKey, content); (ReceiptDataKey, receipt); (ClientUsernameDataKey, username); (ClientPasswordDataKey, password)] |}.
Definition create_generation (p : GenerationPublisher) (prof : Profile) (configKey content receipt username password : string) : K bool :=
  bytes ← read_random 10;
  match bytes with
  | None => managedRuntimeFailure "generation_random"
  | Some bytes =>
      let s := generation_secret (gp_owner p) prof (to_lower (base32_encode bytes)) configKey content receipt username password in
      controlled (gp_scheme p) (
        c ← create_secret s;
        match c with
        | Created s => _ ← set_current (s_name s); mret true
        | AlreadyExists => managedRuntimeFailure "generation_collision"
        | CreateFailed => managedRuntimeFailure "generation_create"
        end)
  end.
(** [Publish]: whether a generation was created. *)
Definition Publish (p : GenerationPublisher) (a : Validated) : K bool := λ k,
  let g := gp_owner p in
  match gp_guard p with
  | None => managedRuntimeFailure "configuration" k
  | Some check =>
      if negb (check k) then secretPublicationFailure "snapshot_obsolete" k else
      match ProtectedReceipt a with
      | None => secretPublicationFailure "artifact" k
      | Some receipt =>
          match configDataKey (profile (candidate a)) with
          | None => secretPublicationFailure "profile" k
          | Some configKey =>
              if bool_decide (Engine_String (engine (profile (candidate a))) ≠ profileEngine (gw_engine (gw_spec g)))
              then secretPublicationFailure "profile" k else
              (auth ← get_secret (managedResourceName g "client-auth");
               match auth with
               | Found s =>
                   if negb (ownedByGateway (s_controller s) g) || bool_decide (s_type s ≠ BasicAuthSecretType)
                   then managedRuntimeFailure "authentication_read" else
                   let username := datum s "username" in
                   let password := datum s "password" in
                   let bytes := content (candidate a) in
                   if MaxSecretDataBytes <? slen bytes + slen receipt + slen username + slen password
                   then secretPublicationFailure "payload_too_large" else
                   l ← generations g;
                   match List.find (same_generation configKey bytes receipt username password) l with
                   | Some s => _ ← set_current (s_name s); mret false
                   | None => create_generation p (profile (candidate a)) configKey bytes receipt username password
                   end
               | _ => managedRuntimeFailure "authentication_read"
               end) k
          end
      end
  end.

Definition CurrentGenerationReceipt (g : EgressGateway) : K (option string) :=
  let name := PublishedGeneration (gw_status g) in
  if bool_decide (name = "") then mret None else
  l ← generations g;
  match List.find (λ s, bool_decide (s_name s = name)) l with
  | None => mret None
  | Some s => match generationReceipt s with Some receipt => mret (Some receipt) | None => managedRuntimeFailure "generation_receipt" end
  end.

(** ** The workload *)

Definition read_deployment : K (answer Deployment) := read k_deployment.
Definition annotated (d : Deployment) : string := default "" (pt_annotations (dp_template (d_spec d)) !! GenerationAnnotation).
Definition TargetGeneration (g : EgressGateway) : K string :=
  a ← read_deployment;
  mret (match a with
        | Found d => if ownedByGateway (om_controller (d_meta d)) g && negb (bool_decide (annotated d = "")) then annotated d
                     else PublishedGeneration (gw_status g)
        | _ => PublishedGeneration (gw_status g)
        end).

Definition desired_meta (g : EgressGateway) : ObjectMeta :=
  {| om_labels := managedLabels g componentRuntime; om_controller := Some (gateway_reference g) |}.
Definition engine_command (e : gateway_engine) : string * list string * list string :=
  match e with
  | GatewayMihomo => ("config.yaml", ["/usr/local/libexec/egressfox/mihomo"],
                      ["-f"; managedConfigMountPath +:+ "/config.yaml"; "-d"; "/var/lib/engine"])
  | _ => ("config.json", ["/usr/local/libexec/egressfox/egressfox-engine-s"],
          ["run"; "-c"; managedConfigMountPath +:+ "/config.json"; "-D"; "/var/lib/engine"])
  end.
Definition engine_container (g : EgressGateway) (image : string) : Container :=
  let '(_, command, args) := engine_command (gw_engine (gw_spec g)) in
  {| ct_name := "engine"; ct_image := image; ct_pullPolicy := "IfNotPresent"; ct_command := command; ct_args := args;
     ct_port := ("socks", ManagedSOCKSPort, "TCP");
     ct_readiness := ["/usr/local/bin/egressfox-healthcheck"; "--address"; "127.0.0.1:1080";
                      "--username-file"; managedAuthenticationMountPath +:+ "/username";
                      "--password-file"; managedAuthenticationMountPath +:+ "/password"];
     ct_initialDelay := 1; ct_period := 2; ct_timeout := 2; ct_failures := 5; ct_successes := 1;
     ct_requests := [("cpu", "50m"); ("memory", "64Mi")]; ct_limits := [("cpu", "1"); ("memory", "512Mi")];
     ct_allowPrivilegeEscalation := false; ct_readOnlyRootFilesystem := true; ct_runAsNonRoot := true; ct_runAsUser := 65532; ct_runAsGroup := 65532;
     ct_drop := ["ALL"];
     ct_mounts := [("configuration", managedConfigMountPath, true); ("authentication", managedAuthenticationMountPath, true);
                   ("state", "/var/lib/engine", false); ("temporary", "/tmp", false)] |}.
Definition pod_volumes_of (g : EgressGateway) (generation : string) : list Volume :=
  let '(configKey, _, _) := engine_command (gw_engine (gw_spec g)) in
  [{| v_name := "configuration"; v_secret := Some (generation, [(configKey, configKey)]); v_sizeLimit := None |};
   {| v_name := "authentication"; v_secret := Some (managedResourceName g "client-auth", [("username", "username"); ("password", "password")]);
      v_sizeLimit := None |};
   {| v_name := "state"; v_secret := None; v_sizeLimit := Some "256Mi" |};
   {| v_name := "temporary"; v_secret := None; v_sizeLimit := Some "16Mi" |}].
(** The spec of [desiredDeployment].  Fields that the server fills with
    defaults are not part of a spec here: an update that changes only those
    changes nothing. *)
Definition desiredDeployment (g : EgressGateway) (image generation : string) : DeploymentSpec :=
  {| dp_replicas := 1; dp_history := 2; dp_progressDeadline := 120; dp_minReady := 2; dp_strategy := "RollingUpdate"; dp_maxUnavailable := 0; dp_maxSurge := 1;
     dp_selector := runtimeSelector g;
     dp_template :=
       {| pt_labels := <[ManagedByLabel := "egressfox"]> (runtimeSelector g); pt_annotations := GoMap [(GenerationAnnotation, generation)];
          pt_automountToken := false; pt_termination := 30; pt_runAsNonRoot := true; pt_runAsUser := 65532; pt_runAsGroup := 65532; pt_fsGroup := 65532;
          pt_seccomp := "RuntimeDefault"; pt_containers := [engine_container g image]; pt_volumes := pod_volumes_of g generation |} |}.
Definition no_status : DeploymentStatus :=
  {| ds_observedGeneration := 0; UpdatedReplicas := 0; ds_replicas := 0; ReadyReplicas := 0; AvailableReplicas := 0; UnavailableReplicas := 0;
     ds_conditions := [] |}.
(** The server's side of an update: the generation counts changes of the
    spec, the status is kept. *)
Definition update_deployment (m : ObjectMeta) (spec : DeploymentSpec) (d : Deployment) : Deployment :=
  {| d_meta := m; d_generation := if bool_decide (spec = d_spec d) then d_generation d else d_generation d + 1; d_spec := spec; d_status := d_status d |}.
Definition ensureDeployment (r : ManagedRuntime) (g : EgressGateway) (generation : string) : K Deployment :=
  a ← read_deployment;
  let spec := desiredDeployment g (mr_image r) generation in
  match a with
  | ReadFailed => managedRuntimeFailure "deployment_read"
  | NotFound =>
      controlled (mr_scheme r) (
        let d := {| d_meta := desired_meta g; d_generation := 1; d_spec := spec; d_status := no_status |} in
        ok ← write (with_deployment (Some d));
        if ok : bool then mret d else managedRuntimeFailure "deployment_create")
  | Found d =>
      if negb (ownedByGateway (om_controller (d_meta d)) g) then managedRuntimeFailure "deployment_conflict" else
      controlled (mr_scheme r) (
        if bool_decide (d_spec d = spec) && bool_decide (d_meta d = desired_meta g) then mret d else
        let d' := update_deployment (desired_meta g) spec d in
        ok ← write (with_deployment (Some d'));
        if ok : bool then mret d' else managedRuntimeFailure "deployment_update")
  end.

Definition desired_service (g : EgressGateway) (other : string) : ServiceSpec :=
  {| sv_type := "ClusterIP"; sv_selector := runtimeSelector g; sv_ports := [("socks", "TCP", ManagedSOCKSPort, "socks")]; sv_other := other |}.
Definition ensureService (r : ManagedRuntime) (g : EgressGateway) : K () :=
  a ← read k_service;
  match a with
  | ReadFailed => managedRuntimeFailure "service_read"
  | NotFound =>
      controlled (mr_scheme r) (
        ok ← write (with_service (Some {| sv_meta := desired_meta g; sv_spec := desired_service g "" |}));
        check (negb ok) "service_create")
  | Found s =>
      if negb (ownedByGateway (om_controller (sv_meta s)) g) then managedRuntimeFailure "service_conflict" else
      controlled (mr_scheme r) (
        if bool_decide (sv_spec s = desired_service g (sv_other (sv_spec s))) && bool_decide (sv_meta s = desired_meta g) then mret () else
        ok ← write (with_service (Some {| sv_meta := desired_meta g; sv_spec := desired_service g (sv_other (sv_spec s)) |}));
        check (negb ok) "service_update")
  end.

Definition desired_policy (g : EgressGateway) : NetworkPolicySpec :=
  {| np_podSelector := runtimeSelector g; np_types := ["Ingress"]; np_from := [GoMap [("kubernetes.io/metadata.name", gw_namespace g)]];
     np_ports := [("TCP", ManagedSOCKSPort)] |}.
Definition ensureNetworkPolicy (r : ManagedRuntime) (g : EgressGateway) : K () :=
  a ← read k_policy;
  let desired := {| np_meta := desired_meta g; np_spec := desired_policy g |} in
  match a with
  | ReadFailed => managedRuntimeFailure "networkpolicy_read"
  | NotFound => controlled (mr_scheme r) (ok ← write (with_policy (Some desired)); check (negb ok) "networkpolicy_create")
  | Found p =>
      if negb (ownedByGateway (om_controller (np_meta p)) g) then managedRuntimeFailure "networkpolicy_conflict" else
      controlled (mr_scheme r) (
        if bool_decide (np_spec p = np_spec desired) && bool_decide (np_meta p = desired_meta g) then mret () else
        ok ← write (with_policy (Some desired)); check (negb ok) "networkpolicy_update")
  end.

Definition deploymentComplete (d : Deployment) (generation : string) : bool :=
  bool_decide (annotated d = generation) && (d_generation d <=? ds_observedGeneration (d_status d)) && (UpdatedReplicas (d_status d) =? 1) &&
  (ds_replicas (d_status d) =? 1) && (ReadyReplicas (d_status d) =? 1) && (AvailableReplicas (d_status d) =? 1) &&
  (UnavailableReplicas (d_status d) =? 0).
Definition deploymentTimedOut (d : Deployment) : bool :=
  bool_decide (("Progressing", "False", "ProgressDeadlineExceeded") ∈ ds_conditions (d_status d)).

(** ** Removal *)

(** [deleteOwned] of a Secret and of the objects of the gateway's names. *)
Definition delete_owned {A} (g : EgressGateway) (f : kcluster → option A) (controller : A → option OwnerReference) (del : kcluster → kcluster) : K () :=
  a ← read f;
  match a with
  | NotFound => mret ()
  | ReadFailed => managedRuntimeFailure "owned_read"
  | Found x =>
      if negb (ownedByGateway (controller x) g) then managedRuntimeFailure "owned_conflict" else
      ok ← write del; check (negb ok) "owned_delete"
  end.
Definition deleteOwned (g : EgressGateway) (name : string) : K () := delete_owned g (find_secret name) s_controller (remove_secret name).
Fixpoint delete_each (g : EgressGateway) (keep : list string) (l : list Secret) : K () :=
  match l with
  | [] => mret ()
  | s :: rest => _ ← (if bool_decide (s_name s ∈ keep) then mret () else deleteOwned g (s_name s)); delete_each g keep rest
  end.
Definition live_pod (p : Pod) : bool := negb (bool_decide (pod_phase p = "Succeeded") || bool_decide (pod_phase p = "Failed")).
Definition mounted (l : list Pod) : list string :=
  p ← List.filter live_pod l; v ← pod_volumes p; match v_secret v with Some (name, _) => [name] | None => [] end.
Definition newest_two (l : list Secret) : list string := s_name <$> drop (length l - 2) (go_sort newer_cmp l).
Definition cleanupGenerations (g : EgressGateway) (active previous : string) : K () :=
  pods ← list_pods (runtimeSelector g);
  match pods with
  | None => managedRuntimeFailure "pod_list"
  | Some pods =>
      l ← list_secrets (generation_selector g);
      match l with
      | None => managedRuntimeFailure "generation_list"
      | Some l =>
          let keep := active :: (if bool_decide (previous = "") then [] else [previous]) ++ mounted pods ++ newest_two l in
          delete_each g keep (go_sort newer_cmp l)
      end
  end.
Fixpoint remove_legacy (g : EgressGateway) (l : list Secret) : K () :=
  match l with
  | [] => mret ()
  | s :: rest =>
      if bool_decide (s_type s ≠ EngineSecretType) || bool_decide (s_labels s !! ComponentLabel = Some componentGeneration) ||
         negb (ownedByGateway (s_controller s) g)
      then remove_legacy g rest
      else ok ← write (remove_secret (s_name s)); _ ← check (negb ok) "legacy_delete"; remove_legacy g rest
  end.
Definition removeLegacyOutput (g : EgressGateway) : K () :=
  l ← list_secrets (GoMap [(ManagedByLabel, "egressfox")]);
  match l with None => managedRuntimeFailure "legacy_list" | Some l => remove_legacy g l end.

(** ** Reconciliation *)

Record RuntimeOutcome := {
  ro_published : string; ro_active : string; ro_service : string; ro_auth : string; Activated : bool; RuntimeReady : bool; ro_degraded : bool;
  ro_reason : string;
}.
Definition initial_outcome (g : EgressGateway) (generation : string) : RuntimeOutcome :=
  {| ro_published := generation; ro_active := ActiveGeneration (gw_status g); ro_service := managedResourceName g "proxy";
     ro_auth := managedResourceName g "client-auth"; Activated := false; RuntimeReady := false; ro_degraded := false; ro_reason := "" |}.
Definition with_outcome (active : string) (activated ready degraded : bool) (reason : string) (o : RuntimeOutcome) : RuntimeOutcome :=
  {| ro_published := ro_published o; ro_active := active; ro_service := ro_service o; ro_auth := ro_auth o; Activated := activated;
     RuntimeReady := ready; ro_degraded := degraded; ro_reason := reason |}.
(** An outcome is returned beside an error, so the error is a value here. *)
Definition attempt {A} (m : K A) : K (result runtime_error A) := λ k, let '(r, k) := m k in (Ok r, k).
Definition observed (g : EgressGateway) (generation : string) (d : Deployment) : RuntimeOutcome :=
  let o := initial_outcome g generation in
  let ready := (0 <? AvailableReplicas (d_status d)) && (0 <? ReadyReplicas (d_status d)) in
  if deploymentComplete d generation then with_outcome generation true true false "ExactGenerationReady" o
  else if deploymentTimedOut d then with_outcome (ro_active o) false ready true "ProgressDeadlineExceeded" o
  else with_outcome (ro_active o) false ready false (if ready then "PreviousGenerationReady" else "ActivationPending") o.
Definition ensure_all (r : ManagedRuntime) (g : EgressGateway) (generation : string) : K Deployment :=
  _ ← ensureService r g; _ ← ensureNetworkPolicy r g; ensureDeployment r g generation.
Definition remove_unused (g : EgressGateway) (generation : string) : K () :=
  _ ← cleanupGenerations g generation (ActiveGeneration (gw_status g)); removeLegacyOutput g.
Definition Reconcile (r : ManagedRuntime) (g : EgressGateway) (generation : string) : K (RuntimeOutcome * option runtime_error) :=
  let o := initial_outcome g generation in
  let fails e := mret (o, Some e) in
  if negb (IsManaged g) then fails (ManagedRuntimeError "mode") else
  if bool_decide (generation = "") then mret (with_outcome (ro_active o) false false false "GenerationUnavailable" o, None) else
  if bool_decide (mr_image r = "") then fails (ManagedRuntimeError "image_unconfigured") else
  deployed ← attempt (ensure_all r g generation);
  match deployed with
  | Err e => fails e
  | Ok d =>
      let o := observed g generation d in
      if Activated o then
        removed ← attempt (remove_unused g generation);
        mret (o, match removed with Ok _ => None | Err e => Some e end)
      else mret (o, None)
  end.

Definition Cleanup (g : EgressGateway) : K () :=
  _ ← delete_owned g k_deployment (om_controller ∘ d_meta) (with_deployment None);
  _ ← delete_owned g k_service (om_controller ∘ sv_meta) (with_service None);
  _ ← delete_owned g k_policy (om_controller ∘ np_meta) (with_policy None);
  _ ← deleteOwned g (managedResourceName g "client-auth");
  l ← list_secrets (generation_selector g);
  match l with None => managedRuntimeFailure "generation_list" | Some l => delete_each g [] l end.
End runtime.
