(* ===== verification/ManagedFacts.v ===== *)
(** * What the managed runtime does to the cluster

    Theorems about Managed.v: only objects of the gateway are changed, an
    activated generation is the one that runs and nothing in use is removed,
    credentials are stable, and the generation publisher keeps the
    [Publisher] contract. *)
From S2P Require Import Prelude Order Bytes Encoding Netip Endpoint Text Artifact SnapshotGuard Engine SecretPublisher Contracts Profiles Managed.
From Stdlib Require Import Ascii.
From Stdlib Require String.
Open Scope Z_scope.

(** ** Requests *)

Lemma K_bind_eq {A B} (m : K A) (f : A → K B) k : (m ≫= f) k = match m k with (Ok a, k') => f a k' | (Err e, k') => (Err e, k') end.
Proof. done. Qed.
Lemma K_bind_Ok {A B} (m : K A) (f : A → K B) k b k' : (m ≫= f) k = (Ok b, k') ↔ ∃ a k1, m k = (Ok a, k1) ∧ f a k1 = (Ok b, k').
Proof. rewrite K_bind_eq. destruct (m k) as [[a|e] k1]; split; [by exists a, k1| |done|]; intros (?&?&[= <- <-]&?); done. Qed.
Lemma check_Ok bad code k u k' : check bad code k = (Ok u, k') → bad = false ∧ k' = k.
Proof. unfold check. destruct bad; [done|]. by intros [= _ <-]. Qed.
Lemma controlled_Ok {A} b (m : K A) k a k' : controlled b m k = (Ok a, k') → b = true ∧ m k = (Ok a, k').
Proof. by destruct b. Qed.

(** The objects of the server. *)
Definition objects (k : kcluster) := (k_secrets k, k_deployment k, k_service k, k_policy k, k_pods k).
Lemma next_event_objects k e k' : next_event k = (e, k') →
  objects k' = objects k ∧ k_stamp k' = k_stamp k ∧ k_random k' = k_random k ∧ currentName k' = currentName k.
Proof. unfold next_event. by destruct (k_answers k); intros [= <- <-]. Qed.
Lemma read_spec {A} (f : kcluster → option A) k a k' : (∀ k k', objects k = objects k' → f k = f k') → read f k = (a, k') →
  objects k' = objects k ∧ k_stamp k' = k_stamp k ∧ k_random k' = k_random k ∧ currentName k' = currentName k ∧
  ∃ x, a = Ok x ∧ (x = ReadFailed ∨ x = match f k with Some a => Found a | None => NotFound end).
Proof.
  intros Hf. unfold read. destruct (next_event k) as [e k1] eqn:E. destruct (next_event_objects k e k1 E) as (E1&E2&E3&E4).
  destruct e; intros [= <- <-]; split_and!; try done; eexists; (split; [reflexivity|]); [right; by rewrite (Hf k1 k)|by left|by left].
Qed.
Lemma write_spec f k b k' : write f k = (b, k') → ∃ k1 ok, b = Ok ok ∧ objects k1 = objects k ∧ k_stamp k1 = k_stamp k ∧ k_random k1 = k_random k ∧
  currentName k1 = currentName k ∧ (k' = f k1 ∨ ok = false ∧ k' = k1).
Proof.
  unfold write. destruct (next_event k) as [e k1] eqn:E. destruct (next_event_objects k e k1 E) as (E1&E2&E3&E4).
  destruct e; intros [= <- <-]; exists k1; eexists; (split; [reflexivity|]); split_and!; auto.
Qed.
Lemma write_Ok f k k' : write f k = (Ok true, k') → ∃ k1, k' = f k1 ∧ objects k1 = objects k ∧ k_stamp k1 = k_stamp k ∧ currentName k1 = currentName k.
Proof. intros (k1&ok&[= <-]&?&?&?&?&[->|[[=] _]])%write_spec. by exists k1. Qed.

(** ** Two-state assertions *)

(** A relation of states before and after that a request which changes no
    object satisfies. *)
Class Framed (R : kcluster → kcluster → Prop) := {
  #[global] framed_preorder :: PreOrder R;
  framed_same k k' : objects k' = objects k → R k k';
}.
(** Every execution of [m] is related by [R]. *)
Definition always {A} (R : kcluster → kcluster → Prop) (m : K A) : Prop := ∀ k, R k (m k).2.
Section always.
Context {R : kcluster → kcluster → Prop} `{!Framed R}.
Lemma always_ret {A} (a : A) : always R (mret a).
Proof. intros k. reflexivity. Qed.
Lemma always_fail {A} c : always R (managedRuntimeFailure (A:=A) c).
Proof. intros k. reflexivity. Qed.
Lemma always_fail' {A} c : always R (secretPublicationFailure (A:=A) c).
Proof. intros k. reflexivity. Qed.
Lemma always_bind {A B} (m : K A) (f : A → K B) : always R m → (∀ a, always R (f a)) → always R (m ≫= f).
Proof.
  intros Hm Hf k. rewrite K_bind_eq. specialize (Hm k). destruct (m k) as [[a|e] k1]; [|done]. etrans; [exact Hm|apply Hf].
Qed.
(** The continuation may use what the first part found. *)
Lemma always_bind_when {A B} (m : K A) (f : A → K B) k : R k (m k).2 → (∀ a k1, m k = (Ok a, k1) → R k1 (f a k1).2) → R k ((m ≫= f) k).2.
Proof.
  intros Hm Hf. rewrite K_bind_eq. destruct (m k) as [[a|e] k1]; [|done]. etrans; [exact Hm|by apply Hf].
Qed.
Lemma always_check b c : always R (check b c).
Proof. destruct b; [apply always_fail|apply always_ret]. Qed.
Lemma always_controlled {A} b (m : K A) : always R m → always R (controlled b m).
Proof. destruct b; [done|]. intros _. apply always_fail. Qed.
Lemma always_attempt {A} (m : K A) : always R m → always R (attempt m).
Proof. intros Hm k. specialize (Hm k). unfold attempt. by destruct (m k). Qed.
Lemma read_always {A} (f : kcluster → option A) : always R (read f).
Proof.
  intros k. unfold read. destruct (next_event k) as [e k1] eqn:E. apply next_event_objects in E as (E&_). by destruct e; apply framed_same.
Qed.
Lemma get_always n : always R (get_secret n).
Proof. apply read_always. Qed.
Lemma random_always n : always R (read_random n).
Proof. intros k. unfold read_random. destruct (k_random k) as [|[]]; by apply framed_same. Qed.
Lemma current_always n : always R (set_current n).
Proof. intros k. by apply framed_same. Qed.
Lemma list_secrets_always l : always R (list_secrets l).
Proof.
  intros k. unfold list_secrets. pose proof (read_always (λ k, Some (List.filter (λ s, matches l (s_labels s)) (k_secrets k))) k) as H.
  destruct (read _ k) as [[[]|] k1]; done.
Qed.
Lemma list_pods_always l : always R (list_pods l).
Proof.
  intros k. unfold list_pods. pose proof (read_always (λ k, Some (List.filter (λ s, matches l (pod_labels s)) (k_pods k))) k) as H.
  destruct (read _ k) as [[[]|] k1]; done.
Qed.
(** A write whose effect is allowed where it happens. *)
Lemma write_related f k : (∀ k1, objects k1 = objects k → R k1 (f k1)) → R k (write f k).2.
Proof.
  intros Hf. destruct (write f k) as [b k'] eqn:E. apply write_spec in E as (k1&ok&_&E1&_&_&_&[->|[_ ->]]); cbn.
  - etrans; [apply (framed_same k k1 E1)|by apply Hf].
  - by apply framed_same.
Qed.
End always.
Create HintDb managed.
#[export] Hint Resolve always_ret always_fail always_fail' always_check always_controlled always_attempt read_always get_always random_always
  current_always list_secrets_always list_pods_always : managed.
Ltac managed := repeat (first [solve [auto with managed typeclass_instances]|apply always_bind; [|intros]|apply always_controlled|case_match]).

(** ** Ownership *)

Definition names (k : kcluster) : list string := s_name <$> k_secrets k.
Definition own (g : EgressGateway) (c : option OwnerReference) : Prop := ownedByGateway c g = true.
(** An object of one of the gateway's names: absent, or the gateway's own. *)
Definition own_or_absent {A} (g : EgressGateway) (c : A → option OwnerReference) (x : option A) : Prop :=
  match x with Some a => own g (c a) | None => True end.
Definition only_own {A} (g : EgressGateway) (c : A → option OwnerReference) (x y : option A) : Prop :=
  y = x ∨ own_or_absent g c x ∧ own_or_absent g c y.
(** Secrets that are not the gateway's stay as they are, and so do the
    Deployment, Service and NetworkPolicy when they are not. *)
Record respects (g : EgressGateway) (k k' : kcluster) : Prop := {
  rs_names : NoDup (names k) → NoDup (names k');
  rs_kept : NoDup (names k) → ∀ s, s ∈ k_secrets k → ¬ own g (s_controller s) → s ∈ k_secrets k';
  rs_new : ∀ s, s ∈ k_secrets k' → s ∈ k_secrets k ∨ own g (s_controller s);
  rs_deployment : only_own g (om_controller ∘ d_meta) (k_deployment k) (k_deployment k');
  rs_service : only_own g (om_controller ∘ sv_meta) (k_service k) (k_service k');
  rs_policy : only_own g (om_controller ∘ np_meta) (k_policy k) (k_policy k');
  rs_pods : k_pods k' = k_pods k;
}.
Lemma only_own_refl {A} g c (x : option A) : only_own g c x x.
Proof. by left. Qed.
Lemma only_own_trans {A} g c (x y z : option A) : only_own g c x y → only_own g c y z → only_own g c x z.
Proof. intros [-> |[? ?]] [-> |[? ?]]; [by left|by right|by right|by right]. Qed.
#[export] Instance respects_preorder g : PreOrder (respects g).
Proof.
  split.
  - intros k. split; auto using only_own_refl.
  - intros k1 k2 k3 [A1 A2 A3 A4 A5 A6 A7] [B1 B2 B3 B4 B5 B6 B7]. split; eauto using only_own_trans.
    + intros s [Hs|Hs]%B3; [by apply A3|by right].
    + congruence.
Qed.
(** Requests that change no object. *)
Lemma respects_same g k k' : objects k' = objects k → respects g k k'.
Proof. unfold objects. intros [= E1 E2 E3 E4 E5]. split; unfold names; rewrite ?E1, ?E2, ?E3, ?E4, ?E5; auto using only_own_refl. Qed.
Lemma respects_objects g k k1 k' : objects k1 = objects k → respects g k1 k' → respects g k k'.
Proof. intros E. by etrans; [apply respects_same|]. Qed.

#[export] Instance respects_framed g : Framed (respects g).
Proof. split; [apply respects_preorder|apply respects_same]. Qed.

Lemma gateway_reference_own g : own g (Some (gateway_reference g)).
Proof. unfold own, ownedByGateway. cbn. by rewrite !bool_decide_true. Qed.
#[export] Hint Resolve gateway_reference_own : managed.
Lemma find_secret_Some n k s : find_secret n k = Some s → s ∈ k_secrets k ∧ s_name s = n.
Proof. unfold find_secret. intros [Hin Hn]%List.find_some. bool_to_prop. split; [by apply list_elem_of_In|done]. Qed.
Lemma find_secret_None n k : find_secret n k = None → n ∉ names k.
Proof.
  unfold find_secret, names. intros H (s&->&Hs%list_elem_of_In)%list_elem_of_fmap. apply (List.find_none _ _ H), bool_decide_eq_false_1 in Hs. done.
Qed.
Lemma find_secret_objects n k k' : objects k = objects k' → find_secret n k = find_secret n k'.
Proof. unfold objects, find_secret. by intros [= -> _ _ _ _]. Qed.
Lemma same_name k s s' : NoDup (names k) → s ∈ k_secrets k → s' ∈ k_secrets k → s_name s = s_name s' → s = s'.
Proof.
  intros Hn [i Hi]%list_elem_of_lookup [j Hj]%list_elem_of_lookup E. assert (i = j) as <-; [|congruence].
  apply (NoDup_lookup (names k) i j (s_name s) Hn); unfold names; rewrite list_lookup_fmap; [by rewrite Hi|rewrite Hj; cbn; congruence].
Qed.

Lemma create_always g s : own g (s_controller s) → always (respects g) (create_secret s).
Proof.
  intros Ho k. unfold create_secret. destruct (find_secret (s_name s) k) as [s0|] eqn:E.
  { destruct (next_event k) as [e k1] eqn:En. apply next_event_objects in En as (En&_). by destruct e; apply respects_same. }
  rewrite K_bind_eq. pose proof (write_related (R:=respects g) (λ k, with_secrets (k_secrets k ++ [stamp s k]) k) k) as H.
  destruct (write _ k) as [[b|] k1]; (apply H; clear H; intros k2 E2); rewrite <-(find_secret_objects _ _ _ E2) in E;
    apply find_secret_None in E; (split; cbn; auto using only_own_refl).
  all: try (unfold names in *; cbn; rewrite fmap_app; cbn; intros Hn; apply NoDup_app; split_and!; [done|set_solver|apply NoDup_singleton]).
  all: set_solver.
Qed.
Lemma remove_respects g n k : (NoDup (names k) → ∀ s, s ∈ k_secrets k → s_name s = n → own g (s_controller s)) → respects g k (remove_secret n k).
Proof.
  intros Ho. split; cbn; auto using only_own_refl.
  - unfold names. cbn. intros Hn. eapply sublist_NoDup; [exact Hn|]. apply fmap_sublist, sublist_filter.
  - intros Hn s Hs Hnot. apply list_elem_of_filter. split; [|done]. intros E. by eapply Hnot, Ho.
  - intros s [_ Hs]%list_elem_of_filter. by left.
Qed.

#[export] Hint Resolve create_always : managed.
Lemma ensureAuthentication_always `{Digest} r g : always (respects g) (ensureAuthentication r g).
Proof.
  assert (∀ l, always (respects g) (recover_from g l)) as Hr.
  { induction l as [|n l IH]; cbn [recover_from]; managed; apply IH. }
  unfold ensureAuthentication, recoverAuthentication, fresh_credentials. managed; apply create_always; apply gateway_reference_own.
Qed.
Lemma generations_always g x : always (respects g) (generations x).
Proof. unfold generations. managed. Qed.
#[export] Hint Resolve ensureAuthentication_always generations_always : managed.
Lemma delete_owned_always {R} `{!Framed R} {A} g (f : kcluster → option A) c del : (∀ k k', objects k = objects k' → f k = f k') →
  (∀ k x, f k = Some x → own g (c x) → R k (del k)) → always R (delete_owned g f c del).
Proof.
  intros Hf Hd k. unfold delete_owned. apply always_bind_when; [apply read_always|]. intros a k1 E.
  apply (read_spec f k _ _ Hf) in E as (E1&_&_&_&x&[= <-]&Hx). destruct a as [y| |]; [|reflexivity|reflexivity].
  destruct (negb _) eqn:Eo; [reflexivity|]. apply negb_false_iff in Eo. destruct Hx as [|Hx]; [done|].
  destruct (f k) as [z|] eqn:Ef; [|done]. injection Hx as ->.
  apply always_bind_when; [ |intros a k2 _; by apply always_check]. apply write_related. intros k2 E2.
  eapply Hd; [|exact Eo]. rewrite <-Ef. apply Hf. congruence.
Qed.
Lemma deleteOwned_always g n : always (respects g) (deleteOwned g n).
Proof.
  apply delete_owned_always; [apply find_secret_objects|]. intros k x [Hx En]%find_secret_Some Ho. apply remove_respects.
  intros Hn s Hs Es. rewrite (same_name k s x); [done..|congruence].
Qed.
#[export] Hint Resolve deleteOwned_always : managed.
Lemma delete_each_always g keep l : always (respects g) (delete_each g keep l).
Proof. induction l as [|s l IH]; cbn [delete_each]; managed. Qed.
#[export] Hint Resolve delete_each_always : managed.

Section ownership.
Context `{Digest, ReceiptCodec}.

Lemma Prepare_always r g : always (respects g) (Prepare r g).
Proof. unfold Prepare. managed. Qed.
Lemma create_generation_always p prof ck c rc u pw : always (respects (gp_owner p)) (create_generation p prof ck c rc u pw).
Proof. unfold create_generation. managed; apply create_always, gateway_reference_own. Qed.
Lemma Publish_always p a : always (respects (gp_owner p)) (Publish p a).
Proof.
  intros k. unfold Publish. destruct (gp_guard p); [|reflexivity]. destruct (negb _); [reflexivity|].
  destruct (ProtectedReceipt a); [|reflexivity]. destruct (configDataKey _); [|reflexivity]. destruct (bool_decide _); [reflexivity|].
  apply (λ m (Hm : always (respects (gp_owner p)) m), Hm k). managed; apply create_generation_always.
Qed.
Lemma CurrentReceipt_always p : always (respects (gp_owner p)) (CurrentReceipt p).
Proof. intros k. unfold CurrentReceipt. apply (λ m (Hm : always (respects (gp_owner p)) m), Hm k). managed. Qed.

(** A write of one of the gateway's objects where it was absent or its own. *)
Lemma put_deployment g d k : own_or_absent g (om_controller ∘ d_meta) (k_deployment k) → own_or_absent g (om_controller ∘ d_meta) d →
  respects g k (write (with_deployment d) k).2.
Proof.
  intros H1 H2. apply write_related. intros k1 E. unfold objects in E. injection E as E1 E2 E3 E4 E5.
  split; cbn; auto using only_own_refl. right. split; [by rewrite E2|done].
Qed.
Lemma put_service g d k : own_or_absent g (om_controller ∘ sv_meta) (k_service k) → own_or_absent g (om_controller ∘ sv_meta) d →
  respects g k (write (with_service d) k).2.
Proof.
  intros H1 H2. apply write_related. intros k1 E. unfold objects in E. injection E as E1 E2 E3 E4 E5.
  split; cbn; auto using only_own_refl. right. split; [by rewrite E3|done].
Qed.
Lemma put_policy g d k : own_or_absent g (om_controller ∘ np_meta) (k_policy k) → own_or_absent g (om_controller ∘ np_meta) d →
  respects g k (write (with_policy d) k).2.
Proof.
  intros H1 H2. apply write_related. intros k1 E. unfold objects in E. injection E as E1 E2 E3 E4 E5.
  split; cbn; auto using only_own_refl. right. split; [by rewrite E4|done].
Qed.
(** What a read of one of these objects says about it. *)
Lemma read_field {A} (f : kcluster → option A) k a k' : (∀ k k', objects k = objects k' → f k = f k') → read f k = (Ok a, k') →
  objects k' = objects k ∧ match a with Found x => f k = Some x | NotFound => f k = None | ReadFailed => True end.
Proof.
  intros Hf (E&_&_&_&x&[= <-]&Hx)%(read_spec f k _ _ Hf). split; [done|]. destruct Hx as [-> | ->]; [done|]. by destruct (f k).
Qed.
Lemma ensure_always {A B} g (f : kcluster → option A) (c : A → option OwnerReference) (body : answer A → K B) :
  (∀ k k', objects k = objects k' → f k = f k') →
  (∀ k, own_or_absent g c (f k) → ∀ a, (a = match f k with Some x => Found x | None => NotFound end) → respects g k (body a k).2) →
  (∀ k, respects g k (body ReadFailed k).2) → (∀ k x, ¬ own g (c x) → respects g k (body (Found x) k).2) →
  always (respects g) (a ← read f; body a).
Proof.
  intros Hf Hb Hr Hn k. apply always_bind_when; [apply read_always|]. intros a k1 E.
  apply (read_spec f k _ _ Hf) in E as (E1&_&_&_&x&[= <-]&Hx). rewrite (Hf k k1) in Hx by done. destruct Hx as [->|Hx]; [done|].
  destruct (f k1) as [x|] eqn:Ef; subst a; [|apply Hb; rewrite Ef; done].
  destruct (ownedByGateway (c x) g) eqn:Eo; [apply Hb; rewrite Ef; done|]. apply Hn. unfold own. congruence.
Qed.
(** The common part of the three: a conflict and an unchanged object write
    nothing, and what is written is the gateway's. *)
Ltac ensure_own g field ctl put r :=
  apply (ensure_always g field ctl);
  [ by intros k k' [= ? ? ? ? ?]
  | let E := fresh "E" in intros k Ho a ->; destruct (field k) eqn:E; [destruct (negb _); [reflexivity|]|];
    (destruct (mr_scheme r); [|reflexivity]); cbn [controlled]; try (destruct (_ && _); [reflexivity|]);
    (apply always_bind_when; [ |intros [] k1 _; reflexivity]);
    (apply put; [by rewrite E|apply gateway_reference_own])
  | reflexivity
  | let Hx := fresh "Hx" in intros k x Hx; apply not_true_iff_false in Hx; cbn in Hx; by rewrite Hx ].
Lemma ensureDeployment_always r g gen : always (respects g) (ensureDeployment r g gen).
Proof. unfold ensureDeployment. ensure_own g k_deployment (om_controller ∘ d_meta) put_deployment r. Qed.
Lemma ensureService_always r g : always (respects g) (ensureService r g).
Proof. unfold ensureService. ensure_own g k_service (om_controller ∘ sv_meta) put_service r. Qed.
Lemma ensureNetworkPolicy_always r g : always (respects g) (ensureNetworkPolicy r g).
Proof. unfold ensureNetworkPolicy. ensure_own g k_policy (om_controller ∘ np_meta) put_policy r. Qed.

#[local] Hint Resolve ensureDeployment_always ensureService_always ensureNetworkPolicy_always : managed.
Lemma list_secrets_spec want k r k' : list_secrets want k = (r, k') → objects k' = objects k ∧ ∃ x, r = Ok x ∧
  ∀ l, x = Some l → l = List.filter (λ s, matches want (s_labels s)) (k_secrets k).
Proof.
  unfold list_secrets. set (f := λ k, Some (List.filter (λ s, matches want (s_labels s)) (k_secrets k))).
  assert (∀ k k', objects k = objects k' → f k = f k') as Hf by (unfold f; by intros ? ? [= -> _ _ _ _]).
  destruct (read f k) as [a k1] eqn:E. apply (read_spec f k _ _ Hf) in E as (E&_&_&_&x&->&Hx).
  destruct Hx as [-> |Hx]; [|cbn in Hx; subst x]; intros [= <- <-]; (split; [done|]); eexists; (split; [reflexivity|]); [done|].
  by intros l [= <-].
Qed.
(** The Secrets of [k'] are among those of [k]. *)
Lemma remove_legacy_respects g l k : NoDup (names k) → (∀ s s', s ∈ l → s' ∈ k_secrets k → s_name s' = s_name s → s' = s) →
  respects g k (remove_legacy g l k).2.
Proof.
  revert k. induction l as [|s l IH]; intros k Hn Hl; cbn [remove_legacy]; [reflexivity|].
  assert (∀ k', objects k' = objects k → respects g k' (remove_legacy g l k').2) as Hrest.
  { intros k' E. unfold objects in E. injection E as E _ _ _ _. apply IH; unfold names; rewrite E; [done|].
    intros x y Hx. apply Hl. by right. }
  destruct (_ || _) eqn:Ec; [by apply Hrest|]. apply orb_false_iff in Ec as [Ec Eo]. apply negb_false_iff in Eo.
  assert (∀ s', s' ∈ k_secrets k → s_name s' = s_name s → own g (s_controller s')) as Hown.
  { intros s' Hs' En. rewrite (Hl s s') by (done || by left). done. }
  apply always_bind_when; [ |].
  - apply write_related. intros k1 E. apply remove_respects. unfold objects in E. injection E as E _ _ _ _. rewrite E. auto.
  - intros b k1 (k2&ok&[= <-]&E&_&_&_&Hk1)%write_spec. destruct b; [|cbn [check negb]; reflexivity]. cbn [check negb].
    destruct Hk1 as [->|[[=] _]]. rewrite K_bind_eq. cbn. unfold objects in E. injection E as E _ _ _ _.
    apply IH; unfold names; cbn; rewrite E.
    + eapply sublist_NoDup; [exact Hn|]. apply fmap_sublist, sublist_filter.
    + intros x y Hx [_ Hy]%list_elem_of_filter. apply Hl; [by right|done].
Qed.
Lemma removeLegacyOutput_respects g k : NoDup (names k) → respects g k (removeLegacyOutput g k).2.
Proof.
  intros Hn. unfold removeLegacyOutput. apply always_bind_when; [apply list_secrets_always|].
  intros l k1 E. apply list_secrets_spec in E as (E1&x&[= <-]&Hl). destruct l as [l|]; [|reflexivity]. specialize (Hl _ eq_refl).
  unfold objects in E1. injection E1 as E1 _ _ _ _. assert (NoDup (names k1)) as Hn1 by (unfold names; by rewrite E1).
  apply remove_legacy_respects; [done|]. intros s s' Hs Hs' En. rewrite E1 in Hs'. subst l. apply list_elem_of_In, filter_In in Hs as [Hs _].
  apply (same_name k); [done|done|by apply list_elem_of_In|done].
Qed.
Lemma cleanupGenerations_always g a b : always (respects g) (cleanupGenerations g a b).
Proof. unfold cleanupGenerations. managed. Qed.
Lemma ensure_all_always r g gen : always (respects g) (ensure_all r g gen).
Proof. unfold ensure_all. managed. Qed.
Lemma remove_unused_respects g gen k : NoDup (names k) → respects g k (remove_unused g gen k).2.
Proof.
  intros Hn. unfold remove_unused. apply always_bind_when; [apply cleanupGenerations_always|].
  intros u k2 E. apply removeLegacyOutput_respects. apply (rs_names g k); [|done].
  pose proof (cleanupGenerations_always g gen (ActiveGeneration (gw_status g)) k) as Hc. by rewrite E in Hc.
Qed.
Lemma attempt_eq {A} (m : K A) k : attempt m k = (Ok (m k).1, (m k).2).
Proof. unfold attempt. by destruct (m k). Qed.
Lemma Reconcile_respects r g gen k : NoDup (names k) → respects g k (Reconcile r g gen k).2.
Proof.
  intros Hn. unfold Reconcile. repeat (case_match; [reflexivity|]). apply always_bind_when; [ |].
  { rewrite attempt_eq. apply ensure_all_always. }
  intros d k1. rewrite attempt_eq. intros [= <- <-]. pose proof (rs_names _ _ _ (ensure_all_always r g gen k) Hn) as Hn1.
  destruct (ensure_all r g gen k) as [[d|e] k1]; cbn [fst snd] in *; [|reflexivity].
  destruct (Activated _); [|reflexivity]. apply always_bind_when; [ |reflexivity].
  rewrite attempt_eq. by apply remove_unused_respects.
Qed.
Lemma Cleanup_always g : always (respects g) (Cleanup g).
Proof.
  assert (always (respects g) (delete_owned g k_deployment (om_controller ∘ d_meta) (with_deployment None))) as Hd.
  { apply delete_owned_always; [by intros ? ? [= _ -> _ _ _]|]. intros k x E Hx. split; cbn; auto using only_own_refl. right. by rewrite E. }
  assert (always (respects g) (delete_owned g k_service (om_controller ∘ sv_meta) (with_service None))) as Hs.
  { apply delete_owned_always; [by intros ? ? [= _ _ -> _ _]|]. intros k x E Hx. split; cbn; auto using only_own_refl. right. by rewrite E. }
  assert (always (respects g) (delete_owned g k_policy (om_controller ∘ np_meta) (with_policy None))) as Hp.
  { apply delete_owned_always; [by intros ? ? [= _ _ _ -> _]|]. intros k x E Hx. split; cbn; auto using only_own_refl. right. by rewrite E. }
  unfold Cleanup. managed.
Qed.
(** C14: The managed runtime changes only what belongs to its gateway.  Whatever
    requests fail, preparing credentials, publishing a generation, reading
    the receipt, reconciling the workload and cleaning up leave every Secret
    that is not controlled by exactly this gateway in place and unchanged, add
    only Secrets of the gateway, and neither modify, replace nor delete a
    Deployment, Service or NetworkPolicy of the gateway's names that another
    owner holds; no Pod is touched. *)
Theorem managed_touches_only_own r g generation p a k : gp_owner p = g → NoDup (names k) →
  respects g k (Prepare r g k).2 ∧ respects g k (Publish p a k).2 ∧ respects g k (CurrentReceipt p k).2 ∧
  respects g k (Reconcile r g generation k).2 ∧ respects g k (Cleanup g k).2.
Proof.
  intros <- Hn. split_and!; [apply Prepare_always|apply Publish_always|apply CurrentReceipt_always|by apply Reconcile_respects|apply Cleanup_always].
Qed.
End ownership.

(** ** What is removed, and when *)

#[global] Instance Secret_eq_dec : EqDecision Secret.
Proof. solve_decision. Defined.
(** Only Secrets that satisfy [P] are removed, and nothing else changes. *)
Definition removes (P : Secret → Prop) (k k' : kcluster) : Prop := NoDup (names k) →
  k_secrets k' `sublist_of` k_secrets k ∧ (∀ s, s ∈ k_secrets k → s ∉ k_secrets k' → P s) ∧
  k_deployment k' = k_deployment k ∧ k_service k' = k_service k ∧ k_policy k' = k_policy k ∧ k_pods k' = k_pods k.
Lemma sublist_names k k' : k_secrets k' `sublist_of` k_secrets k → NoDup (names k) → NoDup (names k').
Proof. intros Hs Hn. eapply sublist_NoDup; [exact Hn|]. by apply fmap_sublist. Qed.
#[export] Instance removes_framed P : Framed (removes P).
Proof.
  assert (∀ k k', objects k' = objects k → removes P k k') as Hsame.
  { unfold objects. intros k k' [= E1 E2 E3 E4 E5] _. rewrite E1. split_and!; try done. }
  split; [|done]. split; [intros k; by apply Hsame|].
  intros k1 k2 k3 H1 H2 Hn. destruct (H1 Hn) as (A1&A2&A3&A4&A5&A6). destruct (H2 (sublist_names _ _ A1 Hn)) as (B1&B2&B3&B4&B5&B6).
  split_and!; try congruence; [by etrans|]. intros s Hs Hs3. destruct (decide (s ∈ k_secrets k2)); [by apply B2|by apply A2].
Qed.
Lemma removes_weaken (P Q : Secret → Prop) k k' : (∀ s, s ∈ k_secrets k → P s → Q s) → removes P k k' → removes Q k k'.
Proof. intros HPQ H Hn. destruct (H Hn) as (A1&A2&A3). split_and!; try done; [|by apply A3..]. intros s Hs Hs'. by apply HPQ, A2. Qed.
Lemma remove_removes (P : Secret → Prop) n k : (NoDup (names k) → ∀ s, s ∈ k_secrets k → s_name s = n → P s) → removes P k (remove_secret n k).
Proof.
  intros HP Hn. split_and!; try done; cbn; [apply sublist_filter|]. intros s Hs Hs'. apply HP; [done..|].
  apply dec_stable. intros Hne. by apply Hs', list_elem_of_filter.
Qed.
Lemma deleteOwned_removes g n : always (removes (λ s, own g (s_controller s) ∧ s_name s = n)) (deleteOwned g n).
Proof.
  apply delete_owned_always; [apply find_secret_objects|]. intros k x [Hx En]%find_secret_Some Ho. apply remove_removes.
  intros Hn s Hs Es. rewrite (same_name k s x); [done..|congruence].
Qed.
Lemma delete_each_removes g keep l :
  always (removes (λ s, own g (s_controller s) ∧ s_name s ∉ keep ∧ ∃ t, t ∈ l ∧ s_name t = s_name s)) (delete_each g keep l).
Proof.
  induction l as [|s l IH]; cbn [delete_each]; [apply always_ret|]. apply always_bind.
  - case_bool_decide as Hk; [apply always_ret|]. intros k. eapply removes_weaken; [|apply deleteOwned_removes].
    intros t Ht [Ho En]. split_and!; [done|congruence|]. exists s. split; [by left|done].
  - intros _ k. eapply removes_weaken; [|apply IH]. intros t Ht (Ho&Hn&x&Hx&En). split_and!; [done..|]. exists x. split; [by right|done].
Qed.

Section activation.
Context `{Digest, ReceiptCodec}.

(** The generation Secrets of a gateway. *)
Definition generation_of (g : EgressGateway) (s : Secret) : Prop := matches (generation_selector g) (s_labels s) = true.
(** A live Pod of the gateway mounts the Secret. *)
Definition in_use (g : EgressGateway) (k : kcluster) (name : string) : Prop :=
  ∃ p v items, p ∈ k_pods k ∧ matches (runtimeSelector g) (pod_labels p) = true ∧ live_pod p = true ∧ v ∈ pod_volumes p ∧
    v_secret v = Some (name, items).
(** At least two generations are newer. *)
Definition superseded (g : EgressGateway) (k : kcluster) (s : Secret) : Prop :=
  ∃ a b, a ∈ k_secrets k ∧ b ∈ k_secrets k ∧ generation_of g a ∧ generation_of g b ∧ newer_cmp s a = Lt ∧ newer_cmp a b = Lt.
Definition unused (g : EgressGateway) (generation : string) (k : kcluster) (s : Secret) : Prop :=
  generation_of g s ∧ s_name s ≠ generation ∧
  (ActiveGeneration (gw_status g) ≠ "" → s_name s ≠ ActiveGeneration (gw_status g)) ∧ ¬ in_use g k (s_name s) ∧ superseded g k s.
Definition legacy (s : Secret) : Prop := s_type s = EngineSecretType ∧ s_labels s !! ComponentLabel ≠ Some componentGeneration.

Lemma mounted_in_use g k n l : l = List.filter (λ p, matches (runtimeSelector g) (pod_labels p)) (k_pods k) → in_use g k n → n ∈ mounted l.
Proof.
  intros -> (p&v&items&Hp&Hm&Hl&Hv&Hs). unfold mounted. apply list_elem_of_bind. exists p. split.
  - apply list_elem_of_bind. exists v. rewrite Hs. split; [by left|done].
  - apply list_elem_of_In, filter_In. split; [|done]. apply filter_In. split; [by apply list_elem_of_In|done].
Qed.
#[export] Instance newer_order : CmpOrder newer_cmp := _.
Lemma newer_no_ties k l : NoDup (names k) → (∀ s, s ∈ l → s ∈ k_secrets k) → no_ties newer_cmp l.
Proof.
  intros Hn Hl x y Hx Hy E. apply (same_name k); [done|auto..|]. unfold newer_cmp, cmp_lex, cmp_on in E.
  destruct (s_created x ?= s_created y); try done. cbn in E. by apply String.compare_eq_iff in E.
Qed.
(** What is not among the newest two has two newer ones. *)
Lemma newest_two_kept k l s : NoDup (names k) → (∀ s, s ∈ l → s ∈ k_secrets k) → NoDup l → s ∈ l → s_name s ∉ newest_two l →
  ∃ a b, a ∈ l ∧ b ∈ l ∧ newer_cmp s a = Lt ∧ newer_cmp a b = Lt.
Proof.
  intros Hn Hl Hd Hs Hnot. pose proof (newer_no_ties k l Hn Hl) as Ht. pose proof (go_sort_strict newer_cmp l Ht Hd) as Hsort.
  assert (s ∈ go_sort newer_cmp l) as Hs' by by apply go_sort_elem_of. unfold newest_two in Hnot.
  rewrite <-(take_drop (length l - 2) (go_sort newer_cmp l)) in Hs', Hsort. apply elem_of_app in Hs' as [Hs'|Hs'].
  2: { destruct Hnot. by apply list_elem_of_fmap_2. }
  assert (length (drop (length l - 2) (go_sort newer_cmp l)) = 2%nat) as Hlen.
  { rewrite length_drop, go_sort_length. destruct (decide (2 ≤ length l)%nat); [lia|].
    exfalso. replace (length l - 2)%nat with 0%nat in Hs' by lia. rewrite take_0 in Hs'. set_solver. }
  assert (∀ x, x ∈ drop (length l - 2) (go_sort newer_cmp l) → x ∈ l) as Hin.
  { intros x Hx. apply (go_sort_elem_of newer_cmp). exact (subseteq_drop _ _ x Hx). }
  destruct (drop (length l - 2) (go_sort newer_cmp l)) as [|a [|b [|]]]; try done.
  apply StronglySorted_app in Hsort as (H1&_&H3). exists a, b. split_and!; [apply Hin; left|apply Hin; right; left|apply H1; [done|left]|].
  inversion H3 as [|? ? _ Hf]; subst. by inversion Hf.
Qed.

Lemma NoDup_of_names k : NoDup (names k) → NoDup (k_secrets k).
Proof. apply NoDup_fmap_1. Qed.
Lemma list_pods_spec want k r k' : list_pods want k = (r, k') → objects k' = objects k ∧ ∃ x, r = Ok x ∧
  ∀ l, x = Some l → l = List.filter (λ s, matches want (pod_labels s)) (k_pods k).
Proof.
  unfold list_pods. set (f := λ k, Some (List.filter (λ s, matches want (pod_labels s)) (k_pods k))).
  assert (∀ k k', objects k = objects k' → f k = f k') as Hf by (unfold f; by intros ? ? [= _ _ _ _ ->]).
  destruct (read f k) as [a k1] eqn:E. apply (read_spec f k _ _ Hf) in E as (E&_&_&_&x&->&Hx).
  destruct Hx as [-> |Hx]; [|cbn in Hx; subst x]; intros [= <- <-]; (split; [done|]); eexists; (split; [reflexivity|]); [done|].
  by intros l [= <-].
Qed.
Lemma cleanup_removes g gen k : removes (λ s, own g (s_controller s) ∧ unused g gen k s) k (cleanupGenerations g gen (ActiveGeneration (gw_status g)) k).2.
Proof.
  unfold cleanupGenerations. apply always_bind_when; [apply list_pods_always|].
  intros pods k1 (E1&x&[= <-]&Hp)%list_pods_spec. destruct pods as [pods|]; [|apply always_fail]. specialize (Hp _ eq_refl).
  apply always_bind_when; [apply list_secrets_always|].
  intros l k2 (E2&y&[= <-]&Hl)%list_secrets_spec. destruct l as [l|]; [|apply always_fail]. specialize (Hl _ eq_refl).
  assert (k_secrets k2 = k_secrets k1 ∧ k_secrets k1 = k_secrets k) as (S2&S1)
    by (unfold objects in *; injection E1; injection E2; intros; by subst).
  set (keep := gen :: _). pose proof (delete_each_removes g keep (go_sort newer_cmp l) k2) as Hd. intros Hn2. refine (removes_weaken _ _ _ _ _ Hd Hn2). intros s Hs (Ho&Hk&t&Ht&En). split; [done|].
  assert (NoDup (names k)) as Hn by (unfold names in *; by rewrite <-S1, <-S2).
  assert (∀ s, s ∈ l ↔ s ∈ k_secrets k ∧ generation_of g s) as Hin.
  { intros z. subst l. rewrite list_elem_of_In, filter_In, <-list_elem_of_In, S1. done. }
  apply go_sort_elem_of in Ht. assert (t = s) as ->. { apply (same_name k); [done|by apply Hin|by rewrite <-S1, <-S2|done]. }
  apply Hin in Ht as Ht'. destruct Ht' as [_ Hg]. unfold keep in Hk. apply not_elem_of_cons in Hk as [Hk1 Hk2].
  apply not_elem_of_app in Hk2 as [Hk2 Hk3]. apply not_elem_of_app in Hk3 as [Hk3 Hk4].
  assert (NoDup l) as Hnl. { subst l. apply NoDup_ListNoDup, List.NoDup_filter, NoDup_ListNoDup. rewrite S1. by apply NoDup_of_names. }
  destruct (newest_two_kept k l s Hn) as (a&b&Ha&Hb&Hsa&Hab); [intros z Hz; by apply Hin|done..|].
  split_and!; [done|done| | |].
  - intros Hne E. rewrite bool_decide_false in Hk2 by done. set_solver.
  - intros Hu. apply Hk3, (mounted_in_use g k); [exact Hp|done].
  - exists a, b. apply Hin in Ha as [? ?], Hb as [? ?]. by split_and!.
Qed.

Lemma remove_legacy_removes g l k : (∀ s s', s ∈ l → s' ∈ k_secrets k → s_name s' = s_name s → s' = s) →
  removes (λ s, own g (s_controller s) ∧ legacy s) k (remove_legacy g l k).2.
Proof.
  revert k. induction l as [|s l IH]; intros k Hl; cbn [remove_legacy]; [reflexivity|].
  destruct (_ || _) eqn:Ec; [apply IH; intros x y Hx; apply Hl; by right|].
  apply orb_false_iff in Ec as [[E1 E2]%orb_false_iff Eo]. apply negb_false_iff in Eo. bool_to_prop.
  apply always_bind_when.
  - apply write_related. intros k1 E. apply remove_removes. intros _ s' Hs' En. unfold objects in E. injection E as E _ _ _ _.
    rewrite E in Hs'. rewrite (Hl s s') by (done || by left). split; [done|]. split; [by apply dec_stable|done].
  - intros b k1 (k2&ok&[= <-]&E&_&_&_&Hk1)%write_spec. destruct b; [|cbn [check negb]; reflexivity]. cbn [check negb].
    destruct Hk1 as [->|[[=] _]]. rewrite K_bind_eq. cbn. unfold objects in E. injection E as E _ _ _ _.
    apply IH. cbn. rewrite E. intros x y Hx [_ Hy]%list_elem_of_filter. apply Hl; [by right|done].
Qed.
Lemma removeLegacyOutput_removes g : always (removes (λ s, own g (s_controller s) ∧ legacy s)) (removeLegacyOutput g).
Proof.
  intros k. unfold removeLegacyOutput. apply always_bind_when; [apply list_secrets_always|].
  intros l k1 (E1&x&[= <-]&Hl)%list_secrets_spec. destruct l as [l|]; [|reflexivity]. specialize (Hl _ eq_refl).
  unfold objects in E1. injection E1 as E1 _ _ _ _. intros Hn1. apply remove_legacy_removes; [|done].
  intros s s' Hs Hs' En. rewrite E1 in Hs'. subst l. apply list_elem_of_In, filter_In in Hs as [Hs _].
  apply (same_name k); [unfold names in *; by rewrite <-E1|done|by apply list_elem_of_In|done].
Qed.

(** What [ensureDeployment] returns is in place, with the desired spec. *)
Lemma ensureDeployment_Ok r g gen k d k' : ensureDeployment r g gen k = (Ok d, k') →
  k_deployment k' = Some d ∧ d_spec d = desiredDeployment g (mr_image r) gen ∧ own g (om_controller (d_meta d)) ∧ k_secrets k' = k_secrets k ∧ k_pods k' = k_pods k.
Proof.
  unfold ensureDeployment. intros (a&k1&E&Hr)%K_bind_Ok. unfold read_deployment in E.
  apply read_field in E as [E1 Ea]; [|by intros ? ? [= _ -> _ _ _]]. unfold objects in E1. injection E1 as E1 E2 _ _ E5.
  assert (∀ x code, (ok ← write (with_deployment (Some x)); if ok : bool then mret x else managedRuntimeFailure code) k1 = (Ok d, k') →
    d = x ∧ k_deployment k' = Some x ∧ k_secrets k' = k_secrets k ∧ k_pods k' = k_pods k) as Hw.
  { intros x code (b&k2&Hb&Hx)%K_bind_Ok. destruct b; [|done]. injection Hx as <- <-. apply write_Ok in Hb as (k3&->&E3&_).
    unfold objects in E3. injection E3 as E3 _ _ _ E3'. cbn. split_and!; congruence. }
  destruct a as [x| |]; [| |done].
  - destruct (negb _) eqn:Eo; [done|]. apply negb_false_iff in Eo. apply controlled_Ok in Hr as [_ Hr]. destruct (_ && _) eqn:Es.
    + injection Hr as <- <-. bool_to_prop. split_and!; congruence.
    + apply Hw in Hr as (->&?&?&?). split_and!; try done. apply gateway_reference_own.
  - apply controlled_Ok in Hr as [_ Hr]. apply Hw in Hr as (->&?&?&?). split_and!; try done. apply gateway_reference_own.
Qed.
(** The workload is ensured without touching Secrets or Pods. *)
Definition same_secrets (k k' : kcluster) : Prop := k_secrets k' = k_secrets k ∧ k_pods k' = k_pods k.
#[export] Instance same_secrets_framed : Framed same_secrets.
Proof.
  split; [split|]; unfold same_secrets; [done|intros ? ? ? [? ?] [? ?]; split; congruence|]. by unfold objects; intros k k' [= -> _ _ _ ->].
Qed.
Lemma ensure_all_same r g gen : always same_secrets (ensure_all r g gen).
Proof.
  assert (always same_secrets (ensureService r g)) by (unfold ensureService; managed; intros k; by apply write_related).
  assert (always same_secrets (ensureNetworkPolicy r g)) by (unfold ensureNetworkPolicy; managed; intros k; by apply write_related).
  assert (always same_secrets (ensureDeployment r g gen)) by (unfold ensureDeployment, read_deployment; managed; intros k; by apply write_related).
  unfold ensure_all. managed.
Qed.
Lemma ensure_all_Ok r g gen k d k' : ensure_all r g gen k = (Ok d, k') →
  k_deployment k' = Some d ∧ d_spec d = desiredDeployment g (mr_image r) gen ∧ own g (om_controller (d_meta d)).
Proof.
  unfold ensure_all. intros (u&k1&_&(u'&k2&_&Hd)%K_bind_Ok)%K_bind_Ok. apply ensureDeployment_Ok in Hd as (?&?&?&_). done.
Qed.
(** What a reconciliation of the workload may have done. *)
Record reconciled (r : ManagedRuntime) (g : EgressGateway) (gen : string) (k : kcluster) (o : RuntimeOutcome) (k' : kcluster) : Prop := {
  rc_activated : Activated o = true → ro_active o = gen ∧ RuntimeReady o = true ∧
    ∃ d, k_deployment k' = Some d ∧ own g (om_controller (d_meta d)) ∧ d_spec d = desiredDeployment g (mr_image r) gen ∧ deploymentComplete d gen = true;
  rc_pending : Activated o = false → ro_active o = ActiveGeneration (gw_status g) ∧ k_secrets k' = k_secrets k;
  rc_removed : ∀ s, s ∈ k_secrets k → s ∉ k_secrets k' → Activated o = true ∧ own g (s_controller s) ∧ (unused g gen k s ∨ legacy s);
}.
Lemma pending_reconciled r g gen k o k' : Activated o = false → ro_active o = ActiveGeneration (gw_status g) → k_secrets k' = k_secrets k →
  reconciled r g gen k o k'.
Proof. intros Ha Ho Hs. split; [by rewrite Ha|done|]. intros s H1 H2. by rewrite Hs in H2. Qed.
Lemma remove_unused_removes g gen k : removes (λ s, own g (s_controller s) ∧ (unused g gen k s ∨ legacy s)) k (remove_unused g gen k).2.
Proof.
  unfold remove_unused. apply always_bind_when.
  - eapply removes_weaken; [|apply cleanup_removes]. intros s _ [? ?]. auto.
  - intros u k1 _. eapply removes_weaken; [|apply removeLegacyOutput_removes]. intros s _ [? ?]. auto.
Qed.
Lemma in_use_pods g k k' n : k_pods k = k_pods k' → in_use g k n → in_use g k' n.
Proof. unfold in_use. by intros ->. Qed.
Lemma unused_same g gen k k' s : same_secrets k k' → unused g gen k' s → unused g gen k s.
Proof.
  intros [Es Ep] (H1&H2&H3&H4&H5). split_and!; try done.
  - intros Hu. by apply H4, (in_use_pods g k).
  - destruct H5 as (a&b&H5). exists a, b. by rewrite Es in H5.
Qed.
Lemma Reconcile_reconciled r g gen k : NoDup (names k) → ∃ o err k', Reconcile r g gen k = (Ok (o, err), k') ∧ reconciled r g gen k o k'.
Proof.
  intros Hn. unfold Reconcile. destruct (negb _); [eexists _, _, k; split; [reflexivity|by apply pending_reconciled]|].
  destruct (bool_decide (gen = "")); [eexists _, _, k; split; [reflexivity|by apply pending_reconciled]|].
  destruct (bool_decide (mr_image r = "")); [eexists _, _, k; split; [reflexivity|by apply pending_reconciled]|].
  rewrite K_bind_eq, attempt_eq. pose proof (ensure_all_same r g gen k) as Hs. destruct (ensure_all r g gen k) as [[d|e] k1] eqn:E; cbn [fst snd] in *.
  2: { eexists _, _, k1. split; [reflexivity|]. apply pending_reconciled; [done..|apply Hs]. }
  apply ensure_all_Ok in E as (Ed&Espec&Eo). destruct (deploymentComplete d gen) eqn:Ec.
  - assert (Activated (observed g gen d) = true) as Ha by (unfold observed; by rewrite Ec). rewrite Ha, K_bind_eq, attempt_eq.
    destruct (remove_unused_removes g gen k1) as (H1&H2&H3&_); [unfold names; by rewrite (proj1 Hs)|].
    eexists _, _, _. split; [reflexivity|]. split; [intros _|by rewrite Ha|].
    + unfold observed. rewrite Ec. cbn. split_and!; [done..|]. exists d. split_and!; try done. congruence.
    + intros s Hin Hout. rewrite Ha. rewrite <-(proj1 Hs) in Hin. destruct (H2 s Hin Hout) as [Ho [Hu|Hl]]; [|by auto].
      split_and!; [done..|left]. by eapply unused_same.
  - assert (Activated (observed g gen d) = false ∧ ro_active (observed g gen d) = ActiveGeneration (gw_status g)) as [Ha Hr]
      by (unfold observed; rewrite Ec; by destruct (deploymentTimedOut d)).
    rewrite Ha. eexists _, _, k1. split; [reflexivity|]. apply pending_reconciled; [done..|apply Hs].
Qed.
(** C13: A managed generation is reported active only when it runs, and nothing
    in use is removed.  Whatever requests fail, a reconciliation that reports
    activation leaves the gateway's own Deployment with exactly the desired
    spec of that generation, observed by its controller, with the one replica
    updated, ready and available; otherwise the reported active generation is
    the recorded one and no Secret is removed.  A removed Secret was
    controlled by the gateway and is an old output, or a generation that is
    neither the activated nor the previously active one, that no live Pod
    mounts and that at least two generations supersede. *)
Theorem runtime_reconcile_safe r g gen k : NoDup (names k) →
  ∃ o err k', Reconcile r g gen k = (Ok (o, err), k') ∧ reconciled r g gen k o k'.
Proof. apply Reconcile_reconciled. Qed.
(** Without a generation nothing is activated. *)
Lemma Reconcile_nothing r g k : ∃ o err, Reconcile r g "" k = (Ok (o, err), k) ∧ Activated o = false.
Proof. unfold Reconcile. destruct (negb _); [by eexists _, _|]. rewrite bool_decide_true by done. by eexists _, _. Qed.
Lemma TargetGeneration_spec g k : ∃ gen k', TargetGeneration g k = (Ok gen, k') ∧ objects k' = objects k.
Proof.
  unfold TargetGeneration. rewrite K_bind_eq. destruct (read_deployment k) as [a k1] eqn:E. unfold read_deployment in E.
  apply read_spec in E as (E&_&_&_&x&->&_); [|by intros ? ? [= _ -> _ _ _]]. by eexists _, _.
Qed.
End activation.

(** ** The generation publisher keeps the contract *)

Section publisher.
Context `{Digest, ReceiptCodec}.
Implicit Types (p : GenerationPublisher) (k : kcluster).

Definition listed (g : EgressGateway) (k : kcluster) : list Secret := List.filter (λ s, matches (generation_selector g) (s_labels s)) (k_secrets k).
Definition current_generation (p : GenerationPublisher) (k : kcluster) : option Secret :=
  current_of (requested_name p k) (go_sort newer_cmp (listed (gp_owner p) k)).
Definition receipt_in_place (p : GenerationPublisher) (k : kcluster) : option string := current_generation p k ≫= generationReceipt.
Record generations_intact (p : GenerationPublisher) (k : kcluster) : Prop := {
  gi_names : NoDup (names k);
  gi_owned : ∀ s, s ∈ listed (gp_owner p) k → generation_owned (gp_owner p) s = true ∧ s_name s ≠ "";
  gi_receipt : ∀ s, s ∈ listed (gp_owner p) k → ∃ r, generationReceipt s = Some r ∧ good_receipt r;
}.
(** Nothing the publisher reads has changed. *)
Definition same_view (k k' : kcluster) : Prop := objects k' = objects k ∧ currentName k' = currentName k.
Lemma same_view_intact p k k' : same_view k k' → generations_intact p k → generations_intact p k'.
Proof. intros [E _] []. unfold objects in E. injection E as E _ _ _ _. split; unfold names, listed; rewrite E; done. Qed.
Lemma same_view_receipt p k k' : same_view k k' → receipt_in_place p k' = receipt_in_place p k.
Proof.
  intros [E Ec]. unfold objects in E. injection E as E _ _ _ _.
  unfold receipt_in_place, current_generation, requested_name, listed. by rewrite E, Ec.
Qed.
#[export] Instance same_view_framed : PreOrder same_view.
Proof. split; unfold same_view; [done|intros ? ? ? [? ?] [? ?]; split; congruence]. Qed.

Lemma generations_spec g k r k' : generations g k = (r, k') → same_view k k' ∧ k_stamp k' = k_stamp k ∧ ∀ l, r = Ok l → l = go_sort newer_cmp (listed g k).
Proof.
  unfold generations. rewrite K_bind_eq. unfold list_secrets. set (f := λ k, Some (listed g k)).
  assert (∀ k k', objects k = objects k' → f k = f k') as Hf by (unfold f, listed; by intros ? ? [= -> _ _ _ _]).
  change (λ k, Some (List.filter (λ s, matches (generation_selector g) (s_labels s)) (k_secrets k))) with f.
  destruct (read f k) as [a k1] eqn:E. apply (read_spec f k _ _ Hf) in E as (E1&E2&_&E4&x&->&Hx).
  assert (same_view k k1) as Hv by by split.
  destruct Hx as [-> |Hx]; [by intros [= <- <-]|]. cbn in Hx. subst x. destruct (forallb _ _); intros [= <- <-]; (split_and!; [done|done|]); [|done].
  by intros l [= <-].
Qed.
Lemma listed_secrets g k s : s ∈ listed g k → s ∈ k_secrets k.
Proof. unfold listed. rewrite list_elem_of_In, filter_In, <-list_elem_of_In. by intros [? _]. Qed.

(** Looking a generation up by its name. *)
Lemma find_by_name k l s : NoDup (names k) → (∀ s, s ∈ l → s ∈ k_secrets k) → s ∈ l → List.find (λ x, bool_decide (s_name x = s_name s)) l = Some s.
Proof.
  intros Hn Hl Hs. destruct (List.find _ l) as [x|] eqn:E.
  - apply List.find_some in E as [Hx E]. bool_to_prop. f_equal. apply (same_name k); [done| |by apply Hl|done]. by apply Hl, list_elem_of_In.
  - apply list_elem_of_In in Hs. apply (List.find_none _ _ E) in Hs. by rewrite bool_decide_true in Hs.
Qed.
Lemma current_of_name k l s : NoDup (names k) → (∀ s, s ∈ l → s ∈ k_secrets k) → s ∈ l → s_name s ≠ "" → current_of (s_name s) l = Some s.
Proof. intros Hn Hl Hs Hne. unfold current_of. rewrite bool_decide_false by done. by rewrite (find_by_name k). Qed.
Lemma sorted_in g k s : s ∈ go_sort newer_cmp (listed g k) → s ∈ k_secrets k.
Proof. rewrite go_sort_elem_of. apply listed_secrets. Qed.
Lemma current_of_elem req l s : current_of req l = Some s → s ∈ l.
Proof.
  unfold current_of. destruct (List.find _ _) as [x|] eqn:E.
  - intros [= ->]. apply List.find_some in E as [E _]. case_bool_decide; [done|]. by apply list_elem_of_In.
  - by intros ?%last_Some_elem_of.
Qed.
(** The publisher now names [s]. *)
Lemma set_current_view p k s : NoDup (names k) → s ∈ listed (gp_owner p) k → s_name s ≠ "" →
  current_generation p (with_current (s_name s) k) = Some s.
Proof.
  intros Hn Hs Hne. unfold current_generation, requested_name. cbn [currentName with_current]. rewrite bool_decide_false by done.
  apply (current_of_name k); [done|intros x Hx; exact (sorted_in (gp_owner p) k x Hx)|by apply go_sort_elem_of|done].
Qed.

Lemma CurrentReceipt_spec p k r k' : generations_intact p k → CurrentReceipt p k = (r, k') →
  generations_intact p k' ∧ receipt_in_place p k' = receipt_in_place p k ∧ match r with Ok o => o = receipt_in_place p k | Err _ => True end.
Proof.
  intros Hi. unfold CurrentReceipt. rewrite K_bind_eq. destruct (generations (gp_owner p) k) as [[l|e] k1] eqn:E; apply generations_spec in E as (Hv&_&Hl).
  2: { intros [= <- <-]. split_and!; [by eapply same_view_intact|by apply same_view_receipt|done]. }
  specialize (Hl _ eq_refl). fold (current_generation p k) in Hl. subst l. change (current_of (requested_name p k) _) with (current_generation p k).
  unfold receipt_in_place at 2 3. destruct (current_generation p k) as [s|] eqn:Ec; cbn [mbind option_bind].
  2: { intros [= <- <-]. split_and!; [by eapply same_view_intact|rewrite (same_view_receipt p k k1) by done; unfold receipt_in_place; by rewrite Ec|done]. }
  assert (s ∈ listed (gp_owner p) k) as Hs. { apply current_of_elem in Ec. by apply go_sort_elem_of in Ec. }
  destruct (gi_receipt _ _ Hi s Hs) as (x&Hx&_), (gi_owned _ _ Hi s Hs) as [_ Hne]. rewrite Hx. cbn. intros [= <- <-].
  pose proof (same_view_intact p k k1 Hv Hi) as Hi1. split_and!; [by destruct Hi1| |done].
  assert (s ∈ listed (gp_owner p) k1) as Hs1. { destruct Hv as [Hv _]. unfold objects in Hv. injection Hv as Hv _ _ _ _. unfold listed in *. by rewrite Hv. }
  unfold receipt_in_place. rewrite set_current_view; [done|apply Hi1|done|done].
Qed.

(** What [Publish] writes is what [CurrentReceipt] finds. *)
Lemma receipt_of_content a c ck s : made_validated a → Validated_Receipt a = Some c → configDataKey (profile (candidate a)) = Some ck →
  datum s ck = content (candidate a) → datum s ReceiptDataKey = c → generationReceipt s = Some c ∧ good_receipt c ∧ ProtectedReceipt a = Some c.
Proof.
  intros Hm Hr Hk Hc Hd. destruct (receipt_of_made a Hm) as (r&Hr'&Hp&Hg). rewrite Hr in Hr'. injection Hr' as <-.
  assert (RestoreReceipt c = Some c) as Hres by (unfold Validated_Receipt in Hr; by rewrite Hp in Hr).
  split_and!; [|done|done]. pose proof (receipt_matches a c Hm Hp) as Hmatch.
  unfold generationReceipt. cbn [generation_receipt]. unfold configDataKey in Hk. rewrite Hd.
  destruct (engine (profile (candidate a))); [done| |]; injection Hk as <-; rewrite Hc, Hmatch; [done|by case_match].
Qed.
Lemma generation_labels g prof tok ck c rc u pw : matches (generation_selector g) (s_labels (generation_secret g prof tok ck c rc u pw)) = true.
Proof. apply forallb_forall. intros kv [<-|[<-|[<-|[]]]]; by apply bool_decide_true. Qed.

(** One more generation: the current one stays, or is the new one. *)
Lemma last_sorted k l x : NoDup (names k) → (∀ s, s ∈ l → s ∈ k_secrets k) → last (go_sort newer_cmp l) = Some x →
  x ∈ l ∧ ∀ y, y ∈ l → cmp_le newer_cmp y x.
Proof.
  intros Hn Hl E. apply last_Some in E as [l' E]. pose proof (go_sort_sorted newer_cmp l) as Hs. rewrite E in Hs.
  apply StronglySorted_app in Hs as (H1&_&_). assert (∀ z, z ∈ l ↔ z ∈ l' ++ [x]) as Hz by (intros z; by rewrite <-E, go_sort_elem_of).
  split; [apply Hz; set_solver|]. intros y Hy%Hz. apply elem_of_app in Hy as [Hy|Hy%list_elem_of_singleton]; [by apply H1; [|left]|].
  subst y. unfold cmp_le. by rewrite (cmp_refl newer_cmp).
Qed.
Lemma current_of_more k l l' s req : NoDup (names k) → (∀ x, x ∈ l' → x ∈ k_secrets k) → (∀ x, x ∈ l' ↔ x ∈ l ∨ x = s) →
  current_of req (go_sort newer_cmp l') = current_of req (go_sort newer_cmp l) ∨ current_of req (go_sort newer_cmp l') = Some s.
Proof.
  intros Hn Hl' Hin. assert (∀ x, x ∈ l → x ∈ k_secrets k) as Hl by (intros x Hx; apply Hl', Hin; by left).
  assert (∀ x, x ∈ l → req ≠ "" → s_name x = req → current_of req (go_sort newer_cmp l') = current_of req (go_sort newer_cmp l)) as Hfound.
  { intros x Hx Hne <-. rewrite !(current_of_name k _ x); try done; try (intros z Hz%go_sort_elem_of; auto); apply go_sort_elem_of; [done|]. apply Hin. by left. }
  destruct (current_of req (go_sort newer_cmp l')) as [x|] eqn:E.
  2: { left. unfold current_of in E |- *. destruct (List.find _ _); [done|]. apply last_None in E.
       assert (l = []) as ->; [|by destruct (bool_decide _)]. destruct l as [|z l0]; [done|].
       assert (z ∈ go_sort newer_cmp l') as Hz by (apply go_sort_elem_of, Hin; left; left). rewrite E in Hz. set_solver. }
  destruct (decide (x = s)) as [-> |Hxs]; [by right|left].
  assert (x ∈ l) as Hx. { apply current_of_elem, go_sort_elem_of, Hin in E as [?|?]; done. }
  unfold current_of in E. destruct (List.find _ _) as [y|] eqn:Ef.
  - injection E as ->. apply List.find_some in Ef as [Hy Ey]. bool_to_prop. case_bool_decide as Hr; [by destruct Hy|].
    exact (Hfound x Hx Hr Ey).
  - unfold current_of. destruct (List.find _ (if bool_decide (req = "") then [] else go_sort newer_cmp l)) as [y|] eqn:Ef2.
    + apply List.find_some in Ef2 as [Hy Ey]. bool_to_prop. case_bool_decide as Hr; [by destruct Hy|]. exfalso.
      apply list_elem_of_In, go_sort_elem_of in Hy. assert (y ∈ go_sort newer_cmp l') as Hy' by (apply go_sort_elem_of, Hin; by left).
      apply list_elem_of_In in Hy'. apply (List.find_none _ _ Ef) in Hy'. by rewrite bool_decide_true in Hy'.
    + destruct (last_sorted k l' x Hn Hl' E) as [_ Hmax]. destruct (last (go_sort newer_cmp l)) as [y|] eqn:El.
      * destruct (last_sorted k l y Hn Hl El) as [Hy Hy']. f_equal. pose proof (Hy' x Hx) as H1. pose proof (Hmax y ltac:(apply Hin; by left)) as H2.
        apply (newer_no_ties k l Hn Hl); [done|done|]. unfold cmp_le in *. destruct (newer_cmp x y) eqn:Exy; [done| |by destruct H1].
        exfalso. apply H2. by apply (cmp_gt_lt newer_cmp).
      * apply last_None in El. apply (go_sort_elem_of newer_cmp) in Hx. rewrite El in Hx. set_solver.
Qed.

(** A generation created beside the others. *)
Record fresh_generation (p : GenerationPublisher) (c : string) (k k' : kcluster) (s : Secret) : Prop := {
  fg_added : k_secrets k' = k_secrets k ++ [s];
  fg_new : s_name s ∉ names k ∧ s_name s ≠ "";
  fg_labels : matches (generation_selector (gp_owner p)) (s_labels s) = true;
  fg_owned : generation_owned (gp_owner p) s = true;
  fg_receipt : generationReceipt s = Some c ∧ good_receipt c;
}.
Lemma fresh_listed p c k k' s : fresh_generation p c k k' s → ∀ x, x ∈ listed (gp_owner p) k' ↔ x ∈ listed (gp_owner p) k ∨ x = s.
Proof.
  intros [Ha _ Hl _ _] x. unfold listed. rewrite Ha, List.filter_app. cbn [List.filter]. rewrite Hl, elem_of_app, list_elem_of_singleton. done.
Qed.
Lemma fresh_intact p c k k' s : generations_intact p k → fresh_generation p c k k' s → generations_intact p k'.
Proof.
  intros [H1 H2 H3] Hf. pose proof (fresh_listed _ _ _ _ _ Hf) as Hin. destruct Hf as [Ha [Hn Hne] Hl Ho Hr]. split.
  - unfold names in *. rewrite Ha, fmap_app. apply NoDup_app. split_and!; [done|set_solver|apply NoDup_singleton].
  - intros x [Hx| ->]%Hin; [by apply H2|done].
  - intros x [Hx| ->]%Hin; [by apply H3|]. by exists c.
Qed.
Lemma fresh_receipt p c k k' s : generations_intact p k → fresh_generation p c k k' s → currentName k' = currentName k →
  receipt_in_place p k' = receipt_in_place p k ∨ receipt_in_place p k' = Some c.
Proof.
  intros Hi Hf Hc. pose proof (fresh_intact _ _ _ _ _ Hi Hf) as Hi'. pose proof (fresh_listed _ _ _ _ _ Hf) as Hin.
  unfold receipt_in_place, current_generation. assert (requested_name p k' = requested_name p k) as -> by (unfold requested_name; by rewrite Hc).
  destruct (current_of_more k' (listed (gp_owner p) k) (listed (gp_owner p) k') s (requested_name p k)) as [-> | ->];
    [apply Hi'|intros x; apply listed_secrets|done|by left|right]. apply (fg_receipt _ _ _ _ _ Hf).
Qed.
Lemma with_current_intact p n k : generations_intact p k → generations_intact p (with_current n k).
Proof. by intros []. Qed.
Lemma listed_current p s k : generations_intact p k → s ∈ listed (gp_owner p) k → receipt_in_place p (with_current (s_name s) k) = generationReceipt s.
Proof.
  intros Hi Hs. unfold receipt_in_place. rewrite set_current_view; [done|apply Hi|done|by apply (gi_owned _ _ Hi)].
Qed.
Lemma random_view n k r k' : read_random n k = (r, k') → same_view k k' ∧ ∃ x, r = Ok x.
Proof. unfold read_random. destruct (k_random k) as [|[]]; intros [= <- <-]; (split; [done|]); by eexists. Qed.
Lemma create_secret_spec s k r k' : create_secret s k = (r, k') → ∃ x, r = Ok x ∧ currentName k' = currentName k ∧
  (same_view k k' ∧ (∀ t, x ≠ Created t) ∨
   s_name s ∉ names k ∧ k_secrets k' = k_secrets k ++ [stamp s k] ∧ (x = CreateFailed ∨ x = Created (stamp s k))).
Proof.
  unfold create_secret. destruct (find_secret (s_name s) k) as [s0|] eqn:E.
  - destruct (next_event k) as [e k1] eqn:En. apply next_event_objects in En as (En&_&_&Ec).
    destruct e; intros [= <- <-]; eexists; (split; [reflexivity|]); (split; [done|]); left; by split.
  - apply find_secret_None in E. rewrite K_bind_eq. destruct (write _ k) as [b k1] eqn:Ew.
    apply write_spec in Ew as (k2&ok&->&E1&E2&_&E4&Hk). intros [= <- <-]. eexists. split; [reflexivity|].
    destruct Hk as [-> |[-> ->]].
    + unfold objects in E1. injection E1 as E1 _ _ _ _. cbn. split; [done|]. right. split_and!; [done|unfold stamp; by rewrite E1, E2|].
      destruct ok; auto.
    + split; [done|]. left. by split.
Qed.
Lemma generation_name g tok : managedResourceName g "gen" +:+ "-" +:+ tok ≠ "".
Proof.
  intros E%(f_equal String.length). rewrite !slen_app in E. cbn in E. lia.
Qed.
Lemma create_generation_spec p a c ck u pw k r k' : generations_intact p k → made_validated a → Validated_Receipt a = Some c →
  configDataKey (profile (candidate a)) = Some ck →
  create_generation p (profile (candidate a)) ck (content (candidate a)) c u pw k = (r, k') →
  generations_intact p k' ∧
  match r with
  | Ok _ => receipt_in_place p k' = Some c
  | Err e => receipt_in_place p k' = receipt_in_place p k ∨ runtime_uncertain e = true ∧ receipt_in_place p k' = Some c
  end.
Proof.
  intros Hi Hm Hr Hk. unfold create_generation. rewrite K_bind_eq. destruct (read_random 10 k) as [b k1] eqn:E.
  apply random_view in E as [Hv [x ->]]. assert (generations_intact p k1) as Hi1 by by eapply same_view_intact.
  rewrite <-(same_view_receipt p k k1 Hv). destruct x as [x|]; [|intros [= <- <-]; auto]. cbv zeta.
  destruct (gp_scheme p); cbn [controlled]; [|intros [= <- <-]; auto].
  set (s := generation_secret _ _ _ _ _ _ _ _). rewrite K_bind_eq. destruct (create_secret s k1) as [y k2] eqn:E.
  apply create_secret_spec in E as (z&->&Hcn&[[Hv2 Hz]|(Hnew&Hadd&Hz)]).
  - assert (generations_intact p k2) as Hi2 by by eapply same_view_intact. rewrite <-(same_view_receipt p k1 k2 Hv2).
    destruct z as [t| |]; [by destruct (Hz t)| |]; intros [= <- <-]; auto.
  - assert (fresh_generation p c k1 k2 (stamp s k1)) as Hf.
    { destruct (receipt_of_content a c ck (stamp s k1) Hm Hr Hk) as (H1&H2&_).
      - unfold configDataKey in Hk. by destruct (engine (profile (candidate a))); [|injection Hk as <-..].
      - unfold configDataKey in Hk. by destruct (engine (profile (candidate a))); [|injection Hk as <-..].
      - split; [done|split; [done|apply generation_name]|apply generation_labels| |done]. unfold generation_owned, immutable.
        apply andb_true_intro; split; [|by apply bool_decide_true]. apply andb_true_intro; split; [apply gateway_reference_own|by apply bool_decide_true]. }
    pose proof (fresh_intact _ _ _ _ _ Hi1 Hf) as Hi2. destruct Hz as [-> | ->].
    + intros [= <- <-]. split; [done|]. destruct (fresh_receipt p c k1 k2 _ Hi1 Hf Hcn) as [-> |]; [by left|by right].
    + intros [= <- <-]. split; [by apply with_current_intact|].
      trans (generationReceipt (stamp s k1)); [|apply (fg_receipt _ _ _ _ _ Hf)]. apply (listed_current p (stamp s k1) k2 Hi2).
      apply (fresh_listed _ _ _ _ _ Hf). by right.
Qed.
Lemma same_generation_data ck c rc u pw s : same_generation ck c rc u pw s = true → datum s ck = c ∧ datum s ReceiptDataKey = rc.
Proof. unfold same_generation. intros H'. bool_to_prop. naive_solver. Qed.
Lemma get_view n k r k' : get_secret n k = (r, k') → same_view k k' ∧ ∃ x, r = Ok x.
Proof.
  unfold get_secret. intros (E1&_&_&E4&x&->&_)%read_spec; [|apply find_secret_objects]. split; [by split|by eexists].
Qed.
Lemma Publish_spec p a c k r k' : generations_intact p k → made_validated a → Validated_Receipt a = Some c → Publish p a k = (r, k') →
  generations_intact p k' ∧
  match r with
  | Ok _ => receipt_in_place p k' = Some c
  | Err e => receipt_in_place p k' = receipt_in_place p k ∨ runtime_uncertain e = true ∧ receipt_in_place p k' = Some c
  end.
Proof.
  intros Hi Hm Hr. destruct (receipt_of_made a Hm) as (c'&Hc'&Hp&_). rewrite Hr in Hc'. injection Hc' as <-.
  unfold Publish. rewrite Hp. destruct (gp_guard p) as [guard|]; [|intros [= <- <-]; auto].
  destruct (negb _); [intros [= <- <-]; auto|]. destruct (configDataKey _) as [ck|] eqn:Hk; [|intros [= <- <-]; auto].
  destruct (bool_decide _); [intros [= <- <-]; auto|]. rewrite K_bind_eq. destruct (get_secret _ k) as [b k1] eqn:E.
  apply get_view in E as [Hv [auth ->]]. assert (generations_intact p k1) as Hi1 by by eapply same_view_intact.
  rewrite <-(same_view_receipt p k k1 Hv). destruct auth as [s| |]; [|intros [= <- <-]; auto..].
  destruct (_ || _); [intros [= <- <-]; auto|]. cbv zeta. destruct (_ <? _); [intros [= <- <-]; auto|].
  rewrite K_bind_eq. destruct (generations (gp_owner p) k1) as [[l|e] k2] eqn:E; apply generations_spec in E as (Hv2&_&Hl);
    (assert (generations_intact p k2) as Hi2 by by eapply same_view_intact); rewrite <-(same_view_receipt p k1 k2 Hv2); [|intros [= <- <-]; auto].
  specialize (Hl _ eq_refl). destruct (List.find _ l) as [t|] eqn:Ef; [|by eapply create_generation_spec].
  apply List.find_some in Ef as [Hin Hs]. apply same_generation_data in Hs as [H1 H2].
  destruct (receipt_of_content a c ck t Hm Hr Hk H1 H2) as (Ht&_). intros [= <- <-]. split; [by apply with_current_intact|].
  rewrite listed_current; [done|done|]. apply list_elem_of_In in Hin. subst l. apply go_sort_elem_of in Hin.
  destruct Hv2 as [Hv2 _]. unfold objects in Hv2. injection Hv2 as Hv2 _ _ _ _. unfold listed in *. by rewrite Hv2.
Qed.

#[export] Instance generation_publisher p : Publisher kcluster runtime_error.
Proof.
  refine {| current_receipt := CurrentReceipt p; publish_artifact := Publish p; uncertain := runtime_uncertain;
            in_place := receipt_in_place p; owned := generations_intact p |}.
  - intros k c Hi Hc. unfold receipt_in_place in Hc. apply bind_Some in Hc as (s&Hs&Hc). apply current_of_elem, go_sort_elem_of in Hs.
    destruct (gi_receipt _ _ Hi s Hs) as (r&Hr&Hg). rewrite Hc in Hr. by injection Hr as <-.
  - apply CurrentReceipt_spec.
  - intros a c k r k'. apply Publish_spec.
Defined.

(** C15: The generation publisher keeps the contract of a publisher, whichever
    requests fail and whether failed writes were applied: a publication that
    succeeds, by creating a generation or by finding an equal one, leaves its
    receipt in place as a later read confirms; one that fails leaves the
    previous receipt, or its own when the error reports an uncertain write;
    and every generation stays owned, immutable and with a receipt that
    authenticates its content. *)
Theorem generation_publication_contract p a c k r k' o k'' : generations_intact p k → made_validated a → Validated_Receipt a = Some c →
  Publish p a k = (r, k') → CurrentReceipt p k' = (Ok o, k'') →
  generations_intact p k'' ∧
  match r with
  | Ok _ => o = Some c
  | Err e => o = receipt_in_place p k ∨ runtime_uncertain e = true ∧ o = Some c
  end.
Proof.
  intros Hi Hm Hr Hp Hc. destruct (Publish_spec _ _ _ _ _ _ Hi Hm Hr Hp) as [Hi' Hres].
  destruct (CurrentReceipt_spec _ _ _ _ Hi' Hc) as (Hi2&_&->). by split.
Qed.
End publisher.


(** ** Client credentials *)

Section authentication.
Context `{Digest, ReceiptCodec}.

(** A Secret with the credentials clients use, as the runtime makes it. *)
Record client_secret (g : EgressGateway) (username password : string) (s : Secret) : Prop := {
  cs_name : s_name s = managedResourceName g "client-auth";
  cs_owned : own g (s_controller s);
  cs_shape : s_type s = BasicAuthSecretType ∧ immutable s = true ∧ length (entries (s_data s)) = 2%nat;
  cs_data : datum s "username" = username ∧ datum s "password" = password;
}.
(** A generation that carries usable credentials. *)
Definition carries (g : EgressGateway) (username password : string) (s : Secret) : Prop :=
  own g (s_controller s) ∧ s_type s = EngineSecretType ∧ datum s ClientUsernameDataKey = username ∧ datum s ClientPasswordDataKey = password.
(** Where the gateway's credentials are: in the Secret of the clients, or,
    when that is gone, in the active generation. *)
Definition recorded (g : EgressGateway) (k : kcluster) (username password : string) : Prop :=
  match find_secret (managedResourceName g "client-auth") k with
  | Some s => client_secret g username password s
  | None => ActiveGeneration (gw_status g) ≠ "" ∧ ∃ s, find_secret (ActiveGeneration (gw_status g)) k = Some s ∧ carries g username password s
  end.
Definition client_listener (username password : string) : Listener :=
  {| laddress := Some (IPv4 0); lport := ManagedSOCKSPort; lmode := listenerManaged; user := username; pass := password |}.
Lemma credentials_listener u pw : credentials_ok u pw = true → NewManagedSOCKSListener ManagedSOCKSPort u pw = Ok (client_listener u pw).
Proof. unfold credentials_ok, NewManagedSOCKSListener. cbn. destruct (negb _); [done|]. by destruct (negb _). Qed.

(** Requests that all succeed. *)
Lemma read_answered {A} (f : kcluster → option A) k : k_answers k = [] → read f k = (Ok (match f k with Some a => Found a | None => NotFound end), k).
Proof. intros E. unfold read, next_event. by rewrite E. Qed.
Lemma create_answered s k : k_answers k = [] → find_secret (s_name s) k = None →
  create_secret s k = (Ok (Created (stamp s k)), with_secrets (k_secrets k ++ [stamp s k]) k).
Proof. intros E Hf. unfold create_secret. rewrite Hf, K_bind_eq. unfold write, next_event. by rewrite E. Qed.
Lemma find_created s k : find_secret (s_name s) k = None → find_secret (s_name s) (with_secrets (k_secrets k ++ [s]) k) = Some s.
Proof.
  unfold find_secret. cbn [k_secrets with_secrets]. induction (k_secrets k) as [|x l IH]; cbn; [by rewrite bool_decide_true|].
  case_bool_decide; [done|]. apply IH.
Qed.
Lemma recover_active g k u pw s : k_answers k = [] → ActiveGeneration (gw_status g) ≠ "" →
  find_secret (ActiveGeneration (gw_status g)) k = Some s → carries g u pw s → credentials_ok u pw = true →
  recoverAuthentication g k = (Ok (Some (u, pw)), k).
Proof.
  intros Ha Hne Hf (Ho&Ht&<-&<-) Hc. unfold recoverAuthentication. cbn [recover_from]. rewrite bool_decide_false by done.
  rewrite K_bind_eq. unfold get_secret. rewrite read_answered, Hf by done. cbn. by rewrite Ho, bool_decide_true, Hc.
Qed.
Lemma auth_secret_client g u pw k : client_secret g u pw (stamp (auth_secret g u pw) k).
Proof. split; [done|apply gateway_reference_own|done|done]. Qed.
Lemma ensureAuthentication_kept r g k u pw : k_answers k = [] → mr_scheme r = true → credentials_ok u pw = true → recorded g k u pw →
  ∃ s k', ensureAuthentication r g k = (Ok s, k') ∧ find_secret (managedResourceName g "client-auth") k' = Some s ∧ client_secret g u pw s.
Proof.
  intros Ha Hsch Hc Hrec. unfold ensureAuthentication, recorded in *. rewrite K_bind_eq. unfold get_secret. rewrite read_answered by done.
  destruct (find_secret _ k) as [s|] eqn:E.
  - exists s, k. split; [|done]. destruct Hrec as [_ Ho (Ht&Him&Hl) (<-&<-)].
    rewrite Ho, Him, Ht, Hl, !(bool_decide_false (_ ≠ _)) by auto. cbn [negb orb check]. rewrite !K_bind_eq. cbn. by rewrite Hc.
  - destruct Hrec as (Hne&s&Hs&Hcar). rewrite K_bind_eq, (recover_active g k u pw s), Hsch by done.
    rewrite K_bind_eq. cbn [mret K_ret controlled]. rewrite K_bind_eq. change (managedResourceName g "client-auth") with (s_name (stamp (auth_secret g u pw) k)) in *.
    rewrite create_answered by done. eexists _, _. split; [reflexivity|]. split; [by apply find_created|apply auth_secret_client].
Qed.
(** C28: Client credentials are stable.  While requests succeed, the listener
    prepared for a gateway has the credentials its Secret for clients holds,
    and when that Secret was deleted it is made again with the credentials
    of the active generation: never new ones, so what clients use is what
    the running engine accepts. *)
Theorem credentials_stable r g k u pw : k_answers k = [] → mr_scheme r = true → IsManaged g = true → credentials_ok u pw = true → recorded g k u pw →
  ∃ s k', Prepare r g k = (Ok (client_listener u pw, {| nn_namespace := gw_namespace g; nn_name := s_name s |},
                              {| rr_uid := s_uid s; rr_resourceVersion := s_resourceVersion s |}), k') ∧
    find_secret (managedResourceName g "client-auth") k' = Some s ∧ client_secret g u pw s.
Proof.
  intros Ha Hsch Hm Hc Hrec. destruct (ensureAuthentication_kept r g k u pw Ha Hsch Hc Hrec) as (s&k'&E&Hf&Hs). exists s, k'. split; [|done].
  unfold Prepare. rewrite Hm, K_bind_eq. cbn [check negb mret K_ret]. rewrite K_bind_eq, E. destruct Hs as [_ _ _ (->&->)].
  by rewrite (credentials_listener u pw Hc).
Qed.
End authentication.

(** ** Removal of a gateway *)

Section cleanup.
Context `{Digest, ReceiptCodec}.

(** Nothing appears. *)
Definition shrinks (k k' : kcluster) : Prop :=
  (k_deployment k = None → k_deployment k' = None) ∧ (k_service k = None → k_service k' = None) ∧ (k_policy k = None → k_policy k' = None) ∧
  k_secrets k' ⊆ k_secrets k.
#[export] Instance shrinks_framed : Framed shrinks.
Proof.
  split; [split|]; unfold shrinks; [done|intros ? ? ? (?&?&?&?) (?&?&?&?); split_and!; [auto..|by etrans]|].
  by unfold objects; intros k k' [= -> -> -> -> _].
Qed.
(** Where a deletion succeeded there is nothing. *)
Lemma delete_owned_Ok {A} g (f : kcluster → option A) c del k u k' : (∀ k k', objects k = objects k' → f k = f k') → (∀ k, f (del k) = None) →
  delete_owned g f c del k = (Ok u, k') → f k' = None.
Proof.
  intros Hf Hd. unfold delete_owned. intros (a&k1&E&Hr)%K_bind_Ok. apply (read_spec f k _ _ Hf) in E as (E1&_&_&_&x&[= <-]&Hx).
  destruct a as [y| |]; [| |done].
  - destruct (negb _); [done|]. apply K_bind_Ok in Hr as (b&k2&Hb&[Eb ->]%check_Ok). destruct b; [|done].
    by apply write_Ok in Hb as (k3&->&_).
  - injection Hr as _ <-. destruct Hx as [|Hx]; [done|]. rewrite (Hf k1 k) by done. by destruct (f k).
Qed.
Lemma find_removed n k : find_secret n (remove_secret n k) = None.
Proof.
  destruct (find_secret n (remove_secret n k)) as [s|] eqn:E; [|done]. apply find_secret_Some in E as [Hs En]. cbn in Hs.
  by apply list_elem_of_filter in Hs as [? _].
Qed.
Lemma deleteOwned_shrinks g n : always shrinks (deleteOwned g n).
Proof.
  apply delete_owned_always; [apply find_secret_objects|]. intros k x _ _. split_and!; try done. cbn. intros s [_ ?]%list_elem_of_filter. done.
Qed.
#[local] Hint Resolve deleteOwned_shrinks : managed.
Lemma delete_each_shrinks g keep l : always shrinks (delete_each g keep l).
Proof. induction l as [|s l IH]; cbn [delete_each]; managed. Qed.
Lemma shrinks_absent k k' n : shrinks k k' → find_secret n k = None → find_secret n k' = None.
Proof.
  intros (_&_&_&Hs) Hn. destruct (find_secret n k') as [s|] eqn:E; [|done]. apply find_secret_Some in E as [Hin <-].
  apply find_secret_None in Hn. destruct Hn. unfold names. apply list_elem_of_fmap. eauto.
Qed.
Lemma delete_each_Ok g l k u k' : delete_each g [] l k = (Ok u, k') → ∀ s, s ∈ l → find_secret (s_name s) k' = None.
Proof.
  revert k. induction l as [|x l IH]; intros k E s Hs; [set_solver|]. cbn [delete_each] in E. rewrite bool_decide_false in E by set_solver.
  apply K_bind_Ok in E as (v&k1&E1&E2). apply elem_of_cons in Hs as [-> |Hs]; [|by eapply IH].
  apply delete_owned_Ok in E1; [|apply find_secret_objects|apply find_removed]. eapply shrinks_absent; [|exact E1].
  pose proof (delete_each_shrinks g [] l k1) as Hsh. by rewrite E2 in Hsh.
Qed.
(** Removing a gateway removes everything it ran.  A cleanup that reports
    success leaves no Deployment, Service, NetworkPolicy or client Secret of
    the gateway's names and no generation Secret of the gateway, whatever was
    there before and however often it was interrupted. *)
Theorem cleanup_complete g k k' : Cleanup g k = (Ok (), k') →
  k_deployment k' = None ∧ k_service k' = None ∧ k_policy k' = None ∧ find_secret (managedResourceName g "client-auth") k' = None ∧
  ∀ s, s ∈ k_secrets k' → ¬ generation_of g s.
Proof.
  unfold Cleanup. intros (?&k1&E1&(?&k2&E2&(?&k3&E3&(?&k4&E4&(l&k5&E5&E6)%K_bind_Ok)%K_bind_Ok)%K_bind_Ok)%K_bind_Ok)%K_bind_Ok.
  assert (shrinks k1 k2) as S2.
  { apply (f_equal snd) in E2. cbn in E2. rewrite <-E2. apply delete_owned_always; [by intros ? ? [= _ _ -> _ _]|]. by intros. }
  assert (shrinks k2 k3) as S3.
  { apply (f_equal snd) in E3. cbn in E3. rewrite <-E3. apply delete_owned_always; [by intros ? ? [= _ _ _ -> _]|]. by intros. }
  assert (shrinks k3 k4) as S4 by (apply (f_equal snd) in E4; cbn in E4; rewrite <-E4; apply deleteOwned_shrinks).
  apply delete_owned_Ok in E1; [|by intros ? ? [= _ -> _ _ _]|done]. apply delete_owned_Ok in E2; [|by intros ? ? [= _ _ -> _ _]|done].
  apply delete_owned_Ok in E3; [|by intros ? ? [= _ _ _ -> _]|done]. apply delete_owned_Ok in E4; [|apply find_secret_objects|apply find_removed].
  apply list_secrets_spec in E5 as (E5&ol&[= <-]&Hl). destruct l as [l|]; [|done]. specialize (Hl _ eq_refl).
  assert (shrinks k4 k') as S6.
  { trans k5; [by apply framed_same|]. apply (f_equal snd) in E6. cbn in E6. rewrite <-E6. apply delete_each_shrinks. }
  assert (shrinks k2 k') as S26 by (do 2 (etrans; [eassumption|]); done).
  split_and!; [by apply S26, S2|by apply S26|by apply S6, S4|by apply (shrinks_absent k4)|].
  intros s Hs Hg. pose proof (delete_each_Ok _ _ _ _ _ E6 s) as Hd.
  assert (s ∈ l) as Hin. { subst l. rewrite list_elem_of_In, filter_In, <-list_elem_of_In. split; [by apply S6|done]. }
  apply Hd, find_secret_None in Hin. destruct Hin. unfold names. apply list_elem_of_fmap. eauto.
Qed.
End cleanup.

(** ** A managed gateway *)

Module ManagedSample.
#[local] Existing Instance toy_digest.
#[local] Existing Instance toy_codec.
Definition status (active published : string) : EgressGatewayStatus :=
  {| gs_observedGeneration := 1; gs_profile := "web"; EligibleEndpoints := 1; SelectedEndpoints := 1; LastPublishedTime := None;
     PublishedGeneration := published; ActiveGeneration := active; ServiceName := ""; ClientAuthSecretName := ""; gs_conditions := [] |}.
Definition gateway_with (s : EgressGatewayStatus) : EgressGateway :=
  {| gw_namespace := "apps"; gw_name := "edge"; gw_uid := "uid-1"; gw_generation := 1; gw_resourceVersion := "7"; gw_deleting := false;
     gw_spec := {| PoolRef := "pool"; ProfileRef := "web"; gw_engine := GatewayMihomo; gw_listener := None; OutputSecretName := "";
                   Runtime := Some (Some ()) |}; gw_status := s |}.
Definition gateway : EgressGateway := gateway_with (status "" "").
Definition runtime : ManagedRuntime := {| mr_scheme := true; mr_image := "registry/engine:1" |}.
Definition publisher : GenerationPublisher := {| gp_owner := gateway; gp_scheme := true; gp_guard := Some (λ _, true) |}.
Definition password : string := "0123456789abcdef".
Definition random10 : string := "0123456789".
Definition random32 : string := "ABCDEFGHIJKLMNOPQRSTUVWXYZ012345".
Definition foreign : Secret :=
  {| s_name := "other"; s_uid := "uid-9"; s_resourceVersion := "3"; s_created := 1; s_controller := None;
     s_labels := GoMap [(ManagedByLabel, "egressfox")]; s_type := EngineSecretType; s_immutable := None; s_data := GoMap [] |}.
Definition at_ (created : Z) (s : Secret) : Secret :=
  {| s_name := s_name s; s_uid := "uid-s"; s_resourceVersion := "1"; s_created := created; s_controller := s_controller s; s_labels := s_labels s;
     s_type := s_type s; s_immutable := s_immutable s; s_data := s_data s |}.
Definition auth : Secret := at_ 2 (auth_secret gateway ManagedUsername password).
Definition generation_at (token : string) (created : Z) : Secret :=
  at_ created (generation_secret gateway Mihomo11931 token "config.yaml" "proxies: []" "" ManagedUsername password).
Definition generation_name_of (token : string) : string := s_name (generation_at token 0).
Definition deployed (g : EgressGateway) (token : string) : Deployment :=
  {| d_meta := desired_meta g; d_generation := 1; d_spec := desiredDeployment g (mr_image runtime) (generation_name_of token);
     d_status := {| ds_observedGeneration := 1; UpdatedReplicas := 1; ds_replicas := 1; ReadyReplicas := 1; AvailableReplicas := 1;
                    UnavailableReplicas := 0; ds_conditions := [] |} |}.
Definition cluster (l : list Secret) (d : option Deployment) (random : string) (answers : list api_event) : kcluster :=
  {| k_secrets := l; k_deployment := d; k_service := None; k_policy := None; k_pods := []; k_answers := answers;
     k_random := [Some random]; k_stamp := {| st_clock := 9; st_uid := "uid-n"; st_version := "4" |}; currentName := "" |}.
(** Four generations, the newest of which runs. *)
Definition running : kcluster :=
  cluster [foreign; auth; generation_at "a" 3; generation_at "b" 4; generation_at "c" 5; generation_at "d" 6] (Some (deployed gateway "d")) random10 [].
Lemma running_names : NoDup (names running).
Proof. apply (bool_decide_eq_true_1 _). vm_compute. reflexivity. Qed.

(** The reconciliation activates "d" and removes what is unused. *)
Example running_reconciles :
  (λ x, (s_name <$> k_secrets x.2) = (s_name <$> [foreign; auth; generation_at "c" 5; generation_at "d" 6])) (Reconcile runtime gateway (generation_name_of "d") running).
Proof. vm_compute. reflexivity. Qed.

Lemma managed_touches_only_own_witness :
  foreign ∈ k_secrets (Reconcile runtime gateway (generation_name_of "d") running).2 ∧ foreign ∈ k_secrets (Cleanup gateway running).2.
Proof.
  destruct (managed_touches_only_own runtime gateway (generation_name_of "d") publisher ArtifactSample.validated running eq_refl running_names)
    as (_&_&_&Hr&Hc).
  split; [apply (rs_kept _ _ _ Hr running_names)|apply (rs_kept _ _ _ Hc running_names)]; try by left. all: by intros [=].
Defined.
Lemma runtime_reconcile_safe_witness : ∃ o err k', Reconcile runtime gateway (generation_name_of "d") running = (Ok (o, err), k') ∧
  Activated o = true ∧ reconciled runtime gateway (generation_name_of "d") running o k'.
Proof.
  destruct (runtime_reconcile_safe runtime gateway (generation_name_of "d") running running_names) as (o&err&k'&E&Hr). exists o, err, k'.
  split_and!; [exact E| |exact Hr]. assert ((λ x, match x with Ok (o, _) => Activated o | _ => false end) (Reconcile runtime gateway (generation_name_of "d") running).1 = true) as Ha
    by (vm_compute; reflexivity). rewrite E in Ha. exact Ha.
Defined.

(** A creation that fails after it was applied. *)
Definition interrupted : kcluster := cluster [foreign; auth] None random10 [ApiOk; ApiOk; ApiFailedApplied].
Lemma interrupted_intact : generations_intact publisher interrupted.
Proof.
  assert (listed gateway interrupted = []) as E by (vm_compute; reflexivity). split; [|change (gp_owner publisher) with gateway; rewrite E; intros s Hs; set_solver..].
  apply (bool_decide_eq_true_1 _). vm_compute. reflexivity.
Qed.
Lemma generation_publication_contract_witness : ∃ k1 k2,
  Publish publisher ArtifactSample.validated interrupted = (Err (ManagedRuntimeError "generation_create"), k1) ∧
  CurrentReceipt publisher k1 = (Ok (Validated_Receipt ArtifactSample.validated), k2) ∧ generations_intact publisher k2.
Proof.
  destruct (receipt_of_made ArtifactSample.validated ArtifactSample.validated_made) as (c&Hc&_&_).
  set (k1 := (Publish publisher ArtifactSample.validated interrupted).2). set (k2 := (CurrentReceipt publisher k1).2).
  assert (Publish publisher ArtifactSample.validated interrupted = (Err (ManagedRuntimeError "generation_create"), k1)) as E1 by (vm_compute; reflexivity).
  assert (CurrentReceipt publisher k1 = (Ok (Validated_Receipt ArtifactSample.validated), k2)) as E2 by (vm_compute; reflexivity).
  exists k1, k2. split_and!; [exact E1|exact E2|].
  apply (generation_publication_contract publisher ArtifactSample.validated c interrupted _ k1 _ k2 interrupted_intact ArtifactSample.validated_made Hc E1 E2).
Defined.

(** The Secret of the clients was deleted while generation_at "d" is active. *)
Definition gateway_d : EgressGateway := gateway_with (status (generation_name_of "d") (generation_name_of "d")).
Definition deleted (answers : list api_event) : kcluster := cluster [generation_at "c" 5; generation_at "d" 6] (Some (deployed gateway "d")) random32 answers.
Lemma credentials_stable_witness : ∃ s k',
  find_secret (managedResourceName gateway_d "client-auth") (deleted []) = None ∧
  (Prepare runtime gateway_d (deleted [])).2 = k' ∧
  find_secret (managedResourceName gateway_d "client-auth") k' = Some s ∧ datum s "password" = password.
Proof.
  destruct (credentials_stable runtime gateway_d (deleted []) ManagedUsername password) as (s&k'&E&Hf&Hs);
    [reflexivity|reflexivity|reflexivity|vm_compute; reflexivity|..].
  { assert (find_secret (managedResourceName gateway_d "client-auth") (deleted []) = None) as Hn by (vm_compute; reflexivity).
    unfold recorded. rewrite Hn. split; [by intros [=]|]. exists (generation_at "d" 6). split; [vm_compute; reflexivity|].
    split_and!; vm_compute; reflexivity. }
  exists s, k'. split_and!; [vm_compute; reflexivity|by rewrite E|exact Hf|apply (cs_data _ _ _ _ Hs)].
Defined.
Lemma cleanup_complete_witness : ∃ k', Cleanup gateway running = (Ok (), k') ∧ k_deployment k' = None ∧ ∀ s, s ∈ k_secrets k' → ¬ generation_of gateway s.
Proof.
  set (k' := (Cleanup gateway running).2). assert (Cleanup gateway running = (Ok (), k')) as E by (vm_compute; reflexivity).
  exists k'. destruct (cleanup_complete gateway running k' E) as (H1&_&_&_&H5). split_and!; [exact E|exact H1|exact H5].
Defined.

(** When reading the active generation fails during the repair, the clients
    get a new password while the running engine accepts only the old one. *)
Theorem repair_read_fault_rekeys : ∃ l n v k' s, Prepare runtime gateway_d (deleted [ApiOk; ApiFailed; ApiFailed]) = (Ok (l, n, v), k') ∧
  find_secret (generation_name_of "d") k' = Some s ∧ datum s ClientPasswordDataKey = password ∧ pass l ≠ password.
Proof. do 5 eexists. split; [vm_compute; reflexivity|]. split_and!; [vm_compute; reflexivity..|]. by vm_compute. Qed.
End ManagedSample.
