(* ===== verification/GatewayController.v ===== *)
(** * The gateway controller (internal/controller/egressgateway_controller.go)

    A reconciliation runs the pipeline and, for a managed gateway, the
    runtime, and reports both in the status.  The pipeline is the interface
    [GatewayPipeline], any function of the objects; the runtime is that of
    Managed.v.  The clock is read where the code reads it. *)
From S2P Require Import Prelude Order Bytes Encoding Endpoint Text Artifact Observation Selection Scheduling SnapshotGuard Engine Url Pool Profiles Refresher.
From S2P Require Import SecretPublisher Contracts Managed ManagedFacts Conditions PoolController.
From Stdlib Require Import Ascii.
From Stdlib Require String.
Open Scope Z_scope.

Record GatewayOutcome := {
  Eligible : Z; Selected : Z; RequestedTopN : Z; EffectiveTopN : Z; ProbeOverloaded : bool; SharedCapacityLimited : bool; go_published : bool;
  go_changed : bool; RetainedLKG : bool; go_publishedGeneration : string;
}.
(** An error has a code, is a missing object, or is neither. *)
Inductive controller_error := CodedError (code : string) | NotFoundError | PlainError.
Definition of_runtime (e : runtime_error) : controller_error :=
  CodedError (match e with ManagedRuntimeError code => code | PublicationError e => sp_code e end).

(** ** Reasons *)

Definition selectionShortfall (o : GatewayOutcome) : string * string :=
  if ProbeOverloaded o then
    ("ProbeRoundOverloaded", "the latest maintenance probes outlasted the freshness period; some evidence was stale at evaluation")
  else if SharedCapacityLimited o then
    ("ProbeCapacityShared", "the preferred selection could not be maintained together with the current output and other Gateways' selections; the best maintained endpoints were selected")
  else if RequestedTopN o <=? Selected o then ("SelectionReady", "the bounded selection is ready")
  else if (EffectiveTopN o <? RequestedTopN o) && (EffectiveTopN o <=? Selected o) then
    ("ProbeCapacityLimited", "topN exceeds the endpoints this profile can keep observed; the selection is limited to the maintainable cohort")
  else ("InsufficientEligibleEndpoints", "fewer endpoints than topN have sufficient current evidence").

(** The codes of each reason, in the order of the switch. *)
Definition pipeline_reasons : list (list string * (string * string)) :=
  [(["source_unavailable"; "source_key_missing"; "source_acquire"; "target_unavailable"; "target_key_missing"],
    ("SourceUnavailable", "a referenced source or probe target is unavailable"));
   (["source_rejected"; "snapshot_rejected"; "source_format"; "source_limits"; "source_id"; "target_invalid"; "inventory_empty"],
    ("SourceRejected", "the current source snapshot could not be admitted"));
   (["profile_missing"; "profile_pending"], ("ProfileNotFound", "the referenced profile is not present in the pool"));
   (["profile_invalid"], ("ProfileInvalid", "the pool profile definitions or reference are invalid"));
   (["probe_executor"; "probe_scheduler"; "probe_schedule"], ("ProbeFailed", "bounded probe execution could not complete"));
   (["probe_capacity"], ("ProbeCapacityExceeded", "no maintainable selection fits the shared probe cohort; the previous configuration was retained"));
   (["selection"; "selection_context"], ("SelectionFailed", "the current inventory and evidence could not be selected"));
   (["native_validation"; "checker"], ("NativeValidationFailed", "the candidate did not pass required native engine validation"));
   (["render"; "engine"; "listener"], ("RenderFailed", "the selected configuration could not be rendered"));
   (["publication"; "publisher"; "publication_too_large"], ("PublicationFailed", "the validated artifact could not replace the owned output Secret"));
   (["publication_unconfirmed"], ("PublicationUnconfirmed", "the output may already carry the new artifact, but its receipt or checkpoint was not confirmed; it is resolved from the actual receipt on the next reconciliation"));
   (["publication_conflict"], ("PublicationConflict", "the requested output Secret is not owned by this gateway"));
   (["snapshot_obsolete"], ("SnapshotObsolete", "an input changed while reconciliation was in progress"));
   (["persistence"; "evidence_store"; "reconciler"], ("PersistenceFailed", "protected reconciliation state could not be read or updated"));
   (["authentication_conflict"; "generation_ownership"; "deployment_conflict"; "service_conflict"; "networkpolicy_conflict"; "owned_conflict"],
    ("OwnershipConflict", "a managed runtime object exists but is not owned by this gateway"));
   (["authentication"; "authentication_invalid"; "authentication_read"; "authentication_create"; "authentication_random"],
    ("AuthenticationUnavailable", "managed client authentication could not be prepared"));
   (["image_unconfigured"], ("RuntimeImageUnavailable", "the trusted managed runtime image is not configured"));
   (["managed_runtime"; "generation_list"; "generation_receipt"; "generation_random"; "generation_collision"; "generation_create"; "deployment_read";
     "deployment_create"; "deployment_update"; "service_read"; "service_create"; "service_update"; "networkpolicy_read"; "networkpolicy_create";
     "networkpolicy_update"; "pod_list"; "legacy_list"; "legacy_delete"; "owned_read"; "owned_delete"],
    ("RuntimeReconcileFailed", "the managed runtime could not converge safely"))].
Definition pipeline_failed : string * string := ("PipelineFailed", "the desired configuration could not be validated and published").
Definition pipelineCondition (e : controller_error) : string * string :=
  match e with
  | CodedError code => match List.find (λ x, bool_decide (code ∈ x.1)) pipeline_reasons with Some x => x.2 | None => pipeline_failed end
  | _ => pipeline_failed
  end.

(** ** The status *)

Definition put_profile (p : string) (s : EgressGatewayStatus) : EgressGatewayStatus :=
  {| gs_observedGeneration := gs_observedGeneration s; gs_profile := p; EligibleEndpoints := EligibleEndpoints s; SelectedEndpoints := SelectedEndpoints s;
     LastPublishedTime := LastPublishedTime s; PublishedGeneration := PublishedGeneration s; ActiveGeneration := ActiveGeneration s;
     ServiceName := ServiceName s; ClientAuthSecretName := ClientAuthSecretName s; gs_conditions := gs_conditions s |}.
Definition put_observed (generation eligible selected : Z) (s : EgressGatewayStatus) : EgressGatewayStatus :=
  {| gs_observedGeneration := generation; gs_profile := gs_profile s; EligibleEndpoints := eligible; SelectedEndpoints := selected;
     LastPublishedTime := LastPublishedTime s; PublishedGeneration := PublishedGeneration s; ActiveGeneration := ActiveGeneration s;
     ServiceName := ServiceName s; ClientAuthSecretName := ClientAuthSecretName s; gs_conditions := gs_conditions s |}.
Definition put_published (time : option Z) (published : string) (s : EgressGatewayStatus) : EgressGatewayStatus :=
  {| gs_observedGeneration := gs_observedGeneration s; gs_profile := gs_profile s; EligibleEndpoints := EligibleEndpoints s;
     SelectedEndpoints := SelectedEndpoints s; LastPublishedTime := time; PublishedGeneration := published; ActiveGeneration := ActiveGeneration s;
     ServiceName := ServiceName s; ClientAuthSecretName := ClientAuthSecretName s; gs_conditions := gs_conditions s |}.
Definition put_runtime (published active service auth : string) (s : EgressGatewayStatus) : EgressGatewayStatus :=
  {| gs_observedGeneration := gs_observedGeneration s; gs_profile := gs_profile s; EligibleEndpoints := EligibleEndpoints s;
     SelectedEndpoints := SelectedEndpoints s; LastPublishedTime := LastPublishedTime s; PublishedGeneration := published; ActiveGeneration := active;
     ServiceName := service; ClientAuthSecretName := auth; gs_conditions := gs_conditions s |}.
Definition put_conditions `{StatusConditions} (cs : list Condition) (s : EgressGatewayStatus) : EgressGatewayStatus :=
  {| gs_observedGeneration := gs_observedGeneration s; gs_profile := gs_profile s; EligibleEndpoints := EligibleEndpoints s;
     SelectedEndpoints := SelectedEndpoints s; LastPublishedTime := LastPublishedTime s; PublishedGeneration := PublishedGeneration s;
     ActiveGeneration := ActiveGeneration s; ServiceName := ServiceName s; ClientAuthSecretName := ClientAuthSecretName s;
     gs_conditions := set_conditions (gs_conditions s) cs |}.
#[global] Instance EgressGatewayStatus_eq_dec : EqDecision EgressGatewayStatus.
Proof. solve_decision. Defined.
Definition with_gateway_status (s : EgressGatewayStatus) (g : EgressGateway) : EgressGateway :=
  {| gw_namespace := gw_namespace g; gw_name := gw_name g; gw_uid := gw_uid g; gw_generation := gw_generation g;
     gw_resourceVersion := gw_resourceVersion g; gw_deleting := gw_deleting g; gw_spec := gw_spec g; gw_status := s |}.
Definition or_default (new old : string) : string := if bool_decide (new = "") then old else new.

Section controller.
Context {digest : Digest} {codec : ReceiptCodec} {conditions : StatusConditions}.
Implicit Types (now : nat → Z).

(** The status when the pipeline failed. *)
Definition failed_selection (generation : Z) (e : controller_error) now (s : EgressGatewayStatus) : EgressGatewayStatus :=
  let '(reason, message) := match e with NotFoundError => ("PoolNotFound", "the referenced pool does not exist") | _ => pipelineCondition e end in
  let unconfirmed := bool_decide (reason = "PublicationUnconfirmed") in
  put_conditions
    [condition ConditionSelectionReady ConditionFalse reason "selection for the current desired generation is unavailable" generation (now 0%nat);
     (if unconfirmed
      then condition ConditionConfigurationValid ConditionTrue "NativeValidationPassed" "the exact artifact passed native engine validation" generation (now 1%nat)
      else condition ConditionConfigurationValid ConditionFalse reason message generation (now 1%nat));
     condition ConditionPublished ConditionFalse reason (if unconfirmed then message else "the previous owned configuration, if any, was retained") generation (now 2%nat);
     condition ConditionReady ConditionFalse reason "the desired configuration is not published" generation (now 3%nat)]
    (put_observed generation 0 0 s).
(** The status when nothing was selected. *)
Definition empty_selection (generation : Z) (o : GatewayOutcome) now (s : EgressGatewayStatus) : EgressGatewayStatus :=
  let '(reason, message) := if ProbeOverloaded o || SharedCapacityLimited o then selectionShortfall o
                            else ("NoEligibleEndpoints", "no endpoint has sufficient current evidence") in
  put_conditions
    [condition ConditionSelectionReady ConditionFalse reason message generation (now 0%nat);
     condition ConditionConfigurationValid ConditionUnknown "SelectionNotReady" "no candidate artifact was rendered or validated" generation (now 1%nat);
     condition ConditionPublished ConditionFalse "LastKnownGoodRetained" "no replacement was published" generation (now 2%nat);
     condition ConditionReady ConditionFalse "SelectionNotReady" "the desired selection is empty" generation (now 3%nat)]
    (put_observed generation (wrap32 (Eligible o)) (wrap32 (Selected o)) s).
(** The status when a selection is published. *)
Definition published_selection (managed : bool) (generation : Z) (o : GatewayOutcome) now (s : EgressGatewayStatus) : EgressGatewayStatus :=
  let '(reason, message) := selectionShortfall o in
  let s := put_conditions
    [condition ConditionSelectionReady ConditionTrue reason message generation (now 0%nat);
     condition ConditionConfigurationValid ConditionTrue "NativeValidationPassed" "the exact artifact passed native engine validation" generation (now 1%nat);
     (if managed
      then condition ConditionPublished ConditionTrue "GenerationPublished" "the validated artifact is stored in an owned immutable generation Secret" generation (now 2%nat)
      else condition ConditionPublished ConditionTrue "SecretPublished" "the validated artifact is stored in the owned Secret; runtime activation is unobserved" generation (now 2%nat));
     condition ConditionReady ConditionTrue "DesiredConfigurationPublished" "the desired validated configuration is published" generation (now 3%nat)]
    (put_observed generation (wrap32 (Eligible o)) (wrap32 (Selected o)) s) in
  put_published (if go_changed o || bool_decide (LastPublishedTime s = None) then Some (now 4%nat) else LastPublishedTime s)
    (if managed then go_publishedGeneration o else PublishedGeneration s) s.
Definition pipeline_status (managed : bool) (generation : Z) (r : result controller_error GatewayOutcome) now (s : EgressGatewayStatus) : EgressGatewayStatus :=
  match r with
  | Err e => failed_selection generation e now s
  | Ok o => if Selected o =? 0 then empty_selection generation o now s else published_selection managed generation o now s
  end.

Definition applyManagedStatus (generation : Z) (o : RuntimeOutcome) (pipelineErr runtimeErr : option controller_error) (now : Z)
    (s : EgressGatewayStatus) : EgressGatewayStatus :=
  let s := put_runtime (PublishedGeneration s) (or_default (ro_active o) (ActiveGeneration s)) (or_default (ro_service o) (ServiceName s))
             (or_default (ro_auth o) (ClientAuthSecretName s)) s in
  match runtimeErr with
  | Some e =>
      let reason := (pipelineCondition e).1 in
      put_conditions
        [condition ConditionActivated ConditionFalse reason "the desired managed generation is not activated" generation now;
         condition ConditionRuntimeReady ConditionUnknown reason "managed runtime readiness could not be observed" generation now;
         condition ConditionDegraded ConditionTrue reason "managed runtime reconciliation failed safely" generation now;
         condition ConditionReady ConditionFalse reason "the desired managed runtime is not ready" generation now] s
  | None =>
      let failed := bool_decide (is_Some pipelineErr) in
      let exact := bool_decide (ro_active o = PublishedGeneration s) in
      put_conditions
        [(if failed || bool_decide (PublishedGeneration s = "")
          then condition ConditionActivated ConditionFalse "DesiredGenerationUnavailable" "no current desired managed generation can be activated" generation now
          else if Activated o && exact
          then condition ConditionActivated ConditionTrue "ExactGenerationReady" "the managed process started with the published generation" generation now
          else condition ConditionActivated ConditionFalse (ro_reason o) "the published generation has not completed activation" generation now);
         (if RuntimeReady o
          then condition ConditionRuntimeReady ConditionTrue (ro_reason o)
                 (if Activated o then "the active managed generation accepts authenticated SOCKS connections"
                  else "a previous active generation remains ready while the desired generation is unresolved") generation now
          else condition ConditionRuntimeReady ConditionFalse (ro_reason o) "no managed generation is currently ready" generation now);
         (if ro_degraded o || failed
          then condition ConditionDegraded ConditionTrue (match pipelineErr with Some e => (pipelineCondition e).1 | None => ro_reason o end)
                 "the desired generation is unavailable or failed while the last known good runtime is preserved where possible" generation now
          else condition ConditionDegraded ConditionFalse "RuntimeHealthy" "the desired managed generation has no detected rollout failure" generation now);
         (if negb failed && Activated o && RuntimeReady o && exact
          then condition ConditionReady ConditionTrue "ManagedRuntimeReady" "the desired published generation is active and its authenticated listener is ready" generation now
          else condition ConditionReady ConditionFalse "ManagedRuntimeNotReady" "the desired published generation is not active and ready" generation now)] s
  end.
Definition applyBYOStatus (generation : Z) (cleanupErr : option controller_error) (now : Z) (s : EgressGatewayStatus) : EgressGatewayStatus :=
  let failed := bool_decide (is_Some cleanupErr) in
  let '(reason, message) := if failed then ("ManagedCleanupFailed", "owned managed resources could not be removed safely")
                            else ("BYORuntimeUnobserved", "BYO runtime activation is not observed") in
  let s := put_conditions
    [condition ConditionActivated ConditionUnknown reason message generation now;
     condition ConditionRuntimeReady ConditionUnknown reason "BYO runtime readiness is not observed" generation now;
     condition ConditionDegraded (if failed then ConditionTrue else ConditionFalse) reason message generation now] s in
  if failed then s else put_runtime "" "" "" "" s.

(** ** Reconciliation *)

Definition gatewayRequeue (refresh : Z) (uid : string) : Z := requeueAfter (Z.min (refreshInterval refresh) EvidenceCadence) uid.
(** [GatewayPipeline]. *)
Definition pipeline : Type := EgressGateway → ProxyPool → kcluster → result controller_error GatewayOutcome * kcluster.
Record EgressGatewayReconciler := { er_pipeline : option pipeline; er_runtime : option ManagedRuntime }.

Definition no_outcome : GatewayOutcome :=
  {| Eligible := 0; Selected := 0; RequestedTopN := 0; EffectiveTopN := 0; ProbeOverloaded := false; SharedCapacityLimited := false; go_published := false;
     go_changed := false; RetainedLKG := false; go_publishedGeneration := "" |}.
Definition no_runtime : RuntimeOutcome :=
  {| ro_published := ""; ro_active := ""; ro_service := ""; ro_auth := ""; Activated := false; RuntimeReady := false; ro_degraded := false; ro_reason := "" |}.
Definition run_pipeline (r : EgressGatewayReconciler) (g : EgressGateway) (pool : answer ProxyPool) (k : kcluster) : result controller_error GatewayOutcome * kcluster :=
  match pool with
  | NotFound => (Err NotFoundError, k)
  | ReadFailed => (Err PlainError, k)
  | Found pool => match er_pipeline r with Some run => run g pool k | None => (Ok no_outcome, k) end
  end.
(** The generation to run: the published one, else the current target. *)
Definition target_generation (r : EgressGatewayReconciler) (g : EgressGateway) (o : GatewayOutcome) : K string :=
  if bool_decide (go_publishedGeneration o = "") then
    match er_runtime r with Some _ => TargetGeneration g | None => mret (PublishedGeneration (gw_status g)) end
  else mret (go_publishedGeneration o).
Definition run_managed (r : EgressGatewayReconciler) (g : EgressGateway) (o : GatewayOutcome) (k : kcluster) : RuntimeOutcome * option controller_error * kcluster :=
  match target_generation r g o k with
  | (Ok generation, k) =>
      match er_runtime r with
      | None => (no_runtime, Some PlainError, k)
      | Some rt => match Managed.Reconcile rt g generation k with
                   | (Ok (o, e), k) => (o, of_runtime <$> e, k)
                   | (Err e, k) => (no_runtime, Some (of_runtime e), k)
                   end
      end
  | (Err e, k) => (no_runtime, Some (of_runtime e), k)
  end.
Definition run_cleanup (r : EgressGatewayReconciler) (g : EgressGateway) (p : result controller_error GatewayOutcome) (k : kcluster) : option controller_error * kcluster :=
  match er_runtime r, p with
  | Some _, Ok o => if 0 <? Selected o then match Cleanup g k with (Ok _, k) => (None, k) | (Err e, k) => (Some (of_runtime e), k) end else (None, k)
  | _, _ => (None, k)
  end.
Definition error_of {A} (p : result controller_error A) : option controller_error := match p with Ok _ => None | Err e => Some e end.
(** The status of the gateway [g] after the pipeline and the runtime ran. *)
Definition next_gateway_status (r : EgressGatewayReconciler) (g : EgressGateway) (pool : answer ProxyPool) now (k : kcluster)
    : result controller_error GatewayOutcome * EgressGatewayStatus * kcluster :=
  let '(p, k) := run_pipeline r g pool k in
  let o := match p with Ok o => o | Err _ => no_outcome end in
  let s := gw_status g in
  if IsManaged g then
    let '(ro, e, k) := run_managed r g o k in
    (p, applyManagedStatus (gw_generation g) ro (error_of p) e (now 5%nat) (pipeline_status true (gw_generation g) p now s), k)
  else
    let '(e, k) := run_cleanup r g p k in
    (p, applyBYOStatus (gw_generation g) e (now 5%nat) (pipeline_status false (gw_generation g) p now s), k).
Definition with_profile (g : EgressGateway) : EgressGateway :=
  with_gateway_status (put_profile (or_default (ProfileRef (gw_spec g)) "default") (gw_status g)) g.
Definition obsolete (p : result controller_error GatewayOutcome) : bool :=
  match p with Err (CodedError code) => bool_decide (code = "snapshot_obsolete") | _ => false end.
Definition pool_refresh (pool : answer ProxyPool) : Z := match pool with Found p => durationValue (RefreshInterval p) | _ => 0 end.
Definition Reconcile (r : EgressGatewayReconciler) (gateway : answer EgressGateway) (pool : answer ProxyPool) now (update : update_answer) (k : kcluster)
    : reconcile_answer * option EgressGatewayStatus * kcluster :=
  match gateway with
  | NotFound => (ReconcileGone, None, k)
  | ReadFailed => (ReconcileReadError, None, k)
  | Found g =>
      let '(p, s, k) := next_gateway_status r (with_profile g) pool now k in
      let written := if sameStatus (gw_status g) s then None else Some s in
      let after := RequeueAfter (if obsolete p then 2 * second else gatewayRequeue (pool_refresh pool) (gw_uid g)) in
      (match written, update with Some _, UpdateFailed => (ReconcileUpdateError, written, k) | _, _ => (after, written, k) end)
  end.
End controller.

(** ** Watches *)

Definition gateway_request (g : EgressGateway) : NamespacedName := {| nn_namespace := gw_namespace g; nn_name := gw_name g |}.
Definition gatewaysForPool (gateways : option (list EgressGateway)) (pool : ProxyPool) : list NamespacedName :=
  go_sort request_cmp (gateway_request <$> List.filter (λ g, bool_decide (gw_namespace g = pp_namespace pool) && bool_decide (PoolRef (gw_spec g) = pp_name pool))
    (default [] gateways)).
(** The set of requests of the pools with the Secret, sorted. *)
Definition gatewaysForSecret (pools : option (list ProxyPool)) (gateways : option (list EgressGateway)) (namespace secret : string) : list NamespacedName :=
  go_sort request_cmp (remove_dups (List.filter (λ p, bool_decide (pp_namespace p = namespace) && bool_decide (secret ∈ pool_secrets p)) (default [] pools)
    ≫= gatewaysForPool gateways)).

(** ** What readiness means *)

Section facts.
Context {digest : Digest} {codec : ReceiptCodec} {conditions : StatusConditions}.
Implicit Types (now : nat → Z).

Lemma put_conditions_verdict kind cs s :
  verdict kind (gs_conditions (put_conditions cs s)) = match last_set kind cs with Some c => c_status c | None => verdict kind (gs_conditions s) end.
Proof. apply verdict_eval. Qed.

(** A managed gateway is ready only if the runtime activated what the status records. *)
Definition managed_ready (pipelineErr runtimeErr : option controller_error) (o : RuntimeOutcome) (published : string) : bool :=
  negb (bool_decide (is_Some runtimeErr)) && negb (bool_decide (is_Some pipelineErr)) && Activated o && RuntimeReady o && bool_decide (ro_active o = published).
Lemma managed_ready_verdict generation o pe re (now : Z) s :
  verdict ConditionReady (gs_conditions (applyManagedStatus generation o pe re now s)) =
    if managed_ready pe re o (PublishedGeneration s) then ConditionTrue else ConditionFalse.
Proof.
  unfold applyManagedStatus, managed_ready. destruct re as [e|]; [by rewrite put_conditions_verdict|].
  rewrite put_conditions_verdict. cbn [PublishedGeneration put_runtime]. change (bool_decide (is_Some (@None controller_error))) with false. cbn [negb andb].
  by destruct (negb (bool_decide (is_Some pe))), (Activated o), (RuntimeReady o), (bool_decide (ro_active o = PublishedGeneration s)).
Qed.
Lemma managed_generations generation o pe re (now : Z) s :
  PublishedGeneration (applyManagedStatus generation o pe re now s) = PublishedGeneration s ∧
  ActiveGeneration (applyManagedStatus generation o pe re now s) = or_default (ro_active o) (ActiveGeneration s).
Proof. by destruct re. Qed.
Lemma managed_activated_verdict generation o pe (now : Z) s :
  verdict ConditionActivated (gs_conditions (applyManagedStatus generation o pe None now s)) =
    if negb (bool_decide (is_Some pe)) && negb (bool_decide (PublishedGeneration s = "")) && Activated o && bool_decide (ro_active o = PublishedGeneration s)
    then ConditionTrue else ConditionFalse.
Proof.
  unfold applyManagedStatus. rewrite put_conditions_verdict. cbn [PublishedGeneration put_runtime].
  destruct (bool_decide (is_Some pe)), (bool_decide (PublishedGeneration s = "")), (Activated o), (bool_decide (ro_active o = PublishedGeneration s)),
    (RuntimeReady o), (ro_degraded o); reflexivity.
Qed.
(** A gateway without a runtime of its own. *)
Lemma byo_verdicts generation e (now : Z) s kind : kind ∈ [ConditionReady; ConditionPublished; ConditionSelectionReady] →
  verdict kind (gs_conditions (applyBYOStatus generation e now s)) = verdict kind (gs_conditions s).
Proof.
  intros Hk. unfold applyBYOStatus. destruct (bool_decide (is_Some e)); cbn [gs_conditions put_runtime]; rewrite put_conditions_verdict;
    repeat (apply elem_of_cons in Hk as [-> |Hk]; [reflexivity|]); by apply elem_of_nil in Hk.
Qed.
Lemma pipeline_ready managed generation p now s : verdict ConditionReady (gs_conditions (pipeline_status managed generation p now s)) =
  match p with Ok o => if Selected o =? 0 then ConditionFalse else ConditionTrue | Err _ => ConditionFalse end.
Proof.
  unfold pipeline_status. destruct p as [o|e]; [destruct (Selected o =? 0)|].
  - unfold empty_selection. case_match. by rewrite put_conditions_verdict.
  - unfold published_selection. destruct (selectionShortfall o). cbn [gs_conditions put_published].
    by rewrite put_conditions_verdict.
  - unfold failed_selection. case_match. by rewrite put_conditions_verdict.
Qed.

(** The pipeline keeps the names of Secrets unique, as the API server does. *)
Definition tidy (run : pipeline) : Prop := ∀ g p k, NoDup (names k) → NoDup (names (run g p k).2).
Definition tidy_controller (r : EgressGatewayReconciler) : Prop := ∀ run, er_pipeline r = Some run → tidy run.
Lemma run_pipeline_tidy r g pool k : tidy_controller r → NoDup (names k) → NoDup (names (run_pipeline r g pool k).2).
Proof. intros Hr Hk. unfold run_pipeline. destruct pool; [|done..]. destruct (er_pipeline r) as [run|] eqn:E; [|done]. by apply (Hr run E). Qed.
(** An activated outcome of the runtime, with what then runs. *)
Definition runs (rt : ManagedRuntime) (g : EgressGateway) (generation : string) (k : kcluster) : Prop :=
  ∃ d, k_deployment k = Some d ∧ own g (om_controller (d_meta d)) ∧ d_spec d = desiredDeployment g (mr_image rt) generation ∧ deploymentComplete d generation = true.
Lemma run_managed_runs r g o k ro e k' : NoDup (names k) → run_managed r g o k = (ro, e, k') → Activated ro = true →
  ro_active ro ≠ "" ∧ ∃ rt, er_runtime r = Some rt ∧ runs rt g (ro_active ro) k'.
Proof.
  intros Hn. unfold run_managed. assert (∃ gen k1, target_generation r g o k = (Ok gen, k1) ∧ objects k1 = objects k) as (gen&k1&->&E).
  { unfold target_generation. case_bool_decide; [|by eexists _, _]. destruct (er_runtime r); [apply TargetGeneration_spec|by eexists _, _]. }
  destruct (er_runtime r) as [rt|]; [|by intros [= <- _ _]]. assert (NoDup (names k1)) as Hn1.
  { unfold objects in E. injection E as E _ _ _ _. unfold names. by rewrite E. }
  destruct (Reconcile_reconciled rt g gen k1 Hn1) as (ro'&err&k2&Er&Hrec). rewrite Er. intros [= <- <- <-] Ha.
  destruct (rc_activated _ _ _ _ _ _ Hrec Ha) as (->&_&Hd). split; [|by exists rt].
  intros ->. destruct (Reconcile_nothing rt g k1) as (o2&err2&E2&Hf). rewrite E2 in Er. injection Er as <- _ _. congruence.
Qed.
(** C12: Ready means ready.  When a reconciliation leaves a managed gateway
    ready, the pipeline succeeded, the recorded active and published
    generations are the same, and the cluster runs exactly it: the gateway's
    own Deployment has the spec of that generation, completely rolled out.  A
    gateway without a managed runtime is ready only if the pipeline published
    a selection. *)
Theorem gateway_ready_truthful r g pool now update k ans written k' : tidy_controller r → NoDup (names k) →
  Reconcile r (Found g) pool now update k = (ans, written, k') →
  let s := default (gw_status g) written in
  verdict ConditionReady (gs_conditions s) = ConditionTrue →
  ∃ o, (run_pipeline r (with_profile g) pool k).1 = Ok o ∧
    if IsManaged g then ActiveGeneration s = PublishedGeneration s ∧ PublishedGeneration s ≠ "" ∧ ∃ rt, er_runtime r = Some rt ∧ runs rt g (PublishedGeneration s) k'
    else Selected o ≠ 0.
Proof.
  intros Hr Hn. unfold Reconcile. destruct (next_gateway_status r (with_profile g) pool now k) as [[p s] k1] eqn:E. intros H.
  assert (default (gw_status g) written = s ∧ k' = k1) as [-> ->].
  { unfold sameStatus in H. case_bool_decide; [injection H as _ <- <-; done|]. destruct update; by injection H as _ <- <-. }
  clear H. cbv zeta. revert E. unfold next_gateway_status. pose proof (run_pipeline_tidy r (with_profile g) pool k Hr Hn) as Hn2.
  destruct (run_pipeline r (with_profile g) pool k) as [q k2]. cbn [fst snd] in *. change (IsManaged (with_profile g)) with (IsManaged g).
  destruct (IsManaged g).
  - destruct (run_managed r (with_profile g) _ k2) as [[ro e] k3] eqn:Em. intros [= <- <- <-]. rewrite managed_ready_verdict.
    set (s0 := pipeline_status _ _ _ _ _).
    rewrite !(proj1 (managed_generations _ _ _ _ _ _)), (proj2 (managed_generations _ _ _ _ _ _)).
    destruct (managed_ready _ _ _ _) eqn:Eb; [|by intros [=]]. intros _. unfold managed_ready in Eb. bool_to_prop. 
    destruct q as [o|e0]; [|naive_solver]. exists o. split; [done|].
    destruct (run_managed_runs r (with_profile g) _ k2 ro e k3 Hn2 Em) as (Hne&rt&Hrt&Hd); [naive_solver|].
    assert (ro_active ro = PublishedGeneration s0) as Ep by naive_solver. rewrite Ep in Hne, Hd. split_and!; [|done|by exists rt].
    unfold or_default. rewrite Ep. by rewrite bool_decide_false.
  - destruct (run_cleanup _ _ _ _) as [e k3]. intros [= <- <- <-]. rewrite byo_verdicts by set_solver. rewrite pipeline_ready.
    destruct q as [o|]; [|by intros [=]]. intros Hs. exists o. split; [done|]. intros Hz. rewrite Hz in Hs. done.
Qed.
End facts.

(** ** Requeueing and watches *)

(** Evidence never goes stale for want of a reconciliation.  Whatever the
    refresh interval of the pool and the identity of the gateway, the next
    reconciliation is at least 30 seconds away, and so near that the samples
    a selection needs fit into its evidence window even when every one is
    maximally late. *)
Theorem gateway_requeue_maintains_evidence refresh uid :
  30 * second ≤ gatewayRequeue refresh uid ∧ gatewayRequeue refresh uid * minSamples evidencePolicy ≤ evidenceWindow evidencePolicy.
Proof.
  unfold gatewayRequeue. set (v := Z.min _ _). assert (30 * second ≤ v ≤ EvidenceCadence) as Hv.
  { unfold v. pose proof (refreshInterval_bounds refresh) as Hb. assert (30 * second ≤ EvidenceCadence) by (vm_compute; discriminate). lia. }
  assert (refreshInterval v = v) as E.
  { unfold refreshInterval. destruct (_ || _) eqn:Eo; [|done]. exfalso. assert (EvidenceCadence ≤ 24 * hour) by (vm_compute; discriminate). lia. }
  destruct (requeueAfter_bounds v uid) as [H1 H2]. rewrite E in H1, H2.
  assert (EvidenceCadence * (1000 + RequeueJitterPermille) * minSamples evidencePolicy ≤ evidenceWindow evidencePolicy * 1000) as Hw by (vm_compute; discriminate).
  assert (0 ≤ minSamples evidencePolicy) as Hm by (vm_compute; discriminate). unfold RequeueJitterPermille in *.
  split; [lia|]. assert (v * 1100 ≤ EvidenceCadence * 1100) by lia. nia.
Qed.

Lemma gatewaysForPool_elem gateways pool g : g ∈ gateways → gw_namespace g = pp_namespace pool → PoolRef (gw_spec g) = pp_name pool →
  gateway_request g ∈ gatewaysForPool (Some gateways) pool.
Proof.
  intros Hg Hn Hp. unfold gatewaysForPool. apply go_sort_elem_of, list_elem_of_fmap_2, list_elem_of_In, filter_In. split; [by apply list_elem_of_In|].
  by rewrite !bool_decide_true.
Qed.
(** A Secret of a pool's index asks for the pool and its gateways. *)
Definition noticed (pools : list ProxyPool) (gateways : list EgressGateway) (pool : ProxyPool) (namespace secret : string) : Prop :=
  pool_request pool ∈ poolsForSecret (Some pools) namespace secret ∧
  ∀ g, g ∈ gateways → gw_namespace g = pp_namespace pool → PoolRef (gw_spec g) = pp_name pool →
    gateway_request g ∈ gatewaysForSecret (Some pools) (Some gateways) namespace secret.
Lemma indexed_noticed pools gateways pool secret : pool ∈ pools → secret ∈ pool_secrets pool → noticed pools gateways pool (pp_namespace pool) secret.
Proof.
  intros Hp Hs. split; [by apply poolsForSecret_elem|]. intros g Hg Hn Hr. unfold gatewaysForSecret.
  apply go_sort_elem_of, elem_of_remove_dups, list_elem_of_bind. exists pool. split; [by apply gatewaysForPool_elem|].
  apply list_elem_of_In, filter_In. split; [by apply list_elem_of_In|]. by rewrite !bool_decide_true.
Qed.
(** C31: No input goes unnoticed.  A change to any Secret that a pool build
    recorded, or that holds the target of a profile of the pool, asks for a
    reconciliation of the pool and of every gateway that names the pool: the
    index of the watches covers every Secret they depend on. *)
Theorem inputs_watched `{Digest, MapOrder, UrlParser} api cache over now pool pools gateways w r w' : pool ∈ pools →
  BuildPoolWithCache api cache over now pool w = (Ok r, w') →
  (∀ n, is_Some (SourceRevisions r !! n) → nn_name n ≠ "" → noticed pools gateways pool (nn_namespace n) (nn_name n)) ∧
  ∀ name spec sel, ResolveProfile pool name = Ok (spec, sel) → ref_name (TargetSecretRef spec) ≠ "" →
    noticed pools gateways pool (pp_namespace pool) (ref_name (TargetSecretRef spec)).
Proof.
  intros Hp Hb. split.
  - intros n Hn Hne. destruct (pool_secrets_cover _ _ _ _ _ _ _ _ Hb n Hn Hne) as [-> Hi]. by apply indexed_noticed.
  - intros name spec sel Hr Hne. apply indexed_noticed; [done|]. by eapply pool_secrets_target.
Qed.

(** ** Concrete gateways *)

Module GatewayControllerSample.
#[local] Existing Instance toy_digest.
#[local] Existing Instance toy_codec.
#[local] Existing Instance plain_conditions.
Definition target : string := ManagedSample.generation_name_of "d".
Definition outcome (selected : Z) : GatewayOutcome :=
  {| Eligible := selected; Selected := selected; RequestedTopN := 1; EffectiveTopN := 1; ProbeOverloaded := false; SharedCapacityLimited := false;
     go_published := 0 <? selected; go_changed := false; RetainedLKG := selected =? 0; go_publishedGeneration := target |}.
Definition controller (p : result controller_error GatewayOutcome) : EgressGatewayReconciler :=
  {| er_pipeline := Some (λ _ _ k, (p, k)); er_runtime := Some ManagedSample.runtime |}.
Definition clock (t : Z) (_ : nat) : Z := t.
(** The gateway whose generation "d" is published and active. *)
Definition serving : EgressGateway := ManagedSample.gateway_with (ManagedSample.status target target).
Definition left (g : EgressGateway) (p : result controller_error GatewayOutcome) (t : Z) (k : kcluster) : EgressGatewayStatus :=
  default (gw_status g) (Reconcile (controller p) (Found g) (Found PoolSample.pool) (clock t) Updated k).1.2.
Definition verdicts (s : EgressGatewayStatus) : list string :=
  (λ kind, verdict kind (gs_conditions s)) <$> [ConditionReady; ConditionPublished; ConditionSelectionReady; ConditionActivated; ConditionRuntimeReady].

Lemma gateway_ready_truthful_witness : ∃ ans written k',
  Reconcile (controller (Ok (outcome 1))) (Found serving) (Found PoolSample.pool) (clock 7) Updated ManagedSample.running = (ans, written, k') ∧
  runs ManagedSample.runtime serving target k'.
Proof.
  destruct (Reconcile (controller (Ok (outcome 1))) (Found serving) (Found PoolSample.pool) (clock 7) Updated ManagedSample.running) as [[ans written] k'] eqn:E.
  exists ans, written, k'. split; [reflexivity|].
  destruct (gateway_ready_truthful (controller (Ok (outcome 1))) serving (Found PoolSample.pool) (clock 7) Updated ManagedSample.running ans written k')
    as (o&_&_&_&rt&[= <-]&Hd); [by intros run [= <-] g p k|exact ManagedSample.running_names|exact E| |].
  - assert (verdict ConditionReady (gs_conditions (left serving (Ok (outcome 1)) 7 ManagedSample.running)) = ConditionTrue) as H by (vm_compute; reflexivity).
    unfold left in H. rewrite E in H. exact H.
  - assert (PublishedGeneration (left serving (Ok (outcome 1)) 7 ManagedSample.running) = target) as H by (vm_compute; reflexivity).
    unfold left in H. rewrite E in H. cbn [fst snd] in H. rewrite H in Hd. exact Hd.
Defined.
Lemma inputs_watched_witness : ∃ r w',
  BuildPoolWithCache PoolSample.api true (λ _, false) (unix_epoch + hour) PoolSample.pool PoolSample.start = (Ok r, w') ∧
  noticed [PoolSample.pool] [serving] PoolSample.pool "ns" "sources".
Proof.
  destruct PoolSample.builds as (r&w'&E&_). exists r, w'. split; [exact E|].
  destruct (inputs_watched PoolSample.api true (λ _, false) (unix_epoch + hour) PoolSample.pool [PoolSample.pool] [serving] PoolSample.start r w') as [_ Ht];
    [by left|exact E|]. apply (Ht "" (Probe PoolSample.pool) (pp_selection PoolSample.pool)); [reflexivity|discriminate].
Defined.

(** With nothing to select, a managed gateway is reported ready although the
    same status says that the selection is empty and nothing is published. *)
Theorem ready_with_empty_selection : verdicts (left serving (Ok (outcome 0)) 7 ManagedSample.running) = ["True"; "False"; "False"; "True"; "True"].
Proof. vm_compute. reflexivity. Qed.
(** Ready is set twice in one reconciliation: while a published generation is
    not yet running, every reconciliation moves its transition time and
    writes the status, although nothing changed. *)
Definition pending_rollout : kcluster :=
  ManagedSample.cluster [ManagedSample.auth; ManagedSample.generation_at "d" 6] None ManagedSample.random10 [].
Definition ready_since (s : EgressGatewayStatus) : option Z := LastTransitionTime <$> find_condition ConditionReady (gs_conditions s).
Theorem ready_time_churns : let s := left serving (Ok (outcome 1)) 7 pending_rollout in let s' := left (with_gateway_status s serving) (Ok (outcome 1)) 8 pending_rollout in
  verdicts s = verdicts s' ∧ hd "" (verdicts s) = ConditionFalse ∧ ready_since s = Some 7 ∧ ready_since s' = Some 8.
Proof. vm_compute. done. Qed.
(** A gateway that left managed mode: its managed status is cleared although
    the pipeline failed, so nothing was published or cleaned up. *)
Definition byo : EgressGateway :=
  {| gw_namespace := "apps"; gw_name := "edge"; gw_uid := "uid-1"; gw_generation := 2; gw_resourceVersion := "8"; gw_deleting := false;
     gw_spec := {| PoolRef := "p"; ProfileRef := ""; gw_engine := GatewayMihomo; gw_listener := None; OutputSecretName := "out"; Runtime := None |};
     gw_status := gw_status serving |}.
Theorem managed_status_cleared_early : let r := Reconcile (controller (Err (CodedError "source_unavailable"))) (Found byo) (Found PoolSample.pool) (clock 7) Updated ManagedSample.running in
  r.2 = ManagedSample.running ∧ is_Some (k_deployment r.2) ∧ PublishedGeneration (gw_status byo) = target ∧
  (PublishedGeneration <$> r.1.2) = Some "" ∧ (ActiveGeneration <$> r.1.2) = Some "".
Proof. split_and!; [vm_compute; reflexivity|by eexists|vm_compute; reflexivity..]. Qed.
End GatewayControllerSample.
