(* ===== verification/Reconcile.v ===== *)
(** * Reconciliation (internal/reconcile/reconcile.go)

    Planning a decision from recorded evidence, then applying it: render,
    validate, stage the decision, publish, read the receipt back, commit.
    The decision store and the publisher are the classes of Contracts.v; the
    scheduling callbacks of a request run over a world of their own.  An
    error carries its stage; causes are told apart only by the code that
    raised them.  A crash before a call leaves what a call that fails without
    effect leaves, so the theorems about failing calls cover crashes. *)
From S2P Require Import Prelude Order Bytes Encoding Identity Provenance Inventory Artifact Observation Selection SelectionFacts Engine Contracts Persistence.
Open Scope Z_scope.

(** ** Requests and results *)

(** [engine.Renderer]. *)
Record Renderer := { renderer_profile : Profile; render : Gateway → option Candidate }.

(** The callbacks of a request, over the scheduler's world [WR]. *)
Record Request (WR : Type) := {
  rq_scope : string; rq_inventory : list Record_; rq_context : Context; rq_selection : Policy; rq_listener : Listener;
  rq_renderer : option Renderer; rq_checker : option (Candidate → string + string); rq_evaluatedAt : Z;
  rq_reserve : option (Decision → WR → bool * WR); rq_maintained : option (Record_ → bool);
  rq_beforeApply : option (list Record_ → WR → WR);
}.
Arguments rq_scope {WR} _. Arguments rq_inventory {WR} _. Arguments rq_context {WR} _. Arguments rq_selection {WR} _.
Arguments rq_listener {WR} _. Arguments rq_renderer {WR} _. Arguments rq_checker {WR} _. Arguments rq_evaluatedAt {WR} _.
Arguments rq_reserve {WR} _. Arguments rq_maintained {WR} _. Arguments rq_beforeApply {WR} _.

Inductive Publication := PublicationNone | PublicationUncertain | PublicationWritten | PublicationConfirmed.
#[global] Instance Publication_eq_dec : EqDecision Publication.
Proof. solve_decision. Defined.

Record Result := {
  rs_decision : option Decision; published : bool; rs_changed : bool; retainedLKG : bool; publication : Publication;
  intended : string; constrained : bool;
}.
Definition zero_result : Result :=
  {| rs_decision := None; published := false; rs_changed := false; retainedLKG := false; publication := PublicationNone;
     intended := ""; constrained := false |}.

(** [History]: it reads the store and changes no stored decision. *)
Class History `{Decisions W E} := {
  summarize : Key → Z → Z → Z → W → result E Summary * W;
  history_law k now window freshness w r w' : intact w → summarize k now window freshness w = (r, w') →
    intact w' ∧ ∀ sc, stored w' sc = stored w sc;
}.

Section reconcile.
Context `{DG : Digest, RC : ReceiptCodec}.
Context {WD ED : Type} `{DS : !Decisions WD ED, HS : !History}.
Context {WP EP : Type} `{PB : !Publisher WP EP}.
Context {WR : Type}.

Record world := { wd : WD; wp : WP; wr : WR }.
Definition set_wd (d : WD) (w : world) : world := {| wd := d; wp := wp w; wr := wr w |}.
Definition set_wp (p : WP) (w : world) : world := {| wd := wd w; wp := p; wr := wr w |}.
Definition set_wr (r : WR) (w : world) : world := {| wd := wd w; wp := wp w; wr := r |}.

(** An outcome: the result, the stage of the error if any, the world. *)
Definition reconcile_outcome : Type := Result * option string * world.

(** ** Planning *)

(** The candidates of [plan]: the evidence of records [maintained] rejects
    is withheld. *)
Fixpoint gather (req : Request WR) (maintained : option (Record_ → bool)) (rs : list Record_) (d : WD)
    : result string (list SCandidate) * WD :=
  match rs with
  | [] => (Ok [], d)
  | r :: rest =>
      let withheld := match maintained with Some m => negb (m r) | None => false end in
      let continue c d :=
        match gather req maintained rest d with (Ok cs, d) => (Ok (c :: cs), d) | (Err e, d) => (Err e, d) end in
      if withheld then continue {| crecord := r; evidence := None |} d else
      match NewConnectionRef (record_identity r) with
      | None => (Err "candidate", d)
      | Some c =>
          let ctx := rq_context req in
          match NewKey c (ctarget ctx) (cvantage ctx) (ckind ctx) (cprofile ctx) with
          | None => (Err "evidence_key", d)
          | Some k =>
              match summarize k (rq_evaluatedAt req) (evidenceWindow (rq_selection req)) (freshness (rq_selection req)) d with
              | (Err _, d) => (Err "evidence_load", d)
              | (Ok s, d) => continue {| crecord := r; evidence := Some s |} d
              end
          end
      end
  end.

Definition plan (req : Request WR) (previous : option State) (maintained : option (Record_ → bool)) (d : WD)
    : result string Decision * WD :=
  match gather req maintained (rq_inventory req) d with
  | (Err e, d) => (Err e, d)
  | (Ok candidates, d) =>
      match Select (rq_scope req) (rq_context req) (rq_selection req) candidates previous (rq_evaluatedAt req) with
      | Ok decision => (Ok decision, d)
      | Err _ => (Err "selection", d)
      end
  end.
Definition Plan (req : Request WR) (previous : option State) (d : WD) : result string Decision * WD :=
  plan req previous None d.

(** ** Applying *)

(** The pure part of [Apply]: the validated artifact of a decision. *)
Definition build (req : Request WR) (d : Decision) : result string (Validated * string) :=
  match Deduplicate (selected d) with
  | Err _ => Err "inventory"
  | Ok inv =>
      match NewGateway inv (rq_listener req) with
      | Err _ => Err "policy"
      | Ok gateway =>
          match rq_renderer req ≫= λ r, render r gateway with
          | None => Err "render"
          | Some candidate =>
              match Artifact.Validate (rq_checker req) candidate with
              | Err _ => Err "validation"
              | Ok validated =>
                  match Validated_Receipt validated with
                  | None => Err "receipt"
                  | Some receipt => Ok (validated, receipt)
                  end
              end
          end
      end
  end.

Definition Apply (req : Request WR) (d : Decision) (w : world) : reconcile_outcome :=
  match build req d with
  | Err stage => (zero_result, Some stage, w)
  | Ok (validated, receipt) =>
      match stage_decision (next d) receipt (rq_evaluatedAt req) (wd w) with
      | (Err _, s) => (zero_result, Some "state_stage", set_wd s w)
      | (Ok _, s) =>
          let w := set_wd s w in
          match publish_artifact validated (wp w) with
          | (Err e, p) =>
              let u := uncertain e in
              ({| rs_decision := Some d; published := false; rs_changed := false; retainedLKG := false;
                  publication := if u then PublicationUncertain else PublicationNone;
                  intended := if u then receipt else ""; constrained := false |}, Some "publication", set_wp p w)
          | (Ok changed, p) =>
              let w := set_wp p w in
              let result pub fin :=
                {| rs_decision := Some d; published := fin; rs_changed := changed; retainedLKG := false; publication := pub;
                   intended := receipt; constrained := false |} in
              match current_receipt (wp w) with
              | (Ok (Some current), p) =>
                  let w := set_wp p w in
                  if negb (Receipt_Equal current receipt) then (result PublicationWritten false, Some "publication_readback", w)
                  else
                    match commit_decision (rq_scope req) current (wd w) with
                    | (Err _, s) => (result PublicationConfirmed false, Some "state_commit", set_wd s w)
                    | (Ok _, s) => (result PublicationConfirmed true, None, set_wd s w)
                    end
              | (_, p) => (result PublicationWritten false, Some "publication_readback", set_wp p w)
              end
          end
      end
  end.

(** ** Reconcile *)

Definition with_constrained (b : bool) (r : Result) : Result :=
  {| rs_decision := rs_decision r; published := published r; rs_changed := rs_changed r; retainedLKG := retainedLKG r;
     publication := publication r; intended := intended r; constrained := b |}.
Definition no_change (d : Decision) (lkg con : bool) : Result :=
  {| rs_decision := Some d; published := false; rs_changed := false; retainedLKG := lkg; publication := PublicationNone;
     intended := ""; constrained := con |}.

(** From [BeforeApply] on. *)
Definition finish (req : Request WR) (d : Decision) (con : bool) (w : world) : reconcile_outcome :=
  let w := match rq_beforeApply req with Some f => set_wr (f (selected d) (wr w)) w | None => w end in
  let '(res, err, w) := Apply req d w in
  (with_constrained (con && bool_decide (err = None)) res, err, w).

Definition Reconcile (req : Request WR) (w : world) : reconcile_outcome :=
  if match rq_renderer req with None => true | Some _ => false end || match rq_checker req with None => true | Some _ => false end ||
     bool_decide (rq_inventory req = []) || is_zero (rq_evaluatedAt req)
  then (zero_result, Some "request", w)
  else if negb (bool_decide (renderer_profile <$> rq_renderer req = Some (cprofile (rq_context req))))
  then (zero_result, Some "profile", w)
  else
    match current_receipt (wp w) with
    | (Err _, p) => (zero_result, Some "publisher_read", set_wp p w)
    | (Ok current, p) =>
        let w := set_wp p w in
        let exists_ := bool_decide (is_Some current) in
        match recover_decision (rq_scope req) current (wd w) with
        | (Err _, s) => (zero_result, Some "state_recover", set_wd s w)
        | (Ok previous, s) =>
            match Plan req previous s with
            | (Err e, s) => (zero_result, Some e, set_wd s w)
            | (Ok d, s) =>
                let w := set_wd s w in
                if bool_decide (selected d = []) then (no_change d exists_ false, None, w) else
                match rq_reserve req with
                | None => finish req d false w
                | Some reserve =>
                    let '(ok, r) := reserve d (wr w) in
                    let w := set_wr r w in
                    if ok then finish req d false w else
                    match rq_maintained req with
                    | None => (zero_result, Some "scheduling", w)
                    | Some m =>
                        match plan req previous (Some m) (wd w) with
                        | (Err e, s) => (zero_result, Some e, set_wd s w)
                        | (Ok d, s) =>
                            let w := set_wd s w in
                            if bool_decide (selected d = []) then (no_change d exists_ true, None, w) else
                            let '(ok, r) := reserve d (wr w) in
                            let w := set_wr r w in
                            if ok then finish req d true w else (zero_result, Some "scheduling", w)
                        end
                    end
                end
            end
        end
    end.

(** ** What survives *)

(** The decision a restart would recover: the committed or staged one whose
    receipt is in place. *)
Definition surviving (w : world) (sc : string) : option State := recovered (in_place (wp w)) (stored (wd w) sc).
Definition sound_world (w : world) : Prop := intact (wd w) ∧ owned (wp w).

Lemma recovered_stored current x s : recovered current x = Some s → ∃ c, stored_in (s, c) x.
Proof.
  unfold recovered, decided, settle_slots, stored_in. destruct (pending x) as [[s' c']|] eqn:Ep; simpl.
  - case_bool_decide; simpl.
    + case_bool_decide; [|done]. intros [= <-]. eauto.
    + destruct (committed x) as [[s2 c2]|]; [|done]. simpl. case_bool_decide; [|done]. intros [= <-]. eauto.
  - destruct (committed x) as [[s2 c2]|]; [|done]. simpl. case_bool_decide; [|done]. intros [= <-]. eauto.
Qed.
Lemma recovered_stage current s c x : pending x = None →
  recovered current (stage_slot (s, c) x) = if bool_decide (Some c = current) then Some s else recovered current x.
Proof.
  intros Hp. unfold recovered, decided, settle_slots, stage_slot. rewrite Hp. simpl.
  case_bool_decide as E; simpl; [by rewrite bool_decide_true|done].
Qed.
Lemma recovered_settled current x : recovered current (settle_slots current x) = recovered current x ∧
  pending (settle_slots current x) = None.
Proof.
  unfold recovered, settle_slots. destruct (pending x) as [c|] eqn:Ep; [|by rewrite Ep].
  case_bool_decide; done.
Qed.
Lemma recovered_committed s c : recovered (Some c) {| committed := Some (s, c); pending := None |} = Some s.
Proof. unfold recovered, decided, settle_slots. simpl. by rewrite bool_decide_true. Qed.

(** ** What a request must provide *)

Record request_ok (req : Request WR) : Prop := {
  ok_records : Forall wf_record (rq_inventory req);
  ok_size : Z.of_nat (length (rq_inventory req)) ≤ 10000;
  ok_context : persistable_context (rq_context req);
  ok_policy : fingerprint_zero (policyFingerprint (rq_selection req)) = false;
  ok_time : 0 < rq_evaluatedAt req ∧ persistable_time (rq_evaluatedAt req) ∧
    persistable_time (rq_evaluatedAt req + cooldown (rq_selection req));
  (** renderers return candidates of an ASCII profile made by [NewCandidate] *)
  ok_renderer : ∀ r g c, rq_renderer req = Some r → render r g = Some c →
    plain_profile (profile c) ∧ NewCandidate (profile c) (content c) = Some c;
}.

Lemma gather_spec req m rs d r d' : intact d → gather req m rs d = (r, d') →
  intact d' ∧ (∀ sc, stored d' sc = stored d sc) ∧ ∀ cs, r = Ok cs → crecord <$> cs = rs.
Proof.
  revert d r d'. induction rs as [|x rs IH]; intros d r d' Hi; simpl.
  { intros [= <- <-]. split_and!; [done..|]. by intros cs [= <-]. }
  assert (∀ c d1 r d', crecord c = x → intact d1 → (∀ sc, stored d1 sc = stored d sc) →
    match gather req m rs d1 with (Ok cs, d) => (Ok (c :: cs), d) | (Err e, d) => (Err e, d) end = (r, d') →
    intact d' ∧ (∀ sc, stored d' sc = stored d sc) ∧ ∀ cs, r = Ok cs → crecord <$> cs = x :: rs) as Hcont.
  { intros c d1 r' d2 Hc Hi1 Hs1. destruct (gather req m rs d1) as [r1 d3] eqn:E.
    destruct (IH _ _ _ Hi1 E) as (Hi3&Hs3&Hr). destruct r1 as [cs|e]; intros [= <- <-].
    - split_and!; [done|intros sc; by rewrite Hs3|]. intros cs' [= <-]. csimpl. by rewrite Hc, (Hr cs).
    - split_and!; [done|intros sc; by rewrite Hs3|done]. }
  destruct (match m with Some m => _ | None => _ end); [by apply Hcont|].
  destruct (NewConnectionRef _) as [c|]; [|intros [= <- <-]; by split_and!].
  destruct (NewKey _ _ _ _ _) as [k|]; [|intros [= <- <-]; by split_and!].
  destruct (summarize _ _ _ _ d) as [s d1] eqn:E. apply history_law in E as [Hi1 Hs1]; [|done].
  destruct s as [s|e]; [by apply Hcont|]. intros [= <- <-]. by split_and!.
Qed.

(** [d] is a decision [Select] made over the request's inventory from the
    decision that survives in [w]. *)
Definition planned (req : Request WR) (previous : option State) (d : Decision) : Prop :=
  ∃ cs, crecord <$> cs = rq_inventory req ∧
    Select (rq_scope req) (rq_context req) (rq_selection req) cs previous (rq_evaluatedAt req) = Ok d.

Lemma plan_spec req previous m d r d' : request_ok req → intact d → (∀ s, previous = Some s → persistable s) →
  plan req previous m d = (r, d') →
  intact d' ∧ (∀ sc, stored d' sc = stored d sc) ∧
  ∀ dec, r = Ok dec → persistable (next dec) ∧ scope (next dec) = rq_scope req ∧ planned req previous dec.
Proof.
  intros Hq Hi Hp. unfold plan. destruct (gather req m (rq_inventory req) d) as [[cs|e] d1] eqn:E;
    (apply gather_spec in E as (Hi1&Hs1&Hr); [|done]); [|intros [= <- <-]; by split_and!].
  specialize (Hr cs eq_refl). destruct (Select _ _ _ _ _ _) as [dec|e] eqn:Es; intros [= <- <-]; [|by split_and!].
  split_and!; [done..|]. intros ? [= <-]. split_and!; [| |by exists cs].
  - destruct (ok_time req Hq) as (?&?&?). eapply select_persistable_lemma; [| |apply Hq|apply Hq|done..].
    + pose proof (ok_records req Hq) as Hw. rewrite <-Hr in Hw. by rewrite Forall_fmap in Hw.
    + rewrite <-(length_fmap crecord cs), Hr. apply Hq.
  - apply Select_run in Es as (ev&R&sel&Hrun). by apply (run_next _ _ _ _ _ _ _ _ _ _ Hrun).
Qed.

Lemma build_made req d a c : request_ok req → build req d = Ok (a, c) →
  made_validated a ∧ Validated_Receipt a = Some c ∧ good_receipt c.
Proof.
  intros Hq. unfold build. destruct (Deduplicate _); [|done]. destruct (NewGateway _ _); [|done].
  destruct (rq_renderer req) as [rr|] eqn:Er; [|done]. simpl. destruct (render rr _) as [cand|] eqn:Ec; [|done].
  destruct (Artifact.Validate _ _) as [v|] eqn:Ev; [|done]. destruct (Validated_Receipt v) as [rc|] eqn:Erc; [|done].
  intros [= <- <-]. destruct (ok_renderer req Hq _ _ _ Er Ec) as [Hpl Hnc].
  assert (made_validated v) as Hm by by eapply made_by_validate. split_and!; [done..|].
  destruct (receipt_of_made v Hm) as (r&Hr&Hp&Hne). rewrite Hr in Erc. injection Erc as <-. split; [done|].
  unfold Validated_Receipt in Hr. by rewrite Hp in Hr.
Qed.

(** ** Applying a decision *)

(** From world [w], with nothing staged, to [w'] with the decision [d]: the
    artifact in place and the surviving decision are both the old ones, or
    both those of [d]. *)
Definition all_or_nothing (req : Request WR) (d : Decision) (w w' : world) : Prop :=
  in_place (wp w') = in_place (wp w) ∧ surviving w' (rq_scope req) = surviving w (rq_scope req) ∨
  ∃ a c, build req d = Ok (a, c) ∧ in_place (wp w') = Some c ∧ surviving w' (rq_scope req) = Some (next d).
(** What the result says about the write. *)
Definition reported (res : Result) (err : option string) (sc : string) (w w' : world) : Prop :=
  match publication res with
  | PublicationNone => in_place (wp w') = in_place (wp w)
  | PublicationUncertain => in_place (wp w') = in_place (wp w) ∨ in_place (wp w') = Some (intended res)
  | _ => in_place (wp w') = Some (intended res)
  end ∧
  (published res = true → err = None ∧ publication res = PublicationConfirmed ∧
    ∃ d, rs_decision res = Some d ∧ stored (wd w') sc = {| committed := Some (next d, intended res); pending := None |}).

Definition framed (sc : string) (w w' : world) : Prop :=
  sound_world w' ∧ ∀ sc', sc' ≠ sc → stored (wd w') sc' = stored (wd w) sc'.

Lemma untouched req d sc res err w : sound_world w → publication res = PublicationNone → published res = false →
  framed sc w w ∧ all_or_nothing req d w w ∧ reported res err sc w w.
Proof.
  intros Hw Hp Hf. split_and!; [by split|by left|]. unfold reported. rewrite Hp, Hf. done.
Qed.

Lemma staged_either req d a c w w1 : build req d = Ok (a, c) → pending (stored (wd w) (rq_scope req)) = None →
  stored (wd w1) (rq_scope req) = stage_slot (next d, c) (stored (wd w) (rq_scope req)) →
  in_place (wp w1) = in_place (wp w) ∨ in_place (wp w1) = Some c → all_or_nothing req d w w1.
Proof.
  intros Hb Hp Hs [E|E]; unfold all_or_nothing, surviving; rewrite Hs, E, recovered_stage by done.
  - case_bool_decide as Hc; [right|by left]. exists a, c. split_and!; [done|by rewrite <-Hc|done].
  - right. exists a, c. by rewrite bool_decide_true.
Qed.

Lemma Apply_spec req d w res err w' : request_ok req → sound_world w → persistable (next d) →
  scope (next d) = rq_scope req → pending (stored (wd w) (rq_scope req)) = None → Apply req d w = (res, err, w') →
  framed (rq_scope req) w w' ∧ all_or_nothing req d w w' ∧ reported res err (rq_scope req) w w'.
Proof.
  intros Hq [Hi Ho] Hd Hsc Hp. unfold Apply.
  destruct (build req d) as [[a c]|e] eqn:Eb; [|intros [= <- <- <-]; by apply untouched].
  destruct (build_made _ _ _ _ Hq Eb) as (Hm&Hr&Hg).
  destruct (stage_decision _ _ _ _) as [rs s1] eqn:Es. apply stage_law in Es as (Hi1&Hf1&Hs1); [|done..].
  rewrite Hsc in Hf1, Hs1. destruct rs as [[]|e].
  2: { intros [= <- <- <-]. split_and!; [by split|left; unfold surviving; simpl; by rewrite Hs1|by split]. }
  simpl. destruct (publish_artifact a (wp w)) as [rp p1] eqn:Ep. apply (publish_law _ c) in Ep as [Ho1 Hp1]; [|done..].
  destruct rp as [chg|e].
  2: { intros [= <- <- <-]. split_and!; [by split| |].
    - eapply staged_either; [exact Eb|done|done|]. simpl. tauto.
    - split; [|done]. simpl. destruct (uncertain e) eqn:Eu; simpl; [tauto|]. by destruct Hp1 as [|[? _]]. }
  destruct (current_receipt p1) as [rc p2] eqn:Ec. apply current_law in Ec as (Ho2&Hin&Hc); [|done].
  rewrite Hp1 in Hin. assert (framed (rq_scope req) w (set_wp p2 (set_wp p1 (set_wd s1 w))) ∧
    all_or_nothing req d w (set_wp p2 (set_wp p1 (set_wd s1 w)))) as [Hfr Ha].
  { split; [by split|]. eapply staged_either; [exact Eb|done|done|by right]. }
  destruct rc as [[cur|]|e]; [|intros [= <- <- <-]; by split_and!..].
  rewrite Hp1 in Hc. injection Hc as ->.
  destruct (negb _) eqn:Ere; [intros [= <- <- <-]; by split_and!|]. clear Ere. simpl.
  destruct (commit_decision _ c s1) as [rk s2] eqn:Ek. apply commit_law in Ek as (Hi2&Hf2&Hk); [|done..].
  destruct rk as [[]|e]; intros [= <- <- <-].
  - assert (stored s2 (rq_scope req) = {| committed := Some (next d, c); pending := None |}) as E.
    { rewrite Hs1 in Hk. unfold commit_slot, stage_slot in Hk. simpl in Hk. destruct (Receipt_Equal c c); [|done].
      by injection Hk. }
    split_and!; [split; [by split|]; intros sc' Hne; simpl; by rewrite Hf2, Hf1|right; exists a, c; split_and!; [done..|]|].
    + unfold surviving. simpl. by rewrite E, Hin, recovered_committed.
    + split; [done|]. intros _. split_and!; [done..|]. exists d. split; [done|]. simpl. by rewrite E.
  - split_and!; [split; [by split|]; intros sc' Hne; simpl; by rewrite Hf2, Hf1| |by split].
    eapply staged_either; [exact Eb|done|simpl; by rewrite Hk|simpl; by right].
Qed.

(** ** The whole reconciliation *)

(** Worlds that agree on the store's decisions and the publisher. *)
Definition same_decisions (sc : string) (w1 w2 : world) : Prop :=
  in_place (wp w1) = in_place (wp w2) ∧ surviving w1 sc = surviving w2 sc ∧
  ∀ sc', sc' ≠ sc → stored (wd w1) sc' = stored (wd w2) sc'.
Lemma same_transport req d res err w0 w w' : same_decisions (rq_scope req) w w0 →
  framed (rq_scope req) w w' ∧ all_or_nothing req d w w' ∧ reported res err (rq_scope req) w w' →
  framed (rq_scope req) w0 w' ∧ all_or_nothing req d w0 w' ∧ reported res err (rq_scope req) w0 w'.
Proof.
  intros (E1&E2&E3) ([Hs Hf]&Ha&Hr). split_and!.
  - split; [done|]. intros sc' Hne. rewrite Hf by done. by apply E3.
  - unfold all_or_nothing in *. by rewrite <-E1, <-E2.
  - unfold reported in *. by rewrite <-E1.
Qed.

Lemma finish_spec req d con w res err w' : request_ok req → sound_world w → persistable (next d) →
  scope (next d) = rq_scope req → pending (stored (wd w) (rq_scope req)) = None → finish req d con w = (res, err, w') →
  framed (rq_scope req) w w' ∧ all_or_nothing req d w w' ∧ reported res err (rq_scope req) w w'.
Proof.
  intros Hq Hw Hd Hsc Hp. unfold finish. set (w1 := match rq_beforeApply req with Some f => _ | None => _ end).
  assert (wd w1 = wd w ∧ wp w1 = wp w) as [E1 E2] by (unfold w1; by destruct (rq_beforeApply req)).
  destruct (Apply req d w1) as [[res1 err1] w2] eqn:E. intros [= <- <- <-].
  apply Apply_spec in E; [|done|unfold sound_world; by rewrite E1, E2|done..|by rewrite E1].
  apply (same_transport req d _ _ w w1) in E; [|by unfold same_decisions, surviving; rewrite E1, E2]. exact E.
Qed.

Definition unchanged (sc : string) (w w' : world) : Prop :=
  in_place (wp w') = in_place (wp w) ∧ surviving w' sc = surviving w sc.
Definition replaced (req : Request WR) (w w' : world) : Prop := ∃ d a c,
  planned req (surviving w (rq_scope req)) d ∧ build req d = Ok (a, c) ∧ in_place (wp w') = Some c ∧
  surviving w' (rq_scope req) = Some (next d).
Definition good_outcome (req : Request WR) (w : world) (o : reconcile_outcome) : Prop :=
  let '(res, err, w') := o in
  framed (rq_scope req) w w' ∧ (unchanged (rq_scope req) w w' ∨ replaced req w w') ∧ reported res err (rq_scope req) w w'.

Lemma stop_good req res err w w' : sound_world w' → same_decisions (rq_scope req) w' w →
  publication res = PublicationNone → published res = false → good_outcome req w (res, err, w').
Proof.
  intros Hs (E1&E2&E3) Hp Hf. split_and!; [by split|by left|]. unfold reported. rewrite Hp, Hf. by split.
Qed.
Lemma finish_good req d con w0 w : request_ok req → sound_world w → same_decisions (rq_scope req) w w0 →
  persistable (next d) ∧ scope (next d) = rq_scope req ∧ planned req (surviving w0 (rq_scope req)) d →
  pending (stored (wd w) (rq_scope req)) = None → good_outcome req w0 (finish req d con w).
Proof.
  intros Hq Hw Hsame (Hd&Hsc&Hpl) Hp. destruct (finish req d con w) as [[res err] w'] eqn:E.
  apply finish_spec in E; [|done..]. apply (same_transport req d _ _ w0 w) in E as (Hf&Ha&Hr); [|done].
  split_and!; [done| |done]. destruct Ha as [Ha|(a&c&Hb&Hi&Hs)]; [by left|right]. by exists d, a, c.
Qed.

(** Planning changes neither store nor publisher. *)
Lemma plan_world req previous m w r s : request_ok req → sound_world w → (∀ x, previous = Some x → persistable x) →
  plan req previous m (wd w) = (r, s) →
  sound_world (set_wd s w) ∧ (∀ sc, stored s sc = stored (wd w) sc) ∧
  ∀ dec, r = Ok dec → persistable (next dec) ∧ scope (next dec) = rq_scope req ∧ planned req previous dec.
Proof. intros Hq [Hi Ho] Hp E. apply plan_spec in E as (?&?&?); [|done..]. by split_and!. Qed.

Lemma same_stored sc w w0 s : same_decisions sc w w0 → (∀ sc, stored s sc = stored (wd w) sc) →
  same_decisions sc (set_wd s w) w0.
Proof. intros (E1&E2&E3) Hs. unfold same_decisions, surviving in *. simpl. rewrite Hs. split_and!; [done..|]. intros. rewrite Hs. auto. Qed.

(** After the receipt is read and the staged decision settled. *)
Lemma planned_good req current w0 w : request_ok req → sound_world w → same_decisions (rq_scope req) w w0 →
  pending (stored (wd w) (rq_scope req)) = None → (∀ x, surviving w0 (rq_scope req) = Some x → persistable x) →
  good_outcome req w0
    match Plan req (surviving w0 (rq_scope req)) (wd w) with
    | (Err e, s) => (zero_result, Some e, set_wd s w)
    | (Ok d, s) =>
        let w := set_wd s w in
        if bool_decide (selected d = []) then (no_change d current false, None, w) else
        match rq_reserve req with
        | None => finish req d false w
        | Some reserve =>
            let '(ok, r) := reserve d (wr w) in
            let w := set_wr r w in
            if ok then finish req d false w else
            match rq_maintained req with
            | None => (zero_result, Some "scheduling", w)
            | Some m =>
                match plan req (surviving w0 (rq_scope req)) (Some m) (wd w) with
                | (Err e, s) => (zero_result, Some e, set_wd s w)
                | (Ok d, s) =>
                    let w := set_wd s w in
                    if bool_decide (selected d = []) then (no_change d current true, None, w) else
                    let '(ok, r) := reserve d (wr w) in
                    let w := set_wr r w in
                    if ok then finish req d true w else (zero_result, Some "scheduling", w)
                end
            end
        end
    end.
Proof.
  intros Hq Hw Hsame Hp Hprev. unfold Plan. destruct (plan req _ None (wd w)) as [r1 s1] eqn:E1.
  apply plan_world in E1 as (Hw1&Hs1&Hd1); [|done..]. pose proof (same_stored _ _ _ _ Hsame Hs1) as Hsame1.
  destruct r1 as [d|e]; [|by apply stop_good]. specialize (Hd1 d eq_refl). cbv zeta.
  case_bool_decide; [by apply stop_good|]. destruct (rq_reserve req) as [reserve|].
  2: { apply finish_good; [done..|]. simpl. by rewrite Hs1. }
  destruct (reserve d (wr (set_wd s1 w))) as [ok r]. set (w2 := set_wr r (set_wd s1 w)).
  destruct ok; [apply finish_good; [done..|]; simpl; by rewrite Hs1|].
  destruct (rq_maintained req) as [m|]; [|by apply stop_good].
  destruct (plan req _ (Some m) (wd w2)) as [r3 s3] eqn:E3.
  apply plan_world in E3 as (Hw3&Hs3&Hd3); [|done..].
  assert (same_decisions (rq_scope req) (set_wd s3 w2) w0) as Hsame3 by by apply same_stored.
  destruct r3 as [d3|e]; [|by apply stop_good]. specialize (Hd3 d3 eq_refl).
  case_bool_decide; [by apply stop_good|]. destruct (reserve d3 _) as [ok r4].
  destruct ok; [|by apply stop_good]. apply finish_good; [done..|]. simpl. rewrite Hs3. simpl. by rewrite Hs1.
Qed.

Lemma Reconcile_good req w : request_ok req → sound_world w → good_outcome req w (Reconcile req w).
Proof.
  intros Hq [Hi Ho]. unfold Reconcile. destruct (_ || _); [by apply stop_good|].
  destruct (negb _); [by apply stop_good|]. destruct (current_receipt (wp w)) as [rc p] eqn:Ec.
  apply current_law in Ec as (Ho1&Hin&Hc); [|done].
  destruct rc as [current|e]; [|apply stop_good; [done| |done..]; unfold same_decisions, surviving; simpl; by rewrite Hin].
  subst current. cbv zeta. destruct (recover_decision _ _ _) as [rr s] eqn:Er.
  apply recover_law in Er as (Hi1&Hf1&Hr); [|done|by intros c; apply in_place_good].
  assert (same_decisions (rq_scope req) (set_wd s (set_wp p w)) w) as Hsame.
  { unfold same_decisions, surviving. simpl. rewrite Hin. split_and!; [done| |done].
    destruct rr as [o|e]; [destruct Hr as [_ ->]; apply recovered_settled|by rewrite Hr]. }
  destruct rr as [previous|e]; [|by apply stop_good]. destruct Hr as [-> Hs].
  apply (planned_good req _ w (set_wd s (set_wp p w))); [done|by split|done|..].
  - simpl. rewrite Hs. apply recovered_settled.
  - intros x [c Hx]%recovered_stored. by apply (stored_persistable (wd w) (rq_scope req) (x, c)).
Qed.

(** C2: Reconciliation is all or nothing.  Whatever call fails or whenever the process stops, afterwards either the
    published artifact and the decision that recovery would return are those of before, or both are those of one
    decision: the artifact in place is the validated rendering of a selection made from the surviving decision, and
    exactly that decision's state is recovered.  Other scopes and the invariants of both stores are kept. *)
Theorem reconcile_atomic req w res err w' : request_ok req → sound_world w → Reconcile req w = (res, err, w') →
  sound_world w' ∧ (∀ sc, sc ≠ rq_scope req → stored (wd w') sc = stored (wd w) sc) ∧
  (unchanged (rq_scope req) w w' ∨ replaced req w w').
Proof.
  intros Hq Hw E. pose proof (Reconcile_good req w Hq Hw) as Hg. rewrite E in Hg. by destruct Hg as ([? ?]&?&_).
Qed.

(** C9: The reported publication is the truth: none means the artifact in place did not change, written and confirmed
    mean that the intended receipt is in place, uncertain allows only the two; and a result that says published has
    no error, the intended receipt in place, and its decision committed with that receipt and nothing left staged. *)
Theorem reconcile_reports req w res err w' : request_ok req → sound_world w → Reconcile req w = (res, err, w') →
  match publication res with
  | PublicationNone => in_place (wp w') = in_place (wp w)
  | PublicationUncertain => in_place (wp w') = in_place (wp w) ∨ in_place (wp w') = Some (intended res)
  | _ => in_place (wp w') = Some (intended res)
  end ∧
  (published res = true → err = None ∧ publication res = PublicationConfirmed ∧
    ∃ d, rs_decision res = Some d ∧
      stored (wd w') (rq_scope req) = {| committed := Some (next d, intended res); pending := None |}).
Proof.
  intros Hq Hw E. pose proof (Reconcile_good req w Hq Hw) as Hg. rewrite E in Hg. by destruct Hg as (_&_&?).
Qed.
End reconcile.
