(* ===== verification/Composition.v ===== *)
(** * The operator's reconciliation: SQLite history and checkpoints, Secret publisher

    The store is the [History] and the decision store of Reconcile.v, the
    Secret publisher its publisher, so the theorems there hold of the
    operator's composition.  One run is evaluated. *)
From S2P Require Import Prelude Order Bytes Encoding Netip Identity Provenance Inventory Artifact Observation Selection SelectionFacts Engine Render Store Contracts Checkpoint Persistence SecretPublisher Reconcile.
Open Scope Z_scope.

(** Summarizing changes no table. *)
Lemma Summarize_tables `{Digest} k now window freshness w r w' :
  Store_Summarize k now window freshness w = (r, w') → tables w' = tables w.
Proof.
  assert (∀ {A} code (f : db → A) w r w', query code f w = (r, w') → tables w' = tables w) as Hq.
  { intros A code f v r0 v'. unfold query, statement. destruct (events v) as [|[|ctx] s]; by intros [= <- <-]. }
  assert (∀ k from through w r w', Load k from through w = (r, w') → tables w' = tables w) as Hl.
  { intros k0 from through v r0 v'. unfold Load. destruct (_ || _); [by intros [= <- <-]|].
    destruct (persistenceFields k0) as [f|]; [|by intros [= <- <-]].
    unfold mbind, DB_bind, lift_opt, mret, DB_ret.
    destruct (query _ _ v) as [[rows|e] v1] eqn:E1; apply Hq in E1; [|by intros [= <- <-]].
    destruct (mapM _ _) as [vs|]; [|by intros [= <- <-]].
    assert (tables (exec "query_rows" (λ d, d) v1).2 = tables v1) as E2.
    { unfold exec, statement. by destruct (events v1) as [|[|ctx] s]. }
    destruct (exec _ _ v1) as [[[]|e] v2]; simpl in E2; rewrite <-E1, <-E2; by intros [= <- <-]. }
  unfold Store_Summarize, mbind, DB_bind. destruct (Load k (now - window) now w) as [[vs|e] w1] eqn:E; apply Hl in E.
  - destruct (Summarize _ _ _ _ _); by intros [= <- <-].
  - by intros [= <- <-].
Qed.

#[export] Instance sqlite_history `{DG : Digest, RC : ReceiptCodec, CC : CheckpointCodec} : History (W:=sql) (E:=Failure).
Proof.
  refine {| summarize := Store_Summarize |}. intros k now window freshness w r w' Hi E.
  apply Summarize_tables in E. split; [simpl in *; by rewrite E|]. intros sc. simpl. by rewrite E.
Defined.

(** ** A concrete run *)

Module OperatorSample.
#[local] Existing Instances toy_digest toy_codec toy_checkpoints.
Definition record : Record_ := SelectionSample.rec Sample.uuid1.
Definition ref : ConnectionRef := SelectionSample.cref Sample.uuid1.
Definition ctx : Context := CheckpointSample.ctx.
Definition t0 : Z := CheckpointSample.t0.
Definition k : Key :=
  {| connection := ref; target := ctarget ctx; vantage := cvantage ctx; kind := ckind ctx; kprofile := cprofile ctx |}.
Definition obs (at_ : Z) : Observation :=
  let s := t0 + at_ in
  {| key := k; startedAt := s; completedAt := s + 20 * millisecond; duration := 20 * millisecond; outcome := OutcomeSuccess;
     statusCode := 204; sampleID := sha256 (observation_input k s (s + 20 * millisecond) (20 * millisecond) OutcomeSuccess 204) |}.
Definition policy : Policy := DefaultPolicy StrategyAdaptive.
Definition mihomo : Renderer :=
  {| renderer_profile := Mihomo11931;
     render g := match Mihomo.Render (λ _, Some "doc") g with Ok c => Some c | Err _ => None end |}.
Definition req : Request () :=
  {| rq_scope := "gw"; rq_inventory := [record]; rq_context := ctx; rq_selection := policy;
     rq_listener := EngineSample.listener; rq_renderer := Some mihomo; rq_checker := Some (λ _, inl "mihomo/1.19.31");
     rq_evaluatedAt := t0 + 4 * minute; rq_reserve := None; rq_maintained := None; rq_beforeApply := None |}.
Definition publisher : SecretPublisher :=
  {| owner_name := "gw"; owner_uid := "uid"; owner_engine := GatewayMihomo; scheme_knows_owner := true; guard := None |}.
Definition store : sql :=
  {| tables := {| observations := obs_row <$> [obs 0; obs minute; obs (2 * minute)]; checkpoints := ∅; caches := ∅ |};
     events := [] |}.
Definition w : world (WD:=sql) (WP:=kube) (WR:=()) :=
  {| wd := store; wp := {| secret := None; answers := [] |}; wr := () |}.
Definition run : reconcile_outcome := Reconcile (PB:=secret_publisher publisher) req w.

Example run_publishes : (published run.1.1, run.1.2) = (true, None).
Proof. vm_compute. reflexivity. Qed.

Lemma record_wf : wf_record record.
Proof. apply InventorySample.rec_wf; [auto|apply InventorySample.prov_wf; set_solver]. Qed.
Lemma time_ok z : z = t0 + 4 * minute ∨ z = t0 + 4 * minute + cooldown policy → persistable_time z.
Proof. intros Hz. destruct_or! Hz; subst z; (split; [split|]; vm_compute; discriminate). Qed.
Lemma ctx_persistable : persistable_context ctx.
Proof. apply CheckpointSample.state_persistable. Qed.
Lemma req_ok : request_ok req.
Proof.
  split; [by apply Forall_singleton, record_wf|done|apply ctx_persistable|vm_compute; reflexivity| |].
  - split_and!; [done|apply time_ok; by left|apply time_ok; by right].
  - intros r g c [= <-]. simpl. unfold Mihomo.Render. destruct (Mihomo.document g); [|done]. simpl. by intros [= <-].
Qed.
Lemma w_sound : sound_world (PB:=secret_publisher publisher) w.
Proof. split; [intros k0 r; simpl; by rewrite lookup_empty|by intros s]. Qed.
End OperatorSample.
#[local] Existing Instances toy_digest toy_codec toy_checkpoints.

Lemma select_persistable_witness : ∃ d,
  Select "gw" OperatorSample.ctx OperatorSample.policy [{| crecord := OperatorSample.record; evidence := None |}] None
    (OperatorSample.t0 + 4 * minute) = Ok d ∧ persistable (next d).
Proof.
  destruct (Select "gw" OperatorSample.ctx OperatorSample.policy [{| crecord := OperatorSample.record; evidence := None |}] None
    (OperatorSample.t0 + 4 * minute)) as [d|e] eqn:E; [|vm_compute in E; discriminate E].
  exists d. split; [reflexivity|].
  apply (select_persistable "gw" OperatorSample.ctx OperatorSample.policy [{| crecord := OperatorSample.record; evidence := None |}]
    None (OperatorSample.t0 + 4 * minute) d); [| |exact OperatorSample.ctx_persistable|vm_compute; reflexivity|done| | | |exact E].
  - constructor; [exact OperatorSample.record_wf|constructor].
  - vm_compute. discriminate.
  - apply OperatorSample.time_ok. by left.
  - apply OperatorSample.time_ok. by right.
  - intros s [=].
Defined.

Lemma reconcile_atomic_witness : ∃ res err w',
  Reconcile (PB:=secret_publisher OperatorSample.publisher) OperatorSample.req OperatorSample.w = (res, err, w') ∧
  sound_world (PB:=secret_publisher OperatorSample.publisher) w' ∧
  (unchanged (PB:=secret_publisher OperatorSample.publisher) "gw" OperatorSample.w w' ∨
   replaced (PB:=secret_publisher OperatorSample.publisher) OperatorSample.req OperatorSample.w w').
Proof.
  destruct (Reconcile (PB:=secret_publisher OperatorSample.publisher) OperatorSample.req OperatorSample.w) as [[res err] w'] eqn:E.
  exists res, err, w'. split; [reflexivity|].
  destruct (reconcile_atomic (PB:=secret_publisher OperatorSample.publisher) OperatorSample.req OperatorSample.w res err w'
    OperatorSample.req_ok OperatorSample.w_sound E) as (Hs&_&Ha). split; [exact Hs|exact Ha].
Defined.

Lemma reconcile_reports_witness : ∃ res err w' d,
  Reconcile (PB:=secret_publisher OperatorSample.publisher) OperatorSample.req OperatorSample.w = (res, err, w') ∧
  published res = true ∧ rs_decision res = Some d ∧
  stored (wd w') "gw" = {| committed := Some (next d, intended res); pending := None |}.
Proof.
  destruct (Reconcile (PB:=secret_publisher OperatorSample.publisher) OperatorSample.req OperatorSample.w) as [[res err] w'] eqn:E.
  assert (published res = true) as Hp.
  { pose proof (f_equal fst OperatorSample.run_publishes) as Hr. unfold OperatorSample.run in Hr. rewrite E in Hr. exact Hr. }
  destruct (reconcile_reports (PB:=secret_publisher OperatorSample.publisher) OperatorSample.req OperatorSample.w res err w'
    OperatorSample.req_ok OperatorSample.w_sound E) as [_ Hr].
  destruct (Hr Hp) as (_&_&d&Hd&Hs). exists res, err, w', d. split_and!; [reflexivity|exact Hp|exact Hd|exact Hs].
Defined.

Lemma secret_publication_contract_witness : ∃ k1 k2,
  Publish OperatorSample.publisher ArtifactSample.validated {| secret := None; answers := [ApiOk; ApiFailedApplied] |} =
    (Err {| sp_code := "create" |}, k1) ∧
  CurrentReceipt OperatorSample.publisher k1 = (Ok (Validated_Receipt ArtifactSample.validated), k2) ∧
  secret_intact OperatorSample.publisher k2.
Proof.
  destruct (receipt_of_made ArtifactSample.validated ArtifactSample.validated_made) as (c&Hc&_&_).
  set (k := {| secret := None; answers := [ApiOk; ApiFailedApplied] |}).
  set (k1 := (Publish OperatorSample.publisher ArtifactSample.validated k).2).
  assert (Publish OperatorSample.publisher ArtifactSample.validated k = (Err {| sp_code := "create" |}, k1)) as E1
    by (vm_compute; reflexivity).
  assert (CurrentReceipt OperatorSample.publisher k1 = (Ok (Validated_Receipt ArtifactSample.validated), k1)) as E2
    by (vm_compute; reflexivity).
  exists k1, k1. split_and!; [exact E1|exact E2|].
  apply (secret_publication_contract OperatorSample.publisher ArtifactSample.validated c k _ k1 _ k1
    ltac:(intros s [=]) ArtifactSample.validated_made Hc E1 E2).
Defined.
