(* ===== verification/Pipeline.v ===== *)
(** * The publication phase of the pipeline (internal/operator/pipeline.go)

    [Pipeline.Run] reconciles a gateway's selection while it reserves the
    maintenance of that selection in the shared probe cohort: the reservation
    is committed with a confirmed publication, held as uncertain after an
    unconfirmed write, and released otherwise.  This file composes the
    reconciliation (over any store and publisher) with the scheduling state,
    and gives the codes and the outcome that [Run] returns. *)
From S2P Require Import Prelude Order Bytes Encoding Identity Provenance Inventory Artifact Observation Selection SelectionFacts Engine Scheduling Contracts.
From S2P Require Import SnapshotGuard Pool Profiles SecretPublisher Managed Reconcile GatewayController Store Checkpoint Composition.
Open Scope Z_scope.

(** ** Small parts of [Run] *)

Definition reconcileStageCode (stage : string) : string :=
  if bool_decide (stage = "validation") then "native_validation"
  else if bool_decide (stage ∈ ["render"; "policy"; "inventory"; "profile"; "receipt"]) then "render"
  else if bool_decide (stage ∈ ["publication"; "publication_readback"; "publisher_read"]) then "publication"
  else if bool_decide (stage ∈ ["state_recover"; "state_stage"; "state_commit"; "evidence_load"]) then "persistence"
  else if bool_decide (stage ∈ ["selection"; "candidate"; "evidence_key"]) then "selection"
  else if bool_decide (stage = "scheduling") then "probe_capacity"
  else "reconcile".
(** The code of a failed reconciliation; [cause] is the code of the
    publisher's error. *)
Definition failure_code (stage : string) (cause : option string) : string :=
  if bool_decide (stage = "publication") then
    if bool_decide (cause = Some "snapshot_obsolete") then "snapshot_obsolete"
    else if bool_decide (cause = Some "ownership") then "publication_conflict"
    else if bool_decide (cause = Some "payload_too_large") then "publication_too_large"
    else reconcileStageCode stage
  else reconcileStageCode stage.
Definition runtimeErrorCode (e : runtime_error) : string := match e with ManagedRuntimeError code => code | PublicationError e => sp_code e end.
Definition pipeline_engine (e : gateway_engine) : option Artifact.Profile :=
  match e with GatewayMihomo => Some Mihomo11931 | GatewaySingBox => Some SingBox1141 | GatewayOther => None end.
(** The listener of a gateway without a managed runtime. *)
Definition byo_listener (spec : option ListenerSpec) : result pipeline_error Listener :=
  let address := match spec with Some l => ls_address l | None => "" end in
  let port := match spec with Some l => ls_port l | None => 0 end in
  match NewSOCKSListener (if bool_decide (address = "") then "127.0.0.1" else address) (if port =? 0 then 1080 else port) with
  | Ok l => Ok l
  | Err _ => pipelineFailure "listener"
  end.
Definition requested_topN (spec : SelectionSpec) (p : Policy) : Z := if 0 <? se_topN spec then se_topN spec else topN p.
Definition with_topN (n : Z) (p : Policy) : Policy :=
  {| strategy := strategy p; topN := n; minSamples := minSamples p; minSuccessPermille := minSuccessPermille p; failureStreak := failureStreak p;
     recoverySuccesses := recoverySuccesses p; evidenceWindow := evidenceWindow p; freshness := freshness p; residence := residence p;
     cooldown := cooldown p; requiredImprovementPermille := requiredImprovementPermille p |}.
(** The policy a gateway is selected with, and its requested topN. *)
Definition gateway_policy (k : probeContextKey) (spec : SelectionSpec) : Policy * Z :=
  let p := DefaultPolicy (selectionStrategy (se_strategy spec)) in
  let requested := requested_topN spec p in
  (with_topN (maintainableTopN k requested) p, requested).
Definition eligible_count (d : Decision) : Z := Z.of_nat (length (filter (λ x, reason x = ReasonEligible) (explanations d))).

(** ** Reserving while reconciling *)

(** A publisher that remembers its last error, whose code [Run] looks at. *)
Record remembering (W E : Type) := { rm_world : W; rm_error : option E }.
Arguments rm_world {W E} _. Arguments rm_error {W E} _. Arguments Build_remembering {W E} _ _.
#[export] Instance remembering_publisher {W E} `{PB : Publisher W E} : Publisher (remembering W E) E.
Proof.
  refine {| current_receipt w := let '(r, w') := current_receipt (rm_world w) in (r, Build_remembering w' (rm_error w));
            publish_artifact a w := let '(r, w') := publish_artifact a (rm_world w) in
                                    (r, Build_remembering w' (match r with Err e => Some e | Ok _ => None end));
            uncertain := Contracts.uncertain; in_place w := in_place (rm_world w); owned w := owned (rm_world w) |}.
  - intros w c. apply in_place_good.
  - intros w r w' Hw E'. destruct (current_receipt (rm_world w)) as [x y] eqn:Ec. injection E' as <- <-. by apply (current_law _ _ _ Hw Ec).
  - intros a c w r w' Hw Hm Hr E'. destruct (publish_artifact a (rm_world w)) as [x y] eqn:Ep. injection E' as <- <-. by apply (publish_law _ _ _ _ _ Hw Hm Hr Ep).
Defined.

(** What the callbacks of [Run] share: the pipeline's scheduling state, the
    local [reservation], the error of the last reservation and the guard. *)
Record run_world (G : Type) := { rw_probes : probes; rw_reservation : option selectionReservation; rw_refused : option reserve_error; rw_guard : G }.
Arguments rw_probes {G} _. Arguments rw_reservation {G} _. Arguments rw_refused {G} _. Arguments rw_guard {G} _. Arguments Build_run_world {G} _ _ _ _.

Section run.
Context `{DG : Digest, RC : ReceiptCodec}.
Context {WD ED : Type} `{DS : !Decisions WD ED, HS : !History}.
Context {WP EP : Type} `{PB : !Publisher WP EP}.
Context {G : Type} (bind : list Record_ → G → G) (code : EP → option string).

Abbreviation run_state := (world (WD:=WD) (WP:=remembering WP EP) (WR:=run_world G)).

(** [Reserve] and [BeforeApply]. *)
Definition reserve_for (k : probeContextKey) (gateway : string) (now : Z) (d : Decision) (w : run_world G) : bool * run_world G :=
  match reserveSelection (rw_probes w) k gateway d now with
  | (Ok v, ps) => (true, Build_run_world ps (Some v) None (rw_guard w))
  | (Err e, ps) => (false, Build_run_world ps None (Some e) (rw_guard w))
  end.
Definition bind_selected (l : list Record_) (w : run_world G) : run_world G :=
  Build_run_world (rw_probes w) (rw_reservation w) (rw_refused w) (bind l (rw_guard w)).
Definition run_request (k : probeContextKey) (gateway : string) (inv : list Record_) (ctx : Context) (p : Policy) (l : Listener) (r : Renderer)
    (checker : Candidate → string + string) (now : Z) (ps : probes) : Request (run_world G) :=
  {| rq_scope := "k8s_" +:+ gateway; rq_inventory := inv; rq_context := ctx; rq_selection := p; rq_listener := l; rq_renderer := Some r;
     rq_checker := Some checker; rq_evaluatedAt := now; rq_reserve := Some (reserve_for k gateway now);
     rq_maintained := Some (maintained ps k); rq_beforeApply := Some bind_selected |}.

(** The switch after the reconciliation, with the deferred release: the
    scheduling state it leaves. *)
Definition settle_reservation (k : probeContextKey) (now : Z) (res : Result) (err : option string) (w : run_world G) : probes :=
  match rw_reservation w with
  | None => match err, rs_decision res with None, Some d => observeVerdicts (rw_probes w) k d | _, _ => rw_probes w end
  | Some v =>
      if bool_decide (err = None) && published res then commitSelection (rw_probes w) v
      else if bool_decide (publication res ≠ PublicationNone) then holdUncertain (rw_probes w) v (Reconcile.intended res) now
      else releaseSelection (rw_probes w) v
  end.
(** A write happened that is not confirmed, or an earlier one is unresolved. *)
Definition unconfirmed (res : Result) (w : run_world G) : bool :=
  bool_decide (is_Some (rw_reservation w)) && bool_decide (publication res ≠ PublicationNone).
Definition unresolved_before (err : string) (w : run_world G) : bool :=
  bool_decide (err = "scheduling") && match rw_refused w with Some errPublicationUnresolved => true | _ => false end.
Definition run_answer (requested effective : Z) (overload : bool) (generation : string) (res : Result) (err : option string) (cause : option string)
    (w : run_world G) : result pipeline_error GatewayOutcome :=
  match err with
  | Some stage =>
      if unconfirmed res w || unresolved_before stage w then pipelineFailure "publication_unconfirmed"
      else pipelineFailure (failure_code stage cause)
  | None =>
      Ok {| Eligible := match rs_decision res with Some d => eligible_count d | None => 0 end;
            Selected := match rs_decision res with Some d => Z.of_nat (length (selected d)) | None => 0 end;
            RequestedTopN := requested; EffectiveTopN := effective; ProbeOverloaded := overload; SharedCapacityLimited := constrained res;
            go_published := published res; go_changed := rs_changed res; RetainedLKG := retainedLKG res; go_publishedGeneration := generation |}
  end.
(** From the request to the return of [Run]; [generation] reads the name
    the publisher last used, empty without a managed runtime. *)
Definition run_selection (k : probeContextKey) (req : Request (run_world G)) (requested : Z) (generation : WP → string) (w : run_state)
    : result pipeline_error GatewayOutcome * run_state :=
  let '(res, err, w') := Reconcile.Reconcile req w in
  let ps := settle_reservation k (rq_evaluatedAt req) res err (wr w') in
  let cause := rm_error (wp w') ≫= code in
  (run_answer requested (topN (rq_selection req)) (roundOverloaded ps k) (generation (rm_world (wp w'))) res err cause (wr w'),
   set_wr (Build_run_world ps None (rw_refused (wr w')) (rw_guard (wr w'))) w').
End run.

(** ** What the reconciliation does to the reservation *)

Section settled.
Context `{DG : Digest, RC : ReceiptCodec}.
Context {WD ED : Type} `{DS : !Decisions WD ED, HS : !History}.
Context {WP EP : Type} `{PB : !Publisher WP EP}.
Context {WR : Type}.
Implicit Types (w : world (WD:=WD) (WP:=WP) (WR:=WR)).

Lemma Apply_wr req d w res err w' : Apply req d w = (res, err, w') →
  wr w' = wr w ∧ (publication res ≠ PublicationNone → ∃ a, build req d = Ok (a, Reconcile.intended res)) ∧ (err = None → published res = true ∧ publication res ≠ PublicationNone).
Proof.
  unfold Apply. destruct (build req d) as [[a c]|e]; [|by intros [= <- <- <-]].
  destruct (stage_decision _ _ _ _) as [[]]; [|by intros [= <- <- <-]].
  destruct (publish_artifact _ _) as [[|e]]; [|intros [= <- <- <-]; cbn; split_and!; [done|destruct (Contracts.uncertain e); eauto; done|done]].
  destruct (current_receipt _) as [[[cur|]|]]; [|intros [= <- <- <-]; split_and!; eauto; done..].
  destruct (negb _); [intros [= <- <- <-]; split_and!; eauto; done|].
  destruct (commit_decision _ _ _) as [[]]; intros [= <- <- <-]; split_and!; eauto; done.
Qed.
Lemma finish_wr req d con w res err w' : finish req d con w = (res, err, w') →
  wr w' = match rq_beforeApply req with Some f => f (selected d) (wr w) | None => wr w end ∧
  (publication res ≠ PublicationNone → ∃ a, build req d = Ok (a, Reconcile.intended res)) ∧ (err = None → published res = true ∧ publication res ≠ PublicationNone).
Proof.
  unfold finish. set (w1 := match rq_beforeApply req with Some f => _ | None => _ end). destruct (Apply req d w1) as [[r e] w2] eqn:E.
  intros [= <- <- <-]. apply Apply_wr in E as (->&H1&H2). split; [unfold w1; by destruct (rq_beforeApply req)|]. done.
Qed.
Lemma gather_records (req : Request WR) m rs d cs d' : gather req m rs d = (Ok cs, d') → crecord <$> cs = rs.
Proof.
  revert d cs d'. induction rs as [|x rs IH]; intros d cs d'; cbn [gather]; [by intros [= <- _]|].
  assert (∀ c d1, crecord c = x → match gather req m rs d1 with (Ok cs, d) => (Ok (c :: cs), d) | (Err e, d) => (Err e, d) end = (Ok cs, d') → crecord <$> cs = x :: rs) as Hc.
  { intros c d1 <-. destruct (gather req m rs d1) as [[l|e] d2] eqn:E; [|done]. intros [= <- _]. cbn. by rewrite (IH _ _ _ E). }
  destruct (match m with Some m => _ | None => _ end); [by apply Hc|]. destruct (NewConnectionRef _); [|done]. destruct (NewKey _ _ _ _ _); [|done].
  destruct (summarize _ _ _ _ d) as [[]]; [by apply Hc|done].
Qed.
Lemma plan_planned (req : Request WR) prev m d dec d' : plan req prev m d = (Ok dec, d') → planned req prev dec.
Proof.
  unfold plan. destruct (gather req m (rq_inventory req) d) as [[cs|] d1] eqn:E; [|done]. apply gather_records in E.
  destruct (Select _ _ _ _ _ _) eqn:Es; [|done]. intros [= <- _]. by exists cs.
Qed.
(** Either nothing is reserved and nothing written, or the last reservation
    was granted for the decision that is applied. *)
Inductive reserved_run (req : Request WR) (reserve : Decision → WR → bool * WR) (w : world (WD:=WD) (WP:=WP) (WR:=WR)) (res : Result) (err : option string) (r' : WR) : Prop :=
| not_reserved : publication res = PublicationNone → published res = false → r' = wr w → reserved_run req reserve w res err r'
| refused_once d r1 : reserve d (wr w) = (false, r1) → publication res = PublicationNone → published res = false → r' = r1 → reserved_run req reserve w res err r'
| refused_twice d r1 d2 r2 : reserve d (wr w) = (false, r1) → reserve d2 r1 = (false, r2) → publication res = PublicationNone → published res = false → r' = r2 →
    reserved_run req reserve w res err r'
| applied prev d r0 r1 : (∀ x, prev = Some x → state_valid x = true) → planned req prev d → (r0 = wr w ∨ ∃ d0, reserve d0 (wr w) = (false, r0)) → reserve d r0 = (true, r1) →
    r' = match rq_beforeApply req with Some f => f (selected d) r1 | None => r1 end →
    (publication res ≠ PublicationNone → ∃ a, build req d = Ok (a, Reconcile.intended res)) → (err = None → published res = true ∧ publication res ≠ PublicationNone) →
    reserved_run req reserve w res err r'.
Lemma Reconcile_reserves req reserve w res err w' : sound_world w → rq_reserve req = Some reserve → Reconcile.Reconcile req w = (res, err, w') →
  reserved_run req reserve w res err (wr w').
Proof.
  intros [Hi Ho] Hr. unfold Reconcile.Reconcile. destruct (_ || _); [intros [= <- <- <-]; by apply not_reserved|].
  destruct (negb _); [intros [= <- <- <-]; by apply not_reserved|]. destruct (current_receipt (wp w)) as [[cur|] p] eqn:Ec; [|intros [= <- <- <-]; by apply not_reserved].
  apply current_law in Ec as (_&_&->); [|done].
  cbv zeta. destruct (recover_decision _ _ _) as [[prev|] s] eqn:Er; [|intros [= <- <- <-]; by apply not_reserved].
  assert (∀ x, prev = Some x → state_valid x = true) as Hprev.
  { apply recover_law in Er as (_&_&->&_); [|done|by intros c; apply in_place_good]. intros x [c Hx]%recovered_stored.
    by apply (stored_persistable (wd w) (rq_scope req) (x, c)). }
  destruct (Plan req prev s) as [[d|] s1] eqn:Ep; [|intros [= <- <- <-]; by apply not_reserved].
  case_bool_decide; [intros [= <- <- <-]; by apply not_reserved|]. rewrite Hr. cbn [wr set_wd set_wp].
  destruct (reserve d (wr w)) as [ok r1] eqn:E1. destruct ok.
  { intros (Hw&H1&H2)%finish_wr. eapply applied; [exact Hprev|by eapply plan_planned|by left|exact E1|exact Hw|done|done]. }
  destruct (rq_maintained req) as [m|]; [|intros [= <- <- <-]; by eapply refused_once].
  destruct (plan req prev (Some m) _) as [[d2|] s2] eqn:Ep2; [|intros [= <- <- <-]; by eapply refused_once].
  case_bool_decide; [intros [= <- <- <-]; by eapply refused_once|]. cbn [wr set_wd set_wr].
  destruct (reserve d2 r1) as [ok r2] eqn:E2. destruct ok; [|intros [= <- <- <-]; by eapply refused_twice].
  intros (Hw&H1&H2)%finish_wr. eapply applied; [exact Hprev|by eapply plan_planned|right; by exists d|exact E2|exact Hw|done|done].
Qed.
End settled.

(** ** Selected endpoints are not rejected *)

Section verdicts.
Context `{Digest}.

(** Two revisions of one endpoint, with different connection secrets, are two
    records with the same identifier.  The verdicts are kept by identifier:
    here a decision selects one revision while it rejects another one. *)
Definition contested (inv : list Record_) (d : Decision) (i : string) : Prop :=
  ∃ r r' x, r ∈ selected d ∧ r ∈ inv ∧ r' ∈ inv ∧ record_id r = i ∧ record_id r' = i ∧ revision (record_identity r) ≠ revision (record_identity r') ∧
    x ∈ explanations d ∧ NewConnectionRef (record_identity r') = Some (xconnection x) ∧ rejecting (reason x) = true.

Lemma evaluate_id c r ctx p cds inc since now : endpointID (evaluate c r ctx p cds inc since now) = id (record_identity (crecord c)).
Proof. unfold evaluate. destruct (evidence c); [|done]. repeat case_match; done. Qed.
Lemma selected_not_rejected sc ctx p cs prev now d s : (∀ x, prev = Some x → state_valid x = true) → Select sc ctx p cs prev now = Ok d →
  ∀ i, i ∈ decision_ids d → i ∈ rejected (observe_state s d) → contested (crecord <$> cs) d i.
Proof.
  intros Hv (ev&R&sel&Hrun)%Select_run i Hi. destruct (run_decision _ _ _ _ _ _ _ _ _ _ Hrun) as (Hs&He&_).
  destruct (sel_good _ _ _ _ _ _ _ _ _ _ Hrun (prev_members_distinct sc ctx p prev Hv)) as (_&_&Hsub&_).
  unfold decision_ids in Hi. rewrite Hs, <-list_fmap_compose in Hi. apply list_elem_of_fmap in Hi as (e&->&Hsel). cbn.
  pose proof (proj1 (R_elem _ _ _ _ _ _ _ _ _ _ Hrun e) (Hsub e Hsel)) as [Hev Hr].
  rewrite elem_of_list_to_set. intros (x&Hx&[[_ Hrej] Hin]%list_elem_of_filter)%list_elem_of_fmap.
  pose proof Hin as Hin'. rewrite He in Hin. apply list_elem_of_fmap in Hin as (f&->&Hf).
  destruct (evaluated_elem _ _ _ _ _ _ _ _ _ _ Hrun e Hev) as (Hce&Hre&_), (evaluated_elem _ _ _ _ _ _ _ _ _ _ Hrun f Hf) as (Hcf&Hrf&Ef).
  assert (id (candidate_identity (rcandidate e)) = id (candidate_identity (rcandidate f))) as Eid by (rewrite Ef, evaluate_id in Hx; exact Hx).
  exists (crecord (rcandidate e)), (crecord (rcandidate f)), (explanation f).
  split_and!; [|by apply list_elem_of_fmap_2|by apply list_elem_of_fmap_2|done|by symmetry| |done|by rewrite Ef, evaluate_connection|done].
  { rewrite Hs. by apply (list_elem_of_fmap_2 (crecord ∘ rcandidate)). }
  intros Erev. assert (e = f) as ->; [|by rewrite Hr in Hrej]. apply (NoDup_fmap_eq ref ev); [apply (evaluated_distinct _ _ _ _ _ _ _ _ _ _ Hrun)|done|done|].
  apply NewConnectionRef_Some in Hre as [Hre _], Hrf as [Hrf _]. unfold candidate_identity in *. rewrite Hre, Hrf in Eid, Erev.
  cbn in Eid, Erev. destruct (ref e), (ref f). cbn in *. congruence.
Qed.
End verdicts.

(** ** The reservation is settled *)

(** The demand and the members of a context, which verdicts leave alone. *)
Definition same_plan (s s' : probeState) : Prop := demand s' = demand s ∧ cohort s' = cohort s.
(** No reservation of [g] is left pending. *)
Definition none_pending (g : string) (s : probeState) : Prop := ∀ d, demand s !! g = Some d → Scheduling.pending d = false.

Section settlement.
Context `{DG : Digest}.

Lemma admit_pending s i c b g : Scheduling.pending <$> demand (admit_endpoint s i c b) !! g = Scheduling.pending <$> demand s !! g.
Proof.
  unfold admit_endpoint. case_bool_decide; [done|]. destruct (_ <=? _); [|done]. destruct (find_victim s b) as [[x rest]|]; [|done].
  cbn. destruct (is_rejected s x); [|done]. cbn. rewrite lookup_fmap. by destruct (demand s !! g).
Qed.
Lemma admit_all_pending s ids c b g : Scheduling.pending <$> demand (admit_all s ids c b) !! g = Scheduling.pending <$> demand s !! g.
Proof. revert s. induction ids as [|i ids IH]; intros s; [done|]. cbn. fold (admit_all (admit_endpoint s i c b) ids c b). by rewrite IH, admit_pending. Qed.
Lemma none_pending_admit g s ids c b d : demand s !! g = Some d → Scheduling.pending d = false → none_pending g (admit_all s ids c b).
Proof. intros Hd Hp d' Hd'. pose proof (admit_all_pending s ids c b g) as E. rewrite Hd, Hd' in E. cbn in E. congruence. Qed.
Lemma reserve_refused ps k g d now e ps1 s0 : ps !! k = Some s0 → reserveSelection ps k g d now = (Err e, ps1) →
  ∃ s1, ps1 !! k = Some s1 ∧ same_plan s0 s1.
Proof.
  intros Hk. unfold reserveSelection. rewrite Hk. cbv zeta. case_bool_decide; [|destruct (_ <? _); [|done]];
    intros [= <- <-]; rewrite lookup_insert_eq; by eexists.
Qed.
Lemma commit_none_pending ps k g d now v ps1 s : reserveSelection ps k g d now = (Ok v, ps1) → commitSelection ps1 v !! k = Some s → none_pending g s.
Proof.
  intros (s0&Hk&->&_&_&->)%reserve_Ok. unfold commitSelection. erewrite pending_of_reserved; [|apply lookup_insert_eq|done].
  cbn. rewrite lookup_insert_eq. intros [= <-]. eapply none_pending_admit; [cbn; apply lookup_insert_eq|done].
Qed.
Lemma hold_none_pending ps k g d now v ps1 s receipt now' : reserveSelection ps k g d now = (Ok v, ps1) → holdUncertain ps1 v receipt now' !! k = Some s →
  none_pending g s.
Proof.
  intros (s0&Hk&->&_&_&->)%reserve_Ok. unfold holdUncertain. erewrite pending_of_reserved; [|apply lookup_insert_eq|done].
  cbn. rewrite lookup_insert_eq. intros [= <-]. eapply none_pending_admit; [cbn; apply lookup_insert_eq|done].
Qed.
Lemma same_plan_observe s0 s1 d : same_plan s0 s1 → rejected (observe_state s1 d) = rejected (observe_state s0 d).
Proof. intros [_ E]. unfold observe_state. cbn. by rewrite E. Qed.
Lemma same_plan_ok c s0 s1 : same_plan s0 s1 → cohort_ok c s0 → cohort_ok c s1.
Proof. intros [_ E]. by apply cohort_ok_eq. Qed.
End settlement.

Section protection.
Context `{DG : Digest, RC : ReceiptCodec}.
Context {WD ED : Type} `{DS : !Decisions WD ED, HS : !History}.
Context {WP EP : Type} `{PB : !Publisher WP EP}.
Context {G : Type} (bind : list Record_ → G → G) (code : EP → option string).
Context (k : probeContextKey) (g : string) (inv : list Record_) (ctx : Context) (p : Policy) (l : Listener) (r : Renderer).
Context (checker : Candidate → string + string) (now : Z).

Abbreviation capacity := (cohortCapacity k evidencePolicy).
Abbreviation reserve := (reserve_for (G:=G) k g now).
Abbreviation request ps := (run_request bind k g inv ctx p l r checker now ps).

Lemma reserve_for_true d (w w1 : run_world G) : reserve d w = (true, w1) → ∃ v, reserveSelection (rw_probes w) k g d now = (Ok v, rw_probes w1) ∧ rw_reservation w1 = Some v.
Proof. unfold reserve_for. destruct (reserveSelection _ _ _ _ _) as [[v|e] ps]; [|done]. intros [= <-]. by exists v. Qed.
Lemma reserve_for_false d (w w1 : run_world G) s0 : rw_probes w !! k = Some s0 → reserve d w = (false, w1) →
  rw_reservation w1 = None ∧ ∃ s1, rw_probes w1 !! k = Some s1 ∧ same_plan s0 s1.
Proof.
  unfold reserve_for. intros Hk. destruct (reserveSelection _ _ _ _ _) as [[v|e] ps] eqn:E; [done|]. intros [= <-]. split; [done|].
  by eapply reserve_refused.
Qed.

(** What protects the output that the run leaves in place. *)
Definition keeps (s0 s' : probeState) (d : Decision) (all : Prop) : Prop :=
  (∀ id, id ∈ decision_ids d → id ∉ rejected (observe_state s0 d) → id ∈ cohort s' ∧ protected s' id = true) ∧
  ∀ g' d' id, (g' ≠ g ∨ all) → demand s0 !! g' = Some d' → claims d' id = true → id ∈ cohort s0 → id ∉ rejected (observe_state s0 d) →
    id ∈ cohort s' ∧ protected s' id = true.
Lemma keeps_same s0 s1 s' d (all : Prop) : same_plan s0 s1 → keeps s1 s' d all → keeps s0 s' d all.
Proof.
  intros Hs [H1 H2]. split; [intros id; rewrite <-(same_plan_observe s0 s1) by done; apply H1|]. intros g' d' id Ha Hd Hc Hm Hr. destruct Hs as [E1 E2]. apply (H2 g' d'); [done|by rewrite E1|done|by rewrite E2|].
  by rewrite (same_plan_observe s0 s1).
Qed.

(** The reservation is not held: the switch leaves demand and members alone. *)
Lemma settle_unreserved res err (w : run_world G) s0 : rw_reservation w = None → rw_probes w !! k = Some s0 →
  ∃ s', settle_reservation k now res err w !! k = Some s' ∧ same_plan s0 s'.
Proof.
  intros Hr Hk. unfold settle_reservation. rewrite Hr. destruct err, (rs_decision res) as [d|]; [by exists s0..| |by exists s0].
  unfold observeVerdicts. rewrite Hk, lookup_insert_eq. by exists (observe_state s0 d).
Qed.
(** It is held: committed, held as uncertain or released. *)
Lemma settle_reserved res err d (w w1 : run_world G) s0 : rw_probes w !! k = Some s0 → cohort_ok capacity s0 → none_pending g s0 → reserve d w = (true, w1) →
  (err = None → published res = true ∧ publication res ≠ PublicationNone) →
  ∃ s', settle_reservation k now res err w1 !! k = Some s' ∧ cohort_ok capacity s' ∧ none_pending g s' ∧
    (publication res = PublicationNone ∧ err ≠ None ∧ same_plan s0 s' ∨ publication res ≠ PublicationNone ∧ keeps s0 s' d (err ≠ None)).
Proof.
  intros Hk Hok Hn (v&Hv&E)%reserve_for_true Herr. unfold settle_reservation. rewrite E.
  case_bool_decide as He; cbn [andb].
  { destruct (Herr He) as [-> Hp]. destruct (committed_selection_maintained _ _ _ _ _ _ _ _ Hk Hok Hv) as (s'&Hs&Hok'&H1&H2).
    exists s'. split_and!; [done|done|by eapply commit_none_pending|right; split; [done|]]. split; [done|]. intros g' d' id [Hg|]; [by apply H2|done]. }
  case_bool_decide as Hp.
  - destruct (uncertain_selections_maintained _ _ _ _ _ _ _ _ (Reconcile.intended res) now Hk Hok Hv) as (s'&Hs&Hok'&H1&H2).
    exists s'. split_and!; [done|done|by eapply hold_none_pending|right; split; [done|]]. split; [done|]. intros g' d' id _. by apply H2.
  - destruct (released_reservation_restores _ _ _ _ _ _ _ _ Hk Hv) as (s'&Hs&Hd&Hc&_).
    assert (publication res = PublicationNone) by (destruct (publication res); [done|by destruct Hp..]).
    exists s'. split_and!; [done|by eapply cohort_ok_eq|intros d'; rewrite Hd; apply Hn|by left].
Qed.

Lemma planned_not_rejected (req : Request (run_world G)) prev d s : (∀ x, prev = Some x → state_valid x = true) → planned req prev d →
  ∀ i, i ∈ decision_ids d → i ∈ rejected (observe_state s d) → contested (rq_inventory req) d i.
Proof. intros Hv (cs&<-&Hsel). by eapply selected_not_rejected. Qed.
Lemma run_answer_err requested effective over gen res err cause (w : run_world G) :
  (err ≠ None → ∃ c, run_answer requested effective over gen res err cause w = Err c) ∧ (err = None → is_ok (run_answer requested effective over gen res err cause w)).
Proof. unfold run_answer. destruct err as [stage|]; [|by split]. split; [|done]. intros _. destruct (_ || _); by eexists. Qed.

(** What a run leaves of its context's plan, whatever happens on the way. *)
Definition plan_after (ps : probes) (res : Result) (err : option string) (s0 s' : probeState) : Prop :=
  cohort_ok capacity s' ∧ none_pending g s' ∧
  (publication res = PublicationNone ∧ same_plan s0 s' ∨
   ∃ d a, publication res ≠ PublicationNone ∧ (err = None → published res = true) ∧ build (request ps) d = Ok (a, Reconcile.intended res) ∧
     (∀ id, id ∈ decision_ids d → id ∈ rejected (observe_state s0 d) → contested inv d id) ∧ keeps s0 s' d (err ≠ None)).
Lemma run_settles ps (w : world (WD:=WD) (WP:=remembering WP EP) (WR:=run_world G)) res err w' s0 : ps = rw_probes (wr w) → rw_reservation (wr w) = None → sound_world w →
  ps !! k = Some s0 → cohort_ok capacity s0 → none_pending g s0 → Reconcile.Reconcile (request ps) w = (res, err, w') →
  ∃ s', settle_reservation k now res err (wr w') !! k = Some s' ∧ plan_after ps res err s0 s'.
Proof.
  unfold plan_after. intros -> Hres Hw Hk Hok Hp E. eapply (Reconcile_reserves _ reserve) in E; [|exact Hw|done].
  assert (∀ (r' : run_world G) s1, rw_reservation r' = None → rw_probes r' !! k = Some s1 → same_plan s0 s1 → publication res = PublicationNone →
    ∃ s', settle_reservation (G:=G) k now res err r' !! k = Some s' ∧ plan_after (rw_probes (wr w)) res err s0 s') as Hun.
  { unfold plan_after. intros r' s1 Hr' Hs1 [Ed Ec] Hpub. destruct (settle_unreserved res err r' s1 Hr' Hs1) as (s'&Hs'&[Ed' Ec']).
    assert (same_plan s0 s') as [Fd Fc] by (split; congruence). exists s'. split_and!; [done|by apply (cohort_ok_eq _ s0)|intros d; rewrite Fd; apply Hp|by left]. }
  destruct E as [Hpub _ ->|d r1 H1 Hpub _ ->|d r1 d2 r2 H1 H2 Hpub _ ->|prev d r0 r1 Hv Hpl H0 H1 -> Hb Herr].
  - by apply (Hun _ s0).
  - destruct (reserve_for_false _ _ _ _ Hk H1) as (Hr&s1&Hs1&Hsame). by apply (Hun _ s1).
  - destruct (reserve_for_false _ _ _ _ Hk H1) as (_&s1&Hs1&[Ed Ec]), (reserve_for_false _ _ _ _ Hs1 H2) as (Hr&s2&Hs2&[Ed2 Ec2]).
    apply (Hun _ s2); [done|done|split; congruence|done].
  - assert (∃ s1, rw_probes r0 !! k = Some s1 ∧ same_plan s0 s1) as (s1&Hs1&[Ed Ec]).
    { destruct H0 as [-> |[d0 H0]]; [by exists s0|]. by destruct (reserve_for_false _ _ _ _ Hk H0) as (_&?). }
    destruct (settle_reserved res err d r0 r1 s1 Hs1) as (s'&Hs'&Hok'&Hn'&Hor);
      [by apply (cohort_ok_eq _ s0)|intros d'; rewrite Ed; apply Hp|done|done|].
    exists s'. split_and!; [exact Hs'|done|done|]. destruct Hor as [(Hpub&_&Ed'&Ec')|[Hpub Hkeep]]; [left; split; [done|split; congruence]|right].
    destruct (Hb Hpub) as [a Ha]. exists d, a. split_and!; [done|by intros [? _]%Herr|done|by eapply (planned_not_rejected (request (rw_probes (wr w))))|by eapply keeps_same].
Qed.

(** C10: A run of the pipeline, with which no other run of its context interleaves, maintains what it writes. Whatever
    fails on the way, the gateway has no pending reservation afterwards and the shared cohort is within its capacity.
    Either the run wrote nothing, and the output in place, the demand and the members of the context are those of
    before; or it wrote the artifact of a decision, which is in place unless the run failed, and every endpoint of that
    decision is a member that nothing may displace, except one of which the same decision rejects another revision.
    Then the members that other gateways rely on stay too, unless the new verdicts reject them, and when the run fails
    after the write, so that the previous output may still be the one in place, so do the gateway's own. *)
Theorem run_protects_output requested generation w ans w' s0 : let ps := rw_probes (wr w) in
  request_ok (request ps) → sound_world w → rw_reservation (wr w) = None →
  ps !! k = Some s0 → cohort_ok capacity s0 → none_pending g s0 → run_selection code k (request ps) requested generation w = (ans, w') →
  ∃ s', rw_probes (wr w') !! k = Some s' ∧ cohort_ok capacity s' ∧ none_pending g s' ∧
    (in_place (wp w') = in_place (wp w) ∧ demand s' = demand s0 ∧ cohort s' = cohort s0 ∨
     ∃ d a c, build (request ps) d = Ok (a, c) ∧
       (in_place (wp w') = Some c ∨ is_ok ans = false ∧ in_place (wp w') = in_place (wp w)) ∧
       (∀ id, id ∈ decision_ids d → contested inv d id ∨ id ∈ cohort s' ∧ protected s' id = true) ∧
       ∀ g' d' id, g' ≠ g ∨ is_ok ans = false → demand s0 !! g' = Some d' → claims d' id = true → id ∈ cohort s0 →
         id ∉ rejected (observe_state s0 d) → id ∈ cohort s' ∧ protected s' id = true).
Proof.
  intros ps Hq Hw Hr Hk Hok Hp. unfold run_selection. destruct (Reconcile.Reconcile (request ps) w) as [[res err] w1] eqn:E.
  pose proof (Reconcile_good (request ps) w Hq Hw) as Hg. rewrite E in Hg. destruct Hg as (_&_&[Hrep Hpub]).
  destruct (run_settles ps w res err w1 s0 eq_refl Hr Hw Hk Hok Hp E) as (s'&Hs&Hok'&Hn'&Hor).
  intros [= <- <-]. exists s'. split_and!; [exact Hs|done|done|]. cbn [wp set_wr rq_evaluatedAt run_request].
  match goal with |- context [run_answer ?a ?b ?c ?d ?e ?f ?x ?y] => destruct (run_answer_err a b c d e f x y) as [He Ho]; set (ans := run_answer a b c d e f x y) in * end.
  destruct Hor as [(Hnone&Ed&Ec)|(d&a&Hsome&Hfin&Hb&Hcon&Hk1&Hk2)]; [left; rewrite Hnone in Hrep; done|right].
  exists d, a, (Reconcile.intended res). split_and!; [done| | |].
  - assert (in_place (wp w1) = Some (Reconcile.intended res) ∨ err ≠ None ∧ in_place (wp w1) = in_place (wp w)) as [Hi|[Hne Hi]].
    { destruct (publication res) eqn:Epub; [done| |by left|by left]. destruct Hrep as [Hi|Hi]; [right; split; [|done]|by left]. intros Herr. naive_solver. }
    + by left.
    + right. split; [by destruct (He Hne) as [c ->]|done].
  - intros id Hi. destruct (decide (id ∈ rejected (observe_state s0 d))) as [Hrej|Hrej]; [left; by apply Hcon|right; by apply Hk1].
  - intros g' d' id Hor. apply Hk2. destruct Hor as [?|Ha]; [by left|right]. intros ->. specialize (Ho eq_refl). rewrite Ha in Ho. done.
Qed.
End protection.

(** ** A concrete run *)

Module PipelineSample.
#[local] Existing Instances toy_digest toy_codec toy_checkpoints.
Definition gateway : string := "gateway".
Definition key : probeContextKey := newProbeContextKey "pool" "named" Mihomo11931 "target" "revision".
Definition demand_of (ids : list string) : probeDemand :=
  {| dselected := ids; dseen := 0; Scheduling.pending := false; Scheduling.uncertain := None; Scheduling.intended := ""; Scheduling.attempt := 0 |}.
(** Another gateway relies on a member of the context. *)
Definition s0 : probeState :=
  {| puntil := 0; pround := 0; cursor := 0; cohort := ["theirs"]; rejected := ∅; demand := {["other" := demand_of ["theirs"]]}; overloaded := false;
     attempts := 0; pseen := 0 |}.
Definition w : world (WD:=sql) (WP:=remembering kube SecretPublicationError) (WR:=run_world ()) :=
  {| wd := OperatorSample.store; wp := Build_remembering {| secret := None; answers := [] |} None;
     wr := Build_run_world {[key := s0]} None None () |}.
Definition req : Request (run_world ()) :=
  run_request (λ _ u, u) key gateway [OperatorSample.record] OperatorSample.ctx OperatorSample.policy EngineSample.listener OperatorSample.mihomo
    (λ _, inl "mihomo/1.19.31") (OperatorSample.t0 + 4 * minute) (rw_probes (wr w)).
Definition run : result pipeline_error GatewayOutcome * _ :=
  run_selection (PB:=secret_publisher OperatorSample.publisher) (λ e, Some (sp_code e)) key req 1 (λ _, "") w.
Lemma run_ok : is_ok run.1 = true.
Proof. vm_compute. reflexivity. Qed.
Lemma run_wrote : secret_receipt (rm_world (wp run.2)) ≠ None.
Proof. vm_compute. discriminate. Qed.
End PipelineSample.
#[local] Existing Instances toy_digest toy_codec toy_checkpoints.

Lemma run_protects_output_witness : ∃ s' d a c,
  is_ok PipelineSample.run.1 = true ∧ rw_probes (wr PipelineSample.run.2) !! PipelineSample.key = Some s' ∧
  cohort_ok (cohortCapacity PipelineSample.key evidencePolicy) s' ∧ none_pending PipelineSample.gateway s' ∧
  build PipelineSample.req d = Ok (a, c) ∧ secret_receipt (rm_world (wp PipelineSample.run.2)) = Some c ∧
  ∀ id, id ∈ decision_ids d → id ∈ cohort s' ∧ protected s' id = true.
Proof.
  destruct (run_protects_output (PB:=secret_publisher OperatorSample.publisher) (λ _ u, u) (λ e, Some (sp_code e)) PipelineSample.key PipelineSample.gateway
    [OperatorSample.record] OperatorSample.ctx OperatorSample.policy EngineSample.listener OperatorSample.mihomo (λ _, inl "mihomo/1.19.31")
    (OperatorSample.t0 + 4 * minute) 1 (λ _, "") PipelineSample.w PipelineSample.run.1 PipelineSample.run.2 PipelineSample.s0)
    as (s'&Hs&Hc&Hn&[(Hi&_)|(d&a&c&Hb&Hi&Hk&_)]).
  - destruct OperatorSample.req_ok. by split.
  - split; [intros k0 x; simpl; by rewrite lookup_empty|by intros x].
  - done.
  - apply lookup_singleton_eq.
  - split; [apply NoDup_singleton|vm_compute; discriminate].
  - intros d. unfold PipelineSample.s0. cbn. by rewrite lookup_singleton_ne.
  - apply surjective_pairing.
  - exfalso. apply PipelineSample.run_wrote. exact Hi.
  - exists s', d, a, c. split_and!; [exact PipelineSample.run_ok|exact Hs|exact Hc|exact Hn|exact Hb| |].
    + destruct Hi as [Hi|[He _]]; [exact Hi|]. rewrite PipelineSample.run_ok in He. discriminate He.
    + intros i Hid. destruct (Hk i Hid) as [(r1&r2&x&_&H1&H2&_&_&Hne&_)|Hm]; [|exact Hm].
      apply list_elem_of_singleton in H1, H2. subst r1 r2. by destruct Hne.
Defined.
